(* ===== verification/_CoqProject ===== *)
-Q . S2P
Prelude.v
Text.v
Nodes.v
Evidence.v
Condition.v
Decimals.v
JsonEquality.v
Predicates.v
Document.v
Validated.v
Failures.v
Validation.v
Graph.v
Requirements.v
Capacity.v
Runtime.v
RunTiming.v
Results.v
Publication.v
SchemaCommon.v
ResultMetadata.v
DocumentChecks.v
RunResults.v
ValidDocuments.v
ConditionTypes.v
CancellationSource.v
CancellationQueue.v
Reducer.v
ExportReasons.v
OccurrenceDigest.v
Coordinator.v
Moves.v
Refinement.v
Views.v
Stabilize.v
Occurrences.v
Runs.v
Ceiling.v
NodeSteps.v
NodeInvariants.v
Phases.v
History.v
Scheduling.v
Containment.v
Numbering.v
Termination.v
Quiet.v
Cancelling.v
Progress.v
Outcomes.v
Reasons.v
Stops.v
Endings.v
ValidWorkflows.v
FinishedRuns.v
ResultChecks.v
ConditionRuns.v
Coordination.v
Resources.v
Scenario.v
CapacityContract.v
Divergences.v
Correctness.v
CoordinatorRuns.v
ValidatedRuns.v
ResultClaims.v
Continuation.v
Partitions.v
Attempts.v
AttemptChecks.v
Commits.v
Settlement.v
Inheritance.v
SeedLoading.v
ContinuedStates.v
SeedAvailability.v
ContinuationClaims.v
CommitClaims.v
