(* ===== verification/Prelude.v ===== *)
(** * Useful Machinery CLI: verification of the workflow engine

    The program runs workflows: directed graphs of command and agent steps,
    followed by finalizers, with conditions, recovery rounds, cancellation and
    force abort.  Its engine is [crates/execution/src/workflow].  A document
    (document.rs) is validated into a [ValidatedWorkflow] (validation.rs,
    validated.rs); admission computes how many transitions, invocations and
    bytes a run may need and refuses what does not fit (capacity.rs,
    admission.rs); a pure reducer owns the run (runtime.rs).  The coordinator
    (coordinator.rs) waits for cancellation operations (admission.rs) and for
    the occurrences that drivers report, hands them to the reducer one at a
    time, commits what [reduce] returns, and only then releases its actions.
    The reducer evaluates conditions (condition.rs) and records evidence about
    every node that did not simply succeed (evidence.rs).  A finished run is
    turned into a result (run.rs), published in a versioned form
    (publication.rs) that its readers check (result_metadata.rs).  A local run
    keeps the state of its attempts on disk (local_run.rs); a later attempt can
    continue it, executing some steps again and inheriting the others
    (continuation.rs).

    ** The files, and the code they model

    - [Prelude]: results, checked and saturating arithmetic of fixed width,
      ordered maps ([BTreeMap]) as sorted association lists, automation.
    - [Text]: the string operations of the standard library, on UTF-8 bytes.
    - [Nodes]: the enumerations shared by all components.
    - [Evidence]: evidence.rs.
    - [Condition]: condition.rs, JSON pointers, decimal numbers, JSON
      equality and predicates.  [Decimals], [JsonEquality] and [Predicates]
      have their theorems.
    - [Document]: document.rs and the harness configurations of pi.rs,
      claude_code.rs and codex.rs.  [Validation]: validation.rs, one
      definition per function and per loop body.  [Validated]: validated.rs
      and finalization_context.rs.
    - [Graph], [Requirements], [ValidDocuments], [ConditionTypes]: what
      validation computes.  The presentation order of a graph is its greedy
      topological order; prerequisites are what a document requires;
      conditions resolve to well-typed predicates.
    - [Capacity]: capacity.rs, [admit_capacity] of admission.rs and the
      checks [valid_cloud_capacity] of result_metadata.rs; [CapacityContract]
      has their theorems.
    - [Runtime]: the data of runtime.rs, one record or inductive type per
      struct or enum.  [Reducer]: its functions, one definition each, from
      [next_sequence] to [reduce] and [initialize_seeded_definition].  A
      function on [&mut Reduction] is a function from [Reduction] to
      [Reduction], paired with its result where it returns one; the map of
      nodes is a [gmap], the definition keeps the order of the source's
      [BTreeMap].
    - [CancellationSource]: the cancellation operations of admission.rs, with
      the messages each method sends after it released its lock;
      [CancellationQueue]: any number of threads calling it in any
      interleaving, and the subscription.
    - [OccurrenceDigest], [Coordinator]: coordinator.rs, the content and
      identity of occurrences, and the run loop as a function from the inputs
      of its turns to its effects.  [Coordination], [Resources] and
      [CoordinatorRuns] have their theorems.
    - [Moves], [Refinement], [Views], [Stabilize],
      [Occurrences], [Runs]: the abstract transition system and the proof
      that the reducer refines it.  [Moves] states the moves of a run with
      the conditions the code makes them under; [Stabilize] and
      [Occurrences] show that every function is a sequence of moves.
    - [NodeSteps], [NodeInvariants], [Phases], [Scheduling], [Containment],
      [Numbering], [Ceiling], [Termination]: invariants by
      induction on moves, the potential function behind the ceiling, and the
      termination of the loops.
    - [Quiet], [Cancelling], [Progress]: what a stabilised run that has no
      active node looks like.  [ValidWorkflows], [ConditionRuns]: the
      hypotheses of the engine that validation discharges, and the evaluation
      of validated conditions in a run.
    - [Failures]: the failure types of the adapters (step_runtime.rs, input.rs,
      agent_input.rs, agent.rs, artifact.rs, git_capture.rs, recovery.rs) and
      their two records, as evidence and as entries of a result.
    - [RunTiming]: run_timing.rs, what an observer keeps of the times of a run.
    - [Results]: the data of results; [Publication]: the builders of
      publication.rs; [RunResults]: from the final state of a run to its result
      (execution.rs, run.rs, and the cancellation a runner reports);
      [SchemaCommon], [ResultMetadata]: every check of a reader of a result
      (schema_common.rs, result_metadata.rs); [ExportReasons]: the reasons of
      unavailable exports, in results and in archived attempts.
    - [History], [Outcomes], [Reasons], [Stops], [Endings]: invariants that tie
      the log of a run, its outcome and its cancellations to its nodes.
      [FinishedRuns], [ResultChecks], [DocumentChecks]: what is built of a finished run, and the checks it
      passes; [ResultClaims] has the theorems.
    - [Continuation]: continuation.rs.  [Attempts]: the recorded state of local
      runs (local_run.rs), its index, the start of a continuation
      ([PendingLocalContinuation::begin]), the settlement of abandoned attempts
      and the loading of seeds.  [AttemptChecks]: [validate_state] with all its
      parts, the update of the store, and the updates of continuing, settling
      and retrying a run.  [Commits]: what a running attempt records, from
      [StateStore::commit_runtime] with its ledger of invocations to the
      records of guards, results and faults.
    - [Partitions], [Settlement], [Inheritance], [SeedLoading],
      [ContinuedStates], [SeedAvailability]: what a
      continuation computes, which checks settling and continuing keep, and
      that its seed can be loaded; [ContinuationClaims] and [CommitClaims] have
      the theorems.
    - [Scenario]: a concrete instance of the parameters and a sample
      workflow; [Correctness], [ValidatedRuns]: the properties of runs, and of
      runs of validated documents, with their concrete instances;
      [Divergences]: runs that depart from the documentation.

    ** What the theorems show

    From documents to runs ([ValidatedRuns]): a graph is accepted exactly
    when it is acyclic, and its presentation order is topological;
    prerequisites and data references are exactly the authorised ones; every
    run of a document that validation and admission accept stays within the
    ceiling that admission computed, evaluates its conditions without type
    errors, and always has a node to wait for until it is finished, with one
    exception that [Divergences] exhibits.

    Of the reducer ([Correctness]): it refines the transition system of
    moves; no node starts before its prerequisites are satisfied, nor beyond
    the parallelism limit; terminal nodes never change; finalizers wait for
    the ordinary steps and a run ends when all nodes are terminal; a
    successful run hides no required failure; recovery rounds are bounded and
    numbered; rejected occurrences change nothing; an accepted cancellation
    contains every ordinary step for good; every loop of stabilisation ends.

    Of the coordinator ([CoordinatorRuns], [Resources], [OccurrenceDigest]):
    commits and their events are numbered without gaps; actions follow the
    commits that record them; it returns the state of its last commit;
    provisional resources are handed on
    exactly once; equal digests mean equal occurrences; an admitted run never
    fails for lack of capacity.  Of cancellation ([CancellationQueue]): the
    queue is bounded, operations are delivered once and in order, and none is
    lost when the subscriber goes to sleep.

    Of results ([ResultClaims], [ExportReasons], [Failures]): every finished
    run of a validated workflow has a result, and what is published of it
    passes the checks of its readers on how the run ended; the two records of
    a failure agree; the reasons of unavailable exports agree but for one.

    Of continuations ([ContinuationClaims]): exactly the steps reached from the
    selection are executed again; the continuation of a valid state is recorded
    in a valid state, unless the attempt before is stuck; its seed can be
    loaded, and is what the theorems on runs assume of a seed ([seed_wf],
    [seed_complete], [fresh_step]).

    Of commits ([CommitClaims]): a commit that succeeds writes a valid state
    that records the run it commits, with every action that may be released.

    Of capacity: what admission accepts under the cloud contract passes every
    check of a reader of the result.  Of conditions: equality of numbers and
    documents is exact, pointers round-trip, evaluation is the boolean
    reading.

    Seven defects of the code are theorems: conditions on missing parts of
    inputs, the cloud ceiling, and runs that hang after a failure
    ([Divergences]); failures of conditions that cannot be read back
    ([Failures]); exports of blocked finalizers ([ExportReasons]); runs that a
    runner refuses ([ResultClaims]); and attempts that died in a recovery,
    whose run can be neither settled nor continued ([CommitClaims]).

    ** Fuel

    The propagation and condition loops have one unit of fuel more than the
    nodes they range over, [stabilize] one more than the transitions left
    below the ceiling.  [Termination] relates each loop to the loop of the
    source, given by a finite derivation, so the fuel never stops a loop: each
    iteration settles a pending node, evaluates a condition, or takes a
    transition number.  The loop over finalizers whose inputs are
    unavailable needs the recorded references to be representable
    ([definition_evidence_ok]); validation guarantees it ([ValidWorkflows]).
    The loop of [validate_graph] has one unit more than the nodes: every turn
    takes a node that no other turn takes.  The coordinator's loop is a
    function of the list of inputs it receives, so it needs none.  The queue
    of [partition] has fuel for the selection and all steps ([queue_fuel];
    [Partitions] shows that it is enough), and [follow_definition] one more
    than there are attempts, since it follows no locator twice.

    ** Parameters

    Code outside these files enters through classes: [SerdeJson] (the
    functions of the serde_json crate called on the finalization context),
    [NodeFailureSource] (the failure types of the adapters, whose detail the
    trait of the same name supplies), [ConditionOutput] and
    [ProvisionalStepResources] (the output and provisional result types of
    the adapters), [HarnessDecoder] (serde_json decoding of a harness
    configuration), [Watch] (the watch channels of tokio), [Sha256] (the
    digest of ring), [DriverOccurrenceContent] (what the drivers add to the
    content of an occurrence), [CoordinatorClock], [TimeLibrary] and
    [TimeDifference] (the time crate), [Base64], [MediaTypes] (the media types a
    result may carry) and [RetainedFiles] (reading the files of a run).  What
    the clock, the file system, git and the processes answer to the start of a
    continuation and to a commit are the fields of [ContinuationStart] and
    [CommitAnswers].  [SerdeJsonLaws] (what
    is serialised can be read), [WatchLaws] (a channel holds the last value
    sent, and a receiver sees every change) and [ContentLaws] (drivers encode
    their values injectively) state what their documentation says, and have
    instances.  What the schema guarantees of a document is [document_wf].
    The theorems on results assume that the observer saw the log ([times_log])
    and the recoveries and outputs of the run were kept ([recoveries_kept],
    [outputs_timed]); those on continuations that the system gave well-formed
    times, identifiers and paths ([start_valid]) and that the files of earlier
    attempts are there ([files_readable]).

    ** What is not modelled

    Processes, files, HTTP and rendering: the adapters, artifact capture,
    the writing of results and of the files of a run, locks, the terminal
    interface, the cloud client and the runner, the command line, and the
    reading of documents from YAML and JSON.  Of local_run.rs, the files of a run
    with their manifests, locks, process quiescence and the listing of
    recoverable runs. *)

From Stdlib Require Export NArith ZArith Lia.
From stdpp Require Export base tactics option sorting numbers strings gmap list.

(** ** Scope and automation *)

Declare Scope um_scope.
Delimit Scope um_scope with um.
Open Scope um_scope.

Create HintDb um.

(** Split every conjunction and existential of the context. *)
Ltac split_hyps :=
  repeat match goal with
  | H : _ ∧ _ |- _ => destruct H
  | H : ∃ _, _ |- _ => destruct H
  end.

(** Case analysis on the scrutinee of the first [match] found in the goal or
    in a hypothesis, keeping the equation. *)
Ltac case_scrutinee :=
  match goal with
  | |- context [match ?x with _ => _ end] =>
      lazymatch x with
      | context [match _ with _ => _ end] => fail
      | _ => destruct x eqn:?
      end
  | H : context [match ?x with _ => _ end] |- _ =>
      lazymatch x with
      | context [match _ with _ => _ end] => fail
      | _ => destruct x eqn:?
      end
  end.

(** ** Results: the [Result<T, E>] of the source *)

Inductive result (T E : Type) : Type :=
| Ok (value : T)
| Err (error : E).
Arguments Ok {T E} value.
Arguments Err {T E} error.

Definition result_bind {T U E} (r : result T E) (k : T → result U E) : result U E :=
  match r with Ok v => k v | Err e => Err e end.

Notation "'let?' x ':=' r 'in' k" := (result_bind r (λ x, k))
  (at level 10, x pattern, k at level 200) : um_scope.

Definition result_ok {T E} (r : result T E) : option T :=
  match r with Ok v => Some v | Err _ => None end.

Definition ok_or {T E} (o : option T) (e : E) : result T E :=
  match o with Some v => Ok v | None => Err e end.

(** The values of a successful result, as [Result::into_iter] gives them. *)
Definition result_to_list {T E} (v : result T E) : list T :=
  match v with Ok v => [v] | Err _ => [] end.

Lemma result_bind_Ok {T U E} (r : result T E) (k : T → result U E) (u : U) :
  result_bind r k = Ok u ↔ ∃ v, r = Ok v ∧ k v = Ok u.
Proof. destruct r; naive_solver. Qed.

Lemma ok_or_Ok {T E} (o : option T) (e : E) (v : T) : ok_or o e = Ok v ↔ o = Some v.
Proof. destruct o; naive_solver. Qed.

(** ** Machine integers

    An unsigned [w]-bit integer is an [N] below [2 ^ w]; the checked and
    saturating operations of the source are written out. *)

Definition u64_max : N := 18446744073709551615.
Definition u8_max : N := 255.

Definition checked_add (m a b : N) : option N :=
  if decide (a + b <= m)%N then Some (a + b)%N else None.
Definition checked_mul (m a b : N) : option N :=
  if decide (a * b <= m)%N then Some (a * b)%N else None.
Definition checked_sub (a b : N) : option N :=
  if decide (b <= a)%N then Some (a - b)%N else None.
Definition saturating_add (m a b : N) : N := N.min m (a + b).

Abbreviation u64_add := (checked_add u64_max).
Abbreviation u64_mul := (checked_mul u64_max).

Lemma checked_add_Some m a b c : checked_add m a b = Some c ↔ c = (a + b)%N ∧ (a + b <= m)%N.
Proof. unfold checked_add. case_decide; naive_solver. Qed.

Lemma checked_mul_Some m a b c : checked_mul m a b = Some c ↔ c = (a * b)%N ∧ (a * b <= m)%N.
Proof. unfold checked_mul. case_decide; naive_solver. Qed.

Lemma checked_sub_Some a b c : checked_sub a b = Some c ↔ c = (a - b)%N ∧ (b <= a)%N.
Proof. unfold checked_sub. case_decide; naive_solver. Qed.

(** ** Ordered maps: the [BTreeMap<String, A>] of the source

    Where the source iterates over a [BTreeMap] the order of the visit is
    part of its behaviour, so such a map is the list of its entries in
    ascending byte order of the keys.  Maps that are only looked up are
    [gmap]s. *)

Abbreviation btree A := (list (string * A)).

Section btree.
Context {A : Type}.
Implicit Types (m : btree A) (k : string).

Fixpoint bt_get m k : option A :=
  match m with
  | [] => None
  | (k', v) :: m' => if decide (k = k') then Some v else bt_get m' k
  end.

Fixpoint bt_insert m k (v : A) : btree A :=
  match m with
  | [] => [(k, v)]
  | (k', v') :: m' =>
      match String.compare k k' with
      | Lt => (k, v) :: m
      | Eq => (k, v) :: m'
      | Gt => (k', v') :: bt_insert m' k v
      end
  end.

Definition bt_keys m : list string := fst <$> m.
Definition bt_values m : list A := snd <$> m.
Definition bt_contains_key m k : bool := bool_decide (is_Some (bt_get m k)).

(** [collect] of an iterator of pairs: later entries replace earlier ones. *)
Definition bt_collect (l : list (string * A)) : btree A :=
  foldl (λ m '(k, v), bt_insert m k v) [] l.

(** Keys in strictly ascending order, which a [BTreeMap] guarantees. *)
Definition bt_wf m : Prop := StronglySorted (λ a b, String.compare a b = Lt) (bt_keys m).

Lemma string_compare_refl k : String.compare k k = Eq.
Proof.
  pose proof (String.compare_antisym k k) as H.
  destruct (String.compare k k); simpl in H; congruence.
Qed.

Lemma bt_get_insert_eq m k v : bt_get (bt_insert m k v) k = Some v.
Proof.
  induction m as [|[k' v'] m IH]; simpl; [by case_decide|].
  destruct (String.compare k k') eqn:E; simpl; case_decide; try done.
  subst. rewrite string_compare_refl in E. done.
Qed.

Lemma bt_get_insert_ne m k k' v : k' ≠ k → bt_get (bt_insert m k v) k' = bt_get m k'.
Proof.
  intros Hne. induction m as [|[k'' v'] m IH]; simpl; [by case_decide|].
  destruct (String.compare k k'') eqn:E; simpl.
  - apply String.compare_eq_iff in E. subst. by case_decide.
  - by case_decide.
  - case_decide; [done|]. apply IH.
Qed.

Lemma bt_get_elem_of m k v : bt_get m k = Some v → (k, v) ∈ m.
Proof.
  induction m as [|[k' v'] m IH]; simpl; [done|].
  case_decide; intros; simplify_eq; [left|right]; auto.
Qed.

Lemma bt_get_is_Some m k : is_Some (bt_get m k) ↔ k ∈ bt_keys m.
Proof.
  induction m as [|[k' v'] m IH]; csimpl.
  - rewrite elem_of_nil. split; [by intros [??]|done].
  - rewrite elem_of_cons. case_decide; subst; [naive_solver eauto|].
    rewrite IH. naive_solver.
Qed.

Lemma bt_get_NoDup m k v : NoDup (bt_keys m) → (k, v) ∈ m → bt_get m k = Some v.
Proof.
  induction m as [|[k' v'] m IH]; intros Hnd Hin; simpl; [by apply elem_of_nil in Hin|].
  apply NoDup_cons in Hnd as [Hnin Hnd]. apply elem_of_cons in Hin as [Heq|Hin].
  - simplify_eq. by case_decide.
  - case_decide; subst; [|by apply IH].
    exfalso. apply Hnin. unfold bt_keys. apply list_elem_of_fmap. by exists (k', v).
Qed.

Lemma bt_wf_NoDup m : bt_wf m → NoDup (bt_keys m).
Proof.
  unfold bt_wf. induction (bt_keys m) as [|k ks IH]; intros Hs; [constructor|].
  apply StronglySorted_cons in Hs as [Hall Hs]. constructor; [|by apply IH].
  intros Hin. rewrite Forall_forall in Hall. specialize (Hall k Hin).
  by rewrite string_compare_refl in Hall.
Qed.
End btree.

(** ** [collect] into a [BTreeMap] *)

Lemma bt_insert_Permutation {A} (m : btree A) k v :
  k ∉ bt_keys m → bt_insert m k v ≡ₚ (k, v) :: m.
Proof.
  induction m as [|[k' v'] m IH]; intros Hk; simpl; [done|]. unfold bt_keys in *. rewrite fmap_cons in Hk.
  apply not_elem_of_cons in Hk as [Hne Hk].
  destruct (String.compare k k') eqn:E; [|done|].
  - apply String.compare_eq_iff in E. done.
  - rewrite IH by done. apply Permutation_swap.
Qed.

Lemma bt_collect_Permutation {A} (l : list (string * A)) :
  NoDup (bt_keys l) → bt_collect l ≡ₚ l.
Proof.
  unfold bt_collect. cut (∀ m, NoDup (bt_keys (m ++ l)) →
    foldl (λ m '(k, v), bt_insert m k v) m l ≡ₚ (m ++ l)%list); [intros Hc; apply (Hc [])|].
  induction l as [|[k v] l IH]; intros m Hnd; simpl; [by rewrite app_nil_r|].
  assert (Hperm : m ++ (k, v) :: l ≡ₚ (k, v) :: m ++ l) by (symmetry; apply Permutation_middle).
  unfold bt_keys in Hnd. rewrite Hperm, fmap_cons in Hnd. apply NoDup_cons in Hnd as [Hnin Hnd].
  assert (Hk : bt_insert m k v ≡ₚ (k, v) :: m).
  { apply bt_insert_Permutation. intros Hin. apply Hnin. rewrite fmap_app. apply elem_of_app. by left. }
  rewrite IH.
  - by rewrite Hk, Hperm.
  - unfold bt_keys. rewrite Hk. rewrite <-app_comm_cons, fmap_cons. by constructor.
Qed.

Lemma bt_get_collect {A} (l : list (string * A)) k :
  NoDup (bt_keys l) → bt_get (bt_collect l) k = bt_get l k.
Proof.
  intros Hnd. pose proof (bt_collect_Permutation l Hnd) as Hperm.
  assert (Hnd' : NoDup (bt_keys (bt_collect l))) by (unfold bt_keys in *; by rewrite Hperm).
  destruct (bt_get l k) as [v|] eqn:Hk.
  - apply bt_get_NoDup; [done|]. rewrite Hperm. by apply bt_get_elem_of.
  - destruct (bt_get (bt_collect l) k) as [v|] eqn:Hk'; [|done].
    apply bt_get_elem_of in Hk'. rewrite Hperm in Hk'. apply bt_get_NoDup in Hk'; [congruence|done].
Qed.

Lemma bt_get_fmap {A B} (f : string → A → B) (m : btree A) k :
  bt_get ((λ '(k, v), (k, f k v)) <$> m) k = f k <$> bt_get m k.
Proof. induction m as [|[k' v'] m IH]; simpl; [done|]. case_decide; by subst. Qed.

Lemma bt_get_app {A} (l m : btree A) k :
  bt_get (l ++ m) k = match bt_get l k with Some v => Some v | None => bt_get m k end.
Proof. induction l as [|[k' v'] l IH]; simpl; [done|]. by case_decide. Qed.

Lemma bt_keys_fmap {A B} (f : string → A → B) (m : btree A) :
  bt_keys ((λ '(k, v), (k, f k v)) <$> m) = bt_keys m.
Proof. unfold bt_keys. rewrite <-list_fmap_compose. apply list_fmap_ext. by intros ? [] ?. Qed.

(** ** The order of keys *)

Lemma string_compare_le s t : String.compare s t ≠ Gt ↔ String.le s t.
Proof.
  unfold String.le, String.leb. destruct (String.compare s t); simpl; naive_solver.
Qed.

Lemma string_compare_lt_trans s t u :
  String.compare s t = Lt → String.compare t u = Lt → String.compare s u = Lt.
Proof.
  intros Hst Htu.
  assert (Hle : String.le s u).
  { transitivity t; apply string_compare_le; congruence. }
  destruct (String.compare s u) eqn:E; [|done|by apply string_compare_le in Hle].
  apply String.compare_eq_iff in E. subst u.
  pose proof (String.compare_antisym s t) as Ha. rewrite Hst, Htu in Ha. done.
Qed.

Lemma elem_of_bt_keys_insert {A} (m : btree A) k v k' : k' ∈ bt_keys (bt_insert m k v) ↔ k' = k ∨ k' ∈ bt_keys m.
Proof.
  unfold bt_keys. induction m as [|[k1 v1] m IH]; simpl; [set_solver|].
  destruct (String.compare k k1) eqn:E; csimpl; [apply String.compare_eq_iff in E; subst| |]; set_solver.
Qed.

Lemma bt_wf_insert {A} (m : btree A) k v : bt_wf m → bt_wf (bt_insert m k v).
Proof.
  unfold bt_wf. induction m as [|[k1 v1] m IH]; [intros _; repeat constructor|].
  intros Hs. pose proof Hs as [Hs' Hall]%StronglySorted_inv. simpl. destruct (String.compare k k1) eqn:E.
  - apply String.compare_eq_iff in E. subst k1. done.
  - constructor; [done|]. constructor; [done|]. eapply Forall_impl; [exact Hall|]. intros x Hx.
    by eapply string_compare_lt_trans.
  - constructor; [by apply IH|]. apply Forall_forall. intros x [->|Hx]%elem_of_bt_keys_insert.
    + cbn. by rewrite (String.compare_antisym k1 k), E.
    + by eapply Forall_forall in Hall.
Qed.

Lemma bt_insert_last {A} (m : btree A) k v :
  Forall (λ a, String.compare a k = Lt) (bt_keys m) → bt_insert m k v = m ++ [(k, v)].
Proof.
  induction m as [|[k1 v1] m IH]; intros Hall; simpl; [done|].
  apply Forall_cons in Hall as [Hk Hall]. simpl in Hk.
  rewrite (String.compare_antisym k k1), Hk. simpl. by rewrite IH.
Qed.

(** Entries already in order collect to themselves. *)
Lemma bt_collect_id {A} (l : btree A) : bt_wf l → bt_collect l = l.
Proof.
  unfold bt_collect, bt_wf, bt_keys. induction l as [|[k v] l IH] using rev_ind; intros Hs; [done|].
  rewrite foldl_app. simpl. rewrite fmap_app in Hs.
  assert (StronglySorted (λ a b, String.compare a b = Lt) l.*1) as Hl by (by eapply StronglySorted_app_1_l).
  rewrite IH by done. apply bt_insert_last, Forall_forall. intros a Ha.
  eapply StronglySorted_app_1_elem_of in Hs; [exact Hs|done|]. simpl. by left.
Qed.

(** ** Sums over finite maps *)

Definition map_sum {A} (f : string → A → N) (m : gmap string A) : N :=
  foldr N.add 0%N ((λ '(k, a), f k a) <$> map_to_list m).

Section map_sum.
Context {A : Type}.
Implicit Types (f g : string → A → N) (m : gmap string A).

Lemma foldr_add_Permutation (l k : list N) : l ≡ₚ k → foldr N.add 0%N l = foldr N.add 0%N k.
Proof. induction 1; simpl; lia. Qed.

Lemma map_sum_delete f m k a : m !! k = Some a → map_sum f m = (f k a + map_sum f (delete k m))%N.
Proof.
  intros Hk. unfold map_sum.
  rewrite (foldr_add_Permutation _ ((λ '(k, a), f k a) <$> (k, a) :: map_to_list (delete k m))); [done|].
  apply fmap_Permutation. symmetry. by apply map_to_list_delete.
Qed.

Lemma map_sum_insert f m k a b :
  m !! k = Some a → (map_sum f (<[k := b]> m) + f k a = map_sum f m + f k b)%N.
Proof.
  intros Hk. rewrite (map_sum_delete f m k a Hk), (map_sum_delete f (<[k := b]> m) k b) by apply lookup_insert_eq.
  rewrite delete_insert_eq. lia.
Qed.

Lemma map_sum_le f g m :
  (∀ k a, m !! k = Some a → (f k a <= g k a)%N) → (map_sum f m <= map_sum g m)%N.
Proof.
  intros Hle. unfold map_sum.
  assert (Hall : ∀ k a, (k, a) ∈ map_to_list m → (f k a <= g k a)%N)
    by (intros k a Hin; apply Hle; by apply elem_of_map_to_list).
  induction (map_to_list m) as [|[k a] l IH]; simpl; [lia|].
  apply N.add_le_mono; [apply Hall; left|apply IH; intros; apply Hall; by right].
Qed.

Lemma map_sum_lookup_le f m k a : m !! k = Some a → (f k a <= map_sum f m)%N.
Proof. intros Hk. rewrite (map_sum_delete f m k a Hk). lia. Qed.
End map_sum.

(** ** Lists *)

(** [Iterator::find_map]. *)
Fixpoint find_map {A B} (f : A → option B) (l : list A) : option B :=
  match l with
  | [] => None
  | y :: l' => match f y with Some b => Some b | None => find_map f l' end
  end.

Lemma find_map_Some {A B} (f : A → option B) l b : find_map f l = Some b → ∃ y, y ∈ l ∧ f y = Some b.
Proof.
  induction l as [|y l IH]; simpl; [done|]. destruct (f y) eqn:Hy.
  - intros [= <-]. exists y. by split; [left|].
  - intros (z & ? & ?)%IH. exists z. by split; [right|].
Qed.

Lemma find_map_None {A B} (f : A → option B) l y : find_map f l = None → y ∈ l → f y = None.
Proof.
  induction l as [|z l IH]; simpl; [by intros _ ?%elem_of_nil|].
  destruct (f z) eqn:Hz; [done|]. intros Hf [->|Hin]%elem_of_cons; auto.
Qed.

(** [last_mut] followed by an update. *)
Fixpoint update_last {A} (f : A → A) (l : list A) : list A :=
  match l with
  | [] => []
  | [y] => [f y]
  | y :: l' => y :: update_last f l'
  end.

Lemma update_last_snoc {A} (f : A → A) l y : update_last f (l ++ [y]) = (l ++ [f y])%list.
Proof. induction l as [|z [|z' l] IH]; simpl in *; [done..|]. by rewrite IH. Qed.

Lemma fmap_update_last {A B} (g : A → B) (f : A → A) l :
  (∀ y, g (f y) = g y) → g <$> update_last f l = g <$> l.
Proof.
  intros Hg. induction l as [|z [|z' l] IH]; [done| |].
  - simpl. by rewrite Hg.
  - change (update_last f (z :: z' :: l)) with (z :: update_last f (z' :: l)). by rewrite fmap_cons, IH.
Qed.

Lemma length_update_last {A} (f : A → A) l : length (update_last f l) = length l.
Proof. induction l as [|z [|z' l] IH]; simpl in *; [done..|]. by rewrite IH. Qed.
