(* ===== verification/Text.v ===== *)
(** * Strings as UTF-8 byte sequences

    A Rust [str] is the [string] of its UTF-8 bytes.  The file has the
    standard-library operations the source uses on strings ([split],
    [strip_prefix], [split_once], the ASCII classes of [u8], decimal
    formatting of an unsigned integer) and the lemmas the components share. *)

From S2P Require Import Prelude.
From Stdlib Require Export Ascii.

Open Scope string_scope.

(** ** Byte classes *)

Definition byte_code (c : ascii) : N := N_of_ascii c.

Definition is_ascii_digit (c : ascii) : bool :=
  (48 <=? byte_code c)%N && (byte_code c <=? 57)%N.
Definition is_ascii_lowercase (c : ascii) : bool :=
  (97 <=? byte_code c)%N && (byte_code c <=? 122)%N.
Definition is_ascii_uppercase (c : ascii) : bool :=
  (65 <=? byte_code c)%N && (byte_code c <=? 90)%N.
Definition is_ascii_alphabetic (c : ascii) : bool :=
  is_ascii_lowercase c || is_ascii_uppercase c.
Definition is_ascii_alphanumeric (c : ascii) : bool :=
  is_ascii_alphabetic c || is_ascii_digit c.

(** The byte of a double quote, which a string literal here cannot hold. *)
Definition dquote : ascii := ascii_of_N 34.
Definition dq : string := String dquote "".

Definition bytes (s : string) : list ascii := String.list_ascii_of_string s.
Definition of_bytes (l : list ascii) : string := String.string_of_list_ascii l.
Definition str_len (s : string) : N := N.of_nat (String.length s).
Definition str_is_empty (s : string) : bool := bool_decide (s = "").

Lemma append_String c s t : String c s ++ t = String c (s ++ t).
Proof. done. Qed.

Lemma append_empty_l s : "" ++ s = s.
Proof. done. Qed.

Lemma of_bytes_bytes s : of_bytes (bytes s) = s.
Proof. apply String.string_of_list_ascii_of_string. Qed.

Lemma bytes_of_bytes l : bytes (of_bytes l) = l.
Proof. apply String.list_ascii_of_string_of_list_ascii. Qed.

Lemma bytes_app s t : bytes (s ++ t) = (bytes s ++ bytes t)%list.
Proof. induction s as [|c s IH]; [done|]. rewrite append_String. exact (f_equal (cons c) IH). Qed.

Lemma bytes_inj s t : bytes s = bytes t → s = t.
Proof. intros H. rewrite <-(of_bytes_bytes s), <-(of_bytes_bytes t). by rewrite H. Qed.

(** ** Splitting *)

(** [str::split] on one ASCII byte: always at least one segment. *)
Fixpoint str_split (sep : ascii) (s : string) : list string :=
  match s with
  | "" => [""]
  | String c s' =>
      if decide (c = sep) then "" :: str_split sep s'
      else match str_split sep s' with
           | [] => [String c ""]
           | seg :: segs => String c seg :: segs
           end
  end.

(** [str::strip_prefix] with a one-byte pattern. *)
Definition strip_prefix (c : ascii) (s : string) : option string :=
  match s with
  | String c' s' => if decide (c' = c) then Some s' else None
  | "" => None
  end.

(** [split_once] at the first byte satisfying [p]; [find] and the two
    slices around the offset are the same operation. *)
Fixpoint split_once_by (p : ascii → bool) (s : string) : option (string * string) :=
  match s with
  | "" => None
  | String c s' =>
      if p c then Some ("", s')
      else match split_once_by p s' with
           | Some (l, r) => Some (String c l, r)
           | None => None
           end
  end.

(** The segments joined by the separator, the left inverse of [str_split]. *)
Fixpoint str_join (sep : ascii) (segs : list string) : string :=
  match segs with
  | [] => ""
  | [seg] => seg
  | seg :: segs' => seg ++ String sep (str_join sep segs')
  end.

Lemma str_split_not_nil sep s : str_split sep s ≠ [].
Proof. destruct s as [|c s]; simpl; [done|]. case_decide; [done|]. by destruct (str_split sep s). Qed.

Lemma str_join_split sep s : str_join sep (str_split sep s) = s.
Proof.
  induction s as [|c s IH]; simpl; [done|].
  pose proof (str_split_not_nil sep s) as Hn.
  destruct (str_split sep s) as [|seg segs] eqn:E; [done|].
  case_decide as Hc; [subst c; simpl in *; by rewrite IH|].
  destruct segs; simpl in *; exact (f_equal (String c) IH).
Qed.

Lemma str_split_app sep s t :
  sep ∉ bytes s → str_split sep (s ++ String sep t) = s :: str_split sep t.
Proof.
  induction s as [|c s IH]; intros Hn.
  - rewrite append_empty_l. simpl. by rewrite decide_True.
  - apply not_elem_of_cons in Hn as [Hc Hn]. rewrite append_String. simpl.
    rewrite decide_False by congruence. by rewrite IH.
Qed.

Lemma str_split_none sep s : sep ∉ bytes s → str_split sep s = [s].
Proof.
  induction s as [|c s IH]; simpl; intros Hn; [done|].
  apply not_elem_of_cons in Hn as [Hc Hn].
  rewrite decide_False by congruence. by rewrite IH.
Qed.

Lemma str_split_join sep segs :
  segs ≠ [] → Forall (λ seg, sep ∉ bytes seg) segs → str_split sep (str_join sep segs) = segs.
Proof.
  induction segs as [|seg segs IH]; intros Hne Hall; [done|].
  apply Forall_cons in Hall as [Hseg Hall].
  destruct segs as [|seg' segs]; simpl; [by apply str_split_none|].
  rewrite str_split_app by done. f_equal. by apply IH.
Qed.

(** A byte outside the class of a segment does not occur in it. *)
Lemma forallb_not_elem (p : ascii → bool) (c : ascii) l :
  forallb p l = true → p c = false → c ∉ l.
Proof.
  intros Hall Hc Hin. rewrite forallb_forall in Hall.
  apply list_elem_of_In, Hall in Hin. congruence.
Qed.

(** ** Decimal formatting: [to_string] of an unsigned integer *)

Definition digit_char (d : N) : ascii := ascii_of_N (48 + d).

Fixpoint decimal_digits_fuel (fuel : nat) (n : N) : list N :=
  match fuel with
  | O => []
  | S fuel =>
      if decide (n < 10)%N then [n]
      else (decimal_digits_fuel fuel (n / 10) ++ [(n mod 10)%N])%list
  end.

(** Decimal digits, most significant first; the binary length bounds the
    number of divisions by ten. *)
Definition decimal_digits (n : N) : list N := decimal_digits_fuel (S (N.to_nat (N.size n))) n.

Definition to_string (n : N) : string := of_bytes (digit_char <$> decimal_digits n).

Definition digits_value (l : list N) : N := foldl (λ acc d, 10 * acc + d)%N 0%N l.

Lemma digits_value_snoc l d : digits_value (l ++ [d]) = (10 * digits_value l + d)%N.
Proof. unfold digits_value. by rewrite foldl_app. Qed.

Lemma size_div_10 n : (10 <= n)%N → (N.size (n / 10) < N.size n)%N.
Proof.
  intros Hn. rewrite !N.size_log2 by (try apply N.neq_0_lt_0, N.div_str_pos; lia).
  apply (proj1 (N.succ_lt_mono _ _)).
  apply N.log2_lt_pow2; [apply N.div_str_pos; lia|].
  pose proof (N.log2_spec n ltac:(lia)) as [_ Hlt].
  apply N.Div0.div_lt_upper_bound. rewrite N.pow_succ_r' in Hlt. lia.
Qed.

Lemma decimal_digits_fuel_value fuel n :
  (N.to_nat (N.size n) < fuel)%nat → digits_value (decimal_digits_fuel fuel n) = n.
Proof.
  revert n. induction fuel as [|fuel IH]; intros n Hf; [lia|]. simpl. case_decide.
  - unfold digits_value. simpl. lia.
  - rewrite digits_value_snoc, IH.
    + rewrite <-N.div_mod'. done.
    + pose proof (size_div_10 n). lia.
Qed.

Lemma decimal_digits_fuel_range fuel n : Forall (λ d, (d < 10)%N) (decimal_digits_fuel fuel n).
Proof.
  revert n. induction fuel as [|fuel IH]; intros n; simpl; [constructor|]. case_decide.
  - by constructor.
  - apply Forall_app. split; [apply IH|]. constructor; [|constructor]. apply N.mod_upper_bound. lia.
Qed.

Lemma decimal_digits_value n : digits_value (decimal_digits n) = n.
Proof. apply decimal_digits_fuel_value. lia. Qed.

Lemma decimal_digits_range n : Forall (λ d, (d < 10)%N) (decimal_digits n).
Proof. apply decimal_digits_fuel_range. Qed.

Lemma decimal_digits_inj n m : decimal_digits n = decimal_digits m → n = m.
Proof. intros H. rewrite <-(decimal_digits_value n), <-(decimal_digits_value m). by rewrite H. Qed.

Lemma digit_char_inj d e : (d < 10)%N → (e < 10)%N → digit_char d = digit_char e → d = e.
Proof.
  unfold digit_char. intros Hd He H. apply (f_equal N_of_ascii) in H.
  rewrite !N_ascii_embedding in H by lia. lia.
Qed.

Lemma to_string_inj n m : to_string n = to_string m → n = m.
Proof.
  unfold to_string. intros H%(f_equal bytes). rewrite !bytes_of_bytes in H.
  apply decimal_digits_inj.
  pose proof (decimal_digits_range n) as Hn. pose proof (decimal_digits_range m) as Hm.
  revert H Hn Hm. generalize (decimal_digits n), (decimal_digits m).
  induction l as [|d l IH]; intros [|e l'] H Hd He; simplify_eq/=; [done|].
  apply Forall_cons in Hd as [??], He as [??]. f_equal; [by apply digit_char_inj|by apply IH].
Qed.

Lemma to_string_digits n c : c ∈ bytes (to_string n) → is_ascii_digit c = true.
Proof.
  unfold to_string. rewrite bytes_of_bytes, list_elem_of_fmap. intros (d & -> & Hd).
  pose proof (decimal_digits_range n) as Hr. rewrite Forall_forall in Hr. specialize (Hr d Hd).
  unfold is_ascii_digit, byte_code, digit_char. rewrite N_ascii_embedding by lia.
  apply andb_true_intro; split; apply N.leb_le; lia.
Qed.
