(* ===== verification/Nodes.v ===== *)
(** * The vocabulary of workflow nodes

    The small enumerations every component of the engine speaks: roles and
    identities of nodes ([validated.rs]), failure policies and finalization
    triggers ([document.rs]), cancellation reasons ([admission.rs]) and
    terminal dispositions ([condition.rs]). *)

From S2P Require Import Prelude Text.

Inductive WorkflowNodeRole := RoleStep | RoleFinalizer.

Record WorkflowNode := { node_id : string; node_role : WorkflowNodeRole }.

Inductive FailurePolicy := Required | Advisory.

Inductive FinalizationTrigger := TriggerSucceeded | TriggerFailed | TriggerCancelled.

Inductive CancellationReason :=
| UserRequest
| TerminationRequest
| CallerOutputFailure
| RunnerShutdown
| ExecutionLeaseExpired
| ForceAbort.

Inductive TerminalDisposition :=
| DispSucceeded
| DispFailed
| DispSkipped
| DispBlocked
| DispNotRun
| DispCancelled
| DispInherited.

#[export] Instance WorkflowNodeRole_eq_dec : EqDecision WorkflowNodeRole.
Proof. solve_decision. Defined.
#[export] Instance WorkflowNode_eq_dec : EqDecision WorkflowNode.
Proof. solve_decision. Defined.
#[export] Instance FailurePolicy_eq_dec : EqDecision FailurePolicy.
Proof. solve_decision. Defined.
#[export] Instance FinalizationTrigger_eq_dec : EqDecision FinalizationTrigger.
Proof. solve_decision. Defined.
#[export] Instance CancellationReason_eq_dec : EqDecision CancellationReason.
Proof. solve_decision. Defined.
#[export] Instance TerminalDisposition_eq_dec : EqDecision TerminalDisposition.
Proof. solve_decision. Defined.

(** Nodes key the [BTreeMap<WorkflowNode, _>] of condition dispositions. *)
#[export] Program Instance WorkflowNodeRole_countable : Countable WorkflowNodeRole := {|
  encode r := match r with RoleStep => 1%positive | RoleFinalizer => 2%positive end;
  decode p := Some (if decide (p = 1%positive) then RoleStep else RoleFinalizer)
|}.
Next Obligation. by intros []. Qed.

#[export] Program Instance WorkflowNode_countable : Countable WorkflowNode :=
  inj_countable' (λ n, (node_id n, node_role n)) (λ '(i, r), {| node_id := i; node_role := r |}) _.
Next Obligation. by intros []. Qed.

(** The wire names of the enumerations. *)

Definition trigger_as_str (t : FinalizationTrigger) : string :=
  match t with
  | TriggerSucceeded => "succeeded"
  | TriggerFailed => "failed"
  | TriggerCancelled => "cancelled"
  end.

Definition cancellation_reason_as_str (r : CancellationReason) : string :=
  match r with
  | UserRequest => "user_request"
  | TerminationRequest => "termination_request"
  | CallerOutputFailure => "caller_output_failure"
  | RunnerShutdown => "runner_shutdown"
  | ExecutionLeaseExpired => "execution_lease_expired"
  | ForceAbort => "force_abort"
  end.

Lemma trigger_as_str_inj t u : trigger_as_str t = trigger_as_str u → t = u.
Proof. by destruct t, u. Qed.

Lemma cancellation_reason_as_str_inj r q :
  cancellation_reason_as_str r = cancellation_reason_as_str q → r = q.
Proof. by destruct r, q. Qed.
