(* ===== verification/Evidence.v ===== *)
(** * Node evidence ([evidence.rs])

    What the engine records about a node that did not simply succeed: the
    failure detail with its phase and code rules, the prerequisites that
    blocked a node, the trace of a false condition, and the primary issue of
    a run.  Every constructor of the source that can refuse its arguments is
    a function into [result]. *)

From S2P Require Import Prelude Text Nodes.

(** ** Identifiers and references *)

Definition is_workflow_node_identifier (value : string) : bool :=
  match bytes value with
  | [] => false
  | first :: rest =>
      is_ascii_alphabetic first
      && (str_len value <=? 64)%N
      && forallb (λ b, is_ascii_alphanumeric b || bool_decide (b = "_"%char) || bool_decide (b = "-"%char)) rest
  end.

Definition is_workflow_value_identifier (value : string) : bool :=
  match bytes value with
  | [] => false
  | first :: rest =>
      is_ascii_lowercase first && (str_len value <=? 64)%N && forallb is_ascii_alphanumeric rest
  end.

Definition is_output_reference (value : string) : bool :=
  match str_split "."%char value with
  | [outputs; node; output] =>
      bool_decide (outputs = "outputs")
      && is_workflow_node_identifier node && is_workflow_value_identifier output
  | _ => false
  end.

Definition is_condition_json_reference (value : string) : bool :=
  bool_decide (value = "finalization.context") || is_output_reference value.

Fixpoint valid_pointer_token (token : list ascii) : bool :=
  match token with
  | [] => true
  | b :: rest =>
      if decide (b = "~"%char) then
        match rest with
        | e :: rest' =>
            if decide (e = "0"%char ∨ e = "1"%char) then valid_pointer_token rest' else false
        | [] => false
        end
      else valid_pointer_token rest
  end.

Definition valid_json_pointer (value : string) : bool :=
  if str_is_empty value then true
  else match strip_prefix "/"%char value with
       | None => false
       | Some tokens => forallb (λ token, valid_pointer_token (bytes token)) (str_split "/"%char tokens)
       end.

(** ** Failure details *)

Inductive FailurePhase := PhaseStart | PhaseCondition | PhaseExecution | PhaseOutputCapture.

Inductive FailureCode :=
| StepUnavailable
| PreparationTaskUnavailable
| InputsUnavailable
| OutputsUnsupported
| AgentRuntimeUnavailable
| AgentStepUnavailable
| AgentAdmissionUnavailable
| AgentInputsUnavailable
| AgentInputMissingUpstream
| AgentInputTypeMismatch
| AgentSourceUnavailable
| AgentSourceTextInvalid
| AgentResultSchemaUnavailable
| AgentValueModeInvalid
| AgentAttachmentCountLimit
| AgentAttachmentBytesLimit
| ArtifactStagingMismatch
| AgentStagingMismatch
| AgentInputStagingUnavailable
| HarnessStartFailed
| HarnessInputTooLarge
| HarnessFailed
| HarnessProtocolFailed
| MissingResponse
| MissingResult
| ResultValidationLimitExceeded
| CapturedValueTooLarge
| ResultSettlementFailed
| InputInvalidName
| InputValueCountLimit
| InputValueSizeLimit
| InputTotalSizeLimit
| InputCollectionOrdinalLimit
| InputTypeMismatch
| InputSourceUnavailable
| InputStagingUnavailable
| InputLiveLimit
| ExecutionRootRebound
| WorkingDirectoryUnavailable
| WorkingDirectoryEscape
| WorkingDirectoryNotDirectory
| CommandArgvInvalid
| CommandPathUnconfigured
| ExecutableNotFound
| ExecutableUnavailable
| CommandLaunchNotFound
| CommandLaunchPermissionDenied
| CommandLaunchInvalidInput
| CommandLaunchFailed
| JsonPointerMissing
| CommandExit
| CommandWaitFailed
| ExecutionTaskUnavailable
| OutputUnsupported
| CaptureTaskUnavailable
| OutputPathAbsolute
| OutputPathEscape
| OutputPathEmpty
| OutputMissing
| OutputSymbolicLink
| OutputParentNotDirectory
| OutputNotRegularFile
| OutputSourceUnavailable
| OutputInvalidUtf8
| OutputInvalidJson
| OutputDuplicateJsonMember
| OutputJsonSchemaMismatch
| CapturedFileCountLimit
| CapturedFileSizeLimit
| CapturedTotalSizeLimit
| CapturedGitCarrierCountLimit
| CapturedGitCarrierSizeLimit
| CapturedTotalGitCarrierSizeLimit
| GitExecutionRootRebound
| GitHeadUnavailable
| GitBaselineNotAncestor
| GitCleanlinessUnavailable
| GitWorkspaceDirty
| GitTreeUnavailable
| GitRequiredObjectsUnavailable
| GitSourceAuthorityChanged
| GitStructureLimitExceeded
| GitCommandTimedOut
| GitBundleGenerationFailed
| GitBundleProfileInvalid
| GitBundleVerificationFailed
| GitWorkspaceChanged
| GitTemporaryStorageUnavailable
| OutputStagingUnavailable.

#[export] Instance FailurePhase_eq_dec : EqDecision FailurePhase.
Proof. solve_decision. Defined.
#[export] Instance FailureCode_eq_dec : EqDecision FailureCode.
Proof. intros x y. unfold Decision. decide equality. Defined.

Inductive EvidenceError :=
| FailureCause
| FailureDetailError
| PrerequisiteError
| PrerequisiteCount
| InvalidConditionFalseDetail.

Record FailureDetail := {
  fd_phase : FailurePhase;
  fd_code : FailureCode;
  fd_input : option string;
  fd_collection_index : option N;
  fd_output : option string;
  fd_exit_code : option Z;
  fd_ref : option string;
  fd_pointer : option string
}.

(** [FailureDetail::code]. *)
Definition failure_detail_code (phase : FailurePhase) (code : FailureCode) : FailureDetail :=
  {| fd_phase := phase; fd_code := code; fd_input := None; fd_collection_index := None;
     fd_output := None; fd_exit_code := None; fd_ref := None; fd_pointer := None |}.

(** The phases a code may be recorded in: the first [match] of
    [FailureDetail::validate]. *)
Definition phase_valid (code : FailureCode) (phase : FailurePhase) : bool :=
  match code with
  | JsonPointerMissing => bool_decide (phase = PhaseCondition)
  | StepUnavailable => bool_decide (phase = PhaseStart ∨ phase = PhaseOutputCapture)
  | HarnessStartFailed | HarnessInputTooLarge | HarnessFailed | HarnessProtocolFailed
  | MissingResponse | MissingResult | ResultValidationLimitExceeded
  | CapturedValueTooLarge | ResultSettlementFailed =>
      bool_decide (phase = PhaseStart ∨ phase = PhaseExecution)
  | CommandExit | CommandWaitFailed | ExecutionTaskUnavailable =>
      bool_decide (phase = PhaseExecution)
  | OutputUnsupported | CaptureTaskUnavailable | OutputPathAbsolute | OutputPathEscape
  | OutputPathEmpty | OutputMissing | OutputSymbolicLink | OutputParentNotDirectory
  | OutputNotRegularFile | OutputSourceUnavailable | OutputInvalidUtf8 | OutputInvalidJson
  | OutputDuplicateJsonMember | OutputJsonSchemaMismatch | CapturedFileCountLimit
  | CapturedFileSizeLimit | CapturedTotalSizeLimit | CapturedGitCarrierCountLimit
  | CapturedGitCarrierSizeLimit | CapturedTotalGitCarrierSizeLimit | GitExecutionRootRebound
  | GitHeadUnavailable | GitBaselineNotAncestor | GitCleanlinessUnavailable
  | GitWorkspaceDirty | GitTreeUnavailable | GitRequiredObjectsUnavailable
  | GitSourceAuthorityChanged | GitStructureLimitExceeded | GitCommandTimedOut
  | GitBundleGenerationFailed | GitBundleProfileInvalid | GitBundleVerificationFailed
  | GitWorkspaceChanged | GitTemporaryStorageUnavailable | OutputStagingUnavailable =>
      bool_decide (phase = PhaseOutputCapture)
  | _ => bool_decide (phase = PhaseStart)
  end.

Definition input_preparation_code (code : FailureCode) : bool :=
  match code with
  | InputValueCountLimit | InputValueSizeLimit | InputTotalSizeLimit
  | InputCollectionOrdinalLimit | InputTypeMismatch | InputSourceUnavailable
  | InputStagingUnavailable | InputLiveLimit => true
  | _ => false
  end.

Definition output_failure (d : FailureDetail) : bool :=
  bool_decide (fd_phase d = PhaseOutputCapture)
  && negb (match fd_code d with
           | StepUnavailable | OutputUnsupported | CaptureTaskUnavailable => true
           | _ => false
           end).

Definition input_valid (d : FailureDetail) : bool :=
  match fd_input d with
  | None => negb (bool_decide (fd_code d = InputInvalidName))
  | Some input =>
      if decide (fd_code d = InputInvalidName)
      then negb (str_is_empty input) && (str_len input <=? 4096)%N
      else input_preparation_code (fd_code d) && is_workflow_value_identifier input
  end.

Definition condition_failure (d : FailureDetail) : bool :=
  bool_decide (fd_phase d = PhaseCondition)
  && bool_decide (fd_code d = JsonPointerMissing)
  && match fd_ref d with Some r => is_condition_json_reference r | None => false end
  && match fd_pointer d with Some p => valid_json_pointer p | None => false end.

(** [FailureDetail::validate]. *)
Definition failure_detail_validate (d : FailureDetail) : result unit EvidenceError :=
  if negb (phase_valid (fd_code d) (fd_phase d)) then Err FailureDetailError
  else if negb (input_valid d)
    || (bool_decide (is_Some (fd_collection_index d)) && negb (input_preparation_code (fd_code d)))
    || (output_failure d
        && match fd_output d with None => true | Some o => negb (is_workflow_value_identifier o) end)
    || (negb (output_failure d) && bool_decide (is_Some (fd_output d)))
    || (bool_decide (is_Some (fd_exit_code d))
        && (negb (bool_decide (fd_code d = CommandExit)) || bool_decide (fd_exit_code d = Some 0%Z)))
    || (bool_decide (fd_phase d = PhaseCondition) && negb (condition_failure d))
    || (negb (bool_decide (fd_phase d = PhaseCondition))
        && (bool_decide (is_Some (fd_ref d)) || bool_decide (is_Some (fd_pointer d))))
  then Err FailureDetailError
  else Ok tt.

(** [FailureDetail::new]. *)
Definition failure_detail_new (phase : FailurePhase) (code : FailureCode) (input : option string)
    (collection_index : option N) (output : option string) (exit_code : option Z)
    : result FailureDetail EvidenceError :=
  let detail := {| fd_phase := phase; fd_code := code; fd_input := input;
                   fd_collection_index := collection_index; fd_output := output;
                   fd_exit_code := exit_code; fd_ref := None; fd_pointer := None |} in
  let? _ := failure_detail_validate detail in Ok detail.

(** [FailureDetail::json_pointer_missing]. *)
Definition json_pointer_missing (reference pointer : string) : result FailureDetail EvidenceError :=
  let detail := {| fd_phase := PhaseCondition; fd_code := JsonPointerMissing; fd_input := None;
                   fd_collection_index := None; fd_output := None; fd_exit_code := None;
                   fd_ref := Some reference; fd_pointer := Some pointer |} in
  let? _ := failure_detail_validate detail in Ok detail.

(** The trait [NodeFailureSource]: a failure cause that can be recorded. *)
Class NodeFailureSource (Cause : Type) := {
  node_failure_detail : Cause → FailurePhase → result FailureDetail EvidenceError
}.

(** ** Prerequisites and blocked nodes *)

Definition MAXIMUM_PREREQUISITES : nat := 1024.

Inductive PrerequisiteKind := KindControl | KindCondition | KindBody.

Inductive Prerequisite :=
| PControl (node : string)
| PCondition (ref : string)
| PBody (ref : string).

#[export] Instance PrerequisiteKind_eq_dec : EqDecision PrerequisiteKind.
Proof. solve_decision. Defined.
#[export] Instance Prerequisite_eq_dec : EqDecision Prerequisite.
Proof. solve_decision. Defined.

Definition prerequisite_control (node : string) : result Prerequisite EvidenceError :=
  if str_is_empty node then Err PrerequisiteError else Ok (PControl node).
Definition prerequisite_condition (reference : string) : result Prerequisite EvidenceError :=
  if is_output_reference reference then Ok (PCondition reference) else Err PrerequisiteError.
Definition prerequisite_body (reference : string) : result Prerequisite EvidenceError :=
  if is_output_reference reference then Ok (PBody reference) else Err PrerequisiteError.

Definition prerequisite_kind (p : Prerequisite) : PrerequisiteKind :=
  match p with
  | PControl _ => KindControl
  | PCondition _ => KindCondition
  | PBody _ => KindBody
  end.

Definition prerequisite_target (p : Prerequisite) : string :=
  match p with PControl node => node | PCondition ref | PBody ref => ref end.

(** The derived order of [PrerequisiteKind]: declaration order. *)
Definition prerequisite_kind_rank (k : PrerequisiteKind) : nat :=
  match k with KindControl => 0 | KindCondition => 1 | KindBody => 2 end.

(** [Ord for Prerequisite]: kind first, then the bytes of the target. *)
Definition prerequisite_cmp (p q : Prerequisite) : comparison :=
  match Nat.compare (prerequisite_kind_rank (prerequisite_kind p))
                    (prerequisite_kind_rank (prerequisite_kind q)) with
  | Eq => String.compare (prerequisite_target p) (prerequisite_target q)
  | c => c
  end.

Definition prerequisite_le (p q : Prerequisite) : Prop := prerequisite_cmp p q ≠ Gt.

#[export] Instance prerequisite_le_dec : RelDecision prerequisite_le.
Proof. intros p q. unfold prerequisite_le. apply _. Defined.

(** [Vec::dedup]: drop every element equal to its predecessor. *)
Fixpoint dedup {A} `{EqDecision A} (l : list A) : list A :=
  match l with
  | [] => []
  | x :: l' =>
      match l' with
      | y :: _ => if decide (x = y) then dedup l' else x :: dedup l'
      | [] => [x]
      end
  end.

(** [sort] followed by [dedup], as the source canonicalises prerequisites. *)
Definition sort_dedup (ps : list Prerequisite) : list Prerequisite :=
  dedup (merge_sort prerequisite_le ps).

Record BlockedDetail := { bd_prerequisites : list Prerequisite }.

Definition prerequisite_ok (p : Prerequisite) : bool :=
  negb (str_is_empty (prerequisite_target p)
        || (negb (bool_decide (prerequisite_kind p = KindControl))
            && negb (is_output_reference (prerequisite_target p)))).

(** [BlockedDetail::new]; the only [BlockedCode] is left implicit. *)
Definition blocked_detail_new (prerequisites : list Prerequisite) : result BlockedDetail EvidenceError :=
  let prerequisites := sort_dedup prerequisites in
  if bool_decide (prerequisites = []) || bool_decide (MAXIMUM_PREREQUISITES < length prerequisites)%nat
  then Err PrerequisiteCount
  else if existsb (λ p, negb (prerequisite_ok p)) prerequisites then Err PrerequisiteError
  else Ok {| bd_prerequisites := prerequisites |}.

(** [Deserialize for BlockedDetail], after the derived wire decoding: a
    document is accepted only in canonical form. *)
Definition blocked_detail_from_wire (original : list Prerequisite) : result BlockedDetail EvidenceError :=
  let? detail := blocked_detail_new original in
  if decide (bd_prerequisites detail = original) then Ok detail else Err PrerequisiteError.

(** ** Non-execution, cancellation and inheritance details *)

Inductive NonExecutionCode := FailureStop | FinalizerTriggerNotSelected.

Record NonExecutionDetail := { ned_code : NonExecutionCode }.

Definition failure_stop : NonExecutionDetail := {| ned_code := FailureStop |}.
Definition finalizer_trigger_not_selected : NonExecutionDetail :=
  {| ned_code := FinalizerTriggerNotSelected |}.

Record CancellationDetail := { cd_code : CancellationReason }.

Inductive InheritedPriorState := PriorSucceeded | PriorSkipped | PriorInherited.

Record InheritedDetail := {
  id_prior_attempt_id : string;
  id_prior_attempt_number : N;
  id_prior_state : InheritedPriorState;
  id_definition_changed : bool
}.

(** ** False conditions *)

Record EvaluatedPredicateEvidence := { epe_path : string; epe_result : bool }.

Record ConditionFalseDetail := { cfd_evaluated_predicates : list EvaluatedPredicateEvidence }.

(** The scan [iter().any(...)] of [ConditionFalseDetail::new], which grows
    the set of the paths seen so far. *)
Fixpoint condition_paths_valid (seen : gset string) (l : list EvaluatedPredicateEvidence) : bool :=
  match l with
  | [] => true
  | e :: l' =>
      valid_json_pointer (epe_path e) && negb (bool_decide (epe_path e ∈ seen))
      && condition_paths_valid ({[ epe_path e ]} ∪ seen) l'
  end.

(** [ConditionFalseDetail::new]. *)
Definition condition_false_detail_new (evaluated : list EvaluatedPredicateEvidence)
    : result ConditionFalseDetail EvidenceError :=
  if bool_decide (evaluated = [])
     || bool_decide (256 < length evaluated)%nat
     || match last evaluated with
        | None => true
        | Some entry => negb (str_is_empty (epe_path entry)) || epe_result entry
        end
     || negb (condition_paths_valid ∅ evaluated)
  then Err InvalidConditionFalseDetail
  else Ok {| cfd_evaluated_predicates := evaluated |}.

(** ** The primary issue of a run *)

Inductive PrimaryIssueState := IssueFailed | IssueBlocked.

Inductive PrimaryIssueDetail :=
| IssueDetailFailed (detail : FailureDetail)
| IssueDetailBlocked (detail : BlockedDetail).

Record PrimaryIssue := {
  pi_node : WorkflowNode;
  pi_state : PrimaryIssueState;
  pi_detail : PrimaryIssueDetail
}.

Definition primary_issue_failed (node : WorkflowNode) (detail : FailureDetail) : PrimaryIssue :=
  {| pi_node := node; pi_state := IssueFailed; pi_detail := IssueDetailFailed detail |}.

Definition primary_issue_blocked (node : WorkflowNode) (detail : BlockedDetail) : PrimaryIssue :=
  {| pi_node := node; pi_state := IssueBlocked; pi_detail := IssueDetailBlocked detail |}.

#[export] Instance NonExecutionDetail_eq_dec : EqDecision NonExecutionDetail.
Proof. unfold EqDecision. intros [[]] [[]]; unfold Decision; (left; congruence) || (right; congruence). Defined.
#[export] Instance CancellationDetail_eq_dec : EqDecision CancellationDetail.
Proof. solve_decision. Defined.

(** ** The order on prerequisites *)

Lemma prerequisite_le_lex p q :
  prerequisite_le p q ↔
  let i := prerequisite_kind_rank (prerequisite_kind p) in
  let j := prerequisite_kind_rank (prerequisite_kind q) in
  i < j ∨ i = j ∧ String.le (prerequisite_target p) (prerequisite_target q).
Proof.
  cbv zeta. unfold prerequisite_le, prerequisite_cmp. rewrite <-string_compare_le.
  destruct (Nat.compare_spec (prerequisite_kind_rank (prerequisite_kind p))
              (prerequisite_kind_rank (prerequisite_kind q))); naive_solver lia.
Qed.

#[export] Instance prerequisite_le_trans : Transitive prerequisite_le.
Proof.
  intros p q r. rewrite !prerequisite_le_lex; cbv zeta. intros [?|[? Hpq]] [?|[? Hqr]]; try (left; lia).
  right. split; [lia|]. by transitivity (prerequisite_target q).
Qed.

#[export] Instance prerequisite_le_total : Total prerequisite_le.
Proof.
  intros p q. rewrite !prerequisite_le_lex; cbv zeta.
  destruct (decide (prerequisite_kind_rank (prerequisite_kind p) = prerequisite_kind_rank (prerequisite_kind q))).
  - destruct (total String.le (prerequisite_target p) (prerequisite_target q)); naive_solver.
  - lia.
Qed.

#[export] Instance prerequisite_le_antisymm : AntiSymm (=) prerequisite_le.
Proof.
  intros p q. rewrite !prerequisite_le_lex; cbv zeta. intros [?|[Hk Hpq]] [?|[? Hqp]]; [lia..|].
  pose proof (anti_symm String.le _ _ Hpq Hqp) as Ht.
  destruct p, q; simplify_eq/=; done.
Qed.

(** ** Canonical prerequisite lists *)

Lemma elem_of_dedup {A} `{EqDecision A} (l : list A) x : x ∈ dedup l ↔ x ∈ l.
Proof.
  induction l as [|y l IH]; simpl; [done|].
  destruct l as [|z l]; [done|].
  case_decide; subst; rewrite ?elem_of_cons, IH, ?elem_of_cons; naive_solver.
Qed.

Lemma length_dedup {A} `{EqDecision A} (l : list A) : length (dedup l) <= length l.
Proof.
  induction l as [|y l IH]; simpl; [done|]. destruct l as [|z l]; [done|].
  case_decide; simpl in *; lia.
Qed.

Lemma dedup_sublist {A} `{EqDecision A} (l : list A) : sublist (dedup l) l.
Proof.
  induction l as [|y l IH]; simpl; [done|]. destruct l as [|z l]; [done|].
  case_decide; [by apply sublist_cons|by apply sublist_skip].
Qed.

Lemma dedup_NoDup {A} `{EqDecision A} (l : list A) : NoDup l → dedup l = l.
Proof.
  induction l as [|y l IH]; simpl; [done|]. intros [Hn Hl]%NoDup_cons.
  destruct l as [|z l]; [done|]. rewrite decide_False by set_solver. by rewrite IH.
Qed.

Lemma StronglySorted_sublist {A} (R : relation A) l k :
  sublist l k → StronglySorted R k → StronglySorted R l.
Proof.
  induction 1 as [|x l k Hs IH|x l k Hs IH]; [done| |].
  - rewrite !StronglySorted_cons. intros [Hall Hk]. split; [|by apply IH].
    rewrite Forall_forall in *. intros y Hy. apply Hall. by eapply elem_of_sublist.
  - intros Hk. apply IH. by apply StronglySorted_cons in Hk as [_ ?].
Qed.

Lemma dedup_sorted_NoDup {A} `{EqDecision A} (R : relation A) `{!AntiSymm (=) R} l :
  StronglySorted R l → NoDup (dedup l).
Proof.
  induction l as [|y l IH]; intros Hs; simpl; [constructor|].
  apply StronglySorted_cons in Hs as [Hall Hs]. destruct l as [|z l]; [repeat constructor; set_solver|].
  case_decide as Hyz; [by apply IH|]. constructor; [|by apply IH].
  rewrite elem_of_dedup. intros Hin. apply Hyz.
  apply (anti_symm R); [rewrite Forall_forall in Hall; apply Hall; left|].
  apply elem_of_cons in Hin as [->|Hin]; [done|].
  apply StronglySorted_cons in Hs as [Hz _]. rewrite Forall_forall in Hz. by apply Hz.
Qed.

Lemma sort_dedup_sorted ps : StronglySorted prerequisite_le (sort_dedup ps).
Proof.
  eapply StronglySorted_sublist; [apply dedup_sublist|]. apply (StronglySorted_merge_sort _).
Qed.

Lemma sort_dedup_NoDup ps : NoDup (sort_dedup ps).
Proof. eapply (dedup_sorted_NoDup prerequisite_le), (StronglySorted_merge_sort _). Qed.

Lemma elem_of_sort_dedup ps p : p ∈ sort_dedup ps ↔ p ∈ ps.
Proof. unfold sort_dedup. by rewrite elem_of_dedup, (merge_sort_Permutation _ ps). Qed.

Lemma sort_dedup_canonical ps qs :
  (∀ p, p ∈ ps ↔ p ∈ qs) → sort_dedup ps = sort_dedup qs.
Proof.
  intros Heq. apply (StronglySorted_unique prerequisite_le); [apply sort_dedup_sorted..|].
  apply NoDup_Permutation; [apply sort_dedup_NoDup..|]. intros p. by rewrite !elem_of_sort_dedup.
Qed.

Lemma sort_dedup_idemp ps : sort_dedup (sort_dedup ps) = sort_dedup ps.
Proof. apply sort_dedup_canonical. intros p. apply elem_of_sort_dedup. Qed.

Lemma sort_dedup_nil ps : sort_dedup ps = [] ↔ ps = [].
Proof.
  split; [|by intros ->]. intros H. destruct ps as [|p ps]; [done|].
  pose proof (proj2 (elem_of_sort_dedup (p :: ps) p) ltac:(left)) as Hin. rewrite H in Hin. by apply elem_of_nil in Hin.
Qed.

Lemma length_sort_dedup ps : length (sort_dedup ps) <= length ps.
Proof.
  unfold sort_dedup. etransitivity; [apply length_dedup|].
  by rewrite (merge_sort_Permutation _ ps).
Qed.

(** [BlockedDetail::new] succeeds exactly on a non-empty list of at most
    [MAXIMUM_PREREQUISITES] distinct acceptable prerequisites. *)
Lemma blocked_detail_new_Ok ps d :
  blocked_detail_new ps = Ok d ↔
  bd_prerequisites d = sort_dedup ps ∧ ps ≠ [] ∧
  length (sort_dedup ps) <= MAXIMUM_PREREQUISITES ∧ Forall (λ p, prerequisite_ok p = true) ps.
Proof.
  unfold blocked_detail_new. rewrite <-(sort_dedup_nil ps).
  assert (Hex : existsb (λ p, negb (prerequisite_ok p)) (sort_dedup ps) = false ↔
                Forall (λ p, prerequisite_ok p = true) ps).
  { rewrite <-not_true_iff_false, existsb_exists, Forall_forall. split.
    - intros Hne p Hp. destruct (prerequisite_ok p) eqn:E; [done|]. exfalso. apply Hne.
      exists p. rewrite E. split; [|done]. by apply list_elem_of_In, elem_of_sort_dedup.
    - intros Hall (p & Hin & Hp). apply list_elem_of_In, elem_of_sort_dedup, Hall in Hin.
      by rewrite Hin in Hp. }
  case_bool_decide; simpl; [naive_solver|]. case_bool_decide; simpl; [naive_solver lia|].
  destruct (existsb _ _) eqn:E.
  - split; [done|]. intros (_ & _ & _ & Hall). apply Hex in Hall. congruence.
  - destruct d as [ds]. simpl. split; [intros [= <-]; naive_solver lia|].
    intros (-> & _). done.
Qed.

Lemma is_output_reference_nonempty r : is_output_reference r = true → r ≠ "".
Proof. by intros H ->. Qed.

Lemma prerequisite_control_ok node p : prerequisite_control node = Ok p → prerequisite_ok p = true.
Proof.
  unfold prerequisite_control. destruct (str_is_empty node) eqn:E; intros; simplify_eq.
  unfold prerequisite_ok. simpl. by rewrite E.
Qed.

Lemma prerequisite_ref_ok (r : string) (p : Prerequisite) :
  is_output_reference r = true → p = PCondition r ∨ p = PBody r → prerequisite_ok p = true.
Proof.
  intros Hr Hp. unfold prerequisite_ok, str_is_empty.
  rewrite bool_decide_eq_false_2 by (destruct Hp; subst; by apply is_output_reference_nonempty).
  destruct Hp; subst; simpl; by rewrite Hr.
Qed.

(** [json_pointer_missing] accepts exactly the references of
    [is_condition_json_reference] with a well-formed pointer. *)
Lemma json_pointer_missing_Ok r p :
  (∃ d, json_pointer_missing r p = Ok d) ↔
  is_condition_json_reference r = true ∧ valid_json_pointer p = true.
Proof.
  unfold json_pointer_missing, failure_detail_validate, condition_failure, input_valid, output_failure; simpl.
  destruct (is_condition_json_reference r), (valid_json_pointer p); simpl; naive_solver.
Qed.

(** ** Evidence of blocked nodes

    A blocked detail is a canonical form: it depends on the set of missing
    prerequisites only, it is sorted without duplicates, and it survives
    being written and read. *)

(** The evidence of a blocked node does not depend on the order in which
    its missing prerequisites were collected, nor on repetitions: two lists
    with the same prerequisites give the same detail or the same error. *)
Lemma blocked_detail_canonical ps qs :
  (∀ p, p ∈ ps ↔ p ∈ qs) → blocked_detail_new ps = blocked_detail_new qs.
Proof. intros Heq. unfold blocked_detail_new. by rewrite (sort_dedup_canonical ps qs Heq). Qed.

Lemma sort_dedup_fixed ps : StronglySorted prerequisite_le ps → NoDup ps → sort_dedup ps = ps.
Proof.
  intros Hs Hnd. apply (StronglySorted_unique prerequisite_le); [apply sort_dedup_sorted|done|].
  apply NoDup_Permutation; [apply sort_dedup_NoDup|done|]. intros p. apply elem_of_sort_dedup.
Qed.

(** Blocked evidence is read back as it was written: every recorded
    detail is accepted and read as itself, and the accepted documents are
    exactly the lists of at most 1024 acceptable prerequisites, sorted and
    without duplicates. *)
Lemma blocked_detail_round_trip :
  (∀ ps d, blocked_detail_new ps = Ok d → blocked_detail_from_wire (bd_prerequisites d) = Ok d)
  ∧ ∀ original d, blocked_detail_from_wire original = Ok d ↔
      bd_prerequisites d = original ∧ StronglySorted prerequisite_le original ∧ NoDup original
      ∧ 0 < length original <= MAXIMUM_PREREQUISITES ∧ Forall (λ p, prerequisite_ok p = true) original.
Proof.
  assert (Hwire : ∀ original d, blocked_detail_from_wire original = Ok d ↔
    blocked_detail_new original = Ok d ∧ bd_prerequisites d = original).
  { intros original d. unfold blocked_detail_from_wire. rewrite result_bind_Ok. split.
    - intros (e & Hnew & Heq). case_decide; [|done]. by injection Heq as ->.
    - intros [Hnew Heq]. exists d. split; [done|]. by rewrite decide_True. }
  split.
  - intros ps d (Hps & Hne & Hlen & Hall)%blocked_detail_new_Ok. apply Hwire. split; [|done].
    apply blocked_detail_new_Ok. rewrite Hps, sort_dedup_idemp. split; [done|]. split; [by rewrite sort_dedup_nil|].
    split; [done|]. apply Forall_forall. intros p Hp. rewrite elem_of_sort_dedup in Hp.
    rewrite Forall_forall in Hall. by apply Hall.
  - intros original d. rewrite Hwire, blocked_detail_new_Ok. split.
    + intros [(Hs & Hne & Hlen & Hall) Heq]. rewrite <-Hs in Hlen. rewrite Heq in Hs, Hlen.
      split; [done|]. split; [rewrite Hs; apply sort_dedup_sorted|]. split; [rewrite Hs; apply sort_dedup_NoDup|].
      split; [|done]. destruct original; [done|]. simpl in *. lia.
    + intros (-> & Hs & Hnd & Hlen & Hall). rewrite sort_dedup_fixed by done.
      split; [|done]. split; [done|]. split; [|split; [lia|done]]. intros ->. simpl in Hlen. lia.
Qed.
