(* ===== verification/Condition.v ===== *)
(** * Conditions ([condition.rs])

    JSON values and pointers, exact decimal equality of JSON numbers, and the
    evaluation of a resolved predicate with its trace.  [serde_json] is built
    with [arbitrary_precision], so a number is the text of its literal, and
    without [preserve_order], so an object is an ordered map. *)

From S2P Require Import Prelude Text Nodes Evidence.

(** ** JSON values *)

Inductive Value :=
| Null
| Bool (b : bool)
| Number (text : string)
| VString (text : string)
| Array (elements : list Value)
| Object (members : btree Value).

Section Value_ind.
Variable P : Value → Prop.
Hypothesis HNull : P Null.
Hypothesis HBool : ∀ b, P (Bool b).
Hypothesis HNumber : ∀ t, P (Number t).
Hypothesis HString : ∀ t, P (VString t).
Hypothesis HArray : ∀ l, Forall P l → P (Array l).
Hypothesis HObject : ∀ m, Forall (λ kv, P kv.2) m → P (Object m).

(** Induction that reaches the elements of arrays and objects. *)
Fixpoint Value_nested_ind (v : Value) : P v :=
  match v with
  | Null => HNull
  | Bool b => HBool b
  | Number t => HNumber t
  | VString t => HString t
  | Array l =>
      HArray l ((fix go l : Forall P l :=
        match l with
        | [] => Forall_nil_2 _
        | x :: l' => Forall_cons_2 _ _ _ (Value_nested_ind x) (go l')
        end) l)
  | Object m =>
      HObject m ((fix go m : Forall (λ kv, P kv.2) m :=
        match m with
        | [] => Forall_nil_2 _
        | kv :: m' => Forall_cons_2 (λ kv, P kv.2) _ _ (Value_nested_ind kv.2) (go m')
        end) m)
  end.
End Value_ind.

(** ** JSON pointers *)

Record JsonPointer := { jp_authored : string; jp_tokens : list string }.

Inductive JsonSelection := Selected (v : Value) | Missing.

(** [decode_pointer_token]: the loop over the characters of a token that
    contains an escape; a token without one is returned as it is, which is
    what the loop computes too. *)
Fixpoint decode_pointer_token (token : list ascii) : option (list ascii) :=
  match token with
  | [] => Some []
  | c :: rest =>
      if decide (c = "~"%char) then
        match rest with
        | e :: rest' =>
            if decide (e = "0"%char) then cons "~"%char <$> decode_pointer_token rest'
            else if decide (e = "1"%char) then cons "/"%char <$> decode_pointer_token rest'
            else None
        | [] => None
        end
      else cons c <$> decode_pointer_token rest
  end.

(** [JsonPointer::parse]. *)
Definition json_pointer_parse (authored : string) : option JsonPointer :=
  if str_is_empty authored then Some {| jp_authored := authored; jp_tokens := [] |}
  else
    tokens ← strip_prefix "/"%char authored;
    decoded ← mapM (λ token, of_bytes <$> decode_pointer_token (bytes token)) (str_split "/"%char tokens);
    Some {| jp_authored := authored; jp_tokens := decoded |}.

Definition digit_of (c : ascii) : N := (byte_code c - 48)%N.

(** [parse_array_index]: ["0"], or digits without a leading zero that fit
    a 64-bit [usize]. *)
Definition parse_array_index (token : string) : option N :=
  if decide (token = "0") then Some 0%N else
  match bytes token with
  | first :: rest =>
      if is_ascii_digit first && negb (bool_decide (first = "0"%char)) && forallb is_ascii_digit rest
      then let n := digits_value (digit_of <$> first :: rest) in
           if decide (n <= u64_max)%N then Some n else None
      else None
  | [] => None
  end.

(** One iteration of the loop of [JsonPointer::select]. *)
Definition select_token (selected : Value) (token : string) : option Value :=
  match selected with
  | Object object => bt_get object token
  | Array array => index ← parse_array_index token; array !! N.to_nat index
  | Null | Bool _ | Number _ | VString _ => None
  end.

Fixpoint select_tokens (selected : Value) (tokens : list string) : JsonSelection :=
  match tokens with
  | [] => Selected selected
  | token :: tokens' =>
      match select_token selected token with
      | Some v => select_tokens v tokens'
      | None => Missing
      end
  end.

(** [JsonPointer::select]. *)
Definition json_pointer_select (p : JsonPointer) (v : Value) : JsonSelection :=
  select_tokens v (jp_tokens p).

(** ** Decimal magnitudes *)

Record SignedDecimal := { sd_negative : bool; sd_magnitude : list N }.

Definition signed_decimal_zero : SignedDecimal := {| sd_negative := false; sd_magnitude := [0%N] |}.

Fixpoint drop_leading_zeroes (digits : list ascii) : list ascii :=
  match digits with
  | d :: digits' => if decide (d = "0"%char) then drop_leading_zeroes digits' else digits
  | [] => []
  end.

(** [SignedDecimal::parse]. *)
Definition signed_decimal_parse (value : string) : option SignedDecimal :=
  let '(negative, digits) :=
    match strip_prefix "-"%char value with
    | Some digits => (true, digits)
    | None => match strip_prefix "+"%char value with
              | Some digits => (false, digits)
              | None => (false, value)
              end
    end in
  if str_is_empty digits || negb (forallb is_ascii_digit (bytes digits)) then None
  else match drop_leading_zeroes (bytes digits) with
       | [] => Some signed_decimal_zero
       | nonzero => Some {| sd_negative := negative; sd_magnitude := digit_of <$> nonzero |}
       end.

(** Lexicographic comparison of byte slices. *)
Fixpoint slice_cmp (left right : list N) : comparison :=
  match left, right with
  | [], [] => Eq
  | [], _ :: _ => Lt
  | _ :: _, [] => Gt
  | a :: left', b :: right' =>
      match N.compare a b with Eq => slice_cmp left' right' | c => c end
  end.

Definition compare_decimal_magnitudes (left right : list N) : comparison :=
  match Nat.compare (length left) (length right) with
  | Eq => slice_cmp left right
  | c => c
  end.

(** The loop of [add_decimal_magnitudes] once the left operand is spent,
    least significant digit first. *)
Fixpoint add_carry (digits : list N) (carry : N) : list N :=
  match digits with
  | [] => if decide (carry = 0)%N then [] else [(carry mod 10)%N]
  | d :: digits' => let sum := (d + carry)%N in (sum mod 10)%N :: add_carry digits' (sum / 10)
  end.

Fixpoint add_reversed (left right : list N) (carry : N) : list N :=
  match left with
  | [] => add_carry right carry
  | a :: left' =>
      match right with
      | [] => let sum := (a + carry)%N in (sum mod 10)%N :: add_reversed left' [] (sum / 10)
      | b :: right' => let sum := (a + b + carry)%N in (sum mod 10)%N :: add_reversed left' right' (sum / 10)
      end
  end.

Definition add_decimal_magnitudes (left right : list N) : list N :=
  reverse (add_reversed (reverse left) (reverse right) 0).

(** The loop of [subtract_decimal_magnitudes], least significant digit
    first; the difference of two digits is a signed byte. *)
Fixpoint subtract_reversed (larger smaller : list N) (borrow : Z) : list N :=
  match larger with
  | [] => []
  | a :: larger' =>
      let b := match smaller with b :: _ => b | [] => 0%N end in
      let digit := (Z.of_N a - Z.of_N b - borrow)%Z in
      if decide (digit < 0)%Z
      then Z.to_N (digit + 10) :: subtract_reversed larger' (tail smaller) 1
      else Z.to_N digit :: subtract_reversed larger' (tail smaller) 0
  end.

(** [while result.len() > 1 && result.last() == Some(&0) { result.pop(); }]
    on the reversed result, whose head is the last element. *)
Fixpoint pop_zeroes (reversed : list N) : list N :=
  match reversed with
  | d :: ((_ :: _) as rest) => if decide (d = 0)%N then pop_zeroes rest else reversed
  | _ => reversed
  end.

Definition subtract_decimal_magnitudes (larger smaller : list N) : list N :=
  pop_zeroes (reverse (subtract_reversed (reverse larger) (reverse smaller) 0)).

(** [SignedDecimal::add]. *)
Definition signed_decimal_add (self other : SignedDecimal) : SignedDecimal :=
  if Bool.eqb (sd_negative self) (sd_negative other) then
    {| sd_negative := sd_negative self;
       sd_magnitude := add_decimal_magnitudes (sd_magnitude self) (sd_magnitude other) |}
  else
    match compare_decimal_magnitudes (sd_magnitude self) (sd_magnitude other) with
    | Gt => {| sd_negative := sd_negative self;
               sd_magnitude := subtract_decimal_magnitudes (sd_magnitude self) (sd_magnitude other) |}
    | Lt => {| sd_negative := sd_negative other;
               sd_magnitude := subtract_decimal_magnitudes (sd_magnitude other) (sd_magnitude self) |}
    | Eq => signed_decimal_zero
    end.

(** [SignedDecimal::add_unsigned]. *)
Definition add_unsigned (self : SignedDecimal) (value : nat) (negative : bool) : SignedDecimal :=
  if decide (value = 0) then self
  else signed_decimal_add self
         {| sd_negative := negative; sd_magnitude := decimal_digits (N.of_nat value) |}.

(** ** Normalized numbers *)

Record NormalizedNumber := {
  nn_negative : bool;
  nn_significant_digits : list ascii;
  nn_decimal_exponent : SignedDecimal
}.

#[export] Instance SignedDecimal_eq_dec : EqDecision SignedDecimal.
Proof. solve_decision. Defined.
#[export] Instance NormalizedNumber_eq_dec : EqDecision NormalizedNumber.
Proof. solve_decision. Defined.

(** The sign, the integer and fraction digits, and the explicit exponent of
    a literal: the first half of [NormalizedNumber::parse]. *)
Definition number_parts (number : string) : bool * string * string * option string :=
  let '(negative, unsigned) :=
    match strip_prefix "-"%char number with
    | Some unsigned => (true, unsigned)
    | None => (false, number)
    end in
  let '(mantissa, explicit_exponent) :=
    match split_once_by (λ c, bool_decide (c = "e"%char) || bool_decide (c = "E"%char)) unsigned with
    | Some (mantissa, exponent) => (mantissa, Some exponent)
    | None => (unsigned, None)
    end in
  let '(integer, fraction) :=
    match split_once_by (λ c, bool_decide (c = "."%char)) mantissa with
    | Some (integer, fraction) => (integer, fraction)
    | None => (mantissa, "")
    end in
  (negative, integer, fraction, explicit_exponent).

(** [NormalizedNumber::parse]. *)
Definition normalized_number_parse (number : string) : option NormalizedNumber :=
  let '(negative, integer, fraction, explicit_exponent) := number_parts number in
  if str_is_empty integer || negb (forallb is_ascii_digit (bytes integer))
     || negb (forallb is_ascii_digit (bytes fraction))
  then None
  else
    let digits := (bytes integer ++ bytes fraction)%list in
    match drop_leading_zeroes digits with
    | [] => Some {| nn_negative := false; nn_significant_digits := ["0"%char];
                    nn_decimal_exponent := signed_decimal_zero |}
    | nonzero =>
        let significant := drop_leading_zeroes (reverse nonzero) in
        let trailing_zeroes := length nonzero - length significant in
        decimal_exponent ← match explicit_exponent with
                           | Some exponent => signed_decimal_parse exponent
                           | None => Some signed_decimal_zero
                           end;
        Some {| nn_negative := negative;
                nn_significant_digits := reverse significant;
                nn_decimal_exponent :=
                  add_unsigned (add_unsigned decimal_exponent trailing_zeroes false)
                    (String.length fraction) true |}
    end.

Definition numbers_semantically_equal (left right : string) : bool :=
  match normalized_number_parse left, normalized_number_parse right with
  | Some l, Some r => bool_decide (l = r)
  | _, _ => false
  end.

Fixpoint json_semantically_equal (left right : Value) : bool :=
  match left, right with
  | Null, Null => true
  | Bool l, Bool r => Bool.eqb l r
  | Number l, Number r => numbers_semantically_equal l r
  | VString l, VString r => bool_decide (l = r)
  | Array l, Array r =>
      bool_decide (length l = length r)
      && (fix all2 (l r : list Value) : bool :=
            match l, r with
            | x :: l', y :: r' => json_semantically_equal x y && all2 l' r'
            | _, _ => true
            end) l r
  | Object l, Object r =>
      bool_decide (length l = length r)
      && (fix all (l : btree Value) : bool :=
            match l with
            | (name, x) :: l' =>
                match bt_get r name with
                | Some y => json_semantically_equal x y
                | None => false
                end && all l'
            | [] => true
            end) l
  | _, _ => false
  end.

(** ** Predicates *)

Inductive ConditionValueKind := KindText | KindJson.

#[export] Instance ConditionValueKind_eq_dec : EqDecision ConditionValueKind.
Proof. solve_decision. Defined.

Inductive ResolvedOperandValue :=
| OperandReference (canonical_ref : string) (pointer : option JsonPointer)
| TextLiteral (text : string)
| JsonLiteral (value : Value).

Record ResolvedOperand := { ro_kind : ConditionValueKind; ro_value : ResolvedOperandValue }.

Record ResolvedSelector := { rsel_canonical_ref : string; rsel_pointer : JsonPointer }.

Inductive ResolvedPredicate :=
| PAll (children : list ResolvedPredicate)
| PAny (children : list ResolvedPredicate)
| PNot (child : ResolvedPredicate)
| PEquals (lhs rhs : ResolvedOperand)
| PExists (selector : ResolvedSelector)
| PDisposition (node : WorkflowNode) (is_ : TerminalDisposition).

Definition text_reference (canonical_ref : string) : ResolvedOperand :=
  {| ro_kind := KindText; ro_value := OperandReference canonical_ref None |}.
Definition json_reference (canonical_ref : string) (pointer : option JsonPointer) : ResolvedOperand :=
  {| ro_kind := KindJson; ro_value := OperandReference canonical_ref pointer |}.
Definition text_literal (value : string) : ResolvedOperand :=
  {| ro_kind := KindText; ro_value := TextLiteral value |}.
Definition json_literal (value : Value) : ResolvedOperand :=
  {| ro_kind := KindJson; ro_value := JsonLiteral value |}.

Record EvaluatedPredicate := { ep_path : string; ep_result : bool }.

Inductive UnavailableConditionInput :=
| UnavailableValue (canonical_ref : string)
| UnavailableDisposition (node : WorkflowNode).

Inductive EvaluationFailure :=
| PointerMissing (canonical_ref pointer : string)
| Unavailable (input : UnavailableConditionInput).

Inductive ConditionEvaluation :=
| ConditionPassed
| ConditionFalse (evaluated_predicates : list EvaluatedPredicate)
| ConditionFailed (canonical_ref pointer : string)
| ConditionUnavailable (input : UnavailableConditionInput).

Inductive CapturedConditionValue :=
| CapturedText (text : string)
| CapturedJson (value : Value).

(** [ConditionValues] without its access observer, which only tests set. *)
Abbreviation ConditionValues := (gmap string CapturedConditionValue).
Abbreviation ConditionDispositions := (gmap WorkflowNode TerminalDisposition).

(** [PredicatePath::child]. *)
Definition path_child (path segment : string) : string := path ++ "/" ++ segment.

Inductive SelectedOperand := SelectedText (text : string) | SelectedJson (value : Value).

Definition resolve_operand (operand : ResolvedOperand) (values : ConditionValues)
    : result SelectedOperand EvaluationFailure :=
  match ro_value operand with
  | TextLiteral value => Ok (SelectedText value)
  | JsonLiteral value => Ok (SelectedJson value)
  | OperandReference canonical_ref pointer =>
      match ro_kind operand, values !! canonical_ref with
      | KindText, Some (CapturedText value) => Ok (SelectedText value)
      | KindJson, Some (CapturedJson value) =>
          match pointer with
          | Some pointer =>
              match json_pointer_select pointer value with
              | Selected selected => Ok (SelectedJson selected)
              | Missing => Err (PointerMissing canonical_ref (jp_authored pointer))
              end
          | None => Ok (SelectedJson value)
          end
      | _, _ => Err (Unavailable (UnavailableValue canonical_ref))
      end
  end.

Definition resolve_json_reference (canonical_ref : string) (values : ConditionValues)
    : result Value EvaluationFailure :=
  match values !! canonical_ref with
  | Some (CapturedJson value) => Ok value
  | Some (CapturedText _) | None => Err (Unavailable (UnavailableValue canonical_ref))
  end.

Definition operands_equal (left right : SelectedOperand) : bool :=
  match left, right with
  | SelectedText l, SelectedText r => bool_decide (l = r)
  | SelectedJson l, SelectedJson r => json_semantically_equal l r
  | _, _ => false
  end.

Section evaluate.
Context (values : ConditionValues) (dispositions : ConditionDispositions).

Definition Trace := list EvaluatedPredicate.

(** [evaluate_predicate].  The trace is the [&mut Vec]; it is dropped when
    the evaluation fails, so a failure carries none. *)
Fixpoint evaluate_predicate (predicate : ResolvedPredicate) (path : string) (trace : Trace)
    : result (bool * Trace) EvaluationFailure :=
  let? (outcome, trace) :=
    match predicate with
    | PAll children =>
        (fix go (index : nat) (children : list ResolvedPredicate) (trace : Trace) :=
           match children with
           | [] => Ok (true, trace)
           | child :: children' =>
               let? (b, trace) :=
                 evaluate_predicate child
                   (path_child path ("all/" ++ to_string (N.of_nat index))) trace in
               if b then go (S index) children' trace else Ok (false, trace)
           end) 0 children trace
    | PAny children =>
        (fix go (index : nat) (children : list ResolvedPredicate) (trace : Trace) :=
           match children with
           | [] => Ok (false, trace)
           | child :: children' =>
               let? (b, trace) :=
                 evaluate_predicate child
                   (path_child path ("any/" ++ to_string (N.of_nat index))) trace in
               if b then Ok (true, trace) else go (S index) children' trace
           end) 0 children trace
    | PNot child =>
        let? (b, trace) := evaluate_predicate child (path_child path "not") trace in
        Ok (negb b, trace)
    | PEquals lhs rhs =>
        let? l := resolve_operand lhs values in
        let? r := resolve_operand rhs values in
        Ok (operands_equal l r, trace)
    | PExists selector =>
        let? value := resolve_json_reference (rsel_canonical_ref selector) values in
        Ok (match json_pointer_select (rsel_pointer selector) value with
            | Selected _ => true
            | Missing => false
            end, trace)
    | PDisposition node is_ =>
        let? d := ok_or (dispositions !! node) (Unavailable (UnavailableDisposition node)) in
        Ok (bool_decide (d = is_), trace)
    end in
  Ok (outcome, trace ++ [{| ep_path := path; ep_result := outcome |}])%list.

(** [evaluate]. *)
Definition evaluate (predicate : ResolvedPredicate) : ConditionEvaluation :=
  match evaluate_predicate predicate "" [] with
  | Ok (true, _) => ConditionPassed
  | Ok (false, trace) => ConditionFalse trace
  | Err (PointerMissing canonical_ref pointer) => ConditionFailed canonical_ref pointer
  | Err (Unavailable input) => ConditionUnavailable input
  end.
End evaluate.
