(* ===== verification/Decimals.v ===== *)
(** * Exact decimal arithmetic

    The digit-list arithmetic of [condition.rs] computes sums and differences
    of integers, keeps its results canonical, and decides equality of the
    numbers its literals denote. *)

From S2P Require Import Prelude Text Nodes Evidence Condition.

Local Open Scope N_scope.

(** ** Digit lists *)

Abbreviation is_digit := (λ d, d < 10).
Abbreviation pow10 n := (10 ^ N.of_nat n).

Lemma pow10_S n : pow10 (S n) = 10 * pow10 n.
Proof. by rewrite Nat2N.inj_succ, N.pow_succ_r'. Qed.

Lemma pow10_pos n : 0 < pow10 n.
Proof. apply N.neq_0_lt_0, N.pow_nonzero. lia. Qed.

Lemma digits_value_app l k : digits_value (l ++ k) = digits_value l * pow10 (length k) + digits_value k.
Proof.
  induction k as [|d k IH] using rev_ind; [rewrite app_nil_r, N.mul_1_r; symmetry; apply N.add_0_r|].
  rewrite app_assoc, !digits_value_snoc, IH, length_app. simpl. rewrite Nat.add_1_r, pow10_S. lia.
Qed.

Lemma digits_value_cons d l : digits_value (d :: l) = d * pow10 (length l) + digits_value l.
Proof. change (d :: l) with ([d] ++ l)%list. rewrite digits_value_app. unfold digits_value at 1. simpl. lia. Qed.

Lemma digits_value_bound l : Forall is_digit l → digits_value l < pow10 (length l).
Proof.
  induction 1 as [|d l Hd _ IH]; [unfold digits_value; simpl; lia|]. rewrite digits_value_cons. simpl length.
  rewrite pow10_S. nia.
Qed.

Lemma digits_value_inj l k :
  Forall is_digit l → Forall is_digit k → length l = length k → digits_value l = digits_value k → l = k.
Proof.
  intros Hl. revert k. induction Hl as [|d l Hd Hl IH]; intros [|e k] Hk Hlen Hv; simplify_eq/=; [done|].
  apply Forall_cons in Hk as [He Hk]. rewrite !digits_value_cons, Hlen in Hv.
  pose proof (digits_value_bound l Hl) as B1. pose proof (digits_value_bound k Hk) as B2. rewrite Hlen in B1.
  assert (d = e) as -> by nia. f_equal. apply IH; [done..|]. lia.
Qed.

(** Canonical magnitudes: digits without a leading zero, [[0]] for zero. *)
Definition magnitude_ok (l : list N) : Prop :=
  Forall is_digit l ∧ match l with [] => False | [_] => True | d :: _ => d ≠ 0 end.

Lemma magnitude_lower d e l : d ≠ 0 → pow10 (length (e :: l)) <= digits_value (d :: e :: l).
Proof. intros Hd. rewrite digits_value_cons. pose proof (pow10_pos (length (e :: l))). nia. Qed.

(** A longer canonical magnitude is larger. *)
Lemma magnitude_longer l k :
  magnitude_ok l → magnitude_ok k → (length k < length l)%nat → digits_value k < digits_value l.
Proof.
  intros [_ Hl] [Hk Hk'] Hlen. destruct l as [|d [|e l]]; [done|destruct k; simpl in *; [done|lia]|].
  pose proof (digits_value_bound k Hk). pose proof (magnitude_lower d e l Hl).
  assert (pow10 (length k) <= pow10 (length (e :: l))) by (apply N.pow_le_mono_r; simpl in *; lia). lia.
Qed.

Lemma magnitude_inj l k : magnitude_ok l → magnitude_ok k → digits_value l = digits_value k → l = k.
Proof.
  intros Hl Hk Hv. destruct (Nat.lt_trichotomy (length l) (length k)) as [Hlt|[Heq|Hlt]].
  - pose proof (magnitude_longer k l Hk Hl Hlt). lia.
  - apply digits_value_inj; [apply Hl|apply Hk|done..].
  - pose proof (magnitude_longer l k Hl Hk Hlt). lia.
Qed.

(** ** Comparison *)

Lemma slice_cmp_value l k :
  Forall is_digit l → Forall is_digit k → length l = length k →
  slice_cmp l k = N.compare (digits_value l) (digits_value k).
Proof.
  intros Hl. revert k. induction Hl as [|d l Hd Hl IH]; intros [|e k] Hk Hlen; simplify_eq/=; [done|].
  apply Forall_cons in Hk as [He Hk]. rewrite !digits_value_cons, Hlen.
  pose proof (digits_value_bound l Hl) as B1. pose proof (digits_value_bound k Hk) as B2. rewrite Hlen in B1.
  destruct (N.compare_spec d e) as [->|Hlt|Hlt].
  - rewrite IH by done. destruct (N.compare_spec (digits_value l) (digits_value k)); symmetry;
      [apply N.compare_eq_iff|apply N.compare_lt_iff|apply N.compare_gt_iff]; lia.
  - symmetry. apply N.compare_lt_iff. nia.
  - symmetry. apply N.compare_gt_iff. nia.
Qed.

Lemma compare_decimal_magnitudes_value l k :
  magnitude_ok l → magnitude_ok k →
  compare_decimal_magnitudes l k = N.compare (digits_value l) (digits_value k).
Proof.
  intros Hl Hk. unfold compare_decimal_magnitudes. destruct (Nat.compare_spec (length l) (length k)) as [Heq|Hlt|Hlt].
  - apply slice_cmp_value; [apply Hl|apply Hk|done].
  - symmetry. apply N.compare_lt_iff. by apply magnitude_longer.
  - symmetry. apply N.compare_gt_iff. by apply magnitude_longer.
Qed.

(** ** Addition, least significant digit first *)

Definition little (l : list N) : N := foldr (λ d acc, d + 10 * acc) 0 l.

Lemma little_reverse l : little (reverse l) = digits_value l.
Proof.
  induction l as [|d l IH] using rev_ind; [done|]. rewrite reverse_snoc, digits_value_snoc. simpl. rewrite IH. lia.
Qed.

Lemma digits_value_reverse l : digits_value (reverse l) = little l.
Proof. rewrite <-little_reverse, reverse_involutive. done. Qed.

Lemma carry_split s : s mod 10 + 10 * (s / 10) = s.
Proof. pose proof (N.div_mod' s 10). lia. Qed.

Lemma carry_le s : s < 20 → s / 10 <= 1.
Proof. intros Hs. assert (s / 10 < 2) by (apply N.Div0.div_lt_upper_bound; lia). lia. Qed.

Lemma add_carry_spec l c :
  Forall is_digit l → c <= 1 → little (add_carry l c) = little l + c ∧ Forall is_digit (add_carry l c).
Proof.
  intros Hl. revert c. induction Hl as [|d l Hd Hl IH]; intros c Hc; simpl.
  - case_decide; [by subst|]. assert (c = 1) as -> by lia. split; [done|by repeat constructor].
  - assert ((d + c) / 10 <= 1) by (apply carry_le; lia).
    destruct (IH ((d + c) / 10)) as [-> Hf]; [done|]. pose proof (carry_split (d + c)).
    split; [lia|]. constructor; [apply N.mod_lt; lia|done].
Qed.

Lemma add_reversed_spec l k c :
  Forall is_digit l → Forall is_digit k → c <= 1 →
  little (add_reversed l k c) = little l + little k + c ∧ Forall is_digit (add_reversed l k c).
Proof.
  intros Hl. revert k c. induction Hl as [|d l Hd Hl IH]; intros k c Hk Hc; cbn [add_reversed].
  - destruct (add_carry_spec k c Hk Hc) as [-> ?]. split; [simpl; lia|done].
  - destruct k as [|e k]; cbn zeta.
    + assert ((d + c) / 10 <= 1) by (apply carry_le; lia).
      destruct (IH [] ((d + c) / 10)) as [Hv Hf]; [done..|]. pose proof (carry_split (d + c)).
      cbn [little foldr] in *. fold (little (add_reversed l [] ((d + c) / 10))). rewrite Hv. fold (little l).
      split; [lia|]. constructor; [apply N.mod_lt; lia|done].
    + apply Forall_cons in Hk as [He Hk].
      assert ((d + e + c) / 10 <= 1) by (apply carry_le; lia).
      destruct (IH k ((d + e + c) / 10)) as [Hv Hf]; [done..|]. pose proof (carry_split (d + e + c)).
      cbn [little foldr] in *. fold (little (add_reversed l k ((d + e + c) / 10))). rewrite Hv.
      fold (little l) (little k). split; [lia|]. constructor; [apply N.mod_lt; lia|done].
Qed.

(** The most significant digit of a sum is not zero. *)
Lemma add_carry_top l c :
  Forall is_digit l → c <= 1 → last l ≠ Some 0 → last (add_carry l c) ≠ Some 0.
Proof.
  intros Hl. revert c. induction Hl as [|d l Hd Hl IH]; intros c Hc Htop; simpl.
  - case_decide; [done|]. assert (c = 1) as -> by lia. done.
  - rewrite last_cons in *. assert (Hc' : (d + c) / 10 <= 1) by (apply carry_le; lia).
    destruct (last (add_carry l ((d + c) / 10))) as [y|] eqn:Hlast.
    + rewrite <-Hlast. apply IH; [done|]. by destruct (last l).
    + apply last_None in Hlast. destruct l; [|done]. simpl in Hlast. case_decide as Hz; [|done].
      apply N.div_small_iff in Hz; [|done]. rewrite N.mod_small by done. intros [= Heq]. apply Htop. simpl. f_equal. lia.
Qed.

Lemma add_carry_nil l c : add_carry l c = [] → l = [] ∧ c = 0.
Proof. destruct l; simpl; [case_decide|]; done. Qed.

Lemma add_reversed_nil l k c : add_reversed l k c = [] → l = [] ∧ k = [] ∧ c = 0.
Proof. destruct l, k; simpl; try done; try case_decide; done. Qed.

Lemma add_reversed_top l k c :
  Forall is_digit l → Forall is_digit k → c <= 1 → last l ≠ Some 0 → last k ≠ Some 0 →
  last (add_reversed l k c) ≠ Some 0.
Proof.
  intros Hl. revert k c. induction Hl as [|d l Hd Hl IH]; intros k c Hk Hc Htl Htk; cbn [add_reversed].
  { by apply add_carry_top. }
  assert (Htl' : last l ≠ Some 0) by (rewrite last_cons in Htl; by destruct (last l)).
  destruct k as [|e k]; cbn zeta; rewrite last_cons.
  - assert ((d + c) / 10 <= 1) by (apply carry_le; lia).
    destruct (last (add_reversed l [] ((d + c) / 10))) eqn:Hlast; [rewrite <-Hlast; by apply IH|].
    apply last_None, add_reversed_nil in Hlast as (-> & _ & Hz).
    apply N.div_small_iff in Hz; [|done]. rewrite N.mod_small by done. intros [= Heq]. apply Htl. simpl. f_equal. lia.
  - apply Forall_cons in Hk as [He Hk]. assert ((d + e + c) / 10 <= 1) by (apply carry_le; lia).
    assert (Htk' : last k ≠ Some 0) by (rewrite last_cons in Htk; by destruct (last k)).
    destruct (last (add_reversed l k ((d + e + c) / 10))) eqn:Hlast; [rewrite <-Hlast; by apply IH|].
    apply last_None, add_reversed_nil in Hlast as (-> & -> & Hz).
    apply N.div_small_iff in Hz; [|done]. rewrite N.mod_small by done. intros [= Heq]. apply Htl. simpl. f_equal. lia.
Qed.

Lemma add_carry_0 l : Forall is_digit l → add_carry l 0 = l.
Proof.
  induction 1 as [|d l Hd _ IH]; [done|]. simpl. rewrite N.add_0_r, N.mod_small, N.div_small by done. by rewrite IH.
Qed.

Lemma add_reversed_0 l : Forall is_digit l → add_reversed l [] 0 = l.
Proof.
  induction 1 as [|d l Hd _ IH]; [done|]. cbn [add_reversed]. cbn zeta.
  rewrite N.add_0_r, N.mod_small, N.div_small by done. by rewrite IH.
Qed.

(** A canonical magnitude is zero or starts with another digit. *)
Lemma magnitude_cases l : magnitude_ok l → l = [0] ∨ (l ≠ [] ∧ head l ≠ Some 0).
Proof.
  intros [_ Hl]. destruct l as [|d [|e l]]; [done|..].
  - destruct (decide (d = 0)) as [->|]; [by left|right; simpl; split; congruence].
  - right. simpl. split; congruence.
Qed.

Lemma magnitude_intro l : Forall is_digit l → l ≠ [] → head l ≠ Some 0 → magnitude_ok l.
Proof. intros Hf Hne Hh. split; [done|]. destruct l as [|d [|e l]]; [done..|]. simpl in Hh. congruence. Qed.

Lemma head_reverse (l : list N) : head (reverse l) = last l.
Proof. induction l as [|x l IH] using rev_ind; [done|]. rewrite reverse_snoc, last_snoc. done. Qed.

Lemma last_reverse' (l : list N) : last (reverse l) = head l.
Proof. by rewrite <-head_reverse, reverse_involutive. Qed.

Lemma reverse_digits l : Forall is_digit l → Forall is_digit (reverse l).
Proof. by rewrite Forall_reverse. Qed.

Lemma add_decimal_magnitudes_ok l k :
  magnitude_ok l → magnitude_ok k →
  digits_value (add_decimal_magnitudes l k) = digits_value l + digits_value k
  ∧ magnitude_ok (add_decimal_magnitudes l k).
Proof.
  intros Hl Hk. pose proof (proj1 Hl) as Dl. pose proof (proj1 Hk) as Dk. unfold add_decimal_magnitudes.
  destruct (add_reversed_spec (reverse l) (reverse k) 0) as [Hv Hf]; [by apply reverse_digits..|lia|].
  split; [rewrite digits_value_reverse, Hv, !little_reverse; lia|].
  destruct (magnitude_cases l Hl) as [->|[Hnl Hhl]].
  { destruct (reverse k) as [|b k'] eqn:Hr; [by apply (f_equal reverse) in Hr; rewrite reverse_involutive in Hr; subst|].
    assert (Forall is_digit (b :: k')) as [Hb Hk']%Forall_cons by (rewrite <-Hr; by apply reverse_digits).
    change (reverse [0]) with [0]. cbn [add_reversed]. cbn zeta.
    rewrite N.add_0_l, N.add_0_r, N.mod_small, N.div_small, add_carry_0 by done.
    rewrite <-Hr, reverse_involutive. done. }
  destruct (magnitude_cases k Hk) as [->|[Hnk Hhk]].
  { destruct (reverse l) as [|b l'] eqn:Hr; [by apply (f_equal reverse) in Hr; rewrite reverse_involutive in Hr; subst|].
    assert (Forall is_digit (b :: l')) as [Hb Hl']%Forall_cons by (rewrite <-Hr; by apply reverse_digits).
    change (reverse [0]) with [0]. cbn [add_reversed]. cbn zeta.
    rewrite !N.add_0_r, N.mod_small, N.div_small, add_reversed_0 by done.
    rewrite <-Hr, reverse_involutive. done. }
  apply magnitude_intro; [by apply reverse_digits| |].
  - intros Hnil%(f_equal reverse). rewrite reverse_involutive in Hnil. apply add_reversed_nil in Hnil as (Hnil & _).
    apply (f_equal reverse) in Hnil. by rewrite reverse_involutive in Hnil.
  - rewrite head_reverse. apply add_reversed_top; [by apply reverse_digits..|lia| |]; by rewrite last_reverse'.
Qed.

(** ** Subtraction *)

Lemma little_bound l : Forall is_digit l → little l < pow10 (length l).
Proof.
  intros Hl. rewrite <-(reverse_involutive l), little_reverse, reverse_involutive, <-length_reverse.
  apply digits_value_bound. by apply reverse_digits.
Qed.

Lemma subtract_reversed_spec l k b :
  Forall is_digit l → Forall is_digit k → (length k <= length l)%nat → (0 <= b <= 1)%Z →
  length (subtract_reversed l k b) = length l ∧ Forall is_digit (subtract_reversed l k b)
  ∧ ∃ b', (0 <= b' <= 1)%Z
      ∧ (Z.of_N (little (subtract_reversed l k b))
         = Z.of_N (little l) - Z.of_N (little k) - b + b' * Z.of_N (pow10 (length l)))%Z.
Proof.
  intros Hl. revert k b. induction Hl as [|d l Hd Hl IH]; intros k b Hk Hlen Hb.
  { destruct k; [|simpl in Hlen; lia]. split_and!; [done..|]. exists b. split; [done|]. simpl. lia. }
  cbn [subtract_reversed]. set (e := match k with e :: _ => e | [] => 0 end).
  assert (He : e < 10 ∧ little k = e + 10 * little (tail k) ∧ Forall is_digit (tail k) ∧ (length (tail k) <= length l)%nat).
  { destruct k as [|e' k]; simpl in *; [split_and!; done || lia|]. apply Forall_cons in Hk as [? ?]. split_and!; done || lia. }
  destruct He as (He & -> & Hk' & Hlen'). clearbody e. cbn zeta. change (length (d :: l)) with (S (length l)).
  rewrite pow10_S. case_decide as Hneg.
  - destruct (IH (tail k) 1%Z) as (Hn & Hf & b' & Hb' & Hv); [done..|].
    split_and!; [by simpl; rewrite Hn|constructor; [lia|done]|]. exists b'. split; [done|].
    cbn [little foldr]. fold (little (subtract_reversed l (tail k) 1)) (little l). lia.
  - destruct (IH (tail k) 0%Z) as (Hn & Hf & b' & Hb' & Hv); [done..|].
    split_and!; [by simpl; rewrite Hn|constructor; [lia|done]|]. exists b'. split; [done|].
    cbn [little foldr]. fold (little (subtract_reversed l (tail k) 0)) (little l). lia.
Qed.

Lemma pop_zeroes_ok l :
  Forall is_digit l → l ≠ [] → digits_value (pop_zeroes l) = digits_value l ∧ magnitude_ok (pop_zeroes l).
Proof.
  induction l as [|d [|e l] IH]; intros Hf Hne; [done|by split|].
  change (pop_zeroes (d :: e :: l)) with (if decide (d = 0) then pop_zeroes (e :: l) else d :: e :: l).
  case_decide as Hd.
  - apply Forall_cons in Hf as [_ Hf]. destruct (IH Hf) as [Hv Hm]; [done|]. split; [|done].
    rewrite Hv, Hd, (digits_value_cons 0). lia.
  - by split.
Qed.

Lemma subtract_decimal_magnitudes_ok l k :
  magnitude_ok l → magnitude_ok k → digits_value k <= digits_value l →
  digits_value (subtract_decimal_magnitudes l k) = digits_value l - digits_value k
  ∧ magnitude_ok (subtract_decimal_magnitudes l k).
Proof.
  intros Hl Hk Hle. pose proof (proj1 Hl) as Dl. pose proof (proj1 Hk) as Dk. unfold subtract_decimal_magnitudes.
  assert (Hlen : (length k <= length l)%nat).
  { destruct (decide (length k <= length l)%nat) as [|Hn]; [done|].
    pose proof (magnitude_longer k l Hk Hl). lia. }
  destruct (subtract_reversed_spec (reverse l) (reverse k) 0) as (Hn & Hf & b & Hb & Hv);
    [by apply reverse_digits..|by rewrite !length_reverse|lia|].
  rewrite !little_reverse, length_reverse in Hv. rewrite length_reverse in Hn.
  pose proof (little_bound _ Hf) as Hbound. rewrite Hn in Hbound.
  assert (Hval : little (subtract_reversed (reverse l) (reverse k) 0) = digits_value l - digits_value k).
  { assert (b = 0 ∨ b = 1)%Z as [->| ->] by lia; lia. }
  destruct (pop_zeroes_ok (reverse (subtract_reversed (reverse l) (reverse k) 0))) as [Hp Hm].
  - by apply reverse_digits.
  - intros Hnil%(f_equal length). rewrite length_reverse, Hn in Hnil. destruct Hl as [_ Hl]. by destruct l.
  - rewrite Hp, digits_value_reverse. done.
Qed.

(** ** Signed decimals *)

Definition signed_value (d : SignedDecimal) : Z :=
  if sd_negative d then (- Z.of_N (digits_value (sd_magnitude d)))%Z else Z.of_N (digits_value (sd_magnitude d)).

Definition signed_ok (d : SignedDecimal) : Prop :=
  magnitude_ok (sd_magnitude d) ∧ (digits_value (sd_magnitude d) = 0 → sd_negative d = false).

Lemma signed_decimal_zero_ok : signed_ok signed_decimal_zero ∧ signed_value signed_decimal_zero = 0%Z.
Proof. split; [|done]. split; [|done]. split; [by repeat constructor|done]. Qed.

Lemma signed_inj d e : signed_ok d → signed_ok e → signed_value d = signed_value e → d = e.
Proof.
  destruct d as [nd ld], e as [ne le]. intros [Hd Hdn] [He Hen] Hv. unfold signed_value in Hv. simpl in *.
  assert (Hval : digits_value ld = digits_value le) by (destruct nd, ne; lia).
  rewrite (magnitude_inj ld le) by done. f_equal.
  destruct nd, ne; try done; [rewrite Hdn in *|rewrite Hen in *]; try done; lia.
Qed.

Lemma signed_decimal_add_ok d e :
  signed_ok d → signed_ok e →
  signed_ok (signed_decimal_add d e) ∧ signed_value (signed_decimal_add d e) = (signed_value d + signed_value e)%Z.
Proof.
  destruct d as [nd ld], e as [ne le]. intros [Hd Hdn] [He Hen]. unfold signed_decimal_add, signed_value. simpl in *.
  destruct (Bool.eqb_spec nd ne) as [<-|Hne]; simpl.
  { destruct (add_decimal_magnitudes_ok ld le Hd He) as [Hv Hm]. unfold signed_ok. simpl. rewrite Hv.
    split; [split; [done|intros; apply Hdn; lia]|]. destruct nd; lia. }
  rewrite compare_decimal_magnitudes_value by done.
  destruct (N.compare_spec (digits_value ld) (digits_value le)) as [Heq|Hlt|Hlt].
  - split; [apply signed_decimal_zero_ok|]. simpl. change (Z.of_N (digits_value [0])) with 0%Z. destruct nd, ne; done || lia.
  - destruct (subtract_decimal_magnitudes_ok le ld He Hd) as [Hv Hm]; [lia|]. unfold signed_ok. simpl. rewrite Hv.
    split; [split; [done|lia]|]. destruct nd, ne; done || lia.
  - destruct (subtract_decimal_magnitudes_ok ld le Hd He) as [Hv Hm]; [lia|]. unfold signed_ok. simpl. rewrite Hv.
    split; [split; [done|lia]|]. destruct nd, ne; done || lia.
Qed.

(** ** Literals *)

Abbreviation chars_value l := (digits_value (digit_of <$> l)).

Lemma digit_char_range c : is_ascii_digit c = true → 48 <= N_of_ascii c <= 57.
Proof. unfold is_ascii_digit, byte_code. rewrite andb_true_iff, !N.leb_le. done. Qed.

Lemma digit_of_lt c : is_ascii_digit c = true → digit_of c < 10.
Proof. intros Hc%digit_char_range. unfold digit_of, byte_code. lia. Qed.

Lemma digit_of_inj c d : is_ascii_digit c = true → is_ascii_digit d = true → digit_of c = digit_of d → c = d.
Proof.
  intros Hc%digit_char_range Hd%digit_char_range. unfold digit_of, byte_code. intros Heq.
  rewrite <-(ascii_N_embedding c), <-(ascii_N_embedding d). f_equal. lia.
Qed.

Lemma digits_of_chars l : forallb is_ascii_digit l = true → Forall is_digit (digit_of <$> l).
Proof.
  intros Hl. apply Forall_fmap, Forall_forall. intros c Hc. apply digit_of_lt. rewrite forallb_forall in Hl.
  by apply Hl, list_elem_of_In.
Qed.

Lemma chars_inj l k :
  forallb is_ascii_digit l = true → forallb is_ascii_digit k = true → digit_of <$> l = digit_of <$> k → l = k.
Proof.
  revert k. induction l as [|c l IH]; intros [|d k] Hl Hk Heq; try done. simpl in Hl, Hk.
  apply andb_true_iff in Hl as [??], Hk as [??]. injection Heq as ? ?. f_equal; [by apply digit_of_inj|by apply IH].
Qed.

(** A list is its leading zeroes and what is left without them. *)
Lemma drop_leading_zeroes_split l :
  ∃ t, l = (replicate t "0"%char ++ drop_leading_zeroes l)%list ∧ head (drop_leading_zeroes l) ≠ Some "0"%char.
Proof.
  induction l as [|c l (t & Hl & Hh)]; [by exists 0%nat|]. simpl. case_decide as Hc.
  - exists (S t). simpl. rewrite Hc. by rewrite <-Hl.
  - exists 0%nat. split; [done|]. simpl. congruence.
Qed.

Lemma chars_value_zeroes t : chars_value (replicate t "0"%char) = 0.
Proof. induction t as [|t IH]; [done|]. cbn [replicate]. rewrite fmap_cons, digits_value_cons, IH. change (digit_of "0") with 0. lia. Qed.

Lemma drop_leading_zeroes_value l : chars_value (drop_leading_zeroes l) = chars_value l.
Proof.
  destruct (drop_leading_zeroes_split l) as (t & Hl & _). rewrite Hl at 2.
  rewrite fmap_app, digits_value_app, chars_value_zeroes. lia.
Qed.

Lemma drop_leading_zeroes_digits l :
  forallb is_ascii_digit l = true → forallb is_ascii_digit (drop_leading_zeroes l) = true.
Proof.
  destruct (drop_leading_zeroes_split l) as (t & Hl & _). rewrite Hl at 1. rewrite forallb_app, andb_true_iff. by intros [_ ?].
Qed.

Lemma nonzero_magnitude c l :
  forallb is_ascii_digit (c :: l) = true → c ≠ "0"%char → magnitude_ok (digit_of <$> c :: l) ∧ chars_value (c :: l) ≠ 0.
Proof.
  intros Hf Hc. assert (Hd : digit_of c ≠ 0).
  { intros Heq. apply Hc, digit_of_inj; [|done..]. simpl in Hf. by apply andb_true_iff in Hf as [? _]. }
  split.
  - apply magnitude_intro; [by apply digits_of_chars|done|simpl; congruence].
  - rewrite fmap_cons, digits_value_cons. pose proof (pow10_pos (length (digit_of <$> l))). nia.
Qed.

(** The exponent a literal states. *)
Definition exponent_value (text : string) : option Z :=
  let '(negative, digits) :=
    match strip_prefix "-"%char text with
    | Some digits => (true, digits)
    | None => match strip_prefix "+"%char text with Some digits => (false, digits) | None => (false, text) end
    end in
  if str_is_empty digits || negb (forallb is_ascii_digit (bytes digits)) then None
  else let n := Z.of_N (chars_value (bytes digits)) in Some (if negative : bool then (- n)%Z else n).

Lemma signed_decimal_parse_ok text z :
  exponent_value text = Some z →
  ∃ d, signed_decimal_parse text = Some d ∧ signed_ok d ∧ signed_value d = z.
Proof.
  unfold exponent_value, signed_decimal_parse.
  set (p := match strip_prefix "-"%char text with Some _ => _ | None => _ end). destruct p as [negative digits].
  destruct (str_is_empty digits); [done|]. destruct (forallb is_ascii_digit (bytes digits)) eqn:Hf; [|done].
  cbn [orb negb]. intros [= <-]. rewrite <-drop_leading_zeroes_value.
  pose proof (drop_leading_zeroes_digits _ Hf) as Hd. destruct (drop_leading_zeroes_split (bytes digits)) as (_ & _ & Hh).
  destruct (drop_leading_zeroes (bytes digits)) as [|c l].
  - exists signed_decimal_zero. split; [done|]. split; [apply signed_decimal_zero_ok|]. by destruct negative.
  - destruct (nonzero_magnitude c l) as [Hm Hv]; [done|simpl in Hh; congruence|]. eexists. split; [done|].
    split; [|done]. split; [done|]. done.
Qed.

Lemma decimal_digits_ok n : n ≠ 0 → magnitude_ok (decimal_digits n).
Proof.
  intros Hn. apply magnitude_intro; [apply decimal_digits_range|..].
  - intros Hnil. pose proof (decimal_digits_value n) as Hv. rewrite Hnil in Hv. by apply Hn.
  - unfold decimal_digits. assert (Hfuel : (N.to_nat (N.size n) < S (N.to_nat (N.size n)))%nat) by lia.
    revert Hfuel Hn. generalize (S (N.to_nat (N.size n))). intros fuel. revert n.
    induction fuel as [|fuel IH]; intros n Hfuel Hn; [lia|]. simpl. case_decide as Hlt; [simpl; congruence|].
    specialize (IH (n / 10)). rewrite head_app.
    assert (Hsize : (N.to_nat (N.size (n / 10)) < fuel)%nat) by (pose proof (size_div_10 n); lia).
    assert (Hpos : n / 10 ≠ 0) by (apply N.neq_0_lt_0, N.div_str_pos; lia).
    specialize (IH Hsize Hpos). pose proof (decimal_digits_fuel_value fuel (n / 10) Hsize) as Hv.
    by destruct (decimal_digits_fuel fuel (n / 10)).
Qed.

Lemma add_unsigned_ok d n (negative : bool) :
  signed_ok d →
  signed_ok (add_unsigned d n negative)
  ∧ signed_value (add_unsigned d n negative) = (signed_value d + if negative then - Z.of_nat n else Z.of_nat n)%Z.
Proof.
  intros Hd. unfold add_unsigned. case_decide as Hn.
  { split; [done|]. subst n. destruct negative; lia. }
  assert (Hm : magnitude_ok (decimal_digits (N.of_nat n))) by (apply decimal_digits_ok; lia).
  destruct (signed_decimal_add_ok d {| sd_negative := negative; sd_magnitude := decimal_digits (N.of_nat n) |}) as [Hok Hv].
  - done.
  - split; [done|]. simpl. rewrite decimal_digits_value. lia.
  - split; [done|]. rewrite Hv. unfold signed_value at 2. simpl. rewrite decimal_digits_value. destruct negative; lia.
Qed.

(** ** Equality *)

(** A literal read as an integer and a power of ten, without normalising. *)
Definition decimal_of (number : string) : option (Z * Z) :=
  let '(negative, integer, fraction, exponent) := number_parts number in
  if str_is_empty integer || negb (forallb is_ascii_digit (bytes integer))
     || negb (forallb is_ascii_digit (bytes fraction))
  then None
  else
    e ← match exponent with Some text => exponent_value text | None => Some 0%Z end;
    let m := Z.of_N (chars_value (bytes integer ++ bytes fraction)%list) in
    Some (if negative : bool then (- m)%Z else m, (e - Z.of_nat (String.length fraction))%Z).

(** Equality of [m * 10 ^ e], scaled to the smaller exponent. *)
Definition decimal_eq (a b : Z * Z) : Prop :=
  (a.1 * 10 ^ (a.2 - Z.min a.2 b.2) = b.1 * 10 ^ (b.2 - Z.min a.2 b.2))%Z.

Lemma scaled_unique m n i j :
  (m mod 10 ≠ 0 → n mod 10 ≠ 0 → 0 <= i → 0 <= j → m * 10 ^ i = n * 10 ^ j → i = j ∧ m = n)%Z.
Proof.
  intros Hm Hn Hi Hj Heq. destruct (Z.lt_trichotomy i j) as [Hlt|[->|Hlt]].
  - exfalso. apply Hm. replace j with (i + Z.succ (j - i - 1))%Z in Heq by lia.
    rewrite Z.pow_add_r, Z.pow_succ_r in Heq by lia.
    assert (Hm' : (m = (n * 10 ^ (j - i - 1)) * 10)%Z) by (apply (Z.mul_reg_r _ _ (10 ^ i)); [|rewrite Heq]; lia).
    rewrite Hm'. apply Z.mod_mul. lia.
  - split; [done|]. apply (Z.mul_reg_r _ _ (10 ^ j)); lia.
  - exfalso. apply Hn. replace i with (j + Z.succ (i - j - 1))%Z in Heq by lia.
    rewrite Z.pow_add_r, Z.pow_succ_r in Heq by lia.
    assert (Hn' : (n = (m * 10 ^ (i - j - 1)) * 10)%Z) by (apply (Z.mul_reg_r _ _ (10 ^ j)); [|rewrite <-Heq]; lia).
    rewrite Hn'. apply Z.mod_mul. lia.
Qed.

Definition signed_chars (negative : bool) (digits : list ascii) : Z :=
  if negative then (- Z.of_N (chars_value digits))%Z else Z.of_N (chars_value digits).

Definition zero_number : NormalizedNumber :=
  {| nn_negative := false; nn_significant_digits := ["0"%char]; nn_decimal_exponent := signed_decimal_zero |}.

(** What normalisation keeps of a literal with integer [m] and exponent [e]. *)
Inductive normal_form (m e : Z) : NormalizedNumber → Prop :=
| normal_zero : m = 0%Z → normal_form m e zero_number
| normal_nonzero (negative : bool) digits exponent (t : nat) :
    forallb is_ascii_digit digits = true → magnitude_ok (digit_of <$> digits) →
    (Z.of_N (chars_value digits) mod 10 ≠ 0)%Z →
    m = (signed_chars negative digits * 10 ^ Z.of_nat t)%Z →
    signed_ok exponent → signed_value exponent = (e + Z.of_nat t)%Z →
    normal_form m e {| nn_negative := negative; nn_significant_digits := digits; nn_decimal_exponent := exponent |}.

(** The digits between the leading and the trailing zeroes. *)
Lemma significant_digits c l :
  forallb is_ascii_digit (c :: l) = true → c ≠ "0"%char →
  let significant := drop_leading_zeroes (reverse (c :: l)) in
  let t := (length (c :: l) - length significant)%nat in
  forallb is_ascii_digit (reverse significant) = true ∧ magnitude_ok (digit_of <$> reverse significant)
  ∧ chars_value (c :: l) = chars_value (reverse significant) * pow10 t ∧ chars_value (reverse significant) mod 10 ≠ 0.
Proof.
  intros Hf Hc. cbv zeta. destruct (drop_leading_zeroes_split (reverse (c :: l))) as (t & Hsplit & Hh).
  destruct (nonzero_magnitude c l Hf Hc) as [_ Hv].
  set (sig := drop_leading_zeroes (reverse (c :: l))) in *.
  assert (Hall : (c :: l = reverse sig ++ replicate t "0"%char)%list).
  { apply (f_equal reverse) in Hsplit. by rewrite reverse_involutive, reverse_app, reverse_replicate in Hsplit. }
  assert (Hlen : (length (c :: l) - length sig)%nat = t)
    by (rewrite Hall, length_app, length_reverse, length_replicate; lia).
  rewrite Hlen. rewrite Hall in Hf. rewrite forallb_app, andb_true_iff in Hf. destruct Hf as [Hf _].
  assert (Hval : chars_value (c :: l) = chars_value (reverse sig) * pow10 t).
  { rewrite Hall, fmap_app, digits_value_app, chars_value_zeroes, length_fmap, length_replicate. lia. }
  clearbody sig. destruct sig as [|z sig]; [rewrite Hval in Hv; simpl in Hv; done|].
  rewrite reverse_cons in *. split_and!; [done| |done|].
  - destruct (reverse sig) as [|c' sig'] eqn:Hr; injection Hall as -> Hl.
    + apply (nonzero_magnitude z []); [done|simpl in Hh; congruence].
    + apply (nonzero_magnitude c'); done.
  - rewrite forallb_app, andb_true_iff in Hf. destruct Hf as [_ Hz]. simpl in Hz. rewrite andb_true_r in Hz.
    rewrite fmap_app. simpl. rewrite digits_value_snoc. pose proof (digit_of_lt z Hz).
    rewrite N.mul_comm, N.add_comm, N.Div0.mod_add, N.mod_small by done.
    intros Hz0. simpl in Hh. apply Hh. f_equal. by apply digit_of_inj.
Qed.

Lemma normalized_number_parse_ok number m e :
  decimal_of number = Some (m, e) → ∃ n, normalized_number_parse number = Some n ∧ normal_form m e n.
Proof.
  unfold decimal_of, normalized_number_parse. destruct (number_parts number) as [[[negative integer] fraction] exponent].
  destruct (str_is_empty integer || _) eqn:H1; [done|]. destruct (negb (forallb is_ascii_digit (bytes fraction))) eqn:H2; [done|].
  cbn [orb]. intros (z & Hz & [= <- <-])%bind_Some. apply orb_false_iff in H1 as [_ H1].
  apply negb_false_iff in H1, H2. set (digits := (bytes integer ++ bytes fraction)%list).
  assert (Hf : forallb is_ascii_digit digits = true) by (unfold digits; by rewrite forallb_app, H1, H2).
  assert (Hexp : ∃ d, match exponent with Some t => signed_decimal_parse t | None => Some signed_decimal_zero end = Some d
    ∧ signed_ok d ∧ signed_value d = z).
  { destruct exponent as [text|]; [by apply signed_decimal_parse_ok|]. injection Hz as <-.
    exists signed_decimal_zero. split; [done|apply signed_decimal_zero_ok]. }
  destruct Hexp as (d & -> & Hd & Hdz).
  pose proof (drop_leading_zeroes_digits _ Hf) as Hdf. pose proof (drop_leading_zeroes_value digits) as Hdv.
  destruct (drop_leading_zeroes_split digits) as (_ & _ & Hh).
  destruct (drop_leading_zeroes digits) as [|c l].
  { eexists. split; [done|]. apply normal_zero. rewrite <-Hdv. by destruct negative. }
  destruct (significant_digits c l) as (Hsf & Hsm & Hsv & Hsn); [done|simpl in Hh; congruence|].
  set (sig := drop_leading_zeroes (reverse (c :: l))) in *. set (t := (length (c :: l) - length sig)%nat) in *.
  cbn [mbind option_bind]. eexists. split; [done|].
  destruct (add_unsigned_ok d t false Hd) as [Ha Hav]. destruct (add_unsigned_ok _ (String.length fraction) true Ha) as [Hb Hbv].
  apply (normal_nonzero _ _ negative (reverse sig) _ t); [done|done| | |done|].
  - rewrite <-(N2Z.inj_mod _ 10). lia.
  - rewrite <-Hdv, Hsv. rewrite N2Z.inj_mul, N2Z.inj_pow, nat_N_Z. unfold signed_chars. destruct negative; lia.
  - rewrite Hbv, Hav, Hdz. lia.
Qed.

Lemma opposite_mod m : (m mod 10 ≠ 0 → (- m) mod 10 ≠ 0)%Z.
Proof. intros Hm. rewrite Z.mod_opp_l_nz by lia. pose proof (Z.mod_pos_bound m 10). lia. Qed.

Lemma signed_chars_mod negative digits :
  (Z.of_N (chars_value digits) mod 10 ≠ 0 → signed_chars negative digits mod 10 ≠ 0)%Z.
Proof. destruct negative; [apply opposite_mod|done]. Qed.

Lemma pow10_nonzero i : (0 <= i → 10 ^ i ≠ 0)%Z.
Proof. intros Hi. apply Z.pow_nonzero; lia. Qed.

Lemma normal_form_zero m e n : normal_form m e n → (m = 0%Z ↔ n = zero_number).
Proof.
  destruct 1 as [->|negative digits exponent t Hf Hm Hn -> _ _]; [done|]. split.
  - intros Hz. apply Z.eq_mul_0_l in Hz; [|apply pow10_nonzero; lia].
    apply (signed_chars_mod negative) in Hn. by rewrite Hz in Hn.
  - intros Hz. injection Hz as -> -> ->. by destruct Hn.
Qed.

(** Two normal forms are equal when they denote the same number. *)
Lemma normal_forms_equal ma ea mb eb na nb :
  normal_form ma ea na → normal_form mb eb nb → (na = nb ↔ decimal_eq (ma, ea) (mb, eb)).
Proof.
  intros Ha Hb. pose proof (normal_form_zero _ _ _ Ha) as Za. pose proof (normal_form_zero _ _ _ Hb) as Zb.
  unfold decimal_eq. cbn [fst snd]. set (k := Z.min ea eb).
  assert (Hpow : ∀ i, (k <= i → 10 ^ (i - k) ≠ 0)%Z) by (intros; apply pow10_nonzero; lia).
  destruct Ha as [->|n1 ds1 x1 t1 Hf1 Hm1 Hd1 -> Hx1 Hv1].
  { rewrite Z.mul_0_l. split.
    - intros <-. rewrite (proj2 Zb) by done. done.
    - intros Heq. symmetry in Heq. apply Z.eq_mul_0_l in Heq; [|apply Hpow; lia]. symmetry. by apply Zb. }
  destruct Hb as [->|n2 ds2 x2 t2 Hf2 Hm2 Hd2 -> Hx2 Hv2].
  { rewrite Z.mul_0_l. split.
    - intros Heq. rewrite (proj2 Za Heq). lia.
    - intros Heq. apply Z.eq_mul_0_l in Heq; [|apply Hpow; lia]. by apply Za. }
  clear Za Zb. rewrite <-!Z.mul_assoc, <-!Z.pow_add_r by lia. split.
  - intros Heq. injection Heq as -> -> ->. do 2 f_equal. lia.
  - intros Heq. apply scaled_unique in Heq as [Hexp Hval]; [|by apply signed_chars_mod..|lia|lia].
    assert (x1 = x2) as -> by (apply signed_inj; [done..|lia]).
    assert (Hsame : n1 = n2 ∧ chars_value ds1 = chars_value ds2).
    { unfold signed_chars in Hval. destruct n1, n2; split; try done; try lia; exfalso; apply Hd1;
        by replace (Z.of_N (chars_value ds1)) with 0%Z by lia. }
    destruct Hsame as [-> Hsame]. f_equal. apply chars_inj; [done..|]. by apply magnitude_inj.
Qed.

Lemma number_equality l r a b :
  decimal_of l = Some a → decimal_of r = Some b → (numbers_semantically_equal l r = true ↔ decimal_eq a b).
Proof.
  destruct a as [ma ea], b as [mb eb].
  intros (na & Hna & Ha)%normalized_number_parse_ok (nb & Hnb & Hb)%normalized_number_parse_ok.
  unfold numbers_semantically_equal. rewrite Hna, Hnb, bool_decide_eq_true. by apply normal_forms_equal.
Qed.

(** C32: equality of JSON numbers is exact: two literals compare equal
    precisely when they denote the same decimal number, however they are
    written, with no rounding and for exponents of any size. *)
Theorem number_equality_is_exact l r a b :
  decimal_of l = Some a → decimal_of r = Some b →
  (numbers_semantically_equal l r = true ↔ decimal_eq a b).
Proof. apply number_equality. Qed.

Lemma number_equality_is_exact_witness :
  decimal_of "1.50e3" = Some (150, 1)%Z ∧ decimal_of "15E+2" = Some (15, 2)%Z
  ∧ (numbers_semantically_equal "1.50e3" "15E+2" = true ↔ decimal_eq (150, 1)%Z (15, 2)%Z).
Proof.
  split; [vm_compute; reflexivity|]. split; [vm_compute; reflexivity|].
  apply number_equality_is_exact; vm_compute; reflexivity.
Defined.
