(* ===== verification/JsonEquality.v ===== *)
(** * Equality of JSON values

    [json_semantically_equal] decides the equality of JSON documents: numbers
    by what they denote, arrays element by element, objects as maps. *)

From S2P Require Import Prelude Text Nodes Evidence Condition Decimals.

(** ** The specification *)

Inductive json_equiv : Value → Value → Prop :=
| equiv_null : json_equiv Null Null
| equiv_bool b : json_equiv (Bool b) (Bool b)
| equiv_number l r a b :
    decimal_of l = Some a → decimal_of r = Some b → decimal_eq a b → json_equiv (Number l) (Number r)
| equiv_string s : json_equiv (VString s) (VString s)
| equiv_array l r : Forall2 json_equiv l r → json_equiv (Array l) (Array r)
| equiv_object l r :
    (∀ name, option_Forall2 json_equiv (bt_get l name) (bt_get r name)) → json_equiv (Object l) (Object r).

(** What a parsed document guarantees: numbers are literals of the grammar
    and the members of an object have distinct names. *)
Inductive value_ok : Value → Prop :=
| ok_null : value_ok Null
| ok_bool b : value_ok (Bool b)
| ok_number t a : decimal_of t = Some a → value_ok (Number t)
| ok_string s : value_ok (VString s)
| ok_array l : Forall value_ok l → value_ok (Array l)
| ok_object m : NoDup (bt_keys m) → Forall (λ kv, value_ok kv.2) m → value_ok (Object m).

(** ** The loops of the source *)

Definition array_equal (l r : list Value) : bool :=
  (fix all2 (l r : list Value) : bool :=
     match l, r with
     | x :: l', y :: r' => json_semantically_equal x y && all2 l' r'
     | _, _ => true
     end) l r.

Definition member_equal (r : btree Value) (kv : string * Value) : bool :=
  match bt_get r kv.1 with Some y => json_semantically_equal kv.2 y | None => false end.

Lemma object_equal_forallb l r :
  json_semantically_equal (Object l) (Object r) = bool_decide (length l = length r) && forallb (member_equal r) l.
Proof.
  cbn [json_semantically_equal]. f_equal. induction l as [|[name x] l IH]; [done|]. cbn [forallb].
  rewrite IH. done.
Qed.

Lemma array_equal_Forall2 l r :
  Forall (λ x, ∀ y, value_ok x → value_ok y → json_semantically_equal x y = true ↔ json_equiv x y) l →
  Forall value_ok l → Forall value_ok r →
  (length l = length r ∧ array_equal l r = true) ↔ Forall2 json_equiv l r.
Proof.
  intros IH. revert r. induction IH as [|x l Hx _ IHl]; intros [|y r] Hl Hr; cbn [length].
  - split; [constructor|done].
  - split; [by intros [? _]|by inversion 1].
  - split; [by intros [? _]|by inversion 1].
  - apply Forall_cons in Hl as [Hxo Hl], Hr as [Hyo Hr]. cbn [array_equal]. fold (array_equal l r).
    rewrite andb_true_iff, Forall2_cons, (Hx y), <-(IHl r), Nat.succ_inj_wd by done. tauto.
Qed.

Lemma keys_same_size (ks js : list string) k :
  NoDup ks → (∀ i, i ∈ ks → i ∈ js) → length js <= length ks → k ∈ js → k ∈ ks.
Proof.
  rewrite NoDup_ListNoDup, !list_elem_of_In. intros Hnd Hincl Hlen. apply (List.NoDup_length_incl Hnd Hlen).
  intros i. rewrite <-!list_elem_of_In. apply Hincl.
Qed.

Lemma keys_le_size (ks js : list string) : NoDup ks → (∀ i, i ∈ ks → i ∈ js) → length ks <= length js.
Proof.
  rewrite NoDup_ListNoDup. intros Hnd Hincl. apply (List.NoDup_incl_length Hnd). intros i.
  rewrite <-!list_elem_of_In. apply Hincl.
Qed.

(** Objects of the same size whose members all match are equal as maps. *)
Lemma object_equal_maps l r :
  Forall (λ kv, ∀ y, value_ok kv.2 → value_ok y → json_semantically_equal kv.2 y = true ↔ json_equiv kv.2 y) l →
  value_ok (Object l) → value_ok (Object r) →
  (length l = length r ∧ forallb (member_equal r) l = true)
  ↔ ∀ name, option_Forall2 json_equiv (bt_get l name) (bt_get r name).
Proof.
  intros IH Hl Hr. inversion Hl as [| | | | |? Hndl Hokl]. inversion Hr as [| | | | |? Hndr Hokr]. subst.
  rewrite Forall_forall in IH, Hokl, Hokr.
  assert (Hmember : ∀ name x y, bt_get l name = Some x → bt_get r name = Some y →
    json_semantically_equal x y = true ↔ json_equiv x y).
  { intros name x y Hx Hy. apply bt_get_elem_of in Hx, Hy. apply (IH _ Hx); [apply (Hokl _ Hx)|apply (Hokr _ Hy)]. }
  split.
  - intros [Hlen Hall] name. rewrite forallb_forall in Hall.
    assert (Hincl : ∀ k, k ∈ bt_keys l → k ∈ bt_keys r).
    { intros k (x & Hx)%bt_get_is_Some. specialize (Hall (k, x)). unfold member_equal in Hall. simpl in Hall.
      apply bt_get_is_Some. destruct (bt_get r k); [eauto|]. discriminate Hall. by apply list_elem_of_In, bt_get_elem_of. }
    destruct (bt_get l name) as [x|] eqn:Hx.
    + pose proof (Hall (name, x)) as Hm. unfold member_equal in Hm. simpl in Hm.
      assert (Hin : In (name, x) l) by by apply list_elem_of_In, bt_get_elem_of.
      destruct (bt_get r name) as [y|] eqn:Hy; [|discriminate (Hm Hin)]. constructor. by apply (Hmember name), Hm.
    + destruct (bt_get r name) eqn:Hy; [|constructor]. exfalso.
      assert (Hk : name ∈ bt_keys l) by (eapply keys_same_size; [exact Hndl|exact Hincl|unfold bt_keys; by rewrite !length_fmap, Hlen|]; apply bt_get_is_Some; eauto).
      apply bt_get_is_Some in Hk. rewrite Hx in Hk. by destruct Hk.
  - intros Hmaps. assert (Hkeys : ∀ k, k ∈ bt_keys l ↔ k ∈ bt_keys r).
    { intros k. rewrite <-!bt_get_is_Some. destruct (Hmaps k); split; intros [??]; simplify_eq; eauto. }
    split.
    + pose proof (keys_le_size (bt_keys l) (bt_keys r) Hndl (λ k, proj1 (Hkeys k))).
      pose proof (keys_le_size (bt_keys r) (bt_keys l) Hndr (λ k, proj2 (Hkeys k))).
      unfold bt_keys in *. rewrite !length_fmap in *. lia.
    + apply forallb_forall. intros [name x] Hin%list_elem_of_In. unfold member_equal. simpl.
      apply bt_get_NoDup in Hin as Hx; [|done]. pose proof (Hmaps name) as Hm. rewrite Hx in Hm.
      inversion Hm as [? y Hxy Heq1 Heq2|]; subst. by apply (Hmember name).
Qed.

(** C31: equality of JSON documents is decided correctly: on documents whose
    numbers are literals and whose members have distinct names,
    [json_semantically_equal] holds exactly when the documents are equal as
    values, with numbers compared by what they denote and objects as maps. *)
Theorem json_equality_is_semantic l r :
  value_ok l → value_ok r → (json_semantically_equal l r = true ↔ json_equiv l r).
Proof.
  revert r. induction l as [|b|t|t|l IH|m IH] using Value_nested_ind; intros r Hl Hr;
    destruct r as [|b'|t'|t'|l'|m']; try (split; [done|by inversion 1]).
  - split; [constructor|done].
  - simpl. rewrite Bool.eqb_true_iff. split; [intros ->; constructor|by inversion 1].
  - inversion Hl as [| |? a Ha| | |]. inversion Hr as [| |? a' Ha'| | |]. subst. cbn [json_semantically_equal].
    rewrite (number_equality _ _ _ _ Ha Ha'). split; [by econstructor|]. inversion 1. by simplify_eq.
  - simpl. rewrite bool_decide_eq_true. split; [intros ->; constructor|by inversion 1].
  - inversion Hl. inversion Hr. subst. cbn [json_semantically_equal]. fold (array_equal l l').
    rewrite andb_true_iff, bool_decide_eq_true, array_equal_Forall2 by done.
    split; [by constructor|by inversion 1].
  - rewrite object_equal_forallb, andb_true_iff, bool_decide_eq_true, object_equal_maps by done.
    split; [by constructor|by inversion 1].
Qed.

Lemma json_equality_is_semantic_witness :
  let l := Object [("a", Number "1.0"); ("b", Array [Null])] in
  let r := Object [("b", Array [Null]); ("a", Number "10e-1")] in
  value_ok l ∧ value_ok r ∧ (json_semantically_equal l r = true ↔ json_equiv l r).
Proof.
  assert (Hok : value_ok (Object [("a", Number "1.0"); ("b", Array [Null])])
                ∧ value_ok (Object [("b", Array [Null]); ("a", Number "10e-1")])).
  { split; (constructor; [vm_compute; repeat constructor; set_solver|]);
      repeat constructor; eapply ok_number; vm_compute; reflexivity. }
  cbv zeta. split; [apply Hok|]. split; [apply Hok|]. apply json_equality_is_semantic; apply Hok.
Defined.
