(* ===== verification/Predicates.v ===== *)
(** * Predicates

    Evaluation computes the boolean reading of a predicate, and the trace of
    a false predicate is evidence that a skipped node can record. *)

From S2P Require Import Prelude Text Nodes Evidence Condition.

(** ** JSON pointers

    Pointers are parsed and printed without loss, and the two readers of the
    source, the parser of [condition.rs] and the check of [evidence.rs],
    accept the same texts. *)

(** ** Printing, as RFC 6901 prescribes *)

Definition escape_char (c : ascii) : list ascii :=
  if decide (c = "~"%char) then ["~"%char; "0"%char]
  else if decide (c = "/"%char) then ["~"%char; "1"%char] else [c].

Definition escape_token (token : list ascii) : list ascii := token ≫= escape_char.

Definition pointer_text (tokens : list string) : string :=
  match tokens with
  | [] => ""
  | _ => "/" ++ str_join "/"%char ((λ token, of_bytes (escape_token (bytes token))) <$> tokens)
  end.

(** ** Tokens *)

Lemma decode_escape token : decode_pointer_token (escape_token token) = Some token.
Proof.
  induction token as [|c token IH]; [done|]. unfold escape_token in *. cbn [mbind list_bind].
  unfold escape_char at 1. destruct (decide (c = "~"%char)) as [->|Ht]; [|destruct (decide (c = "/"%char)) as [->|Hs]].
  - simpl. by rewrite IH.
  - simpl. by rewrite IH.
  - cbn [app decode_pointer_token]. rewrite decide_False by done. by rewrite IH.
Qed.

(** Decoding is injective: a decoded token prints back to the text it was
    read from. *)
Lemma escape_decode n token decoded :
  length token < n → "/"%char ∉ token → decode_pointer_token token = Some decoded → escape_token decoded = token.
Proof.
  revert token decoded. induction n as [|n IH]; intros token decoded Hn Hslash; [lia|].
  destruct token as [|c token]; simpl in Hn; [by intros [= <-]|].
  apply not_elem_of_cons in Hslash as [Hc Hslash]. cbn [decode_pointer_token]. case_decide as Ht.
  - destruct token as [|e token]; [done|]. apply not_elem_of_cons in Hslash as [_ Hslash]. simpl in Hn. subst c.
    repeat case_decide; try done; intros (d & Hd & ->)%fmap_Some; subst e;
      unfold escape_token; cbn [mbind list_bind]; fold (escape_token d); rewrite (IH token d) by (done || lia); done.
  - intros (d & Hd & ->)%fmap_Some. unfold escape_token. cbn [mbind list_bind]. fold (escape_token d).
    rewrite (IH token d) by (done || lia). unfold escape_char. by rewrite !decide_False by congruence.
Qed.

Lemma escape_no_slash token : "/"%char ∉ escape_token token.
Proof.
  unfold escape_token. rewrite list_elem_of_bind. intros (c & Hin & _). unfold escape_char in Hin.
  repeat case_decide; set_solver.
Qed.

(** The check of [evidence.rs] on a token agrees with decoding it. *)
Lemma valid_token_decodes n token :
  length token < n → valid_pointer_token token = true ↔ is_Some (decode_pointer_token token).
Proof.
  revert token. induction n as [|n IH]; intros token Hn; [lia|]. destruct token as [|c token]; [by split|].
  simpl in Hn. cbn [valid_pointer_token decode_pointer_token]. case_decide as Hc.
  - destruct token as [|e token]; [split; [done|by intros [??]]|]. simpl in Hn.
    destruct (decide (e = "0"%char)) as [->|H0]; [|destruct (decide (e = "1"%char)) as [->|H1]].
    + rewrite decide_True by auto. rewrite fmap_is_Some. apply IH. lia.
    + rewrite decide_True by auto. rewrite fmap_is_Some. apply IH. lia.
    + rewrite decide_False by naive_solver. split; [done|by intros [??]].
  - rewrite fmap_is_Some. apply IH. lia.
Qed.

(** ** Pointers *)

Lemma mapM_decode_is_Some tokens :
  is_Some (mapM (λ token, of_bytes <$> decode_pointer_token (bytes token)) tokens)
  ↔ forallb (λ token, valid_pointer_token (bytes token)) tokens = true.
Proof.
  rewrite mapM_is_Some, Forall_forall, forallb_forall.
  assert (Htoken : ∀ token, is_Some (of_bytes <$> decode_pointer_token (bytes token))
                            ↔ valid_pointer_token (bytes token) = true).
  { intros token. rewrite fmap_is_Some. symmetry. apply (valid_token_decodes (S (length (bytes token)))). lia. }
  split; intros Hall token Hin; apply Htoken, Hall; by apply list_elem_of_In.
Qed.

(** The two readers of JSON pointers agree: the pointers that
    [FailureDetail] and [ConditionFalseDetail] accept as evidence are exactly
    those that [JsonPointer::parse] reads. *)
Lemma pointer_readers_agree text : valid_json_pointer text = true ↔ is_Some (json_pointer_parse text).
Proof.
  unfold valid_json_pointer, json_pointer_parse. destruct (str_is_empty text); [split; eauto|].
  destruct (strip_prefix "/"%char text) as [tokens|]; simpl; [|split; [done|by intros [??]]].
  rewrite <-mapM_decode_is_Some. destruct (mapM _ _); simpl; split; intros [??]; eauto; done.
Qed.

(** Splitting leaves no separator in a segment. *)
Lemma str_split_no_sep sep s : Forall (λ seg, sep ∉ bytes seg) (str_split sep s).
Proof.
  induction s as [|c s IH]; simpl; [repeat constructor; apply not_elem_of_nil|].
  case_decide as Hc; [constructor; [apply not_elem_of_nil|done]|].
  destruct (str_split sep s) as [|seg segs]; [repeat constructor; simpl; set_solver|].
  apply Forall_cons in IH as [Hs IH]. constructor; [|done]. simpl. apply not_elem_of_cons. split; [congruence|done].
Qed.

Lemma strip_prefix_text c s t : strip_prefix c s = Some t → s = String c t.
Proof. destruct s as [|d s]; simpl; [done|]. case_decide; [|done]. by intros [= ->]; subst. Qed.

Lemma mapM_decode_print texts tokens :
  Forall (λ seg, "/"%char ∉ bytes seg) texts →
  mapM (λ token, of_bytes <$> decode_pointer_token (bytes token)) texts = Some tokens →
  (λ token, of_bytes (escape_token (bytes token))) <$> tokens = texts.
Proof.
  intros Hall Hm%mapM_Some. induction Hm as [|text token texts tokens Htoken _ IH]; [done|].
  apply Forall_cons in Hall as [Hs Hall]. rewrite fmap_cons, IH by done. f_equal.
  apply fmap_Some in Htoken as (d & Hd & ->). rewrite bytes_of_bytes.
  rewrite (escape_decode (S (length (bytes text))) (bytes text) d) by (done || lia). apply of_bytes_bytes.
Qed.

(** Pointers are read and written without loss: printing a list of
    tokens and parsing it gives the tokens back, and the tokens of a parsed
    pointer print to the text that was parsed. *)
Theorem pointer_round_trip :
  (∀ tokens, json_pointer_parse (pointer_text tokens)
             = Some {| jp_authored := pointer_text tokens; jp_tokens := tokens |})
  ∧ (∀ text p, json_pointer_parse text = Some p → jp_authored p = text ∧ pointer_text (jp_tokens p) = text).
Proof.
  split.
  - intros tokens. destruct tokens as [|token tokens]; [done|]. unfold json_pointer_parse, pointer_text.
    set (texts := (λ token, of_bytes (escape_token (bytes token))) <$> token :: tokens).
    change ("/" ++ str_join "/" texts) with (String "/" (str_join "/" texts)).
    unfold str_is_empty. rewrite bool_decide_eq_false_2 by done. cbn [strip_prefix]. rewrite decide_True by done.
    cbn [mbind option_bind]. rewrite str_split_join.
    + assert (Hm : mapM (λ token, of_bytes <$> decode_pointer_token (bytes token)) texts = Some (token :: tokens)).
      { apply mapM_Some. unfold texts. apply Forall2_fmap_l, Forall_Forall2_diag, Forall_true. intros text. unfold compose. cbn beta.
        rewrite bytes_of_bytes, decode_escape. simpl. by rewrite of_bytes_bytes. }
      by rewrite Hm.
    + done.
    + unfold texts. apply Forall_fmap, Forall_true. intros text. simpl. rewrite bytes_of_bytes. apply escape_no_slash.
  - intros text p. unfold json_pointer_parse. destruct (str_is_empty text) eqn:Hempty.
    { apply bool_decide_eq_true in Hempty as ->. by intros [= <-]. }
    intros (rest & Hrest%strip_prefix_text & (tokens & Htokens & [= <-])%bind_Some)%bind_Some. split; [done|].
    pose proof (str_split_no_sep "/"%char rest) as Hsep. apply mapM_decode_print in Htokens as Hprint; [|done].
    unfold pointer_text. simpl. destruct tokens as [|token tokens].
    + simpl in Hprint. by destruct (str_split_not_nil "/"%char rest).
    + rewrite Hprint, str_join_split. by rewrite Hrest.
Qed.

(** ** Induction on predicates *)

Section Predicate_ind.
Variable P : ResolvedPredicate → Prop.
Hypothesis HAll : ∀ l, Forall P l → P (PAll l).
Hypothesis HAny : ∀ l, Forall P l → P (PAny l).
Hypothesis HNot : ∀ p, P p → P (PNot p).
Hypothesis HEquals : ∀ l r, P (PEquals l r).
Hypothesis HExists : ∀ s, P (PExists s).
Hypothesis HDisposition : ∀ node is_, P (PDisposition node is_).

Fixpoint predicate_nested_ind (p : ResolvedPredicate) : P p :=
  let fix go l : Forall P l :=
    match l with
    | [] => Forall_nil_2 _
    | q :: l' => Forall_cons_2 _ _ _ (predicate_nested_ind q) (go l')
    end in
  match p with
  | PAll l => HAll l (go l)
  | PAny l => HAny l (go l)
  | PNot q => HNot q (predicate_nested_ind q)
  | PEquals l r => HEquals l r
  | PExists s => HExists s
  | PDisposition node is_ => HDisposition node is_
  end.
End Predicate_ind.

(** The number of predicates in a predicate. *)
Fixpoint predicate_nodes (p : ResolvedPredicate) : nat :=
  S match p with
    | PAll l | PAny l => list_sum (predicate_nodes <$> l)
    | PNot q => predicate_nodes q
    | PEquals _ _ | PExists _ | PDisposition _ _ => 0
    end.

Section semantics.
Context (values : ConditionValues) (dispositions : ConditionDispositions).

(** ** The boolean reading *)

Fixpoint holds (p : ResolvedPredicate) : bool :=
  match p with
  | PAll l => forallb holds l
  | PAny l => existsb holds l
  | PNot q => negb (holds q)
  | PEquals l r =>
      match resolve_operand l values, resolve_operand r values with
      | Ok l, Ok r => operands_equal l r
      | _, _ => false
      end
  | PExists s =>
      match resolve_json_reference (rsel_canonical_ref s) values with
      | Ok v => match json_pointer_select (rsel_pointer s) v with Selected _ => true | Missing => false end
      | Err _ => false
      end
  | PDisposition node is_ => bool_decide (dispositions !! node = Some is_)
  end.

(** Everything a predicate reads is there. *)
Fixpoint readable (p : ResolvedPredicate) : bool :=
  match p with
  | PAll l | PAny l => forallb readable l
  | PNot q => readable q
  | PEquals l r =>
      bool_decide (is_Some (result_ok (resolve_operand l values)))
      && bool_decide (is_Some (result_ok (resolve_operand r values)))
  | PExists s => bool_decide (is_Some (result_ok (resolve_json_reference (rsel_canonical_ref s) values)))
  | PDisposition node _ => bool_decide (is_Some (dispositions !! node))
  end.

(** The two loops over children. *)
Definition evaluate_all path : nat → list ResolvedPredicate → Trace → result (bool * Trace) EvaluationFailure :=
  fix go index children trace :=
    match children with
    | [] => Ok (true, trace)
    | child :: children' =>
        let? (b, trace) := evaluate_predicate values dispositions child
          (path_child path ("all/" ++ to_string (N.of_nat index))) trace in
        if b : bool then go (S index) children' trace else Ok (false, trace)
    end.

Definition evaluate_any path : nat → list ResolvedPredicate → Trace → result (bool * Trace) EvaluationFailure :=
  fix go index children trace :=
    match children with
    | [] => Ok (false, trace)
    | child :: children' =>
        let? (b, trace) := evaluate_predicate values dispositions child
          (path_child path ("any/" ++ to_string (N.of_nat index))) trace in
        if b : bool then Ok (true, trace) else go (S index) children' trace
    end.

Abbreviation entry path outcome := {| ep_path := path; ep_result := outcome |}.

Lemma evaluate_PAll l path trace :
  evaluate_predicate values dispositions (PAll l) path trace
  = let? (outcome, trace) := evaluate_all path 0 l trace in Ok (outcome, trace ++ [entry path outcome])%list.
Proof. reflexivity. Qed.

Lemma evaluate_PAny l path trace :
  evaluate_predicate values dispositions (PAny l) path trace
  = let? (outcome, trace) := evaluate_any path 0 l trace in Ok (outcome, trace ++ [entry path outcome])%list.
Proof. reflexivity. Qed.

Abbreviation evaluates_to p :=
  (∀ path trace, ∃ trace', evaluate_predicate values dispositions p path trace = Ok (holds p, trace')).

Lemma evaluate_all_holds l path :
  Forall (λ p, evaluates_to p) l → ∀ index trace, ∃ trace', evaluate_all path index l trace = Ok (forallb holds l, trace').
Proof.
  induction 1 as [|p l Hp _ IH]; intros index trace; [by eexists|]. cbn [evaluate_all forallb].
  destruct (Hp (path_child path ("all/" ++ to_string (N.of_nat index))) trace) as [trace1 ->]. cbn [result_bind].
  destruct (holds p); [apply IH|by eexists].
Qed.

Lemma evaluate_any_holds l path :
  Forall (λ p, evaluates_to p) l → ∀ index trace, ∃ trace', evaluate_any path index l trace = Ok (existsb holds l, trace').
Proof.
  induction 1 as [|p l Hp _ IH]; intros index trace; [by eexists|]. cbn [evaluate_any existsb].
  destruct (Hp (path_child path ("any/" ++ to_string (N.of_nat index))) trace) as [trace1 ->]. cbn [result_bind].
  destruct (holds p); [by eexists|apply IH].
Qed.

Lemma readable_children l (Q : ResolvedPredicate → Prop) :
  Forall (λ p, readable p = true → Q p) l → forallb readable l = true → Forall Q l.
Proof.
  induction 1 as [|p l Hp _ IH]; [done|]. simpl. rewrite andb_true_iff. intros [??]. constructor; auto.
Qed.

Lemma evaluate_predicate_holds p : readable p = true → evaluates_to p.
Proof.
  induction p as [l IH|l IH|p IH|l r|s|node is_] using predicate_nested_ind; cbn [readable]; intros Hr path trace.
  - rewrite evaluate_PAll. destruct (evaluate_all_holds l path (readable_children l _ IH Hr) 0 trace) as [? ->]. by eexists.
  - rewrite evaluate_PAny. destruct (evaluate_any_holds l path (readable_children l _ IH Hr) 0 trace) as [? ->]. by eexists.
  - cbn [evaluate_predicate]. destruct (IH Hr (path_child path "not") trace) as [? ->]. by eexists.
  - apply andb_true_iff in Hr as [Hl%bool_decide_eq_true Hr%bool_decide_eq_true]. cbn [evaluate_predicate holds].
    destruct (resolve_operand l values); [|by destruct Hl]. destruct (resolve_operand r values); [|by destruct Hr].
    by eexists.
  - apply bool_decide_eq_true in Hr. cbn [evaluate_predicate holds].
    destruct (resolve_json_reference _ values); [|by destruct Hr]. by eexists.
  - apply bool_decide_eq_true in Hr as [d Hd]. cbn [evaluate_predicate holds]. rewrite Hd. cbn [ok_or result_bind].
    eexists. do 3 f_equal; apply bool_decide_ext; naive_solver.
Qed.
End semantics.

(** C30: when everything a condition reads is available, its evaluation is its
    boolean reading: it passes when the predicate holds and is false
    otherwise, and short-circuiting cannot be observed. *)
Theorem condition_evaluation_is_boolean values dispositions p :
  readable values dispositions p = true →
  if holds values dispositions p then evaluate values dispositions p = ConditionPassed
  else ∃ trace, evaluate values dispositions p = ConditionFalse trace.
Proof.
  intros Hr. destruct (evaluate_predicate_holds values dispositions p Hr "" []) as [trace Heq].
  unfold evaluate. rewrite Heq. destruct (holds values dispositions p); [done|eauto].
Qed.

Lemma condition_evaluation_is_boolean_witness :
  let values : ConditionValues := {[ "inputs.mode" := CapturedText "fast" ]} in
  let p := PAll [PNot (PEquals (text_reference "inputs.mode") (text_literal "slow"));
                 PAny [PEquals (text_reference "inputs.mode") (text_literal "fast")]] in
  holds values ∅ p = true ∧ evaluate values ∅ p = ConditionPassed.
Proof.
  cbv zeta. split; [vm_compute; reflexivity|].
  exact (condition_evaluation_is_boolean {[ "inputs.mode" := CapturedText "fast" ]} ∅
    (PAll [PNot (PEquals (text_reference "inputs.mode") (text_literal "slow"));
           PAny [PEquals (text_reference "inputs.mode") (text_literal "fast")]]) eq_refl).
Defined.

(** ** The trace of a predicate *)

(** Paths as segments. *)
Definition path_text (segments : list string) : string :=
  match segments with [] => "" | _ => String "/" (str_join "/"%char segments) end.

Definition segment_ok (segment : string) : bool :=
  forallb (λ c, negb (bool_decide (c = "/"%char)) && negb (bool_decide (c = "~"%char))) (bytes segment).

Lemma segment_ok_slash segment : segment_ok segment = true → "/"%char ∉ bytes segment.
Proof.
  unfold segment_ok. rewrite forallb_forall. intros Hall Hin. specialize (Hall "/"%char).
  by discriminate Hall; apply list_elem_of_In.
Qed.

Lemma append_assoc s t u : ((s ++ t) ++ u = s ++ t ++ u)%string.
Proof. induction s as [|c s IH]; [by rewrite !append_empty_l|]. by rewrite !append_String, IH. Qed.

Lemma str_join_app sep l k :
  l ≠ [] → k ≠ [] → str_join sep (l ++ k) = (str_join sep l ++ String sep (str_join sep k))%string.
Proof.
  intros Hl Hk. induction l as [|s l IH]; [done|]. destruct l as [|s' l].
  - destruct k; [done|]. done.
  - change (str_join sep ((s :: s' :: l) ++ k)) with (s ++ String sep (str_join sep ((s' :: l) ++ k)))%string.
    rewrite IH by done. change (str_join sep (s :: s' :: l)) with (s ++ String sep (str_join sep (s' :: l)))%string.
    by rewrite append_assoc, append_String.
Qed.

Lemma path_child_text base segments :
  segments ≠ [] → path_child (path_text base) (str_join "/"%char segments) = path_text (base ++ segments).
Proof.
  intros Hs. unfold path_child, path_text. destruct base as [|s base]; [by destruct segments|].
  change ((s :: base) ++ segments)%list with (s :: (base ++ segments))%list. cbv iota.
  change (s :: (base ++ segments))%list with ((s :: base) ++ segments)%list. by rewrite str_join_app.
Qed.

Lemma path_text_inj l k :
  Forall (λ s, segment_ok s = true) l → Forall (λ s, segment_ok s = true) k → path_text l = path_text k → l = k.
Proof.
  intros Hl Hk Heq.
  assert (Hsplit : ∀ m, m ≠ [] → Forall (λ s, segment_ok s = true) m → str_split "/"%char (str_join "/"%char m) = m).
  { intros m Hne Hm. apply str_split_join; [done|]. eapply Forall_impl; [done|]. intros s. apply segment_ok_slash. }
  destruct l as [|s l], k as [|t k]; try done. unfold path_text in Heq.
  assert (str_join "/"%char (s :: l) = str_join "/"%char (t :: k)) as Hjoin by congruence.
  rewrite <-(Hsplit (s :: l)), <-(Hsplit (t :: k)) by done. by rewrite Hjoin.
Qed.

Lemma segment_ok_token segment : segment_ok segment = true → valid_pointer_token (bytes segment) = true.
Proof.
  unfold segment_ok. induction (bytes segment) as [|c l IH]; [done|]. cbn [forallb valid_pointer_token].
  rewrite !andb_true_iff, !negb_true_iff, !bool_decide_eq_false. intros [[_ ?] ?]. rewrite decide_False by done. auto.
Qed.

Lemma path_text_valid l : Forall (λ s, segment_ok s = true) l → valid_json_pointer (path_text l) = true.
Proof.
  intros Hl. destruct l as [|s l]; [done|]. unfold valid_json_pointer, path_text, str_is_empty.
  rewrite bool_decide_eq_false_2 by done. cbn [strip_prefix]. rewrite decide_True by done.
  rewrite str_split_join; [|done|eapply Forall_impl; [done|]; intros ?; apply segment_ok_slash].
  apply forallb_forall. intros t Ht%list_elem_of_In. apply segment_ok_token. by rewrite Forall_forall in Hl; apply Hl.
Qed.

Lemma to_string_segment n : segment_ok (to_string n) = true.
Proof.
  apply forallb_forall. intros c Hc%list_elem_of_In%to_string_digits. unfold is_ascii_digit, byte_code in Hc.
  rewrite andb_true_iff, !N.leb_le in Hc. apply andb_true_iff. split; apply negb_true_iff, bool_decide_eq_false; intros ->;
    vm_compute in Hc; destruct Hc; congruence.
Qed.

Definition entry_of (e : list string * bool) : EvaluatedPredicate := {| ep_path := path_text e.1; ep_result := e.2 |}.

(** Distinct paths strictly below [base]. *)
Definition below (base : list string) (new : list (list string * bool)) : Prop :=
  NoDup new.*1
  ∧ ∀ s, s ∈ new.*1 → ∃ ext, s = (base ++ ext)%list ∧ ext ≠ [] ∧ Forall (λ s, segment_ok s = true) ext.

(** Distinct paths of the children of [base] from number [first] on. *)
Definition below_children (base : list string) (word : string) (first : nat) (new : list (list string * bool)) : Prop :=
  NoDup new.*1
  ∧ ∀ s, s ∈ new.*1 → ∃ i ext, first <= i ∧ s = (base ++ [word; to_string (N.of_nat i)] ++ ext)%list
                              ∧ Forall (λ s, segment_ok s = true) ext.

Lemma below_children_below base word first new :
  segment_ok word = true → below_children base word first new → below base new.
Proof.
  intros Hw [Hnd Hall]. split; [done|]. intros s (i & ext & _ & -> & Hext)%Hall.
  eexists. split; [done|]. split; [done|]. repeat constructor; [done|apply to_string_segment|done].
Qed.

Lemma below_snoc base new (b : bool) : below base new → NoDup (new ++ [(base, b)])%list.*1.
Proof.
  intros [Hnd Hall]. rewrite fmap_app. apply NoDup_app. split_and!; [done| |apply NoDup_singleton].
  intros s (ext & -> & Hne & _)%Hall. simpl. rewrite list_elem_of_singleton. intros Heq.
  apply Hne. by apply (app_inv_head base); rewrite app_nil_r.
Qed.

Lemma below_children_cons base word i child (b : bool) rest :
  below (base ++ [word; to_string (N.of_nat i)]) child → below_children base word (S i) rest →
  below_children base word i ((child ++ [((base ++ [word; to_string (N.of_nat i)])%list, b)]) ++ rest)%list.
Proof.
  intros Hchild [Hnd Hall]. pose proof (below_snoc _ _ b Hchild) as Hsnoc. destruct Hchild as [_ Hchild].
  assert (Hfirst : ∀ s, s ∈ (child ++ [((base ++ [word; to_string (N.of_nat i)])%list, b)])%list.*1 →
    ∃ ext, s = (base ++ [word; to_string (N.of_nat i)] ++ ext)%list ∧ Forall (λ s, segment_ok s = true) ext).
  { intros s. rewrite fmap_app, elem_of_app. simpl. rewrite list_elem_of_singleton. intros [Hs| ->].
    - apply Hchild in Hs as (ext & -> & _ & Hext). exists ext. by rewrite <-app_assoc.
    - exists []. split; [done|constructor]. }
  split.
  - rewrite fmap_app. apply NoDup_app. split_and!; [done| |done].
    intros s (ext & -> & _)%Hfirst (j & ext' & Hj & Heq & _)%Hall. apply app_inv_head in Heq.
    injection Heq as Heq _. apply to_string_inj in Heq. lia.
  - intros s. rewrite fmap_app, elem_of_app. intros [(ext & -> & Hext)%Hfirst|(j & ext & Hj & -> & Hext)%Hall].
    + by exists i, ext.
    + exists j, ext. split; [lia|done].
Qed.

Section trace.
Context (values : ConditionValues) (dispositions : ConditionDispositions).

(** What one evaluation appends to the trace. *)
Definition traced (p : ResolvedPredicate) : Prop :=
  ∀ base trace b trace', evaluate_predicate values dispositions p (path_text base) trace = Ok (b, trace') →
  ∃ new, trace' = (trace ++ (entry_of <$> new ++ [(base, b)]))%list ∧ below base new ∧ length new < predicate_nodes p.

Lemma traced_leaf p base (trace : Trace) (b : bool) :
  ∃ new, (trace ++ [entry_of (base, b)] = trace ++ (entry_of <$> new ++ [(base, b)]))%list
         ∧ below base new ∧ length new < predicate_nodes p.
Proof. exists []. split_and!; [done|split; [constructor|by intros s ?%elem_of_nil]|]. destruct p; simpl; lia. Qed.

Lemma child_path base word i :
  path_child (path_text base) (word ++ String "/" (to_string (N.of_nat i)))
  = path_text (base ++ [word; to_string (N.of_nat i)]).
Proof. apply (path_child_text base [word; to_string (N.of_nat i)]). done. Qed.

(** Both loops, with the word of their paths and the result that ends
    them early. *)
Definition evaluate_children word (stop : bool) path
    : nat → list ResolvedPredicate → Trace → result (bool * Trace) EvaluationFailure :=
  fix go index children trace :=
    match children with
    | [] => Ok (negb stop, trace)
    | child :: children' =>
        let? (b, trace) := evaluate_predicate values dispositions child
          (path_child path (word ++ String "/" (to_string (N.of_nat index)))) trace in
        if Bool.eqb b stop then Ok (stop, trace) else go (S index) children' trace
    end.

Lemma evaluate_all_children path i l trace :
  evaluate_all values dispositions path i l trace = evaluate_children "all" false path i l trace.
Proof.
  revert i trace. induction l as [|p l IH]; intros i trace; [done|]. cbn [evaluate_all evaluate_children].
  change ("all" ++ String "/" (to_string (N.of_nat i))) with ("all/" ++ to_string (N.of_nat i)).
  destruct (evaluate_predicate _ _ _ _ _) as [[[] ?]|]; cbn [result_bind Bool.eqb]; auto.
Qed.

Lemma evaluate_any_children path i l trace :
  evaluate_any values dispositions path i l trace = evaluate_children "any" true path i l trace.
Proof.
  revert i trace. induction l as [|p l IH]; intros i trace; [done|]. cbn [evaluate_any evaluate_children].
  change ("any" ++ String "/" (to_string (N.of_nat i))) with ("any/" ++ to_string (N.of_nat i)).
  destruct (evaluate_predicate _ _ _ _ _) as [[[] ?]|]; cbn [result_bind Bool.eqb]; auto.
Qed.

Lemma below_children_nil base word i : below_children base word i [].
Proof. split; [constructor|by intros s ?%elem_of_nil]. Qed.

Lemma evaluate_children_traced word stop l base :
  Forall traced l → ∀ i trace b trace', evaluate_children word stop (path_text base) i l trace = Ok (b, trace') →
  ∃ new, trace' = (trace ++ (entry_of <$> new))%list ∧ below_children base word i new
         ∧ length new <= list_sum (predicate_nodes <$> l).
Proof.
  induction 1 as [|p l Hp _ IH]; intros i trace b trace' Heq.
  { injection Heq as <- <-. exists []. rewrite app_nil_r. split_and!; [done|apply below_children_nil|done]. }
  cbn [evaluate_children] in Heq. apply result_bind_Ok in Heq as ([b1 trace1] & Hchild & Hrest).
  rewrite child_path in Hchild. apply Hp in Hchild as (child & -> & Hchild & Hlen).
  set (here := (child ++ [((base ++ [word; to_string (N.of_nat i)])%list, b1)])%list) in *.
  assert (∃ rest, trace' = ((trace ++ (entry_of <$> here)) ++ (entry_of <$> rest))%list
                  ∧ below_children base word (S i) rest ∧ length rest <= list_sum (predicate_nodes <$> l))
    as (rest & -> & Hbelow & Hrlen).
  { destruct (Bool.eqb b1 stop).
    - injection Hrest as <- <-. exists []. rewrite app_nil_r. split_and!; [done|apply below_children_nil|simpl; lia].
    - by apply IH in Hrest as (rest & -> & ? & ?); exists rest. }
  exists (here ++ rest)%list. split; [by rewrite fmap_app, app_assoc|].
  split; [by apply below_children_cons|]. unfold here. rewrite !length_app. cbn [length].
  change (list_sum (predicate_nodes <$> p :: l)) with (predicate_nodes p + list_sum (predicate_nodes <$> l)). lia.
Qed.

Lemma evaluate_predicate_traced p : traced p.
Proof.
  induction p as [l IH|l IH|p IH|l r|s|node is_] using predicate_nested_ind; intros base trace b trace' Heq.
  - rewrite evaluate_PAll, evaluate_all_children in Heq. apply result_bind_Ok in Heq as ([b1 trace1] & Hl & [= <- <-]).
    apply evaluate_children_traced in Hl as (new & -> & Hb & Hlen); [|done]. exists new.
    split; [by rewrite fmap_app, app_assoc|]. split; [by apply (below_children_below _ "all" 0)|]. cbn [predicate_nodes]. lia.
  - rewrite evaluate_PAny, evaluate_any_children in Heq. apply result_bind_Ok in Heq as ([b1 trace1] & Hl & [= <- <-]).
    apply evaluate_children_traced in Hl as (new & -> & Hb & Hlen); [|done]. exists new.
    split; [by rewrite fmap_app, app_assoc|]. split; [by apply (below_children_below _ "any" 0)|]. cbn [predicate_nodes]. lia.
  - cbn [evaluate_predicate] in Heq. 
    change (path_child (path_text base) "not") with (path_child (path_text base) (str_join "/"%char ["not"])) in Heq.
    rewrite path_child_text in Heq by done.
    apply result_bind_Ok in Heq as ([b1 trace1] & Hp & [= <- <-]).
    apply result_bind_Ok in Hp as ([b2 trace2] & Hp & [= <- <-]). apply IH in Hp as (new & -> & Hb & Hlen).
    exists (new ++ [((base ++ ["not"])%list, b2)])%list. split; [by rewrite !fmap_app, <-!app_assoc|]. split.
    + split; [by apply below_snoc|]. destruct Hb as [_ Hb]. intros s. rewrite fmap_app, elem_of_app. simpl.
      rewrite list_elem_of_singleton. intros [(ext & -> & _ & Hext)%Hb| ->].
      * exists ("not" :: ext). split; [by rewrite <-app_assoc|]. split; [done|by constructor].
      * exists ["not"]. split; [done|]. split; [done|by repeat constructor].
    + rewrite length_app. simpl. lia.
  - apply result_bind_Ok in Heq as ([b1 trace1] & Hp & [= <- <-]). apply result_bind_Ok in Hp as (? & _ & Hp).
    apply result_bind_Ok in Hp as (? & _ & [= <- <-]). apply (traced_leaf (PEquals l r)).
  - apply result_bind_Ok in Heq as ([b1 trace1] & Hp & [= <- <-]). apply result_bind_Ok in Hp as (? & _ & [= <- <-]).
    apply (traced_leaf (PExists s)).
  - apply result_bind_Ok in Heq as ([b1 trace1] & Hp & [= <- <-]). apply result_bind_Ok in Hp as (? & _ & [= <- <-]).
    apply (traced_leaf (PDisposition node is_)).
Qed.
End trace.

Lemma condition_paths_valid_intro (l : list EvaluatedPredicateEvidence) seen :
  NoDup (epe_path <$> l) → (∀ e, e ∈ l → valid_json_pointer (epe_path e) = true ∧ epe_path e ∉ seen) →
  condition_paths_valid seen l = true.
Proof.
  revert seen. induction l as [|e l IH]; intros seen Hnd Hall; [done|]. rewrite fmap_cons in Hnd.
  apply NoDup_cons in Hnd as [Hnin Hnd]. destruct (Hall e) as [Hv Hs]; [by left|].
  cbn [condition_paths_valid]. rewrite Hv, bool_decide_eq_false_2 by done. cbn [negb andb]. apply IH; [done|].
  intros e' He'. destruct (Hall e') as [Hv' Hs']; [by right|]. split; [done|].
  apply not_elem_of_union. split; [|done]. intros Heq%elem_of_singleton. apply Hnin.
  rewrite <-Heq. apply list_elem_of_fmap. by exists e'.
Qed.

(** The trace of a false condition within the limit is recordable. *)
Lemma false_condition_recorded values dispositions p trace :
  predicate_nodes p <= 256 → evaluate values dispositions p = ConditionFalse trace →
  ∃ detail, condition_false_detail_new
              ((λ e, {| epe_path := ep_path e; epe_result := ep_result e |}) <$> trace) = Ok detail.
Proof.
  intros Hn Heval. unfold evaluate in Heval.
  destruct (evaluate_predicate values dispositions p "" []) as [[[] t]|[]] eqn:Hp; try done. injection Heval as <-.
  apply (evaluate_predicate_traced values dispositions p []) in Hp as (new & -> & Hbelow & Hlen).
  pose proof (below_snoc [] new false Hbelow) as Hnd. destruct Hbelow as [_ Hbelow].
  set (all := (new ++ [([], false)])%list) in *. set (evidence := _ <$> _).
  assert (Hevidence : evidence = (λ e, {| epe_path := path_text e.1; epe_result := e.2 |}) <$> all)
    by (unfold evidence; rewrite app_nil_l, <-list_fmap_compose; done).
  assert (Hok : ∀ s, s ∈ all.*1 → Forall (λ s, segment_ok s = true) s).
  { intros s. unfold all. rewrite fmap_app, elem_of_app. simpl. rewrite list_elem_of_singleton.
    intros [(ext & -> & _ & Hext)%Hbelow| ->]; [done|constructor]. }
  assert (Hpaths : condition_paths_valid ∅ evidence = true).
  { apply condition_paths_valid_intro; rewrite Hevidence.
    - rewrite <-list_fmap_compose. change (NoDup ((path_text ∘ fst) <$> all)). rewrite list_fmap_compose.
      apply NoDup_fmap_2_strong; [|done]. intros s t Hs Ht. apply path_text_inj; by apply Hok.
    - intros e (a & -> & Ha)%list_elem_of_fmap. split; [|set_solver]. apply path_text_valid, Hok, list_elem_of_fmap. eauto. }
  unfold condition_false_detail_new. rewrite Hpaths, Hevidence. unfold all.
  rewrite fmap_app, list_fmap_singleton, last_snoc, length_app, length_fmap. simpl.
  rewrite !bool_decide_eq_false_2; [eauto|lia|by destruct new].
Qed.
