(* ===== verification/Document.v ===== *)
(** * Workflow documents ([document.rs]) and agent configurations
    ([pi.rs], [claude_code.rs], [codex.rs])

    The document that validation reads, as the parser leaves it: what the
    author wrote, with maps in key order and the order of the source kept
    beside them.  The decoding of an agent configuration from JSON is derived
    by serde, a third-party crate: the class [HarnessDecoder]. *)

From S2P Require Import Prelude Text Nodes Evidence Condition.

(** ** References and conditions *)

Record OutputReference := { or_node : string; or_output : string }.

Inductive ValueReference :=
| RefInput (name : string)
| RefOutput (reference : OutputReference)
| RefFinalizationContext.

Inductive ConditionOperand :=
| CondReference (reference : ValueReference) (pointer : option string)
| CondLiteral (value : Value).

Record ConditionSelector := { csel_reference : ValueReference; csel_pointer : string }.

(** [Equals] has exactly two operands. *)
Inductive ConditionPredicate :=
| CAll (children : list ConditionPredicate)
| CAny (children : list ConditionPredicate)
| CNot (child : ConditionPredicate)
| CEquals (left right : ConditionOperand)
| CExists (selector : ConditionSelector)
| CDisposition (node : string) (is_ : TerminalDisposition).

Section ConditionPredicate_ind.
Variable P : ConditionPredicate → Prop.
Hypothesis HAll : ∀ l, Forall P l → P (CAll l).
Hypothesis HAny : ∀ l, Forall P l → P (CAny l).
Hypothesis HNot : ∀ c, P c → P (CNot c).
Hypothesis HEquals : ∀ l r, P (CEquals l r).
Hypothesis HExists : ∀ s, P (CExists s).
Hypothesis HDisposition : ∀ n d, P (CDisposition n d).

(** Induction that reaches the children of [all] and [any]. *)
Fixpoint ConditionPredicate_nested_ind (c : ConditionPredicate) : P c :=
  let children := fix go l : Forall P l :=
    match l with
    | [] => Forall_nil_2 _
    | x :: l' => Forall_cons_2 _ _ _ (ConditionPredicate_nested_ind x) (go l')
    end in
  match c with
  | CAll l => HAll l (children l)
  | CAny l => HAny l (children l)
  | CNot c => HNot c (ConditionPredicate_nested_ind c)
  | CEquals l r => HEquals l r
  | CExists s => HExists s
  | CDisposition n d => HDisposition n d
  end.
End ConditionPredicate_ind.

(** ** Nodes *)

Inductive InputDeclaration :=
| DeclText
| DeclJson (schema : option string)
| DeclFile (media_type : option string)
| DeclAttachments.

Inductive DocumentOutput :=
| TextPath (path : string)
| TextAgentResponse
| JsonPath (path schema : string)
| JsonAgentResult (schema : string)
| FilePath (path media_type : string)
| GitBranchWorkspace.

#[export] Instance DocumentOutput_eq_dec : EqDecision DocumentOutput.
Proof. solve_decision. Defined.

Inductive MessageSource :=
| SourceFile (path : string)
| SourceReference (reference : ValueReference).

Record AgentMessage := { am_text : list MessageSource; am_attachments : list MessageSource }.

Record Agent := { ag_profile : string; ag_system_prompt : string; ag_message : AgentMessage }.

Record CommonNode := {
  cn_failure_policy : FailurePolicy;
  cn_condition : option ConditionPredicate;
  cn_cwd : option string;
  cn_outputs : btree DocumentOutput
}.

Inductive NodeBody :=
| BodyCommand (common : CommonNode) (inputs : btree ValueReference) (argv : list string)
| BodyAgent (common : CommonNode) (agent : Agent).

Inductive RecoveryHandler :=
| RecoverCommand (argv : list string) (cwd : option string)
| RecoverAgent (profile prompt : string) (cwd : option string).

Record StepRecovery := { srec_retries : N; srec_handler : option RecoveryHandler }.

Record StepDefinition := {
  sd_body : NodeBody;
  sd_control_dependencies : list string;
  sd_recovery : option StepRecovery
}.

(** [when] is a set of triggers. *)
Record FinalizerDefinition := {
  fd_body : NodeBody;
  fd_after : list string;
  fd_when : list FinalizationTrigger
}.

(** ** Agent profiles *)

Inductive HarnessDefinition :=
| DefPi (config : Value)
| DefClaudeCode (config : Value)
| DefCodex (config : Value).

Record AgentProfile := { ap_harness : HarnessDefinition }.

Inductive Thinking := ThOff | ThMinimal | ThLow | ThMedium | ThHigh | ThXHigh | ThMax.
Inductive ClaudeCodeEffort := EffLow | EffMedium | EffHigh | EffXHigh | EffMax.

Record PiConfig := { pi_model : string; pi_thinking : Thinking }.
Record ClaudeCodeConfig := { cc_model : string; cc_effort : ClaudeCodeEffort }.
Record CodexConfig := { cx_model : string; cx_effort : string }.

Inductive ValidatedHarness :=
| HarnessPi (config : PiConfig)
| HarnessClaudeCode (config : ClaudeCodeConfig)
| HarnessCodex (config : CodexConfig).

(** [serde_json::from_value] at the three configuration types. *)
Class HarnessDecoder := {
  decode_pi : Value → option PiConfig;
  decode_claude_code : Value → option ClaudeCodeConfig;
  decode_codex : Value → option CodexConfig
}.

Definition resolve_pi_config `{!HarnessDecoder} (value : Value) : option PiConfig :=
  config ← decode_pi value; if str_is_empty (pi_model config) then None else Some config.

Definition resolve_claude_code_config `{!HarnessDecoder} (value : Value) : option ClaudeCodeConfig :=
  config ← decode_claude_code value; if str_is_empty (cc_model config) then None else Some config.

Definition resolve_codex_config `{!HarnessDecoder} (value : Value) : option CodexConfig :=
  config ← decode_codex value;
  if negb (str_is_empty (cx_model config)) && negb (str_is_empty (cx_effort config)) then Some config else None.

(** ** Documents *)

Record WorkflowDocument := {
  doc_schema_version : N;
  doc_description : option string;
  doc_inputs : btree InputDeclaration;
  doc_agent_profiles : btree AgentProfile;
  doc_steps : btree StepDefinition;
  doc_step_order : list string;
  doc_finalizers : btree FinalizerDefinition;
  doc_finalizer_order : list string;
  doc_exports : btree OutputReference
}.

(** The identifiers of the schema. *)
Definition identifiers (names : list string) : Prop := Forall (λ n, is_workflow_value_identifier n = true) names.

Definition body_wf (body : NodeBody) : Prop :=
  match body with
  | BodyCommand common inputs _ => bt_wf (cn_outputs common) ∧ identifiers (bt_keys (cn_outputs common)) ∧ bt_wf inputs
  | BodyAgent common _ => bt_wf (cn_outputs common) ∧ identifiers (bt_keys (cn_outputs common))
  end.

(** What the types of the source and its schema guarantee of a document: maps
    are maps, names are identifiers, and a step is retried at most [retries]
    times. *)
Record document_wf (retries : N) (document : WorkflowDocument) : Prop := {
  dwf_inputs : bt_wf (doc_inputs document);
  dwf_steps : bt_wf (doc_steps document);
  dwf_finalizers : bt_wf (doc_finalizers document);
  dwf_exports : bt_wf (doc_exports document);
  dwf_step_names : identifiers (bt_keys (doc_steps document));
  dwf_finalizer_names : identifiers (bt_keys (doc_finalizers document));
  dwf_step_body s step : bt_get (doc_steps document) s = Some step → body_wf (sd_body step);
  dwf_finalizer_body s f : bt_get (doc_finalizers document) s = Some f → body_wf (fd_body f);
  dwf_retries s step recovery : bt_get (doc_steps document) s = Some step →
    sd_recovery step = Some recovery → (srec_retries recovery <= retries)%N
}.
