(* ===== verification/Validated.v ===== *)
(** * Validated workflows ([validated.rs]) and the finalization context
    ([finalization_context.rs])

    The definition a run executes, as validation leaves it, and the document
    handed to finalizers.  [serde_json] is a third-party crate: the two
    functions of it that the engine calls on the context are the operations
    of the class [SerdeJson]. *)

From S2P Require Import Prelude Text Nodes Evidence Condition Document.

(** ** Value sources *)

Inductive WorkflowValueType := TyText | TyAttachmentCollection | TyJson | TyFile | TyGitBranch.

#[export] Instance WorkflowValueType_eq_dec : EqDecision WorkflowValueType.
Proof. solve_decision. Defined.

Record ResolvedOutputSource := {
  ros_node : WorkflowNode;
  ros_output : string;
  ros_value_type : WorkflowValueType
}.

(** [ResolvedOutputSource::reference]. *)
Definition output_source_reference (s : ResolvedOutputSource) : string :=
  "outputs." ++ node_id (ros_node s) ++ "." ++ ros_output s.

Inductive ResolvedValueSource :=
| SourceInput (name : string)
| SourceOutput (source : ResolvedOutputSource)
| SourceFinalizationContext.

Record ResolvedValueReference := {
  rvr_source : ResolvedValueSource;
  rvr_value_type : WorkflowValueType
}.

Record ResolvedDirectPrerequisite := {
  rdp_producer : string;
  rdp_control : bool;
  rdp_disposition_control : bool;
  rdp_data : bool;
  rdp_condition_data : bool
}.

(** ** Steps *)

Record ValidatedOutput := { vo_definition : DocumentOutput; vo_value_type : WorkflowValueType }.

Record ValidatedCommonStep := {
  vc_failure_policy : FailurePolicy;
  vc_condition : option ResolvedPredicate;
  vc_condition_values : btree ResolvedValueSource;
  vc_prerequisites : list ResolvedDirectPrerequisite;
  vc_evidence_prerequisites : list Prerequisite;
  vc_cwd : option string;
  vc_outputs : btree ValidatedOutput
}.

Inductive ValidatedMessageSource :=
| MessageFile (path : string)
| MessageReference (source : ResolvedValueSource) (value_type : WorkflowValueType).

Record ValidatedAgentMessage := {
  vm_text : list ValidatedMessageSource;
  vm_attachments : list ValidatedMessageSource
}.

Record ValidatedAgent := {
  va_profile : string;
  va_system_prompt : string;
  va_message : ValidatedAgentMessage;
  va_harness : ValidatedHarness
}.

Inductive ValidatedStep :=
| VCommand (common : ValidatedCommonStep) (inputs : btree ResolvedValueReference) (argv : list string)
| VAgent (common : ValidatedCommonStep) (agent : ValidatedAgent).

Record ValidatedFinalizer := {
  vf_body : ValidatedStep;
  vf_when : list FinalizationTrigger
}.

Inductive ValidatedRecoveryHandler :=
| HandlerCommand (argv : list string) (cwd : option string)
| HandlerAgent (profile prompt : string) (cwd : option string) (harness : ValidatedHarness).

Record ValidatedStepRecovery := {
  vr_retries : N;
  vr_handler : option ValidatedRecoveryHandler
}.

Record ValidatedWorkflow := {
  vw_schema_version : N;
  vw_description : option string;
  vw_steps : btree ValidatedStep;
  vw_recoveries : btree (option ValidatedStepRecovery);
  vw_source_order : list string;
  vw_presentation_order : list string;
  vw_finalizers : btree ValidatedFinalizer;
  vw_finalizer_source_order : list string;
  vw_finalizer_presentation_order : list string;
  vw_exports : btree ResolvedOutputSource;
  vw_required_inputs : btree WorkflowValueType;
  vw_input_json_schema_paths : btree string;
  vw_input_file_media_types : btree string
}.

(** ** The finalization context *)

Inductive OrdinaryIssueDisposition := OrdinaryFailed | OrdinaryBlocked.

Record OrdinaryIssue := {
  oi_step_id : string;
  oi_failure_policy : FailurePolicy;
  oi_disposition : OrdinaryIssueDisposition
}.

Record FinalizationContext := {
  fc_trigger : FinalizationTrigger;
  fc_primary_issue_step_id : option string;
  fc_cancellation_reason : option CancellationReason;
  fc_ordinary_issues : list OrdinaryIssue
}.

Definition failure_policy_str (p : FailurePolicy) : string :=
  match p with Required => "required" | Advisory => "advisory" end.

Definition ordinary_issue_disposition_str (d : OrdinaryIssueDisposition) : string :=
  match d with OrdinaryFailed => "failed" | OrdinaryBlocked => "blocked" end.

Record SerializedIssue := {
  si_step_id : string;
  si_failure_policy : string;
  si_disposition : string
}.

Record SerializedContext := {
  sc_schema_version : N;
  sc_trigger : string;
  sc_primary_issue_step_id : option string;
  sc_cancellation_reason : option string;
  sc_ordinary_issues : list SerializedIssue
}.

(** The two [serde_json] functions applied to a context: [to_vec] on the
    serialised form and [from_slice] into a value. *)
Class SerdeJson := {
  to_vec : SerializedContext → string;
  from_slice : string → option Value
}.

Definition issue_le (l r : SerializedIssue) : Prop := String.le (si_step_id l) (si_step_id r).

#[export] Instance issue_le_dec : RelDecision issue_le.
Proof. intros l r. unfold issue_le. apply _. Defined.

(** The document [finalization_context::serialize] writes. *)
Definition serialized_context (context : FinalizationContext) : SerializedContext :=
  let ordinary_issues :=
    (λ issue, {| si_step_id := oi_step_id issue;
                 si_failure_policy := failure_policy_str (oi_failure_policy issue);
                 si_disposition := ordinary_issue_disposition_str (oi_disposition issue) |})
    <$> fc_ordinary_issues context in
  {| sc_schema_version := 1;
     sc_trigger := trigger_as_str (fc_trigger context);
     sc_primary_issue_step_id := fc_primary_issue_step_id context;
     sc_cancellation_reason := cancellation_reason_as_str <$> fc_cancellation_reason context;
     sc_ordinary_issues := merge_sort issue_le ordinary_issues |}.

Definition serialize `{SerdeJson} (context : FinalizationContext) : string :=
  to_vec (serialized_context context).
