(* ===== verification/Failures.v ===== *)
(** * Failure causes

    How the failures of the adapters ([step_runtime.rs], [input.rs],
    [agent_input.rs], [agent.rs], [artifact.rs], [git_capture.rs],
    [recovery.rs]) become evidence ([failure_detail] of [evidence.rs]) and
    entries of a result ([failure_v1] of [publication.rs]), how a result is
    checked ([validate_failure] of [result_metadata.rs]), and how evidence is
    read back.  The two mappings are written independently in the source. *)

From S2P Require Import Prelude Text Nodes Evidence Validated.

(** ** The causes *)

(** The diagnostics that an agent failure carries are not read here: the
    protocol rejection of [AgentFailure], the error of
    [DiagnosticSessionUnavailable] and the admitted durations and sizes. *)

Inductive WorkingDirectoryFailure :=
| DirExecutionRootRebound
| DirUnavailable
| DirEscapesExecutionRoot
| DirNotDirectory.

Inductive CommandPreparationFailure :=
| PrepInvalidArgv
| PrepPathNotConfigured
| PrepExecutableNotFound
| PrepExecutableUnavailable.

Inductive CommandLaunchFailure :=
| LaunchNotFound
| LaunchPermissionDenied
| LaunchInvalidInput
| LaunchOther.

Inductive CommandExecutionFailure :=
| CommandUnsuccessfulExit (code : option Z)
| CommandWait.

Inductive InputPreparationFailureKind :=
| PrepareInvalidInputName
| PrepareValueCountLimitExceeded
| PrepareValueSizeLimitExceeded
| PrepareTotalSizeLimitExceeded
| PrepareCollectionOrdinalLimitExceeded
| PrepareValueTypeMismatch
| PrepareSourceUnavailable
| PrepareStagingUnavailable
| PrepareLiveLimitExceeded.

Record InputPreparationFailure := {
  ipf_input_identity : option string;
  ipf_collection_index : option N;
  ipf_kind : InputPreparationFailureKind
}.

Inductive AgentInputStartFailure :=
| AgentInStepUnavailable
| AgentInAgentAdmissionUnavailable
| AgentInInputsUnavailable
| AgentInMissingUpstreamValue (source : ResolvedOutputSource)
| AgentInValueTypeMismatch (source : ResolvedOutputSource)
| AgentInRetainedSourceUnavailable (path : string)
| AgentInInvalidRetainedText (path : string)
| AgentInResultSchemaUnavailable (output : string)
| AgentInInvalidValueMode
| AgentInAttachmentCountLimitExceeded (maximum : N)
| AgentInAttachmentBytesLimitExceeded (maximum : N)
| AgentInWorkingDirectory (failure : WorkingDirectoryFailure)
| AgentInArtifactStagingMismatch
| AgentInAgentStagingMismatch
| AgentInStagingUnavailable
| AgentInDiagnosticSessionUnavailable.

Inductive AgentHarnessFailureDetail :=
| DetailModelOutputTruncated
| DetailUnexpectedTerminalToolUse
| DetailModelError
| DetailModelAborted
| DetailUnsuccessfulExit.

Inductive AgentHarnessSetupStage :=
| StageExecutableLaunch
| StageInitialization
| StageEffectiveConfiguration
| StageThreadStart
| StageTurnStart
| StageStartAcknowledgement.

Inductive AgentFailureCause :=
| AgentHarnessStartFailed (stage error : string)
| AgentHarnessSetupFailed (stage : AgentHarnessSetupStage)
| AgentHarnessSetupRejected (stage : AgentHarnessSetupStage) (message : string)
| AgentHarnessInputTooLarge
| AgentHarnessFailed (detail : AgentHarnessFailureDetail)
| AgentHarnessProtocolFailed
| AgentMissingResponse
| AgentMissingResult
| AgentResultValidationLimitExceeded
| AgentCapturedValueTooLarge
| AgentResultSettlementFailed.

Record AgentFailure := { af_cause : AgentFailureCause }.

Inductive CaptureFailureKind :=
| CaptureAbsolutePath
| CaptureLexicalEscape
| CaptureEmptyPath
| CaptureMissing
| CaptureSymbolicLink
| CaptureNotDirectory
| CaptureNotRegularFile
| CaptureSourceUnavailable
| CaptureInvalidTextEncoding
| CaptureInvalidJson
| CaptureDuplicateJsonMember
| CaptureJsonSchemaMismatch
| CaptureFileCountLimitExceeded
| CaptureFileSizeLimitExceeded
| CaptureTotalSizeLimitExceeded
| CaptureGitCarrierCountLimitExceeded
| CaptureGitCarrierSizeLimitExceeded
| CaptureTotalGitCarrierSizeLimitExceeded
| CaptureCarrierProducerUnavailable
| CaptureStagingUnavailable.

Record CaptureFailure := { cf_output_identity : string; cf_kind : CaptureFailureKind }.

Inductive GitCaptureFailure :=
| GitCaptureCancelled
| GitCaptureExecutionRootRebound
| GitCaptureStagingMismatch
| GitCaptureHeadUnavailable
| GitCaptureBaselineNotAncestor
| GitCaptureCleanlinessUnavailable
| GitCaptureWorkspaceDirty
| GitCaptureTreeUnavailable
| GitCaptureRequiredObjectsUnavailable
| GitCaptureSourceAuthorityChanged
| GitCaptureGitStructureLimitExceeded
| GitCaptureCommandTimedOut (command : string)
| GitCaptureBundleGenerationFailed
| GitCaptureBundleProfileInvalid
| GitCaptureBundleVerificationFailed
| GitCaptureWorkspaceChanged
| GitCaptureTemporaryStorageUnavailable
| GitCaptureArtifact (failure : CaptureFailure).

Inductive RecoveryDecisionFailureKind :=
| DecisionInputTooLarge
| DecisionInvalidUtf8
| DecisionInvalidJson
| DecisionDuplicateKey
| DecisionUnknownField
| DecisionUnsupportedSchemaVersion
| DecisionUnknownDecision
| DecisionEmptySummary
| DecisionSummaryTooLong
| DecisionEmptyReason
| DecisionReasonTooLong.

Inductive RecoveryHandlerFailure :=
| HandlerContextUnavailable
| HandlerHandlerUnavailable
| HandlerWorkingDirectoryUnavailable
| HandlerCommandPreparationFailed
| HandlerCommandLaunchFailed
| HandlerCommandWaitFailed
| HandlerCommandExitFailed (code : option Z)
| HandlerProcessQuiescenceFailed
| HandlerResultMissing
| HandlerResultSymbolicLink
| HandlerResultNotRegular
| HandlerResultUnavailable
| HandlerResultTooLarge
| HandlerDecisionInvalid (rejection : RecoveryDecisionFailureKind)
| HandlerAgentInputFailed
| HandlerAgentFailed
| HandlerAgentResultMissing
| HandlerAgentResultInvalid (rejection : RecoveryDecisionFailureKind)
| HandlerSettlementFailed.

Inductive StepStartFailure :=
| StartStepUnavailable
| StartPreparationTaskUnavailable
| StartInputsUnavailable
| StartInputPreparation (failure : InputPreparationFailure)
| StartAgentInput (failure : AgentInputStartFailure)
| StartAgent (failure : AgentFailure)
| StartAgentRuntimeUnavailable
| StartOutputsUnsupported
| StartWorkingDirectory (failure : WorkingDirectoryFailure)
| StartCommandPreparation (failure : CommandPreparationFailure)
| StartCommandLaunch (failure : CommandLaunchFailure).

Inductive StepExecutionFailure :=
| ExecCommand (failure : CommandExecutionFailure)
| ExecAgent (failure : AgentFailure)
| ExecTaskUnavailable.

Inductive OutputCaptureFailure :=
| OutputsStepUnavailable
| OutputsUnsupportedOutput
| OutputsCapture (failure : CaptureFailure)
| OutputsGit (output : string) (failure : GitCaptureFailure)
| OutputsTaskUnavailable.

Inductive StepFailureCause :=
| CauseStart (failure : StepStartFailure)
| CauseExecution (failure : StepExecutionFailure)
| CauseOutputCapture (failure : OutputCaptureFailure)
| CauseRecoveryHandler (failure : RecoveryHandlerFailure).

(** ** Codes of results *)

Module V1.
Inductive FailureCodeV1 :=
| StepUnavailable | PreparationTaskUnavailable | InputsUnavailable | OutputsUnsupported
| AgentRuntimeUnavailable | AgentStepUnavailable | AgentAdmissionUnavailable | AgentInputsUnavailable
| AgentInputMissingUpstream | AgentInputTypeMismatch | AgentSourceUnavailable | AgentSourceTextInvalid
| AgentResultSchemaUnavailable | AgentValueModeInvalid | AgentAttachmentCountLimit
| AgentAttachmentBytesLimit | ArtifactStagingMismatch | AgentStagingMismatch | AgentInputStagingUnavailable
| HarnessStartFailed | HarnessInputTooLarge | HarnessFailed | HarnessProtocolFailed | MissingResponse
| MissingResult | ResultValidationLimitExceeded | CapturedValueTooLarge | ResultSettlementFailed
| InputInvalidName | InputValueCountLimit | InputValueSizeLimit | InputTotalSizeLimit
| InputCollectionOrdinalLimit | InputTypeMismatch | InputSourceUnavailable | InputStagingUnavailable
| InputLiveLimit | ExecutionRootRebound | WorkingDirectoryUnavailable | WorkingDirectoryEscape
| WorkingDirectoryNotDirectory | CommandArgvInvalid | CommandPathUnconfigured | ExecutableNotFound
| ExecutableUnavailable | CommandLaunchNotFound | CommandLaunchPermissionDenied | CommandLaunchInvalidInput
| CommandLaunchFailed | CommandExit | CommandWaitFailed | ExecutionTaskUnavailable | OutputUnsupported
| CaptureTaskUnavailable | OutputPathAbsolute | OutputPathEscape | OutputPathEmpty | OutputMissing
| OutputSymbolicLink | OutputParentNotDirectory | OutputNotRegularFile | OutputSourceUnavailable
| OutputInvalidUtf8 | OutputInvalidJson | OutputDuplicateJsonMember | OutputJsonSchemaMismatch
| CapturedFileCountLimit | CapturedFileSizeLimit | CapturedTotalSizeLimit | CapturedGitCarrierCountLimit
| CapturedGitCarrierSizeLimit | CapturedTotalGitCarrierSizeLimit | GitExecutionRootRebound
| GitHeadUnavailable | GitBaselineNotAncestor | GitCleanlinessUnavailable | GitWorkspaceDirty
| GitTreeUnavailable | GitRequiredObjectsUnavailable | GitSourceAuthorityChanged | GitStructureLimitExceeded
| GitCommandTimedOut | GitBundleGenerationFailed | GitBundleProfileInvalid | GitBundleVerificationFailed
| GitWorkspaceChanged | GitTemporaryStorageUnavailable | OutputStagingUnavailable.
End V1.

#[export] Instance FailureCodeV1_eq_dec : EqDecision V1.FailureCodeV1.
Proof. intros x y. unfold Decision. decide equality. Defined.

(** ** To evidence *)

Definition input_preparation_failure_code (kind : InputPreparationFailureKind) : FailureCode :=
  match kind with
  | PrepareInvalidInputName => InputInvalidName
  | PrepareValueCountLimitExceeded => InputValueCountLimit
  | PrepareValueSizeLimitExceeded => InputValueSizeLimit
  | PrepareTotalSizeLimitExceeded => InputTotalSizeLimit
  | PrepareCollectionOrdinalLimitExceeded => InputCollectionOrdinalLimit
  | PrepareValueTypeMismatch => InputTypeMismatch
  | PrepareSourceUnavailable => InputSourceUnavailable
  | PrepareStagingUnavailable => InputStagingUnavailable
  | PrepareLiveLimitExceeded => InputLiveLimit
  end.

Definition command_preparation_code (failure : CommandPreparationFailure) : FailureCode :=
  match failure with
  | PrepInvalidArgv => CommandArgvInvalid
  | PrepPathNotConfigured => CommandPathUnconfigured
  | PrepExecutableNotFound => ExecutableNotFound
  | PrepExecutableUnavailable => ExecutableUnavailable
  end.

Definition command_launch_code (failure : CommandLaunchFailure) : FailureCode :=
  match failure with
  | LaunchNotFound => CommandLaunchNotFound
  | LaunchPermissionDenied => CommandLaunchPermissionDenied
  | LaunchInvalidInput => CommandLaunchInvalidInput
  | LaunchOther => CommandLaunchFailed
  end.

Definition working_directory_code (failure : WorkingDirectoryFailure) : FailureCode :=
  match failure with
  | DirExecutionRootRebound => ExecutionRootRebound
  | DirUnavailable => WorkingDirectoryUnavailable
  | DirEscapesExecutionRoot => WorkingDirectoryEscape
  | DirNotDirectory => WorkingDirectoryNotDirectory
  end.

Definition agent_input_code (failure : AgentInputStartFailure) : FailureCode :=
  match failure with
  | AgentInStepUnavailable => AgentStepUnavailable
  | AgentInAgentAdmissionUnavailable => AgentAdmissionUnavailable
  | AgentInInputsUnavailable => AgentInputsUnavailable
  | AgentInMissingUpstreamValue _ => AgentInputMissingUpstream
  | AgentInValueTypeMismatch _ => AgentInputTypeMismatch
  | AgentInRetainedSourceUnavailable _ => AgentSourceUnavailable
  | AgentInInvalidRetainedText _ => AgentSourceTextInvalid
  | AgentInResultSchemaUnavailable _ => AgentResultSchemaUnavailable
  | AgentInInvalidValueMode => AgentValueModeInvalid
  | AgentInAttachmentCountLimitExceeded _ => AgentAttachmentCountLimit
  | AgentInAttachmentBytesLimitExceeded _ => AgentAttachmentBytesLimit
  | AgentInArtifactStagingMismatch => ArtifactStagingMismatch
  | AgentInAgentStagingMismatch => AgentStagingMismatch
  | AgentInStagingUnavailable | AgentInDiagnosticSessionUnavailable => AgentInputStagingUnavailable
  | AgentInWorkingDirectory failure => working_directory_code failure
  end.

Definition agent_failure_code (cause : AgentFailureCause) : FailureCode :=
  match cause with
  | AgentHarnessStartFailed _ _ | AgentHarnessSetupFailed _ | AgentHarnessSetupRejected _ _ => HarnessStartFailed
  | AgentHarnessInputTooLarge => HarnessInputTooLarge
  | AgentHarnessFailed _ => HarnessFailed
  | AgentHarnessProtocolFailed => HarnessProtocolFailed
  | AgentMissingResponse => MissingResponse
  | AgentMissingResult => MissingResult
  | AgentResultValidationLimitExceeded => ResultValidationLimitExceeded
  | AgentCapturedValueTooLarge => CapturedValueTooLarge
  | AgentResultSettlementFailed => ResultSettlementFailed
  end.

Definition capture_failure_code (kind : CaptureFailureKind) : FailureCode :=
  match kind with
  | CaptureAbsolutePath => OutputPathAbsolute
  | CaptureLexicalEscape => OutputPathEscape
  | CaptureEmptyPath => OutputPathEmpty
  | CaptureMissing => OutputMissing
  | CaptureSymbolicLink => OutputSymbolicLink
  | CaptureNotDirectory => OutputParentNotDirectory
  | CaptureNotRegularFile => OutputNotRegularFile
  | CaptureSourceUnavailable => OutputSourceUnavailable
  | CaptureInvalidTextEncoding => OutputInvalidUtf8
  | CaptureInvalidJson => OutputInvalidJson
  | CaptureDuplicateJsonMember => OutputDuplicateJsonMember
  | CaptureJsonSchemaMismatch => OutputJsonSchemaMismatch
  | CaptureFileCountLimitExceeded => CapturedFileCountLimit
  | CaptureFileSizeLimitExceeded => CapturedFileSizeLimit
  | CaptureTotalSizeLimitExceeded => CapturedTotalSizeLimit
  | CaptureGitCarrierCountLimitExceeded => CapturedGitCarrierCountLimit
  | CaptureGitCarrierSizeLimitExceeded => CapturedGitCarrierSizeLimit
  | CaptureTotalGitCarrierSizeLimitExceeded => CapturedTotalGitCarrierSizeLimit
  | CaptureCarrierProducerUnavailable => GitBundleGenerationFailed
  | CaptureStagingUnavailable => OutputStagingUnavailable
  end.

Definition git_capture_code (failure : GitCaptureFailure) : FailureCode :=
  match failure with
  | GitCaptureCancelled | GitCaptureArtifact _ | GitCaptureStagingMismatch => OutputStagingUnavailable
  | GitCaptureExecutionRootRebound => GitExecutionRootRebound
  | GitCaptureHeadUnavailable => GitHeadUnavailable
  | GitCaptureBaselineNotAncestor => GitBaselineNotAncestor
  | GitCaptureCleanlinessUnavailable => GitCleanlinessUnavailable
  | GitCaptureWorkspaceDirty => GitWorkspaceDirty
  | GitCaptureTreeUnavailable => GitTreeUnavailable
  | GitCaptureRequiredObjectsUnavailable => GitRequiredObjectsUnavailable
  | GitCaptureSourceAuthorityChanged => GitSourceAuthorityChanged
  | GitCaptureGitStructureLimitExceeded => GitStructureLimitExceeded
  | GitCaptureCommandTimedOut _ => GitCommandTimedOut
  | GitCaptureBundleGenerationFailed => GitBundleGenerationFailed
  | GitCaptureBundleProfileInvalid => GitBundleProfileInvalid
  | GitCaptureBundleVerificationFailed => GitBundleVerificationFailed
  | GitCaptureWorkspaceChanged => GitWorkspaceChanged
  | GitCaptureTemporaryStorageUnavailable => GitTemporaryStorageUnavailable
  end.

Definition start_failure_detail (source : StepStartFailure) : result FailureDetail EvidenceError :=
  let detail :=
    match source with
    | StartStepUnavailable => failure_detail_code PhaseStart StepUnavailable
    | StartPreparationTaskUnavailable => failure_detail_code PhaseStart PreparationTaskUnavailable
    | StartInputsUnavailable => failure_detail_code PhaseStart InputsUnavailable
    | StartInputPreparation source =>
        {| fd_phase := PhaseStart; fd_code := input_preparation_failure_code (ipf_kind source);
           fd_input := ipf_input_identity source; fd_collection_index := ipf_collection_index source;
           fd_output := None; fd_exit_code := None; fd_ref := None; fd_pointer := None |}
    | StartAgentInput source => failure_detail_code PhaseStart (agent_input_code source)
    | StartAgent source => failure_detail_code PhaseStart (agent_failure_code (af_cause source))
    | StartAgentRuntimeUnavailable => failure_detail_code PhaseStart AgentRuntimeUnavailable
    | StartOutputsUnsupported => failure_detail_code PhaseStart OutputsUnsupported
    | StartWorkingDirectory source => failure_detail_code PhaseStart (working_directory_code source)
    | StartCommandPreparation source => failure_detail_code PhaseStart (command_preparation_code source)
    | StartCommandLaunch source => failure_detail_code PhaseStart (command_launch_code source)
    end in
  let? _ := failure_detail_validate detail in Ok detail.

Definition execution_failure_detail (source : StepExecutionFailure) : FailureDetail :=
  match source with
  | ExecCommand (CommandUnsuccessfulExit status) =>
      {| fd_phase := PhaseExecution; fd_code := CommandExit; fd_input := None; fd_collection_index := None;
         fd_output := None; fd_exit_code := status; fd_ref := None; fd_pointer := None |}
  | ExecCommand CommandWait => failure_detail_code PhaseExecution CommandWaitFailed
  | ExecAgent source => failure_detail_code PhaseExecution (agent_failure_code (af_cause source))
  | ExecTaskUnavailable => failure_detail_code PhaseExecution ExecutionTaskUnavailable
  end.

Definition output_capture_failure_detail (source : OutputCaptureFailure) : FailureDetail :=
  let '(code, output) :=
    match source with
    | OutputsStepUnavailable => (StepUnavailable, None)
    | OutputsUnsupportedOutput => (OutputUnsupported, None)
    | OutputsTaskUnavailable => (CaptureTaskUnavailable, None)
    | OutputsCapture source => (capture_failure_code (cf_kind source), Some (cf_output_identity source))
    | OutputsGit output failure => (git_capture_code failure, Some output)
    end in
  {| fd_phase := PhaseOutputCapture; fd_code := code; fd_input := None; fd_collection_index := None;
     fd_output := output; fd_exit_code := None; fd_ref := None; fd_pointer := None |}.

Definition failure_detail (phase : FailurePhase) (source : StepFailureCause) : result FailureDetail EvidenceError :=
  let? detail :=
    match phase, source with
    | PhaseStart, CauseStart source => start_failure_detail source
    | PhaseExecution, CauseExecution source => Ok (execution_failure_detail source)
    | PhaseOutputCapture, CauseOutputCapture source => Ok (output_capture_failure_detail source)
    | _, _ => Err FailureCause
    end in
  let? _ := failure_detail_validate detail in Ok detail.

#[export] Instance step_failure_source : NodeFailureSource StepFailureCause :=
  {| node_failure_detail cause phase := failure_detail phase cause |}.

(** ** To results *)

Definition input_preparation_failure_code_v1 (kind : InputPreparationFailureKind) : V1.FailureCodeV1 :=
  match kind with
  | PrepareInvalidInputName => V1.InputInvalidName
  | PrepareValueCountLimitExceeded => V1.InputValueCountLimit
  | PrepareValueSizeLimitExceeded => V1.InputValueSizeLimit
  | PrepareTotalSizeLimitExceeded => V1.InputTotalSizeLimit
  | PrepareCollectionOrdinalLimitExceeded => V1.InputCollectionOrdinalLimit
  | PrepareValueTypeMismatch => V1.InputTypeMismatch
  | PrepareSourceUnavailable => V1.InputSourceUnavailable
  | PrepareStagingUnavailable => V1.InputStagingUnavailable
  | PrepareLiveLimitExceeded => V1.InputLiveLimit
  end.

Definition command_preparation_code_v1 (failure : CommandPreparationFailure) : V1.FailureCodeV1 :=
  match failure with
  | PrepInvalidArgv => V1.CommandArgvInvalid
  | PrepPathNotConfigured => V1.CommandPathUnconfigured
  | PrepExecutableNotFound => V1.ExecutableNotFound
  | PrepExecutableUnavailable => V1.ExecutableUnavailable
  end.

Definition command_launch_code_v1 (failure : CommandLaunchFailure) : V1.FailureCodeV1 :=
  match failure with
  | LaunchNotFound => V1.CommandLaunchNotFound
  | LaunchPermissionDenied => V1.CommandLaunchPermissionDenied
  | LaunchInvalidInput => V1.CommandLaunchInvalidInput
  | LaunchOther => V1.CommandLaunchFailed
  end.

Definition working_directory_code_v1 (failure : WorkingDirectoryFailure) : V1.FailureCodeV1 :=
  match failure with
  | DirExecutionRootRebound => V1.ExecutionRootRebound
  | DirUnavailable => V1.WorkingDirectoryUnavailable
  | DirEscapesExecutionRoot => V1.WorkingDirectoryEscape
  | DirNotDirectory => V1.WorkingDirectoryNotDirectory
  end.

Definition agent_input_code_v1 (failure : AgentInputStartFailure) : V1.FailureCodeV1 :=
  match failure with
  | AgentInStepUnavailable => V1.AgentStepUnavailable
  | AgentInAgentAdmissionUnavailable => V1.AgentAdmissionUnavailable
  | AgentInInputsUnavailable => V1.AgentInputsUnavailable
  | AgentInMissingUpstreamValue _ => V1.AgentInputMissingUpstream
  | AgentInValueTypeMismatch _ => V1.AgentInputTypeMismatch
  | AgentInRetainedSourceUnavailable _ => V1.AgentSourceUnavailable
  | AgentInInvalidRetainedText _ => V1.AgentSourceTextInvalid
  | AgentInResultSchemaUnavailable _ => V1.AgentResultSchemaUnavailable
  | AgentInInvalidValueMode => V1.AgentValueModeInvalid
  | AgentInAttachmentCountLimitExceeded _ => V1.AgentAttachmentCountLimit
  | AgentInAttachmentBytesLimitExceeded _ => V1.AgentAttachmentBytesLimit
  | AgentInArtifactStagingMismatch => V1.ArtifactStagingMismatch
  | AgentInAgentStagingMismatch => V1.AgentStagingMismatch
  | AgentInStagingUnavailable | AgentInDiagnosticSessionUnavailable => V1.AgentInputStagingUnavailable
  | AgentInWorkingDirectory failure => working_directory_code_v1 failure
  end.

Definition agent_failure_code_v1 (cause : AgentFailureCause) : V1.FailureCodeV1 :=
  match cause with
  | AgentHarnessStartFailed _ _ | AgentHarnessSetupFailed _ | AgentHarnessSetupRejected _ _ => V1.HarnessStartFailed
  | AgentHarnessInputTooLarge => V1.HarnessInputTooLarge
  | AgentHarnessFailed _ => V1.HarnessFailed
  | AgentHarnessProtocolFailed => V1.HarnessProtocolFailed
  | AgentMissingResponse => V1.MissingResponse
  | AgentMissingResult => V1.MissingResult
  | AgentResultValidationLimitExceeded => V1.ResultValidationLimitExceeded
  | AgentCapturedValueTooLarge => V1.CapturedValueTooLarge
  | AgentResultSettlementFailed => V1.ResultSettlementFailed
  end.

Definition capture_failure_code_v1 (kind : CaptureFailureKind) : V1.FailureCodeV1 :=
  match kind with
  | CaptureAbsolutePath => V1.OutputPathAbsolute
  | CaptureLexicalEscape => V1.OutputPathEscape
  | CaptureEmptyPath => V1.OutputPathEmpty
  | CaptureMissing => V1.OutputMissing
  | CaptureSymbolicLink => V1.OutputSymbolicLink
  | CaptureNotDirectory => V1.OutputParentNotDirectory
  | CaptureNotRegularFile => V1.OutputNotRegularFile
  | CaptureSourceUnavailable => V1.OutputSourceUnavailable
  | CaptureInvalidTextEncoding => V1.OutputInvalidUtf8
  | CaptureInvalidJson => V1.OutputInvalidJson
  | CaptureDuplicateJsonMember => V1.OutputDuplicateJsonMember
  | CaptureJsonSchemaMismatch => V1.OutputJsonSchemaMismatch
  | CaptureFileCountLimitExceeded => V1.CapturedFileCountLimit
  | CaptureFileSizeLimitExceeded => V1.CapturedFileSizeLimit
  | CaptureTotalSizeLimitExceeded => V1.CapturedTotalSizeLimit
  | CaptureGitCarrierCountLimitExceeded => V1.CapturedGitCarrierCountLimit
  | CaptureGitCarrierSizeLimitExceeded => V1.CapturedGitCarrierSizeLimit
  | CaptureTotalGitCarrierSizeLimitExceeded => V1.CapturedTotalGitCarrierSizeLimit
  | CaptureCarrierProducerUnavailable => V1.GitBundleGenerationFailed
  | CaptureStagingUnavailable => V1.OutputStagingUnavailable
  end.

Definition git_capture_code_v1 (failure : GitCaptureFailure) : V1.FailureCodeV1 :=
  match failure with
  | GitCaptureCancelled | GitCaptureArtifact _ | GitCaptureStagingMismatch => V1.OutputStagingUnavailable
  | GitCaptureExecutionRootRebound => V1.GitExecutionRootRebound
  | GitCaptureHeadUnavailable => V1.GitHeadUnavailable
  | GitCaptureBaselineNotAncestor => V1.GitBaselineNotAncestor
  | GitCaptureCleanlinessUnavailable => V1.GitCleanlinessUnavailable
  | GitCaptureWorkspaceDirty => V1.GitWorkspaceDirty
  | GitCaptureTreeUnavailable => V1.GitTreeUnavailable
  | GitCaptureRequiredObjectsUnavailable => V1.GitRequiredObjectsUnavailable
  | GitCaptureSourceAuthorityChanged => V1.GitSourceAuthorityChanged
  | GitCaptureGitStructureLimitExceeded => V1.GitStructureLimitExceeded
  | GitCaptureCommandTimedOut _ => V1.GitCommandTimedOut
  | GitCaptureBundleGenerationFailed => V1.GitBundleGenerationFailed
  | GitCaptureBundleProfileInvalid => V1.GitBundleProfileInvalid
  | GitCaptureBundleVerificationFailed => V1.GitBundleVerificationFailed
  | GitCaptureWorkspaceChanged => V1.GitWorkspaceChanged
  | GitCaptureTemporaryStorageUnavailable => V1.GitTemporaryStorageUnavailable
  end.

Inductive FailurePhaseV1 := PhaseStartV1 | PhaseExecutionV1 | PhaseOutputCaptureV1.

#[export] Instance FailurePhaseV1_eq_dec : EqDecision FailurePhaseV1.
Proof. solve_decision. Defined.

Record FailureCauseV1 := {
  fc1_code : V1.FailureCodeV1;
  fc1_input : option string;
  fc1_collection_index : option N;
  fc1_output : option string;
  fc1_exit_code : option Z
}.

Record FailureV1 := { f1_phase : FailurePhaseV1; f1_cause : FailureCauseV1 }.

(** [FailureCauseV1::code]. *)
Definition failure_cause_code (code : V1.FailureCodeV1) : FailureCauseV1 :=
  {| fc1_code := code; fc1_input := None; fc1_collection_index := None; fc1_output := None; fc1_exit_code := None |}.

Definition start_failure_cause (failure : StepStartFailure) : FailureCauseV1 :=
  match failure with
  | StartStepUnavailable => failure_cause_code V1.StepUnavailable
  | StartPreparationTaskUnavailable => failure_cause_code V1.PreparationTaskUnavailable
  | StartInputsUnavailable => failure_cause_code V1.InputsUnavailable
  | StartInputPreparation failure =>
      {| fc1_code := input_preparation_failure_code_v1 (ipf_kind failure); fc1_input := ipf_input_identity failure;
         fc1_collection_index := ipf_collection_index failure; fc1_output := None; fc1_exit_code := None |}
  | StartAgentInput failure => failure_cause_code (agent_input_code_v1 failure)
  | StartAgentRuntimeUnavailable => failure_cause_code V1.AgentRuntimeUnavailable
  | StartAgent failure => failure_cause_code (agent_failure_code_v1 (af_cause failure))
  | StartOutputsUnsupported => failure_cause_code V1.OutputsUnsupported
  | StartWorkingDirectory failure => failure_cause_code (working_directory_code_v1 failure)
  | StartCommandPreparation failure => failure_cause_code (command_preparation_code_v1 failure)
  | StartCommandLaunch failure => failure_cause_code (command_launch_code_v1 failure)
  end.

Definition execution_failure_cause (failure : StepExecutionFailure) : FailureCauseV1 :=
  match failure with
  | ExecCommand (CommandUnsuccessfulExit code) =>
      {| fc1_code := V1.CommandExit; fc1_input := None; fc1_collection_index := None; fc1_output := None;
         fc1_exit_code := code |}
  | ExecCommand CommandWait => failure_cause_code V1.CommandWaitFailed
  | ExecAgent failure => failure_cause_code (agent_failure_code_v1 (af_cause failure))
  | ExecTaskUnavailable => failure_cause_code V1.ExecutionTaskUnavailable
  end.

Definition output_capture_failure_cause (failure : OutputCaptureFailure) : FailureCauseV1 :=
  match failure with
  | OutputsStepUnavailable => failure_cause_code V1.StepUnavailable
  | OutputsUnsupportedOutput => failure_cause_code V1.OutputUnsupported
  | OutputsTaskUnavailable => failure_cause_code V1.CaptureTaskUnavailable
  | OutputsCapture failure =>
      {| fc1_code := capture_failure_code_v1 (cf_kind failure); fc1_input := None; fc1_collection_index := None;
         fc1_output := Some (cf_output_identity failure); fc1_exit_code := None |}
  | OutputsGit output failure =>
      {| fc1_code := git_capture_code_v1 failure; fc1_input := None; fc1_collection_index := None;
         fc1_output := Some output; fc1_exit_code := None |}
  end.

(** [failure_v1]; the error is the invariant [Failure] of a result. *)
Definition failure_v1 (phase : FailurePhase) (cause : StepFailureCause) : option FailureV1 :=
  match phase, cause with
  | PhaseStart, CauseStart cause => Some {| f1_phase := PhaseStartV1; f1_cause := start_failure_cause cause |}
  | PhaseExecution, CauseExecution cause =>
      Some {| f1_phase := PhaseExecutionV1; f1_cause := execution_failure_cause cause |}
  | PhaseOutputCapture, CauseOutputCapture cause =>
      Some {| f1_phase := PhaseOutputCaptureV1; f1_cause := output_capture_failure_cause cause |}
  | _, _ => None
  end.

(** ** Checking the failures of a result *)

(** [is_identifier] of [um_support]: the identifier of a value, as evidence
    checks it. *)
Definition is_identifier (value : string) : bool :=
  (str_len value <=? 64)%N
  && match head (bytes value) with Some byte => is_ascii_lowercase byte | None => false end
  && forallb is_ascii_alphanumeric (drop 1 (bytes value)).

Definition is_input_failure_code (code : V1.FailureCodeV1) : bool :=
  match code with
  | V1.InputInvalidName | V1.InputValueCountLimit | V1.InputValueSizeLimit | V1.InputTotalSizeLimit
  | V1.InputCollectionOrdinalLimit | V1.InputTypeMismatch | V1.InputSourceUnavailable
  | V1.InputStagingUnavailable | V1.InputLiveLimit => true
  | _ => false
  end.

Definition is_output_failure_code (code : V1.FailureCodeV1) : bool :=
  match code with
  | V1.OutputPathAbsolute | V1.OutputPathEscape | V1.OutputPathEmpty | V1.OutputMissing
  | V1.OutputSymbolicLink | V1.OutputParentNotDirectory | V1.OutputNotRegularFile
  | V1.OutputSourceUnavailable | V1.OutputInvalidUtf8 | V1.OutputInvalidJson | V1.OutputDuplicateJsonMember
  | V1.OutputJsonSchemaMismatch | V1.CapturedFileCountLimit | V1.CapturedFileSizeLimit
  | V1.CapturedTotalSizeLimit | V1.CapturedGitCarrierCountLimit | V1.CapturedGitCarrierSizeLimit
  | V1.CapturedTotalGitCarrierSizeLimit | V1.GitExecutionRootRebound | V1.GitHeadUnavailable
  | V1.GitBaselineNotAncestor | V1.GitCleanlinessUnavailable | V1.GitWorkspaceDirty | V1.GitTreeUnavailable
  | V1.GitRequiredObjectsUnavailable | V1.GitSourceAuthorityChanged | V1.GitStructureLimitExceeded
  | V1.GitCommandTimedOut | V1.GitBundleGenerationFailed | V1.GitBundleProfileInvalid
  | V1.GitBundleVerificationFailed | V1.GitWorkspaceChanged | V1.GitTemporaryStorageUnavailable
  | V1.OutputStagingUnavailable => true
  | _ => false
  end.

Definition simple_failure_phase (code : V1.FailureCodeV1) (phase : FailurePhaseV1) : bool :=
  match code with
  | V1.StepUnavailable =>
      bool_decide (phase = PhaseStartV1 ∨ phase = PhaseOutputCaptureV1)
  | V1.HarnessStartFailed | V1.HarnessInputTooLarge | V1.HarnessFailed | V1.HarnessProtocolFailed
  | V1.MissingResponse | V1.MissingResult | V1.ResultValidationLimitExceeded | V1.CapturedValueTooLarge
  | V1.ResultSettlementFailed =>
      bool_decide (phase = PhaseStartV1 ∨ phase = PhaseExecutionV1)
  | V1.CommandWaitFailed | V1.ExecutionTaskUnavailable =>
      bool_decide (phase = PhaseExecutionV1)
  | V1.OutputUnsupported | V1.CaptureTaskUnavailable =>
      bool_decide (phase = PhaseOutputCaptureV1)
  | V1.CommandExit | V1.InputInvalidName | V1.InputValueCountLimit | V1.InputValueSizeLimit
  | V1.InputTotalSizeLimit | V1.InputCollectionOrdinalLimit | V1.InputTypeMismatch
  | V1.InputSourceUnavailable | V1.InputStagingUnavailable | V1.InputLiveLimit | V1.OutputPathAbsolute
  | V1.OutputPathEscape | V1.OutputPathEmpty | V1.OutputMissing | V1.OutputSymbolicLink
  | V1.OutputParentNotDirectory | V1.OutputNotRegularFile | V1.OutputSourceUnavailable | V1.OutputInvalidUtf8
  | V1.OutputInvalidJson | V1.OutputDuplicateJsonMember | V1.OutputJsonSchemaMismatch
  | V1.CapturedFileCountLimit | V1.CapturedFileSizeLimit | V1.CapturedTotalSizeLimit
  | V1.CapturedGitCarrierCountLimit | V1.CapturedGitCarrierSizeLimit | V1.CapturedTotalGitCarrierSizeLimit
  | V1.GitExecutionRootRebound | V1.GitHeadUnavailable | V1.GitBaselineNotAncestor
  | V1.GitCleanlinessUnavailable | V1.GitWorkspaceDirty | V1.GitTreeUnavailable
  | V1.GitRequiredObjectsUnavailable | V1.GitSourceAuthorityChanged | V1.GitStructureLimitExceeded
  | V1.GitCommandTimedOut | V1.GitBundleGenerationFailed | V1.GitBundleProfileInvalid
  | V1.GitBundleVerificationFailed | V1.GitWorkspaceChanged | V1.GitTemporaryStorageUnavailable
  | V1.OutputStagingUnavailable =>
      false
  | V1.PreparationTaskUnavailable | V1.InputsUnavailable | V1.OutputsUnsupported | V1.AgentRuntimeUnavailable
  | V1.AgentStepUnavailable | V1.AgentAdmissionUnavailable | V1.AgentInputsUnavailable
  | V1.AgentInputMissingUpstream | V1.AgentInputTypeMismatch | V1.AgentSourceUnavailable
  | V1.AgentSourceTextInvalid | V1.AgentResultSchemaUnavailable | V1.AgentValueModeInvalid
  | V1.AgentAttachmentCountLimit | V1.AgentAttachmentBytesLimit | V1.ArtifactStagingMismatch
  | V1.AgentStagingMismatch | V1.AgentInputStagingUnavailable | V1.ExecutionRootRebound
  | V1.WorkingDirectoryUnavailable | V1.WorkingDirectoryEscape | V1.WorkingDirectoryNotDirectory
  | V1.CommandArgvInvalid | V1.CommandPathUnconfigured | V1.ExecutableNotFound | V1.ExecutableUnavailable
  | V1.CommandLaunchNotFound | V1.CommandLaunchPermissionDenied | V1.CommandLaunchInvalidInput
  | V1.CommandLaunchFailed =>
      bool_decide (phase = PhaseStartV1)
  end.

Definition validate_failure (failure : FailureV1) : bool :=
  let cause := f1_cause failure in
  if is_input_failure_code (fc1_code cause) then
    let valid_input :=
      if decide (fc1_code cause = V1.InputInvalidName) then
        negb (bool_decide (is_Some (fc1_collection_index cause)))
        && match fc1_input cause with Some input => negb (is_identifier input) | None => false end
      else match fc1_input cause with Some input => is_identifier input | None => true end in
    bool_decide (f1_phase failure = PhaseStartV1) && negb (bool_decide (is_Some (fc1_output cause)))
    && negb (bool_decide (is_Some (fc1_exit_code cause))) && valid_input
  else if is_output_failure_code (fc1_code cause) then
    bool_decide (f1_phase failure = PhaseOutputCaptureV1) && negb (bool_decide (is_Some (fc1_input cause)))
    && negb (bool_decide (is_Some (fc1_collection_index cause))) && negb (bool_decide (is_Some (fc1_exit_code cause)))
    && match fc1_output cause with Some output => is_identifier output | None => false end
  else if decide (fc1_code cause = V1.CommandExit) then
    bool_decide (f1_phase failure = PhaseExecutionV1) && negb (bool_decide (is_Some (fc1_input cause)))
    && negb (bool_decide (is_Some (fc1_collection_index cause))) && negb (bool_decide (is_Some (fc1_output cause)))
    && negb (bool_decide (fc1_exit_code cause = Some 0%Z))
  else
    negb (bool_decide (is_Some (fc1_input cause))) && negb (bool_decide (is_Some (fc1_collection_index cause)))
    && negb (bool_decide (is_Some (fc1_output cause))) && negb (bool_decide (is_Some (fc1_exit_code cause)))
    && simple_failure_phase (fc1_code cause) (f1_phase failure).

(** ** Reading failures back *)

(** The names of the codes: the two enumerations are written with
    [rename_all = "snake_case"]. *)
Definition failure_code_name (code : FailureCode) : string :=
  match code with
  | StepUnavailable => "step_unavailable"
  | PreparationTaskUnavailable => "preparation_task_unavailable"
  | InputsUnavailable => "inputs_unavailable"
  | OutputsUnsupported => "outputs_unsupported"
  | AgentRuntimeUnavailable => "agent_runtime_unavailable"
  | AgentStepUnavailable => "agent_step_unavailable"
  | AgentAdmissionUnavailable => "agent_admission_unavailable"
  | AgentInputsUnavailable => "agent_inputs_unavailable"
  | AgentInputMissingUpstream => "agent_input_missing_upstream"
  | AgentInputTypeMismatch => "agent_input_type_mismatch"
  | AgentSourceUnavailable => "agent_source_unavailable"
  | AgentSourceTextInvalid => "agent_source_text_invalid"
  | AgentResultSchemaUnavailable => "agent_result_schema_unavailable"
  | AgentValueModeInvalid => "agent_value_mode_invalid"
  | AgentAttachmentCountLimit => "agent_attachment_count_limit"
  | AgentAttachmentBytesLimit => "agent_attachment_bytes_limit"
  | ArtifactStagingMismatch => "artifact_staging_mismatch"
  | AgentStagingMismatch => "agent_staging_mismatch"
  | AgentInputStagingUnavailable => "agent_input_staging_unavailable"
  | HarnessStartFailed => "harness_start_failed"
  | HarnessInputTooLarge => "harness_input_too_large"
  | HarnessFailed => "harness_failed"
  | HarnessProtocolFailed => "harness_protocol_failed"
  | MissingResponse => "missing_response"
  | MissingResult => "missing_result"
  | ResultValidationLimitExceeded => "result_validation_limit_exceeded"
  | CapturedValueTooLarge => "captured_value_too_large"
  | ResultSettlementFailed => "result_settlement_failed"
  | InputInvalidName => "input_invalid_name"
  | InputValueCountLimit => "input_value_count_limit"
  | InputValueSizeLimit => "input_value_size_limit"
  | InputTotalSizeLimit => "input_total_size_limit"
  | InputCollectionOrdinalLimit => "input_collection_ordinal_limit"
  | InputTypeMismatch => "input_type_mismatch"
  | InputSourceUnavailable => "input_source_unavailable"
  | InputStagingUnavailable => "input_staging_unavailable"
  | InputLiveLimit => "input_live_limit"
  | ExecutionRootRebound => "execution_root_rebound"
  | WorkingDirectoryUnavailable => "working_directory_unavailable"
  | WorkingDirectoryEscape => "working_directory_escape"
  | WorkingDirectoryNotDirectory => "working_directory_not_directory"
  | CommandArgvInvalid => "command_argv_invalid"
  | CommandPathUnconfigured => "command_path_unconfigured"
  | ExecutableNotFound => "executable_not_found"
  | ExecutableUnavailable => "executable_unavailable"
  | CommandLaunchNotFound => "command_launch_not_found"
  | CommandLaunchPermissionDenied => "command_launch_permission_denied"
  | CommandLaunchInvalidInput => "command_launch_invalid_input"
  | CommandLaunchFailed => "command_launch_failed"
  | JsonPointerMissing => "json_pointer_missing"
  | CommandExit => "command_exit"
  | CommandWaitFailed => "command_wait_failed"
  | ExecutionTaskUnavailable => "execution_task_unavailable"
  | OutputUnsupported => "output_unsupported"
  | CaptureTaskUnavailable => "capture_task_unavailable"
  | OutputPathAbsolute => "output_path_absolute"
  | OutputPathEscape => "output_path_escape"
  | OutputPathEmpty => "output_path_empty"
  | OutputMissing => "output_missing"
  | OutputSymbolicLink => "output_symbolic_link"
  | OutputParentNotDirectory => "output_parent_not_directory"
  | OutputNotRegularFile => "output_not_regular_file"
  | OutputSourceUnavailable => "output_source_unavailable"
  | OutputInvalidUtf8 => "output_invalid_utf8"
  | OutputInvalidJson => "output_invalid_json"
  | OutputDuplicateJsonMember => "output_duplicate_json_member"
  | OutputJsonSchemaMismatch => "output_json_schema_mismatch"
  | CapturedFileCountLimit => "captured_file_count_limit"
  | CapturedFileSizeLimit => "captured_file_size_limit"
  | CapturedTotalSizeLimit => "captured_total_size_limit"
  | CapturedGitCarrierCountLimit => "captured_git_carrier_count_limit"
  | CapturedGitCarrierSizeLimit => "captured_git_carrier_size_limit"
  | CapturedTotalGitCarrierSizeLimit => "captured_total_git_carrier_size_limit"
  | GitExecutionRootRebound => "git_execution_root_rebound"
  | GitHeadUnavailable => "git_head_unavailable"
  | GitBaselineNotAncestor => "git_baseline_not_ancestor"
  | GitCleanlinessUnavailable => "git_cleanliness_unavailable"
  | GitWorkspaceDirty => "git_workspace_dirty"
  | GitTreeUnavailable => "git_tree_unavailable"
  | GitRequiredObjectsUnavailable => "git_required_objects_unavailable"
  | GitSourceAuthorityChanged => "git_source_authority_changed"
  | GitStructureLimitExceeded => "git_structure_limit_exceeded"
  | GitCommandTimedOut => "git_command_timed_out"
  | GitBundleGenerationFailed => "git_bundle_generation_failed"
  | GitBundleProfileInvalid => "git_bundle_profile_invalid"
  | GitBundleVerificationFailed => "git_bundle_verification_failed"
  | GitWorkspaceChanged => "git_workspace_changed"
  | GitTemporaryStorageUnavailable => "git_temporary_storage_unavailable"
  | OutputStagingUnavailable => "output_staging_unavailable"
  end.

Definition failure_code_v1_name (code : V1.FailureCodeV1) : string :=
  match code with
  | V1.StepUnavailable => "step_unavailable"
  | V1.PreparationTaskUnavailable => "preparation_task_unavailable"
  | V1.InputsUnavailable => "inputs_unavailable"
  | V1.OutputsUnsupported => "outputs_unsupported"
  | V1.AgentRuntimeUnavailable => "agent_runtime_unavailable"
  | V1.AgentStepUnavailable => "agent_step_unavailable"
  | V1.AgentAdmissionUnavailable => "agent_admission_unavailable"
  | V1.AgentInputsUnavailable => "agent_inputs_unavailable"
  | V1.AgentInputMissingUpstream => "agent_input_missing_upstream"
  | V1.AgentInputTypeMismatch => "agent_input_type_mismatch"
  | V1.AgentSourceUnavailable => "agent_source_unavailable"
  | V1.AgentSourceTextInvalid => "agent_source_text_invalid"
  | V1.AgentResultSchemaUnavailable => "agent_result_schema_unavailable"
  | V1.AgentValueModeInvalid => "agent_value_mode_invalid"
  | V1.AgentAttachmentCountLimit => "agent_attachment_count_limit"
  | V1.AgentAttachmentBytesLimit => "agent_attachment_bytes_limit"
  | V1.ArtifactStagingMismatch => "artifact_staging_mismatch"
  | V1.AgentStagingMismatch => "agent_staging_mismatch"
  | V1.AgentInputStagingUnavailable => "agent_input_staging_unavailable"
  | V1.HarnessStartFailed => "harness_start_failed"
  | V1.HarnessInputTooLarge => "harness_input_too_large"
  | V1.HarnessFailed => "harness_failed"
  | V1.HarnessProtocolFailed => "harness_protocol_failed"
  | V1.MissingResponse => "missing_response"
  | V1.MissingResult => "missing_result"
  | V1.ResultValidationLimitExceeded => "result_validation_limit_exceeded"
  | V1.CapturedValueTooLarge => "captured_value_too_large"
  | V1.ResultSettlementFailed => "result_settlement_failed"
  | V1.InputInvalidName => "input_invalid_name"
  | V1.InputValueCountLimit => "input_value_count_limit"
  | V1.InputValueSizeLimit => "input_value_size_limit"
  | V1.InputTotalSizeLimit => "input_total_size_limit"
  | V1.InputCollectionOrdinalLimit => "input_collection_ordinal_limit"
  | V1.InputTypeMismatch => "input_type_mismatch"
  | V1.InputSourceUnavailable => "input_source_unavailable"
  | V1.InputStagingUnavailable => "input_staging_unavailable"
  | V1.InputLiveLimit => "input_live_limit"
  | V1.ExecutionRootRebound => "execution_root_rebound"
  | V1.WorkingDirectoryUnavailable => "working_directory_unavailable"
  | V1.WorkingDirectoryEscape => "working_directory_escape"
  | V1.WorkingDirectoryNotDirectory => "working_directory_not_directory"
  | V1.CommandArgvInvalid => "command_argv_invalid"
  | V1.CommandPathUnconfigured => "command_path_unconfigured"
  | V1.ExecutableNotFound => "executable_not_found"
  | V1.ExecutableUnavailable => "executable_unavailable"
  | V1.CommandLaunchNotFound => "command_launch_not_found"
  | V1.CommandLaunchPermissionDenied => "command_launch_permission_denied"
  | V1.CommandLaunchInvalidInput => "command_launch_invalid_input"
  | V1.CommandLaunchFailed => "command_launch_failed"
  | V1.CommandExit => "command_exit"
  | V1.CommandWaitFailed => "command_wait_failed"
  | V1.ExecutionTaskUnavailable => "execution_task_unavailable"
  | V1.OutputUnsupported => "output_unsupported"
  | V1.CaptureTaskUnavailable => "capture_task_unavailable"
  | V1.OutputPathAbsolute => "output_path_absolute"
  | V1.OutputPathEscape => "output_path_escape"
  | V1.OutputPathEmpty => "output_path_empty"
  | V1.OutputMissing => "output_missing"
  | V1.OutputSymbolicLink => "output_symbolic_link"
  | V1.OutputParentNotDirectory => "output_parent_not_directory"
  | V1.OutputNotRegularFile => "output_not_regular_file"
  | V1.OutputSourceUnavailable => "output_source_unavailable"
  | V1.OutputInvalidUtf8 => "output_invalid_utf8"
  | V1.OutputInvalidJson => "output_invalid_json"
  | V1.OutputDuplicateJsonMember => "output_duplicate_json_member"
  | V1.OutputJsonSchemaMismatch => "output_json_schema_mismatch"
  | V1.CapturedFileCountLimit => "captured_file_count_limit"
  | V1.CapturedFileSizeLimit => "captured_file_size_limit"
  | V1.CapturedTotalSizeLimit => "captured_total_size_limit"
  | V1.CapturedGitCarrierCountLimit => "captured_git_carrier_count_limit"
  | V1.CapturedGitCarrierSizeLimit => "captured_git_carrier_size_limit"
  | V1.CapturedTotalGitCarrierSizeLimit => "captured_total_git_carrier_size_limit"
  | V1.GitExecutionRootRebound => "git_execution_root_rebound"
  | V1.GitHeadUnavailable => "git_head_unavailable"
  | V1.GitBaselineNotAncestor => "git_baseline_not_ancestor"
  | V1.GitCleanlinessUnavailable => "git_cleanliness_unavailable"
  | V1.GitWorkspaceDirty => "git_workspace_dirty"
  | V1.GitTreeUnavailable => "git_tree_unavailable"
  | V1.GitRequiredObjectsUnavailable => "git_required_objects_unavailable"
  | V1.GitSourceAuthorityChanged => "git_source_authority_changed"
  | V1.GitStructureLimitExceeded => "git_structure_limit_exceeded"
  | V1.GitCommandTimedOut => "git_command_timed_out"
  | V1.GitBundleGenerationFailed => "git_bundle_generation_failed"
  | V1.GitBundleProfileInvalid => "git_bundle_profile_invalid"
  | V1.GitBundleVerificationFailed => "git_bundle_verification_failed"
  | V1.GitWorkspaceChanged => "git_workspace_changed"
  | V1.GitTemporaryStorageUnavailable => "git_temporary_storage_unavailable"
  | V1.OutputStagingUnavailable => "output_staging_unavailable"
  end.

Definition failure_codes : list FailureCode :=
  [StepUnavailable; PreparationTaskUnavailable; InputsUnavailable; OutputsUnsupported;
   AgentRuntimeUnavailable; AgentStepUnavailable; AgentAdmissionUnavailable; AgentInputsUnavailable;
   AgentInputMissingUpstream; AgentInputTypeMismatch; AgentSourceUnavailable; AgentSourceTextInvalid;
   AgentResultSchemaUnavailable; AgentValueModeInvalid; AgentAttachmentCountLimit; AgentAttachmentBytesLimit;
   ArtifactStagingMismatch; AgentStagingMismatch; AgentInputStagingUnavailable; HarnessStartFailed;
   HarnessInputTooLarge; HarnessFailed; HarnessProtocolFailed; MissingResponse; MissingResult;
   ResultValidationLimitExceeded; CapturedValueTooLarge; ResultSettlementFailed; InputInvalidName;
   InputValueCountLimit; InputValueSizeLimit; InputTotalSizeLimit; InputCollectionOrdinalLimit;
   InputTypeMismatch; InputSourceUnavailable; InputStagingUnavailable; InputLiveLimit; ExecutionRootRebound;
   WorkingDirectoryUnavailable; WorkingDirectoryEscape; WorkingDirectoryNotDirectory; CommandArgvInvalid;
   CommandPathUnconfigured; ExecutableNotFound; ExecutableUnavailable; CommandLaunchNotFound;
   CommandLaunchPermissionDenied; CommandLaunchInvalidInput; CommandLaunchFailed; JsonPointerMissing;
   CommandExit; CommandWaitFailed; ExecutionTaskUnavailable; OutputUnsupported; CaptureTaskUnavailable;
   OutputPathAbsolute; OutputPathEscape; OutputPathEmpty; OutputMissing; OutputSymbolicLink;
   OutputParentNotDirectory; OutputNotRegularFile; OutputSourceUnavailable; OutputInvalidUtf8;
   OutputInvalidJson; OutputDuplicateJsonMember; OutputJsonSchemaMismatch; CapturedFileCountLimit;
   CapturedFileSizeLimit; CapturedTotalSizeLimit; CapturedGitCarrierCountLimit; CapturedGitCarrierSizeLimit;
   CapturedTotalGitCarrierSizeLimit; GitExecutionRootRebound; GitHeadUnavailable; GitBaselineNotAncestor;
   GitCleanlinessUnavailable; GitWorkspaceDirty; GitTreeUnavailable; GitRequiredObjectsUnavailable;
   GitSourceAuthorityChanged; GitStructureLimitExceeded; GitCommandTimedOut; GitBundleGenerationFailed;
   GitBundleProfileInvalid; GitBundleVerificationFailed; GitWorkspaceChanged; GitTemporaryStorageUnavailable;
   OutputStagingUnavailable].

(** The derived [Deserialize] of [FailureCode]. *)
Definition failure_code_of_name (name : string) : option FailureCode :=
  list_find (λ code, failure_code_name code = name) failure_codes ≫= λ '(_, code), Some code.

Record FailureDetailWire := {
  fdw_phase : FailurePhase;
  fdw_code : FailureCode;
  fdw_input : option string;
  fdw_collection_index : option N;
  fdw_output : option string;
  fdw_exit_code : option Z;
  fdw_ref : option string;
  fdw_pointer : option string
}.

(** What the derived [Serialize] of a detail writes, as the decoder of the
    wire record reads it: the two have the same fields under the same names. *)
Definition failure_detail_to_wire (d : FailureDetail) : FailureDetailWire :=
  {| fdw_phase := fd_phase d; fdw_code := fd_code d; fdw_input := fd_input d;
     fdw_collection_index := fd_collection_index d; fdw_output := fd_output d; fdw_exit_code := fd_exit_code d;
     fdw_ref := fd_ref d; fdw_pointer := fd_pointer d |}.

(** [Deserialize for FailureDetail]. *)
Definition failure_detail_from_wire (wire : FailureDetailWire) : result FailureDetail EvidenceError :=
  let? detail := failure_detail_new (fdw_phase wire) (fdw_code wire) (fdw_input wire) (fdw_collection_index wire)
                   (fdw_output wire) (fdw_exit_code wire) in
  let detail := {| fd_phase := fd_phase detail; fd_code := fd_code detail; fd_input := fd_input detail;
                   fd_collection_index := fd_collection_index detail; fd_output := fd_output detail;
                   fd_exit_code := fd_exit_code detail; fd_ref := fdw_ref wire; fd_pointer := fdw_pointer wire |} in
  let? _ := failure_detail_validate detail in Ok detail.

Definition failure_phase_of_v1 (phase : FailurePhaseV1) : FailurePhase :=
  match phase with
  | PhaseStartV1 => PhaseStart
  | PhaseExecutionV1 => PhaseExecution
  | PhaseOutputCaptureV1 => PhaseOutputCapture
  end.

(** [failure_detail_from_recovery]: the failure of a result is written to
    JSON and read as a detail. *)
Definition failure_detail_from_recovery (failure : FailureV1) : option FailureDetail :=
  let cause := f1_cause failure in
  code ← failure_code_of_name (failure_code_v1_name (fc1_code cause));
  result_ok (failure_detail_from_wire
    {| fdw_phase := failure_phase_of_v1 (f1_phase failure); fdw_code := code; fdw_input := fc1_input cause;
       fdw_collection_index := fc1_collection_index cause; fdw_output := fc1_output cause;
       fdw_exit_code := fc1_exit_code cause; fdw_ref := None; fdw_pointer := None |}).

(** ** Evidence that can be read *)

Lemma is_identifier_value value : is_identifier value = is_workflow_value_identifier value.
Proof.
  unfold is_identifier, is_workflow_value_identifier. destruct (bytes value) as [|b l]; simpl; [by rewrite andb_false_r|].
  rewrite drop_0. by rewrite (andb_comm (_ <=? _)%N).
Qed.

(** A valid detail is read back as itself, unless it records the failure of a
    condition. *)
Lemma failure_detail_wire_round_trip d :
  failure_detail_validate d = Ok tt →
  failure_detail_from_wire (failure_detail_to_wire d)
  = if decide (fd_phase d = PhaseCondition) then Err FailureDetailError else Ok d.
Proof.
  intros Hv. destruct d as [phase code input index output exit reference pointer].
  assert (Hnone : phase ≠ PhaseCondition → reference = None ∧ pointer = None).
  { intros Hp. unfold failure_detail_validate in Hv. simpl in Hv. rewrite (bool_decide_eq_false_2 (phase = PhaseCondition)) in Hv by done.
    simpl in Hv. destruct (phase_valid code phase); [|done]. simpl in Hv.
    destruct reference, pointer; rewrite ?orb_true_r in Hv; try done. }
  unfold failure_detail_from_wire, failure_detail_to_wire. cbn -[failure_detail_new failure_detail_validate].
  unfold failure_detail_new. cbn -[failure_detail_validate]. case_decide as Hp.
  - subst phase. unfold failure_detail_validate. cbn -[phase_valid input_valid output_failure].
    destruct (phase_valid code PhaseCondition); [|done]. cbn -[input_valid output_failure].
    unfold condition_failure. simpl. rewrite !andb_false_r. simpl. by rewrite !orb_true_r.
  - destruct (Hnone Hp) as [-> ->]. rewrite Hv. cbn -[failure_detail_validate]. by rewrite Hv.
Qed.

(** ** The two records of a failure agree *)

Lemma failure_codes_agree :
  (∀ k, failure_code_of_name (failure_code_v1_name (input_preparation_failure_code_v1 k)) = Some (input_preparation_failure_code k))
  ∧ (∀ k, failure_code_of_name (failure_code_v1_name (command_preparation_code_v1 k)) = Some (command_preparation_code k))
  ∧ (∀ k, failure_code_of_name (failure_code_v1_name (command_launch_code_v1 k)) = Some (command_launch_code k))
  ∧ (∀ k, failure_code_of_name (failure_code_v1_name (working_directory_code_v1 k)) = Some (working_directory_code k))
  ∧ (∀ k, failure_code_of_name (failure_code_v1_name (agent_input_code_v1 k)) = Some (agent_input_code k))
  ∧ (∀ k, failure_code_of_name (failure_code_v1_name (agent_failure_code_v1 k)) = Some (agent_failure_code k))
  ∧ (∀ k, failure_code_of_name (failure_code_v1_name (capture_failure_code_v1 k)) = Some (capture_failure_code k))
  ∧ (∀ k, failure_code_of_name (failure_code_v1_name (git_capture_code_v1 k)) = Some (git_capture_code k)).
Proof.
  split_and!; intros [];
    try match goal with |- context [AgentInWorkingDirectory ?failure] => destruct failure end; vm_compute; reflexivity.
Qed.

(** What the preparation of inputs ([input.rs]) guarantees: a name is reported
    invalid when it is not an identifier. *)
Definition reported_name_invalid (cause : StepFailureCause) : Prop :=
  ∀ failure input, cause = CauseStart (StartInputPreparation failure) → ipf_kind failure = PrepareInvalidInputName →
    ipf_input_identity failure = Some input → is_identifier input = false.

Lemma failure_detail_Ok phase cause detail :
  failure_detail phase cause = Ok detail → failure_detail_validate detail = Ok tt ∧ fd_phase detail = phase
  ∧ phase ≠ PhaseCondition.
Proof.
  unfold failure_detail. intros (d & Hd & (() & Hv & [= ->])%result_bind_Ok)%result_bind_Ok. split; [done|].
  destruct phase, cause as [source|source|source|source]; try done.
  - apply result_bind_Ok in Hd as (() & _ & [= <-]). by destruct source.
  - injection Hd as <-. by destruct source as [[]| |].
  - injection Hd as <-. by destruct source.
Qed.

(** A failure that evidence accepts has an entry in a result, and the entry
    reads as the same detail. *)
Lemma failure_records_agree phase cause detail :
  failure_detail phase cause = Ok detail →
  ∃ failure, failure_v1 phase cause = Some failure ∧ failure_detail_from_recovery failure = Some detail.
Proof.
  intros Hd. destruct (failure_detail_Ok _ _ _ Hd) as (Hv & Hp & Hne).
  pose proof (failure_detail_wire_round_trip detail Hv) as Hwire. rewrite decide_False in Hwire by congruence.
  unfold failure_detail in Hd. apply result_bind_Ok in Hd as (d & Hd & (() & _ & [= ->])%result_bind_Ok).
  destruct failure_codes_agree as (Hin & Hprep & Hlaunch & Hdir & Hagentin & Hagent & Hcapture & Hgit).
  assert (Hread : ∀ code failure, failure_code_of_name (failure_code_v1_name (fc1_code (f1_cause failure))) = Some code →
    failure_detail_to_wire detail
    = {| fdw_phase := failure_phase_of_v1 (f1_phase failure); fdw_code := code; fdw_input := fc1_input (f1_cause failure);
         fdw_collection_index := fc1_collection_index (f1_cause failure); fdw_output := fc1_output (f1_cause failure);
         fdw_exit_code := fc1_exit_code (f1_cause failure); fdw_ref := None; fdw_pointer := None |} →
    failure_detail_from_recovery failure = Some detail).
  { intros code failure Hc Hw. unfold failure_detail_from_recovery. rewrite Hc. cbn [mbind option_bind].
    rewrite <-Hw, Hwire. done. }
  destruct phase, cause as [source|source|source|source]; try done; eexists; (split; [reflexivity|]).
  - apply result_bind_Ok in Hd as (() & _ & [= <-]).
    destruct source; eapply Hread; simpl;
      first [apply Hin|apply Hprep|apply Hlaunch|apply Hdir|apply Hagentin|apply Hagent|vm_compute; reflexivity|done].
  - injection Hd as <-. destruct source as [[]| |]; eapply Hread; simpl; first [apply Hagent|vm_compute; reflexivity|done].
  - injection Hd as <-. destruct source; eapply Hread; simpl;
      first [apply Hcapture|apply Hgit|vm_compute; reflexivity|done].
Qed.

(** A result accepts the entry of every failure that evidence accepts. *)
Lemma failure_v1_valid phase cause detail failure :
  failure_detail phase cause = Ok detail → reported_name_invalid cause → failure_v1 phase cause = Some failure →
  validate_failure failure = true.
Proof.
  intros Hd Hname Hf. pose proof (failure_detail_Ok _ _ _ Hd) as (Hv & _).
  unfold failure_detail in Hd. apply result_bind_Ok in Hd as (d & Hd & (() & _ & [= ->])%result_bind_Ok).
  destruct phase, cause as [source|source|source|source]; try done; injection Hf as <-.
  - apply result_bind_Ok in Hd as (() & _ & [= <-]).
    destruct source as [| | |f|f|[f]| | |f|f|f]; try reflexivity; try (by destruct f);
      [|by destruct f as [| | | | | | | | | | |[]| | | |]].
    destruct f as [input index kind]. unfold failure_detail_validate, input_valid in Hv. cbn in Hv.
    destruct kind; cbn in Hv |- *;
      (destruct input as [input|]; cbn in Hv |- *; [rewrite is_identifier_value|try done]);
      try (destruct (is_workflow_value_identifier input); [done|by rewrite ?orb_true_l in Hv]).
    rewrite <-is_identifier_value, (Hname _ _ eq_refl eq_refl eq_refl).
    destruct index; [|done]. by rewrite ?orb_true_r in Hv.
  - injection Hd as <-. destruct source as [[status|]|[f]|]; try reflexivity; [|by destruct f].
    unfold failure_detail_validate in Hv. cbn in Hv |- *. destruct status as [status|]; [|done].
    cbn in Hv |- *. destruct (decide (status = 0)%Z) as [->|Hne]; [done|].
    rewrite (bool_decide_eq_false_2 (Some status = Some 0%Z)) by (by intros [= ?]). done.
  - injection Hd as <-. destruct source as [| |[output kind]|output f|]; try reflexivity.
    + unfold failure_detail_validate in Hv. cbn in Hv |- *.
      destruct kind; cbn in Hv |- *; rewrite is_identifier_value; by destruct (is_workflow_value_identifier output).
    + unfold failure_detail_validate in Hv. cbn in Hv |- *.
      destruct f; cbn in Hv |- *; rewrite is_identifier_value; by destruct (is_workflow_value_identifier output).
Qed.

(** ** Claims *)

(** C35: The two records of a failure agree.  The evidence of the reducer
    ([failure_detail]) and the entry of a result ([failure_v1]) are computed by
    two independent tables over every failure of the adapters.  Whenever
    evidence accepts a failure in a phase, the result has an entry for it, the
    entry passes the validation of results, and reading the entry back, as the
    validation of recoveries does, gives exactly the detail of the evidence. *)
Theorem failure_evidence_matches_result phase cause detail :
  failure_detail phase cause = Ok detail → reported_name_invalid cause →
  ∃ failure, failure_v1 phase cause = Some failure ∧ validate_failure failure = true
    ∧ failure_detail_from_recovery failure = Some detail.
Proof.
  intros Hd Hname. destruct (failure_records_agree _ _ _ Hd) as (failure & Hf & Hr).
  exists failure. eauto using failure_v1_valid.
Qed.

Definition exit_failure : StepFailureCause := CauseExecution (ExecCommand (CommandUnsuccessfulExit (Some 3%Z))).

Lemma failure_evidence_matches_result_witness :
  ∃ failure, failure_v1 PhaseExecution exit_failure = Some failure ∧ validate_failure failure = true
    ∧ failure_detail_from_recovery failure
      = Some {| fd_phase := PhaseExecution; fd_code := CommandExit; fd_input := None; fd_collection_index := None;
                fd_output := None; fd_exit_code := Some 3%Z; fd_ref := None; fd_pointer := None |}.
Proof. apply failure_evidence_matches_result; [reflexivity|intros ??; discriminate]. Defined.

(** C36: Recorded failures are read back, except those of conditions.  Every
    valid detail of another phase is read back as itself; but the detail that
    [json_pointer_missing] builds for a condition whose pointer selects nothing
    is never accepted by [Deserialize], which checks it before it has set the
    reference and the pointer: a result that records such a failure cannot be
    read. *)
Theorem condition_failures_unreadable d :
  failure_detail_validate d = Ok tt →
  (fd_phase d ≠ PhaseCondition → failure_detail_from_wire (failure_detail_to_wire d) = Ok d)
  ∧ (∀ reference pointer, json_pointer_missing reference pointer = Ok d →
       failure_detail_from_wire (failure_detail_to_wire d) = Err FailureDetailError).
Proof.
  intros Hv. rewrite (failure_detail_wire_round_trip d Hv). split; [by intros ?; case_decide|].
  unfold json_pointer_missing. intros reference pointer (() & _ & [= <-])%result_bind_Ok. done.
Qed.

Definition missing_pointer_detail : FailureDetail :=
  {| fd_phase := PhaseCondition; fd_code := JsonPointerMissing; fd_input := None; fd_collection_index := None;
     fd_output := None; fd_exit_code := None; fd_ref := Some "outputs.build.report"; fd_pointer := Some "/status" |}.

Lemma condition_failures_unreadable_witness :
  failure_detail_validate missing_pointer_detail = Ok tt
  ∧ failure_detail_from_wire (failure_detail_to_wire missing_pointer_detail) = Err FailureDetailError.
Proof.
  split; [reflexivity|].
  apply (condition_failures_unreadable missing_pointer_detail) with "outputs.build.report" "/status"; reflexivity.
Defined.
