(* ===== verification/Validation.v ===== *)
(** * Workflow validation ([validation.rs])

    From a document to the workflow that is admitted and run, or to the first
    failure with its place.  Every function of the source is a function here,
    in the same order of checks; [&mut] maps that a function fills are
    returned with its result.  [required_inputs] is passed by mutable
    reference in the source but never changed, so it is an argument here.  An
    index operation that would panic on an absent name is a lookup whose
    failure case is unreachable from [validate]. *)

From S2P Require Import Prelude Text Nodes Evidence Condition Document Validated.

Definition MAXIMUM_WORKFLOW_NODES : nat := 256.
Definition MAXIMUM_CONDITION_DEPTH : nat := 16.
Definition MAXIMUM_CONDITION_NODES : nat := 256.
Definition MAXIMUM_CONDITION_CHILDREN : nat := 64.
Definition MAXIMUM_WORKFLOW_CONDITION_NODES : nat := 4096.

Inductive ValidationFailureKind :=
| MissingDependency
| SelfDependency
| DuplicateDependency
| DependencyCycle
| InvalidAgentProfileConfig
| UnknownAgentProfile
| UnknownInput
| UnknownOutputStep
| UnknownOutput
| MessageTypeMismatch
| TerminalOutputReference
| IllegalCommandOutput
| ExcessAgentResponseOutput
| ExcessAgentResultOutput
| ConflictingAgentValueOutputs
| ExcessWorkspaceOutput
| DuplicateOutputPath
| AdvisoryDataDependency
| InvalidExportTarget
| AdvisoryExportTarget
| TooManyNodes
| DuplicateNodeId
| InvalidSourceOrder
| CrossPhaseOutputReference
| InvalidFinalizerAfterTarget
| InvalidFinalizerTrigger
| IncompatibleFinalizerTriggers
| InvalidFinalizationContext
| FinalizerExportTrigger
| TooManyPrerequisites
| InvalidCondition
| InvalidConditionReference
| InvalidConditionType
| InvalidJsonPointer
| ConditionDepthExceeded
| ConditionNodeLimitExceeded
| ConditionChildLimitExceeded
| WorkflowConditionNodeLimitExceeded.

Inductive ValidationLocation :=
| AtWorkflowGraph
| AtWorkflowNamespace
| AtAgentProfile (profile : string)
| AtAgentProfileReference (step : string)
| AtRecoveryAgentProfileReference (step : string)
| AtFinalizerAgentProfileReference (finalizer : string)
| AtStepDependency (step : string) (index : nat)
| AtStepInput (step input : string)
| AtMessageText (step : string) (index : nat)
| AtMessageAttachment (step : string) (index : nat)
| AtStepOutput (step output : string)
| AtStepCondition (step : string)
| AtFinalizerAfter (finalizer : string) (index : nat)
| AtFinalizerInput (finalizer input : string)
| AtFinalizerMessageText (finalizer : string) (index : nat)
| AtFinalizerMessageAttachment (finalizer : string) (index : nat)
| AtFinalizerOutput (finalizer output : string)
| AtFinalizerCondition (finalizer : string)
| AtExport (name : string).

Record ValidationFailure := { vfail_kind : ValidationFailureKind; vfail_location : ValidationLocation }.

Abbreviation checked T := (result T ValidationFailure).

Definition fail {T} (kind : ValidationFailureKind) (location : ValidationLocation) : checked T :=
  Err {| vfail_kind := kind; vfail_location := location |}.

(** [iter().map(f).collect::<Result<Vec<_>, _>>()]. *)
Fixpoint try_map {A B} (f : A → checked B) (l : list A) : checked (list B) :=
  match l with
  | [] => Ok []
  | a :: l => let? b := f a in let? bs := try_map f l in Ok (b :: bs)
  end.

(** A [for] loop that may return early. *)
Fixpoint try_fold {A S} (f : S → A → checked S) (l : list A) (s : S) : checked S :=
  match l with
  | [] => Ok s
  | a :: l => let? s := f s a in try_fold f l s
  end.

(** Elements with their positions, as [enumerate] gives them. *)
Definition enumerate {A} (l : list A) : list (nat * A) := imap (λ i a, (i, a)) l.

(** ** The nodes of a document *)

Definition common_node (body : NodeBody) : CommonNode :=
  match body with BodyCommand common _ _ | BodyAgent common _ => common end.

Definition node_body (document : WorkflowDocument) (name : string) : option (WorkflowNodeRole * NodeBody) :=
  match bt_get (doc_steps document) name with
  | Some step => Some (RoleStep, sd_body step)
  | None => (λ finalizer, (RoleFinalizer, fd_body finalizer)) <$> bt_get (doc_finalizers document) name
  end.

Definition node_common (document : WorkflowDocument) (name : string) (role : WorkflowNodeRole) : option CommonNode :=
  match role with
  | RoleStep => common_node ∘ sd_body <$> bt_get (doc_steps document) name
  | RoleFinalizer => common_node ∘ fd_body <$> bt_get (doc_finalizers document) name
  end.

Definition node_input_location (name : string) (role : WorkflowNodeRole) (input : string) : ValidationLocation :=
  match role with RoleStep => AtStepInput name input | RoleFinalizer => AtFinalizerInput name input end.

Definition node_message_location (name : string) (role : WorkflowNodeRole) (index : nat) (attachment : bool)
    : ValidationLocation :=
  match role, attachment with
  | RoleStep, false => AtMessageText name index
  | RoleStep, true => AtMessageAttachment name index
  | RoleFinalizer, false => AtFinalizerMessageText name index
  | RoleFinalizer, true => AtFinalizerMessageAttachment name index
  end.

Definition node_output_location (name : string) (role : WorkflowNodeRole) (output : string) : ValidationLocation :=
  match role with RoleStep => AtStepOutput name output | RoleFinalizer => AtFinalizerOutput name output end.

Definition condition_location (name : string) (role : WorkflowNodeRole) : ValidationLocation :=
  match role with RoleStep => AtStepCondition name | RoleFinalizer => AtFinalizerCondition name end.

Definition output_value_type (output : DocumentOutput) : WorkflowValueType :=
  match output with
  | TextPath _ | TextAgentResponse => TyText
  | JsonPath _ _ | JsonAgentResult _ => TyJson
  | FilePath _ _ => TyFile
  | GitBranchWorkspace => TyGitBranch
  end.

Definition declared_output (document : WorkflowDocument) (reference : OutputReference) (location : ValidationLocation)
    : checked (WorkflowNodeRole * NodeBody * DocumentOutput) :=
  match node_body document (or_node reference) with
  | None => fail UnknownOutputStep location
  | Some (role, body) =>
      match bt_get (cn_outputs (common_node body)) (or_output reference) with
      | None => fail UnknownOutput location
      | Some output => Ok (role, body, output)
      end
  end.

(** ** Names *)

Definition namespace_failure {T} (kind : ValidationFailureKind) : checked T := fail kind AtWorkflowNamespace.

Definition validate_source_order {T} (nodes : btree T) (source_order : list string) : checked () :=
  if negb (bool_decide (length source_order = length nodes))
     || negb (bool_decide (NoDup source_order))
     || existsb (λ id, negb (bt_contains_key nodes id)) source_order
  then namespace_failure InvalidSourceOrder else Ok ().

Definition validate_node_namespace (document : WorkflowDocument) : checked () :=
  if decide (MAXIMUM_WORKFLOW_NODES < length (doc_steps document) + length (doc_finalizers document))
  then namespace_failure TooManyNodes
  else if existsb (λ id, bt_contains_key (doc_finalizers document) id) (bt_keys (doc_steps document))
  then namespace_failure DuplicateNodeId
  else
    let? _ := validate_source_order (doc_steps document) (doc_step_order document) in
    validate_source_order (doc_finalizers document) (doc_finalizer_order document).

(** ** The size of conditions *)

(** [count], the children and the limits of one predicate. *)
Fixpoint condition_node_count (predicate : ConditionPredicate) (depth : nat) (location : ValidationLocation)
    : checked nat :=
  if decide (MAXIMUM_CONDITION_DEPTH < depth) then fail ConditionDepthExceeded location
  else
    let count :=
      (fix count (children : list ConditionPredicate) (n : nat) : checked nat :=
         match children with
         | [] => Ok n
         | child :: children =>
             let? m := condition_node_count child (S depth) location in
             let n := n + m in
             if decide (MAXIMUM_CONDITION_NODES < n) then fail ConditionNodeLimitExceeded location
             else count children n
         end) in
    match predicate with
    | CAll children | CAny children =>
        if bool_decide (children = []) || bool_decide (MAXIMUM_CONDITION_CHILDREN < length children)
        then fail ConditionChildLimitExceeded location
        else count children 1
    | CNot child => count [child] 1
    | CEquals _ _ | CExists _ | CDisposition _ _ => Ok 1
    end.

(** [validate_workflow_condition_bounds], the conditions of the steps before
    those of the finalizers. *)
Definition document_conditions (document : WorkflowDocument)
    : list (string * WorkflowNodeRole * option ConditionPredicate) :=
  ((λ '(name, step), (name, RoleStep, cn_condition (common_node (sd_body step)))) <$> doc_steps document)
  ++ ((λ '(name, finalizer), (name, RoleFinalizer, cn_condition (common_node (fd_body finalizer))))
      <$> doc_finalizers document).

Definition add_condition_nodes (total : nat)
    (entry : string * WorkflowNodeRole * option ConditionPredicate) : checked nat :=
  let '(name, role, condition) := entry in
  match condition with
  | None => Ok total
  | Some condition =>
      let? count := condition_node_count condition 1 (condition_location name role) in
      let total := total + count in
      if decide (MAXIMUM_WORKFLOW_CONDITION_NODES < total)
      then fail WorkflowConditionNodeLimitExceeded AtWorkflowGraph
      else Ok total
  end.

Definition validate_workflow_condition_bounds (document : WorkflowDocument) : checked () :=
  let? _ := try_fold add_condition_nodes (document_conditions document) 0 in Ok ().

(** ** Direct prerequisites *)

Abbreviation Prerequisites := (btree ResolvedDirectPrerequisite).

Definition insert_control_prerequisite (consumer dependency : string) (seen : list string)
    (prerequisites : Prerequisites) (target_exists : bool) (missing_kind : ValidationFailureKind)
    (location : ValidationLocation) : checked (list string * Prerequisites) :=
  if decide (dependency = consumer) then fail SelfDependency location
  else if decide (dependency ∈ seen) then fail DuplicateDependency location
  else if negb target_exists then fail missing_kind location
  else Ok (dependency :: seen,
           bt_insert prerequisites dependency
             {| rdp_producer := dependency; rdp_control := true; rdp_disposition_control := false;
                rdp_data := false; rdp_condition_data := false |}).

Definition mark_disposition_prerequisite (prerequisites : Prerequisites) (node : string) : Prerequisites :=
  bt_insert prerequisites node
    match bt_get prerequisites node with
    | Some p => {| rdp_producer := rdp_producer p; rdp_control := rdp_control p; rdp_disposition_control := true;
                   rdp_data := rdp_data p; rdp_condition_data := rdp_condition_data p |}
    | None => {| rdp_producer := node; rdp_control := false; rdp_disposition_control := true;
                 rdp_data := false; rdp_condition_data := false |}
    end.

Definition mark_data_prerequisite (prerequisites : Prerequisites) (producer : string) (condition_data : bool)
    : Prerequisites :=
  bt_insert prerequisites producer
    match bt_get prerequisites producer with
    | Some p => {| rdp_producer := rdp_producer p; rdp_control := rdp_control p;
                   rdp_disposition_control := rdp_disposition_control p;
                   rdp_data := true; rdp_condition_data := rdp_condition_data p || condition_data |}
    | None => {| rdp_producer := producer; rdp_control := false; rdp_disposition_control := false;
                 rdp_data := true; rdp_condition_data := condition_data |}
    end.

Definition condition_target_role (document : WorkflowDocument) (node : string) (location : ValidationLocation)
    : checked WorkflowNodeRole :=
  if bt_contains_key (doc_steps document) node then Ok RoleStep
  else if bt_contains_key (doc_finalizers document) node then Ok RoleFinalizer
  else fail InvalidConditionReference location.

Definition finalizer_when (document : WorkflowDocument) (name : string) : list FinalizationTrigger :=
  default [] (fd_when <$> bt_get (doc_finalizers document) name).

Definition validate_finalizer_trigger_compatibility (document : WorkflowDocument)
    (consumer_name producer_name : string) (consumer_role producer_role : WorkflowNodeRole)
    (location : ValidationLocation) : checked () :=
  if bool_decide (consumer_role = RoleFinalizer) && bool_decide (producer_role = RoleFinalizer)
     && negb (bool_decide (finalizer_when document consumer_name ⊆ finalizer_when document producer_name))
  then fail IncompatibleFinalizerTriggers location else Ok ().

Definition validate_data_dependency_authority (document : WorkflowDocument)
    (consumer_name producer_name : string) (consumer_role producer_role : WorkflowNodeRole)
    (producer_policy : FailurePolicy) (location : ValidationLocation) : checked () :=
  if bool_decide (producer_policy = Advisory)
     && bool_decide (cn_failure_policy <$> node_common document consumer_name consumer_role = Some Required)
  then fail AdvisoryDataDependency location
  else validate_finalizer_trigger_compatibility document consumer_name producer_name consumer_role producer_role
         location.

(** The outputs a condition may read. *)
Definition condition_output (output : DocumentOutput) : bool :=
  match output with
  | TextPath _ | TextAgentResponse | JsonPath _ _ | JsonAgentResult _ => true
  | FilePath _ _ | GitBranchWorkspace => false
  end.

Definition infer_condition_value_reference (consumer_name : string) (consumer_role : WorkflowNodeRole)
    (reference : ValueReference) (document : WorkflowDocument) (prerequisites : Prerequisites)
    : checked Prerequisites :=
  let location := condition_location consumer_name consumer_role in
  match reference with
  | RefInput name =>
      match bt_get (doc_inputs document) name with
      | Some DeclText | Some (DeclJson _) => Ok prerequisites
      | _ => fail InvalidConditionReference location
      end
  | RefFinalizationContext =>
      match consumer_role with
      | RoleFinalizer => Ok prerequisites
      | RoleStep => fail InvalidConditionReference location
      end
  | RefOutput reference =>
      let? (producer_role, producer_body, output) := declared_output document reference location in
      if negb (condition_output output)
         || bool_decide (or_node reference = consumer_name) && bool_decide (producer_role = consumer_role)
         || bool_decide (consumer_role = RoleStep) && bool_decide (producer_role = RoleFinalizer)
      then fail InvalidConditionReference location
      else
        let? _ := validate_data_dependency_authority document consumer_name (or_node reference) consumer_role
                    producer_role (cn_failure_policy (common_node producer_body)) location in
        Ok (if decide (consumer_role = producer_role)
            then mark_data_prerequisite prerequisites (or_node reference) true else prerequisites)
  end.

Section infer.
Context (consumer_name : string) (consumer_role : WorkflowNodeRole) (document : WorkflowDocument).

Definition infer_condition_operand (prerequisites : Prerequisites) (operand : ConditionOperand)
    : checked Prerequisites :=
  match operand with
  | CondReference reference _ =>
      infer_condition_value_reference consumer_name consumer_role reference document prerequisites
  | CondLiteral _ => Ok prerequisites
  end.

Fixpoint infer_condition_predicate (condition : ConditionPredicate) (prerequisites : Prerequisites)
    : checked Prerequisites :=
  match condition with
  | CAll children | CAny children =>
      (fix go children prerequisites :=
         match children with
         | [] => Ok prerequisites
         | child :: children =>
             let? prerequisites := infer_condition_predicate child prerequisites in go children prerequisites
         end) children prerequisites
  | CNot child => infer_condition_predicate child prerequisites
  | CEquals lhs rhs => try_fold infer_condition_operand [lhs; rhs] prerequisites
  | CExists selector =>
      infer_condition_value_reference consumer_name consumer_role (csel_reference selector) document prerequisites
  | CDisposition node _ =>
      let location := condition_location consumer_name consumer_role in
      let? target_role := condition_target_role document node location in
      if bool_decide (node = consumer_name) && bool_decide (target_role = consumer_role)
         || bool_decide (consumer_role = RoleStep) && negb (bool_decide (target_role = RoleStep))
      then fail InvalidConditionReference location
      else Ok (if decide (consumer_role = target_role)
               then mark_disposition_prerequisite prerequisites node else prerequisites)
  end.

Definition infer_condition_prerequisites (condition : option ConditionPredicate) (prerequisites : Prerequisites)
    : checked Prerequisites :=
  match condition with
  | None => Ok prerequisites
  | Some condition => infer_condition_predicate condition prerequisites
  end.

Definition infer_reference_prerequisite (reference : ValueReference) (prerequisites : Prerequisites)
    (location : ValidationLocation) (context_allowed : bool) : checked Prerequisites :=
  match reference with
  | RefInput _ => Ok prerequisites
  | RefFinalizationContext =>
      if context_allowed then Ok prerequisites else fail InvalidFinalizationContext location
  | RefOutput reference =>
      let? (producer_role, producer_body, output) := declared_output document reference location in
      if decide (output = GitBranchWorkspace) then fail TerminalOutputReference location
      else if bool_decide (or_node reference = consumer_name) && bool_decide (producer_role = consumer_role)
      then fail SelfDependency location
      else if bool_decide (consumer_role = RoleStep) && bool_decide (producer_role = RoleFinalizer)
      then fail CrossPhaseOutputReference location
      else
        let? _ := validate_data_dependency_authority document consumer_name (or_node reference) consumer_role
                    producer_role (cn_failure_policy (common_node producer_body)) location in
        Ok (if decide (consumer_role = producer_role)
            then mark_data_prerequisite prerequisites (or_node reference) false else prerequisites)
  end.

Definition infer_message_prerequisite (source : MessageSource) (prerequisites : Prerequisites)
    (location : ValidationLocation) (context_allowed : bool) : checked Prerequisites :=
  match source with
  | SourceReference reference => infer_reference_prerequisite reference prerequisites location context_allowed
  | SourceFile _ => Ok prerequisites
  end.

Definition infer_body_prerequisites (body : NodeBody) (prerequisites : Prerequisites) : checked Prerequisites :=
  match body with
  | BodyCommand _ inputs _ =>
      try_fold (λ prerequisites '(input, reference),
        infer_reference_prerequisite reference prerequisites
          (node_input_location consumer_name consumer_role input) (bool_decide (consumer_role = RoleFinalizer)))
        inputs prerequisites
  | BodyAgent _ agent =>
      let? prerequisites :=
        try_fold (λ prerequisites '(index, source),
          infer_message_prerequisite source prerequisites
            (node_message_location consumer_name consumer_role index false) false)
          (enumerate (am_text (ag_message agent))) prerequisites in
      try_fold (λ prerequisites '(index, source),
        infer_message_prerequisite source prerequisites
          (node_message_location consumer_name consumer_role index true)
          (bool_decide (consumer_role = RoleFinalizer)))
        (enumerate (am_attachments (ag_message agent))) prerequisites
  end.
End infer.

Definition insert_step_dependency (step_name : string) (document : WorkflowDocument)
    (acc : list string * Prerequisites) (entry : nat * string) : checked (list string * Prerequisites) :=
  let '(index, dependency) := entry in
  insert_control_prerequisite step_name dependency acc.1 acc.2 (bt_contains_key (doc_steps document) dependency)
    MissingDependency (AtStepDependency step_name index).

Definition insert_finalizer_dependency (finalizer_name : string) (document : WorkflowDocument)
    (acc : list string * Prerequisites) (entry : nat * string) : checked (list string * Prerequisites) :=
  let '(index, dependency) := entry in
  insert_control_prerequisite finalizer_name dependency acc.1 acc.2
    (bt_contains_key (doc_finalizers document) dependency)
    InvalidFinalizerAfterTarget (AtFinalizerAfter finalizer_name index).

Definition resolve_step_prerequisites (step_name : string) (step : StepDefinition) (document : WorkflowDocument)
    : checked (list ResolvedDirectPrerequisite) :=
  let? (_, prerequisites) :=
    try_fold (insert_step_dependency step_name document) (enumerate (sd_control_dependencies step)) ([], []) in
  let? prerequisites :=
    infer_condition_prerequisites step_name RoleStep document (cn_condition (common_node (sd_body step)))
      prerequisites in
  let? prerequisites := infer_body_prerequisites step_name RoleStep document (sd_body step) prerequisites in
  Ok (bt_values prerequisites).

Definition resolve_finalizer_prerequisites (finalizer_name : string) (finalizer : FinalizerDefinition)
    (document : WorkflowDocument) : checked (list ResolvedDirectPrerequisite) :=
  if decide (fd_when finalizer = []) then fail InvalidFinalizerTrigger AtWorkflowGraph
  else
    let? (_, prerequisites) :=
      try_fold (insert_finalizer_dependency finalizer_name document) (enumerate (fd_after finalizer)) ([], []) in
    let? prerequisites :=
      infer_condition_prerequisites finalizer_name RoleFinalizer document
        (cn_condition (common_node (fd_body finalizer))) prerequisites in
    let? prerequisites :=
      infer_body_prerequisites finalizer_name RoleFinalizer document (fd_body finalizer) prerequisites in
    Ok (bt_values prerequisites).

(** ** The graph *)

Record ValidatedGraph := {
  vg_direct_prerequisites : btree (list ResolvedDirectPrerequisite);
  vg_presentation_order : list string
}.

(** [BTreeSet<(usize, String)>]: ascending, without repetition. *)
Definition ready_cmp (a b : nat * string) : comparison :=
  match Nat.compare a.1 b.1 with Eq => String.compare a.2 b.2 | c => c end.

Fixpoint ready_insert (ready : list (nat * string)) (entry : nat * string) : list (nat * string) :=
  match ready with
  | [] => [entry]
  | e :: ready' =>
      match ready_cmp entry e with
      | Lt => entry :: ready
      | Eq => ready
      | Gt => e :: ready_insert ready' entry
      end
  end.

Definition source_indices (source_order : list string) : btree nat :=
  bt_collect ((λ '(index, node), (node, index)) <$> enumerate source_order).

(** [dependents.entry(producer).or_default().push(node)]. *)
Definition push_dependent (node_name : string) (dependents : btree (list string))
    (prerequisite : ResolvedDirectPrerequisite) : btree (list string) :=
  let producer := rdp_producer prerequisite in
  bt_insert dependents producer (default [] (bt_get dependents producer) ++ [node_name])%list.

Definition count_node (acc : btree (list string) * btree nat)
    (entry : string * list ResolvedDirectPrerequisite) : btree (list string) * btree nat :=
  let '(node_name, prerequisites) := entry in
  (foldl (push_dependent node_name) acc.1 prerequisites,
   bt_insert acc.2 node_name (length prerequisites)).

(** One dependent of the node taken: its count goes down and it becomes
    ready at zero.  The count of a dependent is never zero before. *)
Definition release_dependent (indices : btree nat) (acc : list (nat * string) * btree nat) (dependent : string)
    : list (nat * string) * btree nat :=
  match bt_get acc.2 dependent with
  | None => acc
  | Some count =>
      let count := pred count in
      (if decide (count = 0)
       then match bt_get indices dependent with
            | Some index => ready_insert acc.1 (index, dependent)
            | None => acc.1
            end
       else acc.1,
       bt_insert acc.2 dependent count)
  end.

(** The [while] loop, with fuel for one turn per node and the last test. *)
Fixpoint graph_loop (fuel : nat) (indices : btree nat) (dependents : btree (list string))
    (ready : list (nat * string)) (remaining : btree nat) (presentation_order : list string) : list string :=
  match fuel, ready with
  | S fuel, (_, node_name) :: ready =>
      let '(ready, remaining) :=
        foldl (release_dependent indices) (ready, remaining) (default [] (bt_get dependents node_name)) in
      graph_loop fuel indices dependents ready remaining (presentation_order ++ [node_name])%list
  | _, _ => presentation_order
  end.

Definition initially_ready (indices : btree nat) (remaining : btree nat) : list (nat * string) :=
  foldl ready_insert []
    (omap (λ '(name, count),
       if decide (count = 0) then (λ index, (index, name)) <$> bt_get indices name else None) remaining).

Definition validate_graph (direct_prerequisites : btree (list ResolvedDirectPrerequisite))
    (source_order : list string) (node_count : nat) : checked ValidatedGraph :=
  let indices := source_indices source_order in
  let '(dependents, remaining) := foldl count_node ([], []) direct_prerequisites in
  let presentation_order :=
    graph_loop (S (length direct_prerequisites)) indices dependents (initially_ready indices remaining) remaining [] in
  if decide (length presentation_order = node_count)
  then Ok {| vg_direct_prerequisites := direct_prerequisites; vg_presentation_order := presentation_order |}
  else fail DependencyCycle AtWorkflowGraph.

Definition validate_step_graph (document : WorkflowDocument) : checked ValidatedGraph :=
  let? direct_prerequisites :=
    try_map (λ '(step_name, step),
      let? prerequisites := resolve_step_prerequisites step_name step document in Ok (step_name, prerequisites))
      (doc_steps document) in
  validate_graph (bt_collect direct_prerequisites) (doc_step_order document) (length (doc_steps document)).

Definition validate_finalizer_graph (document : WorkflowDocument) : checked ValidatedGraph :=
  let? direct_prerequisites :=
    try_map (λ '(finalizer_name, finalizer),
      let? prerequisites := resolve_finalizer_prerequisites finalizer_name finalizer document in
      Ok (finalizer_name, prerequisites))
      (doc_finalizers document) in
  validate_graph (bt_collect direct_prerequisites) (doc_finalizer_order document)
    (length (doc_finalizers document)).

(** ** Output rules *)

Definition output_path (output : DocumentOutput) : option string :=
  match output with
  | TextPath path | JsonPath path _ | FilePath path _ => Some path
  | TextAgentResponse | JsonAgentResult _ | GitBranchWorkspace => None
  end.

(** The first loop: declared paths and the number of workspace outputs. *)
Definition check_output_path (name : string) (role : WorkflowNodeRole) (acc : list string * nat)
    (entry : string * DocumentOutput) : checked (list string * nat) :=
  let '(output_name, output) := entry in
  let '(paths, workspace_count) := acc in
  let location := node_output_location name role output_name in
  let? paths :=
    match output_path output with
    | Some path => if decide (path ∈ paths) then fail DuplicateOutputPath location else Ok (path :: paths)
    | None => Ok paths
    end in
  if decide (output = GitBranchWorkspace)
  then if decide (1 < S workspace_count) then fail ExcessWorkspaceOutput location
       else Ok (paths, S workspace_count)
  else Ok (paths, workspace_count).

Definition check_command_output (name : string) (role : WorkflowNodeRole) (acc : ())
    (entry : string * DocumentOutput) : checked () :=
  let '(output_name, output) := entry in
  match output with
  | TextAgentResponse | JsonAgentResult _ => fail IllegalCommandOutput (node_output_location name role output_name)
  | TextPath _ | JsonPath _ _ | FilePath _ _ | GitBranchWorkspace => Ok acc
  end.

Definition check_agent_output (name : string) (role : WorkflowNodeRole) (acc : nat * nat)
    (entry : string * DocumentOutput) : checked (nat * nat) :=
  let '(output_name, output) := entry in
  let '(response_count, result_count) := acc in
  let location := node_output_location name role output_name in
  match output with
  | TextAgentResponse =>
      let response_count := S response_count in
      if decide (1 < response_count) then fail ExcessAgentResponseOutput location
      else if decide (0 < result_count) then fail ConflictingAgentValueOutputs location
      else Ok (response_count, result_count)
  | JsonAgentResult _ =>
      let result_count := S result_count in
      if decide (1 < result_count) then fail ExcessAgentResultOutput location
      else if decide (0 < response_count) then fail ConflictingAgentValueOutputs location
      else Ok (response_count, result_count)
  | TextPath _ | JsonPath _ _ | FilePath _ _ | GitBranchWorkspace => Ok acc
  end.

Definition validate_node_outputs (name : string) (role : WorkflowNodeRole) (body : NodeBody) : checked () :=
  let outputs := cn_outputs (common_node body) in
  let? _ := try_fold (check_output_path name role) outputs ([], 0) in
  match body with
  | BodyCommand _ _ _ => try_fold (check_command_output name role) outputs ()
  | BodyAgent _ _ => let? _ := try_fold (check_agent_output name role) outputs (0, 0) in Ok ()
  end.

Definition validate_output_rules (document : WorkflowDocument) : checked () :=
  let? _ := try_fold (λ _ '(name, step), validate_node_outputs name RoleStep (sd_body step)) (doc_steps document) () in
  try_fold (λ _ '(name, finalizer), validate_node_outputs name RoleFinalizer (fd_body finalizer))
    (doc_finalizers document) ().

(** ** Agent profiles and recovery *)

Definition validate_agent_profile `{!HarnessDecoder} (entry : string * AgentProfile)
    : checked (string * ValidatedHarness) :=
  let '(name, profile) := entry in
  let harness :=
    match ap_harness profile with
    | DefPi config => HarnessPi <$> resolve_pi_config config
    | DefClaudeCode config => HarnessClaudeCode <$> resolve_claude_code_config config
    | DefCodex config => HarnessCodex <$> resolve_codex_config config
    end in
  match harness with
  | Some harness => Ok (name, harness)
  | None => fail InvalidAgentProfileConfig (AtAgentProfile name)
  end.

Definition validate_agent_profiles `{!HarnessDecoder} (document : WorkflowDocument)
    : checked (btree ValidatedHarness) :=
  let? profiles := try_map validate_agent_profile (doc_agent_profiles document) in Ok (bt_collect profiles).

Definition resolve_agent_profile (node_name : string) (role : WorkflowNodeRole) (agent : Agent)
    (profiles : btree ValidatedHarness) : checked ValidatedHarness :=
  match bt_get profiles (ag_profile agent) with
  | Some harness => Ok harness
  | None =>
      fail UnknownAgentProfile
        match role with
        | RoleStep => AtAgentProfileReference node_name
        | RoleFinalizer => AtFinalizerAgentProfileReference node_name
        end
  end.

Definition validate_recovery_handler (step_name : string) (agent_profiles : btree ValidatedHarness)
    (handler : RecoveryHandler) : checked ValidatedRecoveryHandler :=
  match handler with
  | RecoverCommand argv cwd => Ok (HandlerCommand argv cwd)
  | RecoverAgent profile prompt cwd =>
      match bt_get agent_profiles profile with
      | Some harness => Ok (HandlerAgent profile prompt cwd harness)
      | None => fail UnknownAgentProfile (AtRecoveryAgentProfileReference step_name)
      end
  end.

Definition validate_recovery (step_name : string) (recovery : option StepRecovery)
    (agent_profiles : btree ValidatedHarness) : checked (option ValidatedStepRecovery) :=
  match recovery with
  | None => Ok None
  | Some recovery =>
      let? handler :=
        match srec_handler recovery with
        | None => Ok None
        | Some handler =>
            let? handler := validate_recovery_handler step_name agent_profiles handler in Ok (Some handler)
        end in
      Ok (Some {| vr_retries := srec_retries recovery; vr_handler := handler |})
  end.

(** ** Values *)

Definition resolve_value_reference (reference : ValueReference) (document : WorkflowDocument)
    (required_inputs : btree WorkflowValueType) (location : ValidationLocation) (context_allowed : bool)
    : checked ResolvedValueReference :=
  match reference with
  | RefInput name =>
      match bt_get required_inputs name with
      | None => fail UnknownInput location
      | Some value_type => Ok {| rvr_source := SourceInput name; rvr_value_type := value_type |}
      end
  | RefOutput reference =>
      let? (role, _, output) := declared_output document reference location in
      let value_type := output_value_type output in
      Ok {| rvr_source := SourceOutput {| ros_node := {| node_id := or_node reference; node_role := role |};
                                          ros_output := or_output reference; ros_value_type := value_type |};
            rvr_value_type := value_type |}
  | RefFinalizationContext =>
      if context_allowed then Ok {| rvr_source := SourceFinalizationContext; rvr_value_type := TyJson |}
      else fail InvalidFinalizationContext location
  end.

Definition canonical_reference (source : ResolvedValueSource) : string :=
  match source with
  | SourceInput name => "inputs." ++ name
  | SourceOutput output => output_source_reference output
  | SourceFinalizationContext => "finalization.context"
  end.

Section resolve_condition.
Context (node_name : string) (role : WorkflowNodeRole) (document : WorkflowDocument)
  (required_inputs : btree WorkflowValueType).

Definition resolve_condition_reference (reference : ValueReference)
    : checked (string * ResolvedValueSource * ConditionValueKind) :=
  let location := condition_location node_name role in
  let? resolved :=
    resolve_value_reference reference document required_inputs location (bool_decide (role = RoleFinalizer)) in
  let? kind :=
    match rvr_value_type resolved with
    | TyText => Ok KindText
    | TyJson => Ok KindJson
    | TyAttachmentCollection | TyFile | TyGitBranch => fail InvalidConditionType location
    end in
  Ok (canonical_reference (rvr_source resolved), rvr_source resolved, kind).

Record ReferenceResolution := {
  rr_canonical : string;
  rr_source : ResolvedValueSource;
  rr_kind : ConditionValueKind;
  rr_pointer : option JsonPointer
}.

(** The first loop of [resolve_condition_equals], for one operand. *)
Definition resolve_equals_reference (operand : ConditionOperand) : checked (option ReferenceResolution) :=
  match operand with
  | CondLiteral _ => Ok None
  | CondReference reference pointer =>
      let location := condition_location node_name role in
      let? (canonical, source, kind) := resolve_condition_reference reference in
      match kind, pointer with
      | KindText, Some _ => fail InvalidConditionType location
      | _, None => Ok (Some {| rr_canonical := canonical; rr_source := source; rr_kind := kind; rr_pointer := None |})
      | _, Some pointer =>
          match json_pointer_parse pointer with
          | Some pointer =>
              Ok (Some {| rr_canonical := canonical; rr_source := source; rr_kind := kind;
                          rr_pointer := Some pointer |})
          | None => fail InvalidJsonPointer location
          end
      end
  end.

Definition equals_kind (left_reference right_reference : option ReferenceResolution) : checked ConditionValueKind :=
  match left_reference, right_reference with
  | None, None => fail InvalidCondition (condition_location node_name role)
  | Some l, Some r =>
      if decide (rr_kind l = rr_kind r) then Ok (rr_kind l)
      else fail InvalidConditionType (condition_location node_name role)
  | Some reference, None | None, Some reference => Ok (rr_kind reference)
  end.

Abbreviation Resolved T := (checked (T * btree ResolvedValueSource)).

(** The second loop, for one operand. *)
Definition resolve_equals_operand (kind : ConditionValueKind) (operand : ConditionOperand)
    (reference : option ReferenceResolution) (condition_values : btree ResolvedValueSource)
    : Resolved ResolvedOperand :=
  match operand with
  | CondReference _ _ =>
      match reference with
      | None => fail InvalidConditionReference (condition_location node_name role)
      | Some reference =>
          Ok (match rr_kind reference with
              | KindText => text_reference (rr_canonical reference)
              | KindJson => json_reference (rr_canonical reference) (rr_pointer reference)
              end,
              bt_insert condition_values (rr_canonical reference) (rr_source reference))
      end
  | CondLiteral value =>
      match kind with
      | KindText =>
          match value with
          | VString value => Ok (text_literal value, condition_values)
          | _ => fail InvalidConditionType (condition_location node_name role)
          end
      | KindJson => Ok (json_literal value, condition_values)
      end
  end.

Definition resolve_condition_equals (lhs rhs : ConditionOperand) (condition_values : btree ResolvedValueSource)
    : Resolved ResolvedPredicate :=
  let? left_reference := resolve_equals_reference lhs in
  let? right_reference := resolve_equals_reference rhs in
  let? kind := equals_kind left_reference right_reference in
  let? (lhs, condition_values) := resolve_equals_operand kind lhs left_reference condition_values in
  let? (rhs, condition_values) := resolve_equals_operand kind rhs right_reference condition_values in
  Ok (PEquals lhs rhs, condition_values).

Definition resolve_condition_exists (selector : ConditionSelector) (condition_values : btree ResolvedValueSource)
    : Resolved ResolvedPredicate :=
  let location := condition_location node_name role in
  let? (canonical, source, kind) := resolve_condition_reference (csel_reference selector) in
  match kind with
  | KindText => fail InvalidConditionType location
  | KindJson =>
      match json_pointer_parse (csel_pointer selector) with
      | None => fail InvalidJsonPointer location
      | Some pointer =>
          Ok (PExists {| rsel_canonical_ref := canonical; rsel_pointer := pointer |},
              bt_insert condition_values canonical source)
      end
  end.

Fixpoint resolve_condition_predicate (predicate : ConditionPredicate)
    (condition_values : btree ResolvedValueSource) : Resolved ResolvedPredicate :=
  let resolve_children :=
    (fix go (children : list ConditionPredicate) (condition_values : btree ResolvedValueSource)
        : Resolved (list ResolvedPredicate) :=
       match children with
       | [] => Ok ([], condition_values)
       | child :: children =>
           let? (child, condition_values) := resolve_condition_predicate child condition_values in
           let? (children, condition_values) := go children condition_values in
           Ok (child :: children, condition_values)
       end) in
  match predicate with
  | CAll children =>
      let? (children, condition_values) := resolve_children children condition_values in
      Ok (PAll children, condition_values)
  | CAny children =>
      let? (children, condition_values) := resolve_children children condition_values in
      Ok (PAny children, condition_values)
  | CNot child =>
      let? (child, condition_values) := resolve_condition_predicate child condition_values in
      Ok (PNot child, condition_values)
  | CEquals lhs rhs => resolve_condition_equals lhs rhs condition_values
  | CExists selector => resolve_condition_exists selector condition_values
  | CDisposition node is_ =>
      let? target_role := condition_target_role document node (condition_location node_name role) in
      Ok (PDisposition {| node_id := node; node_role := target_role |} is_, condition_values)
  end.
End resolve_condition.

(** ** Evidence *)

Definition output_reference_text (reference : OutputReference) : string :=
  "outputs." ++ or_node reference ++ "." ++ or_output reference.

(** The descriptor a reference leaves, when it is to an output and the
    descriptor can be made. *)
Definition reference_descriptor (make : string → result Prerequisite EvidenceError) (reference : ValueReference)
    : list Prerequisite :=
  match reference with
  | RefOutput output => result_to_list (make (output_reference_text output))
  | RefInput _ | RefFinalizationContext => []
  end.

Definition operand_descriptor (operand : ConditionOperand) : list Prerequisite :=
  match operand with
  | CondReference reference _ => reference_descriptor prerequisite_condition reference
  | CondLiteral _ => []
  end.

Fixpoint retain_predicate_descriptors (condition : ConditionPredicate) (descriptors : list Prerequisite)
    : list Prerequisite :=
  match condition with
  | CAll children | CAny children =>
      (fix go children descriptors :=
         match children with
         | [] => descriptors
         | child :: children => go children (retain_predicate_descriptors child descriptors)
         end) children descriptors
  | CNot child => retain_predicate_descriptors child descriptors
  | CEquals lhs rhs => (descriptors ++ operand_descriptor lhs ++ operand_descriptor rhs)%list
  | CExists selector => (descriptors ++ reference_descriptor prerequisite_condition (csel_reference selector))%list
  | CDisposition node _ => (descriptors ++ result_to_list (prerequisite_control node))%list
  end.

Definition retain_condition_descriptors (condition : option ConditionPredicate) (descriptors : list Prerequisite)
    : list Prerequisite :=
  match condition with
  | None => descriptors
  | Some condition => retain_predicate_descriptors condition descriptors
  end.

Definition message_descriptor (source : MessageSource) : list Prerequisite :=
  match source with
  | SourceReference reference => reference_descriptor prerequisite_body reference
  | SourceFile _ => []
  end.

Definition body_descriptors (body : NodeBody) : list Prerequisite :=
  match body with
  | BodyCommand _ inputs _ => bt_values inputs ≫= reference_descriptor prerequisite_body
  | BodyAgent _ agent => (am_text (ag_message agent) ++ am_attachments (ag_message agent))%list ≫= message_descriptor
  end.

Definition evidence_prerequisites (body : NodeBody) (direct : list ResolvedDirectPrerequisite)
    : checked (list Prerequisite) :=
  let descriptors :=
    List.filter rdp_control direct ≫= (λ p, result_to_list (prerequisite_control (rdp_producer p))) in
  let descriptors := retain_condition_descriptors (cn_condition (common_node body)) descriptors in
  let descriptors := sort_dedup (descriptors ++ body_descriptors body)%list in
  if decide (MAXIMUM_PREREQUISITES < length descriptors) then fail TooManyPrerequisites AtWorkflowGraph
  else Ok descriptors.

(** ** Nodes *)

Definition validate_common (common : CommonNode) (condition : option ResolvedPredicate)
    (condition_values : btree ResolvedValueSource) (prerequisites : list ResolvedDirectPrerequisite)
    (evidence_prerequisites : list Prerequisite) : ValidatedCommonStep :=
  {| vc_failure_policy := cn_failure_policy common;
     vc_condition := condition;
     vc_condition_values := condition_values;
     vc_prerequisites := prerequisites;
     vc_evidence_prerequisites := evidence_prerequisites;
     vc_cwd := cn_cwd common;
     vc_outputs :=
       bt_collect ((λ '(name, output),
         (name, {| vo_definition := output; vo_value_type := output_value_type output |})) <$> cn_outputs common) |}.

Section validate_body.
Context (node_name : string) (role : WorkflowNodeRole) (document : WorkflowDocument)
  (required_inputs : btree WorkflowValueType).

Definition validate_command_inputs (inputs : btree ValueReference) : checked (btree ResolvedValueReference) :=
  let? inputs :=
    try_map (λ '(input_name, reference),
      let? input := resolve_value_reference reference document required_inputs
                      (node_input_location node_name role input_name) (bool_decide (role = RoleFinalizer)) in
      Ok (input_name, input)) inputs in
  Ok (bt_collect inputs).

Inductive MessageDestination := DestinationText | DestinationAttachment.

Definition message_compatible (destination : MessageDestination) (value_type : WorkflowValueType) : bool :=
  match destination, value_type with
  | DestinationText, TyText => true
  | DestinationAttachment, (TyAttachmentCollection | TyJson | TyFile) => true
  | _, _ => false
  end.

Definition validate_message_source (index : nat) (source : MessageSource) (destination : MessageDestination)
    : checked ValidatedMessageSource :=
  let attachment := match destination with DestinationAttachment => true | DestinationText => false end in
  let location := node_message_location node_name role index attachment in
  match source with
  | SourceFile path => Ok (MessageFile path)
  | SourceReference reference =>
      let? value := resolve_value_reference reference document required_inputs location
                      (bool_decide (role = RoleFinalizer) && attachment) in
      if message_compatible destination (rvr_value_type value)
      then Ok (MessageReference (rvr_source value) (rvr_value_type value))
      else fail MessageTypeMismatch location
  end.

Definition validate_agent (agent : Agent) (harness : ValidatedHarness) : checked ValidatedAgent :=
  let? text := try_map (λ '(index, source), validate_message_source index source DestinationText)
                 (enumerate (am_text (ag_message agent))) in
  let? attachments := try_map (λ '(index, source), validate_message_source index source DestinationAttachment)
                        (enumerate (am_attachments (ag_message agent))) in
  Ok {| va_profile := ag_profile agent; va_system_prompt := ag_system_prompt agent;
        va_message := {| vm_text := text; vm_attachments := attachments |}; va_harness := harness |}.

Definition resolve_condition (condition : option ConditionPredicate)
    : checked (option ResolvedPredicate * btree ResolvedValueSource) :=
  match condition with
  | None => Ok (None, [])
  | Some condition =>
      let? (condition, condition_values) :=
        resolve_condition_predicate node_name role document required_inputs condition [] in
      Ok (Some condition, condition_values)
  end.

Definition validate_body (body : NodeBody) (prerequisites : list ResolvedDirectPrerequisite)
    (agent_profiles : btree ValidatedHarness) : checked ValidatedStep :=
  let? (condition, condition_values) := resolve_condition (cn_condition (common_node body)) in
  let? evidence := evidence_prerequisites body prerequisites in
  match body with
  | BodyCommand common inputs argv =>
      let? inputs := validate_command_inputs inputs in
      Ok (VCommand (validate_common common condition condition_values prerequisites evidence) inputs argv)
  | BodyAgent common agent =>
      let? harness := resolve_agent_profile node_name role agent agent_profiles in
      let? agent := validate_agent agent harness in
      Ok (VAgent (validate_common common condition condition_values prerequisites evidence) agent)
  end.
End validate_body.

(** ** Exports *)

Definition invalid_export {T} (name : string) : checked T := fail InvalidExportTarget (AtExport name).

Definition resolve_export (name : string) (reference : OutputReference) (document : WorkflowDocument)
    : checked ResolvedOutputSource :=
  match node_body document (or_node reference) with
  | None => invalid_export name
  | Some (role, body) =>
      match bt_get (cn_outputs (common_node body)) (or_output reference) with
      | None => invalid_export name
      | Some output =>
          if decide (cn_failure_policy (common_node body) = Advisory)
          then fail AdvisoryExportTarget (AtExport name)
          else if bool_decide (role = RoleFinalizer)
                  && negb (bool_decide (TriggerSucceeded ∈ finalizer_when document (or_node reference)))
          then fail FinalizerExportTrigger (AtExport name)
          else Ok {| ros_node := {| node_id := or_node reference; node_role := role |};
                     ros_output := or_output reference; ros_value_type := output_value_type output |}
      end
  end.

(** ** Workflows *)

Definition input_value_type (declaration : InputDeclaration) : WorkflowValueType :=
  match declaration with
  | DeclText => TyText
  | DeclJson _ => TyJson
  | DeclFile _ => TyFile
  | DeclAttachments => TyAttachmentCollection
  end.

Definition required_inputs (document : WorkflowDocument) : btree WorkflowValueType :=
  bt_collect ((λ '(name, declaration), (name, input_value_type declaration)) <$> doc_inputs document).

Definition input_json_schema_paths (document : WorkflowDocument) : btree string :=
  bt_collect (omap (λ '(name, declaration),
    match declaration with DeclJson (Some schema) => Some (name, schema) | _ => None end) (doc_inputs document)).

Definition input_file_media_types (document : WorkflowDocument) : btree string :=
  bt_collect (omap (λ '(name, declaration),
    match declaration with DeclFile (Some media_type) => Some (name, media_type) | _ => None end)
    (doc_inputs document)).

(** [graph.direct_prerequisites[name]]. *)
Definition graph_prerequisites (graph : ValidatedGraph) (name : string) : list ResolvedDirectPrerequisite :=
  default [] (bt_get (vg_direct_prerequisites graph) name).

Definition validate_step (document : WorkflowDocument) (agent_profiles : btree ValidatedHarness)
    (graph : ValidatedGraph) (acc : btree ValidatedStep * btree (option ValidatedStepRecovery))
    (entry : string * StepDefinition) : checked (btree ValidatedStep * btree (option ValidatedStepRecovery)) :=
  let '(step_name, step) := entry in
  let? body := validate_body step_name RoleStep document (required_inputs document) (sd_body step)
                 (graph_prerequisites graph step_name) agent_profiles in
  let? recovery := validate_recovery step_name (sd_recovery step) agent_profiles in
  Ok (bt_insert acc.1 step_name body, bt_insert acc.2 step_name recovery).

Definition validate_finalizer (document : WorkflowDocument) (agent_profiles : btree ValidatedHarness)
    (graph : ValidatedGraph) (acc : btree ValidatedFinalizer) (entry : string * FinalizerDefinition)
    : checked (btree ValidatedFinalizer) :=
  let '(finalizer_name, finalizer) := entry in
  let? body := validate_body finalizer_name RoleFinalizer document (required_inputs document) (fd_body finalizer)
                 (graph_prerequisites graph finalizer_name) agent_profiles in
  Ok (bt_insert acc finalizer_name {| vf_body := body; vf_when := fd_when finalizer |}).

Definition resolve_exports (document : WorkflowDocument) : checked (btree ResolvedOutputSource) :=
  let? exports :=
    try_map (λ '(name, reference), let? source := resolve_export name reference document in Ok (name, source))
      (doc_exports document) in
  Ok (bt_collect exports).

Definition validate `{!HarnessDecoder} (document : WorkflowDocument) : checked ValidatedWorkflow :=
  let? _ := validate_node_namespace document in
  let? _ := validate_workflow_condition_bounds document in
  let? agent_profiles := validate_agent_profiles document in
  let? step_graph := validate_step_graph document in
  let? finalizer_graph := validate_finalizer_graph document in
  let? _ := validate_output_rules document in
  let? (steps, recoveries) := try_fold (validate_step document agent_profiles step_graph) (doc_steps document) ([], []) in
  let? finalizers := try_fold (validate_finalizer document agent_profiles finalizer_graph) (doc_finalizers document) [] in
  let? exports := resolve_exports document in
  Ok {| vw_schema_version := doc_schema_version document;
        vw_description := doc_description document;
        vw_steps := steps;
        vw_recoveries := recoveries;
        vw_source_order := doc_step_order document;
        vw_presentation_order := vg_presentation_order step_graph;
        vw_finalizers := finalizers;
        vw_finalizer_source_order := doc_finalizer_order document;
        vw_finalizer_presentation_order := vg_presentation_order finalizer_graph;
        vw_exports := exports;
        vw_required_inputs := required_inputs document;
        vw_input_json_schema_paths := input_json_schema_paths document;
        vw_input_file_media_types := input_file_media_types document |}.
