(* ===== verification/Graph.v ===== *)
(** * The order of presentation

    The loop of [validate_graph] takes, as long as there is one, the node that
    comes first in the source among those whose producers have all been
    taken.  [greedy] states that as a step relation; the loop is shown to
    reach its end, within the fuel, so it accepts a graph exactly when the
    graph has no cycle. *)

From stdpp Require Import relations.
From S2P Require Import Prelude Text Nodes Evidence Condition Document Validated Validation.

Local Open Scope list_scope.

(** ** The ready set *)

Definition ready_lt (a b : nat * string) : Prop := ready_cmp a b = Lt.

Lemma ready_lt_lex a b :
  ready_lt a b ↔ a.1 < b.1 ∨ a.1 = b.1 ∧ String.compare a.2 b.2 = Lt.
Proof.
  unfold ready_lt, ready_cmp. destruct (Nat.compare_spec a.1 b.1); naive_solver lia.
Qed.

#[export] Instance ready_lt_trans : Transitive ready_lt.
Proof.
  intros a b c. rewrite !ready_lt_lex. intros [?|[? ?]] [?|[? ?]]; try (left; lia).
  right. split; [lia|]. by eapply string_compare_lt_trans.
Qed.

Lemma ready_lt_irrefl a : ¬ ready_lt a a.
Proof. rewrite ready_lt_lex, string_compare_refl. intros [?|[? ?]]; [lia|done]. Qed.

Lemma ready_cmp_eq a b : ready_cmp a b = Eq → a = b.
Proof.
  unfold ready_cmp. destruct (Nat.compare_spec a.1 b.1) as [E| |]; [|done|done].
  intros Hs%String.compare_eq_iff. destruct a, b; simpl in *; congruence.
Qed.

Lemma ready_cmp_gt a b : ready_cmp a b = Gt → ready_lt b a.
Proof.
  unfold ready_lt, ready_cmp. rewrite (Nat.compare_antisym a.1 b.1).
  destruct (Nat.compare a.1 b.1); simpl; try done.
  rewrite (String.compare_antisym b.2 a.2). by intros ->.
Qed.

Lemma elem_of_ready_insert ready e x : x ∈ ready_insert ready e ↔ x = e ∨ x ∈ ready.
Proof.
  induction ready as [|y ready IH]; simpl; [set_solver|].
  destruct (ready_cmp e y) eqn:E; [apply ready_cmp_eq in E as ->| |]; set_solver.
Qed.

Lemma ready_insert_sorted ready e : StronglySorted ready_lt ready → StronglySorted ready_lt (ready_insert ready e).
Proof.
  induction ready as [|y ready IH]; simpl; intros Hs; [repeat constructor|].
  pose proof Hs as [Hs' Hy]%StronglySorted_inv.
  destruct (ready_cmp e y) eqn:E; [done| |].
  - constructor; [done|]. constructor; [done|]. eapply Forall_impl; [exact Hy|]. intros x ?. by transitivity y.
  - constructor; [by apply IH|]. apply Forall_forall. intros x [->|Hx]%elem_of_ready_insert.
    + by apply ready_cmp_gt.
    + by eapply Forall_forall in Hy.
Qed.

Lemma foldl_ready_insert l ready :
  StronglySorted ready_lt ready →
  StronglySorted ready_lt (foldl ready_insert ready l) ∧ ∀ x, x ∈ foldl ready_insert ready l ↔ x ∈ l ∨ x ∈ ready.
Proof.
  revert ready. induction l as [|e l IH]; intros ready Hs; simpl; [set_solver|].
  destruct (IH (ready_insert ready e)) as [? Hin]; [by apply ready_insert_sorted|].
  split; [done|]. intros x. rewrite Hin, elem_of_ready_insert. set_solver.
Qed.

(** The first of a ready set is its least entry. *)
Lemma ready_head_least i n ready j m :
  StronglySorted ready_lt ((i, n) :: ready) → (j, m) ∈ (i, n) :: ready → i <= j.
Proof.
  intros [_ Hall]%StronglySorted_inv [?|Hin]%elem_of_cons; [simplify_eq; lia|].
  eapply Forall_forall in Hin; [|exact Hall]. apply ready_lt_lex in Hin. simpl in Hin. lia.
Qed.

Lemma ready_tail i n ready x :
  StronglySorted ready_lt ((i, n) :: ready) → x ∈ ready ↔ x ∈ (i, n) :: ready ∧ x ≠ (i, n).
Proof.
  intros [_ Hall]%StronglySorted_inv. rewrite elem_of_cons. split; [|naive_solver].
  intros Hin. split; [by right|]. intros ->. eapply Forall_forall in Hin; [|exact Hall]. by eapply ready_lt_irrefl.
Qed.

(** ** Source positions *)

Lemma enumerate_keys (l : list string) : bt_keys ((λ '(index, node), (node, index)) <$> enumerate l) = l.
Proof.
  unfold bt_keys, enumerate. rewrite !fmap_imap. induction l as [|x l IH] using rev_ind; [done|].
  rewrite imap_app, IH. done.
Qed.

Lemma source_indices_Some source_order n i :
  NoDup source_order → bt_get (source_indices source_order) n = Some i ↔ source_order !! i = Some n.
Proof.
  intros Hnd. unfold source_indices. rewrite bt_get_collect by by rewrite enumerate_keys.
  split.
  - intros ((j & m) & ? & Hin)%bt_get_elem_of%list_elem_of_fmap. simplify_eq.
    apply elem_of_lookup_imap_1 in Hin as (j' & m' & ? & ?). by simplify_eq.
  - intros Hi. apply bt_get_NoDup; [by rewrite enumerate_keys|].
    apply list_elem_of_fmap. exists (i, n). split; [done|]. apply elem_of_lookup_imap_2. eauto.
Qed.

(** ** The tables of the loop *)

Abbreviation producers_of ps := (rdp_producer <$> ps).

(** The producers of a node of a graph. *)
Definition producers (graph : btree (list ResolvedDirectPrerequisite)) (n : string) : list string :=
  producers_of (default [] (bt_get graph n)).

Definition dependents_of (dependents : btree (list string)) (n : string) : list string :=
  default [] (bt_get dependents n).

Lemma dependents_of_insert dependents p ds x :
  dependents_of (bt_insert dependents p ds) x = if decide (x = p) then ds else dependents_of dependents x.
Proof.
  unfold dependents_of. case_decide as E; [subst; by rewrite bt_get_insert_eq|by rewrite bt_get_insert_ne].
Qed.

Lemma foldl_push_dependent n ps dependents x :
  NoDup (producers_of ps) →
  dependents_of (foldl (push_dependent n) dependents ps) x
  = (dependents_of dependents x ++ if decide (x ∈ producers_of ps) then [n] else [])%list.
Proof.
  revert dependents. induction ps as [|p ps IH]; intros dependents Hnd; simpl.
  { by rewrite app_nil_r. }
  rewrite fmap_cons in *. apply NoDup_cons in Hnd as [Hnin Hnd]. rewrite IH by done.
  unfold push_dependent. rewrite dependents_of_insert. fold (dependents_of dependents (rdp_producer p)).
  destruct (decide (x = rdp_producer p)) as [->|Hne].
  - rewrite decide_False by done. rewrite decide_True by by left. by rewrite app_nil_r.
  - f_equal. apply decide_ext. set_solver.
Qed.

Record counted (graph : btree (list ResolvedDirectPrerequisite)) (dependents : btree (list string))
    (remaining : btree nat) : Prop := {
  counted_dependents x d : d ∈ dependents_of dependents x ↔ x ∈ producers graph d;
  counted_NoDup x : NoDup (dependents_of dependents x);
  counted_remaining n : bt_get remaining n = length <$> bt_get graph n;
  counted_wf : bt_wf remaining
}.

Definition producers_distinct (graph : btree (list ResolvedDirectPrerequisite)) : Prop :=
  ∀ n ps, (n, ps) ∈ graph → NoDup (producers_of ps).

Lemma foldl_count_node graph :
  NoDup (bt_keys graph) → producers_distinct graph →
  counted graph (foldl count_node ([], []) graph).1 (foldl count_node ([], []) graph).2.
Proof.
  induction graph as [|[n ps] graph IH] using rev_ind; intros Hnd Hps.
  { split; [|constructor|done|constructor]. intros x d. unfold dependents_of, producers. simpl. set_solver. }
  unfold bt_keys in Hnd. rewrite fmap_app in Hnd. apply NoDup_app in Hnd as (Hnd & Hdis & _).
  destruct IH as [Hd Hn Hr Hw]; [done|intros ???; eapply Hps; apply elem_of_app; by left|].
  assert (Hnew : bt_get graph n = None).
  { apply eq_None_not_Some. rewrite bt_get_is_Some. intros Hin. apply (Hdis n Hin). simpl. by left. }
  assert (Hpsn : NoDup (producers_of ps)) by (eapply Hps; apply elem_of_app; right; by left).
  rewrite foldl_app. simpl. destruct (foldl count_node ([], []) graph) as [dependents remaining]. simpl in *.
  assert (Hprod : ∀ d, producers (graph ++ [(n, ps)]) d = if decide (d = n) then producers_of ps else producers graph d).
  { intros d. unfold producers. rewrite bt_get_app. simpl. case_decide as E; [subst; by rewrite Hnew|].
    by destruct (bt_get graph d). }
  assert (Hold : ∀ x, n ∉ dependents_of dependents x).
  { intros x Hin%Hd. unfold producers in Hin. rewrite Hnew in Hin. set_solver. }
  split.
  - intros x d. rewrite foldl_push_dependent, elem_of_app, Hd, Hprod by done.
    case_decide as Hx; case_decide as Hdn; subst; [set_solver| |set_solver|set_solver].
    + rewrite list_elem_of_singleton. naive_solver.
  - intros x. rewrite foldl_push_dependent by done. specialize (Hn x). specialize (Hold x).
    case_decide; [|by rewrite app_nil_r]. apply NoDup_app. split; [done|]. split; [set_solver|apply NoDup_singleton].
  - intros d. rewrite bt_get_app. simpl. destruct (decide (d = n)) as [->|Hne].
    + by rewrite bt_get_insert_eq, Hnew.
    + rewrite bt_get_insert_ne, Hr by done. by destruct (bt_get graph d).
  - by apply bt_wf_insert.
Qed.

Lemma foldl_release_dependent indices ds ready remaining :
  NoDup ds → StronglySorted ready_lt ready →
  let acc := foldl (release_dependent indices) (ready, remaining) ds in
  StronglySorted ready_lt acc.1
  ∧ (∀ n, bt_get acc.2 n = (if decide (n ∈ ds) then pred else id) <$> bt_get remaining n)
  ∧ (∀ i n, (i, n) ∈ acc.1 ↔ (i, n) ∈ ready
       ∨ n ∈ ds ∧ pred <$> bt_get remaining n = Some 0 ∧ bt_get indices n = Some i).
Proof.
  induction ds as [|d ds IH] using rev_ind; intros Hnd Hs; cbv zeta.
  { split_and!; [done| |set_solver]. intros n. by rewrite option_fmap_id. }
  apply NoDup_app in Hnd as (Hnd & Hdis & _). assert (Hd : d ∉ ds) by set_solver.
  destruct (IH Hnd Hs) as (Hs' & Hr & Hin). rewrite foldl_app. simpl.
  destruct (foldl (release_dependent indices) (ready, remaining) ds) as [ready' remaining'] eqn:E. simpl in *.
  unfold release_dependent. simpl. rewrite Hr, decide_False, option_fmap_id by done.
  destruct (bt_get remaining d) as [count|] eqn:Hc; simpl.
  - split_and!.
    + case_decide; [|done]. destruct (bt_get indices d); [by apply ready_insert_sorted|done].
    + intros n. destruct (decide (n = d)) as [->|Hne].
      * rewrite bt_get_insert_eq, Hc, decide_True by set_solver. done.
      * rewrite bt_get_insert_ne, Hr by done. f_equal. apply decide_ext. set_solver.
    + intros i n. destruct (decide (pred count = 0)) as [Hz|Hz].
      * destruct (bt_get indices d) as [j|] eqn:Hj.
        -- rewrite elem_of_ready_insert, Hin, elem_of_app, list_elem_of_singleton. split; [|naive_solver].
           intros [?|?]; [simplify_eq; right; rewrite Hc; simpl; naive_solver congruence|naive_solver].
        -- rewrite Hin, elem_of_app, list_elem_of_singleton. naive_solver.
      * rewrite Hin, elem_of_app, list_elem_of_singleton. split; [naive_solver|].
        intros [?|([?| ->] & Hp & ?)]; [naive_solver..|]. rewrite Hc in Hp. simpl in Hp. congruence.
  - split_and!; [done| |].
    + intros n. rewrite Hr. destruct (decide (n = d)) as [->|Hne]; [by rewrite Hc|].
      f_equal. apply decide_ext. set_solver.
    + intros i n. rewrite Hin, elem_of_app, list_elem_of_singleton. split; [naive_solver|].
      intros [?|([?| ->] & Hp & ?)]; [naive_solver..|]. by rewrite Hc in Hp.
Qed.

(** ** The specification of the loop *)

Section loop.
Context (graph : btree (list ResolvedDirectPrerequisite)) (indices : btree nat).

(** A node that can be taken next. *)
Definition available (order : list string) (n : string) : Prop :=
  n ∈ bt_keys graph ∧ n ∉ order ∧ producers graph n ⊆ order.

(** Orders built by always taking the available node that comes first in the
    source. *)
Inductive greedy : list string → Prop :=
| greedy_nil : greedy []
| greedy_snoc order n i :
    greedy order → available order n → bt_get indices n = Some i →
    (∀ m j, available order m → bt_get indices m = Some j → i <= j) →
    greedy (order ++ [n]).

Lemma greedy_NoDup order : greedy order → NoDup order.
Proof.
  induction 1 as [|order n i _ IH [_ [Hn _]] _ _]; [constructor|].
  apply NoDup_app. split; [done|]. split; [set_solver|apply NoDup_singleton].
Qed.

Lemma greedy_keys order : greedy order → order ⊆ bt_keys graph.
Proof. induction 1 as [|order n i _ IH [? _] _ _]; set_solver. Qed.

(** Every node comes after its producers. *)
Lemma greedy_topological order k n : greedy order → order !! k = Some n → producers graph n ⊆ take k order.
Proof.
  induction 1 as [|order m i _ IH [_ [_ Hm]] _ _]; [done|]. intros [Hk|[Hlen Hk]]%lookup_app_Some.
  - rewrite take_app_le by (apply lookup_lt_Some in Hk; lia). by apply IH.
  - apply list_lookup_singleton_Some in Hk as [Hz ->]. rewrite take_app_length' by lia. done.
Qed.

Record loop_inv (order : list string) (ready : list (nat * string)) (remaining : btree nat) : Prop := {
  li_greedy : greedy order;
  li_sorted : StronglySorted ready_lt ready;
  li_ready i n : (i, n) ∈ ready ↔ available order n ∧ bt_get indices n = Some i;
  li_remaining n : bt_get remaining n = length ∘ filter (.∉ order) ∘ fmap rdp_producer <$> bt_get graph n
}.

Context (Hkeys : NoDup (bt_keys graph)) (Hdistinct : producers_distinct graph).

Lemma producers_NoDup n : NoDup (producers graph n).
Proof.
  unfold producers. destruct (bt_get graph n) as [ps|] eqn:E; simpl; [|constructor].
  apply bt_get_elem_of in E. by eapply Hdistinct.
Qed.

Lemma filter_all_nil (l order : list string) : filter (.∉ order) l = [] ↔ l ⊆ order.
Proof.
  split.
  - intros Hf x Hx. destruct (decide (x ∈ order)) as [?|Hn]; [done|].
    assert (x ∈ filter (.∉ order) l) as Hin by (by apply list_elem_of_filter). rewrite Hf in Hin. set_solver.
  - intros Hl. destruct (filter (.∉ order) l) as [|x f] eqn:E; [done|].
    assert (x ∈ filter (.∉ order) l) as Hin by (rewrite E; by left). apply list_elem_of_filter in Hin. set_solver.
Qed.

(** Taking a node lowers by one the count of exactly its dependents. *)
Lemma filter_take_producer (l order : list string) x :
  NoDup l → x ∉ order →
  length (filter (.∉ order ++ [x]) l)
  = (if decide (x ∈ l) then pred else id) (length (filter (.∉ order) l)).
Proof.
  intros Hnd Hx. induction Hnd as [|y l Hy Hnd IH]; [done|].
  rewrite !filter_cons. destruct (decide (y = x)) as [->|Hne].
  - rewrite (decide_False (P := x ∉ order ++ [x])) by set_solver.
    rewrite (decide_True (P := x ∉ order)) by done. rewrite (decide_True (P := x ∈ x :: l)) by by left.
    rewrite IH, decide_False by done. done.
  - destruct (decide (y ∈ order)) as [Ho|Ho].
    + rewrite !(decide_False (P := y ∉ _)) by set_solver. rewrite IH. destruct (decide (x ∈ l)), (decide (x ∈ y :: l)); set_solver.
    + rewrite !(decide_True (P := y ∉ _)) by set_solver. simpl. rewrite IH.
      destruct (decide (x ∈ l)) as [Hl|Hl].
      * rewrite decide_True by by right.
        assert (x ∈ filter (.∉ order) l) as Hin by by apply list_elem_of_filter.
        destruct (filter (.∉ order) l); [set_solver|done].
      * rewrite decide_False by set_solver. done.
Qed.

Lemma dependent_not_taken order n m :
  greedy order → available order n → n ∈ producers graph m → m ≠ n ∧ m ∉ order.
Proof.
  intros Hg (_ & Hn & Hp) Hm. split; [intros ->; set_solver|].
  intros [k Hk]%list_elem_of_lookup. pose proof (greedy_topological order k m Hg Hk n Hm) as Hin.
  apply Hn. by apply elem_of_take in Hin as (? & ?%list_elem_of_lookup_2 & _).
Qed.

(** One turn of the loop keeps the invariant. *)
Lemma loop_inv_step dependents order ready remaining remaining0 i n :
  counted graph dependents remaining0 →
  loop_inv order ((i, n) :: ready) remaining →
  let acc := foldl (release_dependent indices) (ready, remaining) (dependents_of dependents n) in
  loop_inv (order ++ [n]) acc.1 acc.2.
Proof.
  intros [Hd Hdn _ _] [Hg Hs Hready Hrem]. cbv zeta.
  assert (available order n ∧ bt_get indices n = Some i) as [Hav Hi] by (apply Hready; by left).
  destruct (foldl_release_dependent indices (dependents_of dependents n) ready remaining (Hdn n)) as (Hs' & Hr' & Hin');
    [by apply StronglySorted_inv in Hs as [? _]|].
  destruct (foldl _ _ _) as [ready' remaining']. simpl in *.
  assert (Hrem' : ∀ m, bt_get remaining' m
    = length ∘ filter (.∉ order ++ [n]) ∘ fmap rdp_producer <$> bt_get graph m).
  { intros m. rewrite Hr', Hrem. destruct (bt_get graph m) as [ps|] eqn:Hm; [|done]. simpl. f_equal.
    rewrite filter_take_producer; [|by apply bt_get_elem_of in Hm; eapply Hdistinct|by apply Hav].
    rewrite (decide_ext (n ∈ producers_of ps) (m ∈ dependents_of dependents n)); [done|].
    rewrite Hd. unfold producers. by rewrite Hm. }
  assert (Hzero : ∀ m, m ∈ bt_keys graph → bt_get remaining' m = Some 0 ↔ producers graph m ⊆ order ++ [n]).
  { intros m [ps Hm]%bt_get_is_Some. rewrite Hrem', Hm. unfold producers. rewrite Hm. simpl.
    rewrite <-filter_all_nil, <-length_zero_iff_nil. naive_solver. }
  split; [econstructor; eauto| done | | done].
  - intros m j Hm Hj. eapply (ready_head_least i n ready j m); [done|]. by apply Hready.
  - intros j m. rewrite Hin', (ready_tail i n ready) by done. rewrite Hready. split.
    + intros [[[Hm Hj] Hne]|(Hm & Hp & Hj)].
      * assert (m ≠ n) by (intros ->; congruence). destruct Hm as (? & ? & ?). split; [split_and!; set_solver|done].
      * assert (Hk : m ∈ bt_keys graph).
        { apply Hd in Hm. unfold producers in Hm. apply bt_get_is_Some. destruct (bt_get graph m); [eauto|set_solver]. }
        split; [|done]. destruct (dependent_not_taken order n m) as [? ?]; [done..|by apply Hd|].
        split_and!; [done|set_solver|]. apply Hzero; [done|]. rewrite Hr', decide_True by done. done.
    + intros [(Hm & Hnm & Hp) Hj]. assert (m ≠ n ∧ m ∉ order) as [? ?] by set_solver.
      destruct (decide (m ∈ dependents_of dependents n)) as [Hmd|Hmd].
      * right. split; [done|]. split; [|done]. apply Hzero in Hp; [|done]. by rewrite Hr', decide_True in Hp.
      * left. split; [|naive_solver]. split; [|done]. split_and!; [done..|].
        rewrite Hd in Hmd. set_solver.
Qed.

Lemma loop_inv_init dependents remaining :
  counted graph dependents remaining → loop_inv [] (initially_ready indices remaining) remaining.
Proof.
  intros [_ _ Hr Hw]. unfold initially_ready.
  destruct (foldl_ready_insert (omap (λ '(name, count),
    if decide (count = 0) then (λ index, (index, name)) <$> bt_get indices name else None) remaining) [])
    as [Hs Hin]; [constructor|].
  split; [constructor|done| |].
  - intros i n. rewrite Hin, list_elem_of_omap. unfold available, producers. rewrite <-bt_get_is_Some. split.
    + intros [([m c] & Hm & Hc)|?]; [|set_solver]. apply bt_get_NoDup in Hm; [|by apply bt_wf_NoDup].
      destruct (decide (c = 0)) as [->|]; [|done]. apply fmap_Some in Hc as (j & Hj & ?). simplify_eq.
      rewrite Hr in Hm. apply fmap_Some in Hm as (ps & -> & Hps). symmetry in Hps. apply length_zero_iff_nil in Hps as ->.
      split; [split_and!; [eauto|set_solver..]|done].
    + intros [([ps Hps] & _ & Hsub) Hi]. left. exists (n, 0). rewrite decide_True, Hi by done. split; [|done].
      apply bt_get_elem_of. rewrite Hr, Hps in *. simpl in *. destruct ps; [done|set_solver].
  - intros n. rewrite Hr. destruct (bt_get graph n) as [ps|]; [|done]. simpl. f_equal. symmetry.
    rewrite <-(length_fmap rdp_producer ps). f_equal. induction (producers_of ps) as [|p l IH]; [done|].
    rewrite filter_cons, decide_True by set_solver. by rewrite IH.
Qed.

(** The loop reaches a greedy order that nothing can extend. *)
Lemma graph_loop_greedy dependents remaining0 fuel order ready remaining :
  counted graph dependents remaining0 → loop_inv order ready remaining →
  (∀ n, n ∈ bt_keys graph → is_Some (bt_get indices n)) →
  length (bt_keys graph) < fuel + length order →
  let result := graph_loop fuel indices dependents ready remaining order in
  greedy result ∧ ∀ n, ¬ available result n.
Proof.
  intros Hc Hinv Hidx. revert order ready remaining Hinv.
  induction fuel as [|fuel IH]; intros order ready remaining Hinv Hf; simpl.
  - pose proof (li_greedy _ _ _ Hinv) as Hg.
    assert (length order <= length (bt_keys graph)); [|lia].
    apply submseteq_length, NoDup_submseteq; [by apply greedy_NoDup|by apply greedy_keys].
  - destruct ready as [|[i n] ready].
    + split; [apply Hinv|]. intros n Hn. destruct (Hidx n) as [j Hj]; [apply Hn|].
      assert ((j, n) ∈ @nil (nat * string)) as Hin by (by apply (li_ready _ _ _ Hinv)). set_solver.
    + pose proof (loop_inv_step dependents order ready remaining remaining0 i n Hc Hinv) as Hstep.
      unfold dependents_of in Hstep. destruct (foldl _ _ _) as [ready' remaining']. apply IH; [done|].
      rewrite length_app. simpl. lia.
Qed.
End loop.

(** ** Acceptance *)

Definition depends (graph : btree (list ResolvedDirectPrerequisite)) (n p : string) : Prop := p ∈ producers graph n.

(** Producers are nodes of the graph, and no node depends on itself through
    others. *)
Definition acyclic (graph : btree (list ResolvedDirectPrerequisite)) : Prop :=
  (∀ n p, depends graph n p → p ∈ bt_keys graph) ∧ ∀ n, ¬ tc (depends graph) n n.

(** What validation passes to [validate_graph]. *)
Record graph_input (graph : btree (list ResolvedDirectPrerequisite)) (source_order : list string) : Prop := {
  gi_keys : NoDup (bt_keys graph);
  gi_distinct : producers_distinct graph;
  gi_source : NoDup source_order;
  gi_covered : bt_keys graph ⊆ source_order
}.

Lemma greedy_complete graph indices order :
  NoDup (bt_keys graph) → greedy graph indices order → length order = length graph → order ≡ₚ bt_keys graph.
Proof.
  intros Hk Hg Hlen. apply submseteq_length_Permutation.
  - apply NoDup_submseteq; [by eapply greedy_NoDup|by eapply greedy_keys].
  - rewrite Hlen. unfold bt_keys. by rewrite length_fmap.
Qed.

Lemma producers_key graph n p : p ∈ producers graph n → n ∈ bt_keys graph.
Proof. unfold producers. rewrite <-bt_get_is_Some. destruct (bt_get graph n); [eauto|set_solver]. Qed.

(** A complete greedy order rules out cycles: a dependency goes backwards. *)
Lemma greedy_acyclic graph indices order :
  NoDup (bt_keys graph) → greedy graph indices order → length order = length graph → acyclic graph.
Proof.
  intros Hk Hg Hlen. pose proof (greedy_complete _ _ _ Hk Hg Hlen) as Hperm.
  assert (Hback : ∀ n p k, depends graph n p → order !! k = Some n → ∃ j, j < k ∧ order !! j = Some p).
  { intros n p k Hd Hn. pose proof (greedy_topological _ _ _ _ _ Hg Hn p Hd) as (j & Hj & Hlt)%elem_of_take. eauto. }
  assert (Htc : ∀ n p, tc (depends graph) n p → ∀ k, order !! k = Some n → ∃ j, j < k ∧ order !! j = Some p).
  { induction 1 as [n p Hd|n m p Hd _ IH]; intros k Hn; [eauto|].
    destruct (Hback n m k) as (j & ? & Hj); [done..|]. destruct (IH j Hj) as (j' & ? & ?). exists j'. split; [lia|done]. }
  assert (Hin : ∀ n p, depends graph n p → ∃ k, order !! k = Some n).
  { intros n p Hd. apply list_elem_of_lookup. rewrite Hperm. by eapply producers_key. }
  split.
  - intros n p Hd. destruct (Hin n p Hd) as [k Hn]. destruct (Hback n p k) as (j & _ & Hj); [done..|].
    rewrite <-Hperm. by eapply list_elem_of_lookup_2.
  - intros n Hc. assert (∃ k, order !! k = Some n) as [k Hn] by (inversion Hc; eauto).
    destruct (Htc n n Hc k Hn) as (j & Hlt & Hj).
    pose proof (NoDup_lookup _ _ _ _ (greedy_NoDup _ _ _ Hg) Hn Hj). lia.
Qed.

(** Without cycles, an order that nothing extends has every node. *)
Lemma maximal_complete graph indices order :
  acyclic graph → greedy graph indices order → (∀ n, ¬ available graph order n) →
  NoDup (bt_keys graph) → length order = length graph.
Proof.
  intros [Hkeys Hirr] Hg Hmax Hnd.
  assert (Hsn : ∀ n, sn (depends graph) n).
  { intros n. apply tc_finite_sn; [exact Hirr|]. exists (bt_keys graph). intros p Hp.
    induction Hp; eauto. }
  assert (Hall : ∀ n, n ∈ bt_keys graph → n ∈ order).
  { intros n. induction (Hsn n) as [n _ IH]. intros Hn. destruct (decide (n ∈ order)) as [|Hno]; [done|].
    destruct (Hmax n). split_and!; [done..|]. intros p Hp. apply IH; [exact Hp|by eapply Hkeys]. }
  assert (order ≡ₚ bt_keys graph) as ->.
  { apply NoDup_Permutation; [by eapply greedy_NoDup|done|]. intros x. split; [by eapply greedy_keys|apply Hall]. }
  unfold bt_keys. by rewrite length_fmap.
Qed.

Section acceptance.
Context (graph : btree (list ResolvedDirectPrerequisite)) (source_order : list string).
Context (Hgi : graph_input graph source_order).

(** Source positions are distinct, so there is one greedy order of a length. *)
Lemma greedy_unique order1 order2 :
  greedy graph (source_indices source_order) order1 → greedy graph (source_indices source_order) order2 →
  length order1 = length order2 → order1 = order2.
Proof.
  intros H1. revert order2. induction H1 as [|order1 n i H1 IH Hav Hi Hmin]; intros order2 H2 Hlen.
  { by destruct order2. }
  destruct H2 as [|order2 m j H2 Hav' Hj Hmin']; rewrite length_app in Hlen; simpl in Hlen; [lia|].
  rewrite length_app in Hlen. simpl in Hlen. assert (order1 = order2) as <- by (apply IH; [done|lia]).
  assert (i = j) as <- by (pose proof (Hmin m j Hav' Hj); pose proof (Hmin' n i Hav Hi); lia).
  apply source_indices_Some in Hi, Hj; [|apply Hgi..]. by simplify_eq.
Qed.

Definition graph_order : list string :=
  let indices := source_indices source_order in
  let '(dependents, remaining) := foldl count_node ([], []) graph in
  graph_loop (S (length graph)) indices dependents (initially_ready indices remaining) remaining [].

Lemma graph_order_greedy :
  greedy graph (source_indices source_order) graph_order ∧ ∀ n, ¬ available graph graph_order n.
Proof.
  destruct Hgi as [Hk Hd Hs Hc]. pose proof (foldl_count_node graph Hk Hd) as Hcount. unfold graph_order.
  destruct (foldl count_node ([], []) graph) as [dependents remaining]. simpl in Hcount.
  apply (graph_loop_greedy graph _ Hk Hd dependents remaining); [done| | |].
  - by apply loop_inv_init with dependents.
  - intros n Hn. apply Hc in Hn as [i Hi]%list_elem_of_lookup. exists i. by apply source_indices_Some.
  - unfold bt_keys. rewrite length_fmap. simpl. lia.
Qed.

Lemma validate_graph_unfold :
  validate_graph graph source_order (length graph)
  = if decide (length graph_order = length graph)
    then Ok {| vg_direct_prerequisites := graph; vg_presentation_order := graph_order |}
    else fail DependencyCycle AtWorkflowGraph.
Proof. unfold validate_graph, graph_order. by destruct (foldl count_node ([], []) graph). Qed.

Lemma graph_order_complete : length graph_order = length graph ↔ acyclic graph.
Proof.
  destruct graph_order_greedy as [Hg Hmax]. split; intros Hx.
  - eapply greedy_acyclic; [apply Hgi|done..].
  - eapply maximal_complete; [done..|apply Hgi].
Qed.

(** The graph is accepted, with the greedy order of all its nodes, exactly
    when it has no cycle. *)
Lemma validate_graph_Ok result :
  validate_graph graph source_order (length graph) = Ok result ↔
  acyclic graph ∧ vg_direct_prerequisites result = graph
  ∧ greedy graph (source_indices source_order) (vg_presentation_order result)
  ∧ length (vg_presentation_order result) = length graph.
Proof.
  destruct graph_order_greedy as [Hg _]. rewrite validate_graph_unfold, <-graph_order_complete.
  destruct result as [direct order]. case_decide as Hlen; simpl.
  - split; [by intros [= <- <-]|]. intros (_ & -> & Ho & Hl).
    assert (order = graph_order) as -> by (by apply greedy_unique; [..|congruence]). done.
  - split; [done|]. by intros [? _].
Qed.

Lemma validate_graph_Err failure :
  validate_graph graph source_order (length graph) = Err failure ↔
  ¬ acyclic graph ∧ failure = {| vfail_kind := DependencyCycle; vfail_location := AtWorkflowGraph |}.
Proof.
  rewrite validate_graph_unfold, <-graph_order_complete. case_decide as Hlen; unfold fail; split; naive_solver.
Qed.
End acceptance.
