(* ===== verification/Requirements.v ===== *)
(** * What the nodes of a document require of each other

    [requirements] lists, from the document alone, the control dependencies,
    the dispositions and the values a node asks of the nodes of its own phase.
    The prerequisites that validation resolves are shown to be exactly those,
    and every value read to be one the node has the authority to read. *)

From S2P Require Import Prelude Text Nodes Evidence Condition Document Validated Validation Graph.

Local Open Scope list_scope.

(** ** Loops that may return early *)

Lemma try_map_Ok {A B} (f : A → checked B) l bs :
  try_map f l = Ok bs ↔ Forall2 (λ a b, f a = Ok b) l bs.
Proof.
  revert bs. induction l as [|a l IH]; intros bs; simpl.
  - split; [intros [= <-]; constructor|by inversion 1].
  - rewrite result_bind_Ok. setoid_rewrite result_bind_Ok. setoid_rewrite IH. split.
    + intros (b & ? & bs' & ? & [= <-]). by constructor.
    + inversion 1; subst; eauto 10.
Qed.

Section try_fold.
Context {A S : Type} (f : S → A → checked S).

Lemma try_fold_inv (I : S → Prop) l s s' :
  (∀ a s s', a ∈ l → I s → f s a = Ok s' → I s') → I s → try_fold f l s = Ok s' → I s'.
Proof.
  revert s. induction l as [|a l IH]; simpl; intros s Hf Hs; [by intros [= <-]|].
  intros (s1 & Ha & Hl)%result_bind_Ok. eapply IH; [|eapply Hf; [by left|done..]|done].
  intros b t t' Hb. apply Hf. by right.
Qed.

Lemma try_fold_app l1 l2 s :
  try_fold f (l1 ++ l2) s = let? s := try_fold f l1 s in try_fold f l2 s.
Proof.
  revert s. induction l1 as [|a l1 IH]; intros s; simpl; [done|]. destruct (f s a); simpl; [apply IH|done].
Qed.

(** Every element was accepted in some state. *)
Lemma try_fold_each (Q : A → Prop) l s s' :
  (∀ a s s', f s a = Ok s' → Q a) → try_fold f l s = Ok s' → Forall Q l.
Proof.
  intros Hf. revert s. induction l as [|a l IH]; simpl; intros s; [constructor|].
  intros (s1 & Ha & Hl)%result_bind_Ok. constructor; eauto.
Qed.
End try_fold.

Lemma flat_map_enumerate {A B} (f : A → list B) (l : list A) :
  flat_map (λ '(_, a), f a) (enumerate l) = flat_map f l.
Proof.
  unfold enumerate. induction l as [|a l IH] using rev_ind; [done|].
  rewrite imap_app, !flat_map_app, IH. done.
Qed.

Lemma flat_map_values {A B} (f : A → list B) (m : btree A) : flat_map (λ '(_, a), f a) m = flat_map f (bt_values m).
Proof. induction m as [|[k a] m IH]; csimpl; [done|]. by rewrite IH. Qed.

Lemma flat_map_singleton {A} (l : list A) : flat_map (λ a, [a]) l = l.
Proof. induction l as [|a l IH]; simpl; [done|]. by rewrite IH. Qed.

Lemma flat_map_flat_map {A B C} (f : B → list C) (g : A → list B) l :
  flat_map f (flat_map g l) = flat_map (λ a, flat_map f (g a)) l.
Proof. induction l as [|a l IH]; simpl; [done|]. by rewrite flat_map_app, IH. Qed.

(** ** Requirements *)

Inductive Requirement :=
| ReqControl (producer : string)
| ReqDisposition (producer : string)
| ReqData (producer : string) (condition : bool).

#[export] Instance Requirement_eq_dec : EqDecision Requirement.
Proof. solve_decision. Defined.

Definition requirement_producer (r : Requirement) : string :=
  match r with ReqControl p | ReqDisposition p | ReqData p _ => p end.

(** The prerequisite that a list of requirements makes of a producer. *)
Definition required_prerequisite (reqs : list Requirement) (producer : string) : option ResolvedDirectPrerequisite :=
  if decide (producer ∈ requirement_producer <$> reqs)
  then Some {| rdp_producer := producer;
               rdp_control := bool_decide (ReqControl producer ∈ reqs);
               rdp_disposition_control := bool_decide (ReqDisposition producer ∈ reqs);
               rdp_data := bool_decide (ReqData producer true ∈ reqs ∨ ReqData producer false ∈ reqs);
               rdp_condition_data := bool_decide (ReqData producer true ∈ reqs) |}
  else None.

Definition represents (m : Prerequisites) (reqs : list Requirement) : Prop :=
  bt_wf m ∧ ∀ producer, bt_get m producer = required_prerequisite reqs producer.

Lemma represents_ext m reqs reqs' : (∀ r, r ∈ reqs ↔ r ∈ reqs') → represents m reqs → represents m reqs'.
Proof.
  intros He [Hw Hm]. split; [done|]. intros p. rewrite Hm. unfold required_prerequisite.
  rewrite (decide_ext _ (p ∈ requirement_producer <$> reqs')); [|rewrite !list_elem_of_fmap; naive_solver].
  case_decide; [|done]. do 2 f_equal; apply bool_decide_ext; rewrite !He; done.
Qed.

Lemma represents_nil : represents [] [].
Proof. split; [constructor|]. intros p. unfold required_prerequisite. rewrite decide_False by set_solver. done. Qed.

(** A prerequisite only changes with requirements of its producer. *)
Lemma required_prerequisite_other reqs r p :
  p ≠ requirement_producer r → required_prerequisite (reqs ++ [r]) p = required_prerequisite reqs p.
Proof.
  intros Hne. unfold required_prerequisite. rewrite fmap_app.
  rewrite (decide_ext (p ∈ _ ++ _) (p ∈ requirement_producer <$> reqs)) by set_solver.
  assert (Hin : ∀ r', requirement_producer r' = p → r' ∈ reqs ++ [r] ↔ r' ∈ reqs).
  { intros r' Hr'. rewrite elem_of_app, list_elem_of_singleton. naive_solver. }
  case_decide; [|done]. do 2 f_equal; apply bool_decide_ext; rewrite !Hin by done; done.
Qed.

Lemma represents_insert m reqs r p :
  represents m reqs → required_prerequisite (reqs ++ [r]) (requirement_producer r) = Some p →
  represents (bt_insert m (requirement_producer r) p) (reqs ++ [r]).
Proof.
  intros [Hw Hm] Hp. split; [by apply bt_wf_insert|]. intros k.
  destruct (decide (k = requirement_producer r)) as [->|Hne].
  - by rewrite bt_get_insert_eq, Hp.
  - by rewrite bt_get_insert_ne, required_prerequisite_other, Hm by done.
Qed.

Lemma required_prerequisite_last reqs r :
  required_prerequisite (reqs ++ [r]) (requirement_producer r)
  = Some (let p := requirement_producer r in
      {| rdp_producer := p;
         rdp_control := bool_decide (ReqControl p ∈ reqs ++ [r]);
         rdp_disposition_control := bool_decide (ReqDisposition p ∈ reqs ++ [r]);
         rdp_data := bool_decide (ReqData p true ∈ reqs ++ [r] ∨ ReqData p false ∈ reqs ++ [r]);
         rdp_condition_data := bool_decide (ReqData p true ∈ reqs ++ [r]) |}).
Proof. unfold required_prerequisite. rewrite decide_True by (rewrite fmap_app; set_solver). done. Qed.

Lemma not_required_elem (reqs : list Requirement) p :
  p ∉ requirement_producer <$> reqs → ∀ r, r ∈ reqs → requirement_producer r = p → False.
Proof. intros Hp r Hr <-. apply Hp, list_elem_of_fmap. eauto. Qed.

(** The flags of two prerequisites agree when the requirements do. *)
Ltac flags :=
  repeat match goal with
  | H : _ ∉ requirement_producer <$> _ |- _ => pose proof (not_required_elem _ _ H); clear H
  end;
  rewrite ?orb_true_r, ?orb_false_r;
  repeat match goal with
  | |- context [bool_decide ?P] =>
      let H := fresh in destruct (bool_decide P) eqn:H;
      [apply bool_decide_eq_true in H|apply bool_decide_eq_false in H]; rewrite ?elem_of_app, ?list_elem_of_singleton in H
  end; try done; exfalso; naive_solver.

Lemma mark_disposition_represents m reqs node :
  represents m reqs → represents (mark_disposition_prerequisite m node) (reqs ++ [ReqDisposition node]).
Proof.
  intros Hm. apply (represents_insert m reqs (ReqDisposition node)); [done|].
  rewrite required_prerequisite_last. destruct Hm as [_ ->]. simpl. f_equal. unfold required_prerequisite.
  case_decide as Hin; simpl; f_equal; flags.
Qed.

Lemma mark_data_represents m reqs node condition :
  represents m reqs → represents (mark_data_prerequisite m node condition) (reqs ++ [ReqData node condition]).
Proof.
  intros Hm. apply (represents_insert m reqs (ReqData node condition)); [done|].
  rewrite required_prerequisite_last. destruct Hm as [_ ->]. simpl. f_equal. unfold required_prerequisite.
  case_decide as Hin; simpl; f_equal; destruct condition; flags.
Qed.

(** ** The requirements of a node *)

Section node.
Context (document : WorkflowDocument) (consumer : string) (role : WorkflowNodeRole).

Definition reference_requirements (condition : bool) (reference : ValueReference) : list Requirement :=
  match reference with
  | RefOutput o =>
      match node_body document (or_node o) with
      | Some (producer_role, _) => if decide (role = producer_role) then [ReqData (or_node o) condition] else []
      | None => []
      end
  | RefInput _ | RefFinalizationContext => []
  end.

Definition operand_references (operand : ConditionOperand) : list ValueReference :=
  match operand with CondReference reference _ => [reference] | CondLiteral _ => [] end.

(** The role of a node, steps first, as [condition_target_role] looks. *)
Definition target_role (node : string) : option WorkflowNodeRole := fst <$> node_body document node.

Fixpoint condition_references (c : ConditionPredicate) : list ValueReference :=
  match c with
  | CAll children | CAny children => flat_map condition_references children
  | CNot child => condition_references child
  | CEquals lhs rhs => operand_references lhs ++ operand_references rhs
  | CExists selector => [csel_reference selector]
  | CDisposition _ _ => []
  end.

Fixpoint condition_requirements (c : ConditionPredicate) : list Requirement :=
  match c with
  | CAll children | CAny children => flat_map condition_requirements children
  | CNot child => condition_requirements child
  | CEquals _ _ | CExists _ => flat_map (reference_requirements true) (condition_references c)
  | CDisposition node _ => if decide (target_role node = Some role) then [ReqDisposition node] else []
  end.

(** The nodes whose disposition a condition reads. *)
Fixpoint condition_targets (c : ConditionPredicate) : list string :=
  match c with
  | CAll children | CAny children => flat_map condition_targets children
  | CNot child => condition_targets child
  | CEquals _ _ | CExists _ => []
  | CDisposition node _ => [node]
  end.

Lemma target_requirement c node :
  node ∈ condition_targets c → target_role node = Some role → ReqDisposition node ∈ condition_requirements c.
Proof.
  intros Hin Hr. revert Hin. induction c as [l IH|l IH|c IH|lhs rhs|s|n d] using ConditionPredicate_nested_ind;
    cbn [condition_targets condition_requirements]; try (by intros ?%elem_of_nil).
  1,2: rewrite !list_elem_of_In, !in_flat_map; setoid_rewrite <-list_elem_of_In; intros (c & Hin & Ht);
    exists c; split; [done|]; eapply Forall_forall in IH; [by apply IH|done].
  - done.
  - intros ->%list_elem_of_singleton. rewrite decide_True by done. by left.
Qed.

Definition message_references (source : MessageSource) : list ValueReference :=
  match source with SourceReference reference => [reference] | SourceFile _ => [] end.

(** Text, which may not read the finalization context, and the rest. *)
Definition body_references (body : NodeBody) : list ValueReference :=
  match body with
  | BodyCommand _ inputs _ => bt_values inputs
  | BodyAgent _ agent =>
      flat_map message_references (am_text (ag_message agent) ++ am_attachments (ag_message agent))
  end.

Definition option_requirements (condition : option ConditionPredicate) : list Requirement :=
  match condition with Some c => condition_requirements c | None => [] end.

Definition requirements (body : NodeBody) (control : list string) : list Requirement :=
  (ReqControl <$> control) ++ option_requirements (cn_condition (common_node body))
  ++ flat_map (reference_requirements false) (body_references body).

(** The references of a node: those of its condition and those of its body. *)
Definition node_references (body : NodeBody) : list ValueReference :=
  match cn_condition (common_node body) with Some c => condition_references c | None => [] end
  ++ body_references body.

(** What a node may read: a declared output that is not a branch, of another
    node, of its own phase or of an earlier one, that is required when the
    node is, and, between finalizers, of one that runs whenever it does. *)
Definition authorised (reference : ValueReference) : Prop :=
  match reference with
  | RefInput _ => True
  | RefFinalizationContext => role = RoleFinalizer
  | RefOutput o =>
      ∃ producer_role producer_body output,
        node_body document (or_node o) = Some (producer_role, producer_body)
        ∧ bt_get (cn_outputs (common_node producer_body)) (or_output o) = Some output
        ∧ output ≠ GitBranchWorkspace
        ∧ (or_node o = consumer → producer_role ≠ role)
        ∧ (role = RoleStep → producer_role = RoleStep)
        ∧ (cn_failure_policy <$> node_common document consumer role = Some Required →
           cn_failure_policy (common_node producer_body) = Required)
        ∧ (role = RoleFinalizer → producer_role = RoleFinalizer →
           finalizer_when document consumer ⊆ finalizer_when document (or_node o))
  end.

(** A pass over part of a node adds its requirements and authorises its
    references. *)
Definition inferred (m : Prerequisites) (reqs : list Requirement) (refs : list ValueReference) (m' : Prerequisites)
    : Prop :=
  (∀ reqs0, represents m reqs0 → represents m' (reqs0 ++ reqs)) ∧ Forall authorised refs.

Lemma inferred_nil m : inferred m [] [] m.
Proof. split; [|constructor]. intros reqs0. by rewrite app_nil_r. Qed.

Lemma inferred_app m1 m2 m3 reqs1 reqs2 refs1 refs2 :
  inferred m1 reqs1 refs1 m2 → inferred m2 reqs2 refs2 m3 → inferred m1 (reqs1 ++ reqs2) (refs1 ++ refs2) m3.
Proof.
  intros [Hr1 Ha1] [Hr2 Ha2]. split; [|by apply Forall_app]. intros reqs0 Hm. rewrite app_assoc. auto.
Qed.

Lemma inferred_fold {A} (f : Prerequisites → A → checked Prerequisites) (reqs : A → list Requirement)
    (refs : A → list ValueReference) l m m' :
  (∀ a m m', a ∈ l → f m a = Ok m' → inferred m (reqs a) (refs a) m') →
  try_fold f l m = Ok m' → inferred m (flat_map reqs l) (flat_map refs l) m'.
Proof.
  revert m. induction l as [|a l IH]; simpl; intros m Hf.
  - intros [= <-]. apply inferred_nil.
  - intros (m1 & Ha & Hl)%result_bind_Ok. eapply inferred_app; [eapply Hf; [by left|done]|].
    apply IH; [|done]. intros b t t' Hb. apply Hf. by right.
Qed.

Lemma data_authority_Ok producer producer_role policy location u :
  validate_data_dependency_authority document consumer producer role producer_role policy location = Ok u →
  (cn_failure_policy <$> node_common document consumer role = Some Required → policy = Required)
  ∧ (role = RoleFinalizer → producer_role = RoleFinalizer →
     finalizer_when document consumer ⊆ finalizer_when document producer).
Proof.
  unfold validate_data_dependency_authority, validate_finalizer_trigger_compatibility.
  repeat case_bool_decide; simpl; intros; simplify_eq; split; try naive_solver; destruct policy; naive_solver.
Qed.

Lemma declared_output_Ok o location r :
  declared_output document o location = Ok r ↔
  node_body document (or_node o) = Some r.1
  ∧ bt_get (cn_outputs (common_node r.1.2)) (or_output o) = Some r.2.
Proof.
  unfold declared_output. destruct r as [[producer_role producer_body] output]. simpl.
  destruct (node_body document (or_node o)) as [[? body]|]; [|naive_solver].
  destruct (bt_get (cn_outputs (common_node body)) (or_output o)) eqn:E; naive_solver.
Qed.

Lemma marked_reference m condition o producer_role producer_body :
  node_body document (or_node o) = Some (producer_role, producer_body) →
  authorised (RefOutput o) →
  inferred m (reference_requirements condition (RefOutput o)) [RefOutput o]
    (if decide (role = producer_role) then mark_data_prerequisite m (or_node o) condition else m).
Proof.
  intros Hp Ha. split; [|by repeat constructor]. intros reqs0 Hm. simpl. rewrite Hp.
  case_decide; [by apply mark_data_represents|by rewrite app_nil_r].
Qed.

Lemma guard_other (node : string) producer_role :
  bool_decide (node = consumer) && bool_decide (producer_role = role) = false → node = consumer → producer_role ≠ role.
Proof. repeat case_bool_decide; naive_solver. Qed.

Lemma guard_phase producer_role :
  bool_decide (role = RoleStep) && bool_decide (producer_role = RoleFinalizer) = false →
  role = RoleStep → producer_role = RoleStep.
Proof. repeat case_bool_decide; destruct producer_role; naive_solver. Qed.

Lemma infer_condition_value_reference_ok reference m m' :
  infer_condition_value_reference consumer role reference document m = Ok m' →
  inferred m (reference_requirements true reference) [reference] m'.
Proof.
  destruct reference as [name|o|]; simpl.
  - intros Hi. assert (m' = m) as -> by (destruct (bt_get _ _) as [[]|]; naive_solver).
    split; [intros reqs0; by rewrite app_nil_r|by repeat constructor].
  - intros ([[producer_role producer_body] output] & Hd & Hm)%result_bind_Ok.
    apply declared_output_Ok in Hd as [Hp Ho]. simpl in *.
    destruct (negb _ || _ || _) eqn:Hguard; [done|]. apply orb_false_iff in Hguard as [[Hout Hself]%orb_false_iff Hphase].
    apply result_bind_Ok in Hm as ([] & [Hreq Hwhen]%data_authority_Ok & Hm). injection Hm as <-.
    eapply marked_reference; [done|]. exists producer_role, producer_body, output.
    split_and!; try done; [by intros ->|by apply guard_other|by apply guard_phase].
  - destruct role eqn:E; [done|]. intros [= <-]. split; [intros reqs0; by rewrite app_nil_r|].
    repeat constructor. simpl. done.
Qed.

Lemma infer_reference_prerequisite_ok reference m location allowed m' :
  (allowed = true → role = RoleFinalizer) →
  infer_reference_prerequisite consumer role document reference m location allowed = Ok m' →
  inferred m (reference_requirements false reference) [reference] m'.
Proof.
  intros Hallowed. destruct reference as [name|o|]; simpl.
  - intros [= <-]. split; [intros reqs0; by rewrite app_nil_r|by repeat constructor].
  - intros ([[producer_role producer_body] output] & Hd & Hm)%result_bind_Ok.
    apply declared_output_Ok in Hd as [Hp Ho]. simpl in *. case_decide as Hg; [done|].
    destruct (bool_decide (or_node o = consumer) && _) eqn:Hself; [done|].
    destruct (bool_decide (role = RoleStep) && _) eqn:Hphase; [done|].
    apply result_bind_Ok in Hm as ([] & [Hreq Hwhen]%data_authority_Ok & Hm). injection Hm as <-.
    eapply marked_reference; [done|]. exists producer_role, producer_body, output.
    split_and!; try done; [by apply guard_other|by apply guard_phase].
  - destruct allowed; [|done]. intros [= <-]. split; [intros reqs0; by rewrite app_nil_r|].
    repeat constructor. by apply Hallowed.
Qed.

Lemma infer_condition_children children m :
  (fix go children m :=
     match children with
     | [] => Ok m
     | child :: children => let? m := infer_condition_predicate consumer role document child m in go children m
     end) children m
  = try_fold (λ m child, infer_condition_predicate consumer role document child m) children m.
Proof. revert m. induction children as [|c children IH]; intros m; simpl; [done|].
  destruct (infer_condition_predicate _ _ _ c m); simpl; [apply IH|done].
Qed.

Lemma condition_target_role_Ok node location r :
  condition_target_role document node location = Ok r ↔ target_role node = Some r.
Proof.
  unfold condition_target_role, target_role, node_body, bt_contains_key.
  destruct (bt_get (doc_steps document) node); simpl; [naive_solver|].
  destruct (bt_get (doc_finalizers document) node); simpl; naive_solver.
Qed.

Lemma infer_condition_predicate_ok c m m' :
  infer_condition_predicate consumer role document c m = Ok m' →
  inferred m (condition_requirements c) (condition_references c) m'.
Proof.
  revert m m'. induction c as [l IH|l IH|c IH|lhs rhs|s|node d] using ConditionPredicate_nested_ind; intros m m'.
  1,2: cbn [infer_condition_predicate]; rewrite infer_condition_children; intros Hl;
    eapply inferred_fold; [|exact Hl]; intros c m1 m2 Hc Hm; rewrite Forall_forall in IH; by apply IH.
  - apply IH.
  - intros Hl. simpl. rewrite flat_map_app.
    apply result_bind_Ok in Hl as (m1 & H1 & (m2 & H2 & [= ->])%result_bind_Ok).
    assert (Hop : ∀ o m m', infer_condition_operand consumer role document m o = Ok m' →
      inferred m (flat_map (reference_requirements true) (operand_references o)) (operand_references o) m').
    { intros [reference pointer|v] n n'; simpl.
      - rewrite app_nil_r. apply infer_condition_value_reference_ok.
      - intros [= ->]. apply inferred_nil. }
    eapply inferred_app; eauto.
  - simpl. rewrite app_nil_r. apply infer_condition_value_reference_ok.
  - simpl. intros (r & Hr%condition_target_role_Ok & Hm)%result_bind_Ok.
    destruct (_ || _); [done|]. injection Hm as <-. split; [|constructor]. intros reqs0 Hm0. rewrite Hr.
    case_decide as E; case_decide; simplify_eq; [by apply mark_disposition_represents|by rewrite app_nil_r].
Qed.

(** A disposition is read of another node, of the consumer's phase or of an
    earlier one. *)
Definition target_authorised (node : string) : Prop :=
  ∃ r, target_role node = Some r ∧ (node = consumer → r ≠ role) ∧ (role = RoleStep → r = RoleStep).

Lemma try_fold_elem {A S} (f : S → A → checked S) l s s' a :
  try_fold f l s = Ok s' → a ∈ l → ∃ s1 s2, f s1 a = Ok s2.
Proof.
  revert s. induction l as [|b l IH]; intros s; simpl; [by intros _ ?%elem_of_nil|].
  intros (s1 & H1 & H2)%result_bind_Ok [->|Hin]%elem_of_cons; eauto.
Qed.

Lemma infer_condition_targets c m m' :
  infer_condition_predicate consumer role document c m = Ok m' → Forall target_authorised (condition_targets c).
Proof.
  revert m m'. induction c as [l IH|l IH|c IH|lhs rhs|s|node d] using ConditionPredicate_nested_ind; intros m m';
    cbn [condition_targets]; try (by constructor).
  1,2: cbn [infer_condition_predicate]; rewrite infer_condition_children; intros Hl; apply Forall_forall;
    intros n (c & Hc%list_elem_of_In & Hn%list_elem_of_In)%list_elem_of_In%in_flat_map;
    destruct (try_fold_elem _ _ _ _ _ Hl Hc) as (m1 & m2 & Hm); rewrite Forall_forall in IH;
    specialize (IH c Hc m1 m2 Hm); rewrite Forall_forall in IH; by apply IH.
  - apply IH.
  - simpl. intros (r & Hr%condition_target_role_Ok & Hm)%result_bind_Ok.
    destruct (_ || _) eqn:Hg; [done|]. constructor; [|done]. apply orb_false_elim in Hg as [Hself Hphase].
    exists r. split_and!; [done|by eapply guard_other|]. intros ->. rewrite bool_decide_eq_true_2 in Hphase by done.
    by apply negb_false_iff, bool_decide_eq_true in Hphase.
Qed.

Lemma infer_messages_ok (location : nat → ValidationLocation) allowed sources m m' :
  (allowed = true → role = RoleFinalizer) →
  try_fold (λ m '(index, source),
    infer_message_prerequisite consumer role document source m (location index) allowed)
    (enumerate sources) m = Ok m' →
  inferred m (flat_map (reference_requirements false) (flat_map message_references sources))
    (flat_map message_references sources) m'.
Proof.
  intros Hallowed Hl.
  apply (inferred_fold _ (λ '(_, s), flat_map (reference_requirements false) (message_references s))
           (λ '(_, s), message_references s)) in Hl.
  - by rewrite !flat_map_enumerate, <-flat_map_flat_map in Hl.
  - intros [i [path|reference]] m1 m2 _; simpl.
    + intros [= <-]. apply inferred_nil.
    + rewrite app_nil_r. by apply infer_reference_prerequisite_ok.
Qed.

Lemma infer_body_prerequisites_ok body m m' :
  infer_body_prerequisites consumer role document body m = Ok m' →
  inferred m (flat_map (reference_requirements false) (body_references body)) (body_references body) m'.
Proof.
  destruct body as [common inputs argv|common agent]; simpl.
  - intros Hl. apply (inferred_fold _ (λ '(_, r), reference_requirements false r) (λ '(_, r), [r])) in Hl.
    + by rewrite !flat_map_values, flat_map_singleton in Hl.
    + intros [input reference] m1 m2 _. apply infer_reference_prerequisite_ok. apply bool_decide_eq_true_1.
  - intros (m1 & Ht & Ha)%result_bind_Ok. rewrite !flat_map_app.
    eapply inferred_app; [eapply (infer_messages_ok (λ i, node_message_location consumer role i false)); [|exact Ht]
                         |eapply (infer_messages_ok (λ i, node_message_location consumer role i true)); [|exact Ha]].
    + done.
    + apply bool_decide_eq_true_1.
Qed.

Lemma infer_condition_prerequisites_ok condition m m' :
  infer_condition_prerequisites consumer role document condition m = Ok m' →
  inferred m (option_requirements condition)
    (match condition with Some c => condition_references c | None => [] end) m'.
Proof.
  destruct condition as [c|]; simpl; [apply infer_condition_predicate_ok|]. intros [= <-]. apply inferred_nil.
Qed.

(** The loop over the control dependencies. *)
Lemma control_dependencies_ok (targets : string → bool) kind (location : nat → ValidationLocation) l seen m seen' m' :
  represents m (ReqControl <$> seen) →
  try_fold (λ acc '(index, dependency),
    insert_control_prerequisite consumer dependency acc.1 acc.2 (targets dependency) kind (location index))
    l (seen, m) = Ok (seen', m') →
  represents m' (ReqControl <$> (seen ++ l.*2))
  ∧ NoDup l.*2 ∧ Forall (λ d, d ∉ seen ∧ d ≠ consumer ∧ targets d = true) l.*2.
Proof.
  revert seen m. induction l as [|[i d] l IH]; intros seen m Hm; csimpl.
  { intros [= <- <-]. rewrite app_nil_r. split; [done|]. split; constructor. }
  intros ([seen1 m1] & Hi & Hl)%result_bind_Ok. unfold insert_control_prerequisite in Hi. simpl in Hi.
  repeat case_decide; [done..|]. destruct (targets d) eqn:Ht; [|done]. simpl in Hi. injection Hi as <- <-.
  apply IH in Hl as (Hr & Hnd & Hall).
  - split_and!.
    + eapply represents_ext; [|exact Hr]. intros r. rewrite !list_elem_of_fmap.
      setoid_rewrite elem_of_app. setoid_rewrite elem_of_cons. naive_solver.
    + constructor; [|done]. intros Hd. rewrite Forall_forall in Hall. apply Hall in Hd as [Hd _]. apply Hd. by left.
    + constructor; [done|]. eapply Forall_impl; [exact Hall|]. set_solver.
  - eapply (represents_ext _ ((ReqControl <$> seen) ++ [ReqControl d])); [set_solver|].
    apply (represents_insert m _ (ReqControl d)); [done|]. rewrite required_prerequisite_last. simpl. f_equal.
    assert (∀ r, r ∈ ReqControl <$> seen → ∃ p, r = ReqControl p) by (intros r (?&?&?)%list_elem_of_fmap; eauto).
    f_equal; flags.
Qed.
End node.

(** ** Resolved prerequisites *)

Lemma enumerate_values {A} (l : list A) : (enumerate l).*2 = l.
Proof. unfold enumerate. rewrite fmap_imap. induction l as [|a l IH] using rev_ind; [done|]. rewrite imap_app, IH. done. Qed.

Definition role_keys (document : WorkflowDocument) (role : WorkflowNodeRole) : list string :=
  match role with
  | RoleStep => bt_keys (doc_steps document)
  | RoleFinalizer => bt_keys (doc_finalizers document)
  end.

Lemma node_body_key document n role body : node_body document n = Some (role, body) → n ∈ role_keys document role.
Proof.
  unfold node_body. destruct (bt_get (doc_steps document) n) eqn:E.
  - intros; simplify_eq. apply bt_get_is_Some. eauto.
  - intros (f & Hf & ?)%fmap_Some. simplify_eq. apply bt_get_is_Some. eauto.
Qed.

Lemma reference_requirements_producer document role condition refs r :
  r ∈ flat_map (reference_requirements document role condition) refs →
  requirement_producer r ∈ role_keys document role.
Proof.
  rewrite list_elem_of_In, in_flat_map. intros ([|o|] & _ & Hr); [done| |done]. simpl in Hr.
  destruct (node_body document (or_node o)) as [[prole body]|] eqn:E; [|done]. case_decide; [|done].
  destruct Hr as [<-|[]]. subst. by eapply node_body_key.
Qed.

(** What the resolution of a node's prerequisites establishes. *)
Record resolved (document : WorkflowDocument) (name : string) (role : WorkflowNodeRole) (body : NodeBody)
    (control : list string) (prerequisites : list ResolvedDirectPrerequisite) : Prop := {
  res_map : ∃ m, represents m (requirements document role body control) ∧ prerequisites = bt_values m;
  res_control : NoDup control ∧ Forall (λ d, d ≠ name ∧ d ∈ role_keys document role) control;
  res_authority : Forall (authorised document name role) (node_references body);
  res_targets c : cn_condition (common_node body) = Some c →
    Forall (target_authorised document name role) (condition_targets c)
}.

Lemma resolved_intro document name role body control seen m0 m1 m2 (targets : string → bool) kind location :
  (∀ d, targets d = true → d ∈ role_keys document role) →
  try_fold (λ acc '(index, dependency),
    insert_control_prerequisite name dependency acc.1 acc.2 (targets dependency) kind (location index))
    (enumerate control) ([], []) = Ok (seen, m0) →
  infer_condition_prerequisites name role document (cn_condition (common_node body)) m0 = Ok m1 →
  infer_body_prerequisites name role document body m1 = Ok m2 →
  resolved document name role body control (bt_values m2).
Proof.
  intros Htargets Hc Hcond H2%infer_body_prerequisites_ok. pose proof (infer_condition_prerequisites_ok _ _ _ _ _ _ Hcond) as H1.
  apply control_dependencies_ok in Hc as (Hr & Hnd & Hall); [|apply represents_nil].
  rewrite enumerate_values in *. destruct (inferred_app _ _ _ _ _ _ _ _ _ _ H1 H2) as [Hrep Hauth].
  split; [|split; [done|]|exact Hauth|intros c Hcn; rewrite Hcn in Hcond; by eapply infer_condition_targets].
  - exists m2. split; [|done]. apply Hrep. exact Hr.
  - eapply Forall_impl; [exact Hall|]. naive_solver.
Qed.

Lemma resolve_step_prerequisites_ok document name step ps :
  resolve_step_prerequisites name step document = Ok ps →
  resolved document name RoleStep (sd_body step) (sd_control_dependencies step) ps.
Proof.
  unfold resolve_step_prerequisites.
  intros ([seen m0] & Hc & (m1 & H1 & (m2 & H2 & [= <-])%result_bind_Ok)%result_bind_Ok)%result_bind_Ok.
  eapply (resolved_intro _ _ _ _ _ seen m0 m1 m2 (bt_contains_key (doc_steps document)) MissingDependency
            (AtStepDependency name)); [|done..].
  intros d Hd%bool_decide_eq_true. by apply bt_get_is_Some.
Qed.

Lemma resolve_finalizer_prerequisites_ok document name finalizer ps :
  resolve_finalizer_prerequisites name finalizer document = Ok ps →
  fd_when finalizer ≠ [] ∧ resolved document name RoleFinalizer (fd_body finalizer) (fd_after finalizer) ps.
Proof.
  unfold resolve_finalizer_prerequisites. case_decide as Hw; [done|].
  intros ([seen m0] & Hc & (m1 & H1 & (m2 & H2 & [= <-])%result_bind_Ok)%result_bind_Ok)%result_bind_Ok.
  split; [done|].
  eapply (resolved_intro _ _ _ _ _ seen m0 m1 m2 (bt_contains_key (doc_finalizers document))
            InvalidFinalizerAfterTarget (AtFinalizerAfter name)); [|done..].
  intros d Hd%bool_decide_eq_true. by apply bt_get_is_Some.
Qed.

(** Every producer a node requires is a node of its own phase. *)
Lemma requirements_producer document role body control r :
  Forall (λ d, d ∈ role_keys document role) control → r ∈ requirements document role body control →
  requirement_producer r ∈ role_keys document role.
Proof.
  intros Hc. unfold requirements. rewrite !elem_of_app, list_elem_of_fmap. intros [(d & -> & Hd)|[Hr|Hr]].
  - rewrite Forall_forall in Hc. by apply Hc.
  - destruct (cn_condition (common_node body)) as [c|]; [|set_solver]. simpl in Hr. revert Hr.
    induction c as [l IH|l IH|c IH|lhs rhs|s|node d] using ConditionPredicate_nested_ind; cbn [condition_requirements].
    1,2: rewrite list_elem_of_In, in_flat_map; intros (c & Hin & Hr); rewrite Forall_forall in IH;
      apply (IH c); by apply list_elem_of_In.
    + apply IH.
    + by apply reference_requirements_producer.
    + by apply reference_requirements_producer.
    + case_decide as E; [|set_solver]. intros ->%list_elem_of_singleton. simpl.
      unfold target_role in E. apply fmap_Some in E as ([r' b] & E & ->). by eapply node_body_key.
  - by eapply reference_requirements_producer.
Qed.
