(* ===== verification/Capacity.v ===== *)
(** * Capacity ([capacity.rs]) and its admission ([admission.rs])

    How many transitions, invocations and bytes a workflow may need,
    computed with checked 64-bit arithmetic, the admission of those
    requirements against a budget, and the numerical contract that the
    consumers of a result check again. *)

From S2P Require Import Prelude Text Nodes Evidence Condition Validated.

(** ** Constants *)

Definition GENERAL_MAXIMUM_TRANSITIONS_WITHOUT_FINALIZERS : N := 1283.
Definition GENERAL_MAXIMUM_TRANSITIONS_WITH_FINALIZERS : N := 1286.
Definition CLOUD_MAXIMUM_TRANSITIONS_WITHOUT_FINALIZERS : N := 1027.
Definition CLOUD_MAXIMUM_TRANSITIONS_WITH_FINALIZERS : N := 1030.
Definition RUNNER_OBSERVATION_RESERVE : N := 64.
Definition RUNNER_ORDINARY_FRAME_BYTES : N := 262144.
Definition RUNNER_TERMINAL_FRAME_BYTES : N := 67108864.
Definition MAXIMUM_ENCODED_OUTBOX_BYTES : N := 1024720896.
Definition MAXIMUM_CONDITION_TRANSITION_COUNT : N := 256.
Definition MAXIMUM_CONDITION_TRANSITION_BYTES : N := 256 * 1024 * 1024.
Definition MAXIMUM_TERMINAL_RESULT_STRUCTURE_BYTES : N := 512 * 1024 * 1024.
Definition MAXIMUM_PORTABLE_RESULT_BYTES : N := 901080408.
Definition ORDINARY_PORTABLE_RESULT_BYTES : N := 202027692.
Definition JSON_ESCAPED_POINTER_SOURCE_MULTIPLIER : N := 3.
Definition MAXIMUM_CONDITION_PREDICATE_NODES : N := 256.
Definition MAXIMUM_CONDITION_PREDICATE_DEPTH : N := 16.
Definition MAXIMUM_PREDICATE_PATH_SEGMENT : string := "/all/63".
Definition quoted (s : string) : string := dq ++ s ++ dq.
Definition CONDITION_FALSE_TRANSITION_PREFIX : string :=
  "{" ++ quoted "state" ++ ":" ++ quoted "skipped" ++ "," ++ quoted "detail" ++ ":{" ++ quoted "code" ++ ":"
  ++ quoted "condition_false" ++ "," ++ quoted "evaluatedPredicates" ++ ":[".
Definition CONDITION_FALSE_ENTRY_PREFIX : string := "{" ++ quoted "path" ++ ":" ++ dq.
Definition CONDITION_FALSE_ENTRY_SUFFIX : string := dq ++ "," ++ quoted "result" ++ ":false}".
Definition CONDITION_FALSE_TRANSITION_SUFFIX : string := "]}}".

(** From [mod.rs], [resolution.rs], [artifact_limits.rs] and
    [result_metadata.rs]. *)
Definition MAXIMUM_RETAINED_BYTES_PER_STREAM : N := 4 * 1024 * 1024.
Definition RUN_LOG_BYTE_BUDGET : N := 64 * 1024 * 1024.
Definition MAXIMUM_RETAINED_STREAM_BYTES_PER_RUN : N := 2 * RUN_LOG_BYTE_BUDGET.
Definition MAX_SOURCE_CLOSURE_BYTES : N := 64 * 1024 * 1024.
Definition MAXIMUM_EXPORTS : N := 4096.
Definition MAXIMUM_STEPS : N := 256.
Definition MAXIMUM_EXPORT_MEDIA_TYPE_JSON_BYTES : N := MAXIMUM_EXPORTS * 128 * 12.

(** [u64::div_ceil]. *)
Definition div_ceil (a b : N) : N := (if (a mod b =? 0) then a / b else a / b + 1)%N.

Definition MAXIMUM_ENCODED_RETAINED_STREAM_BYTES : N :=
  2 * (div_ceil MAXIMUM_RETAINED_STREAM_BYTES_PER_RUN 3 * 4 + 2 * MAXIMUM_STEPS * 4).

(** ** Transition bounds *)

Inductive CapacityCalculationFailure :=
| CapArithmeticOverflow
| GeneralTransitionCapacityExceeded
| CloudTransitionCapacityExceeded
| ConditionEvidenceCapacityExceeded.

Record CapacityCounts := {
  cc_steps : N;
  cc_finalizers : N;
  cc_recovery_rounds : N;
  cc_handler_rounds : N
}.

Record ComputedWorkflowCapacity := {
  cap_general_maximum_transitions : N;
  cap_cloud_maximum_transitions : N;
  cap_maximum_invocations : N;
  cap_maximum_retained_bytes_per_invocation : N;
  cap_diagnostic_retention_bytes : N;
  cap_native_session_retention_bytes : N;
  cap_aggregate_retention_bytes : N;
  cap_condition_transition_count : N;
  cap_aggregate_condition_transition_bytes : N;
  cap_terminal_result_structure_bytes : N;
  cap_portable_result_bytes : N;
  cap_encoded_outbox_bytes : N
}.

Definition cap_add (a b : N) : result N CapacityCalculationFailure := ok_or (u64_add a b) CapArithmeticOverflow.

Definition checked_product (left right : N) : result N CapacityCalculationFailure :=
  ok_or (u64_mul left right) CapArithmeticOverflow.

Definition weighted_bound (weighted_nodes finalizers weight : N) : result N CapacityCalculationFailure :=
  let? product := checked_product weighted_nodes weight in
  cap_add product (if (finalizers =? 0)%N then 3 else 6).

Definition transition_bounds (counts : CapacityCounts) : result (N * N * N) CapacityCalculationFailure :=
  let? weighted_nodes :=
    ok_or (v ← u64_add (cc_steps counts) (cc_finalizers counts); u64_add v (cc_recovery_rounds counts))
      CapArithmeticOverflow in
  let? general := weighted_bound weighted_nodes (cc_finalizers counts) 5 in
  let? four := weighted_bound weighted_nodes (cc_finalizers counts) 4 in
  let? cloud := cap_add four (cc_handler_rounds counts) in
  Ok (weighted_nodes, general, cloud).

Definition validate_general_transition_bound (maximum finalizers : N) : result unit CapacityCalculationFailure :=
  let cap := if (finalizers =? 0)%N then GENERAL_MAXIMUM_TRANSITIONS_WITHOUT_FINALIZERS
             else GENERAL_MAXIMUM_TRANSITIONS_WITH_FINALIZERS in
  if (cap <? maximum)%N then Err GeneralTransitionCapacityExceeded else Ok tt.

Definition validate_cloud_transition_bound (maximum finalizers : N) : result unit CapacityCalculationFailure :=
  let cap := if (finalizers =? 0)%N then CLOUD_MAXIMUM_TRANSITIONS_WITHOUT_FINALIZERS
             else CLOUD_MAXIMUM_TRANSITIONS_WITH_FINALIZERS in
  if (cap <? maximum)%N then Err CloudTransitionCapacityExceeded else Ok tt.

Definition calculate_capacity (counts : CapacityCounts)
    : result ComputedWorkflowCapacity CapacityCalculationFailure :=
  let? (weighted_nodes, general_maximum_transitions, cloud_maximum_transitions) := transition_bounds counts in
  let? _ := validate_general_transition_bound general_maximum_transitions (cc_finalizers counts) in
  let? _ := validate_cloud_transition_bound cloud_maximum_transitions (cc_finalizers counts) in
  let? maximum_invocations := cap_add weighted_nodes (cc_handler_rounds counts) in
  if (maximum_invocations =? 0)%N then Err CapArithmeticOverflow
  else
    let retained_bytes_per_invocation :=
      N.min (RUN_LOG_BYTE_BUDGET / maximum_invocations) MAXIMUM_RETAINED_BYTES_PER_STREAM in
    let? native_session_retention_bytes := checked_product maximum_invocations retained_bytes_per_invocation in
    let? diagnostic_retention_bytes := checked_product native_session_retention_bytes 2 in
    let? aggregate_retention_bytes := cap_add diagnostic_retention_bytes native_session_retention_bytes in
    let? encoded_outbox_entries := cap_add cloud_maximum_transitions RUNNER_OBSERVATION_RESERVE in
    let? outbox := checked_product encoded_outbox_entries RUNNER_ORDINARY_FRAME_BYTES in
    let? encoded_outbox_bytes := cap_add outbox (RUNNER_TERMINAL_FRAME_BYTES - RUNNER_ORDINARY_FRAME_BYTES) in
    Ok {| cap_general_maximum_transitions := general_maximum_transitions;
          cap_cloud_maximum_transitions := cloud_maximum_transitions;
          cap_maximum_invocations := maximum_invocations;
          cap_maximum_retained_bytes_per_invocation := retained_bytes_per_invocation;
          cap_diagnostic_retention_bytes := diagnostic_retention_bytes;
          cap_native_session_retention_bytes := native_session_retention_bytes;
          cap_aggregate_retention_bytes := aggregate_retention_bytes;
          cap_condition_transition_count := 0;
          cap_aggregate_condition_transition_bytes := 0;
          cap_terminal_result_structure_bytes := RUNNER_TERMINAL_FRAME_BYTES;
          cap_portable_result_bytes := ORDINARY_PORTABLE_RESULT_BYTES;
          cap_encoded_outbox_bytes := encoded_outbox_bytes |}.

(** ** Condition evidence *)

Inductive ConditionCapacityFailure :=
| CondArithmeticOverflow
| SourceClosureCapacityExceeded
| ConditionTransitionCapacityExceeded
| TerminalResultStructureCapacityExceeded
| PortableResultCapacityExceeded
| OutboxEntryCapacityExceeded.

Definition cond_add (a b : N) : result N ConditionCapacityFailure := ok_or (u64_add a b) CondArithmeticOverflow.
Definition cond_sub (a b : N) : result N ConditionCapacityFailure := ok_or (checked_sub a b) CondArithmeticOverflow.
Definition condition_checked_product (left right : N) : result N ConditionCapacityFailure :=
  ok_or (u64_mul left right) CondArithmeticOverflow.

Definition condition_encoded_bytes (value : string) : result N ConditionCapacityFailure :=
  if (str_len value <=? u64_max)%N then Ok (str_len value) else Err CondArithmeticOverflow.

Definition condition_false_transition_bound : result N ConditionCapacityFailure :=
  let? depth := cond_sub MAXIMUM_CONDITION_PREDICATE_DEPTH 1 in
  let? segment := condition_encoded_bytes MAXIMUM_PREDICATE_PATH_SEGMENT in
  let? maximum_path_bytes := condition_checked_product depth segment in
  let? entry_prefix_bytes := condition_encoded_bytes CONDITION_FALSE_ENTRY_PREFIX in
  let? entry_suffix_bytes := condition_encoded_bytes CONDITION_FALSE_ENTRY_SUFFIX in
  let? prefixed := cond_add entry_prefix_bytes maximum_path_bytes in
  let? maximum_entry_bytes := cond_add prefixed entry_suffix_bytes in
  let? product := condition_checked_product MAXIMUM_CONDITION_PREDICATE_NODES maximum_entry_bytes in
  let? separators := cond_sub MAXIMUM_CONDITION_PREDICATE_NODES 1 in
  let? entries_bytes := cond_add product separators in
  let? transition_prefix_bytes := condition_encoded_bytes CONDITION_FALSE_TRANSITION_PREFIX in
  let? transition_suffix_bytes := condition_encoded_bytes CONDITION_FALSE_TRANSITION_SUFFIX in
  let? bytes := cond_add transition_prefix_bytes entries_bytes in
  cond_add bytes transition_suffix_bytes.

Definition portable_result_bound (terminal_result_structure_bytes : N) : result N ConditionCapacityFailure :=
  let? bytes := cond_add terminal_result_structure_bytes MAXIMUM_ENCODED_RETAINED_STREAM_BYTES in
  cond_add bytes MAXIMUM_EXPORT_MEDIA_TYPE_JSON_BYTES.

Record ConditionEvidenceCapacity := {
  cec_maximum_json_escaped_pointer_bytes : N;
  cec_condition_transition_bytes : N;
  cec_terminal_result_structure_bytes : N;
  cec_portable_result_bytes : N
}.

Definition calculate_condition_evidence_capacity (source_closure_bytes : N)
    : result ConditionEvidenceCapacity ConditionCapacityFailure :=
  let? maximum_json_escaped_pointer_bytes :=
    condition_checked_product source_closure_bytes JSON_ESCAPED_POINTER_SOURCE_MULTIPLIER in
  let? pointer_failure_transition_bytes := cond_add maximum_json_escaped_pointer_bytes source_closure_bytes in
  let? false_bound := condition_false_transition_bound in
  let condition_transition_bytes := N.max pointer_failure_transition_bytes false_bound in
  let? terminal_result_structure_bytes := condition_checked_product condition_transition_bytes 2 in
  let? portable_result_bytes := portable_result_bound terminal_result_structure_bytes in
  if (MAX_SOURCE_CLOSURE_BYTES <? source_closure_bytes)%N then Err SourceClosureCapacityExceeded
  else if (MAXIMUM_CONDITION_TRANSITION_BYTES <? condition_transition_bytes)%N
  then Err ConditionTransitionCapacityExceeded
  else if (MAXIMUM_TERMINAL_RESULT_STRUCTURE_BYTES <? terminal_result_structure_bytes)%N
  then Err TerminalResultStructureCapacityExceeded
  else if (MAXIMUM_PORTABLE_RESULT_BYTES <? portable_result_bytes)%N then Err PortableResultCapacityExceeded
  else Ok {| cec_maximum_json_escaped_pointer_bytes := maximum_json_escaped_pointer_bytes;
             cec_condition_transition_bytes := condition_transition_bytes;
             cec_terminal_result_structure_bytes := terminal_result_structure_bytes;
             cec_portable_result_bytes := portable_result_bytes |}.

Definition calculate_condition_outbox_reservation (cloud_maximum_transitions condition_transition_count
    aggregate_condition_transition_bytes terminal_result_structure_bytes : N)
    : result N ConditionCapacityFailure :=
  let? entries := cond_add cloud_maximum_transitions RUNNER_OBSERVATION_RESERVE in
  let? classified_large_entries := cond_add condition_transition_count 1 in
  let? ordinary_entries := ok_or (checked_sub entries classified_large_entries) OutboxEntryCapacityExceeded in
  let? product := condition_checked_product ordinary_entries RUNNER_ORDINARY_FRAME_BYTES in
  ok_or (bytes ← u64_add product aggregate_condition_transition_bytes;
         u64_add bytes terminal_result_structure_bytes) CondArithmeticOverflow.

Record ConditionCapacityBounds := {
  ccb_selected_maximum_transitions : N;
  ccb_condition_transition_count : N;
  ccb_aggregate_condition_transition_bytes : N;
  ccb_terminal_result_structure_bytes : N;
  ccb_portable_result_bytes : N;
  ccb_encoded_outbox_bytes : N
}.

(** [ConditionCapacityBounds::from_parts]. *)
Definition from_parts (selected_maximum_transitions : N) (condition : N * N) (result : N * N * N)
    : ConditionCapacityBounds :=
  {| ccb_selected_maximum_transitions := selected_maximum_transitions;
     ccb_condition_transition_count := condition.1;
     ccb_aggregate_condition_transition_bytes := condition.2;
     ccb_terminal_result_structure_bytes := result.1.1;
     ccb_portable_result_bytes := result.1.2;
     ccb_encoded_outbox_bytes := result.2 |}.

Definition valid_condition_capacity (capacity : ConditionCapacityBounds) : bool :=
  let expected_outbox :=
    result_ok (calculate_condition_outbox_reservation
      (ccb_selected_maximum_transitions capacity) (ccb_condition_transition_count capacity)
      (ccb_aggregate_condition_transition_bytes capacity) (ccb_terminal_result_structure_bytes capacity)) in
  if (ccb_condition_transition_count capacity =? 0)%N then
    (ccb_aggregate_condition_transition_bytes capacity =? 0)%N
    && (ccb_terminal_result_structure_bytes capacity =? RUNNER_TERMINAL_FRAME_BYTES)%N
    && (ccb_portable_result_bytes capacity =? ORDINARY_PORTABLE_RESULT_BYTES)%N
    && bool_decide (expected_outbox = Some (ccb_encoded_outbox_bytes capacity))
  else
    (ccb_condition_transition_count capacity <=? MAXIMUM_CONDITION_TRANSITION_COUNT)%N
    && (1 <=? ccb_aggregate_condition_transition_bytes capacity)%N
    && (ccb_aggregate_condition_transition_bytes capacity <=? MAXIMUM_CONDITION_TRANSITION_BYTES)%N
    && bool_decide (u64_mul (ccb_aggregate_condition_transition_bytes capacity) 2
                    = Some (ccb_terminal_result_structure_bytes capacity))
    && (ccb_terminal_result_structure_bytes capacity <=? MAXIMUM_TERMINAL_RESULT_STRUCTURE_BYTES)%N
    && bool_decide (u64_add (ccb_terminal_result_structure_bytes capacity)
                      (MAXIMUM_ENCODED_RETAINED_STREAM_BYTES + MAXIMUM_EXPORT_MEDIA_TYPE_JSON_BYTES)
                    = Some (ccb_portable_result_bytes capacity))
    && (ccb_portable_result_bytes capacity <=? MAXIMUM_PORTABLE_RESULT_BYTES)%N
    && bool_decide (expected_outbox = Some (ccb_encoded_outbox_bytes capacity))
    && (ccb_encoded_outbox_bytes capacity <=? MAXIMUM_ENCODED_OUTBOX_BYTES)%N.

(** ** The capacity of a workflow *)

(** The fold over the recoveries of [resolve_workflow_capacity]. *)
Fixpoint recovery_totals (recoveries : list (option ValidatedStepRecovery)) (totals : N * N)
    : result (N * N) CapacityCalculationFailure :=
  match recoveries with
  | [] => Ok totals
  | None :: recoveries' => recovery_totals recoveries' totals
  | Some recovery :: recoveries' =>
      let '(recovery_rounds, handler_rounds) := totals in
      let? recovery_rounds := cap_add recovery_rounds (vr_retries recovery) in
      let? handler_rounds :=
        match vr_handler recovery with
        | Some _ => cap_add handler_rounds (vr_retries recovery)
        | None => Ok handler_rounds
        end in
      recovery_totals recoveries' (recovery_rounds, handler_rounds)
  end.

Definition step_common (step : ValidatedStep) : ValidatedCommonStep :=
  match step with VCommand common _ _ => common | VAgent common _ => common end.

Definition conditional_nodes (workflow : ValidatedWorkflow) : nat :=
  length (List.filter (λ step, bool_decide (is_Some (vc_condition (step_common step))))
            (bt_values (vw_steps workflow) ++ (vf_body <$> bt_values (vw_finalizers workflow)))%list).

Definition usize_to_u64 (n : nat) : result N CapacityCalculationFailure :=
  if (N.of_nat n <=? u64_max)%N then Ok (N.of_nat n) else Err CapArithmeticOverflow.

Definition workflow_counts (workflow : ValidatedWorkflow) : result CapacityCounts CapacityCalculationFailure :=
  let? steps := usize_to_u64 (length (vw_steps workflow)) in
  let? finalizers := usize_to_u64 (length (vw_finalizers workflow)) in
  let? (recovery_rounds, handler_rounds) := recovery_totals (bt_values (vw_recoveries workflow)) (0, 0)%N in
  Ok {| cc_steps := steps; cc_finalizers := finalizers; cc_recovery_rounds := recovery_rounds;
        cc_handler_rounds := handler_rounds |}.

Definition as_evidence_failure {T} (r : result T ConditionCapacityFailure)
    : result T CapacityCalculationFailure :=
  match r with Ok v => Ok v | Err _ => Err ConditionEvidenceCapacityExceeded end.

(** [resolve_workflow_capacity]; the digest it is bound to is passed through
    unchanged by the source. *)
Definition resolve_workflow_capacity (workflow : ValidatedWorkflow) (source_closure_bytes : N)
    : result ComputedWorkflowCapacity CapacityCalculationFailure :=
  let? counts := workflow_counts workflow in
  let? requirements := calculate_capacity counts in
  if decide (conditional_nodes workflow = 0) then Ok requirements
  else
    let? evidence := as_evidence_failure (calculate_condition_evidence_capacity source_closure_bytes) in
    let? condition_transition_count := usize_to_u64 (conditional_nodes workflow) in
    let? encoded_outbox_bytes :=
      as_evidence_failure (calculate_condition_outbox_reservation
        (cap_cloud_maximum_transitions requirements) condition_transition_count
        (cec_condition_transition_bytes evidence) (cec_terminal_result_structure_bytes evidence)) in
    Ok {| cap_general_maximum_transitions := cap_general_maximum_transitions requirements;
          cap_cloud_maximum_transitions := cap_cloud_maximum_transitions requirements;
          cap_maximum_invocations := cap_maximum_invocations requirements;
          cap_maximum_retained_bytes_per_invocation := cap_maximum_retained_bytes_per_invocation requirements;
          cap_diagnostic_retention_bytes := cap_diagnostic_retention_bytes requirements;
          cap_native_session_retention_bytes := cap_native_session_retention_bytes requirements;
          cap_aggregate_retention_bytes := cap_aggregate_retention_bytes requirements;
          cap_condition_transition_count := condition_transition_count;
          cap_aggregate_condition_transition_bytes := cec_condition_transition_bytes evidence;
          cap_terminal_result_structure_bytes := cec_terminal_result_structure_bytes evidence;
          cap_portable_result_bytes := cec_portable_result_bytes evidence;
          cap_encoded_outbox_bytes := encoded_outbox_bytes |}.

(** ** Admission *)

Inductive WorkflowExecutionContract := General | WorkflowV1CloudInputsArtifactsV1.

#[export] Instance WorkflowExecutionContract_eq_dec : EqDecision WorkflowExecutionContract.
Proof. solve_decision. Defined.

Record WorkflowCapacityBudget := {
  wcb_maximum_invocations : N;
  wcb_diagnostic_retention_bytes : N;
  wcb_native_session_retention_bytes : N;
  wcb_aggregate_retention_bytes : N;
  wcb_encoded_outbox_bytes : N
}.

(** [WorkflowCapacityBudget::supported_maximum]. *)
Definition supported_maximum : WorkflowCapacityBudget :=
  {| wcb_maximum_invocations := 488;
     wcb_diagnostic_retention_bytes := 134217728;
     wcb_native_session_retention_bytes := 67108864;
     wcb_aggregate_retention_bytes := 201326592;
     wcb_encoded_outbox_bytes := 1024720896 |}.

Inductive CapacityAdmissionFailure :=
| InvocationCapacityUnavailable
| DiagnosticRetentionCapacityUnavailable
| NativeSessionRetentionCapacityUnavailable
| AggregateRetentionCapacityUnavailable
| EncodedOutboxCapacityUnavailable.

(** [admit_capacity] after the check that the capacity is bound to the
    source closure: the ceiling of the run. *)
Definition admit_capacity (requirements : ComputedWorkflowCapacity) (budget : WorkflowCapacityBudget)
    (execution_contract : WorkflowExecutionContract) : result N CapacityAdmissionFailure :=
  if (wcb_maximum_invocations budget <? cap_maximum_invocations requirements)%N
  then Err InvocationCapacityUnavailable
  else if (wcb_diagnostic_retention_bytes budget <? cap_diagnostic_retention_bytes requirements)%N
  then Err DiagnosticRetentionCapacityUnavailable
  else if (wcb_native_session_retention_bytes budget <? cap_native_session_retention_bytes requirements)%N
  then Err NativeSessionRetentionCapacityUnavailable
  else if (wcb_aggregate_retention_bytes budget <? cap_aggregate_retention_bytes requirements)%N
  then Err AggregateRetentionCapacityUnavailable
  else if bool_decide (execution_contract = WorkflowV1CloudInputsArtifactsV1)
          && (wcb_encoded_outbox_bytes budget <? cap_encoded_outbox_bytes requirements)%N
  then Err EncodedOutboxCapacityUnavailable
  else Ok match execution_contract with
          | General => cap_general_maximum_transitions requirements
          | WorkflowV1CloudInputsArtifactsV1 => cap_cloud_maximum_transitions requirements
          end.

(** The numerical checks of [valid_cloud_capacity] ([result_metadata.rs]) on
    a published capacity; the contract name and the digest are strings the
    source compares for equality. *)
Definition valid_cloud_capacity (capacity : ComputedWorkflowCapacity) (selected_maximum_transitions : N) : bool :=
  (1 <=? cap_general_maximum_transitions capacity)%N
  && (cap_general_maximum_transitions capacity <=? 1286)%N
  && (1 <=? selected_maximum_transitions)%N
  && (selected_maximum_transitions <=? 1030)%N
  && (1 <=? cap_maximum_invocations capacity)%N
  && (cap_maximum_invocations capacity <=? 488)%N
  && (1 <=? cap_maximum_retained_bytes_per_invocation capacity)%N
  && (cap_maximum_retained_bytes_per_invocation capacity <=? 4194304)%N
  && (cap_maximum_retained_bytes_per_invocation capacity <=? cap_diagnostic_retention_bytes capacity)%N
  && (cap_diagnostic_retention_bytes capacity <=? 134217728)%N
  && (cap_maximum_retained_bytes_per_invocation capacity <=? cap_native_session_retention_bytes capacity)%N
  && (cap_native_session_retention_bytes capacity <=? 67108864)%N
  && bool_decide (u64_add (cap_diagnostic_retention_bytes capacity) (cap_native_session_retention_bytes capacity)
                  = Some (cap_aggregate_retention_bytes capacity))
  && (cap_aggregate_retention_bytes capacity <=? 201326592)%N
  && valid_condition_capacity
       (from_parts selected_maximum_transitions
          (cap_condition_transition_count capacity, cap_aggregate_condition_transition_bytes capacity)
          (cap_terminal_result_structure_bytes capacity, cap_portable_result_bytes capacity,
           cap_encoded_outbox_bytes capacity)).

(** ** Lemmas *)

Lemma cap_add_Ok a b c : cap_add a b = Ok c ↔ c = (a + b)%N ∧ (a + b <= u64_max)%N.
Proof. unfold cap_add. by rewrite ok_or_Ok, checked_add_Some. Qed.
Lemma checked_product_Ok a b c : checked_product a b = Ok c ↔ c = (a * b)%N ∧ (a * b <= u64_max)%N.
Proof. unfold checked_product. by rewrite ok_or_Ok, checked_mul_Some. Qed.

Lemma weighted_bound_Ok w f k n :
  weighted_bound w f k = Ok n ↔
  n = (w * k + if (f =? 0)%N then 3 else 6)%N ∧ (w * k + (if (f =? 0)%N then 3 else 6) <= u64_max)%N.
Proof.
  unfold weighted_bound. rewrite result_bind_Ok. setoid_rewrite checked_product_Ok. setoid_rewrite cap_add_Ok.
  split; [intros (? & [-> _] & ?); done|]. intros [-> Hle]. exists (w * k)%N. split; [|done]. split; [done|lia].
Qed.

(** The three results of [transition_bounds]. *)
Lemma transition_bounds_Ok counts w g c :
  transition_bounds counts = Ok (w, g, c) →
  let offset := (if (cc_finalizers counts =? 0)%N then 3 else 6)%N in
  w = (cc_steps counts + cc_finalizers counts + cc_recovery_rounds counts)%N
  ∧ g = (w * 5 + offset)%N ∧ c = (w * 4 + offset + cc_handler_rounds counts)%N.
Proof.
  unfold transition_bounds. intros (w' & Hw & Hk)%result_bind_Ok.
  apply ok_or_Ok, bind_Some in Hw as (v & Hv & Hw). apply checked_add_Some in Hv as [-> _].
  apply checked_add_Some in Hw as [-> _].
  apply result_bind_Ok in Hk as (g' & [-> _]%weighted_bound_Ok & Hk).
  apply result_bind_Ok in Hk as (c' & [-> _]%weighted_bound_Ok & Hk).
  apply result_bind_Ok in Hk as (c'' & [-> _]%cap_add_Ok & Hk). simplify_eq. done.
Qed.

Lemma validate_general_Ok m f :
  validate_general_transition_bound m f = Ok tt → (m <= 1280 + if (f =? 0)%N then 3 else 6)%N.
Proof.
  unfold validate_general_transition_bound, GENERAL_MAXIMUM_TRANSITIONS_WITHOUT_FINALIZERS,
    GENERAL_MAXIMUM_TRANSITIONS_WITH_FINALIZERS.
  destruct (f =? 0)%N; case_match eqn:Hc; intros; try done; apply N.ltb_ge in Hc; lia.
Qed.

Lemma validate_cloud_Ok m f :
  validate_cloud_transition_bound m f = Ok tt → (m <= 1024 + if (f =? 0)%N then 3 else 6)%N.
Proof.
  unfold validate_cloud_transition_bound, CLOUD_MAXIMUM_TRANSITIONS_WITHOUT_FINALIZERS,
    CLOUD_MAXIMUM_TRANSITIONS_WITH_FINALIZERS.
  destruct (f =? 0)%N; case_match eqn:Hc; intros; try done; apply N.ltb_ge in Hc; lia.
Qed.

(** Everything [calculate_capacity] guarantees of its result. *)
Lemma calculate_capacity_Ok counts cap :
  calculate_capacity counts = Ok cap →
  let offset := (if (cc_finalizers counts =? 0)%N then 3 else 6)%N in
  let w := (cc_steps counts + cc_finalizers counts + cc_recovery_rounds counts)%N in
  cap_general_maximum_transitions cap = (w * 5 + offset)%N
  ∧ cap_cloud_maximum_transitions cap = (w * 4 + offset + cc_handler_rounds counts)%N
  ∧ (cap_general_maximum_transitions cap <= 1280 + offset)%N
  ∧ (cap_cloud_maximum_transitions cap <= 1024 + offset)%N
  ∧ cap_maximum_invocations cap = (w + cc_handler_rounds counts)%N
  ∧ (0 < cap_maximum_invocations cap)%N
  ∧ cap_maximum_retained_bytes_per_invocation cap
    = N.min (RUN_LOG_BYTE_BUDGET / cap_maximum_invocations cap) MAXIMUM_RETAINED_BYTES_PER_STREAM
  ∧ cap_native_session_retention_bytes cap
    = (cap_maximum_invocations cap * cap_maximum_retained_bytes_per_invocation cap)%N
  ∧ cap_diagnostic_retention_bytes cap = (cap_native_session_retention_bytes cap * 2)%N
  ∧ cap_aggregate_retention_bytes cap
    = (cap_diagnostic_retention_bytes cap + cap_native_session_retention_bytes cap)%N
  ∧ cap_condition_transition_count cap = 0%N
  ∧ cap_aggregate_condition_transition_bytes cap = 0%N
  ∧ cap_terminal_result_structure_bytes cap = RUNNER_TERMINAL_FRAME_BYTES
  ∧ cap_portable_result_bytes cap = ORDINARY_PORTABLE_RESULT_BYTES
  ∧ cap_encoded_outbox_bytes cap
    = ((cap_cloud_maximum_transitions cap + RUNNER_OBSERVATION_RESERVE) * RUNNER_ORDINARY_FRAME_BYTES
       + (RUNNER_TERMINAL_FRAME_BYTES - RUNNER_ORDINARY_FRAME_BYTES))%N.
Proof.
  unfold calculate_capacity. intros ([[w g] c] & Hb & Hk)%result_bind_Ok.
  apply transition_bounds_Ok in Hb as (-> & -> & ->).
  apply result_bind_Ok in Hk as ([] & Hg%validate_general_Ok & Hk).
  apply result_bind_Ok in Hk as ([] & Hc%validate_cloud_Ok & Hk).
  apply result_bind_Ok in Hk as (inv & [-> _]%cap_add_Ok & Hk).
  destruct (N.eqb_spec (cc_steps counts + cc_finalizers counts + cc_recovery_rounds counts + cc_handler_rounds counts) 0) as [|Hinv]; [done|].
  repeat (apply result_bind_Ok in Hk as (? & [-> _]%checked_product_Ok & Hk)
          || apply result_bind_Ok in Hk as (? & [-> _]%cap_add_Ok & Hk)).
  injection Hk as <-. split_and!; done || (simpl; lia).
Qed.

Lemma admit_capacity_general cap budget ceiling :
  admit_capacity cap budget General = Ok ceiling → ceiling = cap_general_maximum_transitions cap.
Proof. unfold admit_capacity. repeat case_match; by intros [= <-]. Qed.

(** Conditions change neither transition bound. *)
Lemma resolve_workflow_capacity_base workflow bytes cap :
  resolve_workflow_capacity workflow bytes = Ok cap →
  ∃ counts base, workflow_counts workflow = Ok counts ∧ calculate_capacity counts = Ok base
    ∧ cap_general_maximum_transitions cap = cap_general_maximum_transitions base
    ∧ cap_cloud_maximum_transitions cap = cap_cloud_maximum_transitions base.
Proof.
  intros (counts & Hcounts & Hk)%result_bind_Ok. apply result_bind_Ok in Hk as (base & Hbase & Hk).
  exists counts, base. split_and!; [done..| |]; (case_decide; [by simplify_eq|]);
    apply result_bind_Ok in Hk as (? & _ & Hk); apply result_bind_Ok in Hk as (? & _ & Hk);
    apply result_bind_Ok in Hk as (? & _ & Hk); by simplify_eq.
Qed.

Lemma resolve_general_bound workflow bytes cap :
  resolve_workflow_capacity workflow bytes = Ok cap → (cap_general_maximum_transitions cap <= 1286)%N.
Proof.
  intros (counts & base & _ & Hbase & -> & _)%resolve_workflow_capacity_base.
  apply calculate_capacity_Ok in Hbase as (_ & _ & Hle & _). destruct (cc_finalizers counts =? 0)%N; lia.
Qed.
