(* ===== verification/Runtime.v ===== *)
(** * The workflow reducer ([runtime.rs])

    The pure state machine at the centre of the engine: a run is a
    [RuntimeState], an observation of the outside world is an [Occurrence],
    and [reduce] turns one state and one occurrence into the next state, the
    transition events to persist and the actions to carry out.

    Every function of the source that takes [&mut Reduction] is a function on
    [Reduction]; those that also return a value return a pair.  The loops of
    the source ([stabilize], the propagation loops and the condition loop)
    carry fuel computed from the definition; [Termination] shows that the
    fuel is never what stops them. *)

From S2P Require Import Prelude Text Nodes Evidence Condition Validated.

(** ** Identifiers and ordinals *)

Abbreviation TransitionSequence := N.
Abbreviation ActionId := N.
Abbreviation TargetExecutionNumber := N.
Abbreviation RecoveryRoundNumber := N.
Abbreviation CancellationOperationId := N.

(** [TransitionSequence::next]. *)
Definition sequence_next (s : TransitionSequence) : TransitionSequence := saturating_add u64_max s 1.

(** [ActionId::for_transition]. *)
Definition for_transition (s : TransitionSequence) : ActionId := s.

(** [ActionId::for_force_abort]. *)
Definition for_force_abort (operation : CancellationOperationId) (index : N) : ActionId :=
  let operation := N.land operation 2147483647 in
  let index := N.land index 4294967295 in
  N.lor (N.lor (N.shiftl 1 63) (N.shiftl operation 32)) index.

(** [ActionId::is_force_abort]. *)
Definition is_force_abort (a : ActionId) : bool := negb (N.land a (N.shiftl 1 63) =? 0)%N.

(** [TargetExecutionNumber::next]; both ordinals are [u8]. *)
Definition execution_next (n : TargetExecutionNumber) : option TargetExecutionNumber :=
  checked_add u8_max n 1.

Definition FIRST : TargetExecutionNumber := 1%N.

(** ** Recovery records *)

Inductive RecoveryHandlerKind := HandlerKindCommand | HandlerKindAgent.

Definition handler_kind_from_validated (handler : ValidatedRecoveryHandler) : RecoveryHandlerKind :=
  match handler with
  | HandlerCommand _ _ => HandlerKindCommand
  | HandlerAgent _ _ _ _ => HandlerKindAgent
  end.

Inductive RecoveryHandlerActivity := HandlerStarting | HandlerRunning.

Inductive ActiveStepInvocation :=
| ActiveTarget (execution_number : TargetExecutionNumber)
| ActiveRecoveryHandler (round : RecoveryRoundNumber).

Record ProvisionalTargetFailure (Cause : Type) := {
  ptf_execution_number : TargetExecutionNumber;
  ptf_invocation : ActionId;
  ptf_phase : FailurePhase;
  ptf_detail : FailureDetail;
  ptf_cause : Cause
}.
Arguments ptf_execution_number {_} _.
Arguments ptf_invocation {_} _.
Arguments ptf_phase {_} _.
Arguments ptf_detail {_} _.
Arguments ptf_cause {_} _.

Inductive RecoveryDecisionKind := Recheck | GaveUp.

Record RecoveryDecision := {
  dec_kind : RecoveryDecisionKind;
  dec_summary : string;
  dec_reason : string
}.

Inductive RecoveryHandlerFailurePhase := HandlerPhaseStart | HandlerPhaseExecution.

Inductive RecoveryHandlerOutcome (Cause : Type) :=
| OutcomeStarting
| OutcomeRunning
| OutcomeRecheck (summary reason : string)
| OutcomeGaveUp (summary reason : string)
| OutcomeFailed (phase : RecoveryHandlerFailurePhase) (cause : Cause)
| OutcomeCancelled.
Arguments OutcomeStarting {_}.
Arguments OutcomeRunning {_}.
Arguments OutcomeRecheck {_} _ _.
Arguments OutcomeGaveUp {_} _ _.
Arguments OutcomeFailed {_} _ _.
Arguments OutcomeCancelled {_}.

Record RecoveryHandlerRecord (Cause : Type) := {
  rhr_kind : RecoveryHandlerKind;
  rhr_invocation : ActionId;
  rhr_outcome : RecoveryHandlerOutcome Cause
}.
Arguments rhr_kind {_} _.
Arguments rhr_invocation {_} _.
Arguments rhr_outcome {_} _.

Record RecoveryRoundRecord (Cause : Type) := {
  rrr_number : RecoveryRoundNumber;
  rrr_failed_execution : ProvisionalTargetFailure Cause;
  rrr_handler : option (RecoveryHandlerRecord Cause)
}.
Arguments rrr_number {_} _.
Arguments rrr_failed_execution {_} _.
Arguments rrr_handler {_} _.

Inductive RecoveryTerminalDisposition :=
| RecoveryRecovered (execution_number : TargetExecutionNumber)
| RecoveryExhausted (execution_number : TargetExecutionNumber)
| RecoveryGaveUp (round : RecoveryRoundNumber)
| RecoveryHandlerFailed (round : RecoveryRoundNumber) (phase : RecoveryHandlerFailurePhase)
| RecoveryCancelled (round : RecoveryRoundNumber) (active : ActiveStepInvocation).

Record StepRecoveryState (Cause : Type) := {
  sr_configured_rounds : N;
  sr_handler_kind : option RecoveryHandlerKind;
  sr_rounds : list (RecoveryRoundRecord Cause);
  sr_terminal_disposition : option RecoveryTerminalDisposition
}.
Arguments sr_configured_rounds {_} _.
Arguments sr_handler_kind {_} _.
Arguments sr_rounds {_} _.
Arguments sr_terminal_disposition {_} _.

(** ** Workflow and step states *)

Inductive SchedulingGate :=
| GateOpen
| GateFailureStopped (primary_issue : PrimaryIssue)
| GateCancelling (reason : CancellationReason) (prior_issue : option PrimaryIssue).

Inductive FinalizationGate (Deadline : Type) :=
| FinOpen
| FinCancelling (reason : CancellationReason) (deadline : option Deadline) (force_abort : bool).
Arguments FinOpen {_}.
Arguments FinCancelling {_} _ _ _.

Inductive WorkflowState (Deadline : Type) :=
| WExecuting (gate : SchedulingGate)
| WFinalizing (trigger : FinalizationTrigger) (gate : FinalizationGate Deadline)
    (primary_issue : option PrimaryIssue)
| WSucceeded
| WFailed (primary_issue : PrimaryIssue) (later_cancellation : option CancellationReason)
| WCancelled (reason : CancellationReason).
Arguments WExecuting {_} _.
Arguments WFinalizing {_} _ _ _.
Arguments WSucceeded {_}.
Arguments WFailed {_} _ _.
Arguments WCancelled {_} _.

(** [WorkflowState::map_deadline]. *)
Definition map_deadline {Deadline Mapped} (map : Deadline → Mapped) (w : WorkflowState Deadline)
    : WorkflowState Mapped :=
  match w with
  | WExecuting gate => WExecuting gate
  | WFinalizing trigger gate primary_issue =>
      WFinalizing trigger
        match gate with
        | FinOpen => FinOpen
        | FinCancelling reason deadline force_abort => FinCancelling reason (map <$> deadline) force_abort
        end primary_issue
  | WSucceeded => WSucceeded
  | WFailed primary_issue later_cancellation => WFailed primary_issue later_cancellation
  | WCancelled reason => WCancelled reason
  end.

Inductive InheritedDisposition := InhSucceeded | InhSkipped.

Abbreviation OutputSet Output := (btree Output).

Record OutputProducer := {
  op_attempt_id : string;
  op_attempt_number : N;
  op_node : string;
  op_output : string
}.

Inductive StepState (Output : Type) :=
| SPending
| SStarting
| SRunning
| SCapturingOutputs
| SRecovering (round : RecoveryRoundNumber) (handler : RecoveryHandlerActivity)
| SCancelling (detail : CancellationDetail)
| SSucceeded (outputs : OutputSet Output)
| SInherited (detail : InheritedDetail) (disposition : InheritedDisposition) (outputs : OutputSet Output)
| SFailed (detail : FailureDetail)
| SBlocked (detail : BlockedDetail)
| SSkipped (detail : ConditionFalseDetail)
| SNotRun (detail : NonExecutionDetail)
| SCancelled (detail : CancellationDetail).
Arguments SPending {_}.
Arguments SStarting {_}.
Arguments SRunning {_}.
Arguments SCapturingOutputs {_}.
Arguments SRecovering {_} _ _.
Arguments SCancelling {_} _.
Arguments SSucceeded {_} _.
Arguments SInherited {_} _ _ _.
Arguments SFailed {_} _.
Arguments SBlocked {_} _.
Arguments SSkipped {_} _.
Arguments SNotRun {_} _.
Arguments SCancelled {_} _.

Inductive StepStateKind :=
| KPending | KStarting | KRunning | KCapturingOutputs | KRecovering | KCancelling
| KSucceeded | KInherited | KFailed | KBlocked | KSkipped | KNotRun | KCancelled.

#[export] Instance RecoveryHandlerKind_eq_dec : EqDecision RecoveryHandlerKind.
Proof. solve_decision. Defined.
#[export] Instance RecoveryHandlerActivity_eq_dec : EqDecision RecoveryHandlerActivity.
Proof. solve_decision. Defined.
#[export] Instance ActiveStepInvocation_eq_dec : EqDecision ActiveStepInvocation.
Proof. solve_decision. Defined.
#[export] Instance InheritedDisposition_eq_dec : EqDecision InheritedDisposition.
Proof. solve_decision. Defined.
#[export] Instance StepStateKind_eq_dec : EqDecision StepStateKind.
Proof. solve_decision. Defined.

(** [StepState::kind]. *)
Definition state_kind {Output} (s : StepState Output) : StepStateKind :=
  match s with
  | SPending => KPending
  | SStarting => KStarting
  | SRunning => KRunning
  | SCapturingOutputs => KCapturingOutputs
  | SRecovering _ _ => KRecovering
  | SCancelling _ => KCancelling
  | SSucceeded _ => KSucceeded
  | SInherited _ _ _ => KInherited
  | SFailed _ => KFailed
  | SBlocked _ => KBlocked
  | SSkipped _ => KSkipped
  | SNotRun _ => KNotRun
  | SCancelled _ => KCancelled
  end.

(** [StepState::is_active]. *)
Definition is_active {Output} (s : StepState Output) : bool :=
  match s with
  | SStarting | SRunning | SCapturingOutputs | SRecovering _ _ | SCancelling _ => true
  | _ => false
  end.

(** [StepState::is_terminal]. *)
Definition is_terminal {Output} (s : StepState Output) : bool :=
  match s with
  | SSucceeded _ | SInherited _ _ _ | SFailed _ | SBlocked _ | SSkipped _ | SNotRun _ | SCancelled _ => true
  | _ => false
  end.

Definition is_pending {Output} (s : StepState Output) : bool :=
  match s with SPending => true | _ => false end.

Record StepRuntimeState (Cause Output : Type) := {
  ss_state : StepState Output;
  ss_current_action : option ActionId;
  ss_target_execution : option TargetExecutionNumber;
  ss_target_invocation : option ActionId;
  ss_active_invocation : option ActiveStepInvocation;
  ss_recovery : option (StepRecoveryState Cause);
  ss_condition_passed : bool
}.
Arguments ss_state {_ _} _.
Arguments ss_current_action {_ _} _.
Arguments ss_target_execution {_ _} _.
Arguments ss_target_invocation {_ _} _.
Arguments ss_active_invocation {_ _} _.
Arguments ss_recovery {_ _} _.
Arguments ss_condition_passed {_ _} _.

(** ** The run's definition *)

Record RuntimeRecovery := {
  rr_retries : N;
  rr_handler_kind : option RecoveryHandlerKind
}.

Record RuntimeStep := {
  rt_role : WorkflowNodeRole;
  rt_is_agent : bool;
  rt_failure_policy : FailurePolicy;
  rt_condition : option ResolvedPredicate;
  rt_condition_values : btree ResolvedValueSource;
  rt_prerequisites : list ResolvedDirectPrerequisite;
  rt_evidence_prerequisites : list Prerequisite;
  rt_inputs : btree ResolvedValueSource;
  rt_declared_outputs : list string;
  rt_recovery : option RuntimeRecovery;
  rt_when : list FinalizationTrigger
}.

Record RuntimeExport := { re_step : string; re_output : string }.

Record RuntimeDefinition := {
  def_steps : btree RuntimeStep;
  def_ordinary_ids : list string;
  def_finalizer_ids : list string;
  def_finalizer_presentation_order : list string;
  def_exports : btree RuntimeExport;
  def_maximum_parallel_steps : nat;
  def_maximum_transitions : N;
  def_text_inputs : btree string;
  def_json_inputs : btree Value
}.

Definition common_step (step : ValidatedStep) : ValidatedCommonStep :=
  match step with VCommand common _ _ => common | VAgent common _ => common end.

Definition is_agent_step (step : ValidatedStep) : bool :=
  match step with VAgent _ _ => true | VCommand _ _ _ => false end.

(** The message sources of an agent that become inputs of its action. *)
Definition message_input (source : ValidatedMessageSource) : option (string * ResolvedValueSource) :=
  match source with
  | MessageReference source _ =>
      match source with
      | SourceOutput output => Some (output_source_reference output, source)
      | SourceFinalizationContext => Some ("finalization.context", SourceFinalizationContext)
      | SourceInput _ => None
      end
  | MessageFile _ => None
  end.

Definition runtime_step (role : WorkflowNodeRole) (step : ValidatedStep)
    (recovery : option ValidatedStepRecovery) (when : list FinalizationTrigger) : RuntimeStep :=
  let common := common_step step in
  {| rt_role := role;
     rt_is_agent := is_agent_step step;
     rt_failure_policy := vc_failure_policy common;
     rt_condition := vc_condition common;
     rt_condition_values := vc_condition_values common;
     rt_prerequisites := vc_prerequisites common;
     rt_evidence_prerequisites := vc_evidence_prerequisites common;
     rt_inputs := match step with
                  | VCommand _ inputs _ => (λ '(name, reference), (name, rvr_source reference)) <$> inputs
                  | VAgent _ agent =>
                      bt_collect (omap message_input
                        (vm_text (va_message agent) ++ vm_attachments (va_message agent))%list)
                  end;
     rt_declared_outputs := bt_keys (vc_outputs common);
     rt_recovery := (λ recovery, {| rr_retries := vr_retries recovery;
                                    rr_handler_kind := handler_kind_from_validated <$> vr_handler recovery |})
                    <$> recovery;
     rt_when := when |}.

Definition runtime_finalizer (finalizer : ValidatedFinalizer) : RuntimeStep :=
  runtime_step RoleFinalizer (vf_body finalizer) None (vf_when finalizer).

(** [RuntimeDefinition::from_workflow]. *)
Definition from_workflow (workflow : ValidatedWorkflow) (maximum_parallel_steps : nat)
    (maximum_transitions : N) : RuntimeDefinition :=
  {| def_steps :=
       bt_collect
         (((λ '(id, step),
              (id, runtime_step RoleStep step (mjoin (bt_get (vw_recoveries workflow) id)) []))
           <$> vw_steps workflow)
          ++ ((λ '(id, finalizer), (id, runtime_finalizer finalizer)) <$> vw_finalizers workflow))%list;
     def_ordinary_ids := bt_keys (vw_steps workflow);
     def_finalizer_ids := bt_keys (vw_finalizers workflow);
     def_finalizer_presentation_order := vw_finalizer_presentation_order workflow;
     def_exports := (λ '(name, source),
                       (name, {| re_step := node_id (ros_node source); re_output := ros_output source |}))
                    <$> vw_exports workflow;
     def_maximum_parallel_steps := maximum_parallel_steps;
     def_maximum_transitions := maximum_transitions;
     def_text_inputs := [];
     def_json_inputs := [] |}.

(** The admitted inputs; file and attachment payloads never reach the
    reducer. *)
Inductive ResolvedInput :=
| InputText (value : string)
| InputJson (value : Value)
| InputFile
| InputAttachments.

(** The parts of [AdmittedWorkflow] the reducer reads. *)
Record AdmittedWorkflow := {
  adm_definition : ValidatedWorkflow;
  adm_maximum_parallel_steps : nat;
  adm_maximum_transitions : N;
  adm_inputs : btree ResolvedInput
}.

(** [RuntimeDefinition::from_admitted]. *)
Definition from_admitted (admitted : AdmittedWorkflow) : RuntimeDefinition :=
  let definition := from_workflow (adm_definition admitted) (adm_maximum_parallel_steps admitted)
                      (adm_maximum_transitions admitted) in
  {| def_steps := def_steps definition;
     def_ordinary_ids := def_ordinary_ids definition;
     def_finalizer_ids := def_finalizer_ids definition;
     def_finalizer_presentation_order := def_finalizer_presentation_order definition;
     def_exports := def_exports definition;
     def_maximum_parallel_steps := def_maximum_parallel_steps definition;
     def_maximum_transitions := def_maximum_transitions definition;
     def_text_inputs := omap (λ '(name, input),
       match input with InputText value => Some (name, value) | _ => None end) (adm_inputs admitted);
     def_json_inputs := omap (λ '(name, input),
       match input with InputJson value => Some (name, value) | _ => None end) (adm_inputs admitted) |}.

(** ** Seeds: steps inherited from an earlier attempt *)

Record InheritedStepSeed (Output : Type) := {
  seed_detail : InheritedDetail;
  seed_disposition : InheritedDisposition;
  seed_outputs : OutputSet Output;
  seed_producers : btree OutputProducer
}.
Arguments seed_detail {_} _.
Arguments seed_disposition {_} _.
Arguments seed_outputs {_} _.
Arguments seed_producers {_} _.

Abbreviation ExecutionSeed Output := (btree (InheritedStepSeed Output)).

Inductive ExecutionSeedError := UnknownStep | SeedFinalizer | InvalidDetail | InvalidOutputs | InvalidProducer.

(** The checks of one iteration of [ExecutionSeed::new]. *)
Definition check_seed {Output} (workflow : ValidatedWorkflow) (id : string) (seed : InheritedStepSeed Output)
    : option ExecutionSeedError :=
  let detail := seed_detail seed in
  let disposition :=
    match id_prior_state detail with
    | PriorSucceeded => InhSucceeded
    | PriorSkipped => InhSkipped
    | PriorInherited => seed_disposition seed
    end in
  if negb (bool_decide (disposition = seed_disposition seed)) then Some InvalidDetail
  else if negb (bt_contains_key (vw_steps workflow) id) then
    Some (if bt_contains_key (vw_finalizers workflow) id then SeedFinalizer else UnknownStep)
  else if str_is_empty (id_prior_attempt_id detail) || (id_prior_attempt_number detail =? 0)%N then
    Some InvalidDetail
  else if (bool_decide (disposition = InhSkipped) && negb (bool_decide (bt_keys (seed_outputs seed) = [])))
          || negb (bool_decide (bt_keys (seed_producers seed) = bt_keys (seed_outputs seed))) then
    Some InvalidOutputs
  else if existsb (λ '(output, producer),
            str_is_empty (op_attempt_id producer)
            || (op_attempt_number producer =? 0)%N
            || (id_prior_attempt_number detail <? op_attempt_number producer)%N
            || negb (bool_decide (op_node producer = id))
            || negb (bool_decide (op_output producer = output))) (seed_producers seed) then
    Some InvalidProducer
  else None.

(** [ExecutionSeed::new]. *)
Fixpoint execution_seed_check {Output} (workflow : ValidatedWorkflow) (steps : ExecutionSeed Output)
    : result unit ExecutionSeedError :=
  match steps with
  | [] => Ok tt
  | (id, seed) :: steps' =>
      match check_seed workflow id seed with
      | Some e => Err e
      | None => execution_seed_check workflow steps'
      end
  end.

Definition execution_seed_new {Output} (workflow : ValidatedWorkflow) (steps : ExecutionSeed Output)
    : result (ExecutionSeed Output) ExecutionSeedError :=
  let? _ := execution_seed_check workflow steps in Ok steps.

(** ** Exports, outcomes and finalization *)

Inductive ExportUnavailableReason :=
| ExFailed | ExBlocked | ExSkipped | ExNotRun | ExTriggerNotSelected | ExCancelled.

Inductive ExportValue (Output : Type) :=
| ExportAvailable (output : Output)
| ExportUnavailable (reason : ExportUnavailableReason).
Arguments ExportAvailable {_} _.
Arguments ExportUnavailable {_} _.

Abbreviation ExportSet Output := (btree (ExportValue Output)).

(** [OrdinaryOutcome] and the adapter-facing [RunOutcome] have the same
    shape in the source, and [finish_run] maps one to the other. *)
Inductive OrdinaryOutcome :=
| OrdSucceeded
| OrdFailed (primary_issue : PrimaryIssue) (later_cancellation : option CancellationReason)
| OrdCancelled (reason : CancellationReason).

Inductive RunOutcome :=
| RunSucceeded
| RunFailed (primary_issue : PrimaryIssue) (later_cancellation : option CancellationReason)
| RunCancelled (reason : CancellationReason).

Inductive RunCancellationPhase := PhaseOrdinary | PhaseFinalization.

Record ForceAbortEvidence := {
  fae_reason : CancellationReason;
  fae_phase : RunCancellationPhase
}.

Record FinalizationCancellation (Deadline : Type) := {
  fin_reason : CancellationReason;
  fin_deadline : option Deadline
}.
Arguments fin_reason {_} _.
Arguments fin_deadline {_} _.

Record FinalizerResult := {
  fr_finalizer : string;
  fr_failure_policy : FailurePolicy;
  fr_disposition : StepState unit
}.

Record FinalizationSummary (Deadline : Type) := {
  fs_trigger : FinalizationTrigger;
  fs_finalizers : list FinalizerResult;
  fs_cancellation : option (FinalizationCancellation Deadline);
  fs_force_abort : bool
}.
Arguments fs_trigger {_} _.
Arguments fs_finalizers {_} _.
Arguments fs_cancellation {_} _.
Arguments fs_force_abort {_} _.

Record FinalizationRuntime (Deadline : Type) := {
  fnr_trigger : FinalizationTrigger;
  fnr_context : string;
  fnr_ordinary_outcome : OrdinaryOutcome;
  fnr_cancellation : option (FinalizationCancellation Deadline);
  fnr_force_abort : bool
}.
Arguments fnr_trigger {_} _.
Arguments fnr_context {_} _.
Arguments fnr_ordinary_outcome {_} _.
Arguments fnr_cancellation {_} _.
Arguments fnr_force_abort {_} _.

#[export] Instance RunCancellationPhase_eq_dec : EqDecision RunCancellationPhase.
Proof. solve_decision. Defined.

(** ** The state of a run *)

Record RuntimeState (Cause Output Deadline : Type) := {
  rs_definition : RuntimeDefinition;
  rs_workflow : WorkflowState Deadline;
  rs_steps : gmap string (StepRuntimeState Cause Output);
  rs_output_producers : gmap (string * string) OutputProducer;
  rs_exports : option (ExportSet Output);
  rs_finalization_summary : option (FinalizationSummary Deadline);
  rs_finalization : option (FinalizationRuntime Deadline);
  rs_force_abort : option ForceAbortEvidence;
  rs_last_cancellation_operation : option CancellationOperationId;
  rs_last_transition_sequence : TransitionSequence;
  rs_transition_capacity_exceeded : bool
}.
Arguments rs_definition {_ _ _} _.
Arguments rs_workflow {_ _ _} _.
Arguments rs_steps {_ _ _} _.
Arguments rs_output_producers {_ _ _} _.
Arguments rs_exports {_ _ _} _.
Arguments rs_finalization_summary {_ _ _} _.
Arguments rs_finalization {_ _ _} _.
Arguments rs_force_abort {_ _ _} _.
Arguments rs_last_cancellation_operation {_ _ _} _.
Arguments rs_last_transition_sequence {_ _ _} _.
Arguments rs_transition_capacity_exceeded {_ _ _} _.

Record CancellationRequest (Deadline : Type) := {
  cr_reason : CancellationReason;
  cr_deadline : Deadline
}.
Arguments cr_reason {_} _.
Arguments cr_deadline {_} _.

(** ** Occurrences, actions and events *)

Inductive Occurrence (Provisional Cause Output Deadline : Type) :=
| StepStarted (step : string) (action : ActionId)
| StepStartFailed (step : string) (action : ActionId) (cause : Cause)
| StepExecutionCompleted (step : string) (action : ActionId) (provisional : Provisional)
| StepExecutionFailed (step : string) (action : ActionId) (cause : Cause)
| OutputsCaptured (step : string) (action : ActionId) (outputs : OutputSet Output)
| OutputCaptureFailed (step : string) (action : ActionId) (cause : Cause)
| RecoveryHandlerStarted (step : string) (round : RecoveryRoundNumber) (action : ActionId)
| RecoveryHandlerStartFailed (step : string) (round : RecoveryRoundNumber) (action : ActionId) (cause : Cause)
| RecoveryHandlerCompleted (step : string) (round : RecoveryRoundNumber) (action : ActionId)
    (decision : RecoveryDecision)
| RecoveryHandlerExecutionFailed (step : string) (round : RecoveryRoundNumber) (action : ActionId)
    (cause : Cause)
| CancellationOperationRequested (operation : CancellationOperationId) (reason : CancellationReason)
    (deadline : Deadline)
| OrdinaryCancellationOperationRequested (operation : CancellationOperationId)
    (reason : CancellationReason) (deadline : Deadline)
| ForceAbortRequested (operation : CancellationOperationId) (deadline : Deadline)
| StepQuiesced (step : string) (action : ActionId).
Arguments StepStarted {_ _ _ _} _ _.
Arguments StepStartFailed {_ _ _ _} _ _ _.
Arguments StepExecutionCompleted {_ _ _ _} _ _ _.
Arguments StepExecutionFailed {_ _ _ _} _ _ _.
Arguments OutputsCaptured {_ _ _ _} _ _ _.
Arguments OutputCaptureFailed {_ _ _ _} _ _ _.
Arguments RecoveryHandlerStarted {_ _ _ _} _ _ _.
Arguments RecoveryHandlerStartFailed {_ _ _ _} _ _ _ _.
Arguments RecoveryHandlerCompleted {_ _ _ _} _ _ _ _.
Arguments RecoveryHandlerExecutionFailed {_ _ _ _} _ _ _ _.
Arguments CancellationOperationRequested {_ _ _ _} _ _ _.
Arguments OrdinaryCancellationOperationRequested {_ _ _ _} _ _ _.
Arguments ForceAbortRequested {_ _ _ _} _ _.
Arguments StepQuiesced {_ _ _ _} _ _.

Inductive ActionInput (Output : Type) :=
| AInWorkflowInput
| AInOutput (output : Output)
| AInFinalizationContext (context : string)
| AInUnavailable.
Arguments AInWorkflowInput {_}.
Arguments AInOutput {_} _.
Arguments AInFinalizationContext {_} _.
Arguments AInUnavailable {_}.

Inductive Action (Provisional Cause Output Deadline : Type) :=
| StartStep (step : string) (execution_number : TargetExecutionNumber) (inputs : btree (ActionInput Output))
| StartRecoveryHandler (step : string) (round : RecoveryRoundNumber) (kind : RecoveryHandlerKind)
    (history : list (RecoveryRoundRecord Cause))
| CaptureOutputs (step : string) (provisional : Provisional)
| ReleaseStepResources (provisional : Provisional)
| CancelStep (step : string) (active : ActiveStepInvocation) (reason : CancellationReason) (deadline : Deadline)
| ForceAbortStep (step : string) (active : ActiveStepInvocation) (reason : CancellationReason)
    (deadline : Deadline)
| FinishRun (outcome : RunOutcome) (exports : ExportSet Output).
Arguments StartStep {_ _ _ _} _ _ _.
Arguments StartRecoveryHandler {_ _ _ _} _ _ _ _.
Arguments CaptureOutputs {_ _ _ _} _ _.
Arguments ReleaseStepResources {_ _ _ _} _.
Arguments CancelStep {_ _ _ _} _ _ _ _.
Arguments ForceAbortStep {_ _ _ _} _ _ _ _.
Arguments FinishRun {_ _ _ _} _ _.

Record RequestedAction (Provisional Cause Output Deadline : Type) := {
  ra_id : ActionId;
  ra_action : Action Provisional Cause Output Deadline
}.
Arguments ra_id {_ _ _ _} _.
Arguments ra_action {_ _ _ _} _.

Inductive TransitionEvent (Deadline : Type) :=
| EvStep (sequence : TransitionSequence) (step : string) (role : WorkflowNodeRole)
    (failure_policy : FailurePolicy) (from to : StepStateKind)
| EvWorkflow (sequence : TransitionSequence) (from to : WorkflowState Deadline)
| EvCancellationAccepted (sequence : TransitionSequence) (reason : CancellationReason) (deadline : Deadline)
| EvFinalizationCancellationAccepted (sequence : TransitionSequence) (reason : CancellationReason)
    (deadline : Deadline)
| EvForceAbortAccepted (sequence : TransitionSequence) (reason : CancellationReason)
    (phase : RunCancellationPhase).
Arguments EvStep {_} _ _ _ _ _ _.
Arguments EvWorkflow {_} _ _ _.
Arguments EvCancellationAccepted {_} _ _ _.
Arguments EvFinalizationCancellationAccepted {_} _ _ _.
Arguments EvForceAbortAccepted {_} _ _ _.

Definition event_sequence {Deadline} (e : TransitionEvent Deadline) : TransitionSequence :=
  match e with
  | EvStep s _ _ _ _ _ | EvWorkflow s _ _ | EvCancellationAccepted s _ _
  | EvFinalizationCancellationAccepted s _ _ | EvForceAbortAccepted s _ _ => s
  end.

Record Reduction (Provisional Cause Output Deadline : Type) := {
  rd_state : RuntimeState Cause Output Deadline;
  rd_events : list (TransitionEvent Deadline);
  rd_actions : list (RequestedAction Provisional Cause Output Deadline);
  rd_occurrence_accepted : bool
}.
Arguments rd_state {_ _ _ _} _.
Arguments rd_events {_ _ _ _} _.
Arguments rd_actions {_ _ _ _} _.
Arguments rd_occurrence_accepted {_ _ _ _} _.

(** [InitialCancellation] and [ExecutionStart]. *)
Inductive InitialCancellation (Deadline : Type) :=
| InitialGraceful (request : CancellationRequest Deadline) (operation : option CancellationOperationId)
| InitialForceAbort (operation : CancellationOperationId) (deadline : Deadline).
Arguments InitialGraceful {_} _ _.
Arguments InitialForceAbort {_} _ _.

(** ** The traits the reducer is generic over *)

Class ConditionOutput (Output : Type) := {
  condition_text : Output → option string;
  condition_json : Output → option Value
}.

Class ProvisionalStepResources (Provisional : Type) := {
  requires_release : Provisional → bool
}.

(** ** Action identities

    The identity of a requested action is one 64-bit number; transitions use
    the lower half of the range, containment actions of a force abort the
    upper half. *)

Local Open Scope N_scope.

(** A value below a power of two has no bit at or above it. *)
Lemma land_shiftl_low a b n : b < 2 ^ n → N.land (N.shiftl a n) b = 0.
Proof.
  intros Hb. apply N.bits_inj_0. intros m. rewrite N.land_spec. destruct (N.lt_ge_cases m n) as [Hm|Hm].
  - by rewrite N.shiftl_spec_low.
  - rewrite (N.testbit_eqb b), N.div_small, andb_false_r; [done|].
    eapply N.lt_le_trans; [done|]. by apply N.pow_le_mono_r.
Qed.

Lemma lor_shiftl_low a b n : b < 2 ^ n → N.lor (N.shiftl a n) b = a * 2 ^ n + b.
Proof.
  intros Hb. rewrite <-N.lxor_lor by by apply land_shiftl_low.
  rewrite <-N.add_nocarry_lxor by by apply land_shiftl_low. by rewrite N.shiftl_mul_pow2.
Qed.

(** The identity as a sum of its fields. *)
Lemma for_force_abort_fields operation index :
  operation < 2 ^ 31 → index < 2 ^ 32 → for_force_abort operation index = 2 ^ 63 + operation * 2 ^ 32 + index.
Proof.
  intros Ho Hi. unfold for_force_abort.
  change 2147483647 with (N.ones 31). change 4294967295 with (N.ones 32). rewrite !N.land_ones, !N.mod_small by done.
  assert (Hhigh : N.lor (N.shiftl 1 63) (N.shiftl operation 32) = N.shiftl (2 ^ 31 + operation) 32).
  { rewrite lor_shiftl_low, !N.shiftl_mul_pow2 by (rewrite N.shiftl_mul_pow2; lia). lia. }
  rewrite Hhigh, lor_shiftl_low by done. lia.
Qed.

Lemma is_force_abort_high a : a < 2 ^ 64 → is_force_abort a = (2 ^ 63 <=? a).
Proof.
  intros Ha. unfold is_force_abort. change (N.shiftl 1 63) with (2 ^ 63).
  destruct (N.leb_spec (2 ^ 63) a) as [Hle|Hlt].
  - apply negb_true_iff, N.eqb_neq. intros Hz. apply (f_equal (λ n, N.testbit n 63)) in Hz.
    rewrite N.land_spec, N.pow2_bits_true, andb_true_r, N.bits_0, N.testbit_eqb in Hz.
    assert (a / 2 ^ 63 = 1) as Hq by (symmetry; apply (N.div_unique _ _ _ (a - 2 ^ 63)); lia).
    by rewrite Hq in Hz.
  - apply negb_false_iff, N.eqb_eq. rewrite N.land_comm. change (2 ^ 63) with (N.shiftl 1 63). by apply land_shiftl_low.
Qed.

(** Identities never clash: a containment identity is a 64-bit number
    that is recognised as one, an identity of a transition below [2 ^ 63] is
    not, and two containment identities of operations and positions within
    their fields are equal only when both agree. *)
Lemma action_identities_disjoint :
  (∀ operation index, operation < 2 ^ 31 → index < 2 ^ 32 →
     is_force_abort (for_force_abort operation index) = true ∧ for_force_abort operation index <= u64_max)
  ∧ (∀ s, s < 2 ^ 63 → is_force_abort (for_transition s) = false)
  ∧ (∀ o o' i i', o < 2 ^ 31 → o' < 2 ^ 31 → i < 2 ^ 32 → i' < 2 ^ 32 →
       for_force_abort o i = for_force_abort o' i' → o = o' ∧ i = i').
Proof.
  split; [|split].
  - intros o i Ho Hi. rewrite for_force_abort_fields by done.
    assert (2 ^ 63 + o * 2 ^ 32 + i < 2 ^ 64) by lia. rewrite is_force_abort_high by done.
    split; [apply N.leb_le; lia|unfold u64_max; lia].
  - intros s Hs. unfold for_transition. rewrite is_force_abort_high by lia. apply N.leb_gt. lia.
  - intros o o' i i' Ho Ho' Hi Hi'. rewrite !for_force_abort_fields by done. intros Heq.
    assert (o = o') by nia. lia.
Qed.
