(* ===== verification/RunTiming.v ===== *)
(** * Timing of a run

    What an observer of the transitions of a run keeps of their times
    ([run_timing.rs]): when each node started and finished, the accepted
    cancellation with its deadline, and the end of the run.

    The times are those of the [time] crate and of [std::time::Instant]: a
    UTC time is a parameter with its formatting, a monotonic instant counts
    nanoseconds. *)

From S2P Require Import Prelude Text Nodes Runtime.

(** The [time] crate: [OffsetDateTime], its formatting in UTC and its
    parsing, both by RFC 3339. *)
Class TimeLibrary := {
  OffsetDateTime : Type;
  format_utc : OffsetDateTime → option string;
  parse_rfc3339 : string → option OffsetDateTime
}.

(** What the code relies on: a formatted UTC time ends in [Z], and it parses
    to a time that is formatted the same. *)
Record TimeLaws `{TimeLibrary} : Prop := {
  format_ends t s : format_utc t = Some s → last (bytes s) = Some "Z"%char;
  format_parses t s : format_utc t = Some s → ∃ t', parse_rfc3339 s = Some t' ∧ format_utc t' = Some s
}.

(** Instants and durations of the standard library, in nanoseconds. *)
Definition Instant := Z.
Definition Duration := N.

(** [Instant::saturating_duration_since]. *)
Definition saturating_duration_since (later earlier : Instant) : Duration := Z.to_N (later - earlier).

Section timing.
Context `{TimeLibrary} {Deadline : Type} (deadline_utc : Deadline → OffsetDateTime).

Record ObservationTime := { obs_utc : OffsetDateTime; obs_monotonic : Instant }.

Record ObservedStepTiming := { ost_started : ObservationTime; ost_finished : option Instant }.

Record RunTimingSnapshot := {
  rts_presentation_opened : ObservationTime;
  rts_execution_started : option ObservationTime;
  rts_steps : gmap string ObservedStepTiming;
  rts_cancellation : option (CancellationReason * OffsetDateTime);
  rts_terminal : option ObservationTime;
  rts_quiesced : option ObservationTime
}.

(** [RunTimingObservation::new]. *)
Definition timing_new (presentation_opened : ObservationTime) : RunTimingSnapshot :=
  {| rts_presentation_opened := presentation_opened; rts_execution_started := None; rts_steps := ∅;
     rts_cancellation := None; rts_terminal := None; rts_quiesced := None |}.

(** [Option::get_or_insert]. *)
Definition get_or_insert {A} (o : option A) (v : A) : option A := Some (default v o).

Definition set_timing_steps (v : gmap string ObservedStepTiming) (t : RunTimingSnapshot) : RunTimingSnapshot :=
  {| rts_presentation_opened := rts_presentation_opened t; rts_execution_started := rts_execution_started t;
     rts_steps := v; rts_cancellation := rts_cancellation t; rts_terminal := rts_terminal t;
     rts_quiesced := rts_quiesced t |}.

Definition set_timing_cancellation (v : option (CancellationReason * OffsetDateTime)) (t : RunTimingSnapshot)
    : RunTimingSnapshot :=
  {| rts_presentation_opened := rts_presentation_opened t; rts_execution_started := rts_execution_started t;
     rts_steps := rts_steps t; rts_cancellation := v; rts_terminal := rts_terminal t;
     rts_quiesced := rts_quiesced t |}.

Definition set_timing_terminal (v : option ObservationTime) (t : RunTimingSnapshot) : RunTimingSnapshot :=
  {| rts_presentation_opened := rts_presentation_opened t; rts_execution_started := rts_execution_started t;
     rts_steps := rts_steps t; rts_cancellation := rts_cancellation t; rts_terminal := v;
     rts_quiesced := rts_quiesced t |}.

Definition mark_execution_started (observed_at : ObservationTime) (t : RunTimingSnapshot) : RunTimingSnapshot :=
  {| rts_presentation_opened := rts_presentation_opened t;
     rts_execution_started := get_or_insert (rts_execution_started t) observed_at;
     rts_steps := rts_steps t; rts_cancellation := rts_cancellation t; rts_terminal := rts_terminal t;
     rts_quiesced := rts_quiesced t |}.

Definition mark_quiesced (observed_at : ObservationTime) (t : RunTimingSnapshot) : RunTimingSnapshot :=
  {| rts_presentation_opened := rts_presentation_opened t; rts_execution_started := rts_execution_started t;
     rts_steps := rts_steps t; rts_cancellation := rts_cancellation t; rts_terminal := rts_terminal t;
     rts_quiesced := get_or_insert (rts_quiesced t) observed_at |}.

Definition terminal_workflow (w : WorkflowState Deadline) : bool :=
  match w with WSucceeded | WFailed _ _ | WCancelled _ => true | WExecuting _ | WFinalizing _ _ _ => false end.

(** The kinds that end the time of a node. *)
Definition finishing_kind (kind : StepStateKind) : bool :=
  match kind with
  | KSucceeded | KFailed | KBlocked | KNotRun | KCancelled => true
  | KPending | KStarting | KRunning | KCapturingOutputs | KRecovering | KCancelling | KInherited | KSkipped => false
  end.

(** [RunTimingObservation::record], for a transition. *)
Definition record (event : TransitionEvent Deadline) (observed_at : ObservationTime) (timing : RunTimingSnapshot)
    : RunTimingSnapshot :=
  match event with
  | EvStep _ step _ _ _ to =>
      if decide (to = KStarting) then
        match rts_steps timing !! step with
        | Some _ => timing
        | None =>
            set_timing_steps (<[step := {| ost_started := observed_at; ost_finished := None |}]> (rts_steps timing)) timing
        end
      else if finishing_kind to then
        match rts_steps timing !! step with
        | Some observed =>
            set_timing_steps
              (<[step := {| ost_started := ost_started observed;
                            ost_finished := get_or_insert (ost_finished observed) (obs_monotonic observed_at) |}]>
                 (rts_steps timing)) timing
        | None => timing
        end
      else timing
  | EvCancellationAccepted _ reason deadline =>
      set_timing_cancellation (get_or_insert (rts_cancellation timing) (reason, deadline_utc deadline)) timing
  | EvWorkflow _ _ to =>
      if terminal_workflow to then set_timing_terminal (get_or_insert (rts_terminal timing) observed_at) timing
      else timing
  | EvFinalizationCancellationAccepted _ _ _ | EvForceAbortAccepted _ _ _ => timing
  end.

(** [observation_needs_timing_sample]. *)
Definition observation_needs_timing_sample (event : TransitionEvent Deadline) : bool :=
  match event with
  | EvStep _ _ _ _ _ to =>
      match to with
      | KStarting | KSucceeded | KFailed | KBlocked | KNotRun | KCancelled => true
      | KPending | KRunning | KCapturingOutputs | KRecovering | KCancelling | KInherited | KSkipped => false
      end
  | EvCancellationAccepted _ _ _ | EvFinalizationCancellationAccepted _ _ _ | EvForceAbortAccepted _ _ _ => true
  | EvWorkflow _ _ to => terminal_workflow to
  end.

(** [RunTimingObservation::observe]; the second component is the sample of
    the clock. *)
Definition observe (timing : RunTimingSnapshot) (observation : TransitionEvent Deadline * ObservationTime)
    : RunTimingSnapshot :=
  let '(event, sample) := observation in
  if observation_needs_timing_sample event then record event sample timing else timing.

(** The timing of a run from its log of transitions with their times. *)
Definition observed (opened : ObservationTime) (log : list (TransitionEvent Deadline * ObservationTime))
    : RunTimingSnapshot :=
  foldl observe (timing_new opened) log.

(** ** What a transition changes *)

(** Skipping the sample skips nothing. *)
Lemma observe_record timing event sample : observe timing (event, sample) = record event sample timing.
Proof.
  unfold observe. destruct event as [? ? ? ? ? to|? ? to| | |]; simpl; try done; by destruct to.
Qed.

(** The entry of a node after a transition to [kind]. *)
Definition timed_entry (kind : StepStateKind) (observed_at : ObservationTime) (entry : option ObservedStepTiming)
    : option ObservedStepTiming :=
  if decide (kind = KStarting) then
    Some (default {| ost_started := observed_at; ost_finished := None |} entry)
  else if finishing_kind kind then
    (λ t, {| ost_started := ost_started t;
             ost_finished := get_or_insert (ost_finished t) (obs_monotonic observed_at) |}) <$> entry
  else entry.

Lemma record_step timing n s role policy from to observed_at t :
  rts_steps (record (EvStep n s role policy from to) observed_at timing) !! t
  = if decide (t = s) then timed_entry to observed_at (rts_steps timing !! s) else rts_steps timing !! t.
Proof.
  unfold record, timed_entry. repeat case_decide; simplify_eq;
    destruct (rts_steps timing !! s) eqn:Hs; simpl; try done; repeat case_match; simpl;
    by rewrite ?lookup_insert_eq, ?lookup_insert_ne by done.
Qed.

Lemma record_step_rest timing n s role policy from to observed_at :
  rts_cancellation (record (EvStep n s role policy from to) observed_at timing) = rts_cancellation timing
  ∧ rts_terminal (record (EvStep n s role policy from to) observed_at timing) = rts_terminal timing.
Proof. unfold record. by repeat case_match. Qed.

Lemma observed_snoc opened log event observed_at :
  observed opened (log ++ [(event, observed_at)])%list = record event observed_at (observed opened log).
Proof. unfold observed. rewrite foldl_app. cbn [foldl]. apply observe_record. Qed.
End timing.
