(* ===== verification/Results.v ===== *)
(** * Results of runs

    What a finished run is turned into: the result of an attempt
    ([WorkflowRunResult] and its parts) and its published form, version 1
    ([WorkflowResultV1]), with the functions that build the second from the
    first ([publication.rs]).

    A path is the string it displays as; [base64] is a parameter.  The error
    of a builder is the invariant of the result that does not hold; phase and
    kind of such an error are always the same ([LocalPublicationError::invalid]). *)

From S2P Require Import Prelude Text Nodes Evidence Validated Failures Runtime RunTiming.

(** The [base64] crate: the standard alphabet with padding. *)
Class Base64 := {
  base64_encode : list ascii → string;
  base64_decode : string → option (list ascii)
}.

(** What the code relies on. *)
Definition base64_law `{Base64} : Prop := ∀ data, base64_decode (base64_encode data) = Some data.

(** [RunResultInvariant]. *)
Inductive RunResultInvariant :=
| InvAttemptMetadata | InvContinuation | InvWorkflowMetadata | InvExecutionMetadata | InvResultStructure
| InvStepMetadata | InvFinalizationMetadata | InvOutcomeMetadata | InvExportMetadata | InvExportSources
| InvExportValues | InvGitBranch | InvDiagnosticStream | InvRecovery | InvFailure | InvRetainedPath | InvTiming.

(** [Iterator::collect] into a [Result]. *)
Fixpoint collect_results {A B E} (f : A → result B E) (l : list A) : result (list B) E :=
  match l with
  | [] => Ok []
  | a :: l => let? b := f a in let? bs := collect_results f l in Ok (b :: bs)
  end.

(** [Option::map] followed by [Option::transpose]. *)
Definition transpose {A B E} (f : A → result B E) (o : option A) : result (option B) E :=
  match o with Some a => let? b := f a in Ok (Some b) | None => Ok None end.

(** ** Evidence of nodes *)

Inductive NodeDetail :=
| DetailFailed (detail : FailureDetail)
| DetailBlocked (detail : BlockedDetail)
| DetailSkipped (detail : ConditionFalseDetail)
| DetailNotRun (detail : NonExecutionDetail)
| DetailCancellation (detail : CancellationDetail)
| DetailInherited (detail : InheritedDetail).

(** ** The result of an attempt *)

Record CapturedDiagnosticStream := {
  cds_bytes : list ascii;
  cds_truncation : option N;
  cds_fully_drained : bool
}.

Record StepDiagnostic := {
  sd_standard_output : CapturedDiagnosticStream;
  sd_standard_error : CapturedDiagnosticStream
}.

Inductive WorkflowRunStepKind := StepKindCommand | StepKindAgent.

Record DigestV1 := { dg_algorithm : string; dg_value : string }.

(** ** Recovery *)

Inductive RecoveryHandlerKindV1 := HandlerCmdV1 | HandlerAgentV1.

Inductive RecoveryHandlerOutcomeV1 := HandlerRecheckV1 | HandlerGaveUpV1 | HandlerFailedV1 | HandlerCancelledV1.

Inductive RecoveryHandlerFailurePhaseV1 := HandlerStartV1 | HandlerExecutionV1.

Inductive RecoveryHandlerFailureCodeV1 :=
| HContextUnavailable | HHandlerUnavailable | HWorkingDirectoryUnavailable | HCommandPreparationFailed
| HCommandLaunchFailed | HCommandWaitFailed | HCommandExitFailed | HProcessQuiescenceFailed | HResultMissing
| HResultSymbolicLink | HResultNotRegular | HResultUnavailable | HResultTooLarge | HDecisionInvalid
| HAgentInputFailed | HAgentFailed | HAgentResultMissing | HAgentResultInvalid | HSettlementFailed.

Inductive RecoveryDecisionRejectionV1 :=
| RejInputTooLarge | RejInvalidUtf8 | RejInvalidJson | RejDuplicateKey | RejUnknownField
| RejUnsupportedSchemaVersion | RejUnknownDecision | RejEmptySummary | RejSummaryTooLong | RejEmptyReason
| RejReasonTooLong.

Record RecoveryHandlerFailureCauseV1 := {
  hc_code : RecoveryHandlerFailureCodeV1;
  hc_exit_code : option Z;
  hc_decision_rejection : option RecoveryDecisionRejectionV1
}.

Record RecoveryHandlerFailureV1 := {
  hf_phase : RecoveryHandlerFailurePhaseV1;
  hf_cause : RecoveryHandlerFailureCauseV1
}.

Record RecoveryHandlerSummaryV1 := {
  hs_kind : RecoveryHandlerKindV1;
  hs_invocation_id : N;
  hs_outcome : RecoveryHandlerOutcomeV1;
  hs_summary : option string;
  hs_reason : option string;
  hs_failure : option RecoveryHandlerFailureV1
}.

Record RecoveryFailedExecutionV1 := {
  fe_execution_number : N;
  fe_invocation_id : N;
  fe_failure : FailureV1
}.

Record RecoveryRoundSummaryV1 := {
  rrs_number : N;
  rrs_failed_execution : RecoveryFailedExecutionV1;
  rrs_handler : option RecoveryHandlerSummaryV1
}.

Inductive RecoveryInvocationRoleV1 := InvocationTarget | InvocationRecoveryHandler.

Inductive RecoveryTerminationV1 :=
| TermRecovered (execution_number : N)
| TermExhausted (execution_number : N)
| TermGaveUp (round : N)
| TermHandlerFailed (round : N) (handler_failure : RecoveryHandlerFailureV1)
| TermCancelled (round : N) (active_role : RecoveryInvocationRoleV1) (execution_number : option N).

Record StepRecoverySummaryV1 := {
  srs_schema_version : N;
  srs_configured_retries : N;
  srs_handler_kind : option RecoveryHandlerKindV1;
  srs_rounds : list RecoveryRoundSummaryV1;
  srs_termination : RecoveryTerminationV1
}.

(** ** Invocations *)

Inductive RecoveryInvocationStateV1 := InvocationSettled | InvocationCancelled.

Inductive RecoveryDiagnosticKindV1 :=
| DiagCommandStdout | DiagCommandStderr | DiagAgentHarnessStdout | DiagAgentHarnessStderr.

Record DiagnosticStreamV1 := {
  ds_encoding : string;
  ds_data : string;
  ds_retained_bytes : N;
  ds_discarded_bytes : N;
  ds_truncated : bool;
  ds_fully_drained : bool
}.

Record CommandOutputV1 := { co_stdout : DiagnosticStreamV1; co_stderr : DiagnosticStreamV1 }.

Record RecoveryInvocationDiagnosticV1 := {
  rid_kind : RecoveryDiagnosticKindV1;
  rid_reference : string;
  rid_stream : DiagnosticStreamV1
}.

Record RecoveryInvocationUsageV1 := { ru_input_tokens : N; ru_output_tokens : N }.

Record RecoveryInvocationV1 := {
  ri_invocation_id : N;
  ri_role : RecoveryInvocationRoleV1;
  ri_target_execution : option N;
  ri_recovery_round : option N;
  ri_state : RecoveryInvocationStateV1;
  ri_started_at : string;
  ri_finished_at : string;
  ri_duration_milliseconds : N;
  ri_usage : RecoveryInvocationUsageV1;
  ri_diagnostics : list RecoveryInvocationDiagnosticV1;
  ri_diagnostic_reference : option string
}.

(** [total_recovery_usage]. *)
Definition total_recovery_usage (invocations : list RecoveryInvocationV1) : RecoveryInvocationUsageV1 :=
  foldl (λ total invocation,
    {| ru_input_tokens := saturating_add u64_max (ru_input_tokens total) (ru_input_tokens (ri_usage invocation));
       ru_output_tokens := saturating_add u64_max (ru_output_tokens total) (ru_output_tokens (ri_usage invocation)) |})
    {| ru_input_tokens := 0; ru_output_tokens := 0 |} invocations.

(** ** Continuations *)

Inductive ContinuationReplacementDefinitionSourceV1 :=
| ReplacementLocal (path : string)
| ReplacementCloud (commit_oid workflow_path : string).

Inductive ContinuationRequestedDefinitionV1 :=
| RequestedInherited
| RequestedReplaced (replaced : ContinuationReplacementDefinitionSourceV1).

Record ContinuationRequestV1 := {
  crq_from_steps : list string;
  crq_definition : ContinuationRequestedDefinitionV1;
  crq_execution_root : option string;
  crq_expected_run_version : option N
}.

Record ContinuationInheritedStepV1 := {
  cis_id : string;
  cis_prior_state : InheritedPriorState;
  cis_definition_changed : bool
}.

Inductive ContinuationDefinitionSourceV1 :=
| SourceInherited (manifest_digest prior_manifest_digest : DigestV1)
| SourceReplaced (manifest_digest prior_manifest_digest : DigestV1).

Inductive ContinuationPreparationV1 := PreparationPending | PreparationReady | PreparationUnavailable.

Inductive WorkspaceSnapshotSettlementV1 := SettledByEngine | SettledByAbandonmentRecovery.

Inductive WorkspaceSnapshotUnavailableReasonV1 :=
| SnapGitUnavailable | SnapGitOutputLimitExceeded | SnapNotWorkTree | SnapExecutionRootNotWorkTreeRoot
| SnapEntryLimitExceeded | SnapContentLimitExceeded | SnapGitlink | SnapUnsupportedEntry | SnapIoUnavailable
| SnapMutationAroundRead.

Record WorkspaceSnapshotV1 := {
  ws_algorithm : string;
  ws_value : option string;
  ws_taken_at : option string;
  ws_unavailable : option WorkspaceSnapshotUnavailableReasonV1;
  ws_settled_by : option WorkspaceSnapshotSettlementV1
}.

Inductive WorkspaceModifiedV1 := ModifiedKnown (modified : bool) | ModifiedUnknown.

Record ContinuationQuiescenceV1 := {
  cq_groups_recorded : N;
  cq_groups_terminated : N;
  cq_groups_absent : N;
  cq_proven_at : string
}.

Record ContinuationWorkspaceV1 := {
  cw_execution_root : string;
  cw_prior_execution_root : string;
  cw_preparation : ContinuationPreparationV1;
  cw_start_snapshot : option WorkspaceSnapshotV1;
  cw_prior_settlement_snapshot : option WorkspaceSnapshotV1;
  cw_modified : WorkspaceModifiedV1;
  cw_quiescence : option ContinuationQuiescenceV1
}.

Record ContinuationRecordV1 := {
  cn_request : ContinuationRequestV1;
  cn_from_steps : list string;
  cn_reexecuted_steps : list string;
  cn_inherited_steps : list ContinuationInheritedStepV1;
  cn_definition_source : ContinuationDefinitionSourceV1;
  cn_workspace : ContinuationWorkspaceV1
}.

(** ** The result an attempt leaves *)

Record CloudExecutionCapacityV1 := {
  cc_execution_contract : string;
  cc_source_closure_digest : DigestV1;
  cc_general_maximum_transitions : N;
  cc_selected_maximum_transitions : N;
  cc_maximum_invocations : N;
  cc_maximum_retained_bytes_per_invocation : N;
  cc_diagnostic_retention_bytes : N;
  cc_native_session_retention_bytes : N;
  cc_aggregate_retention_bytes : N;
  cc_condition_transition_count : N;
  cc_aggregate_condition_transition_bytes : N;
  cc_terminal_result_structure_bytes : N;
  cc_portable_result_bytes : N;
  cc_encoded_outbox_bytes : N
}.

Section run_results.
Context `{!TimeLibrary} {Output : Type}.

Record WorkflowRunTiming := {
  wrt_started_at : OffsetDateTime;
  wrt_finished_at : OffsetDateTime;
  wrt_duration : Duration
}.

Record WorkflowStepTiming := { wst_started_at : OffsetDateTime; wst_duration : Duration }.

Record WorkflowRunCancellation := { wrc_reason : CancellationReason; wrc_force_stop_deadline : OffsetDateTime }.

Record WorkflowRunStep := {
  wrs_id : string;
  wrs_role : WorkflowNodeRole;
  wrs_kind : WorkflowRunStepKind;
  wrs_failure_policy : FailurePolicy;
  wrs_state : StepState Output;
  wrs_timing : option WorkflowStepTiming;
  wrs_command_output : option StepDiagnostic;
  wrs_recovery : option StepRecoverySummaryV1;
  wrs_invocations : list RecoveryInvocationV1
}.

Record WorkflowRunFinalizationCancellation := {
  wfc_reason : CancellationReason;
  wfc_force_stop_deadline : option OffsetDateTime
}.

Record WorkflowRunFinalization := {
  wrf_trigger : FinalizationTrigger;
  wrf_finalizers : list WorkflowRunStep;
  wrf_cancellation : option WorkflowRunFinalizationCancellation;
  wrf_force_abort : bool
}.

Record WorkflowRunResult := {
  wr_run_directory : string;
  wr_attempt_number : N;
  wr_continuation : option ContinuationRecordV1;
  wr_output_producers : btree (btree OutputProducer);
  wr_workflow_path : string;
  wr_source_root : string;
  wr_content_digest : DigestV1;
  wr_execution_root : string;
  wr_maximum_parallel_steps : nat;
  wr_maximum_retained_bytes_per_stream : N;
  wr_cloud_capacity : option CloudExecutionCapacityV1;
  wr_timing : WorkflowRunTiming;
  wr_outcome : RunOutcome;
  wr_cancellation : option WorkflowRunCancellation;
  wr_force_abort : option ForceAbortEvidence;
  wr_steps : list WorkflowRunStep;
  wr_finalization : option WorkflowRunFinalization;
  wr_exports : ExportSet Output;
  wr_export_sources : btree ResolvedOutputSource
}.
End run_results.
Arguments WorkflowRunStep {_} _.
Arguments WorkflowRunFinalization {_} _.
Arguments WorkflowRunResult {_} _.

(** ** The published result *)

Inductive CancellationReasonV1 :=
| UserRequestV1 | TerminationRequestV1 | CallerOutputFailureV1 | RunnerShutdownV1 | ExecutionLeaseExpiredV1 | ForceAbortReasonV1.

Inductive ForceAbortPhaseV1 := AbortOrdinaryV1 | AbortFinalizationV1.

Record ForceAbortV1 := { fa1_reason : CancellationReasonV1; fa1_phase : ForceAbortPhaseV1 }.

Record CancellationV1 := { cn1_reason : CancellationReasonV1; cn1_force_stop_deadline : string }.

Inductive WorkflowStepStateV1 :=
| StateSucceeded | StateInherited | StateFailed | StateBlocked | StateSkipped | StateNotRun | StateCancelled.

Inductive WorkflowNodeRoleV1 := NodeStepV1 | NodeFinalizerV1.

Record WorkflowNodeV1 := { wn_id : string; wn_role : WorkflowNodeRoleV1 }.

Record ExportSourceV1 := { es_node : WorkflowNodeV1; es_output : string }.

Record WorkflowStepV1 := {
  st_id : string;
  st_role : WorkflowNodeRoleV1;
  st_kind : string;
  st_failure_policy : FailurePolicy;
  st_state : WorkflowStepStateV1;
  st_recovery : option StepRecoverySummaryV1;
  st_invocations : list RecoveryInvocationV1;
  st_started_at : option string;
  st_duration_milliseconds : option N;
  st_detail : option NodeDetail;
  st_command_output : option CommandOutputV1
}.

Inductive FinalizationTriggerV1 := TriggerSucceededV1 | TriggerFailedV1 | TriggerCancelledV1.

Record FinalizationIssueV1 := { fi_node : WorkflowNodeV1; fi_impact : FailurePolicy }.

Record FinalizationCancellationV1 := {
  fc1_reason : CancellationReasonV1;
  fc1_force_stop_deadline : option string
}.

Record FinalizationV1 := {
  fz_trigger : FinalizationTriggerV1;
  fz_finalizers : list WorkflowStepV1;
  fz_issues : list FinalizationIssueV1;
  fz_cancellation : option FinalizationCancellationV1;
  fz_force_abort : bool
}.

Inductive ExportUnavailableReasonV1 :=
| UnavailableFailed | UnavailableBlocked | UnavailableInputUnavailable | UnavailableSkipped | UnavailableNotRun
| UnavailableTriggerNotSelected | UnavailableCancelled.

Inductive ExportProvenanceV1 := ProvenanceInherited.

Record GitBranchCarrierV1 := {
  gc_path : string;
  gc_media_type : string;
  gc_size_bytes : N;
  gc_digest : DigestV1
}.

Inductive ExportV1 :=
| ExportAvailableV1 (kind media_type path : string) (size_bytes : N) (digest : DigestV1)
    (provenance : option ExportProvenanceV1) (producer : option OutputProducer)
| ExportGitBranchV1 (artifact_version : N) (object_format base_oid head_oid tree_oid : string)
    (carrier : option GitBranchCarrierV1)
    (provenance : option ExportProvenanceV1) (producer : option OutputProducer)
| ExportUnavailableV1 (reason : ExportUnavailableReasonV1).

Inductive WorkflowOutcomeV1 := OutcomeSucceededV1 | OutcomeFailedV1 | OutcomeCancelledV1.

Record CloudSourceDisplayRepositoryV1 := { cr1_provider_kind : string; cr1_full_name : string }.

Record CloudSourceDisplaySnapshotV1 := {
  cs1_organization_display_name : string;
  cs1_project_name : string;
  cs1_repository : CloudSourceDisplayRepositoryV1
}.

Inductive WorkflowProvenanceV1 :=
| ProvenanceLocal (source_root : string)
| ProvenanceCloud (project_id repository_connection_id object_format commit_oid : string)
    (source_display_snapshot : option CloudSourceDisplaySnapshotV1).

Record WorkflowIdentityV1 := {
  wi_path : string;
  wi_provenance : WorkflowProvenanceV1;
  wi_digest : DigestV1
}.

Record WorkflowExecutionV1 := {
  we_execution_root : option string;
  we_maximum_parallel_steps : nat;
  we_capacity : option CloudExecutionCapacityV1;
  we_started_at : string;
  we_finished_at : string;
  we_duration_milliseconds : N
}.

Record CommandOutputPolicyV1 := {
  cop_encoding : string;
  cop_maximum_retained_bytes_per_stream : N
}.

Record WorkflowResultV1 := {
  res_schema_version : N;
  res_attempt_number : N;
  res_continuation : option ContinuationRecordV1;
  res_output_producers : btree (btree OutputProducer);
  res_export_sources : btree ExportSourceV1;
  res_workflow : WorkflowIdentityV1;
  res_execution : WorkflowExecutionV1;
  res_command_output_policy : CommandOutputPolicyV1;
  res_outcome : WorkflowOutcomeV1;
  res_primary_issue : option PrimaryIssue;
  res_cancellation : option CancellationV1;
  res_force_abort : option ForceAbortV1;
  res_steps : list WorkflowStepV1;
  res_finalization : option FinalizationV1;
  res_exports : btree ExportV1
}.

(** ** Decidable equality *)

#[export] Instance FailureDetail_eq_dec : EqDecision FailureDetail.
Proof. solve_decision. Defined.
#[export] Instance BlockedDetail_eq_dec : EqDecision BlockedDetail.
Proof. solve_decision. Defined.
#[export] Instance EvaluatedPredicateEvidence_eq_dec : EqDecision EvaluatedPredicateEvidence.
Proof. solve_decision. Defined.
#[export] Instance ConditionFalseDetail_eq_dec : EqDecision ConditionFalseDetail.
Proof. solve_decision. Defined.
#[export] Instance InheritedPriorState_eq_dec : EqDecision InheritedPriorState.
Proof. solve_decision. Defined.
#[export] Instance InheritedDetail_eq_dec : EqDecision InheritedDetail.
Proof. solve_decision. Defined.
#[export] Instance NodeDetail_eq_dec : EqDecision NodeDetail.
Proof. solve_decision. Defined.
#[export] Instance DigestV1_eq_dec : EqDecision DigestV1.
Proof. solve_decision. Defined.
#[export] Instance OutputProducer_eq_dec : EqDecision OutputProducer.
Proof. solve_decision. Defined.
#[export] Instance CancellationReasonV1_eq_dec : EqDecision CancellationReasonV1.
Proof. solve_decision. Defined.
#[export] Instance ForceAbortPhaseV1_eq_dec : EqDecision ForceAbortPhaseV1.
Proof. solve_decision. Defined.
#[export] Instance ForceAbortV1_eq_dec : EqDecision ForceAbortV1.
Proof. solve_decision. Defined.
#[export] Instance WorkflowStepStateV1_eq_dec : EqDecision WorkflowStepStateV1.
Proof. solve_decision. Defined.
#[export] Instance WorkflowNodeRoleV1_eq_dec : EqDecision WorkflowNodeRoleV1.
Proof. solve_decision. Defined.
#[export] Instance FinalizationTriggerV1_eq_dec : EqDecision FinalizationTriggerV1.
Proof. solve_decision. Defined.
#[export] Instance ExportUnavailableReasonV1_eq_dec : EqDecision ExportUnavailableReasonV1.
Proof. solve_decision. Defined.
#[export] Instance ExportProvenanceV1_eq_dec : EqDecision ExportProvenanceV1.
Proof. solve_decision. Defined.
#[export] Instance GitBranchCarrierV1_eq_dec : EqDecision GitBranchCarrierV1.
Proof. solve_decision. Defined.
#[export] Instance ExportV1_eq_dec : EqDecision ExportV1.
Proof. solve_decision. Defined.
#[export] Instance RecoveryHandlerKindV1_eq_dec : EqDecision RecoveryHandlerKindV1.
Proof. solve_decision. Defined.
#[export] Instance RecoveryHandlerOutcomeV1_eq_dec : EqDecision RecoveryHandlerOutcomeV1.
Proof. solve_decision. Defined.
#[export] Instance RecoveryHandlerFailurePhaseV1_eq_dec : EqDecision RecoveryHandlerFailurePhaseV1.
Proof. solve_decision. Defined.
#[export] Instance RecoveryHandlerFailureCodeV1_eq_dec : EqDecision RecoveryHandlerFailureCodeV1.
Proof. solve_decision. Defined.
#[export] Instance RecoveryDecisionRejectionV1_eq_dec : EqDecision RecoveryDecisionRejectionV1.
Proof. solve_decision. Defined.
#[export] Instance RecoveryHandlerFailureCauseV1_eq_dec : EqDecision RecoveryHandlerFailureCauseV1.
Proof. solve_decision. Defined.
#[export] Instance RecoveryHandlerFailureV1_eq_dec : EqDecision RecoveryHandlerFailureV1.
Proof. solve_decision. Defined.
#[export] Instance RecoveryInvocationRoleV1_eq_dec : EqDecision RecoveryInvocationRoleV1.
Proof. solve_decision. Defined.
#[export] Instance RecoveryInvocationStateV1_eq_dec : EqDecision RecoveryInvocationStateV1.
Proof. solve_decision. Defined.
#[export] Instance ContinuationPreparationV1_eq_dec : EqDecision ContinuationPreparationV1.
Proof. solve_decision. Defined.
#[export] Instance WorkspaceSnapshotSettlementV1_eq_dec : EqDecision WorkspaceSnapshotSettlementV1.
Proof. solve_decision. Defined.
