(* ===== verification/Publication.v ===== *)
(** * Publication of results

    The published form of a result ([publication.rs], from [build_result] on):
    the states, details, times and diagnostics of nodes, their recoveries,
    the finalization with its issues, and the outcome; and the reason an
    export is reported unavailable for.

    Writing the exports and the document to disk is not modelled: the
    published exports are an argument of [build_result_with_provenance], as
    they are in the source. *)

From S2P Require Import Prelude Text Nodes Evidence Validated Failures Capacity Runtime RunTiming Results.

(** ** Correspondence of names *)

Definition workflow_node_role (role : WorkflowNodeRole) : WorkflowNodeRoleV1 :=
  match role with RoleStep => NodeStepV1 | RoleFinalizer => NodeFinalizerV1 end.

Definition finalization_trigger (trigger : FinalizationTrigger) : FinalizationTriggerV1 :=
  match trigger with
  | TriggerSucceeded => TriggerSucceededV1
  | TriggerFailed => TriggerFailedV1
  | TriggerCancelled => TriggerCancelledV1
  end.

Definition cancellation_reason (reason : CancellationReason) : CancellationReasonV1 :=
  match reason with
  | UserRequest => UserRequestV1
  | TerminationRequest => TerminationRequestV1
  | CallerOutputFailure => CallerOutputFailureV1
  | RunnerShutdown => RunnerShutdownV1
  | ExecutionLeaseExpired => ExecutionLeaseExpiredV1
  | ForceAbort => ForceAbortReasonV1
  end.

Definition export_unavailable_reason (reason : ExportUnavailableReason) : ExportUnavailableReasonV1 :=
  match reason with
  | ExFailed => UnavailableFailed
  | ExBlocked => UnavailableBlocked
  | ExSkipped => UnavailableSkipped
  | ExNotRun => UnavailableNotRun
  | ExTriggerNotSelected => UnavailableTriggerNotSelected
  | ExCancelled => UnavailableCancelled
  end.

Definition recovery_handler_kind_v1 (kind : RecoveryHandlerKind) : RecoveryHandlerKindV1 :=
  match kind with HandlerKindCommand => HandlerCmdV1 | HandlerKindAgent => HandlerAgentV1 end.

Definition recovery_decision_rejection_v1 (rejection : RecoveryDecisionFailureKind) : RecoveryDecisionRejectionV1 :=
  match rejection with
  | DecisionInputTooLarge => RejInputTooLarge
  | DecisionInvalidUtf8 => RejInvalidUtf8
  | DecisionInvalidJson => RejInvalidJson
  | DecisionDuplicateKey => RejDuplicateKey
  | DecisionUnknownField => RejUnknownField
  | DecisionUnsupportedSchemaVersion => RejUnsupportedSchemaVersion
  | DecisionUnknownDecision => RejUnknownDecision
  | DecisionEmptySummary => RejEmptySummary
  | DecisionSummaryTooLong => RejSummaryTooLong
  | DecisionEmptyReason => RejEmptyReason
  | DecisionReasonTooLong => RejReasonTooLong
  end.

(** ** Recoveries *)

(** The code, exit code and rejection of a handler's failure. *)
Definition recovery_handler_failure_cause (cause : RecoveryHandlerFailure) : RecoveryHandlerFailureCauseV1 :=
  let plain code := {| hc_code := code; hc_exit_code := None; hc_decision_rejection := None |} in
  match cause with
  | HandlerContextUnavailable => plain HContextUnavailable
  | HandlerHandlerUnavailable => plain HHandlerUnavailable
  | HandlerWorkingDirectoryUnavailable => plain HWorkingDirectoryUnavailable
  | HandlerCommandPreparationFailed => plain HCommandPreparationFailed
  | HandlerCommandLaunchFailed => plain HCommandLaunchFailed
  | HandlerCommandWaitFailed => plain HCommandWaitFailed
  | HandlerCommandExitFailed code =>
      {| hc_code := HCommandExitFailed; hc_exit_code := code; hc_decision_rejection := None |}
  | HandlerProcessQuiescenceFailed => plain HProcessQuiescenceFailed
  | HandlerResultMissing => plain HResultMissing
  | HandlerResultSymbolicLink => plain HResultSymbolicLink
  | HandlerResultNotRegular => plain HResultNotRegular
  | HandlerResultUnavailable => plain HResultUnavailable
  | HandlerResultTooLarge => plain HResultTooLarge
  | HandlerDecisionInvalid rejection =>
      {| hc_code := HDecisionInvalid; hc_exit_code := None;
         hc_decision_rejection := Some (recovery_decision_rejection_v1 rejection) |}
  | HandlerAgentInputFailed => plain HAgentInputFailed
  | HandlerAgentFailed => plain HAgentFailed
  | HandlerAgentResultMissing => plain HAgentResultMissing
  | HandlerAgentResultInvalid rejection =>
      {| hc_code := HAgentResultInvalid; hc_exit_code := None;
         hc_decision_rejection := Some (recovery_decision_rejection_v1 rejection) |}
  | HandlerSettlementFailed => plain HSettlementFailed
  end.

Definition recovery_handler_failure_v1 (phase : RecoveryHandlerFailurePhase) (cause : StepFailureCause)
    : result RecoveryHandlerFailureV1 RunResultInvariant :=
  match cause with
  | CauseRecoveryHandler cause =>
      Ok {| hf_phase := match phase with HandlerPhaseStart => HandlerStartV1 | HandlerPhaseExecution => HandlerExecutionV1 end;
            hf_cause := recovery_handler_failure_cause cause |}
  | _ => Err InvRecovery
  end.

(** The summary of the handler of a round. *)
Definition recovery_handler_summary_v1 (require_settled_handlers : bool) (handler : RecoveryHandlerRecord StepFailureCause)
    : result (option RecoveryHandlerSummaryV1) RunResultInvariant :=
  let summarised outcome summary reason failure :=
    Ok (Some {| hs_kind := recovery_handler_kind_v1 (rhr_kind handler); hs_invocation_id := rhr_invocation handler;
                hs_outcome := outcome; hs_summary := summary; hs_reason := reason; hs_failure := failure |}) in
  match rhr_outcome handler with
  | OutcomeRecheck summary reason => summarised HandlerRecheckV1 (Some summary) (Some reason) None
  | OutcomeGaveUp summary reason => summarised HandlerGaveUpV1 (Some summary) (Some reason) None
  | OutcomeFailed phase cause =>
      let? failure := recovery_handler_failure_v1 phase cause in
      summarised HandlerFailedV1 None None (Some failure)
  | OutcomeCancelled => summarised HandlerCancelledV1 None None None
  | OutcomeStarting | OutcomeRunning => if require_settled_handlers then Err InvRecovery else Ok None
  end.

Definition recovery_round_summary_v1 (require_settled_handlers : bool) (round : RecoveryRoundRecord StepFailureCause)
    : result RecoveryRoundSummaryV1 RunResultInvariant :=
  let? handler := transpose (recovery_handler_summary_v1 require_settled_handlers) (rrr_handler round) in
  let? failure := ok_or (failure_v1 (ptf_phase (rrr_failed_execution round)) (ptf_cause (rrr_failed_execution round))) InvFailure in
  Ok {| rrs_number := rrr_number round;
        rrs_failed_execution := {| fe_execution_number := ptf_execution_number (rrr_failed_execution round);
                                   fe_invocation_id := ptf_invocation (rrr_failed_execution round);
                                   fe_failure := failure |};
        rrs_handler := mjoin handler |}.

Definition recovery_round_summaries_v1 (recovery : StepRecoveryState StepFailureCause) (require_settled_handlers : bool)
    : result (list RecoveryRoundSummaryV1) RunResultInvariant :=
  collect_results (recovery_round_summary_v1 require_settled_handlers) (sr_rounds recovery).

(** The cause of the failed handler a terminal disposition names. *)
Definition terminal_handler_failure (recovery : StepRecoveryState StepFailureCause) (round : RecoveryRoundNumber)
    (phase : RecoveryHandlerFailurePhase) : option StepFailureCause :=
  record ← List.find (λ candidate, bool_decide (rrr_number candidate = round)) (sr_rounds recovery);
  handler ← rrr_handler record;
  match rhr_outcome handler with
  | OutcomeFailed retained_phase cause =>
      match retained_phase, phase with
      | HandlerPhaseStart, HandlerPhaseStart | HandlerPhaseExecution, HandlerPhaseExecution => Some cause
      | _, _ => None
      end
  | _ => None
  end.

Definition recovery_termination_v1 (recovery : StepRecoveryState StepFailureCause)
    (disposition : RecoveryTerminalDisposition) : result RecoveryTerminationV1 RunResultInvariant :=
  match disposition with
  | RecoveryRecovered execution_number => Ok (TermRecovered execution_number)
  | RecoveryExhausted execution_number => Ok (TermExhausted execution_number)
  | RecoveryGaveUp round => Ok (TermGaveUp round)
  | RecoveryHandlerFailed round phase =>
      let? cause := ok_or (terminal_handler_failure recovery round phase) InvRecovery in
      let? handler_failure := recovery_handler_failure_v1 phase cause in
      Ok (TermHandlerFailed round handler_failure)
  | RecoveryCancelled round active =>
      match active with
      | ActiveTarget execution_number => Ok (TermCancelled round InvocationTarget (Some execution_number))
      | ActiveRecoveryHandler _ => Ok (TermCancelled round InvocationRecoveryHandler None)
      end
  end.

Definition step_recovery_summary_v1 (recovery : option (StepRecoveryState StepFailureCause))
    : result (option StepRecoverySummaryV1) RunResultInvariant :=
  match recovery with
  | None => Ok None
  | Some recovery =>
      if bool_decide (length (sr_rounds recovery) = 0) then
        match sr_terminal_disposition recovery with None => Ok None | Some _ => Err InvRecovery end
      else
        let? rounds := recovery_round_summaries_v1 recovery true in
        let? disposition := ok_or (sr_terminal_disposition recovery) InvRecovery in
        let? termination := recovery_termination_v1 recovery disposition in
        Ok (Some {| srs_schema_version := 1; srs_configured_retries := sr_configured_rounds recovery;
                    srs_handler_kind := recovery_handler_kind_v1 <$> sr_handler_kind recovery;
                    srs_rounds := rounds; srs_termination := termination |})
  end.

(** ** Nodes *)

Section publication.
Context `{!TimeLibrary, !Base64} {Output : Type}.

(** [timestamp] of a result. *)
Definition timestamp (value : OffsetDateTime) : result string RunResultInvariant := ok_or (format_utc value) InvTiming.

Definition duration_milliseconds (duration : Duration) : result N RunResultInvariant :=
  let milliseconds := (duration / 1000000)%N in
  if decide (milliseconds <= u64_max)%N then Ok milliseconds else Err InvTiming.

Definition diagnostic_stream_v1 (stream : CapturedDiagnosticStream) : result DiagnosticStreamV1 RunResultInvariant :=
  let retained_bytes := N.of_nat (length (cds_bytes stream)) in
  if decide (u64_max < retained_bytes)%N then Err InvDiagnosticStream
  else if decide (MAXIMUM_RETAINED_BYTES_PER_STREAM < retained_bytes)%N then Err InvDiagnosticStream
  else
    let discarded_bytes := default 0%N (cds_truncation stream) in
    Ok {| ds_encoding := "base64"; ds_data := base64_encode (cds_bytes stream); ds_retained_bytes := retained_bytes;
          ds_discarded_bytes := discarded_bytes; ds_truncated := negb (bool_decide (discarded_bytes = 0%N));
          ds_fully_drained := cds_fully_drained stream |}.

Definition command_output_v1 (diagnostic : StepDiagnostic) : result CommandOutputV1 RunResultInvariant :=
  let? stdout := diagnostic_stream_v1 (sd_standard_output diagnostic) in
  let? stderr := diagnostic_stream_v1 (sd_standard_error diagnostic) in
  Ok {| co_stdout := stdout; co_stderr := stderr |}.

(** The state and the detail of a node of the result. *)
Definition step_state_v1 (state : StepState Output)
    : result (WorkflowStepStateV1 * option NodeDetail) RunResultInvariant :=
  match state with
  | SSucceeded _ => Ok (StateSucceeded, None)
  | SInherited detail _ _ => Ok (StateInherited, Some (DetailInherited detail))
  | SFailed detail => Ok (StateFailed, Some (DetailFailed detail))
  | SBlocked detail => Ok (StateBlocked, Some (DetailBlocked detail))
  | SSkipped detail => Ok (StateSkipped, Some (DetailSkipped detail))
  | SNotRun detail => Ok (StateNotRun, Some (DetailNotRun detail))
  | SCancelled detail => Ok (StateCancelled, Some (DetailCancellation detail))
  | SPending | SStarting | SRunning | SCapturingOutputs | SRecovering _ _ | SCancelling _ => Err InvStepMetadata
  end.

Definition step_timing_v1 (timing : WorkflowStepTiming) : result (string * N) RunResultInvariant :=
  let? started_at := timestamp (wst_started_at timing) in
  let? duration := duration_milliseconds (wst_duration timing) in
  Ok (started_at, duration).

Definition step_v1 (step : WorkflowRunStep Output) : result WorkflowStepV1 RunResultInvariant :=
  let? timing := transpose step_timing_v1 (wrs_timing step) in
  let? state_detail := step_state_v1 (wrs_state step) in
  let? command_output := transpose command_output_v1 (wrs_command_output step) in
  match wrs_kind step, command_output with
  | StepKindAgent, Some _ => Err InvStepMetadata
  | _, _ =>
      Ok {| st_id := wrs_id step; st_role := workflow_node_role (wrs_role step);
            st_kind := match wrs_kind step with StepKindCommand => "cmd" | StepKindAgent => "agent" end;
            st_failure_policy := wrs_failure_policy step; st_state := state_detail.1;
            st_recovery := wrs_recovery step; st_invocations := wrs_invocations step;
            st_started_at := fst <$> timing; st_duration_milliseconds := snd <$> timing;
            st_detail := state_detail.2; st_command_output := command_output |}
  end.

(** ** The finalization *)

Definition failed_or_blocked (step : WorkflowStepV1) : bool :=
  match st_state step with StateFailed | StateBlocked => true | _ => false end.

Definition finalization_issue_v1 (finalizer : WorkflowStepV1) : FinalizationIssueV1 :=
  {| fi_node := {| wn_id := st_id finalizer; wn_role := NodeFinalizerV1 |}; fi_impact := st_failure_policy finalizer |}.

Definition finalization_cancellation_v1 (cancellation : WorkflowRunFinalizationCancellation)
    : result FinalizationCancellationV1 RunResultInvariant :=
  let? force_stop_deadline := transpose timestamp (wfc_force_stop_deadline cancellation) in
  Ok {| fc1_reason := cancellation_reason (wfc_reason cancellation); fc1_force_stop_deadline := force_stop_deadline |}.

Definition finalization_v1 (finalization : WorkflowRunFinalization Output) : result FinalizationV1 RunResultInvariant :=
  let? finalizers := collect_results step_v1 (wrf_finalizers finalization) in
  if existsb (λ finalizer, match st_role finalizer with NodeFinalizerV1 => false | NodeStepV1 => true end) finalizers
  then Err InvFinalizationMetadata
  else
    let issues := finalization_issue_v1 <$> List.filter failed_or_blocked finalizers in
    let? cancellation := transpose finalization_cancellation_v1 (wrf_cancellation finalization) in
    Ok {| fz_trigger := finalization_trigger (wrf_trigger finalization); fz_finalizers := finalizers;
          fz_issues := issues; fz_cancellation := cancellation; fz_force_abort := wrf_force_abort finalization |}.

(** ** The result *)

Definition cancellation_v1 (cancellation : WorkflowRunCancellation) : result CancellationV1 RunResultInvariant :=
  let? force_stop_deadline := timestamp (wrc_force_stop_deadline cancellation) in
  Ok {| cn1_reason := cancellation_reason (wrc_reason cancellation); cn1_force_stop_deadline := force_stop_deadline |}.

Definition force_abort_v1 (force_abort : ForceAbortEvidence) : ForceAbortV1 :=
  {| fa1_reason := cancellation_reason (fae_reason force_abort);
     fa1_phase := match fae_phase force_abort with
                  | PhaseOrdinary => AbortOrdinaryV1
                  | PhaseFinalization => AbortFinalizationV1
                  end |}.

Definition outcome_v1 (outcome : RunOutcome) : WorkflowOutcomeV1 * option PrimaryIssue :=
  match outcome with
  | RunSucceeded => (OutcomeSucceededV1, None)
  | RunFailed primary_issue _ => (OutcomeFailedV1, Some primary_issue)
  | RunCancelled _ => (OutcomeCancelledV1, None)
  end.

Definition export_source_v1 (source : ResolvedOutputSource) : ExportSourceV1 :=
  {| es_node := {| wn_id := node_id (ros_node source); wn_role := workflow_node_role (node_role (ros_node source)) |};
     es_output := ros_output source |}.

(** The origin of an export is added to what was published for it. *)
Definition export_with_origin (run : WorkflowRunResult Output) (name : string) (export : ExportV1)
    : result ExportV1 RunResultInvariant :=
  match bt_get (wr_export_sources run) name with
  | None => Err InvExportSources
  | Some source =>
      match bt_get (wr_output_producers run) (node_id (ros_node source)) ≫= λ outputs, bt_get outputs (ros_output source) with
      | None => Ok export
      | Some producer =>
          match export with
          | ExportAvailableV1 kind media_type path size_bytes digest _ _ =>
              Ok (ExportAvailableV1 kind media_type path size_bytes digest (Some ProvenanceInherited) (Some producer))
          | ExportGitBranchV1 artifact_version object_format base_oid head_oid tree_oid carrier _ _ =>
              Ok (ExportGitBranchV1 artifact_version object_format base_oid head_oid tree_oid carrier
                    (Some ProvenanceInherited) (Some producer))
          | ExportUnavailableV1 _ => Err InvExportValues
          end
      end
  end.

Definition build_result_with_provenance (run : WorkflowRunResult Output) (provenance : WorkflowProvenanceV1)
    (exports : btree ExportV1) : result WorkflowResultV1 RunResultInvariant :=
  let '(outcome, primary_issue) := outcome_v1 (wr_outcome run) in
  let? cancellation := transpose cancellation_v1 (wr_cancellation run) in
  let force_abort := force_abort_v1 <$> wr_force_abort run in
  let? steps := collect_results step_v1 (wr_steps run) in
  let? finalization := transpose finalization_v1 (wr_finalization run) in
  let export_sources :=
    match wr_continuation run with
    | Some _ => (λ '(name, source), (name, export_source_v1 source)) <$> wr_export_sources run
    | None => []
    end in
  let? exports := collect_results (λ '(name, export), let? export := export_with_origin run name export in Ok (name, export)) exports in
  if bool_decide (wr_attempt_number run = 0%N) then Err InvAttemptMetadata
  else
    let? started_at := timestamp (wrt_started_at (wr_timing run)) in
    let? finished_at := timestamp (wrt_finished_at (wr_timing run)) in
    let? duration := duration_milliseconds (wrt_duration (wr_timing run)) in
    Ok {| res_schema_version := 1; res_attempt_number := wr_attempt_number run; res_continuation := wr_continuation run;
          res_output_producers := wr_output_producers run; res_export_sources := export_sources;
          res_workflow := {| wi_path := wr_workflow_path run; wi_provenance := provenance; wi_digest := wr_content_digest run |};
          res_execution := {| we_execution_root := None; we_maximum_parallel_steps := wr_maximum_parallel_steps run;
                              we_capacity := wr_cloud_capacity run; we_started_at := started_at; we_finished_at := finished_at;
                              we_duration_milliseconds := duration |};
          res_command_output_policy := {| cop_encoding := "base64";
            cop_maximum_retained_bytes_per_stream := wr_maximum_retained_bytes_per_stream run |};
          res_outcome := outcome; res_primary_issue := primary_issue; res_cancellation := cancellation;
          res_force_abort := force_abort; res_steps := steps; res_finalization := finalization; res_exports := exports |}.
End publication.
