(* ===== verification/SchemaCommon.v ===== *)
(** * Checks shared by the documents of a run

    Canonical timestamps and paths ([schema_common.rs]), digests in
    hexadecimal, the identifiers of attempts ([is_canonical_uuid]) and of
    cloud resources ([public_id.rs]), and the display names a result carries.

    A path is split as [std::path] splits one on Unix; a string is read as
    the code points of its UTF-8 encoding. *)

From S2P Require Import Prelude Text Nodes Runtime RunTiming.

(** ** Bytes and code points *)

(** [str::strip_prefix] with a string. *)
Fixpoint strip_prefix_str (prefix s : string) : option string :=
  match prefix, s with
  | "", _ => Some s
  | String c prefix, String c' s => if decide (c = c') then strip_prefix_str prefix s else None
  | String _ _, "" => None
  end.

Definition is_hex_byte (byte : ascii) : bool :=
  is_ascii_digit byte || ((97 <=? byte_code byte) && (byte_code byte <=? 102))%N.

(** [is_lowercase_hex] of [um_support]. *)
Definition is_lowercase_hex (value : string) (length : N) : bool :=
  bool_decide (str_len value = length) && forallb is_hex_byte (bytes value).

Definition hex_digit (n : N) : ascii := if (n <? 10)%N then ascii_of_N (48 + n) else ascii_of_N (87 + n).

(** [lowercase_hex] of [um_support]. *)
Definition lowercase_hex (l : list ascii) : string :=
  of_bytes (l ≫= λ byte, [hex_digit (N.shiftr (byte_code byte) 4); hex_digit (N.land (byte_code byte) 15)]).

(** [str::chars]: the code points of well-formed UTF-8. *)
Fixpoint code_points (l : list N) : list N :=
  match l with
  | [] => []
  | b :: l1 =>
      if (b <? 128)%N then b :: code_points l1
      else match l1 with
           | [] => []
           | c1 :: l2 =>
               if (b <? 224)%N then (64 * (b - 192) + (c1 - 128))%N :: code_points l2
               else match l2 with
                    | [] => []
                    | c2 :: l3 =>
                        if (b <? 240)%N then (4096 * (b - 224) + 64 * (c1 - 128) + (c2 - 128))%N :: code_points l3
                        else match l3 with
                             | [] => []
                             | c3 :: l4 =>
                                 (262144 * (b - 240) + 4096 * (c1 - 128) + 64 * (c2 - 128) + (c3 - 128))%N
                                 :: code_points l4
                             end
                    end
           end
  end.

Definition chars (value : string) : list N := code_points (byte_code <$> bytes value).

(** [char::is_control]: the category [Cc]. *)
Definition char_is_control (c : N) : bool := (c <=? 31)%N || ((127 <=? c) && (c <=? 159))%N.

(** [char::is_whitespace]: the property [White_Space]. *)
Definition char_is_whitespace (c : N) : bool :=
  ((9 <=? c) && (c <=? 13))%N || ((8192 <=? c) && (c <=? 8202))%N
  || existsb (N.eqb c) [32; 133; 160; 5760; 8232; 8233; 8239; 8287; 12288]%N.

Fixpoint drop_whitespace (l : list N) : list N :=
  match l with c :: l' => if char_is_whitespace c then drop_whitespace l' else l | [] => [] end.

(** [str::trim], on code points. *)
Definition trim (l : list N) : list N := reverse (drop_whitespace (reverse (drop_whitespace l))).

(** ** Timestamps *)

Section timestamps.
Context `{TimeLibrary}.

(** [utc_timestamp]. *)
Definition utc_timestamp (value : OffsetDateTime) : option string := format_utc value.

Definition parse_canonical_utc_timestamp (value : string) : option OffsetDateTime :=
  if bool_decide (last (bytes value) = Some "Z"%char) then
    parsed ← parse_rfc3339 value;
    formatted ← utc_timestamp parsed;
    if bool_decide (formatted = value) then Some parsed else None
  else None.

(** A time that is formatted is read back as canonical. *)
Lemma format_canonical value text :
  TimeLaws → utc_timestamp value = Some text → is_Some (parse_canonical_utc_timestamp text).
Proof.
  intros laws Hf. unfold parse_canonical_utc_timestamp, utc_timestamp in *.
  rewrite (bool_decide_true _ (format_ends laws _ _ Hf)).
  destruct (format_parses laws _ _ Hf) as (parsed & -> & Hparsed). cbn. rewrite Hparsed. cbn.
  rewrite (bool_decide_true _ eq_refl). by eexists.
Qed.
End timestamps.

(** ** Paths *)

(** [std::path::Component], of a path of Unix. *)
Inductive Component := RootDir | CurDir | ParentDir | NormalComponent (name : string).

Definition path_is_absolute (value : string) : bool := bool_decide (head (bytes value) = Some "/"%char).

Definition segment_component (segment : string) : option Component :=
  if decide (segment = "" ∨ segment = ".") then None
  else if decide (segment = "..") then Some ParentDir else Some (NormalComponent segment).

(** [Path::components]: repeated separators and [.] are dropped, except a
    leading [.] of a relative path. *)
Definition components (value : string) : list Component :=
  let segments := str_split "/" value in
  let leading :=
    if path_is_absolute value then [RootDir]
    else match segments with segment :: _ => if decide (segment = ".") then [CurDir] else [] | [] => [] end in
  (leading ++ omap segment_component segments)%list.

Definition component_str (component : Component) : string :=
  match component with RootDir => "/" | CurDir => "." | ParentDir => ".." | NormalComponent name => name end.

(** [PathBuf::push] of a component. *)
Definition path_push (path : string) (component : Component) : string :=
  match component with
  | RootDir => "/"
  | _ =>
      if decide (path = "" ∨ last (bytes path) = Some "/"%char) then path ++ component_str component
      else path ++ "/" ++ component_str component
  end.

Definition collect_path (l : list Component) : string := foldl path_push "" l.

Definition is_canonical_relative_path (value : string) : bool :=
  negb (str_is_empty value) && negb (path_is_absolute value)
  && forallb (λ component, match component with NormalComponent _ => true | _ => false end) (components value)
  && bool_decide (collect_path (components value) = value).

Definition is_canonical_absolute_path (value : string) : bool :=
  path_is_absolute value
  && negb (existsb (λ component, match component with CurDir | ParentDir => true | _ => false end) (components value))
  && bool_decide (collect_path (components value) = value).

(** ** Identifiers and names *)

(** [is_canonical_uuid] of [local_run.rs]. *)
Definition is_canonical_uuid (value : string) : bool :=
  bool_decide (str_len value = 36%N)
  && forallb (λ '(index, byte),
       if existsb (Nat.eqb index) [8; 13; 18; 23] then bool_decide (byte = "-"%char) else is_hex_byte byte)
     (imap pair (bytes value)).

Definition typed_id_byte (byte : ascii) : bool :=
  let code := byte_code byte in
  is_ascii_digit byte || ((97 <=? code) && (code <=? 104))%N || ((106 <=? code) && (code <=? 107))%N
  || ((109 <=? code) && (code <=? 110))%N || ((112 <=? code) && (code <=? 116))%N
  || ((118 <=? code) && (code <=? 122))%N.

(** [valid_typed_id] of [um_support]. *)
Definition valid_typed_id (value prefix : string) : bool :=
  match strip_prefix_str prefix value with
  | None => false
  | Some suffix =>
      match bytes suffix with
      | first :: rest =>
          bool_decide (str_len suffix = 26%N) && ((48 <=? byte_code first) && (byte_code first <=? 55))%N
          && forallb typed_id_byte rest
      | [] => false
      end
  end.

Definition valid_organization_display_name (value : string) : bool :=
  negb (str_is_empty value) && bool_decide (trim (chars value) = chars value)
  && (length (chars value) <=? 200)%nat && negb (existsb char_is_control (chars value)).

Definition lowercase_or_digit (byte : ascii) : bool := is_ascii_lowercase byte || is_ascii_digit byte.

Definition valid_project_name (value : string) : bool :=
  negb (str_is_empty value) && (str_len value <=? 63)%N
  && match head (bytes value) with Some byte => lowercase_or_digit byte | None => false end
  && match last (bytes value) with Some byte => lowercase_or_digit byte | None => false end
  && forallb (λ byte, lowercase_or_digit byte || bool_decide (byte = "-"%char)) (bytes value).

Definition valid_repository_part (part : string) : bool :=
  negb (str_is_empty part)
  && forallb (λ byte, is_ascii_alphanumeric byte || bool_decide (byte ∈ ["_"%char; "."%char; "-"%char])) (bytes part).

Definition valid_github_repository_name (value : string) : bool :=
  (str_len value <=? 255)%N
  && match split_once_by (λ c, bool_decide (c = "/"%char)) value with
     | Some (owner, repository) =>
         valid_repository_part owner && valid_repository_part repository
         && negb (bool_decide ("/"%char ∈ bytes repository))
     | None => false
     end.
