(* ===== verification/ResultMetadata.v ===== *)
(** * Checks on a published result

    What a reader of a result accepts ([validate_with_invariant] of
    [result_metadata.rs], [force_abort_evidence.rs], and the check of a
    snapshot of [workspace_snapshot.rs]).

    [Result<(), ResultMetadataError>] is a [bool]: the error carries nothing.
    The media types are those of a JSON schema, checked by a library: a
    parameter. *)

From S2P Require Import Prelude Text Nodes Evidence Validated Failures Capacity Runtime RunTiming Results SchemaCommon.

Local Open Scope list_scope.

(** [um_support::is_valid_media_type], of a JSON schema. *)
Class MediaTypes := is_valid_media_type : string → bool.

Definition SHA256_ALGORITHM : string := "sha256".
Definition BASE64_ENCODING : string := "base64".
Definition MAXIMUM_PARALLEL_STEPS : nat := 256.
Definition MAXIMUM_CARRIERS : nat := 4096.
Definition MAXIMUM_RECOVERY_DECISION_TEXT_CODE_POINTS : nat := 4 * 1024.

(** ** Force aborts in evidence *)

Inductive FirstForceAbortPhase := FirstOrdinary | FirstFinalization.

#[export] Instance FirstForceAbortPhase_eq_dec : EqDecision FirstForceAbortPhase.
Proof. solve_decision. Defined.

Definition first_phase_of_v1 (phase : ForceAbortPhaseV1) : FirstForceAbortPhase :=
  match phase with AbortOrdinaryV1 => FirstOrdinary | AbortFinalizationV1 => FirstFinalization end.

Definition first_phase_of_run (phase : RunCancellationPhase) : FirstForceAbortPhase :=
  match phase with PhaseOrdinary => FirstOrdinary | PhaseFinalization => FirstFinalization end.

Section force_abort_evidence.
Context {Reason : Type} `{!EqDecision Reason}.

Definition ordinary_node_cancellation_matches (actual : Reason) (ordinary_cancellation : option Reason)
    (force_abort_reason : Reason) (first_force_abort_phase : option FirstForceAbortPhase) : bool :=
  bool_decide (ordinary_cancellation = Some actual)
  || (bool_decide (actual = force_abort_reason) && bool_decide (first_force_abort_phase = Some FirstOrdinary)).

Definition finalization_node_cancellation_matches (actual : Reason) (finalization_cancellation : option Reason)
    (force_abort_reason : Reason) (force_abort : bool) : bool :=
  bool_decide (finalization_cancellation = Some actual) || (force_abort && bool_decide (actual = force_abort_reason)).

Definition finalization_cancellation_matches_force_phase (finalization_cancellation : option Reason)
    (force_abort_reason : Reason) (first_force_abort_phase : option FirstForceAbortPhase) : bool :=
  negb (bool_decide (first_force_abort_phase = Some FirstOrdinary))
  || bool_decide (finalization_cancellation = Some force_abort_reason).
End force_abort_evidence.

(** ** Sets kept by the checks *)

(** [BTreeSet::insert] on numbers: the set, in order. *)
Fixpoint ns_insert (n : N) (s : list N) : list N :=
  match s with
  | [] => [n]
  | m :: s' => if (n <? m)%N then n :: s else if (n =? m)%N then s else m :: ns_insert n s'
  end.

(** The numbers [1..=n]. *)
Definition one_to (n : N) : list N := N.of_nat <$> seq 1 (N.to_nat n).

Definition string_mem (s : string) (l : list string) : bool := bool_decide (s ∈ l).

(** The identifiers of a list are new ones, each checked as it is inserted. *)
Fixpoint fresh_identifiers (ids seen : list string) : option (list string) :=
  match ids with
  | [] => Some seen
  | id :: ids => if is_identifier id && negb (string_mem id seen) then fresh_identifiers ids (id :: seen) else None
  end.

(** ** Nodes *)

Definition primary_role (primary : PrimaryIssue) : WorkflowNodeRoleV1 :=
  match node_role (pi_node primary) with RoleStep => NodeStepV1 | RoleFinalizer => NodeFinalizerV1 end.

Definition primary_node_detail (primary : PrimaryIssue) : NodeDetail :=
  match pi_detail primary with
  | IssueDetailFailed detail => DetailFailed detail
  | IssueDetailBlocked detail => DetailBlocked detail
  end.

Definition primary_state (primary : PrimaryIssue) : WorkflowStepStateV1 :=
  match pi_state primary with IssueFailed => StateFailed | IssueBlocked => StateBlocked end.

Definition state_is (state : WorkflowStepStateV1) (step : WorkflowStepV1) : bool := bool_decide (st_state step = state).

Definition step_succeeds_workflow (step : WorkflowStepV1) : bool :=
  state_is StateSucceeded step || state_is StateSkipped step
  || match st_detail step with Some (DetailInherited _) => true | _ => false end
  || (bool_decide (st_failure_policy step = Advisory) && (state_is StateFailed step || state_is StateBlocked step)).

(** [cancellation_detail] of [result_metadata.rs]. *)
Definition cancellation_detail_v1 (reason : CancellationReasonV1) : CancellationDetail :=
  {| cd_code := match reason with
                | UserRequestV1 => UserRequest
                | TerminationRequestV1 => TerminationRequest
                | CallerOutputFailureV1 => CallerOutputFailure
                | RunnerShutdownV1 => RunnerShutdown
                | ExecutionLeaseExpiredV1 => ExecutionLeaseExpired
                | ForceAbortReasonV1 => ForceAbort
                end |}.

(** The detail a state has, by role. *)
Definition exact_fields (expected_role : WorkflowNodeRoleV1) (step : WorkflowStepV1) : bool :=
  match expected_role, st_state step, st_detail step with
  | _, StateSucceeded, None => true
  | NodeStepV1, StateInherited, Some (DetailInherited detail) =>
      (0 <? id_prior_attempt_number detail)%N && is_canonical_uuid (id_prior_attempt_id detail)
  | _, StateFailed, Some (DetailFailed _) => true
  | _, StateBlocked, Some (DetailBlocked _) => true
  | _, StateSkipped, Some (DetailSkipped _) => true
  | NodeStepV1, StateNotRun, Some (DetailNotRun detail) =>
      match ned_code detail with FailureStop => true | FinalizerTriggerNotSelected => false end
  | NodeFinalizerV1, StateNotRun, Some (DetailNotRun detail) =>
      match ned_code detail with FinalizerTriggerNotSelected => true | FailureStop => false end
  | _, StateCancelled, Some (DetailCancellation _) => true
  | _, _, _ => false
  end.

Definition detail_failure_phase (step : WorkflowStepV1) : option FailurePhase :=
  match st_detail step with Some (DetailFailed detail) => Some (fd_phase detail) | _ => None end.

Definition timing_valid (step : WorkflowStepV1) : bool :=
  let timing_present := bool_decide (is_Some (st_started_at step)) in
  let output_present := bool_decide (is_Some (st_command_output step)) in
  match st_state step with
  | StateSucceeded => timing_present
  | StateFailed => Bool.eqb timing_present (negb (bool_decide (detail_failure_phase step = Some PhaseCondition)))
  | StateInherited | StateBlocked | StateSkipped | StateNotRun => negb timing_present
  | StateCancelled => negb output_present || timing_present
  end.

Definition output_valid (step : WorkflowStepV1) : bool :=
  let output_present := bool_decide (is_Some (st_command_output step)) in
  if decide (st_kind step = "agent"%string) then negb output_present
  else if decide (st_kind step = "cmd"%string) then
    match st_state step with
    | StateSucceeded => output_present
    | StateFailed =>
        Bool.eqb output_present
          match detail_failure_phase step with
          | Some (PhaseExecution | PhaseOutputCapture) => true
          | Some (PhaseStart | PhaseCondition) | None => false
          end
    | StateInherited | StateBlocked | StateSkipped | StateNotRun => negb output_present
    | StateCancelled => true
    end
  else false.

(** ** Recoveries *)

Definition recovery_decision_text_is_too_long (value : string) : bool :=
  (MAXIMUM_RECOVERY_DECISION_TEXT_CODE_POINTS <? length (chars value))%nat.

Definition valid_handler_failure (failure : RecoveryHandlerFailureV1) : bool :=
  let decision := bool_decide (is_Some (hc_decision_rejection (hf_cause failure))) in
  let exit := bool_decide (is_Some (hc_exit_code (hf_cause failure))) in
  match hc_code (hf_cause failure) with
  | HCommandExitFailed => negb decision
  | HDecisionInvalid | HAgentResultInvalid => decision && negb exit
  | _ => negb decision && negb exit
  end.

Definition decision_text_valid (text : option string) : bool :=
  match text with
  | Some value => negb (str_is_empty value) && negb (recovery_decision_text_is_too_long value)
  | None => false
  end.

Definition absent {A} (o : option A) : bool := match o with None => true | Some _ => false end.

Definition validate_handler_summary (handler : RecoveryHandlerSummaryV1) : bool :=
  match hs_outcome handler with
  | HandlerRecheckV1 | HandlerGaveUpV1 =>
      decision_text_valid (hs_summary handler) && decision_text_valid (hs_reason handler) && absent (hs_failure handler)
  | HandlerFailedV1 =>
      match hs_failure handler with
      | Some failure => absent (hs_summary handler) && absent (hs_reason handler) && valid_handler_failure failure
      | None => false
      end
  | HandlerCancelledV1 => absent (hs_summary handler) && absent (hs_reason handler) && absent (hs_failure handler)
  end.

Definition terminal_failure_detail (step : WorkflowStepV1) : option FailureDetail :=
  match st_detail step with Some (DetailFailed detail) => Some detail | _ => None end.

(** What the scan of the invocations of a step collects. *)
Record InvocationScan := {
  is_invocation_ids : list N;
  is_target_executions : list N;
  is_handler_rounds : list N;
  is_previous_invocation : N;
  is_retained_diagnostic_bytes : N
}.

Definition empty_scan : InvocationScan :=
  {| is_invocation_ids := []; is_target_executions := []; is_handler_rounds := []; is_previous_invocation := 0;
     is_retained_diagnostic_bytes := 0 |}.

Section checks.
Context `{!TimeLibrary, !Base64, !MediaTypes}.

Definition canonical_timestamp (value : string) : bool := bool_decide (is_Some (parse_canonical_utc_timestamp value)).

Definition valid_stream (stream : DiagnosticStreamV1) (maximum_stream_bytes : N) : bool :=
  if negb (bool_decide (ds_encoding stream = BASE64_ENCODING))
     || (maximum_stream_bytes <? ds_retained_bytes stream)%N
     || negb (Bool.eqb (ds_truncated stream) (negb (ds_discarded_bytes stream =? 0)%N))
     || (negb (ds_discarded_bytes stream =? 0)%N && negb (ds_retained_bytes stream =? maximum_stream_bytes)%N)
  then false
  else match base64_decode (ds_data stream) with
       | Some data =>
           bool_decide (N.of_nat (length data) = ds_retained_bytes stream)
           && bool_decide (base64_encode data = ds_data stream)
       | None => false
       end.

(** The diagnostics of an invocation add to the bytes retained. *)
Fixpoint scan_diagnostics (diagnostics : list RecoveryInvocationDiagnosticV1) (maximum_stream_bytes retained : N)
    : option N :=
  match diagnostics with
  | [] => Some retained
  | diagnostic :: diagnostics =>
      if is_canonical_relative_path (rid_reference diagnostic)
         && valid_stream (rid_stream diagnostic) maximum_stream_bytes
      then retained ← checked_add u64_max retained (ds_retained_bytes (rid_stream diagnostic));
           scan_diagnostics diagnostics maximum_stream_bytes retained
      else None
  end.

Definition invocation_fields_valid (scan : InvocationScan) (invocation : RecoveryInvocationV1) : bool :=
  negb (ri_invocation_id invocation =? 0)%N
  && (is_previous_invocation scan <? ri_invocation_id invocation)%N
  && negb (bool_decide (ri_invocation_id invocation ∈ is_invocation_ids scan))
  && negb (Bool.eqb (absent (ri_target_execution invocation)) (absent (ri_recovery_round invocation)))
  && Bool.eqb (bool_decide (ri_role invocation = InvocationTarget)) (negb (absent (ri_target_execution invocation)))
  && canonical_timestamp (ri_started_at invocation) && canonical_timestamp (ri_finished_at invocation)
  && match ri_diagnostic_reference invocation with
     | Some reference => is_canonical_relative_path reference
     | None => true
     end.

(** An execution number or a round is not seen twice. *)
Definition insert_new (number : option N) (seen : list N) : option (list N) :=
  n ← number; if decide (n ∈ seen) then None else Some (ns_insert n seen).

Definition scan_invocation (maximum_stream_bytes : N) (scan : InvocationScan) (invocation : RecoveryInvocationV1)
    : option InvocationScan :=
  if invocation_fields_valid scan invocation then
    target_executions ←
      match ri_role invocation with
      | InvocationTarget => insert_new (ri_target_execution invocation) (is_target_executions scan)
      | InvocationRecoveryHandler => Some (is_target_executions scan)
      end;
    handler_rounds ←
      match ri_role invocation with
      | InvocationTarget => Some (is_handler_rounds scan)
      | InvocationRecoveryHandler => insert_new (ri_recovery_round invocation) (is_handler_rounds scan)
      end;
    retained ← scan_diagnostics (ri_diagnostics invocation) maximum_stream_bytes (is_retained_diagnostic_bytes scan);
    Some {| is_invocation_ids := ri_invocation_id invocation :: is_invocation_ids scan;
            is_target_executions := target_executions; is_handler_rounds := handler_rounds;
            is_previous_invocation := ri_invocation_id invocation; is_retained_diagnostic_bytes := retained |}
  else None.

Fixpoint scan_invocations (maximum_stream_bytes : N) (invocations : list RecoveryInvocationV1) (scan : InvocationScan)
    : option InvocationScan :=
  match invocations with
  | [] => Some scan
  | invocation :: invocations =>
      scan ← scan_invocation maximum_stream_bytes scan invocation; scan_invocations maximum_stream_bytes invocations scan
  end.

(** The outcome of the handler of the round that ended the recovery. *)
Definition terminal_handler_outcome (termination : RecoveryTerminationV1) (expected_round : N)
    : option RecoveryHandlerOutcomeV1 :=
  match termination with
  | TermGaveUp round => if (round =? expected_round)%N then Some HandlerGaveUpV1 else None
  | TermHandlerFailed round _ => if (round =? expected_round)%N then Some HandlerFailedV1 else None
  | TermCancelled round InvocationRecoveryHandler _ =>
      if (round =? expected_round)%N then Some HandlerCancelledV1 else None
  | _ => None
  end.

(** The handler of a round, and its invocation. *)
Definition round_handler_invocation (step : WorkflowStepV1) (recovery : StepRecoverySummaryV1) (expected_round : N)
    (round : RecoveryRoundSummaryV1) (terminal : option RecoveryHandlerOutcomeV1) : option (option N) :=
  match srs_handler_kind recovery, rrs_handler round with
  | None, None => Some None
  | Some kind, Some handler =>
      if bool_decide (kind = hs_kind handler)
         && (fe_invocation_id (rrs_failed_execution round) <? hs_invocation_id handler)%N
         && bool_decide (hs_outcome handler = default HandlerRecheckV1 terminal)
         && validate_handler_summary handler
      then
        invocation ← List.find (λ invocation, (ri_invocation_id invocation =? hs_invocation_id handler)%N)
                       (st_invocations step);
        let expected_state :=
          if decide (hs_outcome handler = HandlerCancelledV1) then InvocationCancelled else InvocationSettled in
        if bool_decide (ri_role invocation = InvocationRecoveryHandler)
           && bool_decide (ri_recovery_round invocation = Some expected_round)
           && bool_decide (ri_state invocation = expected_state)
        then Some (Some (hs_invocation_id handler))
        else None
      else None
  | _, _ => None
  end.

(** The execution after a round that did not end the recovery. *)
Definition next_target_valid (step : WorkflowStepV1) (expected_round last_invocation : N) : bool :=
  match List.find (λ invocation, bool_decide (ri_role invocation = InvocationTarget)
                     && bool_decide (ri_target_execution invocation = checked_add u8_max expected_round 1))
          (st_invocations step) with
  | Some next_target => (last_invocation <? ri_invocation_id next_target)%N
  | None => false
  end.

Definition validate_round (step : WorkflowStepV1) (recovery : StepRecoverySummaryV1) (scan : InvocationScan)
    (index : nat) (round : RecoveryRoundSummaryV1) : bool :=
  let expected_round := N.of_nat (index + 1) in
  let failed := rrs_failed_execution round in
  let terminal := terminal_handler_outcome (srs_termination recovery) expected_round in
  (expected_round <=? u8_max)%N
  && (rrs_number round =? expected_round)%N && (fe_execution_number failed =? expected_round)%N
  && validate_failure (fe_failure failed)
  && bool_decide (fe_invocation_id failed ∈ is_invocation_ids scan)
  && existsb (λ invocation, (ri_invocation_id invocation =? fe_invocation_id failed)%N
       && bool_decide (ri_role invocation = InvocationTarget)
       && bool_decide (ri_target_execution invocation = Some expected_round)
       && bool_decide (ri_state invocation = InvocationSettled)) (st_invocations step)
  && match round_handler_invocation step recovery expected_round round terminal with
     | None => false
     | Some handler_invocation_id =>
         match terminal with
         | Some _ => true
         | None => next_target_valid step expected_round (default (fe_invocation_id failed) handler_invocation_id)
         end
     end.

(** How the recovery ended agrees with the step and its invocations. *)
Definition termination_valid (step : WorkflowStepV1) (recovery : StepRecoverySummaryV1) (last_round maximum_target : N)
    : bool :=
  let last_handler := last (srs_rounds recovery) ≫= rrs_handler in
  let last_failure := last (srs_rounds recovery) ≫= λ round, failure_detail_from_recovery (fe_failure (rrs_failed_execution round)) in
  match srs_termination recovery with
  | TermRecovered execution_number =>
      state_is StateSucceeded step && (execution_number =? saturating_add u8_max last_round 1)%N
      && (maximum_target =? execution_number)%N
  | TermExhausted execution_number =>
      state_is StateFailed step
      && bool_decide (N.of_nat (length (srs_rounds recovery)) = srs_configured_retries recovery)
      && (execution_number =? saturating_add u8_max last_round 1)%N && (maximum_target =? execution_number)%N
  | TermGaveUp round =>
      state_is StateFailed step && (round =? last_round)%N && (maximum_target =? round)%N
      && match last_handler with Some handler => bool_decide (hs_outcome handler = HandlerGaveUpV1) | None => false end
      && bool_decide (terminal_failure_detail step = last_failure)
  | TermHandlerFailed round handler_failure =>
      state_is StateFailed step && (round =? last_round)%N && (maximum_target =? round)%N
      && match last_handler with
         | Some handler =>
             bool_decide (hs_outcome handler = HandlerFailedV1) && bool_decide (hs_failure handler = Some handler_failure)
         | None => false
         end
      && bool_decide (terminal_failure_detail step = last_failure)
  | TermCancelled round active_role execution_number =>
      state_is StateCancelled step && (round =? last_round)%N
      && match active_role, execution_number with
         | InvocationTarget, Some execution => (execution =? maximum_target)%N
         | InvocationRecoveryHandler, None => true
         | _, _ => false
         end
      && existsb (λ invocation, bool_decide (ri_role invocation = active_role)
           && bool_decide (ri_state invocation = InvocationCancelled)
           && (absent execution_number || bool_decide (ri_target_execution invocation = execution_number)))
         (st_invocations step)
  end.

Definition recovery_fields_valid (step : WorkflowStepV1) (recovery : StepRecoverySummaryV1) : bool :=
  bool_decide (st_role step = NodeStepV1) && (srs_schema_version recovery =? 1)%N
  && ((1 <=? srs_configured_retries recovery) && (srs_configured_retries recovery <=? 10))%N
  && negb (bool_decide (length (srs_rounds recovery) = 0))
  && (N.of_nat (length (srs_rounds recovery)) <=? srs_configured_retries recovery)%N
  && negb (bool_decide (length (st_invocations step) = 0)).

(** A step without recovery has no invocation, or the one of an agent. *)
Definition plain_invocations_valid (step : WorkflowStepV1) : bool :=
  match st_invocations step with
  | [] => true
  | [invocation] =>
      bool_decide (st_kind step = "agent"%string) && negb (absent (st_started_at step))
      && bool_decide (ri_role invocation = InvocationTarget) && bool_decide (ri_target_execution invocation = Some 1%N)
  | _ => false
  end.

Definition validate_step_recovery (step : WorkflowStepV1) (maximum_stream_bytes : N) : bool :=
  match st_recovery step with Some recovery => recovery_fields_valid step recovery | None => true end
  && match scan_invocations maximum_stream_bytes (st_invocations step) empty_scan with
     | None => false
     | Some scan =>
         (is_retained_diagnostic_bytes scan <=? MAXIMUM_RETAINED_STREAM_BYTES_PER_RUN)%N
         && match st_recovery step with
            | None => plain_invocations_valid step
            | Some recovery =>
                forallb (λ '(index, round), validate_round step recovery scan index round) (imap pair (srs_rounds recovery))
                && let last_round := N.of_nat (length (srs_rounds recovery)) in
                   match last (is_target_executions scan) with
                   | None => false
                   | Some maximum_target =>
                       bool_decide (is_target_executions scan = one_to maximum_target)
                       && match srs_handler_kind recovery with
                          | None => bool_decide (is_handler_rounds scan = [])
                          | Some _ => bool_decide (is_handler_rounds scan = one_to last_round)
                          end
                       && termination_valid step recovery last_round maximum_target
                   end
            end
     end.

(** ** Steps *)

Definition step_timing_pair_valid (step : WorkflowStepV1) : bool :=
  match st_started_at step, st_duration_milliseconds step with
  | Some started_at, Some _ => canonical_timestamp started_at
  | None, None => true
  | _, _ => false
  end.

Definition command_output_valid (step : WorkflowStepV1) (maximum_stream_bytes : N) : bool :=
  match st_command_output step with
  | Some output => valid_stream (co_stdout output) maximum_stream_bytes && valid_stream (co_stderr output) maximum_stream_bytes
  | None => true
  end.

Definition validate_step_v1 (expected_role : WorkflowNodeRoleV1) (maximum_stream_bytes : N) (step : WorkflowStepV1) : bool :=
  bool_decide (st_role step = expected_role)
  && bool_decide (st_kind step = "cmd"%string ∨ st_kind step = "agent"%string)
  && step_timing_pair_valid step && exact_fields expected_role step && timing_valid step && output_valid step
  && command_output_valid step maximum_stream_bytes && validate_step_recovery step maximum_stream_bytes.

(** The steps are valid, and the identifiers seen with theirs. *)
Definition validate_steps (steps : list WorkflowStepV1) (expected_role : WorkflowNodeRoleV1) (maximum_stream_bytes : N)
    (ids : list string) : option (list string) :=
  if forallb (validate_step_v1 expected_role maximum_stream_bytes) steps
  then fresh_identifiers (st_id <$> steps) ids else None.

(** ** The finalization *)

Definition failed_or_blocked_v1 (step : WorkflowStepV1) : bool := state_is StateFailed step || state_is StateBlocked step.

Definition issues_valid (finalization : FinalizationV1) : bool :=
  let expected_issues := List.filter failed_or_blocked_v1 (fz_finalizers finalization) in
  bool_decide (length (fz_issues finalization) = length expected_issues)
  && forallb (λ '(issue, finalizer),
       bool_decide (wn_id (fi_node issue) = st_id finalizer)
       && bool_decide (wn_role (fi_node issue) = NodeFinalizerV1)
       && bool_decide (fi_impact issue = st_failure_policy finalizer)) (zip (fz_issues finalization) expected_issues).

Definition first_phase (force_abort : option ForceAbortV1) : option FirstForceAbortPhase :=
  (λ force_abort, first_phase_of_v1 (fa1_phase force_abort)) <$> force_abort.

Definition deadline_valid (cancellation : FinalizationCancellationV1) : bool :=
  match fc1_force_stop_deadline cancellation with Some deadline => canonical_timestamp deadline | None => false end.

Definition finalization_cancellation_valid (finalization : FinalizationV1) : bool :=
  match fz_cancellation finalization, fz_force_abort finalization with
  | None, false => true
  | Some cancellation, false =>
      negb (bool_decide (fc1_reason cancellation = ForceAbortReasonV1)) && deadline_valid cancellation
  | Some cancellation, true =>
      if decide (fc1_reason cancellation = ForceAbortReasonV1) then absent (fc1_force_stop_deadline cancellation)
      else deadline_valid cancellation
  | None, true => false
  end.

Definition trigger_ineligible (finalizer : WorkflowStepV1) : bool :=
  match st_detail finalizer with
  | Some (DetailNotRun detail) => match ned_code detail with FinalizerTriggerNotSelected => true | FailureStop => false end
  | _ => false
  end.

Definition cancelled_finalizer_matches (finalization : FinalizationV1) (cancellation : FinalizationCancellationV1)
    (finalizer : WorkflowStepV1) : bool :=
  match st_detail finalizer with
  | Some (DetailCancellation detail) =>
      finalization_node_cancellation_matches (cd_code detail) (Some (cd_code (cancellation_detail_v1 (fc1_reason cancellation))))
        ForceAbort (fz_force_abort finalization)
  | _ => false
  end.

Definition cancellation_dispositions_valid (finalization : FinalizationV1) (execution_force_abort : option ForceAbortV1)
    : bool :=
  let cancelled_finalizers := List.filter (state_is StateCancelled) (fz_finalizers finalization) in
  match fz_cancellation finalization with
  | None => bool_decide (length cancelled_finalizers = 0)
  | Some cancellation =>
      (bool_decide (length cancelled_finalizers = 0)
       && bool_decide (fc1_reason cancellation = ForceAbortReasonV1)
       && bool_decide (execution_force_abort = Some {| fa1_reason := ForceAbortReasonV1; fa1_phase := AbortOrdinaryV1 |})
       && forallb trigger_ineligible (fz_finalizers finalization))
      || (negb (bool_decide (length cancelled_finalizers = 0))
          && forallb (cancelled_finalizer_matches finalization cancellation) cancelled_finalizers)
  end.

Definition validate_finalization (finalization : FinalizationV1) (execution_force_abort : option ForceAbortV1) : bool :=
  issues_valid finalization
  && finalization_cancellation_matches_force_phase (fc1_reason <$> fz_cancellation finalization) ForceAbortReasonV1
       (first_phase execution_force_abort)
  && finalization_cancellation_valid finalization
  && cancellation_dispositions_valid finalization execution_force_abort.

(** ** The outcome *)

Definition ordinary_abort (force_abort : option ForceAbortV1) : bool :=
  match force_abort with Some force_abort => bool_decide (fa1_phase force_abort = AbortOrdinaryV1) | None => false end.

Definition step_issue (primary : option PrimaryIssue) : bool :=
  match primary with Some primary => bool_decide (primary_role primary = NodeStepV1) | None => false end.

(** How the ordinary steps ended, as the result shows it. *)
Definition ordinary_trigger (result : WorkflowResultV1) : FinalizationTriggerV1 :=
  match res_finalization result with
  | Some finalization => fz_trigger finalization
  | None =>
      if step_issue (res_primary_issue result) then TriggerFailedV1
      else if negb (absent (res_cancellation result)) || ordinary_abort (res_force_abort result) then TriggerCancelledV1
      else TriggerSucceededV1
  end.

Definition ordinary_valid (result : WorkflowResultV1) (trigger : FinalizationTriggerV1) : bool :=
  match trigger with
  | TriggerSucceededV1 => absent (res_cancellation result) && forallb step_succeeds_workflow (res_steps result)
  | TriggerFailedV1 => step_issue (res_primary_issue result)
  | TriggerCancelledV1 =>
      (negb (absent (res_cancellation result)) || ordinary_abort (res_force_abort result))
      && forallb (λ step, step_succeeds_workflow step || state_is StateCancelled step) (res_steps result)
      && existsb (state_is StateCancelled) (res_steps result)
  end.

Definition required_finalization_issue (result : WorkflowResultV1) : bool :=
  match res_finalization result with
  | Some finalization => existsb (λ issue, bool_decide (fi_impact issue = Required)) (fz_issues finalization)
  | None => false
  end.

Definition finalization_cancelled (result : WorkflowResultV1) : bool :=
  match res_finalization result ≫= fz_cancellation with Some _ => true | None => false end.

Definition outcome_valid (result : WorkflowResultV1) (trigger : FinalizationTriggerV1) : bool :=
  match trigger, res_outcome result with
  | TriggerSucceededV1, OutcomeSucceededV1 =>
      absent (res_primary_issue result) && negb (required_finalization_issue result) && negb (finalization_cancelled result)
  | TriggerSucceededV1, OutcomeFailedV1 =>
      required_finalization_issue result
      && match res_primary_issue result with
         | Some primary => bool_decide (primary_role primary = NodeFinalizerV1)
         | None => false
         end
  | TriggerSucceededV1, OutcomeCancelledV1 =>
      absent (res_primary_issue result) && negb (required_finalization_issue result) && finalization_cancelled result
  | TriggerFailedV1, OutcomeFailedV1 => true
  | TriggerCancelledV1, OutcomeCancelledV1 => absent (res_primary_issue result)
  | _, _ => false
  end.

(** The node a primary issue names has the issue. *)
Definition primary_issue_found (result : WorkflowResultV1) (primary : PrimaryIssue) : bool :=
  match (match primary_role primary with
         | NodeStepV1 => Some (res_steps result)
         | NodeFinalizerV1 => fz_finalizers <$> res_finalization result
         end) with
  | None => false
  | Some candidates =>
      existsb (λ step,
        bool_decide (st_id step = node_id (pi_node primary)) && bool_decide (st_role step = primary_role primary)
        && bool_decide (st_failure_policy step = Required) && state_is (primary_state primary) step
        && bool_decide (st_detail step = Some (primary_node_detail primary))) candidates
  end.

Definition validate_outcome (result : WorkflowResultV1) : bool :=
  match res_cancellation result with
  | Some cancellation =>
      negb (bool_decide (cn1_reason cancellation = ForceAbortReasonV1))
      && canonical_timestamp (cn1_force_stop_deadline cancellation)
  | None => true
  end
  && ordinary_valid result (ordinary_trigger result) && outcome_valid result (ordinary_trigger result)
  && match res_primary_issue result with Some primary => primary_issue_found result primary | None => true end.

Definition cancelled_step_matches (result : WorkflowResultV1) (step : WorkflowStepV1) : bool :=
  match st_detail step with
  | Some (DetailCancellation detail) =>
      ordinary_node_cancellation_matches (cd_code detail)
        ((λ cancellation, cd_code (cancellation_detail_v1 (cn1_reason cancellation))) <$> res_cancellation result)
        ForceAbort (first_phase (res_force_abort result))
  | _ => false
  end.

Definition validate_force_abort (result : WorkflowResultV1) : bool :=
  match res_force_abort result with
  | Some force_abort =>
      bool_decide (fa1_reason force_abort = ForceAbortReasonV1)
      && negb (bool_decide (fa1_phase force_abort = AbortFinalizationV1) && absent (res_finalization result))
  | None => true
  end
  && match res_finalization result with
     | Some finalization => Bool.eqb (fz_force_abort finalization) (negb (absent (res_force_abort result)))
     | None => true
     end
  && forallb (cancelled_step_matches result) (List.filter (state_is StateCancelled) (res_steps result)).

(** ** Continuations *)

Definition valid_digest (digest : DigestV1) : bool :=
  bool_decide (dg_algorithm digest = SHA256_ALGORITHM) && is_lowercase_hex (dg_value digest) 64.

Definition WORKSPACE_SNAPSHOT_ALGORITHM : string := "git_worktree_sha256_v1".

(** [WorkspaceSnapshotV1::validate]. *)
Definition snapshot_validate (snapshot : WorkspaceSnapshotV1) (settlement : bool) : bool :=
  let available :=
    match ws_value snapshot with Some value => is_lowercase_hex value 64 | None => false end
    && match ws_taken_at snapshot with Some value => canonical_timestamp value | None => false end
    && absent (ws_unavailable snapshot) in
  let unavailable := absent (ws_value snapshot) && absent (ws_taken_at snapshot) && negb (absent (ws_unavailable snapshot)) in
  bool_decide (ws_algorithm snapshot = WORKSPACE_SNAPSHOT_ALGORITHM)
  && (available || unavailable) && Bool.eqb (negb (absent (ws_settled_by snapshot))) settlement.

Definition workspace_comparable (workspace : ContinuationWorkspaceV1) : bool :=
  bool_decide (cw_preparation workspace = PreparationReady)
  && bool_decide (cw_execution_root workspace = cw_prior_execution_root workspace)
  && match cw_start_snapshot workspace, cw_prior_settlement_snapshot workspace with
     | Some start, Some prior =>
         absent (ws_unavailable start) && negb (absent (ws_value start))
         && absent (ws_unavailable prior) && negb (absent (ws_value prior))
         && bool_decide (ws_algorithm prior = ws_algorithm start)
         && bool_decide (ws_settled_by prior = Some SettledByEngine)
     | _, _ => false
     end.

Definition workspace_modified_valid (workspace : ContinuationWorkspaceV1) : bool :=
  match cw_modified workspace with
  | ModifiedKnown modified =>
      workspace_comparable workspace
      && match cw_prior_settlement_snapshot workspace, cw_start_snapshot workspace with
         | Some prior, Some start => Bool.eqb modified (negb (bool_decide (ws_value prior = ws_value start)))
         | _, _ => false
         end
  | ModifiedUnknown => negb (workspace_comparable workspace)
  end.

(** [compare_continuation_snapshots] of [workspace_snapshot.rs]. *)
Definition compare_continuation_snapshots (execution_root prior_execution_root : string) (start : WorkspaceSnapshotV1)
    (settlement : option WorkspaceSnapshotV1) : WorkspaceModifiedV1 :=
  match settlement with
  | None => ModifiedUnknown
  | Some previous =>
      match ws_value start, ws_value previous with
      | Some current, Some prior =>
          if bool_decide (execution_root = prior_execution_root) && snapshot_validate start false
             && snapshot_validate previous true && bool_decide (ws_algorithm start = ws_algorithm previous)
             && bool_decide (ws_settled_by previous = Some SettledByEngine)
          then ModifiedKnown (negb (bool_decide (current = prior))) else ModifiedUnknown
      | _, _ => ModifiedUnknown
      end
  end.

Definition definition_valid (record : ContinuationRecordV1) : bool :=
  match crq_definition (cn_request record), cn_definition_source record with
  | RequestedInherited, SourceInherited manifest_digest prior_manifest_digest =>
      valid_digest manifest_digest && bool_decide (manifest_digest = prior_manifest_digest)
  | RequestedReplaced replaced, SourceReplaced manifest_digest prior_manifest_digest =>
      match replaced with
      | ReplacementLocal path => is_canonical_absolute_path path
      | ReplacementCloud commit_oid workflow_path => is_lowercase_hex commit_oid 40 && is_canonical_relative_path workflow_path
      end && valid_digest manifest_digest && valid_digest prior_manifest_digest
  | _, _ => false
  end.

Definition quiescence_valid (workspace : ContinuationWorkspaceV1) : bool :=
  match cw_quiescence workspace with
  | Some proof =>
      bool_decide (checked_add u64_max (cq_groups_terminated proof) (cq_groups_absent proof) = Some (cq_groups_recorded proof))
      && canonical_timestamp (cq_proven_at proof)
  | None => false
  end.

Definition preparation_valid (workspace : ContinuationWorkspaceV1) : bool :=
  match cw_preparation workspace with
  | PreparationReady =>
      match cw_start_snapshot workspace with Some snapshot => snapshot_validate snapshot false | None => false end
      && quiescence_valid workspace
  | PreparationPending | PreparationUnavailable =>
      absent (cw_start_snapshot workspace) && absent (cw_quiescence workspace)
      && match cw_modified workspace with ModifiedUnknown => true | ModifiedKnown _ => false end
  end.

(** The steps requested, executed again and inherited. *)
Definition partition_valid (record : ContinuationRecordV1) : bool :=
  negb (bool_decide (length (crq_from_steps (cn_request record)) = 0))
  && bool_decide (crq_from_steps (cn_request record) = cn_from_steps record)
  && negb (absent (fresh_identifiers (cn_from_steps record) []))
  && match fresh_identifiers (cn_reexecuted_steps record) [] with
     | Some partition => negb (absent (fresh_identifiers (cis_id <$> cn_inherited_steps record) partition))
     | None => false
     end
  && forallb (λ requested, string_mem requested (cn_reexecuted_steps record)) (cn_from_steps record).

Definition validate_continuation_record (record : ContinuationRecordV1) : bool :=
  let workspace := cn_workspace record in
  partition_valid record && definition_valid record
  && match crq_execution_root (cn_request record) with Some root => is_canonical_absolute_path root | None => true end
  && match crq_expected_run_version (cn_request record) with Some version => (0 <? version)%N | None => true end
  && is_canonical_absolute_path (cw_execution_root workspace)
  && is_canonical_absolute_path (cw_prior_execution_root workspace)
  && preparation_valid workspace
  && match cw_prior_settlement_snapshot workspace with Some snapshot => snapshot_validate snapshot true | None => true end
  && workspace_modified_valid workspace.

Definition output_producer_matches_inherited_detail (producer : OutputProducer) (detail : InheritedDetail) : bool :=
  is_canonical_uuid (op_attempt_id producer)
  && match id_prior_state detail with
     | PriorSucceeded =>
         bool_decide (op_attempt_id producer = id_prior_attempt_id detail)
         && bool_decide (op_attempt_number producer = id_prior_attempt_number detail)
     | PriorInherited =>
         (0 <? op_attempt_number producer)%N && (op_attempt_number producer <? id_prior_attempt_number detail)%N
     | PriorSkipped => false
     end.

(** The request is one that the provenance of the workflow allows. *)
Definition request_valid (result : WorkflowResultV1) (continuation : ContinuationRecordV1) : bool :=
  let local_request :=
    match crq_definition (cn_request continuation) with
    | RequestedInherited => None
    | RequestedReplaced (ReplacementLocal _) => Some true
    | RequestedReplaced (ReplacementCloud _ _) => Some false
    end in
  match wi_provenance (res_workflow result) with
  | ProvenanceLocal _ =>
      negb (bool_decide (local_request = Some false)) && absent (crq_expected_run_version (cn_request continuation))
  | ProvenanceCloud _ _ _ _ _ =>
      negb (bool_decide (local_request = Some true)) && absent (crq_execution_root (cn_request continuation))
  end.

Definition inherited_step_valid (result : WorkflowResultV1) (step : WorkflowStepV1) (inherited : ContinuationInheritedStepV1)
    : bool :=
  match st_detail step with
  | Some (DetailInherited detail) =>
      bool_decide (st_id step = cis_id inherited)
      && bool_decide (checked_add u64_max (id_prior_attempt_number detail) 1 = Some (res_attempt_number result))
      && bool_decide (id_prior_state detail = cis_prior_state inherited)
      && Bool.eqb (id_definition_changed detail) (cis_definition_changed inherited)
  | _ => false
  end.

(** The producers recorded for the outputs of an inherited step. *)
Definition producers_valid (inherited_steps : list WorkflowStepV1) (node : string) (outputs : btree OutputProducer) : bool :=
  match List.find (λ step, bool_decide (st_id step = node)) inherited_steps ≫= st_detail with
  | Some (DetailInherited detail) =>
      negb (bool_decide (id_prior_state detail = PriorSkipped)) && negb (bool_decide (length outputs = 0))
      && forallb (λ '(output, producer),
           is_identifier output && bool_decide (op_node producer = node) && bool_decide (op_output producer = output)
           && output_producer_matches_inherited_detail producer detail) outputs
  | _ => false
  end.

Definition validate_continuation (result : WorkflowResultV1) : bool :=
  let inherited_steps := List.filter (state_is StateInherited) (res_steps result) in
  match res_continuation result with
  | None =>
      bool_decide (length inherited_steps = 0) && bool_decide (length (res_output_producers result) = 0)
      && bool_decide (length (res_export_sources result) = 0)
  | Some continuation =>
      (1 <? res_attempt_number result)%N && validate_continuation_record continuation
      && bool_decide (cw_preparation (cn_workspace continuation) = PreparationReady)
      && request_valid result continuation
      && bool_decide (bt_keys (res_export_sources result) = bt_keys (res_exports result))
      && bool_decide (st_id <$> List.filter (λ step, negb (state_is StateInherited step)) (res_steps result)
                      = cn_reexecuted_steps continuation)
      && bool_decide (length inherited_steps = length (cn_inherited_steps continuation))
      && forallb (λ '(step, inherited), inherited_step_valid result step inherited)
           (zip inherited_steps (cn_inherited_steps continuation))
      && forallb (λ '(node, outputs), producers_valid inherited_steps node outputs) (res_output_producers result)
  end.

(** ** Exports *)

Definition result_export_source_step (result : WorkflowResultV1) (source : ExportSourceV1) : option WorkflowStepV1 :=
  steps ← match wn_role (es_node source) with
          | NodeStepV1 => Some (res_steps result)
          | NodeFinalizerV1 => fz_finalizers <$> res_finalization result
          end;
  List.find (λ step, bool_decide (st_id step = wn_id (es_node source))) steps.

Definition continuation_export_source_step (result : WorkflowResultV1) (source : option ExportSourceV1)
    : option (ExportSourceV1 * WorkflowStepV1) :=
  source ← source; step ← result_export_source_step result source; Some (source, step).

Definition valid_output_producer (producer : OutputProducer) : bool :=
  (0 <? op_attempt_number producer)%N && is_canonical_uuid (op_attempt_id producer)
  && is_identifier (op_node producer) && is_identifier (op_output producer).

Definition source_producer (output_producers : btree (btree OutputProducer)) (source : ExportSourceV1)
    : option OutputProducer :=
  outputs ← bt_get output_producers (wn_id (es_node source)); bt_get outputs (es_output source).

Definition export_origin_matches (output_producers : btree (btree OutputProducer)) (source : ExportSourceV1)
    (source_state : WorkflowStepStateV1) (provenance : option ExportProvenanceV1) (producer : option OutputProducer) : bool :=
  is_identifier (wn_id (es_node source)) && is_identifier (es_output source)
  && let expected_producer := source_producer output_producers source in
     match source_state with
     | StateInherited =>
         bool_decide (provenance = Some ProvenanceInherited) && negb (absent producer)
         && bool_decide (producer = expected_producer)
         && match producer with Some producer => valid_output_producer producer | None => false end
     | StateSucceeded => absent provenance && absent producer && absent expected_producer
     | StateFailed | StateBlocked | StateSkipped | StateNotRun | StateCancelled => false
     end.

Definition valid_export_origin (result : WorkflowResultV1) (source : option ExportSourceV1)
    (provenance : option ExportProvenanceV1) (producer : option OutputProducer) : bool :=
  match res_continuation result with
  | None => absent source && absent provenance && absent producer
  | Some _ =>
      match continuation_export_source_step result source with
      | Some (source, step) =>
          export_origin_matches (res_output_producers result) source (st_state step) provenance producer
      | None => false
      end
  end.

Definition inherited_prior_state (step : WorkflowStepV1) : option InheritedPriorState :=
  match st_detail step with Some (DetailInherited detail) => Some (id_prior_state detail) | _ => None end.

(** An inherited source had been skipped. *)
Definition inherited_source_skipped (output_producers : btree (btree OutputProducer)) (source : ExportSourceV1)
    (source_state : WorkflowStepStateV1) (prior_state : option InheritedPriorState) : bool :=
  bool_decide (source_state = StateInherited)
  && match prior_state with
     | Some PriorSkipped => true
     | Some PriorInherited => negb (bt_contains_key output_producers (wn_id (es_node source)))
     | Some PriorSucceeded | None => false
     end.

Definition unavailable_export_source_matches (output_producers : btree (btree OutputProducer)) (source : ExportSourceV1)
    (source_state : WorkflowStepStateV1) (prior_state : option InheritedPriorState) (reason : ExportUnavailableReasonV1)
    : bool :=
  is_identifier (wn_id (es_node source)) && is_identifier (es_output source)
  && absent (source_producer output_producers source)
  && ((inherited_source_skipped output_producers source source_state prior_state
       && bool_decide (reason = UnavailableSkipped))
      || match source_state, wn_role (es_node source), reason with
         | StateSkipped, _, UnavailableSkipped
         | StateFailed, _, UnavailableFailed
         | StateBlocked, NodeStepV1, UnavailableBlocked
         | StateBlocked, NodeFinalizerV1, UnavailableInputUnavailable
         | StateNotRun, NodeStepV1, UnavailableNotRun
         | StateNotRun, NodeFinalizerV1, UnavailableTriggerNotSelected
         | StateCancelled, _, UnavailableCancelled => true
         | _, _, _ => false
         end).

Definition valid_unavailable_export_source (result : WorkflowResultV1) (source : option ExportSourceV1)
    (reason : ExportUnavailableReasonV1) : bool :=
  match res_continuation result with
  | None => absent source
  | Some _ =>
      match continuation_export_source_step result source with
      | Some (source, step) =>
          unavailable_export_source_matches (res_output_producers result) source (st_state step)
            (inherited_prior_state step) reason
      | None => false
      end
  end.

Definition valid_export_kind (kind media_type : string) : bool :=
  if decide (kind = "file"%string) then (length (chars media_type) <=? 128)%nat && is_valid_media_type media_type
  else if decide (kind = "text"%string) then bool_decide (media_type = "text/plain; charset=utf-8"%string)
  else if decide (kind = "json"%string) then bool_decide (media_type = "application/json"%string)
  else false.

(** A number in at least four digits. *)
Definition pad_four (n : N) : string :=
  let digits := digit_char <$> decimal_digits n in
  of_bytes (replicate (4 - length digits) "0"%char ++ digits).

Definition byte_digit (byte : ascii) : N := (byte_code byte - 48)%N.

Definition parse_carrier_ordinal (path : string) : option N :=
  ordinal ← strip_prefix_str "exports/" path;
  if (4 <=? str_len ordinal)%N && forallb is_ascii_digit (bytes ordinal) then
    let value := digits_value (byte_digit <$> bytes ordinal) in
    if (value <=? u64_max)%N && negb (value =? 0)%N && bool_decide (pad_four value = ordinal) then Some value else None
  else None.

(** Whether an export is valid by itself, and the path of its carrier. *)
Definition export_carrier (result : WorkflowResultV1) (name : string) (export : ExportV1) : option (option string) :=
  let source := bt_get (res_export_sources result) name in
  if negb (is_identifier name) then None
  else match export with
       | ExportAvailableV1 kind media_type path _ digest provenance producer =>
           if valid_export_origin result source provenance producer && valid_export_kind kind media_type
              && valid_digest digest && negb (absent (parse_carrier_ordinal path))
           then Some (Some path) else None
       | ExportGitBranchV1 artifact_version object_format base_oid head_oid tree_oid carrier provenance producer =>
           if valid_export_origin result source provenance producer && (artifact_version =? 1)%N
              && bool_decide (object_format = "sha1"%string)
              && is_lowercase_hex base_oid 40 && is_lowercase_hex head_oid 40 && is_lowercase_hex tree_oid 40
              && Bool.eqb (negb (bool_decide (base_oid = head_oid))) (negb (absent carrier))
           then match carrier with
                | Some carrier =>
                    if bool_decide (gc_media_type carrier = "application/vnd.git.bundle"%string)
                       && valid_digest (gc_digest carrier) && negb (absent (parse_carrier_ordinal (gc_path carrier)))
                    then Some (Some (gc_path carrier)) else None
                | None => Some None
                end
           else None
       | ExportUnavailableV1 reason =>
           if valid_unavailable_export_source result source reason then Some None else None
       end.

(** The exports that share a carrier, by its path; the ordinal of an export
    is its place. *)
Fixpoint carrier_groups (result : WorkflowResultV1) (index : N) (exports : btree ExportV1)
    (groups : btree (list (N * ExportV1))) : option (btree (list (N * ExportV1))) :=
  match exports with
  | [] => Some groups
  | (name, export) :: exports =>
      carrier ← export_carrier result name export;
      carrier_groups result (index + 1) exports
        match carrier with
        | Some path => bt_insert groups path (default [] (bt_get groups path) ++ [((index + 1)%N, export)])
        | None => groups
        end
  end.

(** A carrier is named by the first export it is for, and they agree on it. *)
Definition carrier_group_valid (path : string) (members : list (N * ExportV1)) : bool :=
  match members with
  | [] => false
  | (first, metadata) :: members' =>
      bool_decide (parse_carrier_ordinal path = Some (foldl N.min first (fst <$> members')))
      && forallb (λ member, bool_decide (snd member = metadata)) members
  end.

Definition validate_exports (result : WorkflowResultV1) : bool :=
  match carrier_groups result 0 (res_exports result) [] with
  | None => false
  | Some groups =>
      (length groups <=? MAXIMUM_CARRIERS)%nat && forallb (λ '(path, members), carrier_group_valid path members) groups
  end.

(** ** The result *)

(** [valid_cloud_capacity], of the published capacity. *)
Definition valid_cloud_capacity_v1 (capacity : CloudExecutionCapacityV1) (workflow_digest : DigestV1) : bool :=
  bool_decide (cc_execution_contract capacity = "workflow_v1_cloud_inputs_artifacts@1"%string)
  && bool_decide (cc_source_closure_digest capacity = workflow_digest)
  && valid_cloud_capacity
       {| cap_general_maximum_transitions := cc_general_maximum_transitions capacity;
          cap_cloud_maximum_transitions := cc_selected_maximum_transitions capacity;
          cap_maximum_invocations := cc_maximum_invocations capacity;
          cap_maximum_retained_bytes_per_invocation := cc_maximum_retained_bytes_per_invocation capacity;
          cap_diagnostic_retention_bytes := cc_diagnostic_retention_bytes capacity;
          cap_native_session_retention_bytes := cc_native_session_retention_bytes capacity;
          cap_aggregate_retention_bytes := cc_aggregate_retention_bytes capacity;
          cap_condition_transition_count := cc_condition_transition_count capacity;
          cap_aggregate_condition_transition_bytes := cc_aggregate_condition_transition_bytes capacity;
          cap_terminal_result_structure_bytes := cc_terminal_result_structure_bytes capacity;
          cap_portable_result_bytes := cc_portable_result_bytes capacity;
          cap_encoded_outbox_bytes := cc_encoded_outbox_bytes capacity |}
       (cc_selected_maximum_transitions capacity).

Definition snapshot_display_valid (snapshot : CloudSourceDisplaySnapshotV1) : bool :=
  valid_organization_display_name (cs1_organization_display_name snapshot)
  && valid_project_name (cs1_project_name snapshot)
  && bool_decide (cr1_provider_kind (cs1_repository snapshot) = "github"%string)
  && valid_github_repository_name (cr1_full_name (cs1_repository snapshot)).

Definition provenance_valid (provenance : WorkflowProvenanceV1) : bool :=
  match provenance with
  | ProvenanceLocal source_root => is_canonical_absolute_path source_root
  | ProvenanceCloud project_id repository_connection_id object_format commit_oid snapshot =>
      valid_typed_id project_id "prj_" && valid_typed_id repository_connection_id "rpc_"
      && bool_decide (object_format = "sha1"%string) && is_lowercase_hex commit_oid 40
      && match snapshot with Some snapshot => snapshot_display_valid snapshot | None => true end
  end.

Definition execution_origin_valid (result : WorkflowResultV1) : bool :=
  match wi_provenance (res_workflow result) with
  | ProvenanceLocal _ =>
      match we_execution_root (res_execution result) with Some root => is_canonical_absolute_path root | None => false end
      && absent (we_capacity (res_execution result))
  | ProvenanceCloud _ _ _ _ _ =>
      absent (we_execution_root (res_execution result))
      && match we_capacity (res_execution result) with
         | Some capacity => valid_cloud_capacity_v1 capacity (wi_digest (res_workflow result))
         | None => false
         end
  end.

Definition execution_valid (result : WorkflowResultV1) : bool :=
  let execution := res_execution result in
  execution_origin_valid result
  && (1 <=? we_maximum_parallel_steps execution)%nat && (we_maximum_parallel_steps execution <=? MAXIMUM_PARALLEL_STEPS)%nat
  && canonical_timestamp (we_started_at execution) && canonical_timestamp (we_finished_at execution).

Definition finalizers_of (result : WorkflowResultV1) : list WorkflowStepV1 :=
  match res_finalization result with Some finalization => fz_finalizers finalization | None => [] end.

Definition structure_valid (result : WorkflowResultV1) : bool :=
  let maximum_stream_bytes := cop_maximum_retained_bytes_per_stream (res_command_output_policy result) in
  bool_decide (cop_encoding (res_command_output_policy result) = BASE64_ENCODING)
  && negb (maximum_stream_bytes =? 0)%N && (maximum_stream_bytes <=? MAXIMUM_RETAINED_BYTES_PER_STREAM)%N
  && match we_capacity (res_execution result) with
     | Some capacity => (maximum_stream_bytes <=? cc_maximum_retained_bytes_per_invocation capacity)%N
     | None => true
     end
  && negb (bool_decide (length (res_steps result) = 0))
  && match res_finalization result with
     | Some finalization => negb (bool_decide (length (fz_finalizers finalization) = 0))
     | None => true
     end
  && (N.of_nat (length (res_steps result) + length (finalizers_of result)) <=? MAXIMUM_STEPS)%N
  && (N.of_nat (length (res_exports result)) <=? MAXIMUM_EXPORTS)%N.

Definition require (valid : bool) (invariant : RunResultInvariant) : result unit RunResultInvariant :=
  if valid then Ok tt else Err invariant.

(** [validate_with_invariant]. *)
Definition validate_with_invariant (published : WorkflowResultV1) : result unit RunResultInvariant :=
  let maximum_stream_bytes := cop_maximum_retained_bytes_per_stream (res_command_output_policy published) in
  let? _ := require (res_schema_version published =? 1)%N InvResultStructure in
  let? _ := require (negb (res_attempt_number published =? 0)%N) InvAttemptMetadata in
  let? _ := require (provenance_valid (wi_provenance (res_workflow published))
                     && is_canonical_relative_path (wi_path (res_workflow published))
                     && valid_digest (wi_digest (res_workflow published))) InvWorkflowMetadata in
  let? _ := require (execution_valid published) InvExecutionMetadata in
  let? _ := require (structure_valid published) InvResultStructure in
  let? ids := ok_or (validate_steps (res_steps published) NodeStepV1 maximum_stream_bytes []) InvStepMetadata in
  let? _ :=
    match res_finalization published with
    | Some finalization =>
        let? _ := ok_or (validate_steps (fz_finalizers finalization) NodeFinalizerV1 maximum_stream_bytes ids)
                    InvFinalizationMetadata in
        require (validate_finalization finalization (res_force_abort published)) InvFinalizationMetadata
    | None => Ok tt
    end in
  let? _ := require (validate_continuation published) InvContinuation in
  let? _ := require (validate_force_abort published) InvOutcomeMetadata in
  let? _ := require (validate_outcome published) InvOutcomeMetadata in
  require (validate_exports published) InvExportMetadata.

(** [validate]. *)
Definition validate_result (published : WorkflowResultV1) : bool :=
  match validate_with_invariant published with Ok _ => true | Err _ => false end.
End checks.
