(* ===== verification/DocumentChecks.v ===== *)
(** * What the shared checks accept

    The canonical paths of a document are exactly the paths made of proper
    segments, and the comparison of two snapshots of a workspace is the one
    the check of a continuation expects. *)

From S2P Require Import Prelude Text Nodes Runtime RunTiming Results SchemaCommon ResultMetadata.

(** ** The libraries of the results, instantiated

    Concrete functions for the parameters of the models of results: times
    are numbers of seconds, written in decimal and followed by [Z]; data is
    its own encoding; every media type is accepted.  They satisfy the laws
    the code relies on. *)

#[export] Instance sample_time : TimeLibrary := {|
  OffsetDateTime := N;
  format_utc n := Some (to_string n ++ "Z");
  parse_rfc3339 s :=
    let digits := removelast (bytes s) in
    if forallb is_ascii_digit digits then Some (digits_value (byte_digit <$> digits)) else None
|}.

#[export] Instance sample_base64 : Base64 := {| base64_encode := of_bytes; base64_decode s := Some (bytes s) |}.

#[export] Instance sample_media_types : MediaTypes := λ _, true.

Lemma byte_digit_char d : (d < 10)%N → byte_digit (digit_char d) = d.
Proof.
  intros Hd. assert (d ∈ [0; 1; 2; 3; 4; 5; 6; 7; 8; 9]%N) as Hin.
  { destruct d as [|p]; [set_solver|]. do 4 (try destruct p as [p|p|]); set_solver by lia. }
  repeat (apply elem_of_cons in Hin as [->|Hin]; [done|]). by apply elem_of_nil in Hin.
Qed.

Lemma digits_parse n : digits_value (byte_digit <$> bytes (to_string n)) = n.
Proof.
  unfold to_string. rewrite bytes_of_bytes, <-list_fmap_compose.
  rewrite (list_fmap_ext (byte_digit ∘ digit_char) id (decimal_digits n)).
  - by rewrite list_fmap_id, decimal_digits_value.
  - intros i d Hd. simpl. apply byte_digit_char. eapply (Forall_lookup_1 _ _ _ _ (decimal_digits_range n)), Hd.
Qed.

Lemma sample_time_laws : TimeLaws.
Proof.
  assert (Hb : ∀ n, bytes (to_string n ++ "Z") = (bytes (to_string n) ++ ["Z"%char])%list) by (intros; by rewrite bytes_app).
  split; simpl; intros t s [= <-].
  - by rewrite Hb, last_snoc.
  - exists t. split; [|done]. rewrite Hb, removelast_last, digits_parse.
    rewrite (proj2 (forallb_forall _ _)); [done|]. intros c Hc%list_elem_of_In. by eapply to_string_digits.
Qed.

Lemma sample_base64_law : base64_law.
Proof. intros data. simpl. by rewrite bytes_of_bytes. Qed.

Local Open Scope list_scope.

(** ** Canonical paths *)

(** A segment that stands for itself. *)
Definition proper_segment (segment : string) : Prop := segment ≠ "" ∧ segment ≠ "." ∧ segment ≠ "..".

#[export] Instance proper_segment_dec segment : Decision (proper_segment segment).
Proof. unfold proper_segment. apply _. Defined.

Lemma split_segments sep s segment : segment ∈ str_split sep s → sep ∉ bytes segment.
Proof.
  revert segment. induction s as [|c s IH]; intros segment; simpl.
  - intros ->%list_elem_of_singleton. simpl. by apply not_elem_of_nil.
  - case_decide as Hc.
    + intros [->|Hin]%elem_of_cons; [by apply not_elem_of_nil|by apply IH].
    + destruct (str_split sep s) as [|first rest] eqn:Hs.
      * by destruct (str_split_not_nil sep s).
      * intros [->|Hin]%elem_of_cons; [|apply IH; by right]. simpl. apply not_elem_of_cons. split; [done|].
        apply IH. by left.
Qed.

Lemma path_push_normal path name :
  path ≠ "" → last (bytes path) ≠ Some "/"%char → path_push path (NormalComponent name) = (path ++ "/" ++ name)%string.
Proof. intros Hne Hlast. unfold path_push. rewrite decide_False by naive_solver. done. Qed.

Definition segment_names (names : list string) : Prop := Forall (λ name, name ≠ "" ∧ "/"%char ∉ bytes name) names.

Lemma ends_without_slash prefix name :
  name ≠ "" → "/"%char ∉ bytes name → (prefix ++ name)%string ≠ "" ∧ last (bytes (prefix ++ name)%string) ≠ Some "/"%char.
Proof.
  intros Hne Hs. assert (bytes name ≠ []) as Hb by (by destruct name).
  split; [by destruct prefix, name|]. rewrite bytes_app, last_app. destruct (last (bytes name)) as [c|] eqn:Hlast.
  - intros [= ->]. by apply last_Some_elem_of in Hlast.
  - by apply last_None in Hlast.
Qed.

Lemma string_app_assoc (s t u : string) : ((s ++ t) ++ u = s ++ (t ++ u))%string.
Proof. apply bytes_inj. by rewrite !bytes_app, app_assoc. Qed.

Lemma collect_after path names :
  path ≠ "" → last (bytes path) ≠ Some "/"%char → segment_names names →
  foldl path_push path (NormalComponent <$> names)
  = match names with [] => path | _ => (path ++ "/" ++ str_join "/" names)%string end.
Proof.
  revert path. induction names as [|name names IH]; intros path Hne Hlast Hnames; [done|].
  apply Forall_cons in Hnames as [[Hn Hs] Hnames]. cbn [fmap list_fmap foldl].
  rewrite path_push_normal by done. destruct (ends_without_slash (path ++ "/") name Hn Hs) as [Hne' Hlast'].
  rewrite string_app_assoc in Hne', Hlast'. rewrite IH by done.
  destruct names as [|next names]; [done|]. rewrite !string_app_assoc. done.
Qed.

Lemma collect_normals start names :
  start = "" ∨ start = "/" → segment_names names →
  foldl path_push start (NormalComponent <$> names) = (start ++ str_join "/" names)%string.
Proof.
  intros Hstart Hnames. destruct names as [|name names].
  - destruct Hstart as [->| ->]; done.
  - apply Forall_cons in Hnames as [[Hn Hs] Hnames]. cbn [fmap list_fmap foldl].
    replace (path_push start (NormalComponent name)) with (start ++ name)%string.
    2: { unfold path_push. rewrite decide_True; [done|]. destruct Hstart as [->| ->]; [by left|by right]. }
    destruct (ends_without_slash start name Hn Hs) as [Hne Hlast]. rewrite collect_after by done.
    destruct names; [done|]. by rewrite string_app_assoc.
Qed.

Lemma omap_proper segments :
  Forall proper_segment segments → omap segment_component segments = NormalComponent <$> segments.
Proof.
  induction 1 as [|segment segments [H1 [H2 H3]] _ IH]; [done|]. cbn [omap list_omap fmap list_fmap]. unfold segment_component at 1.
  rewrite decide_False by naive_solver. rewrite decide_False by done. by f_equal.
Qed.

(** The names among the components of segments without [..]. *)
Lemma omap_names segments :
  Forall (λ component, component ≠ ParentDir) (omap segment_component segments) →
  ∃ names, omap segment_component segments = NormalComponent <$> names ∧ Forall proper_segment names
    ∧ ∀ name, name ∈ names → name ∈ segments.
Proof.
  induction segments as [|segment segments IH]; [by exists []|]. cbn [omap list_omap].
  assert (Hseg : segment_component segment = None ∨ segment_component segment = Some ParentDir
    ∨ segment_component segment = Some (NormalComponent segment) ∧ proper_segment segment).
  { unfold segment_component, proper_segment. repeat case_decide; naive_solver. }
  destruct Hseg as [->|[->|[-> Hproper]]].
  - intros Hall. destruct (IH Hall) as (names & ? & ? & ?). exists names. split_and!; [done..|]. intros; right; auto.
  - by intros [[] _]%Forall_cons.
  - intros [_ Hall]%Forall_cons. destruct (IH Hall) as (names & Hn & Hp & Hin). exists (segment :: names).
    split_and!; [by simpl; rewrite Hn|by constructor|intros name [->|?]%elem_of_cons; [left|right; auto]].
Qed.

Lemma proper_names sep s names :
  sep = "/"%char → Forall proper_segment names → (∀ name, name ∈ names → name ∈ str_split sep s) → segment_names names.
Proof.
  intros -> Hp Hin. apply Forall_forall. intros name Hname. rewrite Forall_forall in Hp.
  split; [by apply Hp|]. by eapply split_segments, Hin.
Qed.

Lemma split_first c s : head (bytes s) = Some c → ∃ rest, str_split c s = "" :: str_split c rest ∧ s = String c rest.
Proof. destruct s as [|c' s]; simpl; [done|]. intros [= ->]. exists s. by rewrite decide_True. Qed.

Lemma relative_components value :
  Forall proper_segment (str_split "/" value) →
  value ≠ "" ∧ path_is_absolute value = false ∧ components value = NormalComponent <$> str_split "/" value.
Proof.
  intros Hall. assert (Hne : value ≠ "") by (intros ->; by apply Forall_cons in Hall as [[] _]).
  assert (Habs : path_is_absolute value = false).
  { apply bool_decide_eq_false. intros (rest & Hs & _)%split_first. rewrite Hs in Hall. by apply Forall_cons in Hall as [[] _]. }
  split_and!; [done..|]. unfold components. rewrite Habs, omap_proper by done.
  destruct (str_split "/" value) as [|segment segments]; [done|]. apply Forall_cons in Hall as [(_ & Hdot & _) _].
  by rewrite decide_False.
Qed.

Lemma absolute_components rest :
  components (String "/" rest) = RootDir :: omap segment_component (str_split "/" rest).
Proof. unfold components. cbn [str_split]. by rewrite decide_True. Qed.

Lemma relative_canonical value :
  is_canonical_relative_path value = true ↔ Forall proper_segment (str_split "/" value).
Proof.
  unfold is_canonical_relative_path. split.
  - rewrite !andb_true_iff, bool_decide_eq_true, forallb_forall. intros [[[Hne Habs] Hnormal] Hcollect].
    destruct (omap_names (str_split "/" value)) as (names & Hnames & Hp & Hin).
    { apply Forall_forall. intros component Hc ->. specialize (Hnormal ParentDir). discriminate Hnormal.
      apply list_elem_of_In. unfold components. apply elem_of_app. by right. }
    assert (Hcomp : components value = NormalComponent <$> names).
    { unfold components in *. rewrite Hnames in *. destruct (path_is_absolute value); [done|].
      destruct (str_split "/" value) as [|segment segments]; [done|]. case_decide; [|done].
      specialize (Hnormal CurDir). discriminate Hnormal. by left. }
    rewrite Hcomp in Hcollect. unfold collect_path in Hcollect.
    pose proof (proper_names _ _ _ eq_refl Hp Hin) as Hseg. rewrite collect_normals, append_empty_l in Hcollect by auto.
    rewrite <-Hcollect, str_split_join; [done| |].
    + intros ->. simpl in Hcollect. subst. done.
    + eapply Forall_impl; [exact Hseg|]. by intros name [].
  - intros Hall. destruct (relative_components value Hall) as (Hne & Habs & Hcomp).
    rewrite Hcomp, Habs, !andb_true_iff, bool_decide_eq_true, forallb_forall. split_and!; [|done| |].
    + by apply negb_true_iff, bool_decide_eq_false.
    + intros component (name & -> & _)%list_elem_of_In%list_elem_of_fmap. done.
    + unfold collect_path. rewrite collect_normals; [by rewrite append_empty_l, str_join_split|by left|].
      by eapply proper_names.
Qed.

Lemma absolute_canonical rest :
  is_canonical_absolute_path (String "/" rest) = true ↔ rest = "" ∨ Forall proper_segment (str_split "/" rest).
Proof.
  unfold is_canonical_absolute_path, collect_path. rewrite absolute_components. cbn [existsb foldl path_push].
  rewrite !andb_true_iff, bool_decide_eq_true. split.
  - intros [[_ Hno] Hcollect]. destruct (omap_names (str_split "/" rest)) as (names & Hnames & Hp & Hin).
    { apply Forall_forall. intros component Hc ->. apply negb_true_iff in Hno. apply not_true_iff_false in Hno.
      apply Hno. simpl. apply existsb_exists. exists ParentDir. split; [by apply list_elem_of_In|done]. }
    rewrite Hnames in Hcollect. pose proof (proper_names _ _ _ eq_refl Hp Hin) as Hseg.
    rewrite collect_normals in Hcollect by auto. assert (Hrest : str_join "/" names = rest) by by injection Hcollect.
    clear Hcollect. destruct names as [|name names]; [by left|right].
    rewrite <-Hrest, str_split_join; [done|done|]. eapply Forall_impl; [exact Hseg|]. by intros ? [].
  - intros [->|Hall]; [done|]. rewrite omap_proper by done. split_and!; [done| |].
    + apply negb_true_iff, not_true_iff_false. intros ([] & Hc & Hbad)%existsb_exists; try done;
        by apply list_elem_of_In, list_elem_of_fmap in Hc as (? & ? & _).
    + rewrite collect_normals; [by rewrite str_join_split|by right|]. by eapply proper_names.
Qed.

(** Canonical paths are the paths made of proper segments.  A relative path
    is canonical exactly when none of the segments between its slashes is
    empty, [.] or [..], and an absolute path exactly when it is the root or
    the root followed by a canonical relative path: the test on the components
    of a path and on the path they collect to says no more and no less. *)
Lemma canonical_paths_characterised value :
  (is_canonical_relative_path value = true ↔ Forall proper_segment (str_split "/" value))
  ∧ (is_canonical_absolute_path value = true ↔
       ∃ rest, value = String "/" rest ∧ (rest = "" ∨ is_canonical_relative_path rest = true)).
Proof.
  split; [apply relative_canonical|]. split.
  - intros Hcanonical. assert (Habs : path_is_absolute value = true).
    { unfold is_canonical_absolute_path in Hcanonical. rewrite !andb_true_iff in Hcanonical. by destruct Hcanonical as [[? _] _]. }
    apply bool_decide_eq_true, split_first in Habs as (rest & _ & ->). exists rest. split; [done|].
    rewrite relative_canonical. by apply absolute_canonical.
  - intros (rest & -> & Hrest). rewrite relative_canonical in Hrest. by apply absolute_canonical.
Qed.

(** ** Snapshots of a workspace *)

Section snapshots.
Context `{!TimeLibrary}.

Lemma validate_fields (snapshot : WorkspaceSnapshotV1) settlement :
  snapshot_validate snapshot settlement = true →
  (absent (ws_unavailable snapshot) = negb (absent (ws_value snapshot)))
  ∧ ws_algorithm snapshot = WORKSPACE_SNAPSHOT_ALGORITHM.
Proof.
  unfold snapshot_validate. rewrite !andb_true_iff, bool_decide_eq_true. intros [[-> Hv] _]. split; [|done].
  by destruct (ws_value snapshot), (ws_taken_at snapshot), (ws_unavailable snapshot); rewrite ?andb_false_r in Hv.
Qed.

(** The comparison of snapshots is the one a reader expects.  For a
    workspace that is ready and whose snapshots are valid ones, the record of
    a continuation is accepted exactly when it says what
    [compare_continuation_snapshots] computes: a known answer from two
    available snapshots of the same root, the earlier one taken by the engine,
    and [unknown] otherwise. *)
Lemma snapshot_comparison (workspace : ContinuationWorkspaceV1) (start : WorkspaceSnapshotV1) :
  cw_preparation workspace = PreparationReady → cw_start_snapshot workspace = Some start →
  snapshot_validate start false = true →
  (∀ prior, cw_prior_settlement_snapshot workspace = Some prior → snapshot_validate prior true = true) →
  workspace_modified_valid workspace = true ↔
  cw_modified workspace
  = compare_continuation_snapshots (cw_execution_root workspace) (cw_prior_execution_root workspace) start
      (cw_prior_settlement_snapshot workspace).
Proof.
  intros Hready Hstart Hvalid Hprior. unfold workspace_modified_valid, workspace_comparable, compare_continuation_snapshots.
  rewrite Hready, Hstart. destruct (validate_fields _ _ Hvalid) as [-> ->].
  destruct (cw_prior_settlement_snapshot workspace) as [prior|]; simpl.
  - destruct (validate_fields prior true (Hprior _ eq_refl)) as [-> ->]. rewrite Hvalid, (Hprior _ eq_refl).
    set (same := bool_decide (cw_execution_root workspace = _)). set (engine := bool_decide (ws_settled_by prior = _)).
    clearbody same engine.
    destruct (ws_value start) as [now|], (ws_value prior) as [before|]; simpl; rewrite ?andb_false_r; simpl;
      try (destruct (cw_modified workspace); simpl; split; congruence).
    replace (bool_decide (Some before = Some now)) with (bool_decide (now = before))
      by (apply bool_decide_ext; naive_solver).
    destruct same, engine, (cw_modified workspace) as [[]|], (bool_decide (now = before)); simpl; split; congruence.
  - destruct (cw_modified workspace); simpl; rewrite andb_false_r; split; simpl; congruence.
Qed.
End snapshots.
