(* ===== verification/RunResults.v ===== *)
(** * From a finished run to its result

    How the command line turns the final state of a run into the result it
    publishes ([execution.rs] after the coordinator returns, [build_run_result]
    and [project_recovery_invocations] of [src/cli/workflow/run.rs], and
    [StepDiagnosticLog] of [diagnostic.rs]), with the cancellation a cloud
    runner reports ([observed_workflow_cancellation] of
    [runner/src/service/execution.rs]).

    Every error of [build_run_result] is the same message, so its result is an
    option.  What the local run keeps on disk and what the run was admitted
    with are arguments. *)

From S2P Require Import Prelude Text Nodes Evidence Validated Failures Runtime RunTiming Results Publication.

Local Open Scope list_scope.

(** ** The result of an execution *)

Section execution.
Context {Cause Output Deadline : Type}.

Record WorkflowExecutionResult := {
  er_outcome : RunOutcome;
  er_steps : gmap string (StepState Output);
  er_recoveries : gmap string (option (StepRecoveryState Cause));
  er_output_producers : gmap (string * string) OutputProducer;
  er_finalization_summary : option (FinalizationSummary Deadline);
  er_force_abort : option ForceAbortEvidence;
  er_exports : ExportSet Output
}.

(** The outcome a final state stands for. *)
Definition final_outcome (w : WorkflowState Deadline) : option RunOutcome :=
  match w with
  | WSucceeded => Some RunSucceeded
  | WFailed primary_issue later_cancellation => Some (RunFailed primary_issue later_cancellation)
  | WCancelled reason => Some (RunCancelled reason)
  | WExecuting _ | WFinalizing _ _ _ => None
  end.

(** [execute_workflow_with_commits], after the coordinator: [None] is
    [ReducerStateUnavailable]. *)
Definition execution_result (state : RuntimeState Cause Output Deadline) : option WorkflowExecutionResult :=
  outcome ← final_outcome (rs_workflow state);
  exports ← rs_exports state;
  Some {| er_outcome := outcome; er_steps := ss_state <$> rs_steps state;
          er_recoveries := ss_recovery <$> rs_steps state; er_output_producers := rs_output_producers state;
          er_finalization_summary := rs_finalization_summary state; er_force_abort := rs_force_abort state;
          er_exports := exports |}.
End execution.
Arguments WorkflowExecutionResult : clear implicits.

(** ** Diagnostics *)

(** [StepDiagnosticLog]: its entries in the order of the map. *)
Record StepDiagnosticLog := {
  dl_entries : list ((string * ActionId) * StepDiagnostic);
  dl_recovery_handlers : list (string * ActionId)
}.

Definition diagnostic_get (log : StepDiagnosticLog) (step : string) : option StepDiagnostic :=
  find_map (λ '((entry_step, invocation), diagnostic),
    if bool_decide (entry_step = step) && negb (bool_decide ((entry_step, invocation) ∈ dl_recovery_handlers log))
    then Some diagnostic else None) (reverse (dl_entries log)).

Definition get_invocation (log : StepDiagnosticLog) (step : string) (invocation : ActionId) : option StepDiagnostic :=
  find_map (λ '(key, diagnostic), if bool_decide (key = (step, invocation)) then Some diagnostic else None) (dl_entries log).

(** ** Invocations kept on disk *)

Inductive DurableInvocationStateV1 := DurableActive | DurableSettled | DurableCancelled.

Record DurableInvocationDiagnosticV1 := {
  did_kind : RecoveryDiagnosticKindV1;
  did_reference : string;
  did_retained_bytes : N;
  did_discarded_bytes : N;
  did_truncated : bool;
  did_fully_drained : bool
}.

Inductive AttemptNodeRoleV1 := AttemptStep | AttemptFinalizer.

Record DurableInvocationV1 := {
  di_invocation_id : N;
  di_step_id : string;
  di_node_role : AttemptNodeRoleV1;
  di_role : RecoveryInvocationRoleV1;
  di_target_execution : option N;
  di_recovery_round : option N;
  di_state : DurableInvocationStateV1;
  di_started_at : string;
  di_finished_at : option string;
  di_usage : RecoveryInvocationUsageV1;
  di_diagnostics : list DurableInvocationDiagnosticV1;
  di_diagnostic_reference : option string
}.

(** The difference of two times of the [time] crate, in whole milliseconds. *)
Class TimeDifference `{TimeLibrary} := whole_milliseconds : OffsetDateTime → OffsetDateTime → Z.

(** [sort_by_key] by the number of an invocation: stable. *)
Fixpoint insert_invocation (invocation : RecoveryInvocationV1) (sorted : list RecoveryInvocationV1)
    : list RecoveryInvocationV1 :=
  match sorted with
  | [] => [invocation]
  | first :: rest =>
      if (ri_invocation_id invocation <=? ri_invocation_id first)%N then invocation :: sorted
      else first :: insert_invocation invocation rest
  end.

Definition sort_invocations (invocations : list RecoveryInvocationV1) : list RecoveryInvocationV1 :=
  foldr insert_invocation [] invocations.

Section run_results.
Context `{!TimeLibrary, !Base64, !TimeDifference} {Output Deadline : Type} (deadline_utc : Deadline → OffsetDateTime).

Local Abbreviation ExecutionResult := (WorkflowExecutionResult StepFailureCause Output Deadline).

(** The stream a diagnostic names, when what was kept of both agrees. *)
Definition project_diagnostic (output : CommandOutputV1) (diagnostic : DurableInvocationDiagnosticV1)
    : option RecoveryInvocationDiagnosticV1 :=
  let stream := match did_kind diagnostic with
                | DiagCommandStdout | DiagAgentHarnessStdout => co_stdout output
                | DiagCommandStderr | DiagAgentHarnessStderr => co_stderr output
                end in
  if bool_decide (ds_retained_bytes stream = did_retained_bytes diagnostic)
     && bool_decide (ds_discarded_bytes stream = did_discarded_bytes diagnostic)
     && Bool.eqb (ds_truncated stream) (did_truncated diagnostic)
     && Bool.eqb (ds_fully_drained stream) (did_fully_drained diagnostic)
  then Some {| rid_kind := did_kind diagnostic; rid_reference := did_reference diagnostic; rid_stream := stream |}
  else None.

Definition project_diagnostics (output : option CommandOutputV1) (diagnostics : list DurableInvocationDiagnosticV1)
    : option (list RecoveryInvocationDiagnosticV1) :=
  match output, diagnostics with
  | None, [] => Some []
  | Some output, _ :: _ => mapM (project_diagnostic output) diagnostics
  | _, _ => None
  end.

Definition project_invocation (step_id : string) (log : StepDiagnosticLog) (invocation : DurableInvocationV1)
    : option RecoveryInvocationV1 :=
  finished_at ← di_finished_at invocation;
  started ← parse_rfc3339 (di_started_at invocation);
  finished ← parse_rfc3339 finished_at;
  let duration := whole_milliseconds finished started in
  if decide (0 <= duration <= Z.of_N u64_max)%Z then
    command_output ← result_ok (transpose command_output_v1 (get_invocation log step_id (di_invocation_id invocation)));
    diagnostics ← project_diagnostics command_output (di_diagnostics invocation);
    state ← match di_state invocation with
            | DurableSettled => Some InvocationSettled
            | DurableCancelled => Some InvocationCancelled
            | DurableActive => None
            end;
    Some {| ri_invocation_id := di_invocation_id invocation; ri_role := di_role invocation;
            ri_target_execution := di_target_execution invocation; ri_recovery_round := di_recovery_round invocation;
            ri_state := state; ri_started_at := di_started_at invocation; ri_finished_at := finished_at;
            ri_duration_milliseconds := Z.to_N duration; ri_usage := di_usage invocation; ri_diagnostics := diagnostics;
            ri_diagnostic_reference := di_diagnostic_reference invocation |}
  else None.

Definition of_step (step_id : string) (invocation : DurableInvocationV1) : bool := bool_decide (di_step_id invocation = step_id).

Definition project_recovery_invocations (step_id : string) (durable : list DurableInvocationV1) (log : StepDiagnosticLog)
    : option (list RecoveryInvocationV1) :=
  projected ← mapM (project_invocation step_id log) (List.filter (of_step step_id) durable);
  if bool_decide (length projected = 0) then None else Some (sort_invocations projected).

(** ** The result of a local run *)

(** What the run kept for its result. *)
Record LocalRunEvidence := {
  le_diagnostics : StepDiagnosticLog;
  le_durable_invocations : list DurableInvocationV1;
  le_timing : RunTimingSnapshot
}.

(** [InitialLocalRun]: [None] is a continuation record that cannot be read. *)
Record LocalRun := {
  lr_run_directory : string;
  lr_attempt_number : N;
  lr_continuation_record : option (option ContinuationRecordV1)
}.

(** What the workflow was resolved from and admitted with. *)
Record RunAdmission := {
  ra_workflow_path : string;
  ra_source_root : string;
  ra_content_digest : DigestV1;
  ra_execution_root : string;
  ra_maximum_parallel_steps : nat;
  ra_maximum_step_log_bytes : N
}.

(** [observed_run_timing]. *)
Definition observed_run_timing (timing : RunTimingSnapshot) : option WorkflowRunTiming :=
  started ← rts_execution_started timing;
  finished ← rts_terminal timing;
  Some {| wrt_started_at := obs_utc started; wrt_finished_at := obs_utc finished;
          wrt_duration := saturating_duration_since (obs_monotonic finished) (obs_monotonic started) |}.

(** The observed cancellation is the one the outcome has. *)
Definition retained_by_outcome (outcome : RunOutcome) (reason : CancellationReason) : bool :=
  match outcome with
  | RunSucceeded => false
  | RunFailed _ later_cancellation => bool_decide (later_cancellation = Some reason)
  | RunCancelled outcome_reason => bool_decide (outcome_reason = reason)
  end.

Definition run_cancellation (outcome : RunOutcome) (observed : option (CancellationReason * OffsetDateTime))
    : option (option WorkflowRunCancellation) :=
  match observed with
  | None => Some None
  | Some (reason, deadline) =>
      if retained_by_outcome outcome reason
      then Some (Some {| wrc_reason := reason; wrc_force_stop_deadline := deadline |}) else None
  end.

(** The timing of a node: [None] is a node that started and did not finish. *)
Definition node_timing (timing : RunTimingSnapshot) (id : string) : option (option WorkflowStepTiming) :=
  match rts_steps timing !! id with
  | None => Some None
  | Some times =>
      finished ← ost_finished times;
      Some (Some {| wst_started_at := obs_utc (ost_started times);
                    wst_duration := saturating_duration_since finished (obs_monotonic (ost_started times)) |})
  end.

Definition kind_and_policy (step : ValidatedStep) : WorkflowRunStepKind * FailurePolicy :=
  match step with
  | VCommand common _ _ => (StepKindCommand, vc_failure_policy common)
  | VAgent common _ => (StepKindAgent, vc_failure_policy common)
  end.

Definition finalizer_kind_and_policy (definition : ValidatedWorkflow) (id : string)
    : option (WorkflowRunStepKind * FailurePolicy) :=
  finalizer ← bt_get (vw_finalizers definition) id; Some (kind_and_policy (vf_body finalizer)).

Definition finalizer_failure_policy (definition : ValidatedWorkflow) (id : string) : option FailurePolicy :=
  snd <$> finalizer_kind_and_policy definition id.

Definition is_agent_kind (kind : WorkflowRunStepKind) : bool :=
  match kind with StepKindAgent => true | StepKindCommand => false end.

Definition node_command_output (evidence : LocalRunEvidence) (kind : WorkflowRunStepKind) (id : string)
    : option StepDiagnostic :=
  match kind with StepKindCommand => diagnostic_get (le_diagnostics evidence) id | StepKindAgent => None end.

Definition node_invocations (evidence : LocalRunEvidence) (recovered : bool) (kind : WorkflowRunStepKind) (id : string)
    : option (list RecoveryInvocationV1) :=
  if recovered || (is_agent_kind kind && existsb (of_step id) (le_durable_invocations evidence))
  then project_recovery_invocations id (le_durable_invocations evidence) (le_diagnostics evidence)
  else Some [].

(** The states and the recoveries not yet taken. *)
Local Abbreviation Remaining :=
  (gmap string (StepState Output) * gmap string (option (StepRecoveryState StepFailureCause)))%type.

(** A step of the result, from what is left of the final state. *)
Definition run_step_value (definition : ValidatedWorkflow) (evidence : LocalRunEvidence) (remaining : Remaining)
    (id : string) : option (WorkflowRunStep Output) :=
  state ← remaining.1 !! id;
  timing ← node_timing (le_timing evidence) id;
  step ← bt_get (vw_steps definition) id;
  recovery_state ← remaining.2 !! id;
  recovery ← result_ok (step_recovery_summary_v1 recovery_state);
  invocations ← node_invocations evidence (bool_decide (is_Some recovery)) (kind_and_policy step).1 id;
  Some {| wrs_id := id; wrs_role := RoleStep; wrs_kind := (kind_and_policy step).1;
          wrs_failure_policy := (kind_and_policy step).2; wrs_state := state; wrs_timing := timing;
          wrs_command_output := node_command_output evidence (kind_and_policy step).1 id;
          wrs_recovery := recovery; wrs_invocations := invocations |}.

(** [remove] of the node from both maps. *)
Definition take_node (remaining : Remaining) (id : string) : Remaining := (delete id remaining.1, delete id remaining.2).

(** [summary_disposition_matches] of [publication.rs]. *)
Definition summary_disposition_matches (summarized : StepState unit) (state : StepState Output) : bool :=
  match summarized, state with
  | SSucceeded _, SSucceeded _ => true
  | SInherited left_detail left_disposition _, SInherited right_detail right_disposition _ =>
      bool_decide (left_detail = right_detail) && bool_decide (left_disposition = right_disposition)
  | SFailed a, SFailed b => bool_decide (a = b)
  | SBlocked a, SBlocked b => bool_decide (a = b)
  | SSkipped a, SSkipped b => bool_decide (a = b)
  | SNotRun a, SNotRun b => bool_decide (a = b)
  | SCancelled a, SCancelled b => bool_decide (a = b)
  | _, _ => false
  end.

(** A finalizer of the result; a finalizer has no recovery. *)
Definition run_finalizer_value (definition : ValidatedWorkflow) (evidence : LocalRunEvidence) (remaining : Remaining)
    (retained : btree FinalizerResult) (id : string) : option (WorkflowRunStep Output) :=
  state ← remaining.1 !! id;
  summarized ← bt_get retained id;
  policy ← finalizer_failure_policy definition id;
  if bool_decide (fr_failure_policy summarized = policy) && summary_disposition_matches (fr_disposition summarized) state then
    timing ← node_timing (le_timing evidence) id;
    kind_policy ← finalizer_kind_and_policy definition id;
    recovery ← remaining.2 !! id;
    match recovery with
    | Some _ => None
    | None =>
        invocations ← node_invocations evidence false kind_policy.1 id;
        Some {| wrs_id := id; wrs_role := RoleFinalizer; wrs_kind := kind_policy.1; wrs_failure_policy := kind_policy.2;
                wrs_state := state; wrs_timing := timing; wrs_command_output := node_command_output evidence kind_policy.1 id;
                wrs_recovery := None; wrs_invocations := invocations |}
    end
  else None.

Definition take_summary (retained : btree FinalizerResult) (id : string) : btree FinalizerResult :=
  List.filter (λ '(k, _), negb (bool_decide (k = id))) retained.

Fixpoint run_step_results (definition : ValidatedWorkflow) (evidence : LocalRunEvidence) (ids : list string)
    (remaining : Remaining) : option (list (WorkflowRunStep Output) * Remaining) :=
  match ids with
  | [] => Some ([], remaining)
  | id :: ids =>
      step ← run_step_value definition evidence remaining id;
      '(steps, remaining) ← run_step_results definition evidence ids (take_node remaining id);
      Some (step :: steps, remaining)
  end.

Fixpoint run_finalizer_results (definition : ValidatedWorkflow) (evidence : LocalRunEvidence) (ids : list string)
    (remaining : Remaining) (retained : btree FinalizerResult)
    : option (list (WorkflowRunStep Output) * (Remaining * btree FinalizerResult)) :=
  match ids with
  | [] => Some ([], (remaining, retained))
  | id :: ids =>
      finalizer ← run_finalizer_value definition evidence remaining retained id;
      '(finalizers, rest) ←
        run_finalizer_results definition evidence ids (take_node remaining id) (take_summary retained id);
      Some (finalizer :: finalizers, rest)
  end.

Definition run_finalization_cancellation (cancellation : FinalizationCancellation Deadline)
    : WorkflowRunFinalizationCancellation :=
  {| wfc_reason := fin_reason cancellation; wfc_force_stop_deadline := deadline_utc <$> fin_deadline cancellation |}.

Definition run_finalization (definition : ValidatedWorkflow) (evidence : LocalRunEvidence)
    (summary : option (FinalizationSummary Deadline)) (remaining : Remaining)
    : option (option (WorkflowRunFinalization Output) * Remaining) :=
  match vw_finalizers definition, summary with
  | [], None => Some (None, remaining)
  | _ :: _, Some summary =>
      let retained := bt_collect ((λ finalizer, (fr_finalizer finalizer, finalizer)) <$> fs_finalizers summary) in
      '(finalizers, (remaining, retained)) ←
        run_finalizer_results definition evidence (vw_finalizer_presentation_order definition) remaining retained;
      if bool_decide (length retained = 0)
      then Some (Some {| wrf_trigger := fs_trigger summary; wrf_finalizers := finalizers;
                         wrf_cancellation := run_finalization_cancellation <$> fs_cancellation summary;
                         wrf_force_abort := fs_force_abort summary |}, remaining)
      else None
  | _, _ => None
  end.

(** The producers of outputs, by node. *)
Definition group_producers (producers : gmap (string * string) OutputProducer) : btree (btree OutputProducer) :=
  foldl (λ grouped '(key, producer),
    bt_insert grouped key.1 (bt_insert (default [] (bt_get grouped key.1)) key.2 producer)) [] (map_to_list producers).

Definition build_run_result (definition : ValidatedWorkflow) (admission : RunAdmission) (execution : ExecutionResult)
    (evidence : LocalRunEvidence) (run_timing : WorkflowRunTiming) (local_run : LocalRun)
    : option (WorkflowRunResult Output) :=
  continuation ← lr_continuation_record local_run;
  cancellation ← run_cancellation (er_outcome execution) (rts_cancellation (le_timing evidence));
  '(steps, remaining) ←
    run_step_results definition evidence (vw_presentation_order definition) (er_steps execution, er_recoveries execution);
  '(finalization, remaining) ← run_finalization definition evidence (er_finalization_summary execution) remaining;
  if bool_decide (dom remaining.1 = (∅ : gset string)) && bool_decide (dom remaining.2 = (∅ : gset string)) then
    Some {| wr_run_directory := lr_run_directory local_run; wr_attempt_number := lr_attempt_number local_run;
            wr_continuation := continuation; wr_output_producers := group_producers (er_output_producers execution);
            wr_workflow_path := ra_workflow_path admission; wr_source_root := ra_source_root admission;
            wr_content_digest := ra_content_digest admission; wr_execution_root := ra_execution_root admission;
            wr_maximum_parallel_steps := ra_maximum_parallel_steps admission;
            wr_maximum_retained_bytes_per_stream := ra_maximum_step_log_bytes admission; wr_cloud_capacity := None;
            wr_timing := run_timing; wr_outcome := er_outcome execution; wr_cancellation := cancellation;
            wr_force_abort := er_force_abort execution; wr_steps := steps; wr_finalization := finalization;
            wr_exports := er_exports execution; wr_export_sources := vw_exports definition |}
  else None.

(** ** The cancellation a cloud runner reports *)

(** From the final state of a run to its result: what [run] of
    [src/cli/workflow/run.rs] does once the workflow was executed. *)
Definition local_run_result (workflow : ValidatedWorkflow) (admission : RunAdmission)
    (state : RuntimeState StepFailureCause Output Deadline) (evidence : LocalRunEvidence) (local_run : LocalRun)
    : option (WorkflowRunResult Output) :=
  execution ← execution_result state;
  run_timing ← observed_run_timing (le_timing evidence);
  build_run_result workflow admission execution evidence run_timing local_run.

(** [observed_workflow_cancellation] of the runner: [None] is an
    inconsistent cancellation. *)
Definition observed_workflow_cancellation (outcome : RunOutcome) (cancellation : option (CancellationReason * Deadline))
    : option (option WorkflowRunCancellation) :=
  match cancellation, outcome with
  | None, (RunSucceeded | RunFailed _ None | RunCancelled ForceAbort) => Some None
  | Some (reason, deadline), RunFailed _ (Some later) =>
      if decide (reason = later)
      then Some (Some {| wrc_reason := reason; wrc_force_stop_deadline := deadline_utc deadline |}) else None
  | Some (reason, deadline), RunCancelled outcome_reason =>
      if decide (reason = outcome_reason)
      then Some (Some {| wrc_reason := reason; wrc_force_stop_deadline := deadline_utc deadline |}) else None
  | _, _ => None
  end.

(** What the observer of the runner keeps of accepted cancellations: the last
    one, and whether there were two, which is a fault after which it keeps
    nothing more. *)
Definition observe_cancellation (observer : option (CancellationReason * Deadline) * bool) (event : TransitionEvent Deadline)
    : option (CancellationReason * Deadline) * bool :=
  if observer.2 then observer
  else match event with
       | EvCancellationAccepted _ reason deadline => (Some (reason, deadline), bool_decide (is_Some observer.1))
       | _ => observer
       end.

Definition observed_cancellations (events : list (TransitionEvent Deadline)) : option (CancellationReason * Deadline) * bool :=
  foldl observe_cancellation (None, false) events.
End run_results.
