(* ===== verification/ValidDocuments.v ===== *)
(** * What validation guarantees

    The parts of [validate] put together: the workflow it returns has the
    nodes of the document, each validated from its body with exactly the
    prerequisites the document requires, in graphs without cycles. *)

From S2P Require Import Prelude Text Nodes Evidence Condition Document Validated Validation Graph Requirements Capacity Runtime.

Local Open Scope list_scope.

(** ** Maps with the same keys *)

Definition entries {A B} (R : string → A → B → Prop) (l : btree A) (m : btree B) : Prop :=
  Forall2 (λ a b, a.1 = b.1 ∧ R a.1 a.2 b.2) l m.

Lemma entries_keys {A B} (R : string → A → B → Prop) l m : entries R l m → bt_keys m = bt_keys l.
Proof. unfold bt_keys. induction 1 as [|a b l m [Hk _] _ IH]; csimpl; [done|]. by rewrite IH, Hk. Qed.

Lemma entries_get {A B} (R : string → A → B → Prop) l m k a :
  entries R l m → bt_get l k = Some a → ∃ b, bt_get m k = Some b ∧ R k a b.
Proof.
  induction 1 as [|[k1 a1] [k2 b2] l m [Hk HR] _ IH]; simpl in *; [done|]. subst.
  case_decide; [|done]. intros. simplify_eq. eauto.
Qed.

Lemma entries_get_inv {A B} (R : string → A → B → Prop) l m k b :
  entries R l m → bt_get m k = Some b → ∃ a, bt_get l k = Some a ∧ R k a b.
Proof.
  induction 1 as [|[k1 a1] [k2 b2] l m [Hk HR] _ IH]; simpl in *; [done|]. subst.
  case_decide; [|done]. intros. simplify_eq. eauto.
Qed.

Lemma entries_wf {A B} (R : string → A → B → Prop) l m : entries R l m → bt_wf l → bt_wf m.
Proof. intros He. unfold bt_wf. by rewrite (entries_keys _ _ _ He). Qed.

(** [iter().map(..).collect::<Result<BTreeMap<_, _>, _>>()]. *)
Lemma try_map_entries {A B} (f : string → A → checked B) (l : btree A) bs :
  try_map (λ '(k, a), let? b := f k a in Ok (k, b)) l = Ok bs → entries (λ k a b, f k a = Ok b) l bs.
Proof.
  intros H%try_map_Ok. eapply Forall2_impl; [exact H|]. intros [k a] [k' b]. simpl.
  intros (b' & Hb & [= <- <-])%result_bind_Ok. done.
Qed.

Lemma entries_snoc {A B} (R : string → A → B → Prop) l m k a b :
  entries R l m → R k a b → bt_wf (l ++ [(k, a)]) → entries R (l ++ [(k, a)]) (bt_insert m k b).
Proof.
  intros He HR Hw. rewrite bt_insert_last.
  - apply Forall2_app; [done|]. by repeat constructor.
  - rewrite (entries_keys _ _ _ He). unfold bt_wf, bt_keys in Hw. rewrite fmap_app in Hw.
    apply Forall_forall. intros x Hx. eapply StronglySorted_app_1_elem_of in Hw; [exact Hw|done|]. simpl. by left.
Qed.

Lemma bt_wf_app_l {A} (l1 l2 : btree A) : bt_wf (l1 ++ l2) → bt_wf l1.
Proof. unfold bt_wf, bt_keys. rewrite fmap_app. apply StronglySorted_app_1_l. Qed.

(** ** Graphs *)

Lemma represents_producers m reqs : represents m reqs → producers_of (bt_values m) = bt_keys m.
Proof.
  intros [Hw Hm]. unfold bt_values, bt_keys. rewrite <-list_fmap_compose. apply list_fmap_ext.
  intros i [k p] Hi. simpl. apply list_elem_of_lookup_2, (bt_get_NoDup _ _ _ (bt_wf_NoDup _ Hw)) in Hi.
  rewrite Hm in Hi. unfold required_prerequisite in Hi. case_decide; by simplify_eq/=.
Qed.

Lemma resolved_distinct document name role body control ps :
  resolved document name role body control ps → NoDup (producers_of ps).
Proof.
  intros [(m & Hm & ->) _ _ _]. rewrite (represents_producers _ _ Hm). apply bt_wf_NoDup, Hm.
Qed.

Lemma validate_source_order_Ok {T} (nodes : btree T) source_order :
  NoDup (bt_keys nodes) → validate_source_order nodes source_order = Ok () →
  NoDup source_order ∧ bt_keys nodes ≡ₚ source_order.
Proof.
  intros Hnd. unfold validate_source_order. case_bool_decide as Hlen; simpl; [|done].
  case_bool_decide as Hso; simpl; [|done]. destruct (existsb _ _) eqn:Hex; [done|]. intros _.
  split; [done|]. symmetry. apply submseteq_length_Permutation.
  - apply NoDup_submseteq; [done|]. intros x Hx. apply bt_get_is_Some.
    destruct (bt_get nodes x) eqn:E; [eauto|]. exfalso.
    assert (existsb (λ id, negb (bt_contains_key nodes id)) source_order = true); [|congruence].
    apply existsb_exists. exists x. split; [by apply list_elem_of_In|]. unfold bt_contains_key. by rewrite E.
  - unfold bt_keys. rewrite length_fmap. lia.
Qed.

(** A graph accepted by validation. *)
Record graph_ok {A} (nodes : btree A) (source_order : list string)
    (resolve : string → A → checked (list ResolvedDirectPrerequisite)) (g : ValidatedGraph) : Prop := {
  go_entries : entries (λ n a ps, resolve n a = Ok ps) nodes (vg_direct_prerequisites g);
  go_acyclic : acyclic (vg_direct_prerequisites g);
  go_greedy : greedy (vg_direct_prerequisites g) (source_indices source_order) (vg_presentation_order g);
  go_order : vg_presentation_order g ≡ₚ bt_keys nodes
}.

Lemma validate_graph_ok {A} (nodes : btree A) source_order resolve g :
  bt_wf nodes → validate_source_order nodes source_order = Ok () →
  (∀ n a ps, resolve n a = Ok ps → NoDup (producers_of ps)) →
  (let? direct := try_map (λ '(n, a), let? ps := resolve n a in Ok (n, ps)) nodes in
   validate_graph (bt_collect direct) source_order (length nodes)) = Ok g →
  graph_ok nodes source_order resolve g.
Proof.
  intros Hw Hso Hres (direct & Hd%try_map_entries & Hg)%result_bind_Ok.
  destruct (validate_source_order_Ok _ _ (bt_wf_NoDup _ Hw) Hso) as [Hnd Hperm].
  pose proof (entries_keys _ _ _ Hd) as Hkeys. pose proof (entries_wf _ _ _ Hd Hw) as Hdw.
  rewrite bt_collect_id in Hg by done.
  assert (Hgi : graph_input direct source_order).
  { split; [by apply bt_wf_NoDup| |done|rewrite Hkeys, Hperm; done].
    intros n ps Hin%(bt_get_NoDup _ _ _ (bt_wf_NoDup _ Hdw)).
    destruct (entries_get_inv _ _ _ _ _ Hd Hin) as (a & _ & Ha). by eapply Hres. }
  assert (length nodes = length direct) as Hlen by (by eapply Forall2_length). rewrite Hlen in Hg.
  apply (validate_graph_Ok _ _ Hgi) in Hg as (Hac & Hdir & Hgr & Hl). rewrite <-Hdir in *.
  split; [done..|]. rewrite (greedy_complete _ _ _ (gi_keys _ _ Hgi) Hgr Hl). by rewrite Hkeys.
Qed.

Definition resolve_step_of document (n : string) (step : StepDefinition) := resolve_step_prerequisites n step document.
Definition resolve_finalizer_of document (n : string) (f : FinalizerDefinition) :=
  resolve_finalizer_prerequisites n f document.

(** ** The whole *)

Definition body_validated document profiles role graph (n : string) (body : NodeBody) (v : ValidatedStep) : Prop :=
  validate_body n role document (required_inputs document) body (graph_prerequisites graph n) profiles = Ok v.

(** What the success of [validate] establishes of its result. *)
Record validated_from (document : WorkflowDocument) (profiles : btree ValidatedHarness)
    (steps finalizers : ValidatedGraph) (W : ValidatedWorkflow) : Prop := {
  vd_namespace : validate_node_namespace document = Ok ();
  vd_conditions : validate_workflow_condition_bounds document = Ok ();
  vd_step_graph : graph_ok (doc_steps document) (doc_step_order document) (resolve_step_of document) steps;
  vd_finalizer_graph :
    graph_ok (doc_finalizers document) (doc_finalizer_order document) (resolve_finalizer_of document) finalizers;
  vd_outputs : validate_output_rules document = Ok ();
  vd_steps : entries (λ n s v, body_validated document profiles RoleStep steps n (sd_body s) v)
               (doc_steps document) (vw_steps W);
  vd_recoveries : entries (λ n s r, validate_recovery n (sd_recovery s) profiles = Ok r)
                    (doc_steps document) (vw_recoveries W);
  vd_finalizers : entries (λ n f v, body_validated document profiles RoleFinalizer finalizers n (fd_body f) (vf_body v)
                                    ∧ vf_when v = fd_when f)
                    (doc_finalizers document) (vw_finalizers W);
  vd_exports : entries (λ n o s, resolve_export n o document = Ok s) (doc_exports document) (vw_exports W);
  vd_presentation : vw_presentation_order W = vg_presentation_order steps;
  vd_finalizer_presentation : vw_finalizer_presentation_order W = vg_presentation_order finalizers;
  vd_inputs : vw_required_inputs W = required_inputs document
}.

Lemma validate_steps_entries document profiles graph l steps recoveries :
  bt_wf l → try_fold (validate_step document profiles graph) l ([], []) = Ok (steps, recoveries) →
  entries (λ n s v, body_validated document profiles RoleStep graph n (sd_body s) v) l steps
  ∧ entries (λ n s r, validate_recovery n (sd_recovery s) profiles = Ok r) l recoveries.
Proof.
  revert steps recoveries. induction l as [|[n s] l IH] using rev_ind; intros steps recoveries Hw.
  { intros [= <- <-]. split; constructor. }
  rewrite try_fold_app. intros ([steps0 recoveries0] & H0 & H1)%result_bind_Ok.
  destruct (IH steps0 recoveries0) as [Hs Hr]; [by eapply bt_wf_app_l|done|].
  simpl in H1. apply result_bind_Ok in H1 as (acc & H1 & [= ->]).
  apply result_bind_Ok in H1 as (v & Hv & (r & Hrec & [= <- <-])%result_bind_Ok).
  split; by apply entries_snoc.
Qed.

Lemma validate_finalizers_entries document profiles graph l finalizers :
  bt_wf l → try_fold (validate_finalizer document profiles graph) l [] = Ok finalizers →
  entries (λ n f v, body_validated document profiles RoleFinalizer graph n (fd_body f) (vf_body v)
                    ∧ vf_when v = fd_when f) l finalizers.
Proof.
  revert finalizers. induction l as [|[n f] l IH] using rev_ind; intros finalizers Hw.
  { intros [= <-]. constructor. }
  rewrite try_fold_app. intros (finalizers0 & H0 & H1)%result_bind_Ok.
  simpl in H1. apply result_bind_Ok in H1 as (acc & (v & Hv & [= <-])%result_bind_Ok & [= <-]).
  apply entries_snoc; [|done..]. apply IH; [by eapply bt_wf_app_l|done].
Qed.

Lemma validate_node_namespace_Ok document :
  validate_node_namespace document = Ok () ↔
  length (doc_steps document) + length (doc_finalizers document) <= MAXIMUM_WORKFLOW_NODES
  ∧ (∀ id, id ∈ bt_keys (doc_steps document) → id ∈ bt_keys (doc_finalizers document) → False)
  ∧ validate_source_order (doc_steps document) (doc_step_order document) = Ok ()
  ∧ validate_source_order (doc_finalizers document) (doc_finalizer_order document) = Ok ().
Proof.
  unfold validate_node_namespace. case_decide; [naive_solver lia|].
  assert (Hex : existsb (λ id, bt_contains_key (doc_finalizers document) id) (bt_keys (doc_steps document)) = false
    ↔ ∀ id, id ∈ bt_keys (doc_steps document) → id ∈ bt_keys (doc_finalizers document) → False).
  { rewrite <-not_true_iff_false, existsb_exists. unfold bt_contains_key.
    setoid_rewrite bool_decide_eq_true. setoid_rewrite bt_get_is_Some. setoid_rewrite <-list_elem_of_In. naive_solver. }
  destruct (existsb _ _).
  - split; [done|]. intros (_ & Hd & _). apply Hex in Hd. done.
  - rewrite result_bind_Ok. split; [|naive_solver]. intros ([] & ? & ?). split_and!; [lia|by apply Hex|done..].
Qed.

Lemma validate_inv `{!HarnessDecoder} retries document W :
  document_wf retries document → validate document = Ok W →
  ∃ profiles steps finalizers, validated_from document profiles steps finalizers W.
Proof.
  intros Hdoc. unfold validate.
  intros ([] & Hns & ([] & Hb & (profiles & Hp & (sg & Hsg & (fg & Hfg & ([] & Ho & Hrest)%result_bind_Ok)%result_bind_Ok)
    %result_bind_Ok)%result_bind_Ok)%result_bind_Ok)%result_bind_Ok.
  apply result_bind_Ok in Hrest as ([steps recoveries] & Hs & (finalizers & Hf & (exports & He & [= <-])
    %result_bind_Ok)%result_bind_Ok).
  exists profiles, sg, fg.
  pose proof Hns as (_ & _ & Hso & Hfo)%validate_node_namespace_Ok.
  destruct (validate_steps_entries _ _ _ _ _ _ (dwf_steps _ _ Hdoc) Hs) as [Hsteps Hrecs].
  split; try done.
  - apply (validate_graph_ok _ _ (resolve_step_of document)); [apply Hdoc|done| |done].
    intros n s ps Hps%resolve_step_prerequisites_ok. by eapply resolved_distinct.
  - apply (validate_graph_ok _ _ (resolve_finalizer_of document)); [apply Hdoc|done| |done].
    intros n s ps [_ Hps]%resolve_finalizer_prerequisites_ok. by eapply resolved_distinct.
  - apply validate_finalizers_entries; [apply Hdoc|done].
  - apply result_bind_Ok in He as (entries0 & He%try_map_entries & [= <-]). simpl.
    rewrite bt_collect_id; [done|]. eapply entries_wf; [exact He|apply Hdoc].
Qed.

(** ** References *)

(** A reference and the source it is resolved to. *)
Definition denotes (document : WorkflowDocument) (reference : ValueReference) (source : ResolvedValueSource)
    (value_type : WorkflowValueType) : Prop :=
  match reference with
  | RefInput name => source = SourceInput name ∧ bt_get (required_inputs document) name = Some value_type
  | RefFinalizationContext => source = SourceFinalizationContext ∧ value_type = TyJson
  | RefOutput o =>
      ∃ role body output,
        node_body document (or_node o) = Some (role, body)
        ∧ bt_get (cn_outputs (common_node body)) (or_output o) = Some output
        ∧ value_type = output_value_type output
        ∧ source = SourceOutput {| ros_node := {| node_id := or_node o; node_role := role |};
                                   ros_output := or_output o; ros_value_type := output_value_type output |}
  end.

Lemma resolve_value_reference_Ok document reference location allowed v :
  resolve_value_reference reference document (required_inputs document) location allowed = Ok v →
  denotes document reference (rvr_source v) (rvr_value_type v).
Proof.
  destruct reference as [name|o|]; simpl.
  - destruct (bt_get _ _) eqn:E; [|done]. intros [= <-]. done.
  - intros ([[role body] output] & [Hb Ho]%declared_output_Ok & [= <-])%result_bind_Ok. simpl in *. eauto 10.
  - destruct allowed; [|done]. intros [= <-]. done.
Qed.

(** The references a validated step reads: every source comes from one. *)
Definition step_sources (v : ValidatedStep) : list ResolvedValueSource :=
  match v with
  | VCommand common inputs _ => bt_values (vc_condition_values common) ++ (rvr_source <$> bt_values inputs)
  | VAgent common agent =>
      bt_values (vc_condition_values common)
      ++ omap (λ m, match m with MessageReference s _ => Some s | MessageFile _ => None end)
           (vm_text (va_message agent) ++ vm_attachments (va_message agent))
  end.

(** What the success of [validate_body] establishes. *)
Record body_facts (document : WorkflowDocument) (role : WorkflowNodeRole) (n : string) (body : NodeBody)
    (prerequisites : list ResolvedDirectPrerequisite) (v : ValidatedStep) : Prop := {
  bf_condition : resolve_condition n role document (required_inputs document) (cn_condition (common_node body))
                 = Ok (vc_condition (common_step v), vc_condition_values (common_step v));
  bf_evidence : evidence_prerequisites body prerequisites = Ok (vc_evidence_prerequisites (common_step v));
  bf_prerequisites : vc_prerequisites (common_step v) = prerequisites;
  bf_policy : vc_failure_policy (common_step v) = cn_failure_policy (common_node body);
  bf_outputs : vc_outputs (common_step v)
    = bt_collect ((λ '(name, output),
        (name, {| vo_definition := output; vo_value_type := output_value_type output |})) <$> cn_outputs (common_node body));
  bf_sources source : source ∈ step_sources v →
    source ∈ bt_values (vc_condition_values (common_step v))
    ∨ ∃ reference t, reference ∈ body_references body ∧ denotes document reference source t
}.

Lemma bt_collect_values {A} (l : list (string * A)) a : a ∈ bt_values (bt_collect l) → a ∈ l.*2.
Proof.
  unfold bt_values, bt_collect. cut (∀ m, a ∈ (foldl (λ m '(k, v), bt_insert m k v) m l).*2 → a ∈ m.*2 ∨ a ∈ l.*2).
  { intros Hc Ha. apply Hc in Ha. set_solver. }
  induction l as [|[k v] l IH]; intros m; csimpl; [by left|]. intros [Hm|Hl]%IH; [|by right; right].
  assert (a ∈ m.*2 ∨ a = v) as [?| ->]; [|by left|by right; left].
  clear -Hm. induction m as [|[k' v'] m IH]; csimpl in Hm; [set_solver|].
  destruct (String.compare k k'); csimpl in *; set_solver.
Qed.

Lemma try_map_elem {A B} (f : A → checked B) l bs b : try_map f l = Ok bs → b ∈ bs → ∃ a, a ∈ l ∧ f a = Ok b.
Proof.
  intros Hf%try_map_Ok [i Hi]%list_elem_of_lookup.
  destruct (Forall2_lookup_r _ _ _ _ _ Hf Hi) as (a & Ha & ?). eauto using list_elem_of_lookup_2.
Qed.

Lemma elem_of_enumerate {A} (l : list A) i a : (i, a) ∈ enumerate l → a ∈ l.
Proof. intros (? & ? & ? & ?)%elem_of_lookup_imap_1. simplify_eq. by eapply list_elem_of_lookup_2. Qed.

Lemma message_sources document role n sources destination ms m source t :
  try_map (λ '(index, s), validate_message_source n role document (required_inputs document) index s destination)
    (enumerate sources) = Ok ms →
  m ∈ ms → m = MessageReference source t →
  ∃ reference t, reference ∈ flat_map message_references sources ∧ denotes document reference source t.
Proof.
  intros Hms Hm ->. destruct (try_map_elem _ _ _ _ Hms Hm) as ([i s] & Hin%elem_of_enumerate & Hs).
  unfold validate_message_source in Hs. destruct s as [path|reference]; [done|].
  apply result_bind_Ok in Hs as (v & Hv%resolve_value_reference_Ok & Hs).
  destruct (message_compatible _ _); [|done]. injection Hs as <- <-. exists reference, (rvr_value_type v). split; [|done].
  apply list_elem_of_In, in_flat_map. exists (SourceReference reference). split; [by apply list_elem_of_In|by left].
Qed.

Lemma validate_body_facts document profiles role graph n body v :
  body_validated document profiles role graph n body v →
  body_facts document role n body (graph_prerequisites graph n) v.
Proof.
  unfold body_validated, validate_body.
  intros ([condition values] & Hc & (evidence & He & Hb)%result_bind_Ok)%result_bind_Ok.
  destruct body as [common inputs argv|common agent].
  - apply result_bind_Ok in Hb as (inputs' & Hi & [= <-]). split; try done.
    cbn [step_sources]. intros source [?|(x & -> & Hx)%list_elem_of_fmap]%elem_of_app; [by left|]. right.
    unfold validate_command_inputs in Hi. apply result_bind_Ok in Hi as (l & Hl & [= <-]).
    apply bt_collect_values in Hx as ([name x'] & -> & Hx)%list_elem_of_fmap.
    destruct (try_map_elem _ _ _ _ Hl Hx) as ([name' reference] & Hin & Hr).
    apply result_bind_Ok in Hr as (v & Hv%resolve_value_reference_Ok & [= <- <-]).
    exists reference, (rvr_value_type v). split; [|done]. unfold body_references, bt_values. apply list_elem_of_fmap. by exists (name', reference).
  - apply result_bind_Ok in Hb as (harness & Hh & (agent' & Ha & [= <-])%result_bind_Ok). split; try done.
    cbn [step_sources]. intros source [?|(m & Hm & Hs)%list_elem_of_omap]%elem_of_app; [by left|]. right.
    unfold validate_agent in Ha. apply result_bind_Ok in Ha as (text & Ht & (atts & Hatt & [= <-])%result_bind_Ok).
    cbn in Hm. destruct m as [|s t]; simplify_eq. cbn [body_references]. rewrite flat_map_app.
    apply elem_of_app in Hm as [Hm|Hm]; [eapply message_sources in Ht as (r & t' & ? & ?)|eapply message_sources in Hatt as (r & t' & ? & ?)];
      try done; exists r, t'; set_solver.
Qed.
