(* ===== verification/ConditionTypes.v ===== *)
(** * Types of conditions

    Validation types the operands of a condition: each is read from a source
    of its kind, and both sides of an equality have the same kind.  A
    well-typed condition whose sources have their values never meets a value
    of the wrong kind, and stays within the limits on its evidence. *)

From S2P Require Import Prelude Text Nodes Evidence Condition Predicates Document Validated Validation Graph Requirements Capacity Runtime ValidDocuments.

Local Open Scope list_scope.

(** ** Sizes *)

Fixpoint condition_nodes (c : ConditionPredicate) : nat :=
  S match c with
    | CAll l | CAny l => list_sum (condition_nodes <$> l)
    | CNot c => condition_nodes c
    | CEquals _ _ | CExists _ | CDisposition _ _ => 0
    end.

(** The loop over the children of [condition_node_count]. *)
Definition count_children (depth : nat) (location : ValidationLocation) : list ConditionPredicate → nat → checked nat :=
  fix count children n :=
    match children with
    | [] => Ok n
    | child :: children =>
        let? m := condition_node_count child (S depth) location in
        let n := n + m in
        if decide (MAXIMUM_CONDITION_NODES < n) then fail ConditionNodeLimitExceeded location
        else count children n
    end.

Lemma count_children_Ok depth location l n m :
  Forall (λ c, ∀ depth location k, condition_node_count c depth location = Ok k → k = condition_nodes c) l →
  n <= MAXIMUM_CONDITION_NODES → count_children depth location l n = Ok m →
  m = n + list_sum (condition_nodes <$> l) ∧ m <= MAXIMUM_CONDITION_NODES.
Proof.
  intros Hl. revert n. induction Hl as [|c l Hc Hl IH]; intros n Hn; cbn [count_children]; [intros [= <-]; simpl; lia|].
  intros (k & Hk & Hrest)%result_bind_Ok. apply Hc in Hk as ->. case_decide; [done|].
  apply IH in Hrest as [-> ?]; [|lia]. csimpl. lia.
Qed.

(** [condition_node_count] counts the predicates, and bounds them. *)
Lemma condition_node_count_Ok c depth location k :
  condition_node_count c depth location = Ok k → k = condition_nodes c ∧ k <= MAXIMUM_CONDITION_NODES.
Proof.
  assert (Hone : 1 <= MAXIMUM_CONDITION_NODES) by (unfold MAXIMUM_CONDITION_NODES; lia).
  revert depth location k. induction c as [l IH|l IH|c IH|lhs rhs|s|node d] using ConditionPredicate_nested_ind;
    intros depth location k; cbn [condition_node_count]; (case_decide; [done|]).
  1,2: destruct (_ || _); [done|]; intros Hc; apply (count_children_Ok depth location l 1 k) in Hc as [-> ?];
      [done| |done]; eapply Forall_impl; [exact IH|]; naive_solver.
  2-4: intros [= <-]; done.
  intros Hc. apply (count_children_Ok depth location [c] 1 k) in Hc as [-> ?]; [|by repeat constructor; naive_solver|done].
  split; [cbn; lia|done].
Qed.

(** ** Kinds *)

Lemma json_pointer_parse_authored text p : json_pointer_parse text = Some p → jp_authored p = text.
Proof.
  unfold json_pointer_parse. destruct (str_is_empty text); [by intros [= <-]|].
  intros (tokens & _ & (decoded & _ & [= <-])%bind_Some)%bind_Some. done.
Qed.

Definition type_kind (t : WorkflowValueType) : option ConditionValueKind :=
  match t with
  | TyText => Some KindText
  | TyJson => Some KindJson
  | TyAttachmentCollection | TyFile | TyGitBranch => None
  end.

(** The nodes whose disposition a predicate reads. *)
Fixpoint predicate_targets (p : ResolvedPredicate) : list WorkflowNode :=
  match p with
  | PAll l | PAny l => flat_map predicate_targets l
  | PNot q => predicate_targets q
  | PEquals _ _ | PExists _ => []
  | PDisposition node _ => [node]
  end.

(** The references a predicate selects a part of, and so may not find. *)
Definition operand_pointers (o : ResolvedOperand) : list string :=
  match ro_value o with OperandReference c (Some _) => [c] | _ => [] end.

Fixpoint predicate_pointers (p : ResolvedPredicate) : list string :=
  match p with
  | PAll l | PAny l => flat_map predicate_pointers l
  | PNot q => predicate_pointers q
  | PEquals l r => operand_pointers l ++ operand_pointers r
  | PExists _ | PDisposition _ _ => []
  end.

Section typing.
Context (document : WorkflowDocument).

Definition source_type (source : ResolvedValueSource) : option WorkflowValueType :=
  match source with
  | SourceInput name => bt_get (required_inputs document) name
  | SourceOutput o => Some (ros_value_type o)
  | SourceFinalizationContext => Some TyJson
  end.

Definition source_kind (source : ResolvedValueSource) : option ConditionValueKind := source_type source ≫= type_kind.

Definition read_at (values : btree ResolvedValueSource) (canonical : string) (kind : ConditionValueKind) : Prop :=
  ∃ source, bt_get values canonical = Some source ∧ source_kind source = Some kind.

(** A pointer goes with JSON, and is the reading of its text. *)
Definition pointer_typed (kind : ConditionValueKind) (p : JsonPointer) : Prop :=
  kind = KindJson ∧ json_pointer_parse (jp_authored p) = Some p.

Definition operand_typed (values : btree ResolvedValueSource) (operand : ResolvedOperand) : Prop :=
  match ro_value operand with
  | OperandReference canonical pointer =>
      read_at values canonical (ro_kind operand) ∧ ∀ p, pointer = Some p → pointer_typed (ro_kind operand) p
  | TextLiteral _ => ro_kind operand = KindText
  | JsonLiteral _ => ro_kind operand = KindJson
  end.

Fixpoint predicate_typed (values : btree ResolvedValueSource) (p : ResolvedPredicate) : Prop :=
  match p with
  | PAll l | PAny l => foldr (λ q, and (predicate_typed values q)) True l
  | PNot q => predicate_typed values q
  | PEquals l r => operand_typed values l ∧ operand_typed values r ∧ ro_kind l = ro_kind r
  | PExists s => read_at values (rsel_canonical_ref s) KindJson
  | PDisposition node _ => target_role document (node_id node) = Some (node_role node)
  end.

Lemma typed_children values l : foldr (λ q, and (predicate_typed values q)) True l ↔ Forall (predicate_typed values) l.
Proof. induction l as [|q l IH]; simpl; [by split; constructor|]. by rewrite Forall_cons, IH. Qed.

(** ** Sources are known by their canonical text *)

Context (Hnames : identifiers (bt_keys (doc_steps document)) ∧ identifiers (bt_keys (doc_finalizers document))).

Definition good_source (source : ResolvedValueSource) : Prop := ∃ reference t, denotes document reference source t.

Lemma identifier_no_dot n : is_workflow_value_identifier n = true → "."%char ∉ bytes n.
Proof.
  unfold is_workflow_value_identifier. destruct (bytes n) as [|c rest]; [done|].
  intros [[Hc _]%andb_prop Hrest]%andb_prop. apply not_elem_of_cons. split; [by intros <-|].
  by eapply forallb_not_elem.
Qed.

Lemma node_identifier n role body : node_body document n = Some (role, body) → "."%char ∉ bytes n.
Proof.
  intros Hn%node_body_key. apply identifier_no_dot. destruct Hnames as [Hs Hf], role; simpl in Hn.
  - eapply Forall_forall in Hs; [exact Hs|done].
  - eapply Forall_forall in Hf; [exact Hf|done].
Qed.

Lemma output_text_inj n1 n2 o1 o2 :
  "."%char ∉ bytes n1 → "."%char ∉ bytes n2 → (n1 ++ "." ++ o1 = n2 ++ "." ++ o2)%string → n1 = n2 ∧ o1 = o2.
Proof.
  intros H1 H2 Heq. change (n1 ++ String "."%char o1 = n2 ++ String "."%char o2)%string in Heq.
  assert (n1 = n2) as <-.
  { apply (f_equal (str_split "."%char)) in Heq. rewrite !str_split_app in Heq by done. congruence. }
  split; [done|]. apply (inj (String.append n1)) in Heq. congruence.
Qed.

Lemma canonical_inj s1 s2 :
  good_source s1 → good_source s2 → canonical_reference s1 = canonical_reference s2 → s1 = s2.
Proof.
  intros (r1 & t1 & H1) (r2 & t2 & H2). destruct r1 as [n1|o1|], r2 as [n2|o2|]; cbn [denotes] in H1, H2.
  - destruct H1 as [-> _], H2 as [-> _]. intros Heq. by apply (inj (String.append "inputs.")) in Heq as ->.
  - destruct H1 as [-> _], H2 as (? & ? & ? & _ & _ & _ & ->). discriminate.
  - destruct H1 as [-> _], H2 as [-> _]. discriminate.
  - destruct H1 as (? & ? & ? & _ & _ & _ & ->), H2 as [-> _]. discriminate.
  - destruct H1 as (role1 & body1 & out1 & Hb1 & Ho1 & _ & ->), H2 as (role2 & body2 & out2 & Hb2 & Ho2 & _ & ->).
    cbn [canonical_reference]. unfold output_source_reference. cbn [ros_node ros_output node_id].
    intros Heq. apply (inj (String.append "outputs.")) in Heq.
    apply output_text_inj in Heq as [Hn Ho]; [|by eapply node_identifier..].
    rewrite <-Hn in Hb2. rewrite Hb1 in Hb2. injection Hb2 as <- <-. rewrite <-Ho, Ho1 in Ho2. injection Ho2 as <-.
    by rewrite Hn, Ho.
  - destruct H1 as (? & ? & ? & _ & _ & _ & ->), H2 as [-> _]. discriminate.
  - destruct H1 as [-> _], H2 as [-> _]. discriminate.
  - destruct H1 as [-> _], H2 as (? & ? & ? & _ & _ & _ & ->). discriminate.
  - destruct H1 as [-> _], H2 as [-> _]. done.
Qed.

(** ** Resolution *)

(** The values a condition has collected so far. *)
Definition values_ok (values : btree ResolvedValueSource) : Prop :=
  ∀ canonical source, bt_get values canonical = Some source →
    canonical = canonical_reference source ∧ good_source source.

Definition values_grow (values values' : btree ResolvedValueSource) : Prop :=
  ∀ canonical source, bt_get values canonical = Some source → bt_get values' canonical = Some source.

#[local] Instance values_grow_refl : Reflexive values_grow.
Proof. intros values c s Hs. done. Qed.
#[local] Instance values_grow_trans : Transitive values_grow.
Proof. intros v1 v2 v3 H12 H23 c s Hs. by apply H23, H12. Qed.

Lemma values_insert values source :
  values_ok values → good_source source →
  let values' := bt_insert values (canonical_reference source) source in
  values_ok values' ∧ values_grow values values' ∧ bt_get values' (canonical_reference source) = Some source.
Proof.
  intros Hok Hgood. cbv zeta. split_and!; [| |by rewrite bt_get_insert_eq].
  - intros c s. destruct (decide (c = canonical_reference source)) as [->|Hne].
    + rewrite bt_get_insert_eq. by intros [= <-].
    + rewrite bt_get_insert_ne by done. apply Hok.
  - intros c s Hs. destruct (decide (c = canonical_reference source)) as [->|Hne].
    + rewrite bt_get_insert_eq. destruct (Hok _ _ Hs) as [Hc Hg]. f_equal. by apply canonical_inj.
    + by rewrite bt_get_insert_ne.
Qed.

Lemma read_at_grow values values' c kind : values_grow values values' → read_at values c kind → read_at values' c kind.
Proof. intros Hg (s & Hs & Hk). exists s. split; [by apply Hg|done]. Qed.

Lemma operand_typed_grow values values' o : values_grow values values' → operand_typed values o → operand_typed values' o.
Proof.
  intros Hg. unfold operand_typed. destruct (ro_value o); [|done..]. intros [? ?]. eauto using read_at_grow.
Qed.

Lemma predicate_typed_grow values values' p :
  values_grow values values' → predicate_typed values p → predicate_typed values' p.
Proof.
  intros Hg. induction p as [l IH|l IH|q IH|l r|s|node d] using predicate_nested_ind; cbn [predicate_typed].
  1,2: rewrite !typed_children; intros Hl; rewrite Forall_forall in *; eauto.
  - done.
  - intros (? & ? & ?). eauto using operand_typed_grow.
  - by apply read_at_grow.
  - done.
Qed.

Section node.
Context (node_name : string) (role : WorkflowNodeRole).

(** What resolving part of a condition establishes. *)
Definition resolves {T} (typed : btree ResolvedValueSource → T → Prop) (refs : list ValueReference)
    (values : btree ResolvedValueSource) (r : T * btree ResolvedValueSource) : Prop :=
  values_ok values →
  values_ok r.2 ∧ values_grow values r.2 ∧ typed r.2 r.1
  ∧ ∀ c source, bt_get r.2 c = Some source →
      bt_get values c = Some source
      ∨ ∃ reference t, reference ∈ refs ∧ denotes document reference source t ∧ is_Some (type_kind t).

Lemma resolve_condition_reference_Ok reference r :
  resolve_condition_reference node_name role document (required_inputs document) reference = Ok r →
  ∃ source t kind, r = (canonical_reference source, source, kind) ∧ denotes document reference source t
    ∧ type_kind t = Some kind.
Proof.
  unfold resolve_condition_reference.
  intros (v & Hv%resolve_value_reference_Ok & (kind & Hk & [= <-])%result_bind_Ok)%result_bind_Ok.
  exists (rvr_source v), (rvr_value_type v), kind. split_and!; [done..|].
  destruct (rvr_value_type v); simpl; by simplify_eq.
Qed.

Lemma denotes_kind reference source t kind :
  denotes document reference source t → type_kind t = Some kind → source_kind source = Some kind.
Proof.
  unfold source_kind. destruct reference as [n|o|]; cbn [denotes].
  - intros [-> Ht]. cbn [source_type]. by rewrite Ht.
  - intros (? & ? & ? & _ & _ & -> & ->). done.
  - intros [-> ->]. done.
Qed.

(** Recording the source of a reference. *)
Lemma record_reference reference source t kind values :
  denotes document reference source t → type_kind t = Some kind → values_ok values →
  let values' := bt_insert values (canonical_reference source) source in
  values_ok values' ∧ values_grow values values' ∧ read_at values' (canonical_reference source) kind
  ∧ ∀ c s, bt_get values' c = Some s → bt_get values c = Some s ∨ s = source.
Proof.
  intros Hd Ht Hok. cbv zeta. destruct (values_insert values source Hok) as (H1 & H2 & H3); [by eexists _, _|].
  split_and!; [done..| |].
  - exists source. split; [done|]. by eapply denotes_kind.
  - intros c s. destruct (decide (c = canonical_reference source)) as [->|Hne].
    + rewrite bt_get_insert_eq. intros [= <-]. by right.
    + rewrite bt_get_insert_ne by done. by left.
Qed.

(** The resolution of one reference operand. *)
Definition reference_resolved (operand : ConditionOperand) (res : option ReferenceResolution) : Prop :=
  match operand, res with
  | CondLiteral _, None => True
  | CondReference reference _, Some res =>
      ∃ t, denotes document reference (rr_source res) t ∧ type_kind t = Some (rr_kind res)
        ∧ rr_canonical res = canonical_reference (rr_source res)
        ∧ ∀ p, rr_pointer res = Some p → pointer_typed (rr_kind res) p
  | _, _ => False
  end.

Lemma resolve_equals_reference_Ok operand res :
  resolve_equals_reference node_name role document (required_inputs document) operand = Ok res →
  reference_resolved operand res.
Proof.
  destruct operand as [reference pointer|v]; simpl; [|by intros [= <-]].
  intros ([[c source] kind] & (source' & t & kind' & Heq & Hd & Ht)%resolve_condition_reference_Ok & Hres)%result_bind_Ok.
  injection Heq as -> -> ->. destruct kind', pointer as [pointer|]; try done.
  - injection Hres as <-. by exists t.
  - destruct (json_pointer_parse pointer) as [p|] eqn:Hp; [|done]. injection Hres as <-. exists t. split_and!; [done..|].
    intros ? [= <-]. split; [done|]. cbn [rr_pointer]. by rewrite (json_pointer_parse_authored _ _ Hp).
  - injection Hres as <-. by exists t.
Qed.

Lemma resolve_equals_operand_ok kind operand res values r :
  reference_resolved operand res → (∀ x, res = Some x → rr_kind x = kind) →
  resolve_equals_operand node_name role kind operand res values = Ok r →
  resolves (λ values o, operand_typed values o ∧ ro_kind o = kind) (operand_references operand) values r.
Proof.
  intros Hres Hkind Hr Hok. destruct operand as [reference pointer|v]; cbn [resolve_equals_operand] in Hr.
  - destruct res as [res|]; [|done]. injection Hr as <-. cbn [fst snd]. destruct Hres as (t & Hd & Ht & Hc & Hp).
    specialize (Hkind res eq_refl). rewrite Hc.
    destruct (record_reference reference (rr_source res) t (rr_kind res) values Hd Ht Hok) as (H1 & H2 & H3 & H4).
    split; [exact H1|]. split; [exact H2|]. split.
    + destruct (rr_kind res); subst kind; (split; [|done]); by split.
    + intros c s [?| ->]%H4; [by left|]. right. exists reference, t. split; [by left|eauto].
  - destruct kind; [destruct v; try done|]; injection Hr as <-; (split_and!; [done..|by left]).
Qed.

Lemma resolves_ext {T} (typed : btree ResolvedValueSource → T → Prop) refs refs' values r :
  refs ⊆ refs' → resolves typed refs values r → resolves typed refs' values r.
Proof.
  intros Hsub Hr Hok. destruct (Hr Hok) as (? & ? & ? & Hfrom). split_and!; [done..|].
  intros c s [?|(reference & t & Hin & ?)]%Hfrom; [by left|]. right. exists reference, t. split; [by apply Hsub|done].
Qed.

(** Two parts resolved one after the other. *)
Lemma resolves_app {T U V} (typed1 : btree ResolvedValueSource → T → Prop) (typed2 : btree ResolvedValueSource → U → Prop)
    (typed3 : btree ResolvedValueSource → V → Prop) refs1 refs2 values a values1 b values2 v :
  (∀ w w' x, values_grow w w' → typed1 w x → typed1 w' x) →
  (∀ w, typed1 w a → typed2 w b → typed3 w v) →
  resolves typed1 refs1 values (a, values1) → resolves typed2 refs2 values1 (b, values2) →
  resolves typed3 (refs1 ++ refs2) values (v, values2).
Proof.
  intros Hmono Hboth H1 H2 Hok. destruct (H1 Hok) as (Hok1 & Hg1 & Ht1 & Hf1).
  destruct (H2 Hok1) as (Hok2 & Hg2 & Ht2 & Hf2). cbn [fst snd] in *.
  split_and!; [done|by etrans|eauto|]. intros c s [[?|(ref & t & ? & ?)]%Hf1|(ref & t & ? & ?)]%Hf2.
  - by left.
  - right. exists ref, t. set_solver.
  - right. exists ref, t. set_solver.
Qed.

Lemma resolve_condition_equals_ok lhs rhs values r :
  resolve_condition_equals node_name role document (required_inputs document) lhs rhs values = Ok r →
  resolves predicate_typed (operand_references lhs ++ operand_references rhs) values r.
Proof.
  unfold resolve_condition_equals.
  intros (lr & Hl%resolve_equals_reference_Ok & (rr & Hr%resolve_equals_reference_Ok & (kind & Hk & Hrest)%result_bind_Ok)
    %result_bind_Ok)%result_bind_Ok.
  apply result_bind_Ok in Hrest as ([lo values1] & H1 & ([ro values2] & H2 & [= <-])%result_bind_Ok).
  assert (Hkl : ∀ x, lr = Some x → rr_kind x = kind)
    by (intros x ->; destruct rr; simpl in Hk; [case_decide|]; unfold fail in *; congruence).
  assert (Hkr : ∀ x, rr = Some x → rr_kind x = kind)
    by (intros x ->; destruct lr; simpl in Hk; [case_decide|]; unfold fail in *; congruence).
  apply resolve_equals_operand_ok in H1, H2; [|done..].
  eapply resolves_app; [| |exact H1|exact H2].
  - intros w w' x Hg [Ht ?]. split; [by eapply operand_typed_grow|done].
  - intros w [? ?] [? ?]. cbn [predicate_typed]. split_and!; [done..|congruence].
Qed.

Lemma resolve_condition_exists_ok selector values r :
  resolve_condition_exists node_name role document (required_inputs document) selector values = Ok r →
  resolves predicate_typed [csel_reference selector] values r.
Proof.
  unfold resolve_condition_exists.
  intros ([[c source] kind] & (source' & t & kind' & Heq & Hd & Ht)%resolve_condition_reference_Ok & Hr)%result_bind_Ok.
  injection Heq as -> -> ->. destruct kind'; [done|]. destruct (json_pointer_parse _); [|done]. injection Hr as <-.
  intros Hok. destruct (record_reference _ source' t KindJson values Hd Ht Hok) as (H1 & H2 & H3 & H4).
  split_and!; [done..|]. intros c s [?| ->]%H4; [by left|]. right. eexists _, t. split; [by left|eauto].
Qed.

(** The loop over the children of [resolve_condition_predicate]. *)
Definition resolve_children : list ConditionPredicate → btree ResolvedValueSource →
    checked (list ResolvedPredicate * btree ResolvedValueSource) :=
  fix go children values :=
    match children with
    | [] => Ok ([], values)
    | child :: children =>
        let? (child, values) :=
          resolve_condition_predicate node_name role document (required_inputs document) child values in
        let? (children, values) := go children values in
        Ok (child :: children, values)
    end.

Abbreviation resolves_predicate c :=
  (∀ values r, resolve_condition_predicate node_name role document (required_inputs document) c values = Ok r →
   resolves predicate_typed (condition_references c) values r
   ∧ predicate_nodes r.1 = condition_nodes c).

Lemma resolve_children_ok l values r :
  Forall (λ c, resolves_predicate c) l → resolve_children l values = Ok r →
  resolves (λ w, Forall (predicate_typed w)) (flat_map condition_references l) values r
  ∧ predicate_nodes <$> r.1 = condition_nodes <$> l.
Proof.
  intros Hl. revert values r. induction Hl as [|c l Hc Hl IH]; intros values r; cbn [resolve_children].
  { intros [= <-]. split; [|done]. intros Hok. split_and!; [done..|constructor|by left]. }
  intros ([p values1] & [H1 Hn1]%Hc & ([ps values2] & [H2 Hn2]%IH & [= <-])%result_bind_Ok)%result_bind_Ok. split.
  - cbn [flat_map]. eapply resolves_app; [| |exact H1|exact H2].
    + intros w w' x. apply predicate_typed_grow.
    + intros w. by constructor.
  - cbn [fst] in *. by rewrite !fmap_cons, Hn1, Hn2.
Qed.

Lemma resolve_condition_predicate_ok c : resolves_predicate c.
Proof.
  induction c as [l IH|l IH|c IH|lhs rhs|s|node d] using ConditionPredicate_nested_ind; intros values r;
    cbn [resolve_condition_predicate].
  1,2: intros ([ps values'] & [Hps Hn]%(resolve_children_ok l values _ IH) & [= <-])%result_bind_Ok; cbn [fst snd] in *;
    (split; [|cbn [predicate_nodes condition_nodes]; by rewrite Hn]); intros Hok; destruct (Hps Hok) as (? & ? & ? & ?);
    (split_and!; [done..|by apply typed_children|done]).
  - intros ([p values'] & [Hp Hn]%IH & [= <-])%result_bind_Ok. split; [exact Hp|]. cbn in *. by rewrite Hn.
  - intros Hr. split; [by apply resolve_condition_equals_ok|].
    unfold resolve_condition_equals in Hr. repeat (apply result_bind_Ok in Hr as ([] & _ & Hr) || apply result_bind_Ok in Hr as (? & _ & Hr)); by simplify_eq.
  - intros Hr. split; [by apply resolve_condition_exists_ok|].
    unfold resolve_condition_exists in Hr. apply result_bind_Ok in Hr as ([[? ?] []] & _ & Hr); [done|].
    destruct (json_pointer_parse _); by simplify_eq.
  - intros (r' & Hr'%condition_target_role_Ok & [= <-])%result_bind_Ok. split; [|done].
    intros Hok. split_and!; [done..|by left].
Qed.

Lemma resolve_equals_operand_wf kind operand res values r :
  resolve_equals_operand node_name role kind operand res values = Ok r → bt_wf values → bt_wf r.2.
Proof.
  unfold resolve_equals_operand. destruct operand as [reference pointer|v], res as [res|]; try done.
  - intros [= <-]. apply bt_wf_insert.
  - destruct kind; [destruct v|]; try done; by intros [= <-].
  - destruct kind; [destruct v|]; try done; by intros [= <-].
Qed.

(** The values of a condition are a map. *)
Lemma resolve_condition_wf c values r :
  resolve_condition_predicate node_name role document (required_inputs document) c values = Ok r →
  bt_wf values → bt_wf r.2.
Proof.
  revert values r. induction c as [l IH|l IH|c IH|lhs rhs|s|node d] using ConditionPredicate_nested_ind; intros values r;
    cbn [resolve_condition_predicate].
  1,2: intros ([ps values'] & Hps & [= <-])%result_bind_Ok; cbn [snd];
    change (resolve_children l values = Ok (ps, values')) in Hps; revert values ps values' Hps;
    induction IH as [|c l Hc _ IHl]; intros values ps values'; cbn [resolve_children]; [by intros [= <- <-]|];
    intros ([p values1] & Hp & ([ps' values2] & Hps' & [= <- <-])%result_bind_Ok)%result_bind_Ok Hwf;
    eapply IHl; [exact Hps'|]; exact (Hc _ _ Hp Hwf).
  - intros ([p values'] & Hp & [= <-])%result_bind_Ok. exact (IH _ _ Hp).
  - unfold resolve_condition_equals.
    intros (lr & _ & (rr & _ & (kind & _ & ([lo values1] & H1 & ([ro values2] & H2 & [= <-])%result_bind_Ok)%result_bind_Ok)
      %result_bind_Ok)%result_bind_Ok)%result_bind_Ok Hwf.
    eapply (resolve_equals_operand_wf _ _ _ _ (ro, values2)), (resolve_equals_operand_wf _ _ _ _ (lo, values1)); done.
  - unfold resolve_condition_exists. intros ([[c source] []] & _ & Hr)%result_bind_Ok; [done|].
    destruct (json_pointer_parse _); [|done]. injection Hr as <-. apply bt_wf_insert.
  - by intros (r' & _ & [= <-])%result_bind_Ok.
Qed.

(** The nodes a condition names are the targets of its predicate. *)
Lemma resolve_condition_targets c values r :
  resolve_condition_predicate node_name role document (required_inputs document) c values = Ok r →
  node_id <$> predicate_targets r.1 = condition_targets c.
Proof.
  revert values r. induction c as [l IH|l IH|c IH|lhs rhs|s|node d] using ConditionPredicate_nested_ind; intros values r;
    cbn [resolve_condition_predicate condition_targets].
  1,2: intros ([ps values'] & Hps & [= <-])%result_bind_Ok; cbn [fst predicate_targets];
    change (resolve_children l values = Ok (ps, values')) in Hps; revert values ps values' Hps;
    induction IH as [|c l Hc _ IHl]; intros values ps values'; cbn [resolve_children]; [by intros [= <- <-]|];
    intros ([p values1] & Hp%Hc & ([ps' values2] & Hps'%IHl & [= <- <-])%result_bind_Ok)%result_bind_Ok;
    cbn [flat_map fst] in *; by rewrite fmap_app, Hp, Hps'.
  - intros ([p values'] & Hp%IH & [= <-])%result_bind_Ok. exact Hp.
  - intros Hr. unfold resolve_condition_equals in Hr.
    repeat (apply result_bind_Ok in Hr as ([] & _ & Hr) || apply result_bind_Ok in Hr as (? & _ & Hr)); by simplify_eq.
  - intros Hr. unfold resolve_condition_exists in Hr. apply result_bind_Ok in Hr as ([[? ?] []] & _ & Hr); [done|].
    destruct (json_pointer_parse _); by simplify_eq.
  - by intros (r' & _ & [= <-])%result_bind_Ok.
Qed.
End node.
End typing.

(** ** Evaluation *)

Definition captured_kind (v : CapturedConditionValue) : ConditionValueKind :=
  match v with CapturedText _ => KindText | CapturedJson _ => KindJson end.

(** Every source has a value of its kind. *)
Definition provides (document : WorkflowDocument) (values : ConditionValues) (sources : btree ResolvedValueSource) : Prop :=
  ∀ c source kind, bt_get sources c = Some source → source_kind document source = Some kind →
    ∃ v, values !! c = Some v ∧ captured_kind v = kind.

Section evaluation.
Context (document : WorkflowDocument) (sources : btree ResolvedValueSource).
Context (values : ConditionValues) (dispositions : ConditionDispositions).
Context (Hvalues : provides document values sources).

(** A failed evaluation names one of the references given, a JSON source, and
    a well-formed pointer. *)
Definition failure_ok (pointers : list string) (e : EvaluationFailure) : Prop :=
  match e with
  | PointerMissing c pointer =>
      read_at document sources c KindJson ∧ is_Some (json_pointer_parse pointer) ∧ c ∈ pointers
  | Unavailable _ => False
  end.

Definition succeeds_or {T} (pointers : list string) (r : result T EvaluationFailure) : Prop :=
  match r with Ok _ => True | Err e => failure_ok pointers e end.

Lemma succeeds_or_mono {T} pointers pointers' (r : result T EvaluationFailure) :
  pointers ⊆ pointers' → succeeds_or pointers r → succeeds_or pointers' r.
Proof. intros Hsub. destruct r as [|[]]; simpl; [done| |done]. intros (? & ? & ?). auto. Qed.

Lemma resolve_operand_typed o :
  operand_typed document sources o → succeeds_or (operand_pointers o) (resolve_operand o values).
Proof.
  unfold operand_typed, resolve_operand, operand_pointers. destruct (ro_value o) as [c pointer|t|v]; [|done..].
  intros [Hread Hp]. pose proof Hread as (source & Hs & Hk).
  destruct (Hvalues c source _ Hs Hk) as (v & Hv & Hkind). rewrite Hv.
  destruct (ro_kind o), v; try done. destruct pointer as [p|]; [|done]. destruct (Hp p eq_refl) as [_ Hparse].
  destruct (json_pointer_select p value); [done|]. split_and!; [done|eauto|by left].
Qed.

Abbreviation evaluates pointers p :=
  (∀ path trace, succeeds_or pointers (evaluate_predicate values dispositions p path trace)).

Lemma evaluate_children_typed pointers l path index trace :
  Forall (λ p, evaluates pointers p) l →
  succeeds_or pointers (evaluate_all values dispositions path index l trace)
  ∧ succeeds_or pointers (evaluate_any values dispositions path index l trace).
Proof.
  intros Hl. revert index trace. induction Hl as [|p l Hp Hl IH]; intros index trace; [done|].
  cbn [evaluate_all evaluate_any]. split.
  - specialize (Hp (path_child path ("all/" ++ to_string (N.of_nat index))%string) trace).
    destruct (evaluate_predicate _ _ p _ _) as [[[] trace1]|e]; cbn [result_bind]; [apply IH|done..].
  - specialize (Hp (path_child path ("any/" ++ to_string (N.of_nat index))%string) trace).
    destruct (evaluate_predicate _ _ p _ _) as [[[] trace1]|e]; cbn [result_bind]; [done|apply IH|done].
Qed.

Lemma evaluate_predicate_typed p :
  predicate_typed document sources p → (∀ n, n ∈ predicate_targets p → is_Some (dispositions !! n)) →
  evaluates (predicate_pointers p) p.
Proof.
  induction p as [l IH|l IH|q IH|l r|s|node d] using predicate_nested_ind; cbn [predicate_typed predicate_targets predicate_pointers].
  1,2: rewrite typed_children; intros Hl Ht path trace;
    assert (Forall (λ p, evaluates (flat_map predicate_pointers l) p) l) as Hch
      by (rewrite !Forall_forall in *; intros p Hin path' trace'; eapply succeeds_or_mono; [|apply IH; [done|by apply Hl|]];
          [intros c Hc; apply list_elem_of_In, in_flat_map; exists p; split; by apply list_elem_of_In|];
          intros n Hn; apply Ht, list_elem_of_In, in_flat_map; exists p; split; by apply list_elem_of_In).
  - rewrite evaluate_PAll. destruct (evaluate_children_typed _ l path 0 trace Hch) as [H1 _].
    by destruct (evaluate_all _ _ _ _ _ _) as [[]|].
  - rewrite evaluate_PAny. destruct (evaluate_children_typed _ l path 0 trace Hch) as [_ H1].
    by destruct (evaluate_any _ _ _ _ _ _) as [[]|].
  - intros Hq Ht path trace. cbn [evaluate_predicate]. specialize (IH Hq Ht (path_child path "not"%string) trace).
    by destruct (evaluate_predicate _ _ q _ _) as [[]|].
  - intros (Hl & Hr & _) _ path trace. cbn [evaluate_predicate].
    apply resolve_operand_typed in Hl, Hr.
    eapply (succeeds_or_mono _ (operand_pointers l ++ operand_pointers r)) in Hl, Hr; [|set_solver..].
    destruct (resolve_operand l values); [|done]. by destruct (resolve_operand r values).
  - intros (source & Hs & Hk) _ path trace. cbn [evaluate_predicate]. unfold resolve_json_reference.
    destruct (Hvalues _ _ _ Hs Hk) as (v & -> & Hkind). by destruct v.
  - intros _ Ht path trace. cbn [evaluate_predicate]. destruct (Ht node) as [x ->]; [by left|]. done.
Qed.
End evaluation.
