(* ===== verification/CancellationSource.v ===== *)
(** * Cancellation requests ([admission.rs])

    The queue of cancellation operations that a run's [CancellationSource]
    keeps under a mutex, the two watch channels it publishes on, and the
    subscription the coordinator reads.  A method is split where the source
    splits it: what it does under the lock is one function on the queue, and
    the messages it sends after unlocking are a list, so that other threads
    can run in between. *)

From S2P Require Import Prelude Text Nodes Runtime.

(** ** The queue *)

Inductive CancellationOperation :=
| OpGraceful (id : CancellationOperationId) (reason : CancellationReason)
| OpOrdinaryOnly (id : CancellationOperationId) (reason : CancellationReason)
| OpForceAbort (id : CancellationOperationId).

Inductive OrdinaryCancellationRequestResult := Applied | AlreadyRequested | FinalizersPreserved.

Record CancellationOperationState := {
  cos_operations : list CancellationOperation;
  cos_next_id : N;
  cos_finalization_arming : bool;
  cos_finalization_armed : bool;
  cos_pending_finalization_reason : option CancellationReason;
  cos_pending_force_abort : bool;
  cos_phase_reason : option CancellationReason;
  cos_force_abort_requested : bool
}.

Definition cancellation_operation_state_default : CancellationOperationState :=
  {| cos_operations := []; cos_next_id := 1; cos_finalization_arming := false; cos_finalization_armed := false;
     cos_pending_finalization_reason := None; cos_pending_force_abort := false;
     cos_phase_reason := None; cos_force_abort_requested := false |}.

(** What a method sends once it has released the lock. *)
Inductive Publication :=
| SendReason (reason : option CancellationReason)
| SendVersion (version : N).

(** [u64::try_from(len).unwrap_or(u64::MAX)]. *)
Definition operations_version (st : CancellationOperationState) : N :=
  N.min u64_max (N.of_nat (length (cos_operations st))).

(** Taking the next identifier and pushing the operation it names. *)
Definition push_operation (operation : CancellationOperationId → CancellationOperation)
    (phase_reason : option CancellationReason) (force_abort : bool) (st : CancellationOperationState)
    : CancellationOperationState :=
  {| cos_operations := (cos_operations st ++ [operation (cos_next_id st)])%list;
     cos_next_id := saturating_add u64_max (cos_next_id st) 1;
     cos_finalization_arming := cos_finalization_arming st;
     cos_finalization_armed := cos_finalization_armed st;
     cos_pending_finalization_reason := cos_pending_finalization_reason st;
     cos_pending_force_abort := cos_pending_force_abort st;
     cos_phase_reason := phase_reason;
     cos_force_abort_requested := force_abort || cos_force_abort_requested st |}.

Definition set_pending (reason : option CancellationReason) (force_abort : bool) (st : CancellationOperationState)
    : CancellationOperationState :=
  {| cos_operations := cos_operations st; cos_next_id := cos_next_id st;
     cos_finalization_arming := cos_finalization_arming st;
     cos_finalization_armed := cos_finalization_armed st;
     cos_pending_finalization_reason := reason; cos_pending_force_abort := force_abort;
     cos_phase_reason := cos_phase_reason st; cos_force_abort_requested := cos_force_abort_requested st |}.

Definition set_arming (arming armed : bool) (phase_reason : option CancellationReason)
    (st : CancellationOperationState) : CancellationOperationState :=
  {| cos_operations := cos_operations st; cos_next_id := cos_next_id st;
     cos_finalization_arming := arming; cos_finalization_armed := armed;
     cos_pending_finalization_reason := cos_pending_finalization_reason st;
     cos_pending_force_abort := cos_pending_force_abort st;
     cos_phase_reason := phase_reason; cos_force_abort_requested := cos_force_abort_requested st |}.

(** ** The methods *)

Definition is_some {A} (o : option A) : bool := match o with Some _ => true | None => false end.

Definition request_cancellation (reason : CancellationReason) (st : CancellationOperationState)
    : bool * list Publication * CancellationOperationState :=
  if bool_decide (reason = ForceAbort) then (false, [], st)
  else if cos_finalization_arming st then
    if is_some (cos_pending_finalization_reason st) || cos_pending_force_abort st then (false, [], st)
    else (true, [], set_pending (Some reason) (cos_pending_force_abort st) st)
  else if is_some (cos_phase_reason st) || cos_force_abort_requested st then (false, [], st)
  else
    let st := push_operation (λ id, OpGraceful id reason) (Some reason) false st in
    (true, [SendReason (Some reason); SendVersion (operations_version st)], st).

Definition request_ordinary_cancellation (reason : CancellationReason) (st : CancellationOperationState)
    : OrdinaryCancellationRequestResult * list Publication * CancellationOperationState :=
  if bool_decide (reason = ForceAbort) then (AlreadyRequested, [], st)
  else if cos_finalization_arming st || cos_finalization_armed st then (FinalizersPreserved, [], st)
  else if is_some (cos_phase_reason st) || cos_force_abort_requested st then (AlreadyRequested, [], st)
  else
    let st := push_operation (λ id, OpOrdinaryOnly id reason) (Some reason) false st in
    (Applied, [SendReason (Some reason); SendVersion (operations_version st)], st).

Definition request_force_abort (st : CancellationOperationState)
    : bool * list Publication * CancellationOperationState :=
  if cos_finalization_arming st then
    if cos_force_abort_requested st || cos_pending_force_abort st then (false, [], st)
    else (true, [], set_pending (cos_pending_finalization_reason st) true st)
  else if cos_force_abort_requested st then (false, [], st)
  else
    let closed_open_gate := negb (is_some (cos_phase_reason st)) in
    let phase_reason := if closed_open_gate then Some ForceAbort else cos_phase_reason st in
    let st := push_operation OpForceAbort phase_reason true st in
    (true,
     (if closed_open_gate then [SendReason (Some ForceAbort)] else []) ++ [SendVersion (operations_version st)],
     st)%list.

Definition begin_finalization_arm (st : CancellationOperationState) : bool * CancellationOperationState :=
  if cos_finalization_arming st || cos_finalization_armed st then (false, st)
  else (true, set_arming true (cos_finalization_armed st) (cos_phase_reason st) st).

Definition complete_finalization_arm (st : CancellationOperationState)
    : bool * list Publication * CancellationOperationState :=
  if negb (cos_finalization_arming st) || cos_finalization_armed st then (false, [], st)
  else
    let st := set_arming false true None st in
    let previous_operations := length (cos_operations st) in
    let reason := cos_pending_finalization_reason st in
    let st := set_pending None (cos_pending_force_abort st) st in
    let st := match reason with
              | Some reason => push_operation (λ id, OpGraceful id reason) (Some reason) false st
              | None => st
              end in
    let st := if cos_pending_force_abort st && negb (cos_force_abort_requested st) then
                let st := set_pending (cos_pending_finalization_reason st) false st in
                push_operation OpForceAbort
                  (match cos_phase_reason st with Some reason => Some reason | None => Some ForceAbort end) true st
              else st in
    (true,
     SendReason (cos_phase_reason st)
     :: (if decide (previous_operations < length (cos_operations st))
         then [SendVersion (operations_version st)] else []),
     st).

Definition abort_finalization_arm (st : CancellationOperationState) : bool * CancellationOperationState :=
  if negb (cos_finalization_arming st) || cos_finalization_armed st then (false, st)
  else (true, set_pending None false (set_arming false (cos_finalization_armed st) (cos_phase_reason st) st)).

Definition finalization_cancellation_requested (st : CancellationOperationState) : bool :=
  cos_finalization_armed st && is_some (cos_phase_reason st)
  || cos_finalization_arming st && is_some (cos_pending_finalization_reason st).

(** ** The subscription *)

(** The watch channels of tokio.  A receiver remembers what it has seen:
    [has_changed] tells whether a [send_replace] came later, and
    [changed().await] completes when it does. *)
Class Watch (T : Type) := {
  WatchChannel : Type;
  WatchReceiver : Type;
  watch_channel : T → WatchChannel;
  send_replace : T → WatchChannel → WatchChannel;
  borrow : WatchChannel → T;
  subscribe : WatchChannel → WatchReceiver;
  borrow_and_update : WatchChannel → WatchReceiver → WatchReceiver;
  has_changed : WatchChannel → WatchReceiver → bool
}.

(** What the documentation of the channel promises of its receivers. *)
Class WatchLaws (T : Type) `{!Watch T} := {
  receives : WatchChannel → WatchReceiver → Prop;
  borrow_channel v : borrow (watch_channel v) = v;
  borrow_send v c : borrow (send_replace v c) = v;
  receives_subscribe c : receives c (subscribe c);
  receives_send v c r : receives c r → receives (send_replace v c) r;
  receives_update c r : receives c r → receives c (borrow_and_update c r);
  changed_send v c r : receives c r → has_changed (send_replace v c) r = true
}.

(** [CancellationOperationSubscription::next_operation], its part under the
    lock; when it returns an operation the receiver is marked up to date. *)
Definition next_operation (st : CancellationOperationState) (next_index : nat) : option CancellationOperation * nat :=
  match cos_operations st !! next_index with
  | Some operation => (Some operation, S next_index)
  | None => (None, next_index)
  end.

Definition next_operation_available (st : CancellationOperationState) (next_index : nat) : bool :=
  bool_decide (next_index < length (cos_operations st)).
