(* ===== verification/CancellationQueue.v ===== *)
(** * The cancellation queue: what its users may rely on

    The queue seen by threads that run at the same time: the threads that
    request cancellation, the coordinator that arms finalization, and the
    subscription that takes operations.  The lock makes the queue's methods
    atomic; the messages that follow are sent one by one, in any
    interleaving. *)

From S2P Require Import Prelude Text Nodes Runtime CancellationSource.

(** ** The invariant of the queue *)

Definition operation_id (operation : CancellationOperation) : CancellationOperationId :=
  match operation with OpGraceful id _ | OpOrdinaryOnly id _ | OpForceAbort id => id end.

Definition is_force (operation : CancellationOperation) : bool :=
  match operation with OpForceAbort _ => true | _ => false end.

Definition forces (l : list CancellationOperation) : nat := length (List.filter is_force l).
Definition graceful (l : list CancellationOperation) : nat := length (List.filter (negb ∘ is_force) l).

Lemma forces_graceful l : forces l + graceful l = length l.
Proof. unfold forces, graceful, compose. induction l as [|[] l IH]; simpl; lia. Qed.

Lemma forces_snoc l o : forces (l ++ [o])%list = forces l + (if is_force o then 1 else 0).
Proof. unfold forces. rewrite List.filter_app, length_app. simpl. by destruct (is_force o). Qed.

Lemma graceful_snoc l o : graceful (l ++ [o])%list = graceful l + (if is_force o then 0 else 1).
Proof. unfold graceful, compose. rewrite List.filter_app, length_app. simpl. by destruct (is_force o). Qed.

(** Identifiers are consecutive; a force abort is queued once; a phase queues
    one other operation; requests wait only while finalization is being
    armed. *)
Record queue_ok (st : CancellationOperationState) : Prop := {
  queue_ids : operation_id <$> cos_operations st = N.of_nat <$> seq 1 (length (cos_operations st));
  queue_next : cos_next_id st = N.of_nat (S (length (cos_operations st)));
  queue_forces : forces (cos_operations st) = if cos_force_abort_requested st then 1 else 0;
  queue_graceful : graceful (cos_operations st)
    <= (if cos_finalization_armed st then 1 else 0) + (if is_some (cos_phase_reason st) then 1 else 0);
  queue_phase : cos_force_abort_requested st = true → cos_finalization_armed st = false →
    is_some (cos_phase_reason st) = true;
  queue_armed : cos_finalization_armed st = true → cos_finalization_arming st = false;
  queue_pending : cos_finalization_arming st = false →
    cos_pending_finalization_reason st = None ∧ cos_pending_force_abort st = false;
  queue_pending_force : cos_pending_force_abort st = true → cos_force_abort_requested st = false
}.

Lemma queue_ok_length st : queue_ok st → length (cos_operations st) <= 3.
Proof.
  intros H. rewrite <-forces_graceful, (queue_forces _ H). pose proof (queue_graceful _ H).
  destruct (cos_force_abort_requested st), (cos_finalization_armed st), (is_some (cos_phase_reason st)); lia.
Qed.

Lemma queue_ok_default : queue_ok cancellation_operation_state_default.
Proof. by split. Qed.

(** Pushing keeps the numbering. *)
Lemma push_ids st operation phase force :
  (∀ id, operation_id (operation id) = id) → queue_ok st →
  let st' := push_operation operation phase force st in
  operation_id <$> cos_operations st' = N.of_nat <$> seq 1 (length (cos_operations st'))
  ∧ cos_next_id st' = N.of_nat (S (length (cos_operations st'))).
Proof.
  intros Hid H. pose proof (queue_ok_length _ H) as Hlen. cbn [push_operation cos_operations cos_next_id].
  rewrite fmap_app, length_app, (queue_ids _ H), (queue_next _ H). cbn [length]. rewrite Nat.add_1_r, seq_S, fmap_app.
  cbn [fmap list_fmap]. rewrite Hid. split; [f_equal; f_equal; f_equal; lia|].
  unfold saturating_add, u64_max. lia.
Qed.

(** The methods of the source, by what they do to the queue. *)
Inductive Method :=
| RequestCancellation (reason : CancellationReason)
| RequestOrdinaryCancellation (reason : CancellationReason)
| RequestForceAbort
| BeginFinalizationArm
| CompleteFinalizationArm
| AbortFinalizationArm.

Definition run_method (m : Method) (st : CancellationOperationState)
    : list Publication * CancellationOperationState :=
  match m with
  | RequestCancellation reason => let '(_, p, st') := request_cancellation reason st in (p, st')
  | RequestOrdinaryCancellation reason => let '(_, p, st') := request_ordinary_cancellation reason st in (p, st')
  | RequestForceAbort => let '(_, p, st') := request_force_abort st in (p, st')
  | BeginFinalizationArm => ([], (begin_finalization_arm st).2)
  | CompleteFinalizationArm => let '(_, p, st') := complete_finalization_arm st in (p, st')
  | AbortFinalizationArm => ([], (abort_finalization_arm st).2)
  end.

Lemma push_ok st operation phase force :
  (∀ id, operation_id (operation id) = id) → (∀ id, is_force (operation id) = force) →
  queue_ok st → is_some phase = true →
  (if force then cos_force_abort_requested st = false ∧ cos_pending_force_abort st = false
   else is_some (cos_phase_reason st) = false) →
  (is_some (cos_phase_reason st) = true → is_some phase = true) →
  queue_ok (push_operation operation phase force st).
Proof.
  intros Hid Hforce H Hphase Hcond Hkeep. destruct (push_ids st operation phase force Hid H) as [Hids Hnext].
  destruct H as [_ _ Hf Hg Hph Harm Hpend Hpf].
  split; try done; cbn [push_operation cos_operations cos_next_id cos_finalization_arming cos_finalization_armed
    cos_pending_finalization_reason cos_pending_force_abort cos_phase_reason cos_force_abort_requested].
  - rewrite forces_snoc, Hforce, Hf. destruct force; simpl; [by rewrite (proj1 Hcond)|lia].
  - rewrite graceful_snoc, Hforce, Hphase. destruct force; [|rewrite Hcond in Hg];
      destruct (cos_finalization_armed st), (is_some (cos_phase_reason st)); simpl in *; lia.
  - destruct force; [by rewrite (proj2 Hcond)|]. intros Hp. simpl. by apply Hpf.
Qed.

Lemma request_cancellation_ok reason st : queue_ok st → queue_ok (request_cancellation reason st).2.
Proof.
  intros H. unfold request_cancellation. case_bool_decide; [done|].
  destruct (cos_finalization_arming st) eqn:Harm.
  - destruct (is_some _ || _) eqn:Hp; [done|]. destruct H. rewrite Harm in *. by split; cbn; rewrite ?Harm.
  - destruct (is_some (cos_phase_reason st) || _) eqn:Hp; [done|]. apply orb_false_iff in Hp as [Hp Hf].
    apply push_ok; done.
Qed.

Lemma request_ordinary_cancellation_ok reason st : queue_ok st → queue_ok (request_ordinary_cancellation reason st).2.
Proof.
  intros H. unfold request_ordinary_cancellation. case_bool_decide; [done|].
  destruct (cos_finalization_arming st || _); [done|].
  destruct (is_some (cos_phase_reason st) || _) eqn:Hp; [done|]. apply orb_false_iff in Hp as [Hp Hf].
  apply push_ok; done.
Qed.

Lemma request_force_abort_ok st : queue_ok st → queue_ok (request_force_abort st).2.
Proof.
  intros H. unfold request_force_abort. destruct (cos_finalization_arming st) eqn:Harm.
  - destruct (_ || _) eqn:Hp; [done|]. apply orb_false_iff in Hp as [Hp Hf]. destruct H. rewrite Harm in *. by split; cbn; rewrite ?Harm.
  - destruct (cos_force_abort_requested st) eqn:Hf; [done|].
    apply push_ok; try done; destruct (cos_phase_reason st) eqn:Hr; try done;
      (split; [done|]; by apply (queue_pending _ H)).
Qed.

Lemma complete_finalization_arm_ok st : queue_ok st → queue_ok (complete_finalization_arm st).2.
Proof.
  intros H. unfold complete_finalization_arm. destruct (negb _ || _) eqn:Hc; [done|].
  apply orb_false_iff in Hc as [Harm%negb_false_iff Hnot]. cbv zeta. cbn [snd].
  set (st1 := set_pending None (cos_pending_force_abort (set_arming false true None st)) (set_arming false true None st)).
  set (st2 := match cos_pending_finalization_reason (set_arming false true None st) with
              | Some reason => push_operation (λ id, OpGraceful id reason) (Some reason) false st1
              | None => st1 end).
  assert (Hg0 : graceful (cos_operations st) <= 1).
  { pose proof (queue_graceful _ H) as Hg. rewrite Hnot in Hg. destruct (is_some _); lia. }
  pose proof H as [Hids Hnext Hf Hg Hph _ _ Hpf].
  assert (H1 : queue_ok (set_pending None false st1)) by (split; cbn; try done; lia).
  assert (H2 : queue_ok (set_pending None false st2)).
  { unfold st2. cbn [set_arming cos_pending_finalization_reason]. destruct (cos_pending_finalization_reason st) as [reason|]; [|done].
    by apply (push_ok (set_pending None false st1) (λ id, OpGraceful id reason) (Some reason) false). }
  assert (Hflags : cos_pending_force_abort st2 = cos_pending_force_abort st
    ∧ cos_force_abort_requested st2 = cos_force_abort_requested st
    ∧ cos_pending_finalization_reason st2 = None)
    by (unfold st2; cbn; by destruct (cos_pending_finalization_reason st)).
  destruct Hflags as (Hpf2 & Hfr2 & Hpr2).
  destruct (cos_pending_force_abort st2) eqn:Hp.
  - rewrite (Hpf ltac:(congruence)) in Hfr2. rewrite Hfr2, Hpr2. cbn [andb negb].
    apply push_ok; try done; cbn [set_pending cos_phase_reason]; by destruct (cos_phase_reason st2).
  - cbn [andb]. assert (st2 = set_pending None false st2) as -> by (destruct st2; simpl in *; by subst). done.
Qed.

Lemma run_method_ok m st : queue_ok st → queue_ok (run_method m st).2.
Proof.
  intros H. destruct m as [reason|reason| | | |]; cbn [run_method].
  - pose proof (request_cancellation_ok reason st H). by destruct (request_cancellation reason st) as [[? ?] ?].
  - pose proof (request_ordinary_cancellation_ok reason st H). by destruct (request_ordinary_cancellation reason st) as [[? ?] ?].
  - pose proof (request_force_abort_ok st H). by destruct (request_force_abort st) as [[? ?] ?].
  - unfold begin_finalization_arm. cbn [snd]. destruct (_ || _) eqn:Hc; [done|]. apply orb_false_iff in Hc as [Ha Hd].
    destruct H. split; cbn; rewrite ?Hd in *; done.
  - pose proof (complete_finalization_arm_ok st H). by destruct (complete_finalization_arm st) as [[? ?] ?].
  - unfold abort_finalization_arm. cbn [snd]. destruct (_ || _) eqn:Hc; [done|]. destruct H. split; done.
Qed.

(** ** Threads *)

(** Where the subscriber is: outside its methods, in [next_operation] after
    the lock was released, or waiting in [changed]. *)
Inductive SubscriberState := SubIdle | SubMarking | SubWaiting.

Section threads.
Context `{!Watch (option CancellationReason), !Watch N}.

Record World := {
  w_queue : CancellationOperationState;
  w_reason : WatchChannel (T := option CancellationReason);
  w_version : WatchChannel (T := N);
  w_threads : list (list Publication);
  w_receiver : WatchReceiver (T := N);
  w_next_index : nat;
  w_subscriber : SubscriberState;
  w_delivered : list CancellationOperation
}.

(** A source, and a subscription made before any request. *)
Definition new_world : World :=
  let version := watch_channel 0%N in
  {| w_queue := cancellation_operation_state_default; w_reason := watch_channel None; w_version := version;
     w_threads := []; w_receiver := subscribe version; w_next_index := 0; w_subscriber := SubIdle;
     w_delivered := [] |}.

Definition publish (p : Publication) (w : World) : World :=
  {| w_queue := w_queue w;
     w_reason := match p with SendReason reason => send_replace reason (w_reason w) | SendVersion _ => w_reason w end;
     w_version := match p with SendVersion version => send_replace version (w_version w) | SendReason _ => w_version w end;
     w_threads := w_threads w; w_receiver := w_receiver w; w_next_index := w_next_index w;
     w_subscriber := w_subscriber w; w_delivered := w_delivered w |}.

Definition set_threads (threads : list (list Publication)) (w : World) : World :=
  {| w_queue := w_queue w; w_reason := w_reason w; w_version := w_version w; w_threads := threads;
     w_receiver := w_receiver w; w_next_index := w_next_index w; w_subscriber := w_subscriber w;
     w_delivered := w_delivered w |}.

(** A thread runs a method: the queue changes at once, the messages are left
    to be sent. *)
Definition call (m : Method) (w : World) : World :=
  let '(messages, queue) := run_method m (w_queue w) in
  {| w_queue := queue; w_reason := w_reason w; w_version := w_version w;
     w_threads := (w_threads w ++ [messages])%list; w_receiver := w_receiver w;
     w_next_index := w_next_index w; w_subscriber := w_subscriber w; w_delivered := w_delivered w |}.

Definition subscriber_update (receiver : WatchReceiver (T := N)) (next_index : nat) (s : SubscriberState)
    (delivered : list CancellationOperation) (w : World) : World :=
  {| w_queue := w_queue w; w_reason := w_reason w; w_version := w_version w; w_threads := w_threads w;
     w_receiver := receiver; w_next_index := next_index; w_subscriber := s; w_delivered := delivered |}.

(** [next_operation], up to the release of the lock. *)
Definition take_operation (w : World) : World :=
  match next_operation (w_queue w) (w_next_index w) with
  | (Some operation, next_index) =>
      subscriber_update (w_receiver w) next_index SubMarking (w_delivered w ++ [operation])%list w
  | (None, next_index) => subscriber_update (w_receiver w) next_index SubIdle (w_delivered w) w
  end.

(** The receiver is marked up to date. *)
Definition mark_seen (w : World) : World :=
  subscriber_update (borrow_and_update (w_version w) (w_receiver w)) (w_next_index w) SubIdle (w_delivered w) w.

(** [changed]: it returns when an operation is available, and waits for the
    channel otherwise. *)
Definition poll_changed (w : World) : World :=
  let s := if next_operation_available (w_queue w) (w_next_index w) then SubIdle else SubWaiting in
  subscriber_update (w_receiver w) (w_next_index w) s (w_delivered w) w.

Inductive world_step : relation World :=
| step_call m w : world_step w (call m w)
| step_send w before p messages after :
    w_threads w = (before ++ (p :: messages) :: after)%list →
    world_step w (publish p (set_threads (before ++ messages :: after)%list w))
| step_take w : w_subscriber w = SubIdle → world_step w (take_operation w)
| step_mark w : w_subscriber w = SubMarking → world_step w (mark_seen w)
| step_changed w : w_subscriber w = SubIdle → world_step w (poll_changed w)
| step_wake w :
    w_subscriber w = SubWaiting → has_changed (w_version w) (w_receiver w) = true → world_step w (mark_seen w)
| step_drop w :
    w_subscriber w = SubWaiting →
    world_step w (subscriber_update (w_receiver w) (w_next_index w) SubIdle (w_delivered w) w).

Definition world_reachable : World → Prop := rtc world_step new_world.

(** A message that will wake the subscriber is still to be sent. *)
Definition wakeup_pending (threads : list (list Publication)) : Prop :=
  ∃ messages version, messages ∈ threads ∧ SendVersion version ∈ messages.

Context `{!WatchLaws N}.

Record world_ok (w : World) : Prop := {
  world_queue : queue_ok (w_queue w);
  world_index : w_next_index w <= length (cos_operations (w_queue w));
  world_delivered : w_delivered w = take (w_next_index w) (cos_operations (w_queue w));
  world_receives : receives (w_version w) (w_receiver w);
  world_wakeup : w_subscriber w = SubWaiting → w_next_index w < length (cos_operations (w_queue w)) →
    wakeup_pending (w_threads w) ∨ has_changed (w_version w) (w_receiver w) = true
}.

(** A method that queues operations leaves a message that wakes the
    subscriber, and never removes one. *)
Lemma run_method_extends m st :
  let '(messages, st') := run_method m st in
  ∃ new, cos_operations st' = (cos_operations st ++ new)%list
    ∧ (new ≠ [] → ∃ version, SendVersion version ∈ messages).
Proof.
  assert (Hrefl : ∃ new, cos_operations st = (cos_operations st ++ new)%list
    ∧ (new ≠ [] → ∃ version, SendVersion version ∈ ([] : list Publication)))
    by (exists []; rewrite app_nil_r; done).
  destruct m as [reason|reason| | | |]; cbn [run_method].
  - unfold request_cancellation. case_bool_decide; [done|]. destruct (cos_finalization_arming st); [by destruct (_ || _)|]. destruct (_ || _); [done|].
    eexists. split; [reflexivity|]. intros _. eexists. rewrite !elem_of_cons. eauto.
  - unfold request_ordinary_cancellation. case_bool_decide; [done|]. destruct (_ || _); [done|]. destruct (_ || _); [done|].
    eexists. split; [reflexivity|]. intros _. eexists. rewrite !elem_of_cons. eauto.
  - unfold request_force_abort. destruct (cos_finalization_arming st); [by destruct (_ || _)|]. destruct (cos_force_abort_requested st); [done|].
    eexists. split; [reflexivity|]. intros _. eexists. rewrite elem_of_app, list_elem_of_singleton. eauto.
  - unfold begin_finalization_arm. by destruct (_ || _).
  - unfold complete_finalization_arm. destruct (negb _ || _); [done|]. cbv zeta.
    set (st1 := set_pending None _ _).
    set (st2 := match cos_pending_finalization_reason _ with Some _ => _ | None => _ end).
    set (st3 := if cos_pending_force_abort st2 && _ then _ else st2).
    assert (H2 : ∃ new, cos_operations st2 = (cos_operations st ++ new)%list).
    { unfold st2. destruct (cos_pending_finalization_reason _); cbn; [eauto|exists []; by rewrite app_nil_r]. }
    assert (H3 : ∃ new, cos_operations st3 = (cos_operations st ++ new)%list).
    { destruct H2 as [new Hnew]. unfold st3. destruct (_ && _); cbn; rewrite Hnew; [|eauto].
      rewrite <-app_assoc. eauto. }
    destruct H3 as [new Hnew]. exists new. split; [done|]. intros Hne. cbn [set_arming cos_operations].
    rewrite decide_True by (rewrite Hnew, length_app; destruct new; simpl in *; [done|lia]).
    eexists. rewrite !elem_of_cons. eauto.
  - unfold abort_finalization_arm. by destruct (_ || _).
Qed.

Lemma call_ok m w : world_ok w → world_ok (call m w).
Proof.
  intros [Hq Hi Hd Hr Hw]. unfold call. pose proof (run_method_ok m _ Hq) as Hq'.
  pose proof (run_method_extends m (w_queue w)) as Hext. destruct (run_method m (w_queue w)) as [messages queue].
  destruct Hext as (new & Hnew & Hwake). cbn [snd] in Hq'. split; cbn; try done.
  - rewrite Hnew, length_app. lia.
  - by rewrite Hnew, take_app_le.
  - intros Hsub Hlt. destruct (decide (new = [])) as [->|Hne].
    + rewrite Hnew, app_nil_r in Hlt. destruct (Hw Hsub Hlt) as [(ms & v & Hin & Hv)|]; [left|by right].
      exists ms, v. rewrite elem_of_app. eauto.
    + left. destruct (Hwake Hne) as [v Hv]. exists messages, v. rewrite elem_of_app, list_elem_of_singleton. eauto.
Qed.

Lemma send_ok w before p messages after :
  w_threads w = (before ++ (p :: messages) :: after)%list → world_ok w →
  world_ok (publish p (set_threads (before ++ messages :: after)%list w)).
Proof.
  intros Hth [Hq Hi Hd Hr Hw]. split; cbn; try done.
  - destruct p; [done|by apply receives_send].
  - intros Hsub Hlt. destruct p as [reason|version]; [|right; by apply changed_send].
    destruct (Hw Hsub Hlt) as [(ms & v & Hin & Hv)|]; [left|by right]. rewrite Hth in Hin.
    rewrite elem_of_app, elem_of_cons in Hin. destruct Hin as [Hin|[->|Hin]].
    + exists ms, v. rewrite elem_of_app. eauto.
    + apply elem_of_cons in Hv as [?|Hv]; [done|]. exists messages, v. rewrite elem_of_app, elem_of_cons. eauto.
    + exists ms, v. rewrite elem_of_app, elem_of_cons. eauto.
Qed.

Lemma take_ok w : world_ok w → world_ok (take_operation w).
Proof.
  intros [Hq Hi Hd Hr Hw]. unfold take_operation, next_operation.
  destruct (cos_operations (w_queue w) !! w_next_index w) as [o|] eqn:Ho; split; cbn; try done.
  - apply lookup_lt_Some in Ho. lia.
  - by rewrite Hd, <-(take_S_r _ _ _ Ho).
Qed.

Lemma world_step_ok w w' : world_step w w' → world_ok w → world_ok w'.
Proof.
  destruct 1 as [m w|w before p messages after Hth|w _|w _|w _|w _ _|w _]; intros Hok;
    [by apply call_ok|by apply send_ok|by apply take_ok|..];
    destruct Hok as [Hq Hi Hd Hr Hw]; (split; cbn; try done); try by apply receives_update.
  unfold next_operation_available. case_bool_decide; done.
Qed.

Lemma new_world_ok : world_ok new_world.
Proof. split; cbn; try done. apply receives_subscribe. Qed.

Lemma world_reachable_ok w : world_reachable w → world_ok w.
Proof.
  apply rtc_ind_r; [apply new_world_ok|]. intros. by eapply world_step_ok.
Qed.

(** The queue of operations stays small and ordered whatever threads
    call its methods: it never holds more than three operations, their
    identifiers are 1, 2, 3 in order, and at most one of them is a force
    abort. *)
Theorem cancellation_queue_bounded w :
  world_reachable w →
  length (cos_operations (w_queue w)) <= 3
  ∧ operation_id <$> cos_operations (w_queue w) = N.of_nat <$> seq 1 (length (cos_operations (w_queue w)))
  ∧ forces (cos_operations (w_queue w)) <= 1.
Proof.
  intros [Hq _ _ _ _]%world_reachable_ok. split; [by apply queue_ok_length|]. split; [by apply queue_ids|].
  rewrite (queue_forces _ Hq). destruct (cos_force_abort_requested _); lia.
Qed.

(** C28: the subscription delivers every operation once and in the order in
    which they were queued, in any interleaving of the threads. *)
Theorem operations_delivered_in_order w :
  world_reachable w →
  ∃ undelivered, cos_operations (w_queue w) = (w_delivered w ++ undelivered)%list
    ∧ length (w_delivered w) = w_next_index w.
Proof.
  intros [_ Hi Hd _ _]%world_reachable_ok. exists (drop (w_next_index w) (cos_operations (w_queue w))).
  rewrite Hd. split; [by rewrite take_drop|]. rewrite length_take. lia.
Qed.

(** C27: no wake-up is lost: when every thread has sent its messages and the
    subscriber waits on a channel that has not changed, there is nothing left
    to deliver. *)
Theorem no_lost_wakeup w :
  world_reachable w → w_subscriber w = SubWaiting → Forall (λ messages, messages = []) (w_threads w) →
  has_changed (w_version w) (w_receiver w) = false →
  w_delivered w = cos_operations (w_queue w).
Proof.
  intros [_ Hi Hd _ Hw]%world_reachable_ok Hsub Hdone Hseen. rewrite Hd. apply take_ge.
  destruct (decide (w_next_index w < length (cos_operations (w_queue w)))) as [Hlt|]; [|lia].
  destruct (Hw Hsub Hlt) as [(ms & v & Hin & Hv)|]; [|congruence]. rewrite Forall_forall in Hdone.
  rewrite (Hdone ms Hin) in Hv. by apply elem_of_nil in Hv.
Qed.
End threads.

(** ** A call without interruption *)

(** A method whose messages are sent before any other thread runs. *)
Definition source_call `{!Watch (option CancellationReason)} (m : Method)
    (source : CancellationOperationState * WatchChannel (T := option CancellationReason))
    : CancellationOperationState * WatchChannel (T := option CancellationReason) :=
  let '(messages, queue) := run_method m source.1 in
  (queue, foldl (λ c p, match p with SendReason reason => send_replace reason c | SendVersion _ => c end)
            source.2 messages).

(** As long as calls do not overlap, the reason that
    [cancellation_reason] reads is the reason of the current phase: none
    while it is open, the first one that closed it afterwards, and again
    none, or a request that was waiting, when finalization is armed. *)
Lemma reason_mirrors_phase `{!Watch (option CancellationReason), !WatchLaws (option CancellationReason)} methods :
  let source := foldl (λ s m, source_call m s)
                  (cancellation_operation_state_default, watch_channel None) methods in
  borrow source.2 = cos_phase_reason source.1.
Proof.
  set (s0 := (cancellation_operation_state_default, watch_channel None)).
  assert (H0 : borrow s0.2 = cos_phase_reason s0.1) by apply borrow_channel.
  revert H0. generalize s0. induction methods as [|m methods IH]; intros [queue channel] H0; [done|].
  cbn [foldl]. apply IH. unfold source_call. cbn [fst snd] in *.
  destruct m as [reason|reason| | | |]; cbn [run_method].
  - unfold request_cancellation. case_bool_decide; [done|]. destruct (cos_finalization_arming queue); [by destruct (_ || _)|].
    destruct (_ || _); [done|]. cbn. apply borrow_send.
  - unfold request_ordinary_cancellation. case_bool_decide; [done|]. destruct (_ || _); [done|]. destruct (_ || _); [done|].
    cbn. apply borrow_send.
  - unfold request_force_abort. destruct (cos_finalization_arming queue); [by destruct (_ || _)|].
    destruct (cos_force_abort_requested queue); [done|]. destruct (cos_phase_reason queue) eqn:Hr; [done|]. cbn. apply borrow_send.
  - unfold begin_finalization_arm. by destruct (_ || _).
  - unfold complete_finalization_arm. destruct (negb _ || _); [done|]. cbv zeta. destruct (decide _); cbn; apply borrow_send.
  - unfold abort_finalization_arm. by destruct (_ || _).
Qed.

(** ** A channel that counts what was sent *)

#[export] Instance counting_watch T : Watch T := {|
  WatchChannel := T * nat;
  WatchReceiver := nat;
  watch_channel v := (v, 0);
  send_replace v c := (v, S c.2);
  borrow c := c.1;
  subscribe c := c.2;
  borrow_and_update c _ := c.2;
  has_changed c r := bool_decide (r < c.2)
|}.

#[export] Instance counting_watch_laws T : WatchLaws T.
Proof.
  unshelve econstructor; [exact (λ (c : T * nat) (r : nat), r <= c.2)|..]; cbn; try done; try lia.
  intros. apply bool_decide_eq_true. lia.
Defined.

(** A cancellation, a force abort and the subscriber that takes both; the
    thread of the force abort is the first to send. *)
Definition interleaving : World :=
  let w := call RequestForceAbort (call (RequestCancellation UserRequest) (poll_changed new_world)) in
  let w := publish (SendVersion 2) (set_threads [[SendReason (Some UserRequest); SendVersion 1]; []] w) in
  let w := mark_seen w in
  let w := mark_seen (take_operation (mark_seen (take_operation w))) in
  let w := publish (SendReason (Some UserRequest)) (set_threads [[SendVersion 1]; []] w) in
  let w := publish (SendVersion 1) (set_threads [[]; []] w) in
  poll_changed (mark_seen (poll_changed w)).

Lemma interleaving_reachable : world_reachable interleaving.
Proof.
  unfold world_reachable, interleaving.
  eapply rtc_l; [apply step_changed; reflexivity|]. eapply rtc_l; [apply (step_call (RequestCancellation UserRequest))|].
  eapply rtc_l; [apply (step_call RequestForceAbort)|].
  eapply rtc_l; [apply (step_send _ [[SendReason (Some UserRequest); SendVersion 1]] (SendVersion 2) [] []); reflexivity|].
  eapply rtc_l; [apply step_wake; reflexivity|]. eapply rtc_l; [apply step_take; reflexivity|].
  eapply rtc_l; [apply step_mark; reflexivity|]. eapply rtc_l; [apply step_take; reflexivity|].
  eapply rtc_l; [apply step_mark; reflexivity|].
  eapply rtc_l; [apply (step_send _ [] (SendReason (Some UserRequest)) [SendVersion 1] [[]]); reflexivity|].
  eapply rtc_l; [apply (step_send _ [] (SendVersion 1) [] [[]]); reflexivity|].
  eapply rtc_l; [apply step_changed; reflexivity|]. eapply rtc_l; [apply step_wake; reflexivity|].
  eapply rtc_l; [apply step_changed; reflexivity|]. apply rtc_refl.
Qed.

Lemma cancellation_queue_bounded_witness :
  cos_operations (w_queue interleaving) = [OpGraceful 1 UserRequest; OpForceAbort 2]
  ∧ forces (cos_operations (w_queue interleaving)) <= 1.
Proof.
  split; [vm_compute; reflexivity|].
  exact (proj2 (proj2 (cancellation_queue_bounded interleaving interleaving_reachable))).
Defined.

Lemma operations_delivered_in_order_witness :
  ∃ undelivered, cos_operations (w_queue interleaving) = (w_delivered interleaving ++ undelivered)%list
    ∧ length (w_delivered interleaving) = w_next_index interleaving.
Proof. exact (operations_delivered_in_order interleaving interleaving_reachable). Defined.

Lemma no_lost_wakeup_witness : w_delivered interleaving = cos_operations (w_queue interleaving).
Proof.
  apply no_lost_wakeup.
  - exact interleaving_reachable.
  - vm_compute. reflexivity.
  - repeat constructor.
  - vm_compute. reflexivity.
Defined.

Lemma reason_mirrors_phase_witness :
  let source := foldl (λ s m, source_call m s) (cancellation_operation_state_default, watch_channel None)
                  [RequestCancellation UserRequest; BeginFinalizationArm; RequestForceAbort; CompleteFinalizationArm] in
  cos_phase_reason source.1 = Some ForceAbort ∧ borrow source.2 = cos_phase_reason source.1.
Proof.
  split; [vm_compute; reflexivity|].
  exact (reason_mirrors_phase [RequestCancellation UserRequest; BeginFinalizationArm; RequestForceAbort; CompleteFinalizationArm]).
Defined.
