(* ===== verification/Reducer.v ===== *)
(** * The operations of the workflow reducer ([runtime.rs])

    Every function of the source between [initialize_seeded_definition] and
    [next_sequence], in dependency order.  A function that takes
    [&mut Reduction] is a function on [Reduction]; one that also returns a
    value returns a pair.  [get_mut] followed by an assignment is [alter], so
    an absent node is left alone exactly as in the source.

    The loops carry fuel: the propagation and condition loops one unit more
    than the nodes they range over, [stabilize] one unit more than the
    transitions that are left. *)

From S2P Require Import Prelude Text Nodes Evidence Condition Validated Runtime.

Section reducer.
Context {Provisional Cause Output Deadline : Type}.
Context `{!SerdeJson, !NodeFailureSource Cause, !ConditionOutput Output,
          !ProvisionalStepResources Provisional}.

Local Abbreviation State := (RuntimeState Cause Output Deadline).
Local Abbreviation Red := (Reduction Provisional Cause Output Deadline).
Local Abbreviation Step := (StepRuntimeState Cause Output).
Local Abbreviation Req := (RequestedAction Provisional Cause Output Deadline).

Implicit Types (st : State) (r : Red) (x : Step) (s : string).

(** ** Field updates *)

Definition set_state (v : StepState Output) x : Step :=
  {| ss_state := v; ss_current_action := ss_current_action x; ss_target_execution := ss_target_execution x;
     ss_target_invocation := ss_target_invocation x; ss_active_invocation := ss_active_invocation x;
     ss_recovery := ss_recovery x; ss_condition_passed := ss_condition_passed x |}.

Definition set_action (v : option ActionId) x : Step :=
  {| ss_state := ss_state x; ss_current_action := v; ss_target_execution := ss_target_execution x;
     ss_target_invocation := ss_target_invocation x; ss_active_invocation := ss_active_invocation x;
     ss_recovery := ss_recovery x; ss_condition_passed := ss_condition_passed x |}.

Definition set_target_execution (v : option TargetExecutionNumber) x : Step :=
  {| ss_state := ss_state x; ss_current_action := ss_current_action x; ss_target_execution := v;
     ss_target_invocation := ss_target_invocation x; ss_active_invocation := ss_active_invocation x;
     ss_recovery := ss_recovery x; ss_condition_passed := ss_condition_passed x |}.

Definition set_target_invocation (v : option ActionId) x : Step :=
  {| ss_state := ss_state x; ss_current_action := ss_current_action x;
     ss_target_execution := ss_target_execution x; ss_target_invocation := v;
     ss_active_invocation := ss_active_invocation x;
     ss_recovery := ss_recovery x; ss_condition_passed := ss_condition_passed x |}.

Definition set_active_invocation (v : option ActiveStepInvocation) x : Step :=
  {| ss_state := ss_state x; ss_current_action := ss_current_action x;
     ss_target_execution := ss_target_execution x; ss_target_invocation := ss_target_invocation x;
     ss_active_invocation := v; ss_recovery := ss_recovery x; ss_condition_passed := ss_condition_passed x |}.

Definition set_recovery (v : option (StepRecoveryState Cause)) x : Step :=
  {| ss_state := ss_state x; ss_current_action := ss_current_action x;
     ss_target_execution := ss_target_execution x; ss_target_invocation := ss_target_invocation x;
     ss_active_invocation := ss_active_invocation x; ss_recovery := v;
     ss_condition_passed := ss_condition_passed x |}.

Definition set_condition_passed (v : bool) x : Step :=
  {| ss_state := ss_state x; ss_current_action := ss_current_action x;
     ss_target_execution := ss_target_execution x; ss_target_invocation := ss_target_invocation x;
     ss_active_invocation := ss_active_invocation x; ss_recovery := ss_recovery x;
     ss_condition_passed := v |}.

Definition set_rounds (v : list (RecoveryRoundRecord Cause)) (y : StepRecoveryState Cause) :=
  {| sr_configured_rounds := sr_configured_rounds y; sr_handler_kind := sr_handler_kind y;
     sr_rounds := v; sr_terminal_disposition := sr_terminal_disposition y |}.

Definition set_terminal_disposition (v : option RecoveryTerminalDisposition) (y : StepRecoveryState Cause) :=
  {| sr_configured_rounds := sr_configured_rounds y; sr_handler_kind := sr_handler_kind y;
     sr_rounds := sr_rounds y; sr_terminal_disposition := v |}.

Definition set_handler (v : option (RecoveryHandlerRecord Cause)) (y : RecoveryRoundRecord Cause) :=
  {| rrr_number := rrr_number y; rrr_failed_execution := rrr_failed_execution y; rrr_handler := v |}.

Definition set_steps (v : gmap string Step) st : State :=
  {| rs_definition := rs_definition st; rs_workflow := rs_workflow st; rs_steps := v;
     rs_output_producers := rs_output_producers st; rs_exports := rs_exports st;
     rs_finalization_summary := rs_finalization_summary st; rs_finalization := rs_finalization st;
     rs_force_abort := rs_force_abort st;
     rs_last_cancellation_operation := rs_last_cancellation_operation st;
     rs_last_transition_sequence := rs_last_transition_sequence st;
     rs_transition_capacity_exceeded := rs_transition_capacity_exceeded st |}.

Definition set_workflow (v : WorkflowState Deadline) st : State :=
  {| rs_definition := rs_definition st; rs_workflow := v; rs_steps := rs_steps st;
     rs_output_producers := rs_output_producers st; rs_exports := rs_exports st;
     rs_finalization_summary := rs_finalization_summary st; rs_finalization := rs_finalization st;
     rs_force_abort := rs_force_abort st;
     rs_last_cancellation_operation := rs_last_cancellation_operation st;
     rs_last_transition_sequence := rs_last_transition_sequence st;
     rs_transition_capacity_exceeded := rs_transition_capacity_exceeded st |}.

Definition set_exports (v : option (ExportSet Output)) (w : option (FinalizationSummary Deadline)) st : State :=
  {| rs_definition := rs_definition st; rs_workflow := rs_workflow st; rs_steps := rs_steps st;
     rs_output_producers := rs_output_producers st; rs_exports := v;
     rs_finalization_summary := w; rs_finalization := rs_finalization st;
     rs_force_abort := rs_force_abort st;
     rs_last_cancellation_operation := rs_last_cancellation_operation st;
     rs_last_transition_sequence := rs_last_transition_sequence st;
     rs_transition_capacity_exceeded := rs_transition_capacity_exceeded st |}.

Definition set_finalization (v : option (FinalizationRuntime Deadline)) st : State :=
  {| rs_definition := rs_definition st; rs_workflow := rs_workflow st; rs_steps := rs_steps st;
     rs_output_producers := rs_output_producers st; rs_exports := rs_exports st;
     rs_finalization_summary := rs_finalization_summary st; rs_finalization := v;
     rs_force_abort := rs_force_abort st;
     rs_last_cancellation_operation := rs_last_cancellation_operation st;
     rs_last_transition_sequence := rs_last_transition_sequence st;
     rs_transition_capacity_exceeded := rs_transition_capacity_exceeded st |}.

Definition set_force_abort (v : option ForceAbortEvidence) st : State :=
  {| rs_definition := rs_definition st; rs_workflow := rs_workflow st; rs_steps := rs_steps st;
     rs_output_producers := rs_output_producers st; rs_exports := rs_exports st;
     rs_finalization_summary := rs_finalization_summary st; rs_finalization := rs_finalization st;
     rs_force_abort := v;
     rs_last_cancellation_operation := rs_last_cancellation_operation st;
     rs_last_transition_sequence := rs_last_transition_sequence st;
     rs_transition_capacity_exceeded := rs_transition_capacity_exceeded st |}.

Definition set_last_operation (v : option CancellationOperationId) st : State :=
  {| rs_definition := rs_definition st; rs_workflow := rs_workflow st; rs_steps := rs_steps st;
     rs_output_producers := rs_output_producers st; rs_exports := rs_exports st;
     rs_finalization_summary := rs_finalization_summary st; rs_finalization := rs_finalization st;
     rs_force_abort := rs_force_abort st; rs_last_cancellation_operation := v;
     rs_last_transition_sequence := rs_last_transition_sequence st;
     rs_transition_capacity_exceeded := rs_transition_capacity_exceeded st |}.

Definition set_sequence (v : TransitionSequence) (exceeded : bool) st : State :=
  {| rs_definition := rs_definition st; rs_workflow := rs_workflow st; rs_steps := rs_steps st;
     rs_output_producers := rs_output_producers st; rs_exports := rs_exports st;
     rs_finalization_summary := rs_finalization_summary st; rs_finalization := rs_finalization st;
     rs_force_abort := rs_force_abort st;
     rs_last_cancellation_operation := rs_last_cancellation_operation st;
     rs_last_transition_sequence := v;
     rs_transition_capacity_exceeded := exceeded |}.

(** [reduction.state.steps.get_mut(step)] and an assignment. *)
Definition update_step s (f : Step → Step) st : State := set_steps (alter f s (rs_steps st)) st.

Definition with_state (st : State) r : Red :=
  {| rd_state := st; rd_events := rd_events r; rd_actions := rd_actions r;
     rd_occurrence_accepted := rd_occurrence_accepted r |}.

Definition map_state (f : State → State) r : Red := with_state (f (rd_state r)) r.

Definition push_event (e : TransitionEvent Deadline) r : Red :=
  {| rd_state := rd_state r; rd_events := (rd_events r ++ [e])%list; rd_actions := rd_actions r;
     rd_occurrence_accepted := rd_occurrence_accepted r |}.

Definition push_action (a : Req) r : Red :=
  {| rd_state := rd_state r; rd_events := rd_events r; rd_actions := (rd_actions r ++ [a])%list;
     rd_occurrence_accepted := rd_occurrence_accepted r |}.

Definition set_accepted (b : bool) r : Red :=
  {| rd_state := rd_state r; rd_events := rd_events r; rd_actions := rd_actions r;
     rd_occurrence_accepted := b |}.

Definition def_step st s : option RuntimeStep := bt_get (def_steps (rs_definition st)) s.

(** ** Sequences and transitions *)

Definition next_sequence st : TransitionSequence * State :=
  let sequence := sequence_next (rs_last_transition_sequence st) in
  if decide (def_maximum_transitions (rs_definition st) < sequence)%N
  then (rs_last_transition_sequence st, set_sequence (rs_last_transition_sequence st) true st)
  else (sequence, set_sequence sequence (rs_transition_capacity_exceeded st) st).

Definition transition_step r s (to : StepState Output) (current_action : option ActionId)
    : TransitionSequence * Red :=
  let '(sequence, st) := next_sequence (rd_state r) in
  let r := with_state st r in
  let definition := def_step st s in
  let failure_policy := match definition with Some d => rt_failure_policy d | None => Required end in
  let role := match definition with Some d => rt_role d | None => RoleStep end in
  match rs_steps st !! s with
  | Some x =>
      (sequence,
       push_event (EvStep sequence s role failure_policy (state_kind (ss_state x)) (state_kind to))
         (map_state (update_step s (λ x, set_action current_action (set_state to x))) r))
  | None => (sequence, r)
  end.

Definition set_current_action s (action : ActionId) st : State :=
  update_step s (set_action (Some action)) st.

Definition clear_active_invocation s st : State := update_step s (set_active_invocation None) st.

(** ** Step predicates *)

Definition step_data_available (v : StepState Output) : bool :=
  match v with SSucceeded _ | SInherited _ InhSucceeded _ => true | _ => false end.

Definition step_outputs (v : StepState Output) : option (OutputSet Output) :=
  match v with SSucceeded outputs | SInherited _ InhSucceeded outputs => Some outputs | _ => None end.

Definition terminal_disposition (v : StepState Output) : option TerminalDisposition :=
  match v with
  | SSucceeded _ => Some DispSucceeded
  | SInherited _ _ _ => Some DispInherited
  | SFailed _ => Some DispFailed
  | SSkipped _ => Some DispSkipped
  | SBlocked _ => Some DispBlocked
  | SNotRun _ => Some DispNotRun
  | SCancelled _ => Some DispCancelled
  | SPending | SStarting | SRunning | SCapturingOutputs | SRecovering _ _ | SCancelling _ => None
  end.

Definition step_is (p : StepState Output → bool) st s : bool :=
  match rs_steps st !! s with Some x => p (ss_state x) | None => false end.

Definition step_accepts st s (expected_state : StepStateKind) (action : ActionId) : bool :=
  match rs_steps st !! s with
  | Some x => bool_decide (state_kind (ss_state x) = expected_state)
              && bool_decide (ss_current_action x = Some action)
  | None => false
  end.

Definition step_declares_outputs st s : bool :=
  match def_step st s with Some d => negb (bool_decide (rt_declared_outputs d = [])) | None => false end.

Definition outputs_match_declaration st s (outputs : OutputSet Output) : bool :=
  match def_step st s with
  | Some d => bool_decide (bt_keys outputs = rt_declared_outputs d)
  | None => false
  end.

(** ** Exports and the end of a run *)

Definition export_value (v : StepState Output) (output : string) : option (ExportValue Output) :=
  match v with
  | SSucceeded outputs | SInherited _ InhSucceeded outputs => ExportAvailable <$> bt_get outputs output
  | SInherited _ InhSkipped _ => Some (ExportUnavailable ExSkipped)
  | SFailed _ => Some (ExportUnavailable ExFailed)
  | SBlocked _ => Some (ExportUnavailable ExBlocked)
  | SSkipped _ => Some (ExportUnavailable ExSkipped)
  | SNotRun detail =>
      Some (ExportUnavailable match ned_code detail with
                              | FinalizerTriggerNotSelected => ExTriggerNotSelected
                              | FailureStop => ExNotRun
                              end)
  | SCancelled _ => Some (ExportUnavailable ExCancelled)
  | SPending | SStarting | SRunning | SCapturingOutputs | SRecovering _ _ | SCancelling _ => None
  end.

Definition derive_exports st : option (ExportSet Output) :=
  mapM (λ '(name, source),
          x ← rs_steps st !! re_step source;
          value ← export_value (ss_state x) (re_output source);
          Some (name, value))
    (def_exports (rs_definition st)).

Definition finish_run r (ordinary_outcome : OrdinaryOutcome)
    (summary : option (FinalizationSummary Deadline)) : Red :=
  match derive_exports (rd_state r) with
  | None => r
  | Some exports =>
      let '(to, outcome) :=
        match ordinary_outcome with
        | OrdSucceeded => (WSucceeded, RunSucceeded)
        | OrdFailed primary_issue later_cancellation =>
            (WFailed primary_issue later_cancellation, RunFailed primary_issue later_cancellation)
        | OrdCancelled reason => (WCancelled reason, RunCancelled reason)
        end in
      let from := rs_workflow (rd_state r) in
      let '(sequence, st) := next_sequence (rd_state r) in
      let st := set_exports (Some exports) summary (set_workflow to st) in
      push_action {| ra_id := for_transition sequence; ra_action := FinishRun outcome exports |}
        (push_event (EvWorkflow sequence from to) (with_state st r))
  end.

Definition compose_final_outcome st (finalization : FinalizationRuntime Deadline) : OrdinaryOutcome :=
  match fnr_ordinary_outcome finalization with
  | OrdFailed primary_issue later_cancellation =>
      OrdFailed primary_issue
        match later_cancellation with
        | Some reason => Some reason
        | None => fin_reason <$> fnr_cancellation finalization
        end
  | OrdCancelled reason => OrdCancelled reason
  | OrdSucceeded =>
      match rs_workflow st with
      | WFinalizing _ _ (Some primary_issue) =>
          OrdFailed primary_issue (fin_reason <$> fnr_cancellation finalization)
      | WFinalizing _ (FinCancelling reason _ _) None => OrdCancelled reason
      | _ => OrdSucceeded
      end
  end.

Definition erase_outputs (v : StepState Output) : option (StepState unit) :=
  match v with
  | SSucceeded _ => Some (SSucceeded [])
  | SInherited _ _ _ => None
  | SFailed detail => Some (SFailed detail)
  | SBlocked detail => Some (SBlocked detail)
  | SSkipped detail => Some (SSkipped detail)
  | SNotRun detail => Some (SNotRun detail)
  | SCancelled detail => Some (SCancelled detail)
  | SPending | SStarting | SRunning | SCapturingOutputs | SRecovering _ _ | SCancelling _ => None
  end.

Definition finalization_summary st (finalization : FinalizationRuntime Deadline)
    : FinalizationSummary Deadline :=
  {| fs_trigger := fnr_trigger finalization;
     fs_finalizers :=
       omap (λ id, x ← rs_steps st !! id;
                   disposition ← erase_outputs (ss_state x);
                   definition ← def_step st id;
                   Some {| fr_finalizer := id; fr_failure_policy := rt_failure_policy definition;
                           fr_disposition := disposition |})
         (def_finalizer_presentation_order (rs_definition st));
     fs_cancellation := fnr_cancellation finalization;
     fs_force_abort := fnr_force_abort finalization |}.

Definition is_finalizing (w : WorkflowState Deadline) : bool :=
  match w with WFinalizing _ _ _ => true | _ => false end.
Definition is_executing (w : WorkflowState Deadline) : bool :=
  match w with WExecuting _ => true | _ => false end.

Definition finish_finalization_if_terminal r : Red :=
  let st := rd_state r in
  if negb (is_finalizing (rs_workflow st))
     || negb (forallb (step_is is_terminal st) (def_finalizer_ids (rs_definition st)))
  then r
  else
    match rs_finalization st with
    | None => r
    | Some finalization =>
        finish_run r (compose_final_outcome st finalization) (Some (finalization_summary st finalization))
    end.

Definition ordinary_issues st : list OrdinaryIssue :=
  omap (λ id,
          x ← rs_steps st !! id;
          disposition ← match ss_state x with
                        | SFailed _ => Some OrdinaryFailed
                        | SBlocked _ => Some OrdinaryBlocked
                        | _ => None
                        end;
          definition ← def_step st id;
          Some {| oi_step_id := id; oi_failure_policy := rt_failure_policy definition;
                  oi_disposition := disposition |})
    (def_ordinary_ids (rs_definition st)).

Definition ordinary_outcome st : option OrdinaryOutcome :=
  match rs_workflow st with
  | WExecuting GateOpen => Some OrdSucceeded
  | WExecuting (GateFailureStopped primary_issue) => Some (OrdFailed primary_issue None)
  | WExecuting (GateCancelling reason (Some primary_issue)) => Some (OrdFailed primary_issue (Some reason))
  | WExecuting (GateCancelling reason None) => Some (OrdCancelled reason)
  | WFinalizing _ _ _ | WSucceeded | WFailed _ _ | WCancelled _ => None
  end.

Definition ordinary_force_abort st : bool :=
  match rs_force_abort st with
  | Some evidence => bool_decide (fae_phase evidence = PhaseOrdinary)
  | None => false
  end.

Definition outcome_trigger (o : OrdinaryOutcome) : FinalizationTrigger :=
  match o with
  | OrdSucceeded => TriggerSucceeded
  | OrdFailed _ _ => TriggerFailed
  | OrdCancelled _ => TriggerCancelled
  end.

Definition outcome_primary_issue (o : OrdinaryOutcome) : option PrimaryIssue :=
  match o with OrdFailed primary_issue _ => Some primary_issue | OrdSucceeded | OrdCancelled _ => None end.

Definition outcome_cancellation (o : OrdinaryOutcome) : option CancellationReason :=
  match o with
  | OrdFailed _ later_cancellation => later_cancellation
  | OrdCancelled reason => Some reason
  | OrdSucceeded => None
  end.

Definition enter_finalization_or_finish r : Red :=
  let st := rd_state r in
  if negb (is_executing (rs_workflow st))
     || negb (forallb (step_is is_terminal st) (def_ordinary_ids (rs_definition st)))
  then r
  else
    match ordinary_outcome st with
    | None => r
    | Some outcome =>
        if bool_decide (def_finalizer_ids (rs_definition st) = []) then finish_run r outcome None
        else
          let trigger := outcome_trigger outcome in
          let context := serialize {| fc_trigger := trigger;
                                      fc_primary_issue_step_id :=
                                        (node_id ∘ pi_node) <$> outcome_primary_issue outcome;
                                      fc_cancellation_reason := outcome_cancellation outcome;
                                      fc_ordinary_issues := ordinary_issues st |} in
          let force_abort := ordinary_force_abort st in
          let '(gate, cancellation) :=
            if force_abort
            then (FinCancelling ForceAbort None true,
                  Some {| fin_reason := ForceAbort; fin_deadline := None |})
            else (FinOpen, None) in
          let from := rs_workflow st in
          let to := WFinalizing trigger gate (outcome_primary_issue outcome) in
          let '(sequence, st) := next_sequence st in
          let st := set_finalization
                      (Some {| fnr_trigger := trigger; fnr_context := context;
                               fnr_ordinary_outcome := outcome; fnr_cancellation := cancellation;
                               fnr_force_abort := force_abort |}) (set_workflow to st) in
          push_event (EvWorkflow sequence from to) (with_state st r)
    end.

(** ** Prerequisites *)

(** [output_reference_producer]. *)
Definition output_reference_producer (reference : string) : option string :=
  match str_split "."%char reference with
  | [kind; producer; _] => if decide (kind = "outputs") then Some producer else None
  | _ => None
  end.

Definition control_satisfied_state (advisory : bool) (v : StepState Output) : bool :=
  match v with
  | SSucceeded _ | SSkipped _ | SInherited _ _ _ => true
  | SFailed _ | SBlocked _ => advisory
  | _ => false
  end.

Definition ordinary_control_satisfied st (prerequisite : ResolvedDirectPrerequisite) : bool :=
  match rs_steps st !! rdp_producer prerequisite with
  | Some producer =>
      control_satisfied_state
        match def_step st (rdp_producer prerequisite) with
        | Some definition => bool_decide (rt_failure_policy definition = Advisory)
        | None => false
        end (ss_state producer)
  | None => false
  end.

Definition ordinary_prerequisite_satisfied st (prerequisite : ResolvedDirectPrerequisite) : bool :=
  match rs_steps st !! rdp_producer prerequisite with
  | None => false
  | Some producer =>
      (negb (rdp_control prerequisite) || ordinary_control_satisfied st prerequisite)
      && (negb (rdp_data prerequisite) || step_data_available (ss_state producer))
      && (negb (rdp_disposition_control prerequisite) || is_terminal (ss_state producer))
  end.

Definition is_condition_of (producer : string) (p : Prerequisite) : bool :=
  match p with
  | PCondition ref => bool_decide (output_reference_producer ref = Some producer)
  | _ => false
  end.

Definition is_body_of (producer : string) (p : Prerequisite) : bool :=
  match p with
  | PBody ref => bool_decide (output_reference_producer ref = Some producer)
  | _ => false
  end.

(** The blockers one prerequisite contributes to [condition_blockers]. *)
Definition condition_prerequisite_blockers st (definition : RuntimeStep)
    (prerequisite : ResolvedDirectPrerequisite) : list Prerequisite :=
  match rs_steps st !! rdp_producer prerequisite with
  | None => []
  | Some producer =>
      if negb (is_terminal (ss_state producer)) then []
      else
        ((if bool_decide (rt_role definition = RoleStep) && rdp_control prerequisite
             && negb (ordinary_control_satisfied st prerequisite)
          then result_to_list (prerequisite_control (rdp_producer prerequisite)) else [])
         ++ (if rdp_condition_data prerequisite && negb (step_data_available (ss_state producer))
             then List.filter (is_condition_of (rdp_producer prerequisite)) (rt_evidence_prerequisites definition)
             else []))%list
  end.

(** The blocker one condition value contributes. *)
Definition condition_source_blockers st (source : ResolvedValueSource) : list Prerequisite :=
  match source with
  | SourceOutput source =>
      if step_is (λ v, is_terminal v && negb (step_data_available v)) st (node_id (ros_node source))
      then result_to_list (prerequisite_condition (output_source_reference source)) else []
  | SourceInput _ | SourceFinalizationContext => []
  end.

Definition condition_blockers st (definition : RuntimeStep) : list Prerequisite :=
  sort_dedup (mjoin (condition_prerequisite_blockers st definition <$> rt_prerequisites definition)
              ++ mjoin (condition_source_blockers st <$> bt_values (rt_condition_values definition)))%list.

Definition body_prerequisite_blockers st (definition : RuntimeStep)
    (prerequisite : ResolvedDirectPrerequisite) : list Prerequisite :=
  match rs_steps st !! rdp_producer prerequisite with
  | None => []
  | Some producer =>
      if negb (is_terminal (ss_state producer)) then []
      else
        ((if rdp_control prerequisite && negb (ordinary_control_satisfied st prerequisite)
          then result_to_list (prerequisite_control (rdp_producer prerequisite)) else [])
         ++ (if rdp_data prerequisite && negb (step_data_available (ss_state producer))
             then List.filter (is_body_of (rdp_producer prerequisite)) (rt_evidence_prerequisites definition)
             else []))%list
  end.

Definition has_condition (definition : RuntimeStep) : bool := bool_decide (is_Some (rt_condition definition)).

Definition ordinary_unsatisfied_prerequisites st s (definition : RuntimeStep) : list Prerequisite :=
  let condition_pending :=
    has_condition definition
    && match rs_steps st !! s with Some x => negb (ss_condition_passed x) | None => false end in
  if condition_pending then condition_blockers st definition
  else mjoin (body_prerequisite_blockers st definition <$> rt_prerequisites definition).

(** ** Readiness and authorization *)

Definition resolved_action_input st (source : ResolvedValueSource) : ActionInput Output :=
  match source with
  | SourceInput _ => AInWorkflowInput
  | SourceFinalizationContext =>
      match rs_finalization st with
      | Some finalization => AInFinalizationContext (fnr_context finalization)
      | None => AInUnavailable
      end
  | SourceOutput source =>
      match x ← rs_steps st !! node_id (ros_node source);
            outputs ← step_outputs (ss_state x);
            bt_get outputs (ros_output source) with
      | Some output => AInOutput output
      | None => AInUnavailable
      end
  end.

Definition resolved_action_inputs st (definition : RuntimeStep) : btree (ActionInput Output) :=
  (λ '(input, source), (input, resolved_action_input st source)) <$> rt_inputs definition.

Definition ordinary_ready st s (definition : RuntimeStep) : bool :=
  step_is is_pending st s
  && forallb (ordinary_prerequisite_satisfied st) (rt_prerequisites definition).

Definition finalizer_ready st s (definition : RuntimeStep) : bool :=
  match rs_finalization st with
  | None => false
  | Some finalization =>
      step_is is_pending st s
      && bool_decide (fnr_trigger finalization ∈ rt_when definition)
      && forallb (λ prerequisite, step_is is_terminal st (rdp_producer prerequisite))
           (rt_prerequisites definition)
  end.

Definition unavailable_reference st (descriptor : Prerequisite) : option string :=
  match descriptor with
  | PBody ref =>
      producer ← output_reference_producer ref;
      if step_is step_data_available st producer then None else Some ref
  | PControl _ | PCondition _ => None
  end.

Definition unavailable_references st (definition : RuntimeStep) : list string :=
  omap (unavailable_reference st) (rt_evidence_prerequisites definition).

Definition authorize_target r s (execution_number : TargetExecutionNumber)
    (inputs : btree (ActionInput Output)) : Red :=
  let r := map_state (update_step s (set_target_execution (Some execution_number))) r in
  let '(sequence, r) := transition_step r s SStarting None in
  let action_id := for_transition sequence in
  let r := map_state (update_step s (λ x,
             set_active_invocation (Some (ActiveTarget execution_number))
               (set_target_invocation (Some action_id) x))) r in
  let r := map_state (set_current_action s action_id) r in
  push_action {| ra_id := action_id; ra_action := StartStep s execution_number inputs |} r.

Definition active_count st : nat :=
  length (List.filter (λ '(_, x), is_active (ss_state x)) (map_to_list (rs_steps st))).

Definition role_gate_open (w : WorkflowState Deadline) (role : WorkflowNodeRole) : bool :=
  match w, role with
  | WExecuting GateOpen, RoleStep => true
  | WFinalizing _ FinOpen _, RoleFinalizer => true
  | _, _ => false
  end.

Definition role_ids st (role : WorkflowNodeRole) : list string :=
  match role with
  | RoleStep => def_ordinary_ids (rs_definition st)
  | RoleFinalizer => def_finalizer_ids (rs_definition st)
  end.

Definition node_ready st (role : WorkflowNodeRole) s (definition : RuntimeStep) : bool :=
  match role with
  | RoleStep => ordinary_ready st s definition
  | RoleFinalizer =>
      finalizer_ready st s definition && bool_decide (unavailable_references st definition = [])
  end.

Definition select_ready_nodes r (role : WorkflowNodeRole) : Red :=
  let st := rd_state r in
  if negb (role_gate_open (rs_workflow st) role) then r
  else
    let available_slots := def_maximum_parallel_steps (rs_definition st) - active_count st in
    let selected :=
      take available_slots
        (omap (λ id, definition ← def_step st id;
                     if node_ready st role id definition
                     then Some (id, resolved_action_inputs st definition) else None)
           (role_ids st role)) in
    foldl (λ r '(step, inputs), authorize_target r step FIRST inputs) r selected.

(** ** Gates and settled nodes *)

Definition close_ordinary_gate_for_failure r (primary_issue : PrimaryIssue) : Red :=
  match rs_workflow (rd_state r) with
  | WExecuting GateOpen =>
      let from := rs_workflow (rd_state r) in
      let to := WExecuting (GateFailureStopped primary_issue) in
      let '(sequence, st) := next_sequence (rd_state r) in
      push_event (EvWorkflow sequence from to) (with_state (set_workflow to st) r)
  | _ => r
  end.

Definition select_finalizer_primary_issue r (primary_issue : PrimaryIssue) : Red :=
  match rs_workflow (rd_state r) with
  | WFinalizing TriggerSucceeded FinOpen None =>
      let from := rs_workflow (rd_state r) in
      let to := WFinalizing TriggerSucceeded FinOpen (Some primary_issue) in
      let '(sequence, st) := next_sequence (rd_state r) in
      push_event (EvWorkflow sequence from to) (with_state (set_workflow to st) r)
  | _ => r
  end.

Definition commit_required_issue r (definition : RuntimeStep) (primary_issue : PrimaryIssue) : Red :=
  if decide (rt_failure_policy definition = Required) then
    match rt_role definition with
    | RoleStep => close_ordinary_gate_for_failure r primary_issue
    | RoleFinalizer => select_finalizer_primary_issue r primary_issue
    end
  else r.

Definition settle_target_failure r s (definition : RuntimeStep) (detail : FailureDetail) : Red :=
  let primary_issue := primary_issue_failed {| node_id := s; node_role := rt_role definition |} detail in
  let '(_, r) := transition_step r s (SFailed detail) None in
  let r := map_state (clear_active_invocation s) r in
  commit_required_issue r definition primary_issue.

Definition settle_condition_failure r s (definition : RuntimeStep) (detail : FailureDetail) : Red :=
  settle_target_failure r s definition detail.

Definition settle_blocked r s (detail : BlockedDetail) : Red :=
  match def_step (rd_state r) s with
  | None => r
  | Some definition =>
      let primary_issue := primary_issue_blocked {| node_id := s; node_role := rt_role definition |} detail in
      let '(_, r) := transition_step r s (SBlocked detail) None in
      commit_required_issue r definition primary_issue
  end.

(** ** Conditions *)

Definition condition_phase_gate_open st (definition : RuntimeStep) : bool :=
  match rs_workflow st, rt_role definition with
  | WExecuting GateOpen, RoleStep => true
  | WFinalizing trigger FinOpen _, RoleFinalizer => bool_decide (trigger ∈ rt_when definition)
  | _, _ => false
  end.

Definition condition_source_available st (source : ResolvedValueSource) : bool :=
  match source with
  | SourceInput name =>
      bt_contains_key (def_text_inputs (rs_definition st)) name
      || bt_contains_key (def_json_inputs (rs_definition st)) name
  | SourceFinalizationContext => bool_decide (is_Some (rs_finalization st))
  | SourceOutput source => step_is step_data_available st (node_id (ros_node source))
  end.

Definition condition_sources_available st (definition : RuntimeStep) : bool :=
  forallb (condition_source_available st) (bt_values (rt_condition_values definition)).

Definition condition_prerequisite_ready st (definition : RuntimeStep)
    (prerequisite : ResolvedDirectPrerequisite) : bool :=
  match rs_steps st !! rdp_producer prerequisite with
  | None => false
  | Some producer =>
      let terminal := is_terminal (ss_state producer) in
      let succeeded := step_data_available (ss_state producer) in
      match rt_role definition with
      | RoleStep =>
          (negb (rdp_control prerequisite) || ordinary_control_satisfied st prerequisite)
          && (negb (rdp_disposition_control prerequisite) || terminal)
          && (negb (rdp_condition_data prerequisite) || succeeded)
      | RoleFinalizer =>
          (negb (rdp_control prerequisite || rdp_disposition_control prerequisite) || terminal)
          && (negb (rdp_condition_data prerequisite) || succeeded)
      end
  end.

Definition condition_gate_ready st s : bool :=
  match def_step st s, rs_steps st !! s with
  | Some definition, Some x =>
      if negb (has_condition definition)
         || ss_condition_passed x
         || negb (is_pending (ss_state x))
         || negb (condition_phase_gate_open st definition)
         || negb (bool_decide (condition_blockers st definition = []))
      then false
      else forallb (condition_prerequisite_ready st definition) (rt_prerequisites definition)
           && condition_sources_available st definition
  | _, _ => false
  end.

(** The value recorded for one entry of [condition_values]. *)
Definition condition_value st (context : option Value) (source : ResolvedValueSource)
    : option CapturedConditionValue :=
  match source with
  | SourceInput name =>
      match bt_get (def_text_inputs (rs_definition st)) name with
      | Some text => Some (CapturedText text)
      | None => CapturedJson <$> bt_get (def_json_inputs (rs_definition st)) name
      end
  | SourceFinalizationContext => CapturedJson <$> context
  | SourceOutput source =>
      x ← rs_steps st !! node_id (ros_node source);
      outputs ← step_outputs (ss_state x);
      output ← bt_get outputs (ros_output source);
      match condition_text output with
      | Some text => Some (CapturedText text)
      | None => CapturedJson <$> condition_json output
      end
  end.

Definition condition_values st (definition : RuntimeStep) : ConditionValues :=
  let context := finalization ← rs_finalization st; from_slice (fnr_context finalization) in
  foldl (λ values '(canonical, source),
           match condition_value st context source with
           | Some value => <[canonical := value]> values
           | None => values
           end) ∅ (rt_condition_values definition).

Definition condition_dispositions st : ConditionDispositions :=
  list_to_map
    (omap (λ '(id, x),
             disposition ← terminal_disposition (ss_state x);
             Some ({| node_id := id;
                      node_role := match def_step st id with
                                   | Some definition => rt_role definition
                                   | None => RoleStep
                                   end |}, disposition))
       (map_to_list (rs_steps st))).

Definition evaluate_condition st (definition : RuntimeStep) (predicate : ResolvedPredicate)
    : ConditionEvaluation :=
  evaluate (condition_values st definition) (condition_dispositions st) predicate.

Definition predicate_evidence (entry : EvaluatedPredicate) : EvaluatedPredicateEvidence :=
  {| epe_path := ep_path entry; epe_result := ep_result entry |}.

(** One iteration of [evaluate_ready_conditions]; [None] is [break]. *)
Definition evaluate_ready_condition r (role : WorkflowNodeRole) : option Red :=
  let st := rd_state r in
  id ← List.find (condition_gate_ready st) (role_ids st role);
  definition ← def_step st id;
  predicate ← rt_condition definition;
  match evaluate_condition st definition predicate with
  | ConditionPassed => Some (map_state (update_step id (set_condition_passed true)) r)
  | ConditionFalse evaluated_predicates =>
      match condition_false_detail_new (predicate_evidence <$> evaluated_predicates) with
      | Ok detail => Some (transition_step r id (SSkipped detail) None).2
      | Err _ => None
      end
  | ConditionFailed canonical_ref pointer =>
      match json_pointer_missing canonical_ref pointer with
      | Ok detail => Some (settle_condition_failure r id definition detail)
      | Err _ => None
      end
  | ConditionUnavailable _ => None
  end.

Fixpoint evaluate_ready_conditions_loop (fuel : nat) r (role : WorkflowNodeRole) : Red :=
  match fuel with
  | O => r
  | S fuel =>
      match evaluate_ready_condition r role with
      | None => r
      | Some r => evaluate_ready_conditions_loop fuel r role
      end
  end.

Definition evaluate_ready_conditions r (role : WorkflowNodeRole) : Red :=
  evaluate_ready_conditions_loop (S (length (role_ids (rd_state r) role))) r role.

(** ** Propagation of dispositions *)

Inductive PendingDisposition :=
| PendingBlocked (detail : BlockedDetail)
| PendingNotRun.

Definition failure_stopped (w : WorkflowState Deadline) : bool :=
  match w with WExecuting (GateFailureStopped _) => true | _ => false end.

Definition ordinary_pending_disposition st s : option (string * PendingDisposition) :=
  definition ← def_step st s;
  x ← rs_steps st !! s;
  if negb (is_pending (ss_state x)) then None
  else
    let blockers := ordinary_unsatisfied_prerequisites st s definition in
    if negb (bool_decide (blockers = [])) then
      (λ detail, (s, PendingBlocked detail)) <$> result_ok (blocked_detail_new blockers)
    else if failure_stopped (rs_workflow st)
            && forallb (ordinary_prerequisite_satisfied st) (rt_prerequisites definition)
    then Some (s, PendingNotRun) else None.

Definition next_ordinary_pending_disposition st : option (string * PendingDisposition) :=
  find_map (ordinary_pending_disposition st) (def_ordinary_ids (rs_definition st)).

Fixpoint propagate_ordinary_loop (fuel : nat) r : Red :=
  match fuel with
  | O => r
  | S fuel =>
      match next_ordinary_pending_disposition (rd_state r) with
      | None => r
      | Some (step, PendingBlocked detail) => propagate_ordinary_loop fuel (settle_blocked r step detail)
      | Some (step, PendingNotRun) =>
          propagate_ordinary_loop fuel (transition_step r step (SNotRun failure_stop) None).2
      end
  end.

Definition propagate_ordinary_pending_dispositions r : Red :=
  propagate_ordinary_loop (S (length (def_ordinary_ids (rs_definition (rd_state r))))) r.

Definition propagate_finalizer_trigger_dispositions r : Red :=
  let st := rd_state r in
  match rs_finalization st with
  | None => r
  | Some finalization =>
      let not_selected :=
        List.filter (λ id, step_is is_pending st id
                      && match def_step st id with
                         | Some definition => negb (bool_decide (fnr_trigger finalization ∈ rt_when definition))
                         | None => false
                         end) (def_finalizer_ids (rs_definition st)) in
      foldl (λ r finalizer, (transition_step r finalizer (SNotRun finalizer_trigger_not_selected) None).2)
        r not_selected
  end.

Definition finalizer_condition_block st s : option (string * BlockedDetail) :=
  definition ← def_step st s;
  x ← rs_steps st !! s;
  if negb (has_condition definition)
     || ss_condition_passed x
     || negb (is_pending (ss_state x))
     || negb (condition_phase_gate_open st definition)
  then None
  else (λ detail, (s, detail)) <$> result_ok (blocked_detail_new (condition_blockers st definition)).

Definition next_finalizer_condition_block st : option (string * BlockedDetail) :=
  find_map (finalizer_condition_block st) (def_finalizer_ids (rs_definition st)).

Definition input_unavailable st s : option (string * list string) :=
  definition ← def_step st s;
  x ← rs_steps st !! s;
  if negb (finalizer_ready st s definition) || (has_condition definition && negb (ss_condition_passed x))
  then None
  else
    let references := unavailable_references st definition in
    if negb (bool_decide (references = [])) then Some (s, references) else None.

Definition next_input_unavailable st : option (string * list string) :=
  find_map (input_unavailable st) (def_finalizer_ids (rs_definition st)).

Fixpoint propagate_condition_blocks_loop (fuel : nat) r : Red :=
  match fuel with
  | O => r
  | S fuel =>
      match next_finalizer_condition_block (rd_state r) with
      | None => r
      | Some (finalizer, detail) => propagate_condition_blocks_loop fuel (settle_blocked r finalizer detail)
      end
  end.

(** [filter_map(|reference| Prerequisite::body(reference).ok())]. *)
Definition body_prerequisites (references : list string) : list Prerequisite :=
  mjoin ((λ reference, result_to_list (prerequisite_body reference)) <$> references).

Fixpoint propagate_input_unavailable_loop (fuel : nat) r : Red :=
  match fuel with
  | O => r
  | S fuel =>
      match next_input_unavailable (rd_state r) with
      | None => r
      | Some (finalizer, references) =>
          match blocked_detail_new (body_prerequisites references) with
          | Err _ => propagate_input_unavailable_loop fuel r
          | Ok detail => propagate_input_unavailable_loop fuel (settle_blocked r finalizer detail)
          end
      end
  end.

Definition propagate_finalizer_dispositions r : Red :=
  let r := propagate_finalizer_trigger_dispositions r in
  let fuel := S (length (def_finalizer_ids (rs_definition (rd_state r)))) in
  propagate_input_unavailable_loop fuel (propagate_condition_blocks_loop fuel r).

(** ** Cancellation *)

Definition stale_operation st (operation : CancellationOperationId) : bool :=
  match rs_last_cancellation_operation st with
  | Some last => (operation <=? last)%N
  | None => false
  end.

Definition set_handler_outcome s (round : RecoveryRoundNumber) (outcome : RecoveryHandlerOutcome Cause) st : State :=
  update_step s (λ x,
    set_recovery
      ((λ recovery,
          set_rounds
            (update_last (λ record,
               if decide (rrr_number record = round) then
                 set_handler ((λ handler, {| rhr_kind := rhr_kind handler;
                                             rhr_invocation := rhr_invocation handler;
                                             rhr_outcome := outcome |}) <$> rrr_handler record) record
               else record) (sr_rounds recovery)) recovery) <$> ss_recovery x) x) st.

Definition set_recovery_disposition s (disposition : RecoveryTerminalDisposition) st : State :=
  update_step s (λ x, set_recovery (set_terminal_disposition (Some disposition) <$> ss_recovery x) x) st.

Definition activated_recovery_execution st s : option TargetExecutionNumber :=
  x ← rs_steps st !! s;
  match ss_recovery x with
  | Some recovery => if decide (sr_rounds recovery = []) then None else ss_target_execution x
  | None => None
  end.

Definition mark_recovery_exhausted s st : State :=
  match activated_recovery_execution st s with
  | Some execution_number => set_recovery_disposition s (RecoveryExhausted execution_number) st
  | None => st
  end.

Definition mark_recovered s r : Red :=
  match activated_recovery_execution (rd_state r) s with
  | Some execution_number => map_state (set_recovery_disposition s (RecoveryRecovered execution_number)) r
  | None => r
  end.

Definition mark_handler_cancelled s (active : ActiveStepInvocation) st : State :=
  match active with
  | ActiveRecoveryHandler round => set_handler_outcome s round OutcomeCancelled st
  | ActiveTarget _ => st
  end.

Definition mark_recovery_cancelled s (active : ActiveStepInvocation) st : State :=
  match x ← rs_steps st !! s; recovery ← ss_recovery x; last (sr_rounds recovery) with
  | Some record => set_recovery_disposition s (RecoveryCancelled (rrr_number record) active) st
  | None => st
  end.

Definition cancellation_detail (reason : CancellationReason) : CancellationDetail := {| cd_code := reason |}.

Definition cancel_pending_nodes r (role : WorkflowNodeRole) (reason : CancellationReason) : Red :=
  let st := rd_state r in
  let pending :=
    omap (λ '(id, definition),
            if bool_decide (rt_role definition = role) && step_is is_pending st id then Some id else None)
      (def_steps (rs_definition st)) in
  foldl (λ r step, (transition_step r step (SCancelled (cancellation_detail reason)) None).2) r pending.

(** The branch of [cancel_nodes] for a node that is working: the reduction
    and the containment index. *)
Definition cancel_active (reason : CancellationReason)
    (force_context : option (CancellationOperationId * Deadline)) (graceful_deadline : option Deadline)
    r (containment_index : N) (step : string) : Red * N :=
  match x ← rs_steps (rd_state r) !! step; ss_active_invocation x with
  | None => (r, containment_index)
  | Some active =>
      let r := map_state (mark_handler_cancelled step active) r in
      let '(sequence, r) := transition_step r step (SCancelling (cancellation_detail reason)) None in
      let action :=
        match force_context with
        | None => for_transition sequence
        | Some (operation, _) => for_force_abort operation containment_index
        end in
      let containment_index := (containment_index + 1)%N in
      let r := map_state (set_current_action step action) r in
      match force_context, graceful_deadline with
      | Some (_, deadline), _ =>
          (push_action {| ra_id := action; ra_action := ForceAbortStep step active reason deadline |} r,
           containment_index)
      | None, Some deadline =>
          (push_action {| ra_id := action; ra_action := CancelStep step active reason deadline |} r,
           containment_index)
      | None, None => (r, containment_index)
      end
  end.

(** The branch for a node that is already cancelling, under a force abort. *)
Definition contain_cancelling (reason : CancellationReason) (operation : CancellationOperationId)
    (deadline : Deadline) r (containment_index : N) (step : string) : Red * N :=
  let action := for_force_abort operation containment_index in
  let containment_index := (containment_index + 1)%N in
  let r := map_state (set_current_action step action) r in
  match x ← rs_steps (rd_state r) !! step; ss_active_invocation x with
  | None => (r, containment_index)
  | Some active =>
      (push_action {| ra_id := action; ra_action := ForceAbortStep step active reason deadline |} r,
       containment_index)
  end.

(** One iteration of the loop of [cancel_nodes]. *)
Definition cancel_node (reason : CancellationReason)
    (force_context : option (CancellationOperationId * Deadline)) (graceful_deadline : option Deadline)
    (acc : Red * N) (node : string * StepStateKind) : Red * N :=
  let '(r, containment_index) := acc in
  let '(step, kind) := node in
  match kind with
  | KPending => ((transition_step r step (SCancelled (cancellation_detail reason)) None).2, containment_index)
  | KStarting | KRunning | KCapturingOutputs | KRecovering =>
      cancel_active reason force_context graceful_deadline r containment_index step
  | KCancelling =>
      match force_context with
      | None => acc
      | Some (operation, deadline) => contain_cancelling reason operation deadline r containment_index step
      end
  | KSucceeded | KInherited | KFailed | KBlocked | KSkipped | KNotRun | KCancelled => acc
  end.

Definition role_nodes st (role : WorkflowNodeRole) : list (string * StepStateKind) :=
  omap (λ '(id, definition),
          if bool_decide (rt_role definition = role)
          then (λ x, (id, state_kind (ss_state x))) <$> rs_steps st !! id else None)
    (def_steps (rs_definition st)).

Definition cancel_nodes r (role : WorkflowNodeRole) (reason : CancellationReason)
    (deadline : option Deadline) (force : bool) (operation : option CancellationOperationId) : Red :=
  let run force_context :=
    let graceful_deadline := if force then None else deadline in
    (foldl (cancel_node reason force_context graceful_deadline) (r, 1%N) (role_nodes (rd_state r) role)).1 in
  match force, operation, deadline with
  | true, Some operation, Some deadline => run (Some (operation, deadline))
  | true, _, _ => r
  | false, _, _ => run None
  end.

Definition record_operation (operation : option CancellationOperationId) st : State :=
  match operation with
  | Some operation => set_last_operation (Some operation) st
  | None => st
  end.

Definition apply_ordinary_cancellation r (cancellation : CancellationRequest Deadline)
    (operation : option CancellationOperationId) : bool * Red :=
  let accept prior_issue :=
    let st := record_operation operation (rd_state r) in
    let st := set_workflow (WExecuting (GateCancelling (cr_reason cancellation) prior_issue)) st in
    let '(sequence, st) := next_sequence st in
    let r := push_event (EvCancellationAccepted sequence (cr_reason cancellation) (cr_deadline cancellation))
               (with_state st r) in
    (true, cancel_nodes r RoleStep (cr_reason cancellation) (Some (cr_deadline cancellation)) false operation) in
  match rs_workflow (rd_state r) with
  | WExecuting GateOpen => accept None
  | WExecuting (GateFailureStopped primary_issue) => accept (Some primary_issue)
  | WExecuting (GateCancelling _ _) | _ => (false, r)
  end.

Definition set_finalization_cancellation (v : option (FinalizationCancellation Deadline)) (force_abort : bool)
    (f : FinalizationRuntime Deadline) : FinalizationRuntime Deadline :=
  {| fnr_trigger := fnr_trigger f; fnr_context := fnr_context f;
     fnr_ordinary_outcome := fnr_ordinary_outcome f; fnr_cancellation := v; fnr_force_abort := force_abort |}.

Definition apply_finalization_cancellation r (cancellation : CancellationRequest Deadline)
    (operation : option CancellationOperationId) : bool * Red :=
  let reason := cr_reason cancellation in
  let deadline := cr_deadline cancellation in
  let st := record_operation operation (rd_state r) in
  match rs_workflow st with
  | WFinalizing trigger _ primary_issue =>
      let st := set_workflow (WFinalizing trigger (FinCancelling reason (Some deadline) false) primary_issue) st in
      let st := set_finalization
                  ((λ f, set_finalization_cancellation
                           (Some {| fin_reason := reason; fin_deadline := Some deadline |})
                           (fnr_force_abort f) f) <$> rs_finalization st) st in
      let '(sequence, st) := next_sequence st in
      let r := push_event (EvFinalizationCancellationAccepted sequence reason deadline) (with_state st r) in
      (true, cancel_nodes r RoleFinalizer reason (Some deadline) false operation)
  | _ => (false, with_state st r)
  end.

Definition apply_cancellation r (cancellation : CancellationRequest Deadline)
    (operation : option CancellationOperationId) : bool * Red :=
  match rs_workflow (rd_state r) with
  | WExecuting _ => apply_ordinary_cancellation r cancellation operation
  | WFinalizing _ FinOpen _ => apply_finalization_cancellation r cancellation operation
  | WFinalizing _ (FinCancelling _ _ _) _ | WSucceeded | WFailed _ _ | WCancelled _ => (false, r)
  end.

Definition apply_ordinary_only_cancellation r (cancellation : CancellationRequest Deadline)
    (operation : CancellationOperationId) : bool * Red :=
  if bool_decide (cr_reason cancellation = ForceAbort) || stale_operation (rd_state r) operation
  then (false, r)
  else if negb (is_executing (rs_workflow (rd_state r))) then
    let r := map_state (set_last_operation (Some operation)) r in
    (is_finalizing (rs_workflow (rd_state r)), r)
  else apply_ordinary_cancellation r cancellation (Some operation).

(** The gate a force abort leaves while executing. *)
Definition force_abort_gate (gate : SchedulingGate) : SchedulingGate :=
  match gate with
  | GateFailureStopped primary_issue => GateCancelling ForceAbort (Some primary_issue)
  | GateCancelling reason prior_issue => GateCancelling reason prior_issue
  | GateOpen => GateCancelling ForceAbort None
  end.

Definition force_abort_finalization_gate (gate : FinalizationGate Deadline) : FinalizationGate Deadline :=
  match gate with
  | FinOpen => FinCancelling ForceAbort None true
  | FinCancelling reason deadline _ => FinCancelling reason deadline true
  end.

Definition force_abort_finalization (f : FinalizationRuntime Deadline) : FinalizationRuntime Deadline :=
  set_finalization_cancellation
    match fnr_cancellation f with
    | None => Some {| fin_reason := ForceAbort; fin_deadline := None |}
    | Some c => Some c
    end true f.

Definition apply_force_abort r (operation : CancellationOperationId) (deadline : Deadline) : bool * Red :=
  let st := rd_state r in
  let accept phase (close : State → State) :=
    let st := set_force_abort (Some {| fae_reason := ForceAbort; fae_phase := phase |}) st in
    let st := close (set_last_operation (Some operation) st) in
    let '(sequence, st) := next_sequence st in
    let r := push_event (EvForceAbortAccepted sequence ForceAbort phase) (with_state st r) in
    let role := match phase with PhaseOrdinary => RoleStep | PhaseFinalization => RoleFinalizer end in
    (true, cancel_nodes r role ForceAbort (Some deadline) true (Some operation)) in
  if decide (is_Some (rs_force_abort st)) then (false, r)
  else
    match rs_workflow st with
    | WExecuting gate => accept PhaseOrdinary (set_workflow (WExecuting (force_abort_gate gate)))
    | WFinalizing trigger gate primary_issue =>
        accept PhaseFinalization (λ st,
          set_finalization (force_abort_finalization <$> rs_finalization st)
            (set_workflow (WFinalizing trigger (force_abort_finalization_gate gate) primary_issue) st))
    | WSucceeded | WFailed _ _ | WCancelled _ => (false, r)
    end.

Definition cancelling_step st s (action : ActionId) : option (CancellationReason * ActiveStepInvocation) :=
  x ← rs_steps st !! s;
  match ss_state x with
  | SCancelling detail =>
      if decide (ss_current_action x = Some action)
      then (λ active, (cd_code detail, active)) <$> ss_active_invocation x else None
  | _ => None
  end.

(** ** Recovery *)

Definition handler_accepts st s (round : RecoveryRoundNumber) (expected : RecoveryHandlerActivity)
    (action : ActionId) : bool :=
  match rs_steps st !! s with
  | Some x =>
      bool_decide (ss_current_action x = Some action)
      && bool_decide (ss_active_invocation x = Some (ActiveRecoveryHandler round))
      && match ss_state x with
         | SRecovering active_round handler =>
             bool_decide (active_round = round) && bool_decide (handler = expected)
         | _ => false
         end
  | None => false
  end.

Definition latest_target_failure st s : option (ProvisionalTargetFailure Cause) :=
  x ← rs_steps st !! s;
  recovery ← ss_recovery x;
  rrr_failed_execution <$> last (sr_rounds recovery).

Definition settle_latest_target_failure r s : Red :=
  match latest_target_failure (rd_state r) s with
  | None => r
  | Some failure =>
      match def_step (rd_state r) s with
      | None => r
      | Some definition => settle_target_failure r s definition (ptf_detail failure)
      end
  end.

(** The number of the round [activate_recovery_round] would open, with the
    failed execution and the handler kind, when its guards pass. *)
Definition recovery_round_available st s
    : option (RecoveryRoundNumber * TargetExecutionNumber * ActionId * option RecoveryHandlerKind) :=
  x ← rs_steps st !! s;
  execution_number ← ss_target_execution x;
  invocation ← ss_target_invocation x;
  recovery ← ss_recovery x;
  let len := N.of_nat (length (sr_rounds recovery)) in
  if decide (sr_configured_rounds recovery <= len)%N then None
  else
    round ← (if decide (len <= u8_max)%N then checked_add u8_max len 1 else None);
    if negb (round =? execution_number)%N then None
    else Some (round, execution_number, invocation, sr_handler_kind recovery).

Definition push_round (record : RecoveryRoundRecord Cause) x : Step :=
  set_recovery ((λ recovery, set_rounds (sr_rounds recovery ++ [record])%list recovery) <$> ss_recovery x) x.

Definition set_last_handler (handler : RecoveryHandlerRecord Cause) x : Step :=
  set_recovery ((λ recovery, set_rounds (update_last (set_handler (Some handler)) (sr_rounds recovery)) recovery)
                <$> ss_recovery x) x.

Definition recovery_rounds st s : list (RecoveryRoundRecord Cause) :=
  match x ← rs_steps st !! s; ss_recovery x with
  | Some recovery => sr_rounds recovery
  | None => []
  end.

Definition activate_recovery_round r s (phase : FailurePhase) (detail : FailureDetail) (cause : Cause)
    : bool * Red :=
  match recovery_round_available (rd_state r) s with
  | None => (false, r)
  | Some (round, execution_number, invocation, handler_kind) =>
      let failed_execution :=
        {| ptf_execution_number := execution_number; ptf_invocation := invocation;
           ptf_phase := phase; ptf_detail := detail; ptf_cause := cause |} in
      let record := {| rrr_number := round; rrr_failed_execution := failed_execution; rrr_handler := None |} in
      let r := map_state (update_step s (push_round record)) r in
      match handler_kind with
      | Some kind =>
          let r := map_state (update_step s (set_active_invocation (Some (ActiveRecoveryHandler round)))) r in
          let '(sequence, r) := transition_step r s (SRecovering round HandlerStarting) None in
          let action := for_transition sequence in
          let handler := {| rhr_kind := kind; rhr_invocation := action; rhr_outcome := OutcomeStarting |} in
          let r := map_state (update_step s (set_last_handler handler)) r in
          let r := map_state (set_current_action s action) r in
          let history := recovery_rounds (rd_state r) s in
          (true, push_action {| ra_id := action; ra_action := StartRecoveryHandler s round kind history |} r)
      | None =>
          match execution_next execution_number with
          | None => (false, r)
          | Some next_execution =>
              match def_step (rd_state r) s with
              | None => (false, r)
              | Some definition =>
                  let inputs := resolved_action_inputs (rd_state r) definition in
                  (true, authorize_target r s next_execution inputs)
              end
          end
      end
  end.

Definition apply_step_failure r s (action : ActionId) (expected_state : StepStateKind) (phase : FailurePhase)
    (cause : Cause) : bool * Red :=
  if negb (step_accepts (rd_state r) s expected_state action) then (false, r)
  else
    match def_step (rd_state r) s with
    | None => (false, r)
    | Some definition =>
        match node_failure_detail cause phase with
        | Err _ => (false, r)
        | Ok detail =>
            let '(activated, r) :=
              if decide (rt_role definition = RoleStep)
              then activate_recovery_round r s phase detail cause else (false, r) in
            if activated then (true, r)
            else
              let r := match rt_recovery definition with
                       | Some _ => map_state (mark_recovery_exhausted s) r
                       | None => r
                       end in
              (true, settle_target_failure r s definition detail)
        end
    end.

Definition decision_outcome (decision : RecoveryDecision) : RecoveryHandlerOutcome Cause :=
  match dec_kind decision with
  | Recheck => OutcomeRecheck (dec_summary decision) (dec_reason decision)
  | GaveUp => OutcomeGaveUp (dec_summary decision) (dec_reason decision)
  end.

Definition apply_handler_decision r s (round : RecoveryRoundNumber) (action : ActionId)
    (decision : RecoveryDecision) : bool * Red :=
  if negb (handler_accepts (rd_state r) s round HandlerRunning action) then (false, r)
  else
    let r := map_state (set_handler_outcome s round (decision_outcome decision)) r in
    match dec_kind decision with
    | Recheck =>
        match failure ← latest_target_failure (rd_state r) s;
              execution_next (ptf_execution_number failure) with
        | None => (false, r)
        | Some execution_number =>
            match def_step (rd_state r) s with
            | None => (false, r)
            | Some definition =>
                let inputs := resolved_action_inputs (rd_state r) definition in
                (true, authorize_target r s execution_number inputs)
            end
        end
    | GaveUp =>
        let r := map_state (set_recovery_disposition s (RecoveryGaveUp round)) r in
        (true, settle_latest_target_failure r s)
    end.

Definition apply_handler_failure r s (round : RecoveryRoundNumber) (action : ActionId)
    (expected : RecoveryHandlerActivity) (phase : RecoveryHandlerFailurePhase) (cause : Cause) : bool * Red :=
  if negb (handler_accepts (rd_state r) s round expected action) then (false, r)
  else
    let r := map_state (set_handler_outcome s round (OutcomeFailed phase cause)) r in
    let r := map_state (set_recovery_disposition s (RecoveryHandlerFailed round phase)) r in
    (true, settle_latest_target_failure r s).

(** ** Occurrences *)

Definition apply_execution_completed r s (action : ActionId) (provisional : Provisional) : bool * Red :=
  if negb (step_accepts (rd_state r) s KRunning action) then
    (false,
     if requires_release provisional
     then push_action {| ra_id := action; ra_action := ReleaseStepResources provisional |} r else r)
  else
    let '(sequence, r) := transition_step r s SCapturingOutputs None in
    if step_declares_outputs (rd_state r) s then
      let capture_action := for_transition sequence in
      let r := map_state (set_current_action s capture_action) r in
      (true, push_action {| ra_id := capture_action; ra_action := CaptureOutputs s provisional |} r)
    else
      let r := mark_recovered s r in
      let '(_, r) := transition_step r s (SSucceeded []) None in
      let r := map_state (clear_active_invocation s) r in
      (true,
       if requires_release provisional
       then push_action {| ra_id := for_transition sequence; ra_action := ReleaseStepResources provisional |} r
       else r).

Definition apply_occurrence r (occurrence : Occurrence Provisional Cause Output Deadline) : bool * Red :=
  match occurrence with
  | StepStarted step action =>
      if negb (step_accepts (rd_state r) step KStarting action) then (false, r)
      else (true, (transition_step r step SRunning (Some action)).2)
  | StepStartFailed step action cause => apply_step_failure r step action KStarting PhaseStart cause
  | StepExecutionCompleted step action provisional => apply_execution_completed r step action provisional
  | StepExecutionFailed step action cause => apply_step_failure r step action KRunning PhaseExecution cause
  | OutputsCaptured step action outputs =>
      if negb (step_accepts (rd_state r) step KCapturingOutputs action)
         || negb (outputs_match_declaration (rd_state r) step outputs)
      then (false, r)
      else
        let r := mark_recovered step r in
        let '(_, r) := transition_step r step (SSucceeded outputs) None in
        (true, map_state (clear_active_invocation step) r)
  | OutputCaptureFailed step action cause =>
      apply_step_failure r step action KCapturingOutputs PhaseOutputCapture cause
  | RecoveryHandlerStarted step round action =>
      if negb (handler_accepts (rd_state r) step round HandlerStarting action) then (false, r)
      else
        let r := map_state (set_handler_outcome step round OutcomeRunning) r in
        (true, (transition_step r step (SRecovering round HandlerRunning) (Some action)).2)
  | RecoveryHandlerStartFailed step round action cause =>
      apply_handler_failure r step round action HandlerStarting HandlerPhaseStart cause
  | RecoveryHandlerCompleted step round action decision => apply_handler_decision r step round action decision
  | RecoveryHandlerExecutionFailed step round action cause =>
      apply_handler_failure r step round action HandlerRunning HandlerPhaseExecution cause
  | CancellationOperationRequested operation reason deadline =>
      if bool_decide (reason = ForceAbort) || stale_operation (rd_state r) operation then (false, r)
      else apply_cancellation r {| cr_reason := reason; cr_deadline := deadline |} (Some operation)
  | OrdinaryCancellationOperationRequested operation reason deadline =>
      apply_ordinary_only_cancellation r {| cr_reason := reason; cr_deadline := deadline |} operation
  | ForceAbortRequested operation deadline =>
      if stale_operation (rd_state r) operation then (false, r)
      else apply_force_abort r operation deadline
  | StepQuiesced step action =>
      match cancelling_step (rd_state r) step action with
      | None => (false, r)
      | Some (cancelling_reason, active) =>
          let terminal_reason := if is_force_abort action then ForceAbort else cancelling_reason in
          let r := map_state (mark_recovery_cancelled step active) r in
          let '(_, r) := transition_step r step (SCancelled (cancellation_detail terminal_reason)) None in
          (true, map_state (clear_active_invocation step) r)
      end
  end.

(** ** Stabilisation *)

(** One iteration of [stabilize]. *)
Definition stabilize_round r : Red :=
  match rs_workflow (rd_state r) with
  | WExecuting _ =>
      let r := propagate_ordinary_pending_dispositions r in
      let r := evaluate_ready_conditions r RoleStep in
      let r := propagate_ordinary_pending_dispositions r in
      let r := select_ready_nodes r RoleStep in
      enter_finalization_or_finish r
  | WFinalizing _ _ _ =>
      let suppress_selected := ordinary_force_abort (rd_state r) in
      let r := if suppress_selected
               then cancel_pending_nodes (propagate_finalizer_trigger_dispositions r) RoleFinalizer ForceAbort
               else propagate_finalizer_dispositions r in
      let r := evaluate_ready_conditions r RoleFinalizer in
      let r := if suppress_selected then r else propagate_finalizer_dispositions r in
      let r := select_ready_nodes r RoleFinalizer in
      finish_finalization_if_terminal r
  | WSucceeded | WFailed _ _ | WCancelled _ => r
  end.

Fixpoint stabilize_loop (fuel : nat) r : Red :=
  match fuel with
  | O => r
  | S fuel =>
      let before := rs_last_transition_sequence (rd_state r) in
      let r := stabilize_round r in
      if decide (rs_last_transition_sequence (rd_state r) = before) then r else stabilize_loop fuel r
  end.

Definition stabilize r : Red :=
  let st := rd_state r in
  stabilize_loop
    (S (N.to_nat (def_maximum_transitions (rs_definition st) - rs_last_transition_sequence st))) r.

(** ** Reduction and initialisation *)

Definition occurrence_resource_release (occurrence : Occurrence Provisional Cause Output Deadline) : option Req :=
  match occurrence with
  | StepExecutionCompleted _ action provisional =>
      if requires_release provisional
      then Some {| ra_id := action; ra_action := ReleaseStepResources provisional |} else None
  | _ => None
  end.

Definition discard_occurrence (current : State) (occurrence : Occurrence Provisional Cause Output Deadline) : Red :=
  {| rd_state := current; rd_events := [];
     rd_actions := match occurrence_resource_release occurrence with Some a => [a] | None => [] end;
     rd_occurrence_accepted := false |}.

Definition is_finished (w : WorkflowState Deadline) : bool :=
  match w with WSucceeded | WFailed _ _ | WCancelled _ => true | WExecuting _ | WFinalizing _ _ _ => false end.

Definition begin (current : State) : Red :=
  {| rd_state := current; rd_events := []; rd_actions := []; rd_occurrence_accepted := false |}.

Definition reduce (current : State) (occurrence : Occurrence Provisional Cause Output Deadline) : Red :=
  if is_finished (rs_workflow current) then discard_occurrence current occurrence
  else
    let '(applied, r) := apply_occurrence (begin current) occurrence in
    if negb applied then r else stabilize (set_accepted true r).

Definition initial_step (seed : ExecutionSeed Output) s (definition : RuntimeStep) : Step :=
  let inherited := bt_get seed s in
  {| ss_state := match inherited with
                 | None => SPending
                 | Some seed => SInherited (seed_detail seed) (seed_disposition seed) (seed_outputs seed)
                 end;
     ss_current_action := None;
     ss_target_execution := None;
     ss_target_invocation := None;
     ss_active_invocation := None;
     ss_recovery := match inherited with
                    | Some _ => None
                    | None => (λ recovery, {| sr_configured_rounds := rr_retries recovery;
                                              sr_handler_kind := rr_handler_kind recovery;
                                              sr_rounds := []; sr_terminal_disposition := None |})
                              <$> rt_recovery definition
                    end;
     ss_condition_passed := false |}.

Definition seed_output_producers (seed : ExecutionSeed Output) : gmap (string * string) OutputProducer :=
  list_to_map (mjoin ((λ '(step, seed), (λ '(output, producer), ((step, output), producer)) <$> seed_producers seed)
                      <$> seed)).

Definition initial_state (definition : RuntimeDefinition) (seed : ExecutionSeed Output) : State :=
  {| rs_definition := definition;
     rs_workflow := WExecuting GateOpen;
     rs_steps := list_to_map ((λ '(step, definition), (step, initial_step seed step definition))
                              <$> def_steps definition);
     rs_output_producers := seed_output_producers seed;
     rs_exports := None;
     rs_finalization_summary := None;
     rs_finalization := None;
     rs_force_abort := None;
     rs_last_cancellation_operation := None;
     rs_last_transition_sequence := 0%N;
     rs_transition_capacity_exceeded := false |}.

Definition apply_initial_cancellation (cancellation : option (InitialCancellation Deadline)) r : Red :=
  match cancellation with
  | None => r
  | Some (InitialGraceful request operation) => (apply_cancellation r request operation).2
  | Some (InitialForceAbort operation deadline) => (apply_force_abort r operation deadline).2
  end.

Definition initialize_seeded_definition (definition : RuntimeDefinition)
    (initial_cancellation : option (InitialCancellation Deadline)) (seed : ExecutionSeed Output) : Red :=
  stabilize (apply_initial_cancellation initial_cancellation
               (set_accepted true (begin (initial_state definition seed)))).

Definition initialize_seeded_with_operation (admitted : AdmittedWorkflow) (seed : ExecutionSeed Output)
    (initial_cancellation : option (InitialCancellation Deadline)) : Red :=
  initialize_seeded_definition (from_admitted admitted) initial_cancellation seed.
End reducer.
