(* ===== verification/ExportReasons.v ===== *)
(** * Why an export is unavailable

    A run records why each export it could not make is unavailable
    ([derive_exports]), publishes it ([export_unavailable_reason]), and a
    reader checks it against the state of the node the export comes from:
    [unavailable_export_source_matches] for a result, and
    [archived_export_unavailable_reason] ([archived_attempt.rs]) for an
    archived attempt.  The three agree for every state but one. *)

From S2P Require Import Prelude Text Nodes Evidence Validated Failures Capacity Runtime RunTiming Results Publication SchemaCommon ResultMetadata DocumentChecks Reducer.

Local Open Scope list_scope.

(** ** Archived steps *)

Inductive ArchivedStepState :=
| ArchivedSucceeded | ArchivedInherited | ArchivedFailed | ArchivedBlocked | ArchivedSkipped | ArchivedNotRun | ArchivedCancelled.

Inductive ArchivedStepDetail := DetailSucceeded | DetailEvidence (detail : NodeDetail).

(** The fields of [ArchivedStep] the exports are checked with. *)
Record ArchivedStep := {
  as_id : string;
  as_role : WorkflowNodeRole;
  as_state : ArchivedStepState;
  as_inherited_data_available : bool;
  as_detail : ArchivedStepDetail
}.

Definition archived_step_data_available (step : ArchivedStep) : bool :=
  match as_state step with
  | ArchivedSucceeded => true
  | ArchivedInherited => as_inherited_data_available step
  | _ => false
  end.

Definition archived_export_unavailable_reason (step : ArchivedStep) : option ExportUnavailableReasonV1 :=
  match as_detail step, as_role step with
  | DetailEvidence (DetailFailed _), _ => Some UnavailableFailed
  | DetailEvidence (DetailBlocked _), RoleStep => Some UnavailableBlocked
  | DetailEvidence (DetailBlocked _), RoleFinalizer => Some UnavailableInputUnavailable
  | DetailEvidence (DetailNotRun detail), RoleStep =>
      match ned_code detail with FailureStop => Some UnavailableNotRun | FinalizerTriggerNotSelected => None end
  | DetailEvidence (DetailNotRun detail), RoleFinalizer =>
      match ned_code detail with FinalizerTriggerNotSelected => Some UnavailableTriggerNotSelected | FailureStop => None end
  | DetailEvidence (DetailSkipped _), _ => Some UnavailableSkipped
  | DetailEvidence (DetailInherited _), _ => if as_inherited_data_available step then None else Some UnavailableSkipped
  | DetailEvidence (DetailCancellation _), _ => Some UnavailableCancelled
  | DetailSucceeded, _ => None
  end.

(** ** Agreement *)

Section reasons.
Context `{!TimeLibrary, !Base64} {Output : Type}.

Implicit Types (step : WorkflowRunStep Output) (v : StepState Output).

Definition blocked_finalizer step : bool :=
  match wrs_state step, wrs_role step with SBlocked _, RoleFinalizer => true | _, _ => false end.

(** What an inherited step that was skipped can have been. *)
Definition inherited_skip_ok v : Prop :=
  match v with SInherited detail InhSkipped _ => id_prior_state detail ≠ PriorSucceeded | _ => True end.

Definition inherited_data v : bool :=
  match v with SInherited _ InhSucceeded _ => true | _ => false end.

(** An archived step is the published one. *)
Definition archives (archived : ArchivedStep) step (published : WorkflowStepV1) : Prop :=
  as_role archived = wrs_role step
  ∧ as_detail archived = match st_detail published with Some detail => DetailEvidence detail | None => DetailSucceeded end
  ∧ as_inherited_data_available archived = inherited_data (wrs_state step).

Definition source_of step (output : string) : ExportSourceV1 :=
  {| es_node := {| wn_id := wrs_id step; wn_role := workflow_node_role (wrs_role step) |}; es_output := output |}.

Lemma step_v1_Ok step published :
  step_v1 step = Ok published →
  st_id published = wrs_id step ∧ st_role published = workflow_node_role (wrs_role step)
  ∧ st_failure_policy published = wrs_failure_policy step
  ∧ step_state_v1 (wrs_state step) = Ok (st_state published, st_detail published)
  ∧ (st_started_at published = None ↔ wrs_timing step = None).
Proof.
  unfold step_v1. intros (timing & Ht & Hrest)%result_bind_Ok. apply result_bind_Ok in Hrest as (sd & Hs & Hrest).
  apply result_bind_Ok in Hrest as (output & _ & Hrest).
  rewrite Hs. assert (Htiming : (fst <$> timing = None ↔ wrs_timing step = None)).
  { unfold transpose in Ht. destruct (wrs_timing step) as [t|]; [|by injection Ht as <-].
    apply result_bind_Ok in Ht as (b & _ & [= <-]). done. }
  destruct (wrs_kind step), output; try done; injection Hrest as <-; simpl; by destruct sd.
Qed.

Lemma step_state_v1_kind v state detail :
  step_state_v1 v = Ok (state, detail) →
  match v with
  | SSucceeded _ => state = StateSucceeded ∧ detail = None
  | SInherited d _ _ => state = StateInherited ∧ detail = Some (DetailInherited d)
  | SFailed d => state = StateFailed ∧ detail = Some (DetailFailed d)
  | SBlocked d => state = StateBlocked ∧ detail = Some (DetailBlocked d)
  | SSkipped d => state = StateSkipped ∧ detail = Some (DetailSkipped d)
  | SNotRun d => state = StateNotRun ∧ detail = Some (DetailNotRun d)
  | SCancelled d => state = StateCancelled ∧ detail = Some (DetailCancellation d)
  | _ => False
  end.
Proof. destruct v; simpl; intros [=]; by subst. Qed.

End reasons.

(** A finalizer blocked by the step it needs, and the check of the result
    that exports one of its outputs. *)
Definition blocked_report : WorkflowRunStep string :=
  {| wrs_id := "report"; wrs_role := RoleFinalizer; wrs_kind := StepKindCommand; wrs_failure_policy := Advisory;
     wrs_state := SBlocked {| bd_prerequisites := [PControl "collect"] |}; wrs_timing := None;
     wrs_command_output := None; wrs_recovery := None; wrs_invocations := [] |}.

Definition published_report : WorkflowStepV1 :=
  {| st_id := "report"; st_role := NodeFinalizerV1; st_kind := "cmd"; st_failure_policy := Advisory;
     st_state := StateBlocked; st_recovery := None; st_invocations := []; st_started_at := None;
     st_duration_milliseconds := None; st_detail := Some (DetailBlocked {| bd_prerequisites := [PControl "collect"] |});
     st_command_output := None |}.

Definition archived_report : ArchivedStep :=
  {| as_id := "report"; as_role := RoleFinalizer; as_state := ArchivedBlocked; as_inherited_data_available := false;
     as_detail := DetailEvidence (DetailBlocked {| bd_prerequisites := [PControl "collect"] |}) |}.

