(* ===== verification/OccurrenceDigest.v ===== *)
(** * The identity and content of driver occurrences ([coordinator.rs])

    The coordinator recognises a repeated occurrence by its identity and by a
    digest of its content.  The content is a sequence of bytes that this file
    writes as the source does; the digest is SHA-256 of the [ring] crate, a
    parameter.  The encoding is unambiguous: two occurrences with the same
    content are the same occurrence. *)

From S2P Require Import Prelude Text Nodes Evidence Condition Validated Runtime.

(** The occurrences a driver may report: [DriverDeadline] has no values, so
    no cancellation is among them. *)
Definition DriverOccurrence (Provisional Cause Output : Type) : Type :=
  Occurrence Provisional Cause Output Empty_set.

(** ** The encoder *)

Definition byte_of (n : N) : ascii := Ascii.ascii_of_N (n mod 256).

(** [u64::to_be_bytes]. *)
Fixpoint be_bytes (count : nat) (value : N) : list ascii :=
  match count with
  | O => []
  | S count => (be_bytes count (value / 256) ++ [byte_of value])%list
  end.

Definition write_tag (tag : N) : list ascii := [byte_of tag].
Definition write_u64 (value : N) : list ascii := be_bytes 8 value.
Definition write_bytes (content : list ascii) : list ascii :=
  (write_u64 (N.min u64_max (N.of_nat (length content))) ++ content)%list.

(** [trait DriverOccurrenceContent]: what a payload adds to the digest. *)
Class DriverOccurrenceContent (A : Type) := { update_occurrence_digest : A → list ascii }.

(** [impl DriverOccurrenceContent for String]. *)
#[export] Instance string_occurrence_content : DriverOccurrenceContent string :=
  {| update_occurrence_digest s := write_bytes (bytes s) |}.

Definition write_step_action (step : string) (action : ActionId) : list ascii :=
  (write_bytes (bytes step) ++ write_u64 action)%list.

Definition write_step_round_action (step : string) (round : RecoveryRoundNumber) (action : ActionId) : list ascii :=
  (write_step_action step action ++ write_tag round)%list.

Section content.
Context {Provisional Cause Output : Type}.
Context `{!DriverOccurrenceContent Provisional, !DriverOccurrenceContent Cause, !DriverOccurrenceContent Output}.

Fixpoint write_outputs (outputs : OutputSet Output) : list ascii :=
  match outputs with
  | [] => []
  | (name, output) :: outputs =>
      (write_bytes (bytes name) ++ update_occurrence_digest output ++ write_outputs outputs)%list
  end.

(** What [occurrence_content_digest] feeds to the digest after the domain. *)
Definition occurrence_content (occurrence : DriverOccurrence Provisional Cause Output) : list ascii :=
  (match occurrence with
   | StepStarted step action => write_tag 0 ++ write_step_action step action
   | StepStartFailed step action cause =>
       write_tag 1 ++ write_step_action step action ++ update_occurrence_digest cause
   | StepExecutionCompleted step action provisional =>
       write_tag 2 ++ write_step_action step action ++ update_occurrence_digest provisional
   | StepExecutionFailed step action cause =>
       write_tag 3 ++ write_step_action step action ++ update_occurrence_digest cause
   | OutputsCaptured step action outputs =>
       write_tag 4 ++ write_step_action step action
       ++ write_u64 (N.min u64_max (N.of_nat (length outputs))) ++ write_outputs outputs
   | OutputCaptureFailed step action cause =>
       write_tag 5 ++ write_step_action step action ++ update_occurrence_digest cause
   | RecoveryHandlerStarted step round action => write_tag 6 ++ write_step_round_action step round action
   | RecoveryHandlerStartFailed step round action cause =>
       write_tag 7 ++ write_step_round_action step round action ++ update_occurrence_digest cause
   | RecoveryHandlerCompleted step round action decision =>
       write_tag 8 ++ write_step_round_action step round action
       ++ write_tag (match dec_kind decision with Recheck => 0 | GaveUp => 1 end)
       ++ write_bytes (bytes (dec_summary decision)) ++ write_bytes (bytes (dec_reason decision))
   | RecoveryHandlerExecutionFailed step round action cause =>
       write_tag 9 ++ write_step_round_action step round action ++ update_occurrence_digest cause
   | StepQuiesced step action => write_tag 10 ++ write_step_action step action
   | CancellationOperationRequested _ _ deadline
   | OrdinaryCancellationOperationRequested _ _ deadline
   | ForceAbortRequested _ deadline => match deadline with end
   end)%list.
End content.

(** ** The digest and the identity *)

(** [ring::digest] with SHA-256. *)
Class Sha256 := { sha256 : list ascii → list ascii }.

Definition OCCURRENCE_DIGEST_DOMAIN : list ascii :=
  (bytes "scherzo-driver-occurrence-content" ++ [byte_of 0])%list.

Definition occurrence_content_digest `{!Sha256} {Provisional Cause Output}
    `{!DriverOccurrenceContent Provisional, !DriverOccurrenceContent Cause, !DriverOccurrenceContent Output}
    (occurrence : DriverOccurrence Provisional Cause Output) : list ascii :=
  sha256 (OCCURRENCE_DIGEST_DOMAIN ++ occurrence_content occurrence)%list.

Inductive DriverOccurrenceKind :=
| DStepStarted
| DStepStartFailed
| DStepExecutionCompleted
| DStepExecutionFailed
| DOutputsCaptured
| DOutputCaptureFailed
| DRecoveryHandlerStarted
| DRecoveryHandlerStartFailed
| DRecoveryHandlerCompleted
| DRecoveryHandlerExecutionFailed
| DStepQuiesced.

#[export] Instance DriverOccurrenceKind_eq_dec : EqDecision DriverOccurrenceKind.
Proof. solve_decision. Defined.

Definition kind_rank (kind : DriverOccurrenceKind) : N :=
  match kind with
  | DStepStarted => 0 | DStepStartFailed => 1 | DStepExecutionCompleted => 2 | DStepExecutionFailed => 3
  | DOutputsCaptured => 4 | DOutputCaptureFailed => 5 | DRecoveryHandlerStarted => 6
  | DRecoveryHandlerStartFailed => 7 | DRecoveryHandlerCompleted => 8 | DRecoveryHandlerExecutionFailed => 9
  | DStepQuiesced => 10
  end.

Definition kind_of_rank (n : N) : option DriverOccurrenceKind :=
  [DStepStarted; DStepStartFailed; DStepExecutionCompleted; DStepExecutionFailed; DOutputsCaptured;
   DOutputCaptureFailed; DRecoveryHandlerStarted; DRecoveryHandlerStartFailed; DRecoveryHandlerCompleted;
   DRecoveryHandlerExecutionFailed; DStepQuiesced] !! N.to_nat n.

#[export] Program Instance DriverOccurrenceKind_countable : Countable DriverOccurrenceKind :=
  inj_countable kind_rank kind_of_rank _.
Next Obligation. by intros []. Qed.

Record DriverOccurrenceIdentity := {
  doi_action : ActionId;
  doi_kind : DriverOccurrenceKind;
  doi_round : option RecoveryRoundNumber
}.

#[export] Instance DriverOccurrenceIdentity_eq_dec : EqDecision DriverOccurrenceIdentity.
Proof. solve_decision. Defined.

#[export] Program Instance DriverOccurrenceIdentity_countable : Countable DriverOccurrenceIdentity :=
  inj_countable' (λ i, (doi_action i, doi_kind i, doi_round i))
    (λ '(a, k, r), {| doi_action := a; doi_kind := k; doi_round := r |}) _.
Next Obligation. by intros []. Qed.

(** [DriverOccurrence::identity]. *)
Definition identity {Provisional Cause Output} (occurrence : DriverOccurrence Provisional Cause Output)
    : DriverOccurrenceIdentity :=
  let make action kind round := {| doi_action := action; doi_kind := kind; doi_round := round |} in
  match occurrence with
  | StepStarted _ action => make action DStepStarted None
  | StepStartFailed _ action _ => make action DStepStartFailed None
  | StepExecutionCompleted _ action _ => make action DStepExecutionCompleted None
  | StepExecutionFailed _ action _ => make action DStepExecutionFailed None
  | OutputsCaptured _ action _ => make action DOutputsCaptured None
  | OutputCaptureFailed _ action _ => make action DOutputCaptureFailed None
  | RecoveryHandlerStarted _ round action => make action DRecoveryHandlerStarted (Some round)
  | RecoveryHandlerStartFailed _ round action _ => make action DRecoveryHandlerStartFailed (Some round)
  | RecoveryHandlerCompleted _ round action _ => make action DRecoveryHandlerCompleted (Some round)
  | RecoveryHandlerExecutionFailed _ round action _ => make action DRecoveryHandlerExecutionFailed (Some round)
  | StepQuiesced _ action => make action DStepQuiesced None
  | CancellationOperationRequested _ _ deadline
  | OrdinaryCancellationOperationRequested _ _ deadline
  | ForceAbortRequested _ deadline => match deadline with end
  end.

(** [DriverOccurrence::into_runtime]. *)
Definition into_runtime {Provisional Cause Output Deadline} (occurrence : DriverOccurrence Provisional Cause Output)
    : Occurrence Provisional Cause Output Deadline :=
  match occurrence with
  | StepStarted step action => StepStarted step action
  | StepStartFailed step action cause => StepStartFailed step action cause
  | StepExecutionCompleted step action provisional => StepExecutionCompleted step action provisional
  | StepExecutionFailed step action cause => StepExecutionFailed step action cause
  | OutputsCaptured step action outputs => OutputsCaptured step action outputs
  | OutputCaptureFailed step action cause => OutputCaptureFailed step action cause
  | RecoveryHandlerStarted step round action => RecoveryHandlerStarted step round action
  | RecoveryHandlerStartFailed step round action cause => RecoveryHandlerStartFailed step round action cause
  | RecoveryHandlerCompleted step round action decision => RecoveryHandlerCompleted step round action decision
  | RecoveryHandlerExecutionFailed step round action cause => RecoveryHandlerExecutionFailed step round action cause
  | StepQuiesced step action => StepQuiesced step action
  | CancellationOperationRequested _ _ deadline
  | OrdinaryCancellationOperationRequested _ _ deadline
  | ForceAbortRequested _ deadline => match deadline with end
  end.

(** ** The encoding is unambiguous *)

Lemma be_bytes_length n v : length (be_bytes n v) = n.
Proof. revert v. induction n as [|n IH]; intros v; simpl; [done|]. rewrite length_app, IH. simpl. lia. Qed.

Lemma byte_of_inj a b : (a < 256)%N → (b < 256)%N → byte_of a = byte_of b → a = b.
Proof.
  intros Ha Hb Heq. unfold byte_of in Heq. rewrite !N.mod_small in Heq by done.
  apply (f_equal Ascii.N_of_ascii) in Heq. by rewrite !Ascii.N_ascii_embedding in Heq.
Qed.

Lemma be_bytes_inj n a b :
  (a < 256 ^ N.of_nat n)%N → (b < 256 ^ N.of_nat n)%N → be_bytes n a = be_bytes n b → a = b.
Proof.
  revert a b. induction n as [|n IH]; intros a b Ha Hb Heq.
  { simpl in *. lia. }
  simpl in Heq. apply app_inj_2 in Heq as [Hhi Hlo]; [|done]. injection Hlo as Hlo.
  rewrite Nat2N.inj_succ, N.pow_succ_r' in Ha, Hb.
  apply IH in Hhi; [|by apply N.Div0.div_lt_upper_bound|by apply N.Div0.div_lt_upper_bound].
  unfold byte_of in Hlo. apply (f_equal Ascii.N_of_ascii) in Hlo.
  rewrite !Ascii.N_ascii_embedding in Hlo by (apply N.mod_lt; done).
  rewrite (N.div_mod a 256), (N.div_mod b 256) by done. by rewrite Hhi, Hlo.
Qed.

Lemma write_u64_prefix a b r r' :
  (a <= u64_max)%N → (b <= u64_max)%N → (write_u64 a ++ r = write_u64 b ++ r')%list → a = b ∧ r = r'.
Proof.
  intros Ha Hb Heq. apply app_inj_1 in Heq as [Heq ->]; [|by unfold write_u64; rewrite !be_bytes_length].
  split; [|done]. apply (be_bytes_inj 8); [..|done]; unfold u64_max in *; simpl; lia.
Qed.

(** Texts that fit in memory. *)
Definition text_fits (l : list ascii) : Prop := (N.of_nat (length l) <= u64_max)%N.

Lemma write_bytes_prefix a b r r' :
  text_fits a → text_fits b → (write_bytes a ++ r = write_bytes b ++ r')%list → a = b ∧ r = r'.
Proof.
  intros Ha Hb Heq. unfold write_bytes in Heq. rewrite <-!app_assoc in Heq.
  apply write_u64_prefix in Heq as [Hlen Heq]; [|unfold text_fits in *; lia..].
  unfold text_fits in *. apply app_inj_1 in Heq; [done|lia].
Qed.

Lemma write_tag_prefix a b r r' :
  (a < 256)%N → (b < 256)%N → (write_tag a ++ r = write_tag b ++ r')%list → a = b ∧ r = r'.
Proof. intros Ha Hb [= Heq ->]. split; [|done]. by apply byte_of_inj. Qed.

(** What the trait asks of its implementations: a payload that fits is
    determined by what it writes, wherever it stands. *)
Class ContentLaws (A : Type) `{!DriverOccurrenceContent A} := {
  content_fits : A → Prop;
  content_prefix a b r r' : content_fits a → content_fits b →
    (update_occurrence_digest a ++ r = update_occurrence_digest b ++ r')%list → a = b ∧ r = r'
}.

#[export] Instance string_content_laws : ContentLaws string.
Proof.
  unshelve econstructor; [exact (λ s, text_fits (bytes s))|].
  intros a b r r' Ha Hb Heq. destruct (write_bytes_prefix (bytes a) (bytes b) r r' Ha Hb Heq) as [Hab Hr].
  split; [by apply bytes_inj|done].
Defined.

Section unambiguous.
Context {Provisional Cause Output : Type}.
Context `{!DriverOccurrenceContent Provisional, !DriverOccurrenceContent Cause, !DriverOccurrenceContent Output}.
Context `{!ContentLaws Provisional, !ContentLaws Cause, !ContentLaws Output}.

Implicit Types o : DriverOccurrence Provisional Cause Output.

Definition step_action_fits (step : string) (action : ActionId) : Prop := text_fits (bytes step) ∧ (action <= u64_max)%N.

(** Every number is within its width and every text within memory. *)
Definition occurrence_fits o : Prop :=
  match o with
  | StepStarted s a | StepQuiesced s a => step_action_fits s a
  | StepStartFailed s a c | StepExecutionFailed s a c | OutputCaptureFailed s a c =>
      step_action_fits s a ∧ content_fits c
  | StepExecutionCompleted s a p => step_action_fits s a ∧ content_fits p
  | OutputsCaptured s a l =>
      step_action_fits s a ∧ (N.of_nat (length l) <= u64_max)%N
      ∧ Forall (λ '(name, output), text_fits (bytes name) ∧ content_fits output) l
  | RecoveryHandlerStarted s n a => step_action_fits s a ∧ (n < 256)%N
  | RecoveryHandlerStartFailed s n a c | RecoveryHandlerExecutionFailed s n a c =>
      step_action_fits s a ∧ (n < 256)%N ∧ content_fits c
  | RecoveryHandlerCompleted s n a d =>
      step_action_fits s a ∧ (n < 256)%N ∧ text_fits (bytes (dec_summary d)) ∧ text_fits (bytes (dec_reason d))
  | CancellationOperationRequested _ _ deadline
  | OrdinaryCancellationOperationRequested _ _ deadline
  | ForceAbortRequested _ deadline => match deadline with end
  end.

Lemma write_step_action_prefix s t a b r r' :
  step_action_fits s a → step_action_fits t b →
  (write_step_action s a ++ r = write_step_action t b ++ r')%list → s = t ∧ a = b ∧ r = r'.
Proof.
  intros [Hs Ha] [Ht Hb] Heq. unfold write_step_action in Heq. rewrite <-!app_assoc in Heq.
  apply write_bytes_prefix in Heq as [<-%bytes_inj Heq]; [|done..].
  by apply write_u64_prefix in Heq as [<- <-].
Qed.

Lemma write_step_round_action_prefix s t n m a b r r' :
  step_action_fits s a → step_action_fits t b → (n < 256)%N → (m < 256)%N →
  (write_step_round_action s n a ++ r = write_step_round_action t m b ++ r')%list → s = t ∧ n = m ∧ a = b ∧ r = r'.
Proof.
  intros Hs Ht Hn Hm Heq. unfold write_step_round_action in Heq. rewrite <-!app_assoc in Heq.
  apply write_step_action_prefix in Heq as (<- & <- & Heq); [|done..].
  by apply write_tag_prefix in Heq as [<- <-].
Qed.

Lemma write_outputs_inj (l k : OutputSet Output) :
  Forall (λ '(name, output), text_fits (bytes name) ∧ content_fits output) l →
  Forall (λ '(name, output), text_fits (bytes name) ∧ content_fits output) k →
  length l = length k → write_outputs l = write_outputs k → l = k.
Proof.
  intros Hl. revert k. induction Hl as [|[name output] l [Hn Ho] _ IH]; intros [|[name' output'] k] Hk Hlen Heq; try done.
  apply Forall_cons in Hk as [[Hn' Ho'] Hk]. cbn [write_outputs] in Heq.
  apply write_bytes_prefix in Heq as [<-%bytes_inj Heq]; [|done..].
  apply content_prefix in Heq as [<- Heq]; [|done..]. f_equal. apply IH; [done|simpl in Hlen; lia|done].
Qed.

Lemma content_inj {A} `{ContentLaws A} (a b : A) :
  content_fits a → content_fits b → update_occurrence_digest a = update_occurrence_digest b → a = b.
Proof.
  intros Ha Hb Heq. apply (f_equal (λ l, l ++ [])%list) in Heq. by apply content_prefix in Heq as [-> _].
Qed.

Lemma kind_rank_small kind : (kind_rank kind < 256)%N.
Proof. destruct kind; simpl; lia. Qed.

(** The first byte is the rank of the occurrence's kind. *)
Lemma occurrence_content_kind o o' :
  occurrence_content o = occurrence_content o' → doi_kind (identity o) = doi_kind (identity o').
Proof.
  assert (Htag : ∀ o, ∃ r, occurrence_content o = (write_tag (kind_rank (doi_kind (identity o))) ++ r)%list)
    by (intros []; first [by destruct deadline | by eexists]).
  destruct (Htag o) as [r ->], (Htag o') as [r' ->].
  intros [Heq _]%write_tag_prefix; [|apply kind_rank_small..].
  apply (f_equal kind_of_rank) in Heq. by destruct (doi_kind (identity o)), (doi_kind (identity o')).
Qed.

Lemma occurrence_content_inj o o' :
  occurrence_fits o → occurrence_fits o' → occurrence_content o = occurrence_content o' → o = o'.
Proof.
  destruct o as [s a|s a c|s a p|s a c|s a l|s a c|s n a|s n a c|s n a d|s n a c|? ? []|? ? []|? []|s a];
    destruct o' as [s' a'|s' a' c'|s' a' p'|s' a' c'|s' a' l'|s' a' c'|s' n' a'|s' n' a' c'|s' n' a' d'|s' n' a' c'
                   |? ? []|? ? []|? []|s' a'];
    intros Ho Ho' Heq; pose proof (occurrence_content_kind _ _ Heq) as Hkind; try discriminate Hkind; clear Hkind;
    cbn [occurrence_content occurrence_fits] in *; apply write_tag_prefix in Heq as [_ Heq]; try done;
    split_hyps.
  - apply (f_equal (λ l, l ++ [])%list) in Heq. by apply write_step_action_prefix in Heq as (-> & -> & _).
  - apply write_step_action_prefix in Heq as (-> & -> & Heq); [|done..]. f_equal. by apply content_inj.
  - apply write_step_action_prefix in Heq as (-> & -> & Heq); [|done..]. f_equal. by apply content_inj.
  - apply write_step_action_prefix in Heq as (-> & -> & Heq); [|done..]. f_equal. by apply content_inj.
  - apply write_step_action_prefix in Heq as (-> & -> & Heq); [|done..]. apply write_u64_prefix in Heq as [Hlen Heq]; [|lia..].
    f_equal. apply write_outputs_inj; [done..|lia|done].
  - apply write_step_action_prefix in Heq as (-> & -> & Heq); [|done..]. f_equal. by apply content_inj.
  - apply (f_equal (λ l, l ++ [])%list) in Heq. by apply write_step_round_action_prefix in Heq as (-> & -> & -> & _).
  - apply write_step_round_action_prefix in Heq as (-> & -> & -> & Heq); [|done..]. f_equal. by apply content_inj.
  - apply write_step_round_action_prefix in Heq as (-> & -> & -> & Heq); [|done..].
    apply write_tag_prefix in Heq as [Hkind Heq]; [|by destruct (dec_kind d)|by destruct (dec_kind d')].
    apply write_bytes_prefix in Heq as [Hsum%bytes_inj Heq]; [|done..]. apply (f_equal (λ l, l ++ [])%list) in Heq.
    apply write_bytes_prefix in Heq as [Hreason%bytes_inj _]; [|done..]. f_equal.
    destruct d as [[] ? ?], d' as [[] ? ?]; simpl in *; by subst.
  - apply write_step_round_action_prefix in Heq as (-> & -> & -> & Heq); [|done..]. f_equal. by apply content_inj.
  - apply (f_equal (λ l, l ++ [])%list) in Heq. by apply write_step_action_prefix in Heq as (-> & -> & _).
Qed.

(** C26: a repeated occurrence is recognised exactly: unless SHA-256 collides
    on their contents, two occurrences that fit in memory have the same digest
    only if they are the same occurrence, so a conflict is never mistaken for
    a repetition. *)
Theorem equal_digests_equal_occurrences `{!Sha256} o o' :
  occurrence_fits o → occurrence_fits o' →
  (∀ l k, sha256 l = sha256 k → l = (OCCURRENCE_DIGEST_DOMAIN ++ occurrence_content o)%list →
          k = (OCCURRENCE_DIGEST_DOMAIN ++ occurrence_content o')%list → l = k) →
  occurrence_content_digest o = occurrence_content_digest o' ↔ o = o'.
Proof.
  intros Ho Ho' Hsha. split; [|by intros ->]. intros Heq. apply occurrence_content_inj; [done..|].
  eapply (app_inv_head OCCURRENCE_DIGEST_DOMAIN). by eapply Hsha.
Qed.
End unambiguous.

(** The first bytes of the text stand for a digest here. *)
Lemma equal_digests_equal_occurrences_witness :
  let H : Sha256 := {| sha256 l := l |} in
  let o : DriverOccurrence string string string := StepExecutionFailed "build" 3 "exit 1" in
  let o' : DriverOccurrence string string string := StepExecutionFailed "build" 3 "exit 2" in
  occurrence_content_digest o = occurrence_content_digest o' ↔ o = o'.
Proof.
  cbv zeta. set (H := {| sha256 l := l |} : Sha256).
  apply (equal_digests_equal_occurrences (H := H)).
  - split; [split|]; vm_compute; discriminate.
  - split; [split|]; vm_compute; discriminate.
  - intros l k Heq _ _. exact Heq.
Defined.
