(* ===== verification/Coordinator.v ===== *)
(** * The coordinator ([coordinator.rs])

    The task that drives the reducer: it waits for a cancellation operation
    or for an occurrence of a driver, reduces it, commits the result and only
    then releases the requested actions.

    What happens outside the task is given turn by turn: each pass of the
    inner loop of [run] is a [Turn], which says what the clock reads, which
    requests other threads made before the queue was read, before the commit
    and while it was in flight, which branch of [select!] was taken, and
    whether the commit succeeded.  The channel of driver deliveries is the
    list of everything the drivers send, in order; it ends when the last
    sender is dropped.  What the task does is the list of its effects. *)

From S2P Require Import Prelude Text Nodes Evidence Condition Validated Runtime CancellationSource Reducer OccurrenceDigest.

Abbreviation OccurrenceOrdinal := N.

(** [OccurrenceOrdinal::next]. *)
Definition ordinal_next (ordinal : OccurrenceOrdinal) : option OccurrenceOrdinal := u64_add ordinal 1.

(** Requests of other threads; only the coordinator arms finalization. *)
Inductive Request :=
| ReqCancellation (reason : CancellationReason)
| ReqOrdinaryCancellation (reason : CancellationReason)
| ReqForceAbort.

Definition run_request (st : CancellationOperationState) (request : Request) : CancellationOperationState :=
  match request with
  | ReqCancellation reason => (request_cancellation reason st).2
  | ReqOrdinaryCancellation reason => (request_ordinary_cancellation reason st).2
  | ReqForceAbort => (request_force_abort st).2
  end.

Inductive CommittedActionKind :=
| KindStartStep
| KindStartRecoveryHandler
| KindCaptureOutputs
| KindCancelStep
| KindForceAbortStep
| KindFinishRun.

Record CommittedAction := {
  ca_id : ActionId;
  ca_kind : CommittedActionKind;
  ca_step : option string;
  ca_execution_number : option TargetExecutionNumber;
  ca_recovery_round : option RecoveryRoundNumber
}.

Inductive CoordinationDiagnostic := DiagTransitionCapacityExceeded.

(** [run] itself returns the errors from [CommitFailed] on. *)
Inductive CoordinationError :=
| ArtifactStagingMismatch
| InputStagingMismatch
| AgentInputStagingMismatch
| AgentRuntimeUnavailable
| CommitFailed
| OccurrenceChannelClosed
| OccurrenceConflict
| OccurrenceIdentityCapacityExceeded
| OccurrenceOrdinalExhausted
| ReducerStateUnavailable
| TransitionCapacityExceeded.

(** [trait CoordinatorClock]: instants to which a duration can be added. *)
Class CoordinatorClock (Instant : Type) := {
  ClockDuration : Type;
  instant_add : Instant → ClockDuration → Instant
}.

Section coordinator.
Context {Provisional Cause Output Instant : Type}.
Context `{!SerdeJson, !NodeFailureSource Cause, !ConditionOutput Output, !ProvisionalStepResources Provisional}.
Context `{!DriverOccurrenceContent Provisional, !DriverOccurrenceContent Cause, !DriverOccurrenceContent Output}.
Context `{!Sha256, !CoordinatorClock Instant}.

Local Abbreviation State := (RuntimeState Cause Output Instant).
Local Abbreviation Red := (Reduction Provisional Cause Output Instant).
Local Abbreviation Occ := (Occurrence Provisional Cause Output Instant).
Local Abbreviation Req := (RequestedAction Provisional Cause Output Instant).
Local Abbreviation DOcc := (DriverOccurrence Provisional Cause Output).

Record CommittedReduction := {
  cm_occurrence_ordinal : OccurrenceOrdinal;
  cm_occurrence_accepted : bool;
  cm_state : State;
  cm_events : list (TransitionEvent Instant);
  cm_actions : list CommittedAction;
  cm_diagnostic : option CoordinationDiagnostic
}.

(** What the task does: it commits, with the answer of the commit port; it
    answers an acknowledged delivery; it releases an action. *)
Inductive Effect :=
| ECommit (commit : CommittedReduction) (ok : bool)
| EDecision (accepted : bool)
| ERelease (action : Req).

(** ** Deliveries *)

(** [Claimed] carries how its two channels end: whether the driver still
    waits for the claim to be observed, and whether it then publishes. *)
Inductive DriverOccurrenceDelivery :=
| Ready (occurrence : DOcc)
| Claimed (occurrence : DOcc) (observed publish : bool)
| Acknowledged (occurrence : DOcc).

(** The acknowledgement is the flag of [SelResolved]. *)
Inductive SelectedDriverOccurrence :=
| SelResolved (occurrence : DOcc) (acknowledgement : bool)
| SelClaimed (occurrence : DOcc) (publish : bool)
| SelDiscarded (occurrence : DOcc).

Definition select (delivery : DriverOccurrenceDelivery) : SelectedDriverOccurrence :=
  match delivery with
  | Ready occurrence => SelResolved occurrence false
  | Claimed occurrence observed publish =>
      if observed then SelClaimed occurrence publish else SelDiscarded occurrence
  | Acknowledged occurrence => SelResolved occurrence true
  end.

Definition is_resolved (selected : SelectedDriverOccurrence) : bool :=
  match selected with SelResolved _ _ => true | _ => false end.

Definition resolve (selected : SelectedDriverOccurrence) : result (DOcc * bool) DOcc :=
  match selected with
  | SelResolved occurrence acknowledgement => Ok (occurrence, acknowledgement)
  | SelClaimed occurrence publish => if publish then Ok (occurrence, false) else Err occurrence
  | SelDiscarded occurrence => Err occurrence
  end.

(** ** Turns *)

Inductive TurnInput :=
| CancellationClosed
| CancellationChanged
| DriverReady.

Record Turn := {
  turn_now : Instant;
  turn_requests : list Request;
  turn_input : TurnInput;
  turn_requests_before_commit : list Request;
  turn_requests_during_commit : list Request;
  turn_commit_ok : bool
}.

Record Coordinator := {
  co_state : option State;
  co_ordinal : OccurrenceOrdinal;
  co_observed : gmap DriverOccurrenceIdentity (list ascii);
  co_source : CancellationOperationState;
  co_next_index : nat;
  co_pending : option DriverOccurrenceDelivery;
  co_channel : list DriverOccurrenceDelivery;
  co_effects : list Effect
}.

Implicit Types (c : Coordinator) (t : Turn).

Definition put_state (state : option State) c : Coordinator :=
  {| co_state := state; co_ordinal := co_ordinal c; co_observed := co_observed c; co_source := co_source c;
     co_next_index := co_next_index c; co_pending := co_pending c; co_channel := co_channel c;
     co_effects := co_effects c |}.
Definition set_ordinal (ordinal : OccurrenceOrdinal) c : Coordinator :=
  {| co_state := co_state c; co_ordinal := ordinal; co_observed := co_observed c; co_source := co_source c;
     co_next_index := co_next_index c; co_pending := co_pending c; co_channel := co_channel c;
     co_effects := co_effects c |}.
Definition set_observed (observed : gmap DriverOccurrenceIdentity (list ascii)) c : Coordinator :=
  {| co_state := co_state c; co_ordinal := co_ordinal c; co_observed := observed; co_source := co_source c;
     co_next_index := co_next_index c; co_pending := co_pending c; co_channel := co_channel c;
     co_effects := co_effects c |}.
Definition set_source (source : CancellationOperationState) (next_index : nat) c : Coordinator :=
  {| co_state := co_state c; co_ordinal := co_ordinal c; co_observed := co_observed c; co_source := source;
     co_next_index := next_index; co_pending := co_pending c; co_channel := co_channel c;
     co_effects := co_effects c |}.
Definition set_channel (pending : option DriverOccurrenceDelivery) (channel : list DriverOccurrenceDelivery) c
    : Coordinator :=
  {| co_state := co_state c; co_ordinal := co_ordinal c; co_observed := co_observed c; co_source := co_source c;
     co_next_index := co_next_index c; co_pending := pending; co_channel := channel;
     co_effects := co_effects c |}.
Definition emit (effects : list Effect) c : Coordinator :=
  {| co_state := co_state c; co_ordinal := co_ordinal c; co_observed := co_observed c; co_source := co_source c;
     co_next_index := co_next_index c; co_pending := co_pending c; co_channel := co_channel c;
     co_effects := (co_effects c ++ effects)%list |}.

Definition requests (l : list Request) c : Coordinator :=
  set_source (foldl run_request (co_source c) l) (co_next_index c) c.

(** [recv_delivery]: the retained delivery first, then the channel. *)
Definition recv_delivery c : option DriverOccurrenceDelivery * Coordinator :=
  match co_pending c with
  | Some delivery => (Some delivery, set_channel None (co_channel c) c)
  | None =>
      match co_channel c with
      | delivery :: channel => (Some delivery, set_channel None channel c)
      | [] => (None, c)
      end
  end.

Definition retain_delivery (delivery : DriverOccurrenceDelivery) c : Coordinator :=
  set_channel (Some delivery) (co_channel c) c.

(** ** Actions *)

Definition action_resource_release (requested : Req) : option Req :=
  match ra_action requested with
  | CaptureOutputs _ provisional =>
      if requires_release provisional
      then Some {| ra_id := ra_id requested; ra_action := ReleaseStepResources provisional |} else None
  | ReleaseStepResources provisional => Some requested
  | StartStep _ _ _ | StartRecoveryHandler _ _ _ _ | CancelStep _ _ _ _ | ForceAbortStep _ _ _ _ | FinishRun _ _ => None
  end.

Definition committed_action (requested : Req) : option CommittedAction :=
  let make kind step execution_number recovery_round :=
    Some {| ca_id := ra_id requested; ca_kind := kind; ca_step := step;
            ca_execution_number := execution_number; ca_recovery_round := recovery_round |} in
  match ra_action requested with
  | StartStep step execution_number _ => make KindStartStep (Some step) (Some execution_number) None
  | StartRecoveryHandler step round _ _ => make KindStartRecoveryHandler (Some step) None (Some round)
  | CaptureOutputs step _ => make KindCaptureOutputs (Some step) None None
  | ReleaseStepResources _ => None
  | CancelStep step _ _ _ => make KindCancelStep (Some step) None None
  | ForceAbortStep step _ _ _ => make KindForceAbortStep (Some step) None None
  | FinishRun _ _ => make KindFinishRun None None None
  end.

Definition release_action_resources (actions : list Req) c : Coordinator :=
  emit (ERelease <$> omap action_resource_release actions) c.

(** The resources of an occurrence that is not reduced. *)
Definition release_occurrence (occurrence : DOcc) c : Coordinator :=
  emit (match occurrence_resource_release (into_runtime occurrence : Occ) with
        | Some release => [ERelease release]
        | None => []
        end) c.

(** ** Commits *)

Definition entered_finalization (events : list (TransitionEvent Instant)) : bool :=
  existsb (λ event, match event with EvWorkflow _ _ (WFinalizing _ _ _) => true | _ => false end) events.

Definition resolve_acknowledgement (acknowledgement accepted : bool) c : Coordinator :=
  if acknowledgement then emit [EDecision accepted] c else c.

(** The record of a reduction, and that of a diagnostic. *)
Definition record_of (ordinal : OccurrenceOrdinal) (reduction : Red) : CommittedReduction :=
  {| cm_occurrence_ordinal := ordinal;
     cm_occurrence_accepted := rd_occurrence_accepted reduction;
     cm_state := rd_state reduction;
     cm_events := rd_events reduction;
     cm_actions := omap committed_action (rd_actions reduction);
     cm_diagnostic := None |}.

Definition diagnostic_of (ordinal : OccurrenceOrdinal) (state : State) (diagnostic : CoordinationDiagnostic)
    : CommittedReduction :=
  {| cm_occurrence_ordinal := ordinal; cm_occurrence_accepted := false; cm_state := state; cm_events := [];
     cm_actions := []; cm_diagnostic := Some diagnostic |}.

(** [commit]: the flag of the result says whether the run is over. *)
Definition commit (ordinal : OccurrenceOrdinal) (reduction : Red) (acknowledgement : bool) t c
    : Coordinator * result bool CoordinationError :=
  let terminal := is_finished (rs_workflow (rd_state reduction)) in
  let entered := entered_finalization (rd_events reduction) in
  let c := requests (turn_requests_before_commit t) c in
  let '(arm_started, source) :=
    if entered then begin_finalization_arm (co_source c) else (false, co_source c) in
  let c := set_source source (co_next_index c) c in
  let c := emit [ECommit (record_of ordinal reduction) (turn_commit_ok t)] (requests (turn_requests_during_commit t) c) in
  if negb (turn_commit_ok t) then
    let c := if arm_started then set_source (abort_finalization_arm (co_source c)).2 (co_next_index c) c else c in
    (release_action_resources (rd_actions reduction) c, Err CommitFailed)
  else
    let c := put_state (Some (rd_state reduction)) c in
    let c := if arm_started then set_source (complete_finalization_arm (co_source c)).2 (co_next_index c) c else c in
    let c := resolve_acknowledgement acknowledgement (rd_occurrence_accepted reduction) c in
    let c := if terminal then set_channel (co_pending c) [] c else c in
    (emit (ERelease <$> rd_actions reduction) c, Ok terminal).

(** [commit_coordination_diagnostic]. *)
Definition commit_coordination_diagnostic (ordinal : OccurrenceOrdinal) (state : State) (acknowledgement : bool)
    (diagnostic : CoordinationDiagnostic) t c : Coordinator * result unit CoordinationError :=
  let c := emit [ECommit (diagnostic_of ordinal state diagnostic) (turn_commit_ok t)] c in
  if negb (turn_commit_ok t) then (c, Err CommitFailed)
  else (resolve_acknowledgement acknowledgement false c, Ok tt).

(** ** The loop *)

Inductive TurnOutcome :=
| TurnContinue
| TurnFinished
| TurnFailed (error : CoordinationError).

(** The two ends of a commit. *)
Definition after_commit (r : Coordinator * result bool CoordinationError) : Coordinator * TurnOutcome :=
  match r with
  | (c, Ok true) => (c, TurnFinished)
  | (c, Ok false) => (c, TurnContinue)
  | (c, Err error) => (c, TurnFailed error)
  end.

Definition commit_diagnostic (state : State) (acknowledgement : bool) t c : Coordinator * TurnOutcome :=
  match commit_coordination_diagnostic (co_ordinal c) state acknowledgement DiagTransitionCapacityExceeded t c with
  | (c, Err error) => (c, TurnFailed error)
  | (c, Ok _) => (c, TurnFailed TransitionCapacityExceeded)
  end.

(** The body of the outer loop, for the occurrence that the inner one
    selected. *)
Definition reduce_turn (occurrence : Occ) (acknowledgement ordinal_assigned exact_replay : bool) t c
    : Coordinator * TurnOutcome :=
  match (if ordinal_assigned then Some (co_ordinal c) else ordinal_next (co_ordinal c)) with
  | None => (c, TurnFailed OccurrenceOrdinalExhausted)
  | Some ordinal =>
      let c := set_ordinal ordinal c in
      match co_state c with
      | None => (c, TurnFailed ReducerStateUnavailable)
      | Some current_state =>
          let reduction := if exact_replay then discard_occurrence current_state occurrence
                           else reduce current_state occurrence in
          if rs_transition_capacity_exceeded (rd_state reduction) then
            commit_diagnostic current_state acknowledgement t (release_action_resources (rd_actions reduction) c)
          else after_commit (commit ordinal reduction acknowledgement t c)
      end
  end.

Definition operation_occurrence (operation : CancellationOperation) (now : Instant) (grace : ClockDuration) : Occ :=
  match operation with
  | OpGraceful id reason => CancellationOperationRequested id reason (instant_add now grace)
  | OpOrdinaryOnly id reason => OrdinaryCancellationOperationRequested id reason (instant_add now grace)
  | OpForceAbort id => ForceAbortRequested id now
  end.

(** A selected driver occurrence: it is resolved, and compared with the
    occurrences already observed. *)
Definition driver_turn (selected : SelectedDriverOccurrence) (capacity : N) t c : Coordinator * TurnOutcome :=
  match (if is_resolved selected then ordinal_next (co_ordinal c) else Some (co_ordinal c)) with
  | None => (c, TurnFailed OccurrenceOrdinalExhausted)
  | Some ordinal =>
      let c := set_ordinal ordinal c in
      match resolve selected with
      | Err discarded => (release_occurrence discarded c, TurnContinue)
      | Ok (occurrence, acknowledgement) =>
          let digest := occurrence_content_digest occurrence in
          match co_observed c !! identity occurrence with
          | Some observed =>
              if decide (observed = digest)
              then reduce_turn (into_runtime occurrence) acknowledgement (is_resolved selected) true t c
              else (release_occurrence occurrence c, TurnFailed OccurrenceConflict)
          | None =>
              if (capacity <=? N.min u64_max (N.of_nat (size (co_observed c))))%N
              then (release_occurrence occurrence c, TurnFailed OccurrenceIdentityCapacityExceeded)
              else reduce_turn (into_runtime occurrence) acknowledgement (is_resolved selected) false t
                     (set_observed (<[identity occurrence := digest]> (co_observed c)) c)
          end
      end
  end.

Definition turn (capacity : N) (grace : ClockDuration) t c : Coordinator * TurnOutcome :=
  let c := requests (turn_requests t) c in
  let '(operation, next_index) := next_operation (co_source c) (co_next_index c) in
  match turn_input t with
  | CancellationClosed => (c, TurnFailed OccurrenceChannelClosed)
  | CancellationChanged =>
      match operation with
      | None => (c, TurnContinue)
      | Some operation =>
          reduce_turn (operation_occurrence operation (turn_now t) grace) false false false t
            (set_source (co_source c) next_index c)
      end
  | DriverReady =>
      match recv_delivery c with
      | (None, c) => (c, TurnFailed OccurrenceChannelClosed)
      | (Some delivery, c) =>
          match operation with
          | Some operation =>
              reduce_turn (operation_occurrence operation (turn_now t) grace) false false false t
                (set_source (co_source c) next_index (retain_delivery delivery c))
          | None => driver_turn (select delivery) capacity t c
          end
      end
  end.

(** [result]. *)
Definition coordination_result c : result (State * OccurrenceOrdinal) CoordinationError :=
  match co_state c with
  | Some state => Ok (state, co_ordinal c)
  | None => Err ReducerStateUnavailable
  end.

(** The result of the turns so far: [None] while the run goes on. *)
Fixpoint turns (capacity : N) (grace : ClockDuration) (l : list Turn) c
    : Coordinator * option (result (State * OccurrenceOrdinal) CoordinationError) :=
  match l with
  | [] => (c, None)
  | t :: l =>
      match turn capacity grace t c with
      | (c, TurnContinue) => turns capacity grace l c
      | (c, TurnFinished) =>
          (c, Some (coordination_result c))
      | (c, TurnFailed error) => (c, Some (Err error))
      end
  end.

Definition new_seeded (source : CancellationOperationState) (deliveries : list DriverOccurrenceDelivery)
    : Coordinator :=
  {| co_state := None; co_ordinal := 0; co_observed := ∅; co_source := source; co_next_index := 0;
     co_pending := None; co_channel := deliveries; co_effects := [] |}.

Definition initial_cancellation (operation : option CancellationOperation) (now : Instant) (grace : ClockDuration)
    : option (InitialCancellation Instant) :=
  match operation with
  | Some (OpGraceful id reason | OpOrdinaryOnly id reason) =>
      Some (InitialGraceful {| cr_reason := reason; cr_deadline := instant_add now grace |} (Some id))
  | Some (OpForceAbort id) => Some (InitialForceAbort id now)
  | None => None
  end.

(** The part of [run] before the loop: initialization and its commit. *)
Definition start_turn (admitted : AdmittedWorkflow) (seed : ExecutionSeed Output) (grace : ClockDuration) t c
    : Coordinator * TurnOutcome :=
  let c := requests (turn_requests t) c in
  let '(operation, next_index) := next_operation (co_source c) (co_next_index c) in
  let c := set_source (co_source c) next_index c in
  match ordinal_next 0 with
  | None => (c, TurnFailed OccurrenceOrdinalExhausted)
  | Some ordinal =>
      let c := set_ordinal ordinal c in
      let initialization :=
        initialize_seeded_with_operation admitted seed (initial_cancellation operation (turn_now t) grace) in
      if rs_transition_capacity_exceeded (rd_state initialization)
      then commit_diagnostic (rd_state initialization) false t c
      else after_commit (commit ordinal initialization false t c)
  end.

(** [run], for the first turn and those that follow. *)
Definition run (admitted : AdmittedWorkflow) (seed : ExecutionSeed Output) (grace : ClockDuration)
    (source : CancellationOperationState) (deliveries : list DriverOccurrenceDelivery) (first : Turn) (l : list Turn)
    : Coordinator * option (result (State * OccurrenceOrdinal) CoordinationError) :=
  match start_turn admitted seed grace first (new_seeded source deliveries) with
  | (c, TurnContinue) => turns (adm_maximum_transitions admitted) grace l c
  | (c, TurnFinished) =>
      (c, Some (coordination_result c))
  | (c, TurnFailed error) => (c, Some (Err error))
  end.
End coordinator.
