(* ===== verification/Moves.v ===== *)
(** * The reducer as a transition system

    Every function of the reducer is a sequence of a few kinds of move: a
    node changes state, a gate closes, the run enters finalization or ends.
    [internal] lists the moves of [stabilize], [external] those of
    [apply_occurrence]; each carries the conditions under which the code
    makes it.  The refinement theorems of this file and of [Refinement] say
    that [reduce] and [initialize_seeded_definition] only ever compose these
    moves; the invariants of the run are then proved by induction on moves. *)

From S2P Require Import Prelude Text Nodes Evidence Condition Validated Runtime Reducer.

(** ** Well-formed definitions and runs

    What validation guarantees of the definition a run executes, and what
    every state of a run satisfies because of it. *)

(** The schema accepts one to ten retries. *)
Definition MAXIMUM_RETRIES : N := 10.

(** The guarantees of validation the reducer relies on: ordinary steps and
    finalizers partition the nodes, only ordinary steps recover, and within
    the schema's limit. *)
Record definition_wf (D : RuntimeDefinition) : Prop := {
  dw_nodup : NoDup (bt_keys (def_steps D));
  dw_ordinary_nodup : NoDup (def_ordinary_ids D);
  dw_finalizer_nodup : NoDup (def_finalizer_ids D);
  dw_ordinary s : s ∈ def_ordinary_ids D ↔ ∃ d, bt_get (def_steps D) s = Some d ∧ rt_role d = RoleStep;
  dw_finalizer s : s ∈ def_finalizer_ids D ↔ ∃ d, bt_get (def_steps D) s = Some d ∧ rt_role d = RoleFinalizer;
  dw_retries s d v : bt_get (def_steps D) s = Some d → rt_recovery d = Some v → (rr_retries v <= MAXIMUM_RETRIES)%N;
  dw_finalizer_recovery s d : bt_get (def_steps D) s = Some d → rt_role d = RoleFinalizer → rt_recovery d = None
}.

Section wf.
Context {Cause Output Deadline : Type}.
Implicit Types (st : RuntimeState Cause Output Deadline).

(** The run knows exactly the nodes of its definition. *)
Definition steps_defined st : Prop := ∀ s, is_Some (rs_steps st !! s) ↔ is_Some (def_step st s).

Definition wf st : Prop := definition_wf (rs_definition st) ∧ steps_defined st.

Lemma wf_role_ids st role s d :
  wf st → s ∈ role_ids st role → def_step st s = Some d → rt_role d = role.
Proof.
  intros [Hd _] Hin Hs. destruct role.
  - apply (dw_ordinary _ Hd) in Hin as (d' & Hd' & ?). unfold def_step in Hs. by simplify_eq.
  - apply (dw_finalizer _ Hd) in Hin as (d' & Hd' & ?). unfold def_step in Hs. by simplify_eq.
Qed.

Lemma wf_role_ids_iff st role s :
  wf st → s ∈ role_ids st role ↔ ∃ d, def_step st s = Some d ∧ rt_role d = role.
Proof. intros [Hd _]. destruct role; [apply (dw_ordinary _ Hd)|apply (dw_finalizer _ Hd)]. Qed.

Lemma role_ids_NoDup st role : wf st → NoDup (role_ids st role).
Proof. intros [Hd _]. destruct role; [apply (dw_ordinary_nodup _ Hd)|apply (dw_finalizer_nodup _ Hd)]. Qed.

Lemma wf_defined st s x : wf st → rs_steps st !! s = Some x → ∃ d, def_step st s = Some d.
Proof. intros [_ Hd] Hx. apply Hd. eauto. Qed.
End wf.

Section moves.
Context {Provisional Cause Output Deadline : Type}.
Context `{!SerdeJson, !NodeFailureSource Cause, !ConditionOutput Output,
          !ProvisionalStepResources Provisional}.

Local Abbreviation State := (RuntimeState Cause Output Deadline).
Local Abbreviation Red := (Reduction Provisional Cause Output Deadline).
Local Abbreviation Step := (StepRuntimeState Cause Output).
Local Abbreviation Req := (RequestedAction Provisional Cause Output Deadline).

Implicit Types (st : State) (r : Red) (x y : Step) (s : string) (d : RuntimeStep).

(** ** Effects *)

Definition seqno st : TransitionSequence := (next_sequence st).1.
Definition bump st : State := (next_sequence st).2.

(** A change of one node that emits no event. *)
Definition quiet_update r s x : Red := map_state (λ st, set_steps (<[s := x]> (rs_steps st)) st) r.

(** A change of one node from [x] to [y] with its event and actions. *)
Definition node_event st s d x y : TransitionEvent Deadline :=
  EvStep (seqno st) s (rt_role d) (rt_failure_policy d) (state_kind (ss_state x)) (state_kind (ss_state y)).

Definition node_update r s d x y (acts : list Req) : Red :=
  {| rd_state := set_steps (<[s := y]> (rs_steps (rd_state r))) (bump (rd_state r));
     rd_events := (rd_events r ++ [node_event (rd_state r) s d x y])%list;
     rd_actions := (rd_actions r ++ acts)%list;
     rd_occurrence_accepted := rd_occurrence_accepted r |}.

(** A change of the workflow state with its event and actions; [f] is the
    change of the remaining fields. *)
Definition workflow_update r (f : State → State) (e : TransitionSequence → TransitionEvent Deadline)
    (acts : list Req) : Red :=
  {| rd_state := f (bump (rd_state r));
     rd_events := (rd_events r ++ [e (seqno (rd_state r))])%list;
     rd_actions := (rd_actions r ++ acts)%list;
     rd_occurrence_accepted := rd_occurrence_accepted r |}.

(** The node an authorization leaves. *)
Definition start_node (e : TargetExecutionNumber) (n : ActionId) x : Step :=
  {| ss_state := SStarting; ss_current_action := Some n; ss_target_execution := Some e;
     ss_target_invocation := Some n; ss_active_invocation := Some (ActiveTarget e);
     ss_recovery := ss_recovery x; ss_condition_passed := ss_condition_passed x |}.

(** A node moved to a new state with a new current action. *)
Definition enter (v : StepState Output) (a : option ActionId) x : Step := set_action a (set_state v x).

(** A node at rest: no action and no invocation. *)
Definition settle (v : StepState Output) x : Step := set_active_invocation None (enter v None x).

Definition recovering_node (round : RecoveryRoundNumber) (kind : RecoveryHandlerKind) (n : ActionId) x : Step :=
  set_action (Some n)
    (set_last_handler {| rhr_kind := kind; rhr_invocation := n; rhr_outcome := OutcomeStarting |}
       (enter (SRecovering round HandlerStarting) None
          (set_active_invocation (Some (ActiveRecoveryHandler round)) x))).

(** ** Recovery bookkeeping

    Changes of a recovery record that keep its configuration and its failed
    executions: outcomes of handlers and the terminal disposition. *)
Definition same_rounds (a b : StepRecoveryState Cause) : Prop :=
  sr_configured_rounds a = sr_configured_rounds b
  ∧ sr_handler_kind a = sr_handler_kind b
  ∧ rrr_number <$> sr_rounds a = rrr_number <$> sr_rounds b
  ∧ rrr_failed_execution <$> sr_rounds a = rrr_failed_execution <$> sr_rounds b.

Definition bookkeeping x y : Prop :=
  y = set_recovery (ss_recovery y) x
  ∧ match ss_recovery x, ss_recovery y with
    | None, None => True
    | Some a, Some b => same_rounds a b
    | _, _ => False
    end.

(** ** Moves of [stabilize] *)

Definition block_reason st s d (detail : BlockedDetail) : Prop :=
  match rt_role d with
  | RoleStep =>
      is_executing (rs_workflow st) = true
      ∧ blocked_detail_new (ordinary_unsatisfied_prerequisites st s d) = Ok detail
  | RoleFinalizer =>
      is_finalizing (rs_workflow st) = true
      ∧ ((has_condition d = true ∧ blocked_detail_new (condition_blockers st d) = Ok detail)
         ∨ finalizer_ready st s d = true
           ∧ blocked_detail_new (body_prerequisites (unavailable_references st d)) = Ok detail)
      ∧ ordinary_force_abort st = false
  end.

Definition not_run_reason st d (detail : NonExecutionDetail) : Prop :=
  match rt_role d with
  | RoleStep =>
      failure_stopped (rs_workflow st) = true ∧ detail = failure_stop
      ∧ forallb (ordinary_prerequisite_satisfied st) (rt_prerequisites d) = true
  | RoleFinalizer =>
      is_finalizing (rs_workflow st) = true ∧ detail = finalizer_trigger_not_selected
      ∧ ∃ f, rs_finalization st = Some f ∧ fnr_trigger f ∉ rt_when d
  end.

(** A node the definition and the run both know. *)
Definition node_at st s d x : Prop := rs_steps st !! s = Some x ∧ def_step st s = Some d.

Inductive internal_node r : Red → Prop :=
| int_condition_passed s d x p :
    node_at (rd_state r) s d x → condition_gate_ready (rd_state r) s = true →
    rt_condition d = Some p → evaluate_condition (rd_state r) d p = ConditionPassed →
    internal_node r (quiet_update r s (set_condition_passed true x))
| int_skipped s d x p trace detail :
    node_at (rd_state r) s d x → condition_gate_ready (rd_state r) s = true →
    rt_condition d = Some p → evaluate_condition (rd_state r) d p = ConditionFalse trace →
    condition_false_detail_new (predicate_evidence <$> trace) = Ok detail →
    internal_node r (node_update r s d x (enter (SSkipped detail) None x) [])
| int_condition_failed s d x p reference pointer detail :
    node_at (rd_state r) s d x → condition_gate_ready (rd_state r) s = true →
    rt_condition d = Some p → evaluate_condition (rd_state r) d p = ConditionFailed reference pointer →
    json_pointer_missing reference pointer = Ok detail →
    internal_node r
      (commit_required_issue (node_update r s d x (settle (SFailed detail) x) []) d
         (primary_issue_failed {| node_id := s; node_role := rt_role d |} detail))
| int_blocked s d x detail :
    node_at (rd_state r) s d x → ss_state x = SPending → block_reason (rd_state r) s d detail →
    internal_node r
      (commit_required_issue (node_update r s d x (enter (SBlocked detail) None x) []) d
         (primary_issue_blocked {| node_id := s; node_role := rt_role d |} detail))
| int_not_run s d x detail :
    node_at (rd_state r) s d x → ss_state x = SPending → not_run_reason (rd_state r) d detail →
    internal_node r (node_update r s d x (enter (SNotRun detail) None x) [])
| int_suppressed s d x :
    node_at (rd_state r) s d x → ss_state x = SPending → rt_role d = RoleFinalizer →
    is_finalizing (rs_workflow (rd_state r)) = true → ordinary_force_abort (rd_state r) = true →
    internal_node r (node_update r s d x (enter (SCancelled (cancellation_detail ForceAbort)) None x) [])
| int_start s d x :
    node_at (rd_state r) s d x → ss_state x = SPending →
    role_gate_open (rs_workflow (rd_state r)) (rt_role d) = true →
    node_ready (rd_state r) (rt_role d) s d = true →
    active_count (rd_state r) < def_maximum_parallel_steps (rs_definition (rd_state r)) →
    internal_node r
      (node_update r s d x (start_node FIRST (seqno (rd_state r)) x)
         [{| ra_id := seqno (rd_state r);
             ra_action := StartStep s FIRST (resolved_action_inputs (rd_state r) d) |}]).

(** The gate and the cancellation record finalization begins with. *)
Definition finalization_entry st (outcome : OrdinaryOutcome) : WorkflowState Deadline * FinalizationRuntime Deadline :=
  let forced := ordinary_force_abort st in
  (WFinalizing (outcome_trigger outcome)
     (if forced then FinCancelling ForceAbort None true else FinOpen) (outcome_primary_issue outcome),
   {| fnr_trigger := outcome_trigger outcome;
      fnr_context := serialize {| fc_trigger := outcome_trigger outcome;
                                  fc_primary_issue_step_id :=
                                    (node_id ∘ pi_node) <$> outcome_primary_issue outcome;
                                  fc_cancellation_reason := outcome_cancellation outcome;
                                  fc_ordinary_issues := ordinary_issues st |};
      fnr_ordinary_outcome := outcome;
      fnr_cancellation := if forced then Some {| fin_reason := ForceAbort; fin_deadline := None |} else None;
      fnr_force_abort := forced |}).

Definition finished_workflow (outcome : OrdinaryOutcome) : WorkflowState Deadline :=
  match outcome with
  | OrdSucceeded => WSucceeded
  | OrdFailed primary_issue later_cancellation => WFailed primary_issue later_cancellation
  | OrdCancelled reason => WCancelled reason
  end.

Definition run_outcome (outcome : OrdinaryOutcome) : RunOutcome :=
  match outcome with
  | OrdSucceeded => RunSucceeded
  | OrdFailed primary_issue later_cancellation => RunFailed primary_issue later_cancellation
  | OrdCancelled reason => RunCancelled reason
  end.

(** Why a run may end: its ordinary steps are all terminal and it has no
    finalizers, or its finalizers are all terminal too. *)
Definition finish_reason st (outcome : OrdinaryOutcome) (summary : option (FinalizationSummary Deadline)) : Prop :=
  match summary with
  | None =>
      is_executing (rs_workflow st) = true
      ∧ forallb (step_is is_terminal st) (def_ordinary_ids (rs_definition st)) = true
      ∧ def_finalizer_ids (rs_definition st) = [] ∧ ordinary_outcome st = Some outcome
  | Some summary =>
      is_finalizing (rs_workflow st) = true
      ∧ forallb (step_is is_terminal st) (def_finalizer_ids (rs_definition st)) = true
      ∧ ∃ f, rs_finalization st = Some f ∧ outcome = compose_final_outcome st f
             ∧ summary = finalization_summary st f
  end.

Inductive internal r : Red → Prop :=
| int_node r' : internal_node r r' → internal r r'
| int_enter outcome :
    is_executing (rs_workflow (rd_state r)) = true →
    forallb (step_is is_terminal (rd_state r)) (def_ordinary_ids (rs_definition (rd_state r))) = true →
    def_finalizer_ids (rs_definition (rd_state r)) ≠ [] →
    ordinary_outcome (rd_state r) = Some outcome →
    internal r
      (let '(to, f) := finalization_entry (rd_state r) outcome in
       workflow_update r (λ st, set_finalization (Some f) (set_workflow to st))
         (λ n, EvWorkflow n (rs_workflow (rd_state r)) to) [])
| int_finish outcome summary exports :
    finish_reason (rd_state r) outcome summary →
    derive_exports (rd_state r) = Some exports →
    internal r
      (workflow_update r (λ st, set_exports (Some exports) summary (set_workflow (finished_workflow outcome) st))
         (λ n, EvWorkflow n (rs_workflow (rd_state r)) (finished_workflow outcome))
         [{| ra_id := seqno (rd_state r); ra_action := FinishRun (run_outcome outcome) exports |}]).

(** ** Moves of [apply_occurrence] *)

(** The failed execution a new recovery round records. *)
Definition round_record (round : RecoveryRoundNumber) (e : TargetExecutionNumber) (invocation : ActionId)
    (phase : FailurePhase) (detail : FailureDetail) (cause : Cause) : RecoveryRoundRecord Cause :=
  {| rrr_number := round;
     rrr_failed_execution := {| ptf_execution_number := e; ptf_invocation := invocation;
                                ptf_phase := phase; ptf_detail := detail; ptf_cause := cause |};
     rrr_handler := None |}.

Definition target_active (v : StepState Output) : bool :=
  match v with SStarting | SRunning | SCapturingOutputs => true | _ => false end.

Definition cancellable (v : StepState Output) : bool :=
  match v with SStarting | SRunning | SCapturingOutputs | SRecovering _ _ => true | _ => false end.

(** The phase whose gate the cancellation of a node requires to be closed. *)
Definition role_cancelling (w : WorkflowState Deadline) (role : WorkflowNodeRole) : bool :=
  match w, role with
  | WExecuting (GateCancelling _ _), RoleStep => true
  | WFinalizing _ (FinCancelling _ _ _) _, RoleFinalizer => true
  | _, _ => false
  end.

(** The reasons the nodes of a role may be cancelled for: the reason of the
    closed gate, or a force abort of their phase. *)
Definition aborting st (role : WorkflowNodeRole) : bool :=
  match role, rs_workflow st with
  | RoleStep, WExecuting _ => ordinary_force_abort st
  | RoleFinalizer, WFinalizing _ (FinCancelling _ _ force_abort) _ => force_abort
  | _, _ => false
  end.

Definition cancel_reason st (role : WorkflowNodeRole) (reason : CancellationReason) : Prop :=
  match role, rs_workflow st with
  | RoleStep, WExecuting (GateCancelling gate _) => reason = gate
  | RoleFinalizer, WFinalizing _ (FinCancelling gate _ _) _ => reason = gate
  | _, _ => False
  end ∨ reason = ForceAbort ∧ aborting st role = true.

(** The failure of an execution: its detail comes from the cause. *)
Definition execution_failure (phase : FailurePhase) (detail : FailureDetail) (cause : Cause) : Prop :=
  node_failure_detail cause phase = Ok detail ∧ phase ≠ PhaseCondition.

(** Where the detail of a failed node comes from: the execution that just
    failed, or the last failure its recovery recorded. *)
Definition failure_origin st s (detail : FailureDetail) : Prop :=
  (∃ phase cause, execution_failure phase detail cause)
  ∨ ∃ failure, latest_target_failure st s = Some failure ∧ detail = ptf_detail failure.

Inductive external r : Red → Prop :=
| ext_started s d x a :
    node_at (rd_state r) s d x → ss_state x = SStarting → ss_current_action x = Some a →
    external r (node_update r s d x (enter SRunning (Some a) x) [])
| ext_capturing s d x provisional :
    node_at (rd_state r) s d x → ss_state x = SRunning → rt_declared_outputs d ≠ [] →
    external r
      (node_update r s d x (enter SCapturingOutputs (Some (seqno (rd_state r))) x)
         [{| ra_id := seqno (rd_state r); ra_action := CaptureOutputs s provisional |}])
| ext_completed s d x y z :
    node_at (rd_state r) s d x → ss_state x = SRunning → rt_declared_outputs d = [] →
    y = enter SCapturingOutputs None x → bookkeeping y z →
    external r (node_update (node_update r s d x y []) s d y (settle (SSucceeded []) z) [])
| ext_captured s d x y outputs :
    node_at (rd_state r) s d x → ss_state x = SCapturingOutputs →
    bt_keys outputs = rt_declared_outputs d → bookkeeping x y →
    external r (node_update r s d x (settle (SSucceeded outputs) y) [])
| ext_failed s d x y detail :
    node_at (rd_state r) s d x → cancellable (ss_state x) = true →
    bookkeeping x y → failure_origin (rd_state r) s detail →
    external r
      (commit_required_issue (node_update r s d x (settle (SFailed detail) y) []) d
         (primary_issue_failed {| node_id := s; node_role := rt_role d |} detail))
| ext_failed_last s d x y round e invocation phase detail cause :
    node_at (rd_state r) s d x → target_active (ss_state x) = true → rt_role d = RoleStep →
    recovery_round_available (rd_state r) s = Some (round, e, invocation, None) → execution_next e = None →
    bookkeeping (push_round (round_record round e invocation phase detail cause) x) y →
    execution_failure phase detail cause →
    external r
      (commit_required_issue (node_update r s d x (settle (SFailed detail) y) []) d
         (primary_issue_failed {| node_id := s; node_role := rt_role d |} detail))
| ext_retried s d x round e invocation phase detail cause e' :
    node_at (rd_state r) s d x → target_active (ss_state x) = true → rt_role d = RoleStep →
    recovery_round_available (rd_state r) s = Some (round, e, invocation, None) → execution_next e = Some e' →
    execution_failure phase detail cause →
    external r
      (node_update r s d x
         (start_node e' (seqno (rd_state r)) (push_round (round_record round e invocation phase detail cause) x))
         [{| ra_id := seqno (rd_state r);
             ra_action := StartStep s e' (resolved_action_inputs (rd_state r) d) |}])
| ext_recovering s d x y round e invocation phase detail cause kind :
    node_at (rd_state r) s d x → target_active (ss_state x) = true → rt_role d = RoleStep →
    recovery_round_available (rd_state r) s = Some (round, e, invocation, Some kind) →
    y = recovering_node round kind (seqno (rd_state r))
          (push_round (round_record round e invocation phase detail cause) x) →
    execution_failure phase detail cause →
    external r
      (node_update r s d x y
         [{| ra_id := seqno (rd_state r);
             ra_action := StartRecoveryHandler s round kind
                            (match ss_recovery y with Some v => sr_rounds v | None => [] end) |}])
| ext_handler_started s d x y round a :
    node_at (rd_state r) s d x → ss_state x = SRecovering round HandlerStarting →
    ss_current_action x = Some a → bookkeeping x y →
    external r (node_update r s d x (enter (SRecovering round HandlerRunning) (Some a) y) [])
| ext_rechecked s d x y round failure e' :
    node_at (rd_state r) s d x → ss_state x = SRecovering round HandlerRunning → bookkeeping x y →
    latest_target_failure (rd_state r) s = Some failure →
    execution_next (ptf_execution_number failure) = Some e' →
    external r
      (node_update r s d x (start_node e' (seqno (rd_state r)) y)
         [{| ra_id := seqno (rd_state r);
             ra_action := StartStep s e' (resolved_action_inputs (rd_state r) d) |}])
| ext_cancel_pending s d x reason :
    node_at (rd_state r) s d x → ss_state x = SPending →
    role_cancelling (rs_workflow (rd_state r)) (rt_role d) = true → cancel_reason (rd_state r) (rt_role d) reason →
    external r (node_update r s d x (enter (SCancelled (cancellation_detail reason)) None x) [])
| ext_cancelling s d x y reason active a acts :
    node_at (rd_state r) s d x → cancellable (ss_state x) = true → ss_active_invocation x = Some active →
    role_cancelling (rs_workflow (rd_state r)) (rt_role d) = true → bookkeeping x y →
    cancel_reason (rd_state r) (rt_role d) reason →
    a = for_transition (seqno (rd_state r)) ∨ aborting (rd_state r) (rt_role d) = true →
    external r (node_update r s d x (enter (SCancelling (cancellation_detail reason)) (Some a) y) acts)
| ext_contained s d x a act :
    node_at (rd_state r) s d x → state_kind (ss_state x) = KCancelling →
    aborting (rd_state r) (rt_role d) = true →
    external r (foldr push_action (quiet_update r s (set_action (Some a) x)) act)
| ext_quiesced s d x y detail active reason :
    node_at (rd_state r) s d x → ss_state x = SCancelling detail → ss_active_invocation x = Some active →
    bookkeeping x y →
    reason = cd_code detail
    ∨ reason = ForceAbort ∧ (∃ a, ss_current_action x = Some a ∧ is_force_abort a = true) →
    external r (node_update r s d x (settle (SCancelled (cancellation_detail reason)) y) [])
| ext_bookkeeping s x y :
    rs_steps (rd_state r) !! s = Some x → is_active (ss_state x) = true → bookkeeping x y →
    external r (quiet_update r s y)
| ext_release a provisional :
    external r (push_action {| ra_id := a; ra_action := ReleaseStepResources provisional |} r)
| ext_accepted b :
    external r (set_accepted b r)
| ext_operation operation :
    external r (map_state (set_last_operation (Some operation)) r)
| ext_cancellation gate reason deadline prior :
    rs_workflow (rd_state r) = WExecuting gate →
    (gate = GateOpen ∧ prior = None ∨ ∃ issue, gate = GateFailureStopped issue ∧ prior = Some issue) →
    external r
      (workflow_update r (set_workflow (WExecuting (GateCancelling reason prior)))
         (λ n, EvCancellationAccepted n reason deadline) [])
| ext_finalization_cancellation trigger issue reason deadline :
    rs_workflow (rd_state r) = WFinalizing trigger FinOpen issue →
    external r
      (workflow_update r
         (λ st, set_finalization
            ((λ f, set_finalization_cancellation
                     (Some {| fin_reason := reason; fin_deadline := Some deadline |})
                     (fnr_force_abort f) f) <$> rs_finalization st)
            (set_workflow (WFinalizing trigger (FinCancelling reason (Some deadline) false) issue) st))
         (λ n, EvFinalizationCancellationAccepted n reason deadline) [])
| ext_force_abort gate :
    rs_workflow (rd_state r) = WExecuting gate → rs_force_abort (rd_state r) = None →
    external r
      (workflow_update r
         (λ st, set_workflow (WExecuting (force_abort_gate gate))
            (set_force_abort (Some {| fae_reason := ForceAbort; fae_phase := PhaseOrdinary |}) st))
         (λ n, EvForceAbortAccepted n ForceAbort PhaseOrdinary) [])
| ext_force_abort_finalization trigger gate issue :
    rs_workflow (rd_state r) = WFinalizing trigger gate issue → rs_force_abort (rd_state r) = None →
    external r
      (workflow_update r
         (λ st, set_finalization (force_abort_finalization <$> rs_finalization st)
            (set_workflow (WFinalizing trigger (force_abort_finalization_gate gate) issue)
               (set_force_abort (Some {| fae_reason := ForceAbort; fae_phase := PhaseFinalization |}) st)))
         (λ n, EvForceAbortAccepted n ForceAbort PhaseFinalization) []).

(** A move of either kind, and the sequences of moves. *)
Inductive move r : Red → Prop :=
| move_internal r' : internal r r' → move r r'
| move_external r' : external r r' → move r r'.
End moves.
