(* ===== verification/Refinement.v ===== *)
(** * The reducer refines its transition system

    The updates that the functions of the reducer make, in a normal form
    (one node with its events and actions, or the workflow), and what every
    move keeps: the definition and the set of nodes. *)

From S2P Require Import Prelude Text Nodes Evidence Condition Validated Runtime Reducer Moves.

Section refinement.
Context {Provisional Cause Output Deadline : Type}.
Context `{!SerdeJson, !NodeFailureSource Cause, !ConditionOutput Output,
          !ProvisionalStepResources Provisional}.

Local Abbreviation State := (RuntimeState Cause Output Deadline).
Local Abbreviation Red := (Reduction Provisional Cause Output Deadline).
Local Abbreviation Step := (StepRuntimeState Cause Output).
Local Abbreviation Req := (RequestedAction Provisional Cause Output Deadline).

Implicit Types (st : State) (r : Red) (x y : Step) (s : string) (d : RuntimeStep).

(** ** Effects as equations *)

(** A transition only touches the sequence and the capacity flag. *)
Lemma bump_eq st :
  bump st = set_sequence (seqno st) (rs_transition_capacity_exceeded (bump st)) st.
Proof. unfold bump, seqno, next_sequence. by case_decide. Qed.

Lemma bump_definition st : rs_definition (bump st) = rs_definition st.
Proof. by rewrite bump_eq. Qed.
Lemma bump_workflow st : rs_workflow (bump st) = rs_workflow st.
Proof. by rewrite bump_eq. Qed.
Lemma bump_steps st : rs_steps (bump st) = rs_steps st.
Proof. by rewrite bump_eq. Qed.
Lemma bump_finalization st : rs_finalization (bump st) = rs_finalization st.
Proof. by rewrite bump_eq. Qed.
Lemma bump_force_abort st : rs_force_abort (bump st) = rs_force_abort st.
Proof. by rewrite bump_eq. Qed.

Lemma next_sequence_eq st : next_sequence st = (seqno st, bump st).
Proof. unfold seqno, bump. by destruct (next_sequence st). Qed.

Lemma seqno_set_steps m st : seqno (set_steps m st) = seqno st.
Proof. unfold seqno, next_sequence. simpl. by case_decide. Qed.
Lemma bump_set_steps m st : bump (set_steps m st) = set_steps m (bump st).
Proof. unfold bump, next_sequence. simpl. by case_decide. Qed.
Lemma set_steps_set_steps m n st : set_steps m (set_steps n st) = set_steps m st.
Proof. done. Qed.

Lemma alter_eq (f : Step → Step) s x (m : gmap string Step) : m !! s = Some x → alter f s m = <[s := f x]> m.
Proof.
  intros Hs. apply map_eq. intros t. destruct (decide (t = s)) as [->|].
  - by rewrite lookup_alter_eq, lookup_insert_eq, Hs.
  - by rewrite lookup_alter_ne, lookup_insert_ne.
Qed.

Lemma update_step_eq r s x f :
  rs_steps (rd_state r) !! s = Some x → map_state (update_step s f) r = quiet_update r s (f x).
Proof. intros Hx. unfold quiet_update, map_state, update_step. by rewrite (alter_eq _ _ _ _ Hx). Qed.

Lemma quiet_update_lookup r s x : rs_steps (rd_state (quiet_update r s x)) !! s = Some x.
Proof. simpl. by rewrite lookup_insert_eq. Qed.

Lemma node_update_lookup r s d x y acts : rs_steps (rd_state (node_update r s d x y acts)) !! s = Some y.
Proof. simpl. by rewrite lookup_insert_eq. Qed.

Lemma def_step_quiet r s x t : def_step (rd_state (quiet_update r s x)) t = def_step (rd_state r) t.
Proof. done. Qed.

Lemma def_step_node r s d x y acts t : def_step (rd_state (node_update r s d x y acts)) t = def_step (rd_state r) t.
Proof. unfold def_step. simpl. by rewrite bump_definition. Qed.

Lemma node_at_quiet r s d x y : node_at (rd_state r) s d x → node_at (rd_state (quiet_update r s y)) s d y.
Proof. intros [_ Hd]. split; [apply quiet_update_lookup|done]. Qed.

Lemma node_at_node r s d x y acts :
  node_at (rd_state r) s d x → node_at (rd_state (node_update r s d x y acts)) s d y.
Proof. intros [_ Hd]. split; [apply node_update_lookup|by rewrite def_step_node]. Qed.

Lemma transition_step_eq r s d x to a :
  node_at (rd_state r) s d x →
  transition_step r s to a = (seqno (rd_state r), node_update r s d x (enter to a x) []).
Proof.
  intros [Hx Hd]. unfold transition_step. rewrite next_sequence_eq.
  unfold def_step in *. rewrite bump_definition, bump_steps, Hx, Hd. f_equal.
  rewrite (update_step_eq _ _ x) by (simpl; by rewrite bump_steps).
  unfold node_update, quiet_update, map_state, push_event, with_state; simpl.
  by rewrite app_nil_r, bump_steps.
Qed.

Lemma node_update_update r s d x y acts f :
  state_kind (ss_state (f y)) = state_kind (ss_state y) →
  map_state (update_step s f) (node_update r s d x y acts) = node_update r s d x (f y) acts.
Proof.
  intros Hk. rewrite (update_step_eq _ _ y) by apply node_update_lookup.
  unfold node_update, quiet_update, map_state, with_state, node_event; simpl.
  rewrite set_steps_set_steps, insert_insert_eq, Hk. done.
Qed.

Lemma node_update_push r s d x y acts (a : Req) :
  push_action a (node_update r s d x y acts) = node_update r s d x y (acts ++ [a]).
Proof. unfold push_action, node_update; simpl. by rewrite (assoc_L (++)). Qed.

Lemma node_update_quiet r s d x x' y acts :
  state_kind (ss_state x') = state_kind (ss_state x) →
  node_update (quiet_update r s x') s d x' y acts = node_update r s d x y acts.
Proof.
  intros Hk. unfold node_update, quiet_update, map_state, with_state, node_event; simpl.
  by rewrite bump_set_steps, seqno_set_steps, set_steps_set_steps, insert_insert_eq, Hk.
Qed.

Lemma quiet_update_quiet r s x y : quiet_update (quiet_update r s x) s y = quiet_update r s y.
Proof. unfold quiet_update, map_state, with_state; simpl. by rewrite insert_insert_eq. Qed.

Lemma quiet_update_same r s x : rs_steps (rd_state r) !! s = Some x → quiet_update r s x = r.
Proof.
  intros Hx. unfold quiet_update, map_state, with_state. rewrite insert_id by done.
  by destruct r as [[] ? ? ?].
Qed.

Lemma authorize_target_eq r s d x e inputs :
  node_at (rd_state r) s d x →
  authorize_target r s e inputs =
  node_update r s d x (start_node e (seqno (rd_state r)) x)
    [{| ra_id := seqno (rd_state r); ra_action := StartStep s e inputs |}].
Proof.
  intros Hat. unfold authorize_target. rewrite (update_step_eq _ _ x) by apply Hat.
  erewrite transition_step_eq by (by eapply node_at_quiet).
  rewrite (node_update_quiet _ _ _ x) by done. unfold set_current_action.
  rewrite !node_update_update by done. rewrite node_update_push. simpl.
  rewrite seqno_set_steps. done.
Qed.

Lemma settle_target_failure_eq r s d x detail :
  node_at (rd_state r) s d x →
  settle_target_failure r s d detail =
  commit_required_issue (node_update r s d x (settle (SFailed detail) x) []) d
    (primary_issue_failed {| node_id := s; node_role := rt_role d |} detail).
Proof.
  intros Hat. unfold settle_target_failure. erewrite transition_step_eq by done.
  unfold clear_active_invocation. by rewrite node_update_update.
Qed.

Lemma settle_blocked_eq r s d x detail :
  node_at (rd_state r) s d x →
  settle_blocked r s detail =
  commit_required_issue (node_update r s d x (enter (SBlocked detail) None x) []) d
    (primary_issue_blocked {| node_id := s; node_role := rt_role d |} detail).
Proof.
  intros Hat. unfold settle_blocked. rewrite (proj2 Hat). by erewrite transition_step_eq by done.
Qed.

(** The workflow state a required issue leaves, if it changes it. *)
Definition committed_workflow (w : WorkflowState Deadline) d (issue : PrimaryIssue) : option (WorkflowState Deadline) :=
  match rt_failure_policy d, rt_role d, w with
  | Required, RoleStep, WExecuting GateOpen => Some (WExecuting (GateFailureStopped issue))
  | Required, RoleFinalizer, WFinalizing TriggerSucceeded FinOpen None =>
      Some (WFinalizing TriggerSucceeded FinOpen (Some issue))
  | _, _, _ => None
  end.

Lemma commit_required_issue_eq r d issue :
  commit_required_issue r d issue =
  match committed_workflow (rs_workflow (rd_state r)) d issue with
  | None => r
  | Some w => workflow_update r (set_workflow w) (λ n, EvWorkflow n (rs_workflow (rd_state r)) w) []
  end.
Proof.
  unfold commit_required_issue, committed_workflow, close_ordinary_gate_for_failure,
    select_finalizer_primary_issue. rewrite !next_sequence_eq.
  assert (Hpush : ∀ w, push_event (EvWorkflow (seqno (rd_state r)) (rs_workflow (rd_state r)) w)
                    (with_state (set_workflow w (bump (rd_state r))) r) =
                  workflow_update r (set_workflow w) (λ n, EvWorkflow n (rs_workflow (rd_state r)) w) []).
  { intros w. unfold push_event, with_state, workflow_update; simpl. by rewrite app_nil_r. }
  case_decide as Hp; rewrite ?Hp; [|by destruct (rt_failure_policy d)].
  destruct (rt_role d), (rs_workflow (rd_state r)) as [[]|[] [] []| | |] eqn:Hw; try done; apply Hpush.
Qed.

(** ** What every move keeps *)

Definition same_nodes r r' : Prop :=
  rs_definition (rd_state r') = rs_definition (rd_state r)
  ∧ ∀ t, is_Some (rs_steps (rd_state r') !! t) ↔ is_Some (rs_steps (rd_state r) !! t).

Lemma same_nodes_wf r r' : same_nodes r r' → wf (rd_state r) → wf (rd_state r').
Proof.
  intros [Hd Hs] [Hw Hdef]. split; [by rewrite Hd|].
  intros t. unfold def_step. rewrite Hs, Hd. apply Hdef.
Qed.

Lemma same_nodes_refl r : same_nodes r r.
Proof. done. Qed.

Lemma same_nodes_trans r1 r2 r3 : same_nodes r1 r2 → same_nodes r2 r3 → same_nodes r1 r3.
Proof. intros [H1 H2] [H3 H4]. split; [by rewrite H3|]. intros t. by rewrite H4. Qed.

Lemma same_nodes_quiet r s x y : rs_steps (rd_state r) !! s = Some x → same_nodes r (quiet_update r s y).
Proof.
  intros Hx. split; [done|]. intros t. simpl. destruct (decide (t = s)) as [->|].
  - rewrite lookup_insert_eq, Hx. by split; eauto.
  - by rewrite lookup_insert_ne.
Qed.

Lemma same_nodes_node r s d x y acts :
  rs_steps (rd_state r) !! s = Some x → same_nodes r (node_update r s d x y acts).
Proof.
  intros Hx. split; [by simpl; rewrite bump_definition|]. intros t. simpl. destruct (decide (t = s)) as [->|].
  - rewrite lookup_insert_eq, Hx. by split; eauto.
  - by rewrite lookup_insert_ne.
Qed.

Lemma same_nodes_commit r d issue : same_nodes r (commit_required_issue r d issue).
Proof.
  rewrite commit_required_issue_eq. destruct (committed_workflow _ _ _); [|done].
  split; simpl; [by rewrite bump_definition|by rewrite bump_steps].
Qed.

Lemma same_nodes_workflow r f ev acts :
  (∀ st, rs_definition (f st) = rs_definition st ∧ rs_steps (f st) = rs_steps st) →
  same_nodes r (workflow_update r f ev acts).
Proof.
  intros Hf. unfold same_nodes; simpl. destruct (Hf (bump (rd_state r))) as [-> ->].
  by rewrite bump_definition, bump_steps.
Qed.

Lemma same_nodes_foldr r acts : same_nodes r (foldr push_action r acts).
Proof. induction acts as [|a acts IH]; simpl; [done|]. by eapply same_nodes_trans; [apply IH|]. Qed.

Create HintDb nodes.
#[local] Hint Resolve same_nodes_refl same_nodes_quiet same_nodes_node : nodes.
#[local] Hint Extern 1 (same_nodes _ (commit_required_issue _ _ _)) =>
  eapply same_nodes_trans; [|apply same_nodes_commit] : nodes.
#[local] Hint Extern 1 (same_nodes _ (workflow_update _ _ _ _)) =>
  apply same_nodes_workflow; by intros st : nodes.
#[local] Hint Extern 1 => match goal with H : node_at _ _ _ _ |- _ => destruct H end : nodes.

Lemma internal_node_same r r' : internal_node r r' → same_nodes r r'.
Proof. destruct 1; eauto 4 with nodes. Qed.

Lemma internal_same r r' : internal r r' → same_nodes r r'.
Proof. destruct 1; [by apply internal_node_same|destruct (finalization_entry _ _)|]; eauto with nodes. Qed.

Lemma external_same r r' : external r r' → same_nodes r r'.
Proof.
  destruct 1; eauto 4 with nodes.
  - eapply same_nodes_trans; [|eapply same_nodes_node, node_update_lookup]. eauto with nodes.
  - eapply same_nodes_trans; [|apply same_nodes_foldr]. eauto with nodes.
  - done.
  - done.
  - done.
Qed.

Lemma move_same r r' : move r r' → same_nodes r r'.
Proof. destruct 1; [by apply internal_same|by apply external_same]. Qed.

Lemma moves_same r r' : rtc move r r' → same_nodes r r'.
Proof. induction 1 as [|? ? ? ?%move_same]; eauto using same_nodes_trans with nodes. Qed.

Lemma internal_nodes_same r r' : rtc internal_node r r' → same_nodes r r'.
Proof. induction 1 as [|? ? ? ?%internal_node_same]; eauto using same_nodes_trans with nodes. Qed.
End refinement.
