(* ===== verification/Views.v ===== *)
(** * What the scheduler sees of other nodes

    Readiness, blocking and the inputs of an action look only at nodes that
    are already terminal, and a terminal node never changes.  [extends] is
    the preorder of runs that keep what is terminal; the scheduler's
    predicates are monotone along it, and runs that extend each other agree
    on them. *)

From S2P Require Import Prelude Text Nodes Evidence Condition Validated Runtime Reducer Moves Refinement.

Section views.
Context {Provisional Cause Output Deadline : Type}.
Context `{!SerdeJson, !NodeFailureSource Cause, !ConditionOutput Output,
          !ProvisionalStepResources Provisional}.

Local Abbreviation State := (RuntimeState Cause Output Deadline).
Local Abbreviation Red := (Reduction Provisional Cause Output Deadline).
Local Abbreviation Step := (StepRuntimeState Cause Output).
Local Abbreviation Req := (RequestedAction Provisional Cause Output Deadline).

Implicit Types (st : State) (r : Red) (x y : Step) (s t : string) (d : RuntimeStep).

Record extends st st' : Prop := {
  ex_definition : rs_definition st' = rs_definition st;
  ex_nodes t : is_Some (rs_steps st !! t) → is_Some (rs_steps st' !! t);
  ex_terminal t x : rs_steps st !! t = Some x → is_terminal (ss_state x) = true →
    ∃ x', rs_steps st' !! t = Some x' ∧ ss_state x' = ss_state x
}.

#[export] Instance extends_preorder : PreOrder extends.
Proof.
  split.
  - intros st. split; eauto.
  - intros st1 st2 st3 [H1 H2 H3] [H4 H5 H6]. split; [congruence|eauto|].
    intros t x Hx Ht. destruct (H3 _ _ Hx Ht) as (x' & Hx' & Heq).
    destruct (H6 _ _ Hx') as (x'' & ? & ?); [by rewrite Heq|]. exists x''. split; [done|congruence].
Qed.

Lemma step_is_extends (p : StepState Output → bool) st st' s :
  (∀ v, p v = true → is_terminal v = true) → extends st st' →
  step_is p st s = true → step_is p st' s = true.
Proof.
  intros Hp He. unfold step_is. destruct (rs_steps st !! s) as [x|] eqn:Hx; [|done]. intros Hpx.
  destruct (ex_terminal _ _ He _ _ Hx) as (x' & -> & ->); auto.
Qed.

Lemma data_available_terminal (v : StepState Output) : step_data_available v = true → is_terminal v = true.
Proof. by destruct v. Qed.

Lemma control_satisfied_terminal b (v : StepState Output) :
  control_satisfied_state b v = true → is_terminal v = true.
Proof. by destruct v. Qed.

Lemma control_satisfied_extends st st' p :
  extends st st' → ordinary_control_satisfied st p = true → ordinary_control_satisfied st' p = true.
Proof.
  intros He. unfold ordinary_control_satisfied, def_step. rewrite (ex_definition _ _ He).
  destruct (rs_steps st !! _) as [x|] eqn:Hx; [|done]. intros Hc.
  by destruct (ex_terminal _ _ He _ _ Hx (control_satisfied_terminal _ _ Hc)) as (x' & -> & ->).
Qed.

Lemma prerequisite_satisfied_extends st st' p :
  extends st st' → ordinary_prerequisite_satisfied st p = true → ordinary_prerequisite_satisfied st' p = true.
Proof.
  intros He. unfold ordinary_prerequisite_satisfied.
  destruct (rs_steps st !! _) as [x|] eqn:Hx; [|done]. intros [[Hc Hd]%andb_prop Ht]%andb_prop.
  assert (Hc' : negb (rdp_control p) || ordinary_control_satisfied st' p = true).
  { apply orb_true_iff in Hc as [->|Hc]; [done|]. rewrite (control_satisfied_extends st) by done. by rewrite orb_true_r. }
  destruct (ex_nodes _ _ He (rdp_producer p) (ex_intro _ x Hx)) as [x' Hx']. rewrite Hx'.
  assert (Hsame : is_terminal (ss_state x) = true → ss_state x' = ss_state x).
  { intros Hterm. destruct (ex_terminal _ _ He _ _ Hx Hterm) as (? & ? & ?). by simplify_eq. }
  rewrite Hc'. simpl. apply andb_true_intro. split.
  - apply orb_true_iff in Hd as [->|Hd]; [done|]. rewrite Hsame by by apply data_available_terminal.
    by rewrite Hd, orb_true_r.
  - apply orb_true_iff in Ht as [->|Ht]; [done|]. rewrite Hsame by done. by rewrite Ht, orb_true_r.
Qed.

Lemma forallb_impl {A} (p q : A → bool) l : (∀ a, p a = true → q a = true) → forallb p l = true → forallb q l = true.
Proof. intros Hpq. rewrite !forallb_forall. eauto. Qed.

Lemma prerequisites_satisfied_extends st st' ps :
  extends st st' → forallb (ordinary_prerequisite_satisfied st) ps = true →
  forallb (ordinary_prerequisite_satisfied st') ps = true.
Proof. intros He. apply forallb_impl. intros p. by apply prerequisite_satisfied_extends. Qed.

Lemma all_terminal_extends st st' ids :
  extends st st' → forallb (step_is is_terminal st) ids = true → forallb (step_is is_terminal st') ids = true.
Proof. intros He. apply forallb_impl. intros s. by apply step_is_extends. Qed.

(** ** Runs that agree on terminal nodes *)

Definition same_view st st' : Prop :=
  extends st st' ∧ extends st' st ∧ rs_finalization st' = rs_finalization st.

#[export] Instance same_view_equiv : Equivalence same_view.
Proof.
  split.
  - intros st. by split_and!.
  - intros st1 st2 (? & ? & ?). by split_and!.
  - intros st1 st2 st3 (? & ? & ?) (? & ? & ?). split_and!; [by etrans..|congruence].
Qed.

Lemma same_view_bool (p : State → bool) st st' :
  (∀ st st', extends st st' → p st = true → p st' = true) → same_view st st' → p st' = p st.
Proof.
  intros Hp (H1 & H2 & _). destruct (p st) eqn:E1, (p st') eqn:E2; try done.
  - by rewrite (Hp _ _ H1 E1) in E2.
  - by rewrite (Hp _ _ H2 E2) in E1.
Qed.

#[export] Instance resolved_action_inputs_proper : Proper (same_view ==> (=) ==> (=)) resolved_action_inputs.
Proof.
  intros st st' (H1 & H2 & Hf) d _ <-. unfold resolved_action_inputs.
  apply list_fmap_ext. intros i [input source] _. f_equal.
  destruct source as [?|[[s role] o ?]|]; simpl; [done| |by rewrite Hf].
  destruct (rs_steps st !! s) as [x|] eqn:Hx, (rs_steps st' !! s) as [x'|] eqn:Hx'; simpl; [..|done].
  - destruct (is_terminal (ss_state x)) eqn:Ht.
    + destruct (ex_terminal _ _ H1 _ _ Hx Ht) as (? & ? & Heq). simplify_eq. by rewrite Heq.
    + destruct (is_terminal (ss_state x')) eqn:Ht'.
      { destruct (ex_terminal _ _ H2 _ _ Hx' Ht') as (? & ? & Heq). simplify_eq. congruence. }
      by destruct (ss_state x), (ss_state x').
  - destruct (ex_nodes _ _ H1 s) as [? ?]; [eauto|]. congruence.
  - destruct (ex_nodes _ _ H2 s) as [? ?]; [eauto|]. congruence.
Qed.

#[export] Instance unavailable_references_proper : Proper (same_view ==> (=) ==> (=)) unavailable_references.
Proof.
  intros st st' Hv d _ <-. unfold unavailable_references.
  apply list_omap_ext, Forall_Forall2_diag, Forall_forall.
  intros [|?|ref] _; simpl; [done..|]. destruct (output_reference_producer ref) as [p|]; simpl; [|done].
  rewrite (same_view_bool (λ st, step_is step_data_available st p) st st'); [done| |done].
  intros. eapply step_is_extends; eauto using data_available_terminal.
Qed.

(** ** Every move extends the run *)

Lemma extends_insert st st' s x y :
  rs_definition st' = rs_definition st → rs_steps st' = <[s := y]> (rs_steps st) →
  rs_steps st !! s = Some x → is_terminal (ss_state x) = false ∨ ss_state y = ss_state x → extends st st'.
Proof.
  intros Hd Hst Hx Hxy. split; [done|..].
  - intros t [z Hz]. rewrite Hst. destruct (decide (t = s)) as [->|].
    + rewrite lookup_insert_eq. eauto.
    + rewrite lookup_insert_ne; eauto.
  - intros t z Hz Ht. rewrite Hst. destruct (decide (t = s)) as [->|].
    + rewrite lookup_insert_eq. simplify_eq. exists y. split; [done|]. destruct Hxy; congruence.
    + rewrite lookup_insert_ne by done. eauto.
Qed.

Lemma extends_same_steps st st' : rs_definition st' = rs_definition st → rs_steps st' = rs_steps st → extends st st'.
Proof. intros Hd Hs. split; [done|..]; rewrite Hs; eauto. Qed.

Lemma extends_quiet r s x y :
  rs_steps (rd_state r) !! s = Some x → ss_state y = ss_state x →
  extends (rd_state r) (rd_state (quiet_update r s y)).
Proof. intros Hx Hs. by eapply extends_insert; [..|by right]. Qed.

Lemma extends_node r s d x y acts :
  rs_steps (rd_state r) !! s = Some x → is_terminal (ss_state x) = false →
  extends (rd_state r) (rd_state (node_update r s d x y acts)).
Proof.
  intros Hx Ht. eapply extends_insert; [..|by left]; [|done|done]. simpl. by rewrite bump_definition.
Qed.

Lemma extends_commit r d issue : extends (rd_state r) (rd_state (commit_required_issue r d issue)).
Proof.
  rewrite commit_required_issue_eq. destruct (committed_workflow _ _ _); [|done].
  apply extends_same_steps; simpl; [by rewrite bump_definition|by rewrite bump_steps].
Qed.

Lemma extends_workflow r f ev acts :
  (∀ st, rs_definition (f st) = rs_definition st ∧ rs_steps (f st) = rs_steps st) →
  extends (rd_state r) (rd_state (workflow_update r f ev acts)).
Proof.
  intros Hf. destruct (Hf (bump (rd_state r))) as [H1 H2].
  apply extends_same_steps; simpl; [by rewrite H1, bump_definition|by rewrite H2, bump_steps].
Qed.

Lemma condition_gate_ready_pending st s d x :
  node_at st s d x → condition_gate_ready st s = true → ss_state x = SPending.
Proof.
  intros [Hx Hd]. unfold condition_gate_ready. rewrite Hd, Hx.
  destruct (ss_state x); simpl; rewrite ?orb_true_r; done.
Qed.

Lemma bookkeeping_state x y : bookkeeping x y → ss_state y = ss_state x.
Proof. intros [-> _]. done. Qed.

Lemma target_active_terminal (v : StepState Output) : target_active v = true → is_terminal v = false.
Proof. by destruct v. Qed.
Lemma cancellable_terminal (v : StepState Output) : cancellable v = true → is_terminal v = false.
Proof. by destruct v. Qed.
Lemma cancelling_terminal (v : StepState Output) : state_kind v = KCancelling → is_terminal v = false.
Proof. by destruct v. Qed.
Lemma state_terminal (v w : StepState Output) : v = w → is_terminal w = false → is_terminal v = false.
Proof. by intros ->. Qed.
Lemma pending_terminal (v : StepState Output) : v = SPending → is_terminal v = false.
Proof. by intros ->. Qed.

Create HintDb live.
#[local] Hint Resolve target_active_terminal cancellable_terminal cancelling_terminal pending_terminal : live.
#[local] Hint Extern 1 (is_terminal _ = false) => eapply state_terminal; [eassumption|reflexivity] : live.
#[local] Hint Extern 0 (is_terminal (ss_state _) = false) => eapply state_terminal; [eapply condition_gate_ready_pending; eassumption|reflexivity] : live.
#[local] Hint Extern 1 (extends _ (rd_state (commit_required_issue _ _ _))) =>
  etrans; [|apply extends_commit] : live.
#[local] Hint Extern 1 (extends _ (rd_state (workflow_update _ _ _ _))) =>
  apply extends_workflow; by intros st : live.
#[local] Hint Extern 1 (extends _ (rd_state (node_update _ _ _ _ _ _))) =>
  eapply extends_node; [match goal with H : node_at _ _ _ _ |- _ => apply H end|] : live.
#[local] Hint Extern 1 (extends _ (rd_state (quiet_update _ _ _))) =>
  eapply extends_quiet; [match goal with H : node_at _ _ _ _ |- _ => apply H | _ => eassumption end|] : live.

Lemma internal_node_extends r r' : internal_node r r' → extends (rd_state r) (rd_state r').
Proof. destruct 1; auto 6 with live. Qed.

Lemma internal_extends r r' : internal r r' → extends (rd_state r) (rd_state r').
Proof. destruct 1; [by apply internal_node_extends|destruct (finalization_entry _ _)|]; auto with live. Qed.

Lemma foldr_push_action_state r (acts : list Req) : rd_state (foldr push_action r acts) = rd_state r.
Proof. by induction acts. Qed.

Lemma external_extends r r' : external r r' → extends (rd_state r) (rd_state r').
Proof.
  destruct 1; auto 6 using bookkeeping_state with live.
  - etrans; [|eapply extends_node; [apply node_update_lookup|by subst]]. auto with live.
  - rewrite foldr_push_action_state. auto with live.
  - done.
  - done.
  - by apply extends_same_steps.
Qed.

Lemma move_extends r r' : move r r' → extends (rd_state r) (rd_state r').
Proof. destruct 1; [by apply internal_extends|by apply external_extends]. Qed.

Lemma moves_extends r r' : rtc move r r' → extends (rd_state r) (rd_state r').
Proof. induction 1 as [|? ? ? ?%move_extends]; [done|by etrans]. Qed.
End views.
