(* ===== verification/Stabilize.v ===== *)
(** * [stabilize] refines the internal moves

    Each phase of [stabilize_round] is a sequence of internal node moves;
    the round ends with at most one move of the workflow itself. *)

From S2P Require Import Prelude Text Nodes Evidence Condition Validated Runtime Reducer Moves Refinement Views.

Section stabilize.
Context {Provisional Cause Output Deadline : Type}.
Context `{!SerdeJson, !NodeFailureSource Cause, !ConditionOutput Output,
          !ProvisionalStepResources Provisional}.

Local Abbreviation State := (RuntimeState Cause Output Deadline).
Local Abbreviation Red := (Reduction Provisional Cause Output Deadline).
Local Abbreviation Step := (StepRuntimeState Cause Output).
Local Abbreviation Req := (RequestedAction Provisional Cause Output Deadline).

Implicit Types (st : State) (r : Red) (x y : Step) (s t : string) (d : RuntimeStep).

(** ** What the internal node moves keep of the workflow *)

Definition same_phase r r' : Prop :=
  is_executing (rs_workflow (rd_state r')) = is_executing (rs_workflow (rd_state r))
  ∧ is_finalizing (rs_workflow (rd_state r')) = is_finalizing (rs_workflow (rd_state r))
  ∧ rs_finalization (rd_state r') = rs_finalization (rd_state r)
  ∧ rs_force_abort (rd_state r') = rs_force_abort (rd_state r).

#[export] Instance same_phase_preorder : PreOrder same_phase.
Proof.
  split.
  - intros r. by split_and!.
  - intros r1 r2 r3 (? & ? & ? & ?) (? & ? & ? & ?). split_and!; congruence.
Qed.

Lemma same_phase_node r s d x y acts : same_phase r (node_update r s d x y acts).
Proof. unfold same_phase; simpl. by rewrite bump_workflow, bump_finalization, bump_force_abort. Qed.

Lemma committed_workflow_phase (w w' : WorkflowState Deadline) d issue :
  committed_workflow w d issue = Some w' →
  is_executing w' = is_executing w ∧ is_finalizing w' = is_finalizing w.
Proof.
  unfold committed_workflow.
  destruct (rt_failure_policy d), (rt_role d), w as [[]|[] [] []| | |]; intros; by simplify_eq.
Qed.

Lemma same_phase_commit r d issue : same_phase r (commit_required_issue r d issue).
Proof.
  rewrite commit_required_issue_eq. destruct (committed_workflow _ _ _) as [w|] eqn:Hw; [|done].
  apply committed_workflow_phase in Hw as [? ?].
  unfold same_phase; simpl. by rewrite bump_finalization, bump_force_abort.
Qed.

Lemma internal_node_phase r r' : internal_node r r' → same_phase r r'.
Proof.
  destruct 1; try apply same_phase_node; try done;
    (etrans; [apply same_phase_node|apply same_phase_commit]).
Qed.

Lemma internal_nodes_phase r r' : rtc internal_node r r' → same_phase r r'.
Proof. induction 1 as [|? ? ? ?%internal_node_phase]; [done|by etrans]. Qed.

(** A sequence of node moves from a well-formed state. *)
Definition node_moves r r' : Prop := wf (rd_state r) → rtc internal_node r r'.

Lemma node_moves_trans r1 r2 r3 : node_moves r1 r2 → node_moves r2 r3 → node_moves r1 r3.
Proof.
  intros H1 H2 Hwf. etrans; [by apply H1|]. apply H2. eapply same_nodes_wf; [|done].
  by apply internal_nodes_same, H1.
Qed.

Lemma node_at_exists st s d : wf st → def_step st s = Some d → ∃ x, node_at st s d x.
Proof. intros [_ Hdef] Hd. destruct (proj2 (Hdef s)) as [x Hx]; [eauto|]. by exists x. Qed.

Lemma step_is_at (p : StepState Output → bool) st s d x : node_at st s d x → step_is p st s = p (ss_state x).
Proof. intros [Hx _]. unfold step_is. by rewrite Hx. Qed.

Lemma is_pending_true (v : StepState Output) : is_pending v = true ↔ v = SPending.
Proof. by destruct v. Qed.

(** ** Propagation over ordinary steps *)

Lemma ordinary_pending_disposition_spec st s t disposition :
  ordinary_pending_disposition st s = Some (t, disposition) →
  s = t ∧ ∃ d x, node_at st s d x ∧ ss_state x = SPending ∧
    match disposition with
    | PendingBlocked detail => blocked_detail_new (ordinary_unsatisfied_prerequisites st s d) = Ok detail
    | PendingNotRun =>
        failure_stopped (rs_workflow st) = true
        ∧ forallb (ordinary_prerequisite_satisfied st) (rt_prerequisites d) = true
    end.
Proof.
  unfold ordinary_pending_disposition. destruct (def_step st s) as [d|] eqn:Hd; simpl; [|done].
  destruct (rs_steps st !! s) as [x|] eqn:Hx; simpl; [|done].
  destruct (is_pending (ss_state x)) eqn:Hp; simpl; [|done]. apply is_pending_true in Hp.
  case_bool_decide; simpl.
  - destruct (failure_stopped _ && _) eqn:Hf; [|done]. apply andb_prop in Hf. intros [= <- <-].
    split; [done|]. exists d, x. done.
  - destruct (blocked_detail_new _) as [detail|] eqn:Hb; simpl; [|done]. intros [= <- <-].
    split; [done|]. exists d, x. done.
Qed.

Lemma propagate_ordinary_moves n r :
  is_executing (rs_workflow (rd_state r)) = true → node_moves r (propagate_ordinary_loop n r).
Proof.
  intros Hex Hwf. revert r Hex Hwf. induction n as [|n IH]; intros r Hex Hwf; simpl; [done|].
  destruct (next_ordinary_pending_disposition (rd_state r)) as [[t disposition]|] eqn:Hn; [|done].
  apply find_map_Some in Hn as (s & Hin & (-> & d & x & Hat & Hp & Hreason)%ordinary_pending_disposition_spec).
  pose proof (wf_role_ids _ RoleStep _ _ Hwf Hin (proj2 Hat)) as Hrole.
  assert (Hnext : ∀ r', internal_node r r' → rtc internal_node r (propagate_ordinary_loop n r')).
  { intros r' Hi. eapply rtc_l; [done|]. apply IH.
    - by rewrite (proj1 (internal_node_phase _ _ Hi)).
    - by eapply same_nodes_wf, Hwf; apply internal_node_same. }
  destruct disposition as [detail|].
  - erewrite settle_blocked_eq by done. apply Hnext, int_blocked; [done..|].
    unfold block_reason. by rewrite Hrole.
  - erewrite transition_step_eq by done. apply Hnext, int_not_run; [done..|].
    unfold not_run_reason. rewrite Hrole. by destruct Hreason.
Qed.

(** ** Conditions *)

Lemma evaluate_ready_condition_move r r' role :
  evaluate_ready_condition r role = Some r' → wf (rd_state r) → internal_node r r'.
Proof.
  intros Hr Hwf. unfold evaluate_ready_condition in Hr.
  destruct (List.find _ _) as [s|] eqn:Hfind; simpl in Hr; [|done]. apply find_some in Hfind as [_ Hready].
  destruct (def_step (rd_state r) s) as [d|] eqn:Hd; simpl in Hr; [|done].
  destruct (node_at_exists _ _ _ Hwf Hd) as [x Hat].
  destruct (rt_condition d) as [p|] eqn:Hp; simpl in Hr; [|done].
  destruct (evaluate_condition _ d p) eqn:He.
  - erewrite update_step_eq in Hr by apply Hat. simplify_eq. by eapply int_condition_passed.
  - destruct (condition_false_detail_new _) eqn:Hf; [|done]. erewrite transition_step_eq in Hr by done.
    simplify_eq. by eapply int_skipped.
  - destruct (json_pointer_missing _ _) eqn:Hf; [|done]. unfold settle_condition_failure in Hr.
    erewrite settle_target_failure_eq in Hr by done. simplify_eq. by eapply int_condition_failed.
  - done.
Qed.

Lemma evaluate_ready_conditions_moves n r role : node_moves r (evaluate_ready_conditions_loop n r role).
Proof.
  intros Hwf. revert r Hwf. induction n as [|n IH]; intros r Hwf; simpl; [done|].
  destruct (evaluate_ready_condition r role) as [r'|] eqn:Hr; [|done].
  apply evaluate_ready_condition_move in Hr; [|done].
  eapply rtc_l; [done|]. apply IH. by eapply same_nodes_wf, Hwf; apply internal_node_same.
Qed.

(** ** Starting ready nodes *)

Lemma active_count_sum st : N.of_nat (active_count st) = map_sum (λ _ x, N.b2n (is_active (ss_state x))) (rs_steps st).
Proof.
  unfold active_count, map_sum. induction (map_to_list (rs_steps st)) as [|[s x] l IH]; [done|].
  rewrite fmap_cons. simpl foldr. rewrite <-IH. simpl List.filter.
  destruct (is_active (ss_state x)); simpl N.b2n; simpl length; lia.
Qed.

Lemma active_count_insert st st' s x y :
  rs_steps st' = <[s := y]> (rs_steps st) → rs_steps st !! s = Some x →
  (N.of_nat (active_count st') + N.b2n (is_active (ss_state x)) =
   N.of_nat (active_count st) + N.b2n (is_active (ss_state y)))%N.
Proof. intros Hst Hx. rewrite !active_count_sum, Hst. by apply (map_sum_insert (λ _ x, N.b2n (is_active (ss_state x)))). Qed.

(** Starting a pending node changes nothing the scheduler looks at in the
    others. *)
Lemma start_same_view r s d x acts n :
  node_at (rd_state r) s d x → ss_state x = SPending →
  same_view (rd_state r) (rd_state (node_update r s d x (start_node FIRST n x) acts)).
Proof.
  intros Hat Hp. split_and!.
  - eapply extends_node; [apply Hat|]. by rewrite Hp.
  - eapply (extends_insert _ _ s (start_node FIRST n x) x).
    + simpl. by rewrite bump_definition.
    + simpl. rewrite insert_insert_eq, insert_id; [done|apply Hat].
    + apply node_update_lookup.
    + by left.
  - simpl. by rewrite bump_finalization.
Qed.

Lemma node_ready_same_view st st' role t d :
  same_view st st' → rs_steps st !! t = rs_steps st' !! t →
  node_ready st' role t d = node_ready st role t d.
Proof.
  intros Hv Ht. assert (Hpend : step_is is_pending st' t = step_is is_pending st t).
  { unfold step_is. by rewrite Ht. }
  destruct role; simpl.
  - unfold ordinary_ready. rewrite Hpend. f_equal.
    apply (same_view_bool (λ st, forallb (ordinary_prerequisite_satisfied st) _)); [|done].
    intros. by eapply prerequisites_satisfied_extends.
  - rewrite <-(unavailable_references_proper _ _ Hv d d eq_refl). f_equal. unfold finalizer_ready. rewrite (proj2 (proj2 Hv)).
    destruct (rs_finalization st); [|done]. rewrite Hpend. f_equal.
    apply (same_view_bool (λ st, forallb (λ p, step_is is_terminal st (rdp_producer p)) _)); [|done].
    intros st1 st2 He. apply forallb_impl. intros p. by apply step_is_extends.
Qed.

(** A node the selection of [select_ready_nodes] may authorize. *)
Definition selectable st role (node : string * btree (ActionInput Output)) : Prop :=
  ∃ d x, node_at st node.1 d x ∧ ss_state x = SPending ∧ rt_role d = role
    ∧ node_ready st role node.1 d = true ∧ node.2 = resolved_action_inputs st d.

Lemma authorize_selected_moves role selected r :
  role_gate_open (rs_workflow (rd_state r)) role = true →
  NoDup selected.*1 → Forall (selectable (rd_state r) role) selected →
  length selected + active_count (rd_state r) <= def_maximum_parallel_steps (rs_definition (rd_state r)) →
  rtc internal_node r (foldl (λ r '(step, inputs), authorize_target r step FIRST inputs) r selected).
Proof.
  revert r. induction selected as [|[s inputs] selected IH]; intros r Hgate Hnd Hall Hlen; simpl; [done|].
  apply Forall_cons in Hall as [(d & x & Hat & Hp & Hrole & Hready & Hin) Hall]. simpl in *. subst inputs.
  apply NoDup_cons in Hnd as [Hnin Hnd].
  rewrite (authorize_target_eq _ _ d x) by done.
  pose proof (start_same_view r s d x
    [{| ra_id := seqno (rd_state r);
        ra_action := StartStep s FIRST (resolved_action_inputs (rd_state r) d) |}]
    (seqno (rd_state r)) Hat Hp) as Hview.
  eapply rtc_l.
  { apply int_start; [done..| | |lia]; by rewrite Hrole. }
  set (r' := node_update r s d x _ _) in *.
  apply IH.
  - simpl. by rewrite bump_workflow.
  - done.
  - rewrite Forall_forall in Hall |- *. intros [t inputs] Hin.
    assert (t ≠ s) as Hne. { intros ->. apply Hnin, list_elem_of_fmap. by exists (s, inputs). }
    destruct (Hall _ Hin) as (d' & x' & [Hx' Hd'] & Hp' & Hrole' & Hready' & Hin').
    cbn [fst snd] in Hx', Hd', Hready', Hin'.
    assert (Ht : rs_steps (rd_state r) !! t = rs_steps (rd_state r') !! t).
    { simpl. by rewrite lookup_insert_ne. }
    exists d', x'. split_and!; cbn [fst snd]; [|done..| |].
    + split; [by etrans; [symmetry; apply Ht|]|]. unfold r'. by rewrite def_step_node.
    + by rewrite (node_ready_same_view _ _ _ _ _ Hview Ht).
    + by rewrite Hin', Hview.
  - assert (Hc : (N.of_nat (active_count (rd_state r')) + 0 = N.of_nat (active_count (rd_state r)) + 1)%N).
    { pose proof (active_count_insert (rd_state r) (rd_state r') s x _ eq_refl (proj1 Hat)) as Hc.
      rewrite Hp in Hc. simpl in Hc. done. }
    assert (Hdef : rs_definition (rd_state r') = rs_definition (rd_state r)) by (simpl; apply bump_definition).
    rewrite Hdef. lia.
Qed.

Lemma sublist_omap_fst {A B C} (f : A → option (B * C)) (g : A → B) l :
  (∀ a b, f a = Some b → b.1 = g a) → sublist (omap f l).*1 (g <$> l).
Proof.
  intros Hf. induction l as [|a l IH]; simpl; [done|].
  destruct (f a) as [b|] eqn:Ha; simpl; [rewrite (Hf _ _ Ha)|]; by constructor.
Qed.

Lemma select_ready_nodes_moves r role : node_moves r (select_ready_nodes r role).
Proof.
  intros Hwf. unfold select_ready_nodes.
  destruct (role_gate_open _ role) eqn:Hgate; simpl; [|done].
  set (f := λ id, definition ← def_step (rd_state r) id;
                  if node_ready (rd_state r) role id definition
                  then Some (id, resolved_action_inputs (rd_state r) definition) else None).
  assert (Hf : ∀ s b, f s = Some b → b.1 = s ∧ ∃ d, def_step (rd_state r) s = Some d
            ∧ node_ready (rd_state r) role s d = true ∧ b.2 = resolved_action_inputs (rd_state r) d).
  { intros s b. unfold f. destruct (def_step _ s) as [d|]; simpl; [|done].
    destruct (node_ready _ role s d) eqn:?; [|done]. intros [= <-]. simpl. eauto. }
  destruct (decide (def_maximum_parallel_steps (rs_definition (rd_state r)) <= active_count (rd_state r))) as [Hle|Hlt].
  { by replace (def_maximum_parallel_steps (rs_definition (rd_state r)) - active_count (rd_state r)) with 0 by lia. }
  apply (authorize_selected_moves role); [done|..].
  - eapply sublist_NoDup; [apply (role_ids_NoDup _ role Hwf)|].
    rewrite fmap_take. eapply transitivity; [apply sublist_take|].
    rewrite <-(list_fmap_id (role_ids (rd_state r) role)) at 2.
    apply sublist_omap_fst. intros a b Hb. by apply Hf in Hb as [-> _].
  - apply Forall_take, Forall_forall. intros [t inputs] (s & Hs & Hfs)%list_elem_of_omap.
    apply Hf in Hfs as (<- & d & Hd & Hready & Hin). simpl in *.
    destruct (node_at_exists _ _ _ Hwf Hd) as [x Hat]. exists d, x. simpl.
    pose proof (wf_role_ids _ _ _ _ Hwf Hs Hd). split_and!; try done.
    apply is_pending_true. rewrite <-(step_is_at is_pending (rd_state r) t d x) by done.
    destruct role; simpl in Hready; unfold ordinary_ready, finalizer_ready in Hready.
    + by apply andb_prop in Hready as [? _].
    + destruct (rs_finalization (rd_state r)); [|done]. by do 3 apply andb_prop in Hready as [Hready _].
  - pose proof (firstn_le_length (def_maximum_parallel_steps (rs_definition (rd_state r)) - active_count (rd_state r))
                  (omap f (role_ids (rd_state r) role))). lia.
Qed.

(** ** Finalizers *)

Lemma node_at_other r s d x y acts t d' x' :
  t ≠ s → node_at (rd_state r) t d' x' → node_at (rd_state (node_update r s d x y acts)) t d' x'.
Proof.
  intros Hne [Hx Hd]. split; [simpl; by rewrite lookup_insert_ne|]. by rewrite def_step_node.
Qed.

(** Moving every node of a duplicate-free list out of [Pending]. *)
Lemma settle_pending_moves (v : StepState Output) (P : Red → RuntimeStep → Prop) l r :
  (∀ r s d x, node_at (rd_state r) s d x → ss_state x = SPending → P r d →
     internal_node r (node_update r s d x (enter v None x) [])) →
  (∀ r r' d, internal_node r r' → P r d → P r' d) →
  NoDup l → Forall (λ s, ∃ d x, node_at (rd_state r) s d x ∧ ss_state x = SPending ∧ P r d) l →
  rtc internal_node r (foldl (λ r s, (transition_step r s v None).2) r l).
Proof.
  intros Hmove HP. revert r. induction l as [|s l IH]; intros r Hnd Hall; simpl; [done|].
  apply NoDup_cons in Hnd as [Hnin Hnd]. apply Forall_cons in Hall as [(d & x & Hat & Hp & HPr) Hall].
  erewrite transition_step_eq by done. pose proof (Hmove _ _ _ _ Hat Hp HPr) as Hi.
  eapply rtc_l; [done|]. apply IH; [done|]. rewrite Forall_forall in Hall |- *.
  intros t Ht. destruct (Hall t Ht) as (d' & x' & Hat' & Hp' & HP').
  exists d', x'. split_and!; [apply node_at_other; [by intros ->|done]|done|by eapply HP].
Qed.

Lemma trigger_dispositions_moves r :
  is_finalizing (rs_workflow (rd_state r)) = true → node_moves r (propagate_finalizer_trigger_dispositions r).
Proof.
  intros Hfin Hwf. unfold propagate_finalizer_trigger_dispositions.
  destruct (rs_finalization (rd_state r)) as [f|] eqn:Hf; [|done].
  apply (settle_pending_moves _ (λ r d, rt_role d = RoleFinalizer
    ∧ is_finalizing (rs_workflow (rd_state r)) = true ∧ rs_finalization (rd_state r) = Some f
    ∧ fnr_trigger f ∉ rt_when d)).
  - intros r' s d x Hat Hp (Hrole & Hfin' & Hf' & Hw). apply int_not_run; [done..|].
    unfold not_run_reason. rewrite Hrole. eauto.
  - intros r1 r2 d (_ & H1 & H2 & _)%internal_node_phase (? & ? & ? & ?). by rewrite H1, H2.
  - apply NoDup_ListNoDup, List.NoDup_filter, NoDup_ListNoDup. apply (role_ids_NoDup _ RoleFinalizer Hwf).
  - apply Forall_forall. intros s (Hin & [Hp Hw]%andb_prop)%list_elem_of_In%filter_In.
    destruct (def_step (rd_state r) s) as [d|] eqn:Hd; [|done].
    destruct (node_at_exists _ _ _ Hwf Hd) as [x Hat]. exists d, x.
    apply list_elem_of_In in Hin. rewrite (step_is_at _ _ _ _ _ Hat), is_pending_true in Hp.
    apply negb_true_iff, bool_decide_eq_false in Hw.
    split_and!; try done. by eapply (wf_role_ids _ RoleFinalizer).
Qed.

Lemma cancel_pending_moves r :
  is_finalizing (rs_workflow (rd_state r)) = true → ordinary_force_abort (rd_state r) = true →
  node_moves r (cancel_pending_nodes r RoleFinalizer ForceAbort).
Proof.
  intros Hfin Hforce Hwf. unfold cancel_pending_nodes.
  apply (settle_pending_moves _ (λ r d, rt_role d = RoleFinalizer
    ∧ is_finalizing (rs_workflow (rd_state r)) = true ∧ ordinary_force_abort (rd_state r) = true)).
  - intros r' s d x Hat Hp (? & ? & ?). by apply int_suppressed.
  - intros r1 r2 d (_ & H1 & _ & H2)%internal_node_phase (? & ? & Hf).
    unfold ordinary_force_abort in *. by rewrite H1, H2.
  - eapply sublist_NoDup; [apply (dw_nodup _ (proj1 Hwf))|]. unfold bt_keys, def_step.
    induction (def_steps _) as [|[s d] l IH]; simpl; [done|].
    destruct (bool_decide _ && _); simpl; by constructor.
  - apply Forall_forall. intros s ([s' d] & Hin & Hs)%list_elem_of_omap.
    destruct (bool_decide_reflect (rt_role d = RoleFinalizer)) as [Hrole|]; simpl in Hs; [|done].
    destruct (step_is is_pending (rd_state r) s') eqn:Hp; simplify_eq.
    assert (Hd : def_step (rd_state r) s = Some d) by (apply bt_get_NoDup; [apply (dw_nodup _ (proj1 Hwf))|done]).
    destruct (node_at_exists _ _ _ Hwf Hd) as [x Hat]. exists d, x.
    rewrite (step_is_at _ _ _ _ _ Hat), is_pending_true in Hp. done.
Qed.

(** A finalizer that is settled as blocked, and why. *)
Lemma block_finalizer_moves r s d x detail k :
  wf (rd_state r) → is_finalizing (rs_workflow (rd_state r)) = true → ordinary_force_abort (rd_state r) = false →
  s ∈ role_ids (rd_state r) RoleFinalizer → node_at (rd_state r) s d x → ss_state x = SPending →
  (has_condition d = true ∧ blocked_detail_new (condition_blockers (rd_state r) d) = Ok detail
   ∨ finalizer_ready (rd_state r) s d = true
     ∧ blocked_detail_new (body_prerequisites (unavailable_references (rd_state r) d)) = Ok detail) →
  (∀ r', wf (rd_state r') → is_finalizing (rs_workflow (rd_state r')) = true →
     ordinary_force_abort (rd_state r') = false → rtc internal_node r' (k r')) →
  rtc internal_node r (k (settle_blocked r s detail)).
Proof.
  intros Hwf Hfin Hforce Hin Hat Hp Hreason Hk. erewrite settle_blocked_eq by done.
  assert (Hi : internal_node r
    (commit_required_issue (node_update r s d x (enter (SBlocked detail) None x) []) d
       (primary_issue_blocked {| node_id := s; node_role := rt_role d |} detail))).
  { apply int_blocked; [done..|]. unfold block_reason. by rewrite (wf_role_ids _ _ _ _ Hwf Hin (proj2 Hat)). }
  eapply rtc_l; [done|]. apply Hk.
  - by eapply same_nodes_wf, Hwf; apply internal_node_same.
  - by rewrite (proj1 (proj2 (internal_node_phase _ _ Hi))).
  - unfold ordinary_force_abort in *. by rewrite (proj2 (proj2 (proj2 (internal_node_phase _ _ Hi)))).
Qed.

Lemma condition_blocks_moves n r :
  is_finalizing (rs_workflow (rd_state r)) = true → ordinary_force_abort (rd_state r) = false → node_moves r (propagate_condition_blocks_loop n r).
Proof.
  intros Hfin Hforce Hwf. revert r Hwf Hfin Hforce. induction n as [|n IH]; intros r Hwf Hfin Hforce; simpl; [done|].
  destruct (next_finalizer_condition_block (rd_state r)) as [[t detail]|] eqn:Hn; [|done].
  apply find_map_Some in Hn as (s & Hin & Hs). unfold finalizer_condition_block in Hs.
  destruct (def_step (rd_state r) s) as [d|] eqn:Hd; simpl in Hs; [|done].
  destruct (rs_steps (rd_state r) !! s) as [x|] eqn:Hx; simpl in Hs; [|done].
  destruct (has_condition d) eqn:Hc; simpl in Hs; [|done].
  destruct (ss_condition_passed x); simpl in Hs; [done|].
  destruct (is_pending (ss_state x)) eqn:Hp; simpl in Hs; [|done]. apply is_pending_true in Hp.
  destruct (condition_phase_gate_open _ d); simpl in Hs; [|done].
  destruct (blocked_detail_new _) eqn:Hb; simplify_eq/=.
  eapply (block_finalizer_moves r); eauto. by split.
Qed.

Lemma input_unavailable_spec st s t references :
  input_unavailable st s = Some (t, references) →
  s = t ∧ ∃ d x, node_at st s d x ∧ finalizer_ready st s d = true
    ∧ references = unavailable_references st d ∧ references ≠ [].
Proof.
  unfold input_unavailable. destruct (def_step st s) as [d|] eqn:Hd; simpl; [|done].
  destruct (rs_steps st !! s) as [x|] eqn:Hx; simpl; [|done].
  destruct (finalizer_ready st s d) eqn:Hr; simpl; [|done].
  destruct (has_condition d && _); simpl; [done|].
  case_bool_decide; simpl; [done|]. intros [= <- <-]. split; [done|]. exists d, x. by split_and!.
Qed.

Lemma finalizer_ready_pending st s d x : node_at st s d x → finalizer_ready st s d = true → ss_state x = SPending.
Proof.
  intros Hat. unfold finalizer_ready. destruct (rs_finalization st); [|done].
  rewrite (step_is_at _ _ _ _ _ Hat). intros [[?%is_pending_true _]%andb_prop _]%andb_prop. done.
Qed.

Lemma input_unavailable_moves n r :
  is_finalizing (rs_workflow (rd_state r)) = true → ordinary_force_abort (rd_state r) = false → node_moves r (propagate_input_unavailable_loop n r).
Proof.
  intros Hfin Hforce Hwf. revert r Hwf Hfin Hforce. induction n as [|n IH]; intros r Hwf Hfin Hforce; simpl; [done|].
  destruct (next_input_unavailable (rd_state r)) as [[t references]|] eqn:Hn; [|done].
  apply find_map_Some in Hn as (s & Hin & (-> & d & x & Hat & Hready & -> & _)%input_unavailable_spec).
  destruct (blocked_detail_new _) as [detail|] eqn:Hb; [|by apply IH].
  eapply (block_finalizer_moves r); eauto using finalizer_ready_pending.
Qed.

Lemma propagate_finalizer_moves r :
  is_finalizing (rs_workflow (rd_state r)) = true → ordinary_force_abort (rd_state r) = false → node_moves r (propagate_finalizer_dispositions r).
Proof.
  intros Hfin Hforce. unfold propagate_finalizer_dispositions.
  assert (Hkeep : ∀ r', wf (rd_state r) → rtc internal_node r r' →
    is_finalizing (rs_workflow (rd_state r')) = true ∧ ordinary_force_abort (rd_state r') = false).
  { unfold ordinary_force_abort in *. intros r' _ (_ & -> & _ & ->)%internal_nodes_phase. done. }
  intros Hwf. pose proof (trigger_dispositions_moves r Hfin Hwf) as H1.
  assert (Hwf1 : wf (rd_state (propagate_finalizer_trigger_dispositions r)))
    by (by eapply same_nodes_wf, Hwf; apply internal_nodes_same).
  pose proof (condition_blocks_moves
    (S (length (def_finalizer_ids (rs_definition (rd_state (propagate_finalizer_trigger_dispositions r))))))
    _ (proj1 (Hkeep _ Hwf H1)) (proj2 (Hkeep _ Hwf H1)) Hwf1) as H2.
  etrans; [exact H1|]. etrans; [exact H2|]. apply input_unavailable_moves.
  - apply Hkeep; [done|]. by etrans.
  - apply Hkeep; [done|]. by etrans.
  - by eapply same_nodes_wf, Hwf1; apply internal_nodes_same.
Qed.

(** ** Leaving the phase *)

Lemma finish_run_eq r outcome summary exports :
  derive_exports (rd_state r) = Some exports →
  finish_run r outcome summary =
  workflow_update r (λ st, set_exports (Some exports) summary (set_workflow (finished_workflow outcome) st))
    (λ n, EvWorkflow n (rs_workflow (rd_state r)) (finished_workflow outcome))
    [{| ra_id := seqno (rd_state r); ra_action := FinishRun (run_outcome outcome) exports |}].
Proof.
  intros He. unfold finish_run. rewrite He, next_sequence_eq. by destruct outcome.
Qed.

Lemma finish_run_moves r outcome summary :
  finish_reason (rd_state r) outcome summary → rtc internal r (finish_run r outcome summary).
Proof.
  intros Hreason. destruct (derive_exports (rd_state r)) as [exports|] eqn:He.
  - erewrite finish_run_eq by done. by apply rtc_once, int_finish.
  - unfold finish_run. by rewrite He.
Qed.

Lemma enter_finalization_moves r : rtc internal r (enter_finalization_or_finish r).
Proof.
  unfold enter_finalization_or_finish.
  destruct (is_executing _) eqn:Hex; simpl; [|done]. destruct (forallb _ _) eqn:Hall; simpl; [|done].
  destruct (ordinary_outcome (rd_state r)) as [outcome|] eqn:Ho; [|done].
  case_bool_decide as Hnil; [by apply finish_run_moves|].
  apply rtc_once. pose proof (int_enter r outcome Hex Hall Hnil Ho) as Hi.
  unfold finalization_entry, workflow_update in Hi. rewrite next_sequence_eq.
  destruct (ordinary_force_abort (rd_state r)); rewrite app_nil_r in Hi; exact Hi.
Qed.

Lemma finish_finalization_moves r : rtc internal r (finish_finalization_if_terminal r).
Proof.
  unfold finish_finalization_if_terminal.
  destruct (is_finalizing _) eqn:Hfin; simpl; [|done]. destruct (forallb _ _) eqn:Hall; simpl; [|done].
  destruct (rs_finalization (rd_state r)) as [f|] eqn:Hf; [|done].
  apply finish_run_moves. unfold finish_reason. eauto 6.
Qed.

Lemma node_moves_internal r r' : rtc internal_node r r' → rtc internal r r'.
Proof. apply rtc_congruence with (f := id). intros. by apply int_node. Qed.

Lemma internal_moves_same r r' : rtc internal r r' → same_nodes r r'.
Proof. induction 1 as [|? ? ? ?%internal_same]; eauto using same_nodes_trans, same_nodes_refl. Qed.

(** What a sequence of node moves leaves for the next phase of a round. *)
Lemma node_moves_keep r r' :
  rtc internal_node r r' → wf (rd_state r) →
  wf (rd_state r') ∧ is_executing (rs_workflow (rd_state r')) = is_executing (rs_workflow (rd_state r))
  ∧ is_finalizing (rs_workflow (rd_state r')) = is_finalizing (rs_workflow (rd_state r))
  ∧ ordinary_force_abort (rd_state r') = ordinary_force_abort (rd_state r).
Proof.
  intros Hr Hwf. pose proof (internal_nodes_phase _ _ Hr) as (H1 & H2 & _ & H3). split_and!; try done.
  - by eapply same_nodes_wf, Hwf; apply internal_nodes_same.
  - unfold ordinary_force_abort. by rewrite H3.
Qed.

Lemma executing_round_moves r :
  is_executing (rs_workflow (rd_state r)) = true →
  node_moves r (select_ready_nodes (propagate_ordinary_pending_dispositions
    (evaluate_ready_conditions (propagate_ordinary_pending_dispositions r) RoleStep)) RoleStep).
Proof.
  intros Hex Hwf.
  assert (H1 : rtc internal_node r (propagate_ordinary_pending_dispositions r)) by by apply propagate_ordinary_moves.
  destruct (node_moves_keep _ _ H1 Hwf) as (Hwf1 & Hex1 & _).
  assert (H2 : rtc internal_node r (evaluate_ready_conditions (propagate_ordinary_pending_dispositions r) RoleStep)).
  { etrans; [exact H1|]. by apply evaluate_ready_conditions_moves. }
  destruct (node_moves_keep _ _ H2 Hwf) as (Hwf2 & Hex2 & _).
  eapply node_moves_trans; [|apply select_ready_nodes_moves|done]. intros _.
  etrans; [exact H2|]. apply propagate_ordinary_moves; congruence.
Qed.

Definition finalizing_round r : Red :=
  let suppress_selected := ordinary_force_abort (rd_state r) in
  let r := if suppress_selected
           then cancel_pending_nodes (propagate_finalizer_trigger_dispositions r) RoleFinalizer ForceAbort
           else propagate_finalizer_dispositions r in
  let r := evaluate_ready_conditions r RoleFinalizer in
  let r := if suppress_selected then r else propagate_finalizer_dispositions r in
  select_ready_nodes r RoleFinalizer.

Lemma finalizing_round_moves r :
  is_finalizing (rs_workflow (rd_state r)) = true → node_moves r (finalizing_round r).
Proof.
  intros Hfin Hwf. unfold finalizing_round. destruct (ordinary_force_abort (rd_state r)) eqn:Hforce.
  - pose proof (trigger_dispositions_moves r Hfin Hwf) as H1.
    destruct (node_moves_keep _ _ H1 Hwf) as (Hwf1 & _ & Hfin1 & Hforce1).
    eapply node_moves_trans; [|apply select_ready_nodes_moves|done].
    eapply node_moves_trans; [|apply evaluate_ready_conditions_moves]. intros _.
    etrans; [exact H1|]. apply cancel_pending_moves; congruence.
  - pose proof (propagate_finalizer_moves r Hfin Hforce Hwf) as H1.
    assert (H2 : rtc internal_node r (evaluate_ready_conditions (propagate_finalizer_dispositions r) RoleFinalizer)).
    { etrans; [exact H1|]. by eapply evaluate_ready_conditions_moves, node_moves_keep. }
    destruct (node_moves_keep _ _ H2 Hwf) as (Hwf2 & _ & Hfin2 & Hforce2).
    eapply node_moves_trans; [|apply select_ready_nodes_moves|done]. intros _.
    etrans; [exact H2|]. apply propagate_finalizer_moves; congruence.
Qed.

Lemma stabilize_round_moves r : wf (rd_state r) → rtc internal r (stabilize_round r).
Proof.
  intros Hwf. unfold stabilize_round. destruct (rs_workflow (rd_state r)) eqn:Hw; try done.
  - etrans; [|apply enter_finalization_moves].
    apply node_moves_internal, executing_round_moves; by rewrite ?Hw.
  - etrans; [|apply finish_finalization_moves].
    apply node_moves_internal, (finalizing_round_moves r); by rewrite ?Hw.
Qed.

Lemma stabilize_loop_moves n r : wf (rd_state r) → rtc internal r (stabilize_loop n r).
Proof.
  revert r. induction n as [|n IH]; intros r Hwf; simpl; [done|].
  pose proof (stabilize_round_moves r Hwf) as H1. case_decide; [done|].
  etrans; [exact H1|]. apply IH. by eapply same_nodes_wf, Hwf; apply internal_moves_same.
Qed.

Lemma stabilize_moves r : wf (rd_state r) → rtc internal r (stabilize r).
Proof. apply stabilize_loop_moves. Qed.
End stabilize.
