(* ===== verification/Occurrences.v ===== *)
(** * [apply_occurrence] refines the external moves, and the reducer refines
    its transition system *)

From S2P Require Import Prelude Text Nodes Evidence Condition Validated Runtime Reducer Moves Refinement Views Stabilize.

Section occurrences.
Context {Provisional Cause Output Deadline : Type}.
Context `{!SerdeJson, !NodeFailureSource Cause, !ConditionOutput Output,
          !ProvisionalStepResources Provisional}.

Local Abbreviation State := (RuntimeState Cause Output Deadline).
Local Abbreviation Red := (Reduction Provisional Cause Output Deadline).
Local Abbreviation Step := (StepRuntimeState Cause Output).
Local Abbreviation Req := (RequestedAction Provisional Cause Output Deadline).

Implicit Types (st : State) (r : Red) (x y : Step) (s t : string) (d : RuntimeStep).

(** ** Recovery bookkeeping *)

Lemma same_rounds_refl (a : StepRecoveryState Cause) : same_rounds a a.
Proof. done. Qed.

Lemma bookkeeping_refl x : bookkeeping x x.
Proof. split; [by destruct x|]. destruct (ss_recovery x); [apply same_rounds_refl|done]. Qed.

Lemma bookkeeping_trans x y z : bookkeeping x y → bookkeeping y z → bookkeeping x z.
Proof.
  intros [Hy H1] [Hz H2]. split.
  - rewrite Hz at 1. rewrite Hy. done.
  - destruct (ss_recovery x), (ss_recovery y), (ss_recovery z); try done.
    destruct H1 as (?&?&?&?), H2 as (?&?&?&?). unfold same_rounds. split_and!; congruence.
Qed.

Lemma bookkeeping_map x (f : StepRecoveryState Cause → StepRecoveryState Cause) :
  (∀ a, same_rounds a (f a)) → bookkeeping x (set_recovery (f <$> ss_recovery x) x).
Proof. intros Hf. split; [done|]. simpl. destruct (ss_recovery x); simpl; [apply Hf|done]. Qed.

(** A bookkeeping change of one node of a reduction. *)
Definition booked r s x r' : Prop := ∃ y, bookkeeping x y ∧ r' = quiet_update r s y.

Lemma booked_same r s x : rs_steps (rd_state r) !! s = Some x → booked r s x r.
Proof. intros Hx. exists x. split; [apply bookkeeping_refl|]. by rewrite quiet_update_same. Qed.

Lemma booked_trans r1 r2 r3 s x y :
  bookkeeping x y → r2 = quiet_update r1 s y → booked r2 s y r3 → booked r1 s x r3.
Proof.
  intros Hxy -> (z & Hyz & ->). exists z. split; [by eapply bookkeeping_trans|]. by rewrite quiet_update_quiet.
Qed.

Lemma set_handler_outcome_booked r s x round outcome :
  rs_steps (rd_state r) !! s = Some x → booked r s x (map_state (set_handler_outcome s round outcome) r).
Proof.
  intros Hx. unfold set_handler_outcome. eexists. split; [|by apply update_step_eq].
  apply (bookkeeping_map x (λ recovery, set_rounds _ recovery)). intros a.
  unfold same_rounds; simpl. split_and!; [done..| |]; rewrite fmap_update_last; try done;
    intros y; by case_decide.
Qed.

Lemma set_recovery_disposition_booked r s x disposition :
  rs_steps (rd_state r) !! s = Some x → booked r s x (map_state (set_recovery_disposition s disposition) r).
Proof.
  intros Hx. eexists. split; [|by apply update_step_eq]. by apply bookkeeping_map.
Qed.

Lemma mark_recovered_booked r s x : rs_steps (rd_state r) !! s = Some x → booked r s x (mark_recovered s r).
Proof.
  intros Hx. unfold mark_recovered. destruct (activated_recovery_execution _ _).
  - by apply set_recovery_disposition_booked.
  - by apply booked_same.
Qed.

Lemma map_state_id r : map_state (λ st, st) r = r.
Proof. by destruct r. Qed.

Lemma mark_recovery_exhausted_booked r s x :
  rs_steps (rd_state r) !! s = Some x → booked r s x (map_state (mark_recovery_exhausted s) r).
Proof.
  intros Hx. unfold mark_recovery_exhausted, map_state. destruct (activated_recovery_execution _ _) eqn:E.
  - by apply set_recovery_disposition_booked.
  - destruct r. by apply booked_same.
Qed.

Lemma mark_handler_cancelled_booked r s x active :
  rs_steps (rd_state r) !! s = Some x → booked r s x (map_state (mark_handler_cancelled s active) r).
Proof.
  intros Hx. destruct active; simpl.
  - destruct r. by apply booked_same.
  - by apply set_handler_outcome_booked.
Qed.

Lemma mark_recovery_cancelled_booked r s x active :
  rs_steps (rd_state r) !! s = Some x → booked r s x (map_state (mark_recovery_cancelled s active) r).
Proof.
  intros Hx. unfold mark_recovery_cancelled, map_state. rewrite Hx. simpl.
  destruct (ss_recovery x ≫= _).
  - by apply set_recovery_disposition_booked.
  - destruct r. by apply booked_same.
Qed.

Lemma bookkeeping_kind x y : bookkeeping x y → state_kind (ss_state y) = state_kind (ss_state x).
Proof. intros Hb. by rewrite (bookkeeping_state _ _ Hb). Qed.

(** A transition after bookkeeping, and the settled variant. *)
Lemma booked_transition r r' s d x v a :
  node_at (rd_state r) s d x → booked r s x r' →
  ∃ y, bookkeeping x y ∧ node_at (rd_state r') s d y
    ∧ transition_step r' s v a = (seqno (rd_state r), node_update r s d x (enter v a y) []).
Proof.
  intros Hat (y & Hy & ->). exists y. split; [done|]. split; [by eapply node_at_quiet|].
  rewrite (transition_step_eq _ _ d y) by (by eapply node_at_quiet).
  rewrite (node_update_quiet _ _ _ x) by by apply bookkeeping_kind. simpl. by rewrite seqno_set_steps.
Qed.

Lemma booked_settle r r' s d x v :
  node_at (rd_state r) s d x → booked r s x r' →
  ∃ y, bookkeeping x y
    ∧ map_state (clear_active_invocation s) (transition_step r' s v None).2
      = node_update r s d x (settle v y) [].
Proof.
  intros Hat Hb. destruct (booked_transition _ _ _ _ _ v None Hat Hb) as (y & Hy & _ & ->).
  exists y. split; [done|]. cbn [snd]. unfold clear_active_invocation. by rewrite node_update_update.
Qed.

(** ** Steps *)

Lemma step_accepts_spec st s kind a :
  wf st → step_accepts st s kind a = true →
  ∃ d x, node_at st s d x ∧ state_kind (ss_state x) = kind ∧ ss_current_action x = Some a.
Proof.
  intros Hwf. unfold step_accepts. destruct (rs_steps st !! s) as [x|] eqn:Hx; [|done].
  intros [?%bool_decide_eq_true ?%bool_decide_eq_true]%andb_prop.
  destruct (wf_defined _ _ _ Hwf Hx) as [d Hd]. by exists d, x.
Qed.

Lemma kind_starting (v : StepState Output) : state_kind v = KStarting → v = SStarting.
Proof. by destruct v. Qed.
Lemma kind_running (v : StepState Output) : state_kind v = KRunning → v = SRunning.
Proof. by destruct v. Qed.
Lemma kind_capturing (v : StepState Output) : state_kind v = KCapturingOutputs → v = SCapturingOutputs.
Proof. by destruct v. Qed.

Lemma execution_completed_moves r s a provisional :
  wf (rd_state r) → rtc external r (apply_execution_completed r s a provisional).2.
Proof.
  intros Hwf. unfold apply_execution_completed.
  destruct (step_accepts _ _ _ _) eqn:Hacc; simpl.
  2: { destruct (requires_release provisional); [|done]. apply rtc_once, ext_release. }
  destruct (step_accepts_spec _ _ _ _ Hwf Hacc) as (d & x & Hat & Hk%kind_running & Ha).
  rewrite (transition_step_eq _ _ d x) by done.
  unfold step_declares_outputs. rewrite def_step_node, (proj2 Hat).
  case_bool_decide as Ho; cbn [negb snd].
  - set (y := enter SCapturingOutputs None x).
    assert (Hat' : node_at (rd_state (node_update r s d x y [])) s d y) by by eapply node_at_node.
    destruct (booked_settle _ _ s d y (SSucceeded []) Hat' (mark_recovered_booked _ _ _ (proj1 Hat'))) as (z & Hz & Heq).
    destruct (transition_step (mark_recovered s _) s _ _) as [n r2]. cbn [snd] in Heq |- *. rewrite Heq.
    eapply rtc_l; [by eapply (ext_completed r s d x y z)|].
    destruct (requires_release provisional); [|done]. apply rtc_once, ext_release.
  - unfold set_current_action. rewrite node_update_update by done. rewrite node_update_push.
    apply rtc_once, ext_capturing; done.
Qed.

Lemma recovery_round_available_spec st s round e invocation kind :
  recovery_round_available st s = Some (round, e, invocation, kind) →
  ∃ x v, rs_steps st !! s = Some x ∧ ss_recovery x = Some v ∧ ss_target_execution x = Some e
    ∧ ss_target_invocation x = Some invocation ∧ sr_handler_kind v = kind
    ∧ (N.of_nat (length (sr_rounds v)) < sr_configured_rounds v)%N
    ∧ round = (N.of_nat (length (sr_rounds v)) + 1)%N ∧ round = e ∧ (round <= u8_max)%N.
Proof.
  unfold recovery_round_available. destruct (rs_steps st !! s) as [x|]; simpl; [|done].
  destruct (ss_target_execution x) as [e'|] eqn:He; simpl; [|done].
  destruct (ss_target_invocation x) as [i|] eqn:Hi; simpl; [|done].
  destruct (ss_recovery x) as [v|] eqn:Hv; simpl; [|done]. case_decide; [done|].
  case_decide; [|done]. destruct (checked_add _ _ _) as [n|] eqn:Hn; simpl; [|done].
  apply checked_add_Some in Hn as [-> Hn]. destruct (N.eqb_spec (N.of_nat (length (sr_rounds v)) + 1) e'); simpl; [|done].
  intros [= <- <- <- <-]. exists x, v. split_and!; try done. lia.
Qed.

(** Bookkeeping and new rounds change nothing the scheduler looks at. *)
Lemma quiet_same_view r s x y :
  rs_steps (rd_state r) !! s = Some x → ss_state y = ss_state x →
  same_view (rd_state r) (rd_state (quiet_update r s y)).
Proof.
  intros Hx Hs. split_and!; [by eapply extends_quiet| |done].
  eapply (extends_insert _ _ s y x); [done| |apply quiet_update_lookup|by right].
  simpl. by rewrite insert_insert_eq, insert_id.
Qed.

(** [activate_recovery_round] either changes nothing, or opens a round, or,
    at the last execution number, records the round and reports failure. *)
Lemma activate_recovery_round_spec r s d x phase detail cause :
  node_at (rd_state r) s d x → target_active (ss_state x) = true → rt_role d = RoleStep →
  execution_failure phase detail cause →
  let '(activated, r') := activate_recovery_round r s phase detail cause in
  activated = true ∧ external r r'
  ∨ activated = false ∧ r' = r
  ∨ activated = false ∧ ∃ round e invocation,
      recovery_round_available (rd_state r) s = Some (round, e, invocation, None) ∧ execution_next e = None
      ∧ r' = quiet_update r s (push_round (round_record round e invocation phase detail cause) x).
Proof.
  intros Hat Hact Hrole Hexec. unfold activate_recovery_round.
  destruct (recovery_round_available (rd_state r) s) as [[[[round e] invocation] kind]|] eqn:Hav; [|by right; left].
  change {| rrr_number := round; rrr_failed_execution := _; rrr_handler := None |}
    with (round_record round e invocation phase detail cause).
  set (record := round_record round e invocation phase detail cause).
  rewrite (update_step_eq r s x) by apply Hat.
  assert (Hat' : node_at (rd_state (quiet_update r s (push_round record x))) s d (push_round record x))
    by by eapply node_at_quiet.
  destruct kind as [kind|].
  - rewrite (update_step_eq _ s (push_round record x)) by apply Hat'. rewrite quiet_update_quiet.
    erewrite transition_step_eq by (by eapply node_at_quiet).
    rewrite (node_update_quiet _ _ _ x) by done. unfold set_current_action. simpl seqno. rewrite seqno_set_steps.
    rewrite !node_update_update by done. rewrite node_update_push.
    left. split; [done|]. unfold recovery_rounds. rewrite node_update_lookup.
    by eapply (ext_recovering r s d x _ round e invocation phase detail cause kind).
  - destruct (execution_next e) as [e'|] eqn:He; [|right; right; eauto 8].
    rewrite (proj2 Hat'). rewrite (authorize_target_eq _ _ d (push_round record x)) by done.
    rewrite (node_update_quiet _ _ _ x) by done. simpl seqno. rewrite seqno_set_steps.
    rewrite <-(resolved_action_inputs_proper _ _ (quiet_same_view r s x (push_round record x) (proj1 Hat) eq_refl) d d eq_refl).
    left. split; [done|]. by eapply ext_retried.
Qed.

Lemma settle_booked_moves r r' s d x y detail :
  node_at (rd_state r) s d x → state_kind (ss_state y) = state_kind (ss_state x) → r' = quiet_update r s y →
  settle_target_failure r' s d detail =
  commit_required_issue (node_update r s d x (settle (SFailed detail) y) []) d
    (primary_issue_failed {| node_id := s; node_role := rt_role d |} detail).
Proof.
  intros Hat Hk ->. rewrite (settle_target_failure_eq _ _ d y) by (by eapply node_at_quiet).
  by rewrite (node_update_quiet _ _ _ x).
Qed.

Lemma target_active_kind (v : StepState Output) :
  (state_kind v = KStarting ∨ state_kind v = KRunning ∨ state_kind v = KCapturingOutputs) → target_active v = true.
Proof. destruct v; naive_solver. Qed.

Lemma target_active_cancellable (v : StepState Output) : target_active v = true → cancellable v = true.
Proof. by destruct v. Qed.

Lemma step_failure_moves r s a kind phase cause :
  wf (rd_state r) → kind = KStarting ∨ kind = KRunning ∨ kind = KCapturingOutputs → phase ≠ PhaseCondition →
  rtc external r (apply_step_failure r s a kind phase cause).2.
Proof.
  intros Hwf Hkind Hphase. unfold apply_step_failure.
  destruct (step_accepts _ _ _ _) eqn:Hacc; simpl; [|done].
  destruct (step_accepts_spec _ _ _ _ Hwf Hacc) as (d & x & Hat & Hk & Ha). rewrite (proj2 Hat).
  assert (Hact : target_active (ss_state x) = true) by (apply target_active_kind; by rewrite Hk).
  destruct (node_failure_detail cause phase) as [detail|] eqn:Hdetail; [|done].
  assert (Hexec : execution_failure phase detail cause) by done.
  assert (Horigin : failure_origin (rd_state r) s detail) by (left; eauto).
  assert (Hsettle : ∀ r0 y0, r0 = quiet_update r s y0 → ss_state y0 = ss_state x →
    ∃ y, bookkeeping y0 y ∧ settle_target_failure
      (match rt_recovery d with Some _ => map_state (mark_recovery_exhausted s) r0 | None => r0 end) s d detail
      = commit_required_issue (node_update r s d x (settle (SFailed detail) y) []) d
          (primary_issue_failed {| node_id := s; node_role := rt_role d |} detail)).
  { intros r0 y0 -> Hs0. destruct (rt_recovery d).
    - destruct (mark_recovery_exhausted_booked (quiet_update r s y0) s y0) as (y & Hy & ->);
        [apply quiet_update_lookup|]. rewrite quiet_update_quiet. exists y. split; [done|].
      eapply settle_booked_moves; [done| |done]. by rewrite (bookkeeping_kind _ _ Hy), Hs0.
    - exists y0. split; [apply bookkeeping_refl|]. eapply settle_booked_moves; [done|by rewrite Hs0|done]. }
  assert (Hself : r = quiet_update r s x) by by rewrite quiet_update_same by apply Hat.
  case_decide as Hrole.
  - pose proof (activate_recovery_round_spec r s d x phase detail cause Hat Hact Hrole Hexec) as Hspec.
    destruct (activate_recovery_round r s phase detail cause) as [activated r0].
    destruct Hspec as [[-> Hm]|[[-> ->]|(-> & round & e & invocation & Hav & He & ->)]].
    + by apply rtc_once.
    + destruct (Hsettle r x Hself eq_refl) as (y & Hy & Heq). cbn [snd]. rewrite Heq.
      apply rtc_once, ext_failed; auto using target_active_cancellable.
    + destruct (Hsettle _ (push_round (round_record round e invocation phase detail cause) x) eq_refl eq_refl) as (y & Hy & Heq). cbn [snd]. rewrite Heq.
      by eapply rtc_once, ext_failed_last.
  - destruct (Hsettle r x Hself eq_refl) as (y & Hy & Heq). cbn [snd]. rewrite Heq.
    apply rtc_once, ext_failed; auto using target_active_cancellable.
Qed.

(** ** Recovery handlers *)

Lemma handler_accepts_spec st s round expected a :
  wf st → handler_accepts st s round expected a = true →
  ∃ d x, node_at st s d x ∧ ss_state x = SRecovering round expected ∧ ss_current_action x = Some a
    ∧ ss_active_invocation x = Some (ActiveRecoveryHandler round).
Proof.
  intros Hwf. unfold handler_accepts. destruct (rs_steps st !! s) as [x|] eqn:Hx; [|done].
  intros [[?%bool_decide_eq_true ?%bool_decide_eq_true]%andb_prop Hs]%andb_prop.
  destruct (wf_defined _ _ _ Hwf Hx) as [d Hd]. exists d, x. split; [done|].
  destruct (ss_state x); try done.
  by apply andb_prop in Hs as [->%bool_decide_eq_true ->%bool_decide_eq_true].
Qed.

Lemma latest_target_failure_booked r s x y :
  rs_steps (rd_state r) !! s = Some x → bookkeeping x y →
  latest_target_failure (rd_state (quiet_update r s y)) s = latest_target_failure (rd_state r) s.
Proof.
  intros Hx [_ Hy]. unfold latest_target_failure. rewrite quiet_update_lookup, Hx. simpl.
  destruct (ss_recovery x) as [a|], (ss_recovery y) as [b|]; simpl; try done.
  destruct Hy as (_ & _ & _ & Heq). by rewrite <-!fmap_last, Heq.
Qed.

Lemma settle_latest_moves r r' s d x :
  node_at (rd_state r) s d x → cancellable (ss_state x) = true → booked r s x r' →
  rtc external r (settle_latest_target_failure r' s).
Proof.
  intros Hat Hc (y & Hy & ->). unfold settle_latest_target_failure.
  rewrite (latest_target_failure_booked _ _ x) by (done || apply Hat).
  assert (Hquiet : external r (quiet_update r s y)).
  { eapply ext_bookkeeping; [apply Hat| |done]. by destruct (ss_state x). }
  destruct (latest_target_failure (rd_state r) s) as [failure|] eqn:Hf; [|by apply rtc_once].
  rewrite def_step_quiet, (proj2 Hat).
  rewrite (settle_booked_moves r _ s d x y) by (done || by apply bookkeeping_kind).
  apply rtc_once, ext_failed; [done..|]. right. eauto.
Qed.

Lemma handler_failure_moves r s round a expected phase cause :
  wf (rd_state r) → rtc external r (apply_handler_failure r s round a expected phase cause).2.
Proof.
  intros Hwf. unfold apply_handler_failure. destruct (handler_accepts _ _ _ _ _) eqn:Hacc; cbn [negb snd]; [|done].
  destruct (handler_accepts_spec _ _ _ _ _ Hwf Hacc) as (d & x & Hat & Hs & _ & _).
  eapply settle_latest_moves; [done|by rewrite Hs|].
  destruct (set_handler_outcome_booked r s x round (OutcomeFailed phase cause) (proj1 Hat)) as (y & Hy & ->).
  eapply booked_trans; [done..|]. apply set_recovery_disposition_booked, quiet_update_lookup.
Qed.

Lemma handler_decision_moves r s round a decision :
  wf (rd_state r) → rtc external r (apply_handler_decision r s round a decision).2.
Proof.
  intros Hwf. unfold apply_handler_decision. destruct (handler_accepts _ _ _ _ _) eqn:Hacc; cbn [negb snd]; [|done].
  destruct (handler_accepts_spec _ _ _ _ _ Hwf Hacc) as (d & x & Hat & Hs & _ & _).
  destruct (set_handler_outcome_booked r s x round (decision_outcome decision) (proj1 Hat)) as (y & Hy & ->).
  destruct (dec_kind decision); cbn [snd].
  - assert (Hquiet : external r (quiet_update r s y)).
    { eapply ext_bookkeeping; [apply Hat| |done]. by rewrite Hs. }
    rewrite (latest_target_failure_booked _ _ x) by (done || apply Hat).
    destruct (latest_target_failure (rd_state r) s) as [failure|] eqn:Hf;
      cbn [mbind option_bind snd]; [|by apply rtc_once].
    destruct (execution_next (ptf_execution_number failure)) as [e'|] eqn:He; cbn [snd]; [|by apply rtc_once].
    rewrite def_step_quiet, (proj2 Hat). cbn [snd].
    rewrite (authorize_target_eq _ _ d y) by (by eapply node_at_quiet).
    rewrite (node_update_quiet _ _ _ x) by by apply bookkeeping_kind. simpl seqno. rewrite seqno_set_steps.
    rewrite <-(resolved_action_inputs_proper _ _
      (quiet_same_view r s x y (proj1 Hat) (bookkeeping_state _ _ Hy)) d d eq_refl).
    by eapply rtc_once, ext_rechecked.
  - eapply settle_latest_moves; [done|by rewrite Hs|].
    eapply booked_trans; [done..|]. apply set_recovery_disposition_booked, quiet_update_lookup.
Qed.

(** ** Cancellation *)

(** A node of the list [cancel_nodes] goes through. *)
Definition listed st role (node : string * StepStateKind) : Prop :=
  ∃ d x, node_at st node.1 d x ∧ rt_role d = role ∧ node.2 = state_kind (ss_state x).

Lemma listed_other r r' role s node :
  (∀ t, t ≠ s → rs_steps (rd_state r') !! t = rs_steps (rd_state r) !! t) →
  rs_definition (rd_state r') = rs_definition (rd_state r) →
  node.1 ≠ s → listed (rd_state r) role node → listed (rd_state r') role node.
Proof.
  intros Hs Hd Hne (d & x & [Hx Hdx] & ? & ?). exists d, x. split; [|done].
  split; [by rewrite Hs|]. unfold def_step. by rewrite Hd.
Qed.

(** What one iteration of [cancel_nodes] keeps. *)
Definition only_node r r' s : Prop :=
  (∀ t, t ≠ s → rs_steps (rd_state r') !! t = rs_steps (rd_state r) !! t)
  ∧ rs_definition (rd_state r') = rs_definition (rd_state r)
  ∧ rs_workflow (rd_state r') = rs_workflow (rd_state r)
  ∧ rs_force_abort (rd_state r') = rs_force_abort (rd_state r).

(** What [cancel_nodes] relies on: the gate of the role is closed for the
    reason, and a force abort closed it when the nodes are contained. *)
Definition closing st role reason (force : bool) : Prop :=
  role_cancelling (rs_workflow st) role = true ∧ cancel_reason st role reason
  ∧ (force = true → aborting st role = true).

Lemma closing_same st st' role reason force :
  rs_workflow st' = rs_workflow st → rs_force_abort st' = rs_force_abort st →
  closing st role reason force → closing st' role reason force.
Proof.
  intros Hw Hf. unfold closing, cancel_reason, aborting, ordinary_force_abort. by rewrite Hw, Hf.
Qed.

Lemma only_node_quiet r s x : only_node r (quiet_update r s x) s.
Proof. split_and!; [|done..]. intros t Ht. simpl. by rewrite lookup_insert_ne. Qed.

Lemma only_node_node r s d x y acts : only_node r (node_update r s d x y acts) s.
Proof.
  split_and!; simpl; [|by rewrite bump_definition|by rewrite bump_workflow|by rewrite bump_force_abort].
  intros t Ht. by rewrite lookup_insert_ne.
Qed.

Lemma cancel_active_moves reason force graceful r i s d x :
  node_at (rd_state r) s d x → cancellable (ss_state x) = true →
  closing (rd_state r) (rt_role d) reason (bool_decide (is_Some force)) →
  let r' := (cancel_active reason force graceful r i s).1 in rtc external r r' ∧ only_node r r' s.
Proof.
  intros Hat Hc (Hrole & Hreason & Hforce). unfold cancel_active. rewrite (proj1 Hat). cbn [mbind option_bind].
  destruct (ss_active_invocation x) as [active|] eqn:Ha; [|done].
  destruct (booked_transition r _ s d x (SCancelling (cancellation_detail reason)) None Hat
              (mark_handler_cancelled_booked r s x active (proj1 Hat))) as (y & Hy & _ & ->).
  unfold set_current_action.
  destruct force as [[operation deadline]|]; [|destruct graceful as [deadline|]]; cbn [fst];
    rewrite node_update_update by done; rewrite ?node_update_push;
    (split; [eapply rtc_once, ext_cancelling; try done; first [by left|right; by apply Hforce]|apply only_node_node]).
Qed.

Lemma contain_cancelling_moves reason operation deadline r i s d x :
  node_at (rd_state r) s d x → state_kind (ss_state x) = KCancelling → aborting (rd_state r) (rt_role d) = true →
  let r' := (contain_cancelling reason operation deadline r i s).1 in rtc external r r' ∧ only_node r r' s.
Proof.
  intros Hat Hk Hab. unfold contain_cancelling, set_current_action.
  rewrite (update_step_eq _ _ x) by apply Hat. rewrite quiet_update_lookup. cbn [mbind option_bind].
  destruct (ss_active_invocation _); cbn [fst]; (split; [|apply only_node_quiet]); apply rtc_once.
  - by eapply (ext_contained r s d x _ [_]).
  - by eapply (ext_contained r s d x _ []).
Qed.

Lemma cancel_node_moves role reason force graceful r i s kind :
  closing (rd_state r) role reason (bool_decide (is_Some force)) → listed (rd_state r) role (s, kind) →
  let r' := (cancel_node reason force graceful (r, i) (s, kind)).1 in
  rtc external r r' ∧ only_node r r' s.
Proof.
  intros Hrole (d & x & Hat & <- & Hk). cbn [fst snd] in *. unfold cancel_node.
  destruct kind; try done;
    try (eapply cancel_active_moves; [done| |done]; by destruct (ss_state x)).
  - cbn [fst]. rewrite (transition_step_eq _ _ d x) by done. cbn [snd].
    split; [|apply only_node_node]. eapply rtc_once, ext_cancel_pending; [done| |apply Hrole..]. by destruct (ss_state x).
  - destruct force as [[operation deadline]|]; [|done]. eapply contain_cancelling_moves; [done..|].
    by apply (proj2 (proj2 Hrole)).
Qed.

Lemma cancel_loop_moves role reason force graceful nodes r i :
  closing (rd_state r) role reason (bool_decide (is_Some force)) →
  NoDup nodes.*1 → Forall (listed (rd_state r) role) nodes →
  rtc external r (foldl (cancel_node reason force graceful) (r, i) nodes).1.
Proof.
  revert r i. induction nodes as [|[s kind] nodes IH]; intros r i Hrole Hnd Hall; [done|].
  apply NoDup_cons in Hnd as [Hnin Hnd]. apply Forall_cons in Hall as [Hs Hall].
  destruct (cancel_node_moves role reason force graceful r i s kind Hrole Hs) as [Hm (Ho & Hd & Hw & Hf)].
  cbn [foldl]. destruct (cancel_node reason force graceful (r, i) (s, kind)) as [r' i']. cbn [fst] in *.
  etrans; [exact Hm|]. apply IH; [by eapply closing_same|done|].
  rewrite Forall_forall in Hall |- *. intros node Hin. eapply (listed_other r _ _ s); [done..| |by apply Hall].
  intros <-. apply Hnin, list_elem_of_fmap. by exists node.
Qed.

Lemma def_steps_get st s d : wf st → (s, d) ∈ def_steps (rs_definition st) → def_step st s = Some d.
Proof. intros [Hd _] Hin. apply bt_get_NoDup; [apply (dw_nodup _ Hd)|done]. Qed.

Lemma role_nodes_listed st role : wf st → Forall (listed st role) (role_nodes st role).
Proof.
  intros Hwf. apply Forall_forall. intros node ([s d] & Hin & Hs)%list_elem_of_omap.
  destruct (bool_decide_reflect (rt_role d = role)) as [Hrole|]; [|done].
  apply (def_steps_get _ _ _ Hwf) in Hin. destruct (node_at_exists _ _ _ Hwf Hin) as [x Hat].
  rewrite (proj1 Hat) in Hs. simplify_eq/=. by exists d, x.
Qed.

Lemma role_nodes_NoDup st role : wf st → NoDup (role_nodes st role).*1.
Proof.
  intros [Hd _]. eapply sublist_NoDup; [apply (dw_nodup _ Hd)|]. unfold role_nodes, bt_keys.
  apply sublist_omap_fst. intros [s d] b. destruct (bool_decide _); [|done].
  destruct (rs_steps st !! s); simpl; [|done]. by intros [= <-].
Qed.

Lemma cancel_nodes_moves r role reason deadline force operation :
  wf (rd_state r) → closing (rd_state r) role reason force →
  rtc external r (cancel_nodes r role reason deadline force operation).
Proof.
  intros Hwf Hrole. unfold cancel_nodes.
  destruct force, operation, deadline; try done;
    apply (cancel_loop_moves role); auto using role_nodes_NoDup, role_nodes_listed.
Qed.

Lemma workflow_update_wf r f ev acts :
  (∀ st, rs_definition (f st) = rs_definition st ∧ rs_steps (f st) = rs_steps st) →
  wf (rd_state r) → wf (rd_state (workflow_update r f ev acts)).
Proof. intros Hf. apply same_nodes_wf. by apply same_nodes_workflow. Qed.

Lemma record_operation_moves r operation :
  rtc external r (map_state (record_operation operation) r)
  ∧ (wf (rd_state r) → wf (record_operation operation (rd_state r))).
Proof.
  destruct operation as [operation|]; simpl.
  - split; [apply rtc_once, ext_operation|done].
  - split; [|done]. by destruct r.
Qed.

Lemma bump_set_workflow w st : bump (set_workflow w st) = set_workflow w (bump st).
Proof. unfold bump, next_sequence. simpl. by case_decide. Qed.
Lemma seqno_set_workflow w st : seqno (set_workflow w st) = seqno st.
Proof. unfold seqno, next_sequence. simpl. by case_decide. Qed.
Lemma bump_set_finalization w st : bump (set_finalization w st) = set_finalization w (bump st).
Proof. unfold bump, next_sequence. simpl. by case_decide. Qed.
Lemma seqno_set_finalization w st : seqno (set_finalization w st) = seqno st.
Proof. unfold seqno, next_sequence. simpl. by case_decide. Qed.
Lemma bump_set_force_abort w st : bump (set_force_abort w st) = set_force_abort w (bump st).
Proof. unfold bump, next_sequence. simpl. by case_decide. Qed.
Lemma seqno_set_force_abort w st : seqno (set_force_abort w st) = seqno st.
Proof. unfold seqno, next_sequence. simpl. by case_decide. Qed.

(** An accepted cancellation: the gate closes, then the nodes are
    contained. *)
Lemma accept_moves r r' f ev role reason deadline force operation :
  external r r' → r' = workflow_update r f ev [] →
  (∀ st, rs_definition (f st) = rs_definition st ∧ rs_steps (f st) = rs_steps st) →
  closing (rd_state r') role reason force → wf (rd_state r) →
  rtc external r (cancel_nodes r' role reason deadline force operation).
Proof.
  intros Hm -> Hf Hrole Hwf. eapply rtc_l; [done|]. apply cancel_nodes_moves; [|done].
  by apply workflow_update_wf.
Qed.

Lemma push_event_workflow r (g : State → State) st f ev n :
  st = f (bump (g (rd_state r))) → n = seqno (g (rd_state r)) →
  push_event (ev n) (with_state st r) = workflow_update (map_state g r) f ev [].
Proof.
  intros -> ->. unfold map_state, push_event, with_state, workflow_update. simpl. by rewrite app_nil_r.
Qed.

Lemma ordinary_cancellation_moves r cancellation operation :
  wf (rd_state r) → rtc external r (apply_ordinary_cancellation r cancellation operation).2.
Proof.
  intros Hwf. unfold apply_ordinary_cancellation.
  destruct (record_operation_moves r operation) as [Hop Hwf'%(λ f, f Hwf)].
  set (r1 := map_state (record_operation operation) r) in *.
  assert (Haccept : ∀ gate prior, rs_workflow (rd_state r) = WExecuting gate →
    (gate = GateOpen ∧ prior = None ∨ ∃ issue, gate = GateFailureStopped issue ∧ prior = Some issue) →
    rtc external r (let '(sequence, st) := next_sequence
        (set_workflow (WExecuting (GateCancelling (cr_reason cancellation) prior))
           (record_operation operation (rd_state r))) in
      cancel_nodes (push_event (EvCancellationAccepted sequence (cr_reason cancellation) (cr_deadline cancellation))
        (with_state st r)) RoleStep (cr_reason cancellation) (Some (cr_deadline cancellation)) false operation)).
  { intros gate prior Hw Hgate. rewrite next_sequence_eq.
    rewrite bump_set_workflow, seqno_set_workflow.
    rewrite (push_event_workflow r (record_operation operation) _ (set_workflow (WExecuting (GateCancelling (cr_reason cancellation) prior)))
      (λ n, EvCancellationAccepted n (cr_reason cancellation) (cr_deadline cancellation))) by done.
    etrans; [exact Hop|]. eapply accept_moves; [|done|done| |done]; [|split_and!; [done|by left|done]].
    eapply ext_cancellation; [|done]. unfold r1. by destruct operation. }
  destruct (rs_workflow (rd_state r)) as [[| |]| | | |] eqn:Hw; try done.
  - specialize (Haccept _ None eq_refl). destruct (next_sequence _). cbn [snd]. apply Haccept. by left.
  - specialize (Haccept _ (Some primary_issue) eq_refl). destruct (next_sequence _). cbn [snd]. apply Haccept.
    right. eauto.
Qed.

Lemma finalization_cancellation_moves r cancellation operation :
  wf (rd_state r) → (∃ trigger issue, rs_workflow (rd_state r) = WFinalizing trigger FinOpen issue) →
  rtc external r (apply_finalization_cancellation r cancellation operation).2.
Proof.
  intros Hwf (trigger & issue & Hw). unfold apply_finalization_cancellation.
  destruct (record_operation_moves r operation) as [Hop Hwf'%(λ f, f Hwf)].
  set (r1 := map_state (record_operation operation) r) in *.
  assert (Hw1 : rs_workflow (record_operation operation (rd_state r)) = WFinalizing trigger FinOpen issue)
    by by destruct operation.
  rewrite Hw1, next_sequence_eq, bump_set_finalization, seqno_set_finalization, bump_set_workflow, seqno_set_workflow.
  cbn [snd]. etrans; [exact Hop|].
  pose proof (ext_finalization_cancellation r1 trigger issue (cr_reason cancellation) (cr_deadline cancellation) Hw1) as Hm.
  set (f := λ st : State, set_finalization _ _) in Hm. 
  erewrite (push_event_workflow r (record_operation operation) _ f (λ n, EvFinalizationCancellationAccepted n (cr_reason cancellation) (cr_deadline cancellation)));
    [|unfold f; simpl; by rewrite bump_finalization|done].
  eapply accept_moves; [done..| |done]. split_and!; [done|by left|done].
Qed.

Lemma cancellation_moves r cancellation operation :
  wf (rd_state r) → rtc external r (apply_cancellation r cancellation operation).2.
Proof.
  intros Hwf. unfold apply_cancellation. destruct (rs_workflow (rd_state r)) as [|? [] ?| | |] eqn:Hw; try done.
  - by apply ordinary_cancellation_moves.
  - apply finalization_cancellation_moves; eauto.
Qed.

Lemma force_abort_moves r operation deadline :
  wf (rd_state r) → rtc external r (apply_force_abort r operation deadline).2.
Proof.
  intros Hwf. unfold apply_force_abort. case_decide as Hf; [done|].
  assert (Hnone : rs_force_abort (rd_state r) = None) by (destruct (rs_force_abort _); [by destruct Hf|done]).
  set (r1 := map_state (set_last_operation (Some operation)) r).
  assert (Hop : rtc external r r1) by apply rtc_once, ext_operation.
  destruct (rs_workflow (rd_state r)) as [gate|trigger gate issue| | |] eqn:Hw; try done.
  - rewrite next_sequence_eq, bump_set_workflow, seqno_set_workflow. cbn [snd].
    etrans; [exact Hop|]. pose proof (ext_force_abort r1 gate Hw Hnone) as Hm.
    set (f := λ st : State, set_workflow _ _) in Hm.
    erewrite (push_event_workflow r (set_last_operation (Some operation)) _ f (λ n, EvForceAbortAccepted n ForceAbort PhaseOrdinary)).
    + eapply accept_moves; [done..| |done]. split_and!; [by destruct gate|by right|done].
    + unfold f. by rewrite <-bump_set_force_abort.
    + change (set_last_operation (Some operation) (set_force_abort ?v ?st))
        with (set_force_abort v (set_last_operation (Some operation) st)). by rewrite seqno_set_force_abort.
  - rewrite next_sequence_eq, bump_set_finalization, seqno_set_finalization, bump_set_workflow, seqno_set_workflow.
    cbn [snd]. etrans; [exact Hop|]. pose proof (ext_force_abort_finalization r1 trigger gate issue Hw Hnone) as Hm.
    set (f := λ st : State, set_finalization _ _) in Hm.
    erewrite (push_event_workflow r (set_last_operation (Some operation)) _ f (λ n, EvForceAbortAccepted n ForceAbort PhaseFinalization)).
    + eapply accept_moves; [done..| |done]. split_and!; [by destruct gate| |by destruct gate].
      right. split; [done|]. by destruct gate.
    + unfold f. simpl. rewrite bump_finalization. by rewrite <-bump_set_force_abort.
    + change (set_last_operation (Some operation) (set_force_abort ?v ?st))
        with (set_force_abort v (set_last_operation (Some operation) st)). by rewrite seqno_set_force_abort.
Qed.

(** ** The whole reducer *)

Lemma quiesced_moves r s a :
  wf (rd_state r) → rtc external r (apply_occurrence r (StepQuiesced s a)).2.
Proof.
  intros Hwf. simpl. destruct (cancelling_step (rd_state r) s a) as [[reason active]|] eqn:Hc; [|done].
  unfold cancelling_step in Hc. destruct (rs_steps (rd_state r) !! s) as [x|] eqn:Hx; simpl in Hc; [|done].
  destruct (ss_state x) eqn:Hs; try done. case_decide; [|done].
  destruct (ss_active_invocation x) as [active'|] eqn:Ha; simplify_eq/=.
  destruct (wf_defined _ _ _ Hwf Hx) as [d Hd]. assert (Hat : node_at (rd_state r) s d x) by done.
  destruct (booked_settle r _ s d x (SCancelled (cancellation_detail (if is_force_abort a then ForceAbort else cd_code detail)))
    Hat (mark_recovery_cancelled_booked r s x active Hx)) as (y & Hy & Heq).
  destruct (transition_step _ _ _ _) as [n r2]. cbn [snd] in *. rewrite Heq.
  eapply rtc_once, ext_quiesced; [done..|]. destruct (is_force_abort a) eqn:Hforce; [right|by left]. eauto.
Qed.

Lemma captured_moves r s a outputs :
  wf (rd_state r) → rtc external r (apply_occurrence r (OutputsCaptured s a outputs)).2.
Proof.
  intros Hwf. cbn [apply_occurrence].
  destruct (step_accepts _ _ _ _) eqn:Hacc; [|done].
  destruct (outputs_match_declaration _ _ _) eqn:Ho; [|done]. cbn [negb orb].
  destruct (step_accepts_spec _ _ _ _ Hwf Hacc) as (d & x & Hat & Hk%kind_capturing & Ha).
  unfold outputs_match_declaration in Ho. rewrite (proj2 Hat) in Ho. apply bool_decide_eq_true in Ho.
  destruct (booked_settle r _ s d x (SSucceeded outputs) Hat (mark_recovered_booked r s x (proj1 Hat))) as (y & Hy & Heq).
  destruct (transition_step _ _ _ _) as [n r2]. cbn [snd] in *. rewrite Heq. by apply rtc_once, ext_captured.
Qed.

Lemma handler_started_moves r s round a :
  wf (rd_state r) → rtc external r (apply_occurrence r (RecoveryHandlerStarted s round a)).2.
Proof.
  intros Hwf. cbn [apply_occurrence].
  destruct (handler_accepts _ _ _ _ _) eqn:Hacc; cbn [negb snd]; [|done].
  destruct (handler_accepts_spec _ _ _ _ _ Hwf Hacc) as (d & x & Hat & Hs & Ha & _).
  destruct (booked_transition r _ s d x (SRecovering round HandlerRunning) (Some a) Hat
    (set_handler_outcome_booked r s x round OutcomeRunning (proj1 Hat))) as (y & Hy & _ & ->).
  by eapply rtc_once, ext_handler_started.
Qed.

Lemma apply_occurrence_moves r o : wf (rd_state r) → rtc external r (apply_occurrence r o).2.
Proof.
  intros Hwf. destruct o; cbn [apply_occurrence];
    eauto using execution_completed_moves, step_failure_moves, handler_failure_moves, handler_decision_moves.
  - destruct (step_accepts _ _ _ _) eqn:Hacc; cbn [negb snd]; [|done].
    destruct (step_accepts_spec _ _ _ _ Hwf Hacc) as (d & x & Hat & Hk%kind_starting & Ha).
    erewrite transition_step_eq by done. by apply rtc_once, ext_started.
  - by apply captured_moves.
  - by apply handler_started_moves.
  - destruct (_ || _); [done|]. by apply cancellation_moves.
  - unfold apply_ordinary_only_cancellation. destruct (_ || _); [done|].
    destruct (is_executing _); cbn [negb]; [by apply ordinary_cancellation_moves|].
    apply rtc_once, ext_operation.
  - destruct (stale_operation _ _); [done|]. by apply force_abort_moves.
  - by apply quiesced_moves.
Qed.

Lemma external_moves_same r r' : rtc external r r' → same_nodes r r'.
Proof. induction 1 as [|? ? ? ?%external_same]; eauto using same_nodes_trans, same_nodes_refl. Qed.

Lemma external_moves_move r r' : rtc external r r' → rtc move r r'.
Proof. apply rtc_congruence with (f := id). intros. by apply move_external. Qed.

Lemma internal_moves_move r r' : rtc internal r r' → rtc move r r'.
Proof. apply rtc_congruence with (f := id). intros. by apply move_internal. Qed.
End occurrences.
