(* ===== verification/Runs.v ===== *)
(** * Runs

    A run starts with [initialize_seeded_definition] and goes on by
    [reduce].  Every reachable state is reached by moves, so an invariant of
    moves is an invariant of runs. *)

From S2P Require Import Prelude Text Nodes Evidence Condition Validated Runtime Reducer Moves Refinement Views Stabilize Occurrences.

Section runs.
Context {Provisional Cause Output Deadline : Type}.
Context `{!SerdeJson, !NodeFailureSource Cause, !ConditionOutput Output,
          !ProvisionalStepResources Provisional}.

Local Abbreviation State := (RuntimeState Cause Output Deadline).
Local Abbreviation Red := (Reduction Provisional Cause Output Deadline).
Local Abbreviation Occ := (Occurrence Provisional Cause Output Deadline).

Implicit Types (st : State) (r : Red) (s t : string) (d : RuntimeStep) (D : RuntimeDefinition).

(** ** The reducer refines its transition system *)

Lemma reduce_moves st (o : Occ) : wf st → rtc move (begin st) (reduce st o).
Proof.
  intros Hwf. unfold reduce. destruct (is_finished (rs_workflow st)).
  - unfold discard_occurrence. destruct o; try done. simpl.
    destruct (requires_release provisional); [|done].
    apply rtc_once, move_external, (ext_release (begin st)).
  - pose proof (apply_occurrence_moves (begin st) o Hwf) as Happly.
    destruct (apply_occurrence (begin st) o) as [applied r]. cbn [snd] in Happly.
    destruct applied; cbn [negb]; [|by apply external_moves_move].
    etrans; [by apply external_moves_move|].
    eapply rtc_l; [apply move_external, (ext_accepted r true)|].
    apply internal_moves_move, stabilize_moves. simpl.
    by apply (same_nodes_wf (begin st) r); [apply external_moves_same|].
Qed.

Lemma initial_lookup D (seed : ExecutionSeed Output) s :
  definition_wf D →
  rs_steps (initial_state (Cause := Cause) (Deadline := Deadline) D seed) !! s
  = initial_step seed s <$> bt_get (def_steps D) s.
Proof.
  intros Hwf. simpl. pose proof (dw_nodup _ Hwf) as Hnd. unfold bt_keys in Hnd.
  induction (def_steps D) as [|[s' d] l IH]; simpl; [done|].
  apply NoDup_cons in Hnd as [_ Hnd]. destruct (decide (s = s')) as [->|].
  - by rewrite lookup_insert_eq.
  - rewrite lookup_insert_ne by done. by apply IH.
Qed.

Lemma initial_wf D (seed : ExecutionSeed Output) :
  definition_wf D → wf (initial_state (Cause := Cause) (Deadline := Deadline) D seed).
Proof.
  intros Hwf. split; [done|]. intros s. rewrite initial_lookup by done. by rewrite fmap_is_Some.
Qed.

Lemma initialize_moves D c (seed : ExecutionSeed Output) :
  definition_wf D →
  rtc move (begin (initial_state D seed) : Red) (initialize_seeded_definition D c seed).
Proof.
  intros Hwf. unfold initialize_seeded_definition.
  set (r0 := set_accepted true (begin (initial_state D seed)) : Red).
  assert (Hwf0 : wf (rd_state r0)) by by apply initial_wf.
  assert (Hc : rtc external r0 (apply_initial_cancellation c r0)).
  { destruct c as [[]|]; simpl; [by apply cancellation_moves|by apply force_abort_moves|done]. }
  eapply rtc_l; [apply move_external, (ext_accepted (begin (initial_state D seed)) true)|].
  etrans; [by apply external_moves_move|].
  apply internal_moves_move, stabilize_moves.
  by eapply (same_nodes_wf r0); [apply external_moves_same|].
Qed.

(** ** Reachable states *)

(** Only ordinary steps are inherited, as [ExecutionSeed::new] checks. *)
Definition seed_wf D (seed : ExecutionSeed Output) : Prop :=
  ∀ s v, bt_get seed s = Some v → ∃ d, bt_get (def_steps D) s = Some d ∧ rt_role d = RoleStep.

Inductive reachable D : State → Prop :=
| reach_initial c seed :
    seed_wf D seed →
    reachable D (rd_state (initialize_seeded_definition (Provisional := Provisional) D c seed))
| reach_reduce st (o : Occ) : reachable D st → reachable D (rd_state (reduce st o)).

Lemma move_wf r r' : move r r' → wf (rd_state r) → wf (rd_state r').
Proof. intros Hm. by apply same_nodes_wf, move_same. Qed.

Lemma move_definition r r' : move r r' → rs_definition (rd_state r') = rs_definition (rd_state r).
Proof. intros Hm. by apply move_same in Hm as [? _]. Qed.

(** An invariant of moves holds along every sequence of moves. *)
Lemma moves_invariant (P : State → Prop) D r r' :
  (∀ r r', move r r' → wf (rd_state r) → rs_definition (rd_state r) = D → P (rd_state r) → P (rd_state r')) →
  rtc move r r' → wf (rd_state r) → rs_definition (rd_state r) = D → P (rd_state r) →
  P (rd_state r') ∧ wf (rd_state r') ∧ rs_definition (rd_state r') = D.
Proof.
  intros Hstep. induction 1 as [|r1 r2 r3 Hm _ IH]; intros Hwf HD HP; [done|]. apply IH.
  - by eapply move_wf.
  - by rewrite (move_definition _ _ Hm).
  - by eapply Hstep.
Qed.

(** The states a run passes through, those inside a reduction included. *)
Inductive visited D : State → Prop :=
| visit_initial seed : seed_wf D seed → visited D (initial_state D seed)
| visit_move r r' : visited D (rd_state r) → move r r' → visited D (rd_state r').

Lemma visited_moves D r r' : visited D (rd_state r) → rtc move r r' → visited D (rd_state r').
Proof. intros Hv. induction 1 as [|r1 r2 r3 Hm _ IH]; [done|]. by eapply IH, visit_move. Qed.

Lemma visited_invariant (P : State → Prop) D st :
  (∀ seed, seed_wf D seed → P (initial_state D seed)) →
  (∀ r r', move r r' → wf (rd_state r) → rs_definition (rd_state r) = D → P (rd_state r) → P (rd_state r')) →
  definition_wf D → visited D st → P st ∧ wf st ∧ rs_definition st = D.
Proof.
  intros Hinit Hstep Hwf. induction 1 as [seed Hs|r r' _ (HP & Hw & HD) Hm].
  - split; [by apply Hinit|]. split; [by apply initial_wf|done].
  - by apply (moves_invariant P D r r'); [|apply rtc_once|..].
Qed.

Lemma reachable_visited D st : definition_wf D → reachable D st → visited D st.
Proof.
  intros Hwf. induction 1 as [c seed Hs|st o _ Hv].
  - eapply (visited_moves D (begin (initial_state D seed))); [by apply visit_initial|by apply initialize_moves].
  - eapply (visited_moves D (begin st)); [done|]. apply reduce_moves.
    by apply (visited_invariant (λ _, True) D st) in Hv as (_ & ? & ?).
Qed.

(** Applying an occurrence, before its consequences are drawn. *)
Lemma visited_apply D st (o : Occ) :
  definition_wf D → reachable D st → visited D (rd_state (apply_occurrence (begin st) o).2).
Proof.
  intros Hwf Hr. apply reachable_visited in Hr; [|done].
  assert (Hw : wf st) by by apply (visited_invariant (λ _, True) D st) in Hr as (_ & ? & ?).
  apply (visited_moves D (begin st)); [done|]. by apply external_moves_move, apply_occurrence_moves.
Qed.

Lemma reachable_invariant (P : State → Prop) D st :
  (∀ seed, seed_wf D seed → P (initial_state D seed)) →
  (∀ r r', move r r' → wf (rd_state r) → rs_definition (rd_state r) = D → P (rd_state r) → P (rd_state r')) →
  definition_wf D → reachable D st → P st ∧ wf st ∧ rs_definition st = D.
Proof. intros Hinit Hstep Hwf Hr. by apply visited_invariant, reachable_visited. Qed.

Lemma reachable_wf D st : definition_wf D → reachable D st → wf st ∧ rs_definition st = D.
Proof. intros Hwf Hr. by apply (reachable_invariant (λ _, True) D st) in Hr as (_ & ? & ?). Qed.
End runs.
