(* ===== verification/Ceiling.v ===== *)
(** * Admitted workflows

    What validation guarantees of the workflow it returns, that the
    definition built from it is well formed, and that the general transition
    ceiling admission computes covers every run of it. *)

From S2P Require Import Prelude Text Nodes Evidence Condition Validated Capacity Runtime Reducer Moves Refinement Views Stabilize Occurrences Runs.

(** ** The transition budget

    The reducer numbers its transitions and admission fixes how many a run
    may make.  A potential function bounds the transitions a state can still
    make: every move that takes a number lowers it, so a run whose ceiling is
    at least the potential of its initial state never exceeds it. *)

(** Five transitions for every node and every recovery round, three for a
    run without finalizers and six for one with. *)
Definition node_budget (d : RuntimeStep) : N :=
  (5 + 5 * match rt_recovery d with Some v => rr_retries v | None => 0 end)%N.

Definition workflow_budget (D : RuntimeDefinition) : N :=
  if decide (def_finalizer_ids D = []) then 3%N else 6%N.

Definition definition_budget (D : RuntimeDefinition) : N :=
  (foldr N.add 0 ((λ '(_, d), node_budget d) <$> def_steps D) + workflow_budget D)%N.

Section budget.
Context {Provisional Cause Output Deadline : Type}.
Context `{!SerdeJson, !NodeFailureSource Cause, !ConditionOutput Output,
          !ProvisionalStepResources Provisional}.

Local Abbreviation State := (RuntimeState Cause Output Deadline).
Local Abbreviation Red := (Reduction Provisional Cause Output Deadline).
Local Abbreviation Step := (StepRuntimeState Cause Output).
Local Abbreviation Req := (RequestedAction Provisional Cause Output Deadline).

Implicit Types (st : State) (r : Red) (x y : Step) (s t : string) (d : RuntimeStep) (D : RuntimeDefinition).

(** ** The potential *)

Definition rounds_left x : N :=
  match ss_recovery x with
  | Some v => (sr_configured_rounds v - N.of_nat (length (sr_rounds v)))%N
  | None => 0%N
  end.

Definition node_cost x : N :=
  match ss_state x with
  | SPending => 5 + 5 * rounds_left x
  | SStarting => 4 + 5 * rounds_left x
  | SRunning => 3 + 5 * rounds_left x
  | SCapturingOutputs => 2 + 5 * rounds_left x
  | SRecovering _ HandlerStarting => 6 + 5 * rounds_left x
  | SRecovering _ HandlerRunning => 5 + 5 * rounds_left x
  | SCancelling _ => 1
  | _ => 0
  end%N.

Definition no_force_abort st : N := match rs_force_abort st with None => 1%N | Some _ => 0%N end.

Definition workflow_cost st : N :=
  match rs_workflow st with
  | WExecuting gate =>
      (1 + no_force_abort st
       + match gate with GateCancelling _ _ => 0 | _ => 1 end
       + if decide (def_finalizer_ids (rs_definition st) = []) then 0 else 2)%N
  | WFinalizing _ gate _ =>
      (1 + no_force_abort st + match gate with FinCancelling _ _ _ => 0 | FinOpen => 1 end)%N
  | WSucceeded | WFailed _ _ | WCancelled _ => 0%N
  end.

Definition nodes_cost (m : gmap string Step) : N := map_sum (λ _ x, node_cost x) m.
Definition potential st : N := (nodes_cost (rs_steps st) + workflow_cost st)%N.

Lemma nodes_cost_insert (m : gmap string Step) s x y :
  m !! s = Some x → (nodes_cost (<[s := y]> m) + node_cost x = nodes_cost m + node_cost y)%N.
Proof. apply (map_sum_insert (λ _ x, node_cost x)). Qed.

Lemma nodes_cost_lookup (m : gmap string Step) s x : m !! s = Some x → (node_cost x <= nodes_cost m)%N.
Proof. apply (map_sum_lookup_le (λ _ x, node_cost x)). Qed.

#[local] Arguments node_cost : simpl never.
#[local] Arguments workflow_cost : simpl never.
#[local] Arguments nodes_cost : simpl never.

Context (B : N).

(** The run is within [B] transitions with [k] to spare, and [B] is within
    its ceiling. *)
Definition fits (k : N) st : Prop :=
  (rs_last_transition_sequence st + potential st + k <= B)%N
  ∧ rs_transition_capacity_exceeded st = false
  ∧ (B <= def_maximum_transitions (rs_definition st) <= u64_max)%N.

(** A transition that is paid for is numbered. *)
Lemma fits_bump k st : (0 < k)%N → fits k st →
  seqno st = (rs_last_transition_sequence st + 1)%N
  ∧ bump st = set_sequence (rs_last_transition_sequence st + 1) false st.
Proof.
  intros Hk (Hle & He & Hmax). unfold seqno, bump, next_sequence, sequence_next, saturating_add.
  rewrite N.min_r by lia. case_decide; [lia|]. by rewrite He.
Qed.

(** Effects on the potential. *)
Lemma workflow_cost_same st st' :
  rs_workflow st' = rs_workflow st → rs_force_abort st' = rs_force_abort st →
  rs_definition st' = rs_definition st → workflow_cost st' = workflow_cost st.
Proof. unfold workflow_cost, no_force_abort. by intros -> -> ->. Qed.

Lemma fits_node k r s d x y acts :
  rs_steps (rd_state r) !! s = Some x → (node_cost y + k + 1 <= node_cost x)%N →
  fits 0 (rd_state r) → fits k (rd_state (node_update r s d x y acts)).
Proof.
  intros Hx Hc Hfit. pose proof (nodes_cost_insert _ s x y Hx) as Hsum.
  assert (Hpot : (node_cost x <= potential (rd_state r))%N).
  { unfold potential. pose proof (nodes_cost_lookup _ _ _ Hx). lia. }
  destruct Hfit as (Hle & He & Hmax).
  assert (Hb : bump (rd_state r) = set_sequence (rs_last_transition_sequence (rd_state r) + 1) false (rd_state r)).
  { unfold bump, next_sequence, sequence_next, saturating_add. rewrite N.min_r by lia.
    case_decide; [lia|]. by rewrite He. }
  unfold fits, node_update. cbn [rd_state]. rewrite Hb. unfold potential in *.
  rewrite (workflow_cost_same (rd_state r)) by done. simpl in *. split_and!; [lia|done|lia..].
Qed.

Lemma fits_quiet k r s x y :
  rs_steps (rd_state r) !! s = Some x → node_cost y = node_cost x →
  fits k (rd_state r) → fits k (rd_state (quiet_update r s y)).
Proof.
  intros Hx Hc (Hle & He & Hmax). unfold fits, potential in *.
  pose proof (nodes_cost_insert _ s x y Hx) as Hsum.
  rewrite (workflow_cost_same (rd_state r)) by done. simpl in *. split_and!; [lia|done|lia..].
Qed.

Lemma fits_workflow k r f ev acts :
  (∀ st, rs_definition (f st) = rs_definition st ∧ rs_steps (f st) = rs_steps st
         ∧ rs_last_transition_sequence (f st) = rs_last_transition_sequence st
         ∧ rs_transition_capacity_exceeded (f st) = rs_transition_capacity_exceeded st) →
  (∀ v e, workflow_cost (f (set_sequence v e (rd_state r))) + k + 1 <= workflow_cost (rd_state r) + k)%N →
  fits k (rd_state r) → fits k (rd_state (workflow_update r f ev acts)).
Proof.
  intros Hf Hc (Hle & He & Hmax).
  assert (Hb : bump (rd_state r) = set_sequence (rs_last_transition_sequence (rd_state r) + 1) false (rd_state r)).
  { specialize (Hc 0%N false). unfold potential in Hle.
    unfold bump, next_sequence, sequence_next, saturating_add. rewrite N.min_r by lia.
    case_decide; [lia|]. by rewrite He. }
  unfold fits, workflow_update. cbn [rd_state]. rewrite Hb.
  specialize (Hc (rs_last_transition_sequence (rd_state r) + 1)%N false).
  destruct (Hf (set_sequence (rs_last_transition_sequence (rd_state r) + 1) false (rd_state r))) as (-> & Hs & -> & ->).
  unfold potential in *. rewrite Hs. simpl in *. split_and!; [lia|done|lia..].
Qed.

Lemma fits_commit r d issue : fits 1 (rd_state r) → fits 0 (rd_state (commit_required_issue r d issue)).
Proof.
  intros Hfit. rewrite commit_required_issue_eq.
  destruct (committed_workflow _ _ _) as [w|] eqn:Hw; [|destruct Hfit as (? & ? & ?); split_and!; [lia|done|lia..]].
  unfold fits, workflow_update. cbn [rd_state]. destruct (fits_bump 1 _ ltac:(lia) Hfit) as [_ ->].
  destruct Hfit as (Hle & He & Hmax).
  assert (Hcost : workflow_cost (set_workflow w (set_sequence (rs_last_transition_sequence (rd_state r) + 1) false (rd_state r)))
                  = workflow_cost (rd_state r)).
  { unfold workflow_cost, no_force_abort. simpl. unfold committed_workflow in Hw.
    destruct (rt_failure_policy d), (rt_role d), (rs_workflow (rd_state r)) as [[]|[] [] []| | |]; by simplify_eq. }
  unfold potential in *. rewrite Hcost. simpl in *. split_and!; [lia|done|lia..].
Qed.

(** ** Costs of node changes *)

Lemma bookkeeping_cost x y : bookkeeping x y → node_cost y = node_cost x.
Proof.
  intros [Hy Hr]. rewrite Hy. unfold node_cost, rounds_left. simpl.
  destruct (ss_recovery x) as [a|], (ss_recovery y) as [b|]; try done.
  destruct Hr as (Hc & _ & Hn & _).
  assert (Hlen : length (sr_rounds b) = length (sr_rounds a)).
  { rewrite <-(length_fmap rrr_number (sr_rounds b)), <-Hn. by rewrite length_fmap. }
  by rewrite Hc, Hlen.
Qed.

Lemma enter_cost_terminal (v : StepState Output) a x : is_terminal v = true → node_cost (enter v a x) = 0%N.
Proof. by destruct v. Qed.
Lemma settle_cost_terminal (v : StepState Output) x : is_terminal v = true → node_cost (settle v x) = 0%N.
Proof. by destruct v. Qed.
Lemma pending_cost x : ss_state x = SPending → (5 <= node_cost x)%N.
Proof. unfold node_cost. intros ->. lia. Qed.
Lemma cancellable_cost x : cancellable (ss_state x) = true → (2 <= node_cost x)%N.
Proof. unfold node_cost. destruct (ss_state x) as [| | | |? []| | | | | | | |]; try done; lia. Qed.

Lemma rounds_left_available st s x round e invocation kind :
  rs_steps st !! s = Some x → recovery_round_available st s = Some (round, e, invocation, kind) →
  ∀ record, (rounds_left (push_round record x) + 1 = rounds_left x)%N.
Proof.
  intros Hx (x' & v & Hx' & Hv & _ & _ & _ & Hlt & _)%recovery_round_available_spec record. simplify_eq.
  unfold rounds_left, push_round. simpl. rewrite Hv. simpl. rewrite length_app. simpl. lia.
Qed.

Lemma target_active_cost x : target_active (ss_state x) = true → (2 + 5 * rounds_left x <= node_cost x)%N.
Proof. unfold node_cost. destruct (ss_state x); try done; lia. Qed.

Lemma start_node_cost e n x : node_cost (start_node e n x) = (4 + 5 * rounds_left x)%N.
Proof. done. Qed.

Lemma recovering_node_cost round kind n x : node_cost (recovering_node round kind n x) = (6 + 5 * rounds_left x)%N.
Proof.
  unfold node_cost, recovering_node, rounds_left. simpl. destruct (ss_recovery x); simpl; [|done].
  by rewrite length_update_last.
Qed.

(** ** Every move is paid for *)

Lemma fits_settle_pending r s d x (v : StepState Output) :
  node_at (rd_state r) s d x → ss_state x = SPending → is_terminal v = true →
  fits 0 (rd_state r) → fits 0 (rd_state (node_update r s d x (enter v None x) [])).
Proof.
  intros [Hx _] Hp Hv. apply fits_node; [done|]. rewrite enter_cost_terminal by done.
  pose proof (pending_cost _ Hp). lia.
Qed.

Lemma fits_issue r s d x y issue acts :
  node_at (rd_state r) s d x → (2 <= node_cost x)%N → node_cost y = 0%N →
  fits 0 (rd_state r) → fits 0 (rd_state (commit_required_issue (node_update r s d x y acts) d issue)).
Proof. intros [Hx _] Hc Hy Hfit. apply fits_commit, fits_node; [done|lia|done]. Qed.

Lemma internal_node_fits r r' : internal_node r r' → fits 0 (rd_state r) → fits 0 (rd_state r').
Proof.
  intros Hi Hfit.
  destruct Hi as [s d x p Hat Hr|s d x p trace detail Hat Hr|s d x p ? ? detail Hat Hr|s d x detail Hat Hp
                 |s d x detail Hat Hp|s d x Hat Hp|s d x Hat Hp].
  - eapply fits_quiet; [apply Hat|done..].
  - apply fits_settle_pending; eauto using condition_gate_ready_pending.
  - apply fits_issue; [done| |done..]. pose proof (pending_cost _ (condition_gate_ready_pending _ _ _ _ Hat Hr)). lia.
  - apply fits_issue; [done| |done..]. pose proof (pending_cost _ Hp). lia.
  - by apply fits_settle_pending.
  - by apply fits_settle_pending.
  - eapply fits_node; [apply Hat| |done]. rewrite start_node_cost. unfold node_cost. rewrite Hp. lia.
Qed.

Lemma internal_fits r r' : internal r r' → fits 0 (rd_state r) → fits 0 (rd_state r').
Proof.
  intros Hi Hfit. destruct Hi as [r' Hi|outcome Hex _ Hnil _|outcome summary exports Hreason _].
  - by eapply internal_node_fits.
  - unfold finalization_entry. apply fits_workflow; [done| |done]. intros v e. unfold workflow_cost. simpl.
    destruct (rs_workflow (rd_state r)) as [gate| | | |]; try done. rewrite decide_False by done.
    unfold no_force_abort. simpl. destruct (ordinary_force_abort _), gate, (rs_force_abort _); simpl; lia.
  - apply fits_workflow; [done| |done]. intros v e. unfold workflow_cost. simpl.
    assert (Hlive : is_executing (rs_workflow (rd_state r)) || is_finalizing (rs_workflow (rd_state r)) = true).
    { destruct summary; destruct Hreason as [-> _]; [by rewrite orb_true_r|done]. }
    destruct outcome, (rs_workflow (rd_state r)); try done; simpl; lia.
Qed.

Lemma external_fits r r' : external r r' → fits 0 (rd_state r) → fits 0 (rd_state r').
Proof.
  intros He Hfit. destruct He;
    try (match goal with Hat : node_at _ _ _ _ |- _ => pose proof (proj1 Hat) as Hx end);
    try (match goal with Hb : bookkeeping _ _ |- _ => pose proof (bookkeeping_cost _ _ Hb) as Hcost end).
  - eapply fits_node; [done| |done]. unfold node_cost. simpl. rewrite H1. unfold rounds_left. simpl. lia.
  - eapply fits_node; [done| |done]. unfold node_cost. simpl. rewrite H1. unfold rounds_left. simpl. lia.
  - eapply fits_node; [apply node_update_lookup| |].
    { rewrite settle_cost_terminal by done. subst y. unfold node_cost. simpl. lia. }
    eapply fits_node; [done| |done]. subst y. unfold node_cost. simpl. rewrite H1. unfold rounds_left. simpl. lia.
  - eapply fits_node; [done| |done]. rewrite settle_cost_terminal by done. unfold node_cost. rewrite H1. lia.
  - eapply fits_issue; [done|by apply cancellable_cost|done..].
  - eapply fits_issue; [done| |done..]. by apply cancellable_cost, target_active_cancellable.
  - eapply fits_node; [done| |done]. rewrite start_node_cost. pose proof (target_active_cost x H1).
    pose proof (rounds_left_available _ _ _ _ _ _ _ Hx H3 (round_record round e invocation phase detail cause)). lia.
  - eapply fits_node; [done| |done]. subst y. rewrite recovering_node_cost. pose proof (target_active_cost x H1).
    pose proof (rounds_left_available _ _ _ _ _ _ _ Hx H3 (round_record round e invocation phase detail cause)). lia.
  - eapply fits_node; [done| |done]. revert Hcost. unfold node_cost at 2. rewrite H1.
    unfold node_cost. rewrite (bookkeeping_state _ _ H3), H1. simpl. unfold rounds_left. simpl. lia.
  - eapply fits_node; [done| |done]. rewrite start_node_cost. rewrite <-Hcost. unfold node_cost.
    rewrite (bookkeeping_state _ _ H2), H1. lia.
  - by apply fits_settle_pending.
  - eapply fits_node; [done| |done]. pose proof (cancellable_cost x H1). unfold node_cost at 1. simpl. lia.
  - rewrite foldr_push_action_state. by eapply fits_quiet.
  - eapply fits_node; [done| |done]. rewrite settle_cost_terminal by done. unfold node_cost. rewrite H1. lia.
  - by eapply fits_quiet.
  - done.
  - done.
  - done.
  - apply fits_workflow; [done| |done]. intros v e. unfold workflow_cost, no_force_abort. simpl. rewrite H0.
    destruct H1 as [[-> _]|(? & -> & _)]; lia.
  - apply fits_workflow; [done| |done]. intros v e. unfold workflow_cost, no_force_abort. simpl. rewrite H0. lia.
  - apply fits_workflow; [done| |done]. intros v e. unfold workflow_cost, no_force_abort. simpl. rewrite H0, H1.
    destruct gate; simpl; lia.
  - apply fits_workflow; [done| |done]. intros v e. unfold workflow_cost, no_force_abort. simpl. rewrite H0, H1.
    destruct gate; simpl; lia.
Qed.

Lemma move_fits r r' : move r r' → fits 0 (rd_state r) → fits 0 (rd_state r').
Proof. destruct 1; [by apply internal_fits|by apply external_fits]. Qed.

(** ** The initial potential *)

Lemma initial_step_cost (seed : ExecutionSeed Output) s d :
  (node_cost (initial_step (Cause := Cause) seed s d) <= node_budget d)%N.
Proof.
  unfold node_cost, initial_step, rounds_left, node_budget. simpl.
  destruct (bt_get seed s); simpl; [lia|]. destruct (rt_recovery d); simpl; lia.
Qed.

Lemma initial_fits D (seed : ExecutionSeed Output) :
  definition_wf D → B = definition_budget D → (B <= def_maximum_transitions D <= u64_max)%N →
  fits 0 (initial_state D seed).
Proof.
  intros Hwf HB Hmax. split_and!; [|done|simpl; lia..]. simpl.
  assert (Hnodes : (nodes_cost (rs_steps (initial_state (Cause := Cause) (Deadline := Deadline) D seed))
                    <= foldr N.add 0 ((λ '(_, d), node_budget d) <$> def_steps D))%N).
  { unfold nodes_cost, map_sum. simpl. rewrite (foldr_add_Permutation _
      ((λ '(_, x), node_cost x) <$> ((λ '(step, definition), (step, initial_step seed step definition)) <$> def_steps D))).
    - clear. induction (def_steps D) as [|[s d] l IH]; [done|]. rewrite !fmap_cons. cbn [foldr].
      apply N.add_le_mono; [apply initial_step_cost|apply IH].
    - apply fmap_Permutation, map_to_list_to_map. pose proof (dw_nodup _ Hwf) as Hnd. unfold bt_keys in Hnd.
      rewrite <-list_fmap_compose. by erewrite list_fmap_ext; [apply Hnd|intros ? [] ?]. }
  unfold potential. unfold workflow_cost at 1. simpl. rewrite HB. unfold definition_budget, workflow_budget, no_force_abort.
  simpl in *. case_decide; lia.
Qed.
End budget.

Section capacity.
Context {Provisional Cause Output Deadline : Type}.
Context `{!SerdeJson, !NodeFailureSource Cause, !ConditionOutput Output,
          !ProvisionalStepResources Provisional}.

Lemma reachable_fits D (st : RuntimeState Cause Output Deadline) :
  definition_wf D → (definition_budget D <= def_maximum_transitions D <= u64_max)%N →
  reachable (Provisional := Provisional) D st → fits (definition_budget D) 0 st.
Proof.
  intros Hwf Hmax Hr.
  eapply (reachable_invariant (fits (definition_budget D) 0)) in Hr as (Hfit & _ & _); [done|..].
  - intros seed _. by apply initial_fits.
  - intros r r' Hm _ _. by eapply move_fits.
  - done.
Qed.
End capacity.

(** Ordinary step and finalizer identifiers share a namespace, every step
    has a recovery entry, and the schema bounds the retries. *)
Record validated_wf (W : ValidatedWorkflow) : Prop := {
  vwf_steps : bt_wf (vw_steps W);
  vwf_finalizers : bt_wf (vw_finalizers W);
  vwf_disjoint s : s ∈ bt_keys (vw_steps W) → s ∈ bt_keys (vw_finalizers W) → False;
  vwf_recoveries : bt_keys (vw_recoveries W) = bt_keys (vw_steps W);
  vwf_retries s v : bt_get (vw_recoveries W) s = Some (Some v) → (vr_retries v <= MAXIMUM_RETRIES)%N
}.

(** ** The definition of a workflow *)

Section definition.
Context (W : ValidatedWorkflow) (parallel : nat) (ceiling : N).
Context (HW : validated_wf W).

Definition step_nodes : btree RuntimeStep :=
  (λ '(id, step), (id, runtime_step RoleStep step (mjoin (bt_get (vw_recoveries W) id)) [])) <$> vw_steps W.
Definition finalizer_nodes : btree RuntimeStep :=
  (λ '(id, finalizer), (id, runtime_finalizer finalizer)) <$> vw_finalizers W.

Lemma nodes_keys : bt_keys (step_nodes ++ finalizer_nodes) = (bt_keys (vw_steps W) ++ bt_keys (vw_finalizers W))%list.
Proof.
  unfold step_nodes, finalizer_nodes. unfold bt_keys at 1. rewrite fmap_app. f_equal.
  - apply (bt_keys_fmap (λ id step, runtime_step RoleStep step (mjoin (bt_get (vw_recoveries W) id)) [])).
  - apply (bt_keys_fmap (λ id finalizer, runtime_finalizer finalizer)).
Qed.

Lemma nodes_NoDup : NoDup (bt_keys (step_nodes ++ finalizer_nodes)).
Proof.
  rewrite nodes_keys. apply NoDup_app. split_and!.
  - apply bt_wf_NoDup, (vwf_steps _ HW).
  - intros s H1 H2. by eapply (vwf_disjoint _ HW).
  - apply bt_wf_NoDup, (vwf_finalizers _ HW).
Qed.

Lemma def_steps_Permutation : def_steps (from_workflow W parallel ceiling) ≡ₚ (step_nodes ++ finalizer_nodes)%list.
Proof. apply bt_collect_Permutation, nodes_NoDup. Qed.

Lemma def_steps_lookup s :
  bt_get (def_steps (from_workflow W parallel ceiling)) s =
  match bt_get (vw_steps W) s with
  | Some step => Some (runtime_step RoleStep step (mjoin (bt_get (vw_recoveries W) s)) [])
  | None => runtime_finalizer <$> bt_get (vw_finalizers W) s
  end.
Proof.
  etrans; [apply bt_get_collect, nodes_NoDup|]. rewrite bt_get_app. unfold step_nodes, finalizer_nodes.
  rewrite (bt_get_fmap (λ id step, runtime_step RoleStep step (mjoin (bt_get (vw_recoveries W) id)) [])).
  rewrite (bt_get_fmap (λ id finalizer, runtime_finalizer finalizer)).
  by destruct (bt_get (vw_steps W) s).
Qed.

Lemma from_workflow_wf : definition_wf (from_workflow W parallel ceiling).
Proof.
  split.
  - unfold bt_keys. rewrite def_steps_Permutation. apply nodes_NoDup.
  - apply bt_wf_NoDup, (vwf_steps _ HW).
  - apply bt_wf_NoDup, (vwf_finalizers _ HW).
  - intros s. rewrite def_steps_lookup. simpl. rewrite <-bt_get_is_Some.
    destruct (bt_get (vw_steps W) s) as [step|] eqn:Hs; [split; eauto|].
    split; [by intros [? ?]|]. intros (d & Hd & Hrole).
    destruct (bt_get (vw_finalizers W) s); by simplify_eq/=.
  - intros s. rewrite def_steps_lookup. simpl. rewrite <-bt_get_is_Some.
    destruct (bt_get (vw_steps W) s) as [step|] eqn:Hs.
    + split; [|intros (d & Hd & Hrole); by simplify_eq/=].
      intros Hf%bt_get_is_Some. exfalso. eapply (vwf_disjoint _ HW); [|done]. apply bt_get_is_Some. eauto.
    + destruct (bt_get (vw_finalizers W) s); simpl; [split; eauto|].
      split; [by intros [? ?]|]. by intros (? & ? & _).
  - intros s d v Hd Hv. rewrite def_steps_lookup in Hd.
    destruct (bt_get (vw_steps W) s) as [step|].
    + simplify_eq/=. destruct (bt_get (vw_recoveries W) s) as [[w|]|] eqn:Hr; simplify_eq/=.
      by apply (vwf_retries _ HW) in Hr.
    + destruct (bt_get (vw_finalizers W) s); by simplify_eq/=.
  - intros s d Hd Hrole. rewrite def_steps_lookup in Hd.
    destruct (bt_get (vw_steps W) s); [by simplify_eq/=|].
    destruct (bt_get (vw_finalizers W) s); by simplify_eq/=.
Qed.

(** ** The general ceiling covers the budget *)

Definition retries_of (o : option ValidatedStepRecovery) : N := match o with Some v => vr_retries v | None => 0%N end.

Lemma recovery_totals_Ok l a b a' b' :
  recovery_totals l (a, b) = Ok (a', b') → a' = (a + foldr N.add 0 (retries_of <$> l))%N.
Proof.
  revert a b. induction l as [|[v|] l IH]; intros a b Hok; cbn [recovery_totals] in Hok;
    rewrite ?fmap_cons; cbn [foldr retries_of].
  - simplify_eq. simpl. lia.
  - apply result_bind_Ok in Hok as (? & [-> _]%cap_add_Ok & Hok).
    apply result_bind_Ok in Hok as (? & _ & Hok). apply IH in Hok as ->. lia.
  - by apply IH in Hok as ->.
Qed.

Lemma foldr_add_app l k : foldr N.add 0%N (l ++ k) = (foldr N.add 0 l + foldr N.add 0 k)%N.
Proof. induction l; simpl; lia. Qed.

Lemma retries_sum (steps : btree ValidatedStep) (recoveries : btree (option ValidatedStepRecovery)) :
  bt_keys recoveries = bt_keys steps → NoDup (bt_keys steps) →
  foldr N.add 0%N ((λ '(id, _), retries_of (mjoin (bt_get recoveries id))) <$> steps)
  = foldr N.add 0%N (retries_of <$> bt_values recoveries).
Proof.
  revert recoveries. induction steps as [|[s step] steps IH]; intros [|[s' o] recoveries]; try done.
  intros Hk Hnd. unfold bt_keys in *. rewrite !fmap_cons in Hk. simplify_eq/=.
  apply NoDup_cons in Hnd as [Hnin Hnd]. rewrite decide_True by done. f_equal.
  rewrite <-(IH recoveries) by done. f_equal. apply list_fmap_ext. intros i [t st] Hi.
  rewrite decide_False; [done|]. intros ->. apply Hnin, list_elem_of_fmap. exists (s, st).
  split; [done|]. by eapply list_elem_of_lookup_2.
Qed.

Lemma budget_le_general bytes cap :
  resolve_workflow_capacity W bytes = Ok cap →
  (definition_budget (from_workflow W parallel ceiling) <= cap_general_maximum_transitions cap)%N.
Proof.
  intros (counts & base & Hcounts & Hbase & -> & _)%resolve_workflow_capacity_base.
  apply calculate_capacity_Ok in Hbase as (-> & _).
  unfold workflow_counts, usize_to_u64 in Hcounts.
  destruct (N.of_nat (length (vw_steps W)) <=? u64_max)%N; [|done]. simpl in Hcounts.
  destruct (N.of_nat (length (vw_finalizers W)) <=? u64_max)%N; [|done]. simpl in Hcounts.
  apply result_bind_Ok in Hcounts as ([rounds handlers] & ->%recovery_totals_Ok & Hc). simplify_eq/=.
  rewrite <-(retries_sum (vw_steps W) (vw_recoveries W))
    by (apply (vwf_recoveries _ HW) || apply bt_wf_NoDup, (vwf_steps _ HW)).
  unfold definition_budget, workflow_budget.
  rewrite (foldr_add_Permutation _ ((λ '(_, d), node_budget d) <$> (step_nodes ++ finalizer_nodes)%list))
    by (by rewrite def_steps_Permutation).
  rewrite fmap_app, foldr_add_app. unfold step_nodes, finalizer_nodes.
  assert (Hs : foldr N.add 0%N ((λ '(_, d), node_budget d) <$> ((λ '(id, step),
    (id, runtime_step RoleStep step (mjoin (bt_get (vw_recoveries W) id)) [])) <$> vw_steps W))
    = (5 * N.of_nat (length (vw_steps W))
       + 5 * foldr N.add 0 ((λ '(id, _), retries_of (mjoin (bt_get (vw_recoveries W) id))) <$> vw_steps W))%N).
  { clear. induction (vw_steps W) as [|[s step] l IH]; [done|]. rewrite !fmap_cons. cbn [foldr length].
    rewrite IH. unfold node_budget. simpl. destruct (mjoin (bt_get (vw_recoveries W) s)); simpl; lia. }
  assert (Hf : foldr N.add 0%N ((λ '(_, d), node_budget d) <$> ((λ '(id, finalizer),
    (id, runtime_finalizer finalizer)) <$> vw_finalizers W)) = (5 * N.of_nat (length (vw_finalizers W)))%N).
  { clear. induction (vw_finalizers W) as [|[s f] l IH]; [done|]. rewrite !fmap_cons. cbn [foldr length].
    rewrite IH. unfold node_budget. simpl. lia. }
  rewrite Hs, Hf. simpl. unfold bt_keys. case_decide as Hnil.
  - apply fmap_nil_inv in Hnil. rewrite Hnil. simpl. lia.
  - destruct (vw_finalizers W); [done|]. simpl. lia.
Qed.
End definition.

(** ** Runs of admitted workflows *)

Section admitted.
Context {Provisional Cause Output Deadline : Type}.
Context `{!SerdeJson, !NodeFailureSource Cause, !ConditionOutput Output,
          !ProvisionalStepResources Provisional}.

Lemma from_admitted_wf admitted : validated_wf (adm_definition admitted) → definition_wf (from_admitted admitted).
Proof.
  intros HW. destruct (from_workflow_wf (adm_definition admitted) (adm_maximum_parallel_steps admitted)
    (adm_maximum_transitions admitted) HW). by split.
Qed.

(** The ceiling of the general contract is never reached. *)
Lemma admitted_within_ceiling admitted bytes cap budget (st : RuntimeState Cause Output Deadline) :
  validated_wf (adm_definition admitted) → resolve_workflow_capacity (adm_definition admitted) bytes = Ok cap →
  admit_capacity cap budget General = Ok (adm_maximum_transitions admitted) →
  reachable (Provisional := Provisional) (from_admitted admitted) st →
  rs_transition_capacity_exceeded st = false
  ∧ (rs_last_transition_sequence st <= adm_maximum_transitions admitted < u64_max)%N.
Proof.
  intros HW Hcap Hadmit%admit_capacity_general Hr. set (D := from_admitted admitted) in Hr.
  pose proof (resolve_general_bound _ _ _ Hcap) as Hbound.
  assert (Hmax : (definition_budget D <= def_maximum_transitions D <= u64_max)%N).
  { split; [|simpl; unfold u64_max; lia]. change (def_maximum_transitions D) with (adm_maximum_transitions admitted).
    etransitivity; [by eapply (budget_le_general (adm_definition admitted))|]. by rewrite Hadmit. }
  destruct (reachable_fits D st (from_admitted_wf _ HW) Hmax Hr) as (Hle & He & _). split; [done|].
  change (def_maximum_transitions D) with (adm_maximum_transitions admitted) in *. unfold u64_max. lia.
Qed.
End admitted.
