(* ===== verification/NodeSteps.v ===== *)
(** * What a move does to a node

    The moves of a run seen from one node: [node_step] lists the changes of
    a node with the conditions they are made under.  Invariants of single
    nodes are proved by cases on it. *)

From S2P Require Import Prelude Text Nodes Evidence Condition Validated Runtime Reducer Moves Refinement Views Stabilize Occurrences Runs.

Section node_steps.
Context {Provisional Cause Output Deadline : Type}.
Context `{!SerdeJson, !NodeFailureSource Cause, !ConditionOutput Output,
          !ProvisionalStepResources Provisional}.

Local Abbreviation State := (RuntimeState Cause Output Deadline).
Local Abbreviation Red := (Reduction Provisional Cause Output Deadline).
Local Abbreviation Step := (StepRuntimeState Cause Output).
Local Abbreviation Req := (RequestedAction Provisional Cause Output Deadline).

Local Abbreviation Event := (TransitionEvent Deadline).

Implicit Types (st : State) (r : Red) (x y : Step) (s t : string) (d : RuntimeStep).

Inductive node_step st s d x : Step → Prop :=
| ns_condition_passed :
    ss_state x = SPending → condition_gate_ready st s = true → node_step st s d x (set_condition_passed true x)
| ns_skipped detail :
    ss_state x = SPending → condition_gate_ready st s = true →
    node_step st s d x (enter (SSkipped detail) None x)
| ns_condition_failed detail :
    ss_state x = SPending → condition_gate_ready st s = true → fd_phase detail = PhaseCondition →
    node_step st s d x (settle (SFailed detail) x)
| ns_blocked detail :
    ss_state x = SPending → block_reason st s d detail →
    node_step st s d x (enter (SBlocked detail) None x)
| ns_not_run detail :
    ss_state x = SPending → not_run_reason st d detail →
    node_step st s d x (enter (SNotRun detail) None x)
| ns_cancelled_pending detail :
    ss_state x = SPending →
    (role_cancelling (rs_workflow st) (rt_role d) = true
     ∨ rt_role d = RoleFinalizer ∧ is_finalizing (rs_workflow st) = true ∧ ordinary_force_abort st = true) →
    (cancel_reason st (rt_role d) (cd_code detail)
     ∨ rt_role d = RoleFinalizer ∧ ordinary_force_abort st = true ∧ cd_code detail = ForceAbort) →
    node_step st s d x (enter (SCancelled detail) None x)
| ns_start n :
    ss_state x = SPending → role_gate_open (rs_workflow st) (rt_role d) = true →
    node_ready st (rt_role d) s d = true →
    active_count st < def_maximum_parallel_steps (rs_definition st) →
    node_step st s d x (start_node FIRST n x)
| ns_running a :
    ss_state x = SStarting → ss_current_action x = Some a → node_step st s d x (enter SRunning (Some a) x)
| ns_capturing a :
    ss_state x = SRunning → node_step st s d x (enter SCapturingOutputs (Some a) x)
| ns_succeeded y outputs :
    ss_state x = SRunning ∨ ss_state x = SCapturingOutputs → bt_keys outputs = rt_declared_outputs d →
    bookkeeping x y → node_step st s d x (settle (SSucceeded outputs) y)
| ns_failed y detail :
    cancellable (ss_state x) = true → bookkeeping x y → failure_origin st s detail →
    node_step st s d x (settle (SFailed detail) y)
| ns_failed_last y detail record round e invocation :
    target_active (ss_state x) = true →
    recovery_round_available st s = Some (round, e, invocation, None) → execution_next e = None →
    bookkeeping (push_round record x) y → (∃ phase cause, execution_failure phase detail cause) →
    ptf_detail (rrr_failed_execution record) = detail →
    node_step st s d x (settle (SFailed detail) y)
| ns_retried n round e invocation phase detail cause e' :
    target_active (ss_state x) = true → rt_role d = RoleStep →
    recovery_round_available st s = Some (round, e, invocation, None) → execution_next e = Some e' →
    execution_failure phase detail cause →
    node_step st s d x (start_node e' n (push_round (round_record round e invocation phase detail cause) x))
| ns_recovering n round e invocation phase detail cause kind :
    target_active (ss_state x) = true → rt_role d = RoleStep →
    recovery_round_available st s = Some (round, e, invocation, Some kind) →
    execution_failure phase detail cause →
    node_step st s d x (recovering_node round kind n (push_round (round_record round e invocation phase detail cause) x))
| ns_handler_running y round a :
    ss_state x = SRecovering round HandlerStarting → ss_current_action x = Some a → bookkeeping x y →
    node_step st s d x (enter (SRecovering round HandlerRunning) (Some a) y)
| ns_rechecked n y round failure e' :
    ss_state x = SRecovering round HandlerRunning → bookkeeping x y →
    latest_target_failure st s = Some failure → execution_next (ptf_execution_number failure) = Some e' →
    node_step st s d x (start_node e' n y)
| ns_cancelling y reason active a :
    cancellable (ss_state x) = true → ss_active_invocation x = Some active →
    role_cancelling (rs_workflow st) (rt_role d) = true → bookkeeping x y →
    cancel_reason st (rt_role d) reason →
    a = for_transition (seqno st) ∨ aborting st (rt_role d) = true →
    node_step st s d x (enter (SCancelling (cancellation_detail reason)) (Some a) y)
| ns_contained a :
    state_kind (ss_state x) = KCancelling → aborting st (rt_role d) = true →
    node_step st s d x (set_action (Some a) x)
| ns_quiesced y detail reason :
    ss_state x = SCancelling detail → bookkeeping x y →
    reason = cd_code detail
    ∨ reason = ForceAbort ∧ (∃ a, ss_current_action x = Some a ∧ is_force_abort a = true) →
    node_step st s d x (settle (SCancelled (cancellation_detail reason)) y)
| ns_bookkeeping y :
    is_active (ss_state x) = true → bookkeeping x y → node_step st s d x y.

(** The workflow state after a node reached [y]: a required failure or block
    commits its issue. *)
Definition node_issue s d y : option PrimaryIssue :=
  match ss_state y with
  | SFailed detail => Some (primary_issue_failed {| node_id := s; node_role := rt_role d |} detail)
  | SBlocked detail => Some (primary_issue_blocked {| node_id := s; node_role := rt_role d |} detail)
  | _ => None
  end.

Definition after_node (w : WorkflowState Deadline) s d y : WorkflowState Deadline :=
  match node_issue s d y with
  | Some issue => default w (committed_workflow w d issue)
  | None => w
  end.

(** The events of nodes: no acceptance of a cancellation. *)
Definition plain_event (e : Event) : Prop :=
  match e with EvStep _ _ _ _ _ _ | EvWorkflow _ _ _ => True | _ => False end.

Definition rest_same r r' : Prop :=
  rs_finalization (rd_state r') = rs_finalization (rd_state r)
  ∧ rs_force_abort (rd_state r') = rs_force_abort (rd_state r)
  ∧ rs_exports (rd_state r') = rs_exports (rd_state r)
  ∧ ∃ es, rd_events r' = (rd_events r ++ es)%list ∧ Forall plain_event es.

(** A reduction changed at one node. *)
Definition node_changed r r' : Prop :=
  ∃ s d x y, node_at (rd_state r) s d x ∧ node_step (rd_state r) s d x y
    ∧ rs_steps (rd_state r') = <[s := y]> (rs_steps (rd_state r))
    ∧ rs_workflow (rd_state r') = after_node (rs_workflow (rd_state r)) s d y ∧ rest_same r r'.

(** A change of the run itself, which leaves its nodes alone, with what it
    logs. *)
Inductive run_step st st' : list Event → Prop :=
| rn_nothing :
    rs_workflow st' = rs_workflow st → rs_finalization st' = rs_finalization st →
    rs_force_abort st' = rs_force_abort st → rs_exports st' = rs_exports st →
    rs_finalization_summary st' = rs_finalization_summary st → run_step st st' []
| rn_enter outcome f n to :
    is_executing (rs_workflow st) = true →
    forallb (step_is is_terminal st) (def_ordinary_ids (rs_definition st)) = true →
    def_finalizer_ids (rs_definition st) ≠ [] → ordinary_outcome st = Some outcome →
    (rs_workflow st', f) = finalization_entry st outcome → rs_finalization st' = Some f →
    rs_force_abort st' = rs_force_abort st → rs_exports st' = rs_exports st →
    rs_workflow st' = to → run_step st st' [EvWorkflow n (rs_workflow st) to]
| rn_finish outcome summary exports n to :
    finish_reason st outcome summary → derive_exports st = Some exports →
    rs_workflow st' = finished_workflow outcome → rs_exports st' = Some exports → 
    rs_finalization st' = rs_finalization st → rs_force_abort st' = rs_force_abort st →
    rs_finalization_summary st' = summary → rs_workflow st' = to → run_step st st' [EvWorkflow n (rs_workflow st) to]
| rn_cancellation gate reason prior n deadline :
    rs_workflow st = WExecuting gate →
    (gate = GateOpen ∧ prior = None ∨ ∃ issue, gate = GateFailureStopped issue ∧ prior = Some issue) →
    rs_workflow st' = WExecuting (GateCancelling reason prior) →
    rs_finalization st' = rs_finalization st → rs_force_abort st' = rs_force_abort st →
    rs_exports st' = rs_exports st →
    run_step st st' [EvCancellationAccepted n reason deadline]
| rn_finalization_cancellation trigger issue reason deadline n :
    rs_workflow st = WFinalizing trigger FinOpen issue →
    rs_workflow st' = WFinalizing trigger (FinCancelling reason (Some deadline) false) issue →
    rs_finalization st' = (λ f, set_finalization_cancellation
      (Some {| fin_reason := reason; fin_deadline := Some deadline |}) (fnr_force_abort f) f) <$> rs_finalization st →
    rs_force_abort st' = rs_force_abort st → rs_exports st' = rs_exports st →
    run_step st st' [EvFinalizationCancellationAccepted n reason deadline]
| rn_force_abort gate n :
    rs_workflow st = WExecuting gate → rs_force_abort st = None →
    rs_workflow st' = WExecuting (force_abort_gate gate) →
    rs_force_abort st' = Some {| fae_reason := ForceAbort; fae_phase := PhaseOrdinary |} →
    rs_finalization st' = rs_finalization st → rs_exports st' = rs_exports st →
    run_step st st' [EvForceAbortAccepted n ForceAbort PhaseOrdinary]
| rn_force_abort_finalization trigger gate issue n :
    rs_workflow st = WFinalizing trigger gate issue → rs_force_abort st = None →
    rs_workflow st' = WFinalizing trigger (force_abort_finalization_gate gate) issue →
    rs_force_abort st' = Some {| fae_reason := ForceAbort; fae_phase := PhaseFinalization |} →
    rs_finalization st' = force_abort_finalization <$> rs_finalization st →
    rs_exports st' = rs_exports st →
    run_step st st' [EvForceAbortAccepted n ForceAbort PhaseFinalization].

Definition run_changed r r' : Prop :=
  rs_steps (rd_state r') = rs_steps (rd_state r)
  ∧ ∃ es, rd_events r' = (rd_events r ++ es)%list ∧ run_step (rd_state r) (rd_state r') es.

Lemma bump_exports st : rs_exports (bump st) = rs_exports st.
Proof. by rewrite bump_eq. Qed.

Lemma rest_same_node r s d x y acts : rest_same r (node_update r s d x y acts).
Proof.
  unfold rest_same; simpl. rewrite bump_finalization, bump_force_abort, bump_exports. split_and!; [done..|].
  eexists. split; [done|]. by apply Forall_singleton.
Qed.

Lemma node_changed_update r s d x y acts :
  node_at (rd_state r) s d x → node_step (rd_state r) s d x y →
  (∀ detail, ss_state y ≠ SFailed detail) → (∀ detail, ss_state y ≠ SBlocked detail) →
  node_changed r (node_update r s d x y acts).
Proof.
  intros Hat Hs Hf Hb. exists s, d, x, y. split_and!; [done..| |apply rest_same_node].
  unfold after_node, node_issue. simpl. rewrite bump_workflow. destruct (ss_state y); naive_solver.
Qed.

Lemma node_changed_commit r s d x y acts issue :
  node_at (rd_state r) s d x → node_step (rd_state r) s d x y →
  node_issue s d y = Some issue →
  node_changed r (commit_required_issue (node_update r s d x y acts) d issue).
Proof.
  intros Hat Hs Hy. exists s, d, x, y. unfold after_node, rest_same.
  rewrite commit_required_issue_eq. simpl. rewrite bump_workflow.
  destruct (committed_workflow (rs_workflow (rd_state r)) d issue) as [w|] eqn:Hw; simpl;
    rewrite ?bump_steps, ?bump_workflow, ?bump_finalization, ?bump_force_abort, ?bump_exports; simpl;
    rewrite ?bump_workflow, ?bump_finalization, ?bump_force_abort, ?bump_exports;
    (split_and!; [done..|by rewrite Hy, Hw|done|done|done|]); rewrite <-?app_assoc; eexists; (split; [done|]); by repeat constructor.
Qed.

Lemma node_changed_quiet r s d x y :
  node_at (rd_state r) s d x → node_step (rd_state r) s d x y → ss_state y = ss_state x →
  is_terminal (ss_state x) = false → node_changed r (quiet_update r s y).
Proof.
  intros Hat Hs Hy Hx. exists s, d, x, y. split; [done|]. split; [done|]. split; [done|]. split.
  - unfold after_node, node_issue. rewrite Hy. by destruct (ss_state x).
  - unfold rest_same. split_and!; [done..|]. exists []. by rewrite app_nil_r.
Qed.

Lemma internal_node_changed r r' : internal_node r r' → node_changed r r'.
Proof.
  destruct 1 as [s d x p Hat Hr|s d x p trace detail Hat Hr|s d x p ? ? detail Hat Hr|s d x detail Hat Hp
                |s d x detail Hat Hp|s d x Hat Hp|s d x Hat Hp].
  - pose proof (condition_gate_ready_pending _ _ _ _ Hat Hr) as Hp.
    eapply node_changed_quiet; [done|by apply ns_condition_passed|done|by rewrite Hp].
  - eapply node_changed_update; [done| |done..]. apply ns_skipped; [by eapply condition_gate_ready_pending|done].
  - eapply node_changed_commit; [done| |done]. apply ns_condition_failed; [by eapply condition_gate_ready_pending|done|].
    unfold json_pointer_missing in *. by match goal with Hj : _ = Ok detail |- _ => apply result_bind_Ok in Hj as (? & _ & [= <-]) end.
  - eapply node_changed_commit; [done| |done]. by apply ns_blocked.
  - eapply node_changed_update; [done| |done..]. by apply ns_not_run.
  - eapply node_changed_update; [done| |done..]. apply ns_cancelled_pending; [done|by right|]. right. eauto.
  - eapply node_changed_update; [done| |done..]. by apply ns_start.
Qed.

(** Completion without outputs passes through [CapturingOutputs] within one
    move. *)
Lemma completed_node x z :
  bookkeeping (enter SCapturingOutputs None x) z →
  ∃ y, bookkeeping x y ∧ settle (SSucceeded []) z = settle (SSucceeded []) y.
Proof.
  intros [Hz Hr]. exists (set_recovery (ss_recovery z) x). split; [by split|]. by rewrite Hz.
Qed.

Ltac run_fields := simpl; rewrite ?bump_steps, ?bump_workflow, ?bump_finalization, ?bump_force_abort, ?bump_exports.

Lemma external_changed r r' :
  wf (rd_state r) → external r r' → node_changed r r' ∨ run_changed r r'.
Proof.
  intros Hwf. destruct 1 as
    [s d x a Hat Hs Ha|s d x p Hat Hs Ho|s d x y z Hat Hs Ho Hy Hz|s d x y outputs Hat Hs Ho Hy
    |s d x y detail Hat Hc Hy|s d x y round e i phase detail cause Hat Ht Hrole Hav He Hy
    |s d x round e i phase detail cause e' Hat Ht Hrole Hav He
    |s d x y round e i phase detail cause kind Hat Ht Hrole Hav ->|s d x y round a Hat Hs Ha Hy
    |s d x y round failure e' Hat Hs Hy Hf He|s d x reason Hat Hp Hrole
    |s d x y reason active a acts Hat Hc Ha Hrole Hy|s d x a acts Hat Hk
    |s d x y detail active reason Hat Hs Ha Hy|s x y Hx Ha Hy|a p|b|operation|gate reason deadline prior Hw Hg
    |trigger issue reason deadline Hw|gate Hw Hf|trigger gate issue Hw Hf].
  - left. eapply node_changed_update; [done| |done..]. by apply ns_running.
  - left. eapply node_changed_update; [done| |done..]. by apply ns_capturing.
  - left. subst y. destruct (completed_node x z Hz) as (y & Hy & Heq).
    exists s, d, x, (settle (SSucceeded []) z). split; [done|]. split_and!.
    + rewrite Heq. apply ns_succeeded; [by left|by rewrite Ho|done].
    + simpl. by rewrite insert_insert_eq.
    + unfold after_node, node_issue. by do 2 run_fields.
    + unfold rest_same. do 2 run_fields. split_and!; [done..|]. rewrite <-app_assoc. eexists. split; [done|]. by repeat constructor.
  - left. eapply node_changed_update; [done| |done..]. apply ns_succeeded; [by right|done..].
  - left. eapply node_changed_commit; [done| |done]. by apply ns_failed.
  - left. eapply node_changed_commit; [done| |done]. eapply ns_failed_last; eauto.
  - left. eapply node_changed_update; [done| |done..]. by eapply ns_retried.
  - left. eapply node_changed_update; [done| |done..]. by eapply ns_recovering.
  - left. eapply node_changed_update; [done| |done..]. by apply ns_handler_running.
  - left. eapply node_changed_update; [done| |done..]. by eapply ns_rechecked.
  - left. eapply node_changed_update; [done| |done..]. apply ns_cancelled_pending; [done|by left|by left].
  - left. eapply node_changed_update; [done| |done..]. by eapply ns_cancelling.
  - left. destruct (node_changed_quiet r s d x (set_action (Some a) x)) as (s' & d' & x' & y & Hall);
      [done|by apply ns_contained|done|by destruct (ss_state x)|].
    exists s', d', x', y. unfold rest_same.
    replace (rd_events (foldr push_action (quiet_update r s (set_action (Some a) x)) acts)) with (rd_events r) by by induction acts.
    by rewrite foldr_push_action_state.
  - left. eapply node_changed_update; [done| |done..]. by eapply ns_quiesced.
  - left. destruct (wf_defined _ _ _ Hwf Hx) as [d Hd].
    eapply (node_changed_quiet r s d x); [done|by apply ns_bookkeeping|by apply bookkeeping_state|by destruct (ss_state x)].
  - right. split; [done|]. exists []. split; [by rewrite app_nil_r|by apply rn_nothing].
  - right. split; [done|]. exists []. split; [by rewrite app_nil_r|by apply rn_nothing].
  - right. split; [done|]. exists []. split; [by rewrite app_nil_r|by apply rn_nothing].
  - right. split; [by run_fields|]. eexists. split; [done|]. by eapply rn_cancellation; run_fields.
  - right. split; [by run_fields|]. eexists. split; [done|]. by eapply rn_finalization_cancellation; run_fields.
  - right. split; [by run_fields|]. eexists. split; [done|]. by eapply rn_force_abort; run_fields.
  - right. split; [by run_fields|]. eexists. split; [done|]. by eapply rn_force_abort_finalization; run_fields.
Qed.

Lemma move_changed r r' : wf (rd_state r) → move r r' → node_changed r r' ∨ run_changed r r'.
Proof.
  intros Hwf [r1 Hi|r1 He]; [|by apply external_changed].
  destruct Hi as [r1 Hi|outcome|outcome summary exports]; [by left; apply internal_node_changed|..]; right.
  - unfold finalization_entry. split; [by run_fields|]. eexists. split; [done|].
    by eapply (rn_enter _ _ outcome); [| | | |unfold finalization_entry; run_fields|..]; run_fields.
  - split; [by run_fields|]. eexists. split; [done|]. by eapply rn_finish; run_fields.
Qed.

(** A predicate of single nodes that every node step keeps is kept by every
    move. *)
Definition each_node (P : string → RuntimeStep → Step → Prop) st : Prop :=
  ∀ s d x, node_at st s d x → P s d x.

Lemma each_node_move (P : string → RuntimeStep → Step → Prop) r r' :
  (∀ st s d x y, wf st → rs_definition st = rs_definition (rd_state r) →
     node_at st s d x → node_step st s d x y → P s d x → P s d y) →
  wf (rd_state r) → move r r' → each_node P (rd_state r) → each_node P (rd_state r').
Proof.
  intros Hstep Hwf Hm HP s d x [Hx Hd]. unfold def_step in Hd. rewrite (move_definition _ _ Hm) in Hd.
  destruct (move_changed _ _ Hwf Hm) as [(s' & d' & x' & y & Hat & Hns & Heq & _)|[Heq _]]; rewrite Heq in Hx.
  - destruct (decide (s = s')) as [->|].
    + rewrite lookup_insert_eq in Hx. simplify_eq.
      assert (d = d') as -> by (destruct Hat as [_ Hat]; unfold def_step in Hat; congruence).
      eapply Hstep; [exact Hwf|done|exact Hat|exact Hns|by apply HP].
    + rewrite lookup_insert_ne in Hx by done. by apply HP.
  - by apply HP.
Qed.
End node_steps.
