(* ===== verification/NodeInvariants.v ===== *)
(** * Invariants of single nodes

    The bookkeeping of a node agrees with its state in every reachable run:
    which action and invocation are outstanding, how executions and recovery
    rounds are numbered, and which outputs a success carries. *)

From S2P Require Import Prelude Text Nodes Evidence Condition Validated Runtime Reducer Moves Refinement Views Stabilize Occurrences Runs NodeSteps.

Section node_invariants.
Context {Provisional Cause Output Deadline : Type}.
Context `{!SerdeJson, !NodeFailureSource Cause, !ConditionOutput Output,
          !ProvisionalStepResources Provisional}.

Local Abbreviation State := (RuntimeState Cause Output Deadline).
Local Abbreviation Red := (Reduction Provisional Cause Output Deadline).
Local Abbreviation Step := (StepRuntimeState Cause Output).

Implicit Types (st : State) (r : Red) (x y : Step) (s t : string) (d : RuntimeStep) (D : RuntimeDefinition).

(** ** Recovery records *)

Definition rounds_of x : list (RecoveryRoundRecord Cause) :=
  match ss_recovery x with Some v => sr_rounds v | None => [] end.

(** The numbers [1 .. n]. *)
Fixpoint numbered (n : nat) : list N :=
  match n with O => [] | S n => (numbered n ++ [N.of_nat (S n)])%list end.

(** Rounds and the executions that failed before them are numbered in order
    from one, within the configured number of rounds. *)
Definition recovery_ok d x : Prop :=
  rrr_number <$> rounds_of x = numbered (length (rounds_of x))
  ∧ (ptf_execution_number ∘ rrr_failed_execution) <$> rounds_of x = numbered (length (rounds_of x))
  ∧ match ss_recovery x with
    | None => True
    | Some v => ∃ c, rt_recovery d = Some c ∧ sr_configured_rounds v = rr_retries c
                ∧ sr_handler_kind v = rr_handler_kind c
                ∧ (N.of_nat (length (sr_rounds v)) <= sr_configured_rounds v)%N
    end.

(** The outstanding action and invocation of a node, by its state. *)
Definition activity_ok x : Prop :=
  let rounds := N.of_nat (length (rounds_of x)) in
  match ss_state x with
  | SPending =>
      ss_current_action x = None ∧ ss_active_invocation x = None ∧ ss_target_execution x = None ∧ rounds_of x = []
  | SStarting | SRunning | SCapturingOutputs =>
      is_Some (ss_current_action x) ∧ is_Some (ss_target_invocation x)
      ∧ ss_target_execution x = Some (rounds + 1)%N
      ∧ ss_active_invocation x = Some (ActiveTarget (rounds + 1)%N)
  | SRecovering round _ =>
      is_Some (ss_current_action x) ∧ is_Some (ss_target_invocation x)
      ∧ round = rounds ∧ (1 <= rounds)%N
      ∧ ss_target_execution x = Some rounds
      ∧ ss_active_invocation x = Some (ActiveRecoveryHandler round)
  | SCancelling _ => is_Some (ss_current_action x) ∧ is_Some (ss_active_invocation x)
  | _ => ss_current_action x = None ∧ ss_active_invocation x = None
  end.

Definition node_ok (_ : string) d x : Prop := recovery_ok d x ∧ activity_ok x.

(** ** Bookkeeping and new rounds *)

Lemma same_rounds_length a b : same_rounds (Cause := Cause) a b → length (sr_rounds b) = length (sr_rounds a).
Proof. intros (_ & _ & Hn & _). rewrite <-(length_fmap rrr_number (sr_rounds b)), <-Hn. by rewrite length_fmap. Qed.

Lemma bookkeeping_rounds x y :
  bookkeeping x y →
  rrr_number <$> rounds_of y = rrr_number <$> rounds_of x
  ∧ rrr_failed_execution <$> rounds_of y = rrr_failed_execution <$> rounds_of x
  ∧ length (rounds_of y) = length (rounds_of x).
Proof.
  intros [_ Hr]. unfold rounds_of. destruct (ss_recovery x) as [a|], (ss_recovery y) as [b|]; try done.
  pose proof (same_rounds_length _ _ Hr). destruct Hr as (_ & _ & -> & ->). done.
Qed.

Lemma bookkeeping_recovery_ok d x y : bookkeeping x y → recovery_ok d x → recovery_ok d y.
Proof.
  intros Hb (H1 & H2 & H3). destruct (bookkeeping_rounds _ _ Hb) as (Hn & He & Hl).
  unfold recovery_ok. rewrite Hn, Hl, list_fmap_compose, He, <-list_fmap_compose. split_and!; [done..|].
  destruct Hb as [_ Hr]. destruct (ss_recovery x) as [a|], (ss_recovery y) as [b|]; try done.
  pose proof (same_rounds_length _ _ Hr) as Hlen. destruct Hr as (Hc & Hk & _).
  destruct H3 as (c & ? & ? & ? & ?). exists c. rewrite <-Hc, <-Hk, Hlen. done.
Qed.

Lemma recovery_ok_same d x y : ss_recovery y = ss_recovery x → recovery_ok d x → recovery_ok d y.
Proof. unfold recovery_ok, rounds_of. by intros ->. Qed.

Lemma rounds_of_push record x v :
  ss_recovery x = Some v → rounds_of (push_round record x) = (rounds_of x ++ [record])%list.
Proof. intros Hv. unfold rounds_of, push_round. simpl. by rewrite Hv. Qed.

Lemma recovery_ok_push st s d x round e i kind phase detail cause :
  rs_steps st !! s = Some x → recovery_round_available st s = Some (round, e, i, kind) →
  recovery_ok d x → recovery_ok d (push_round (round_record round e i phase detail cause) x).
Proof.
  intros Hx (x' & v & Hx' & Hv & He & Hi & Hk & Hlt & Hround & Heq & _)%recovery_round_available_spec (H1 & H2 & H3).
  simplify_eq. unfold recovery_ok. rewrite (rounds_of_push _ _ v) by done.
  rewrite !fmap_app, length_app, H1, H2, Nat.add_1_r. unfold rounds_of in *. rewrite Hv in *.
  split_and!.
  - simpl. f_equal. f_equal. lia.
  - simpl. f_equal. f_equal. lia.
  - simpl. rewrite Hv. simpl. destruct H3 as (c & ? & ? & ? & ?). exists c. rewrite length_app. simpl.
    split_and!; [done..|lia].
Qed.

Lemma rounds_of_recovering round kind n x :
  length (rounds_of (recovering_node round kind n x)) = length (rounds_of x).
Proof. unfold rounds_of. simpl. destruct (ss_recovery x); simpl; [|done]. by rewrite length_update_last. Qed.

Lemma recovery_ok_recovering d round kind n x : recovery_ok d x → recovery_ok d (recovering_node round kind n x).
Proof.
  intros Hok. unfold recovering_node.
  apply (recovery_ok_same d (set_recovery (ss_recovery (recovering_node round kind n x)) x)); [done|].
  eapply bookkeeping_recovery_ok; [|exact Hok]. split; [done|]. simpl. destruct (ss_recovery x) as [v|]; simpl; [|done].
  unfold same_rounds; simpl. by rewrite !fmap_update_last.
Qed.

(** The execution a recheck authorizes is the one after the last failure. *)
Lemma recheck_execution st s d x failure :
  rs_steps st !! s = Some x → recovery_ok d x → latest_target_failure st s = Some failure →
  ptf_execution_number failure = N.of_nat (length (rounds_of x)).
Proof.
  intros Hx (_ & He & _) Hf. unfold latest_target_failure in Hf. rewrite Hx in Hf. simpl in Hf.
  unfold rounds_of in *. destruct (ss_recovery x) as [v|]; simpl in Hf; [|done].
  destruct (last (sr_rounds v)) as [record|] eqn:Hl; simplify_eq/=.
  apply (f_equal last) in He. rewrite fmap_last, Hl in He.
  destruct (sr_rounds v) as [|a l]; [done|]. simpl length in *. simpl numbered in He.
  rewrite last_snoc in He. by simplify_eq/=.
Qed.

Lemma execution_next_Some e e' : execution_next e = Some e' → e' = (e + 1)%N.
Proof. by intros [? _]%checked_add_Some. Qed.

(** ** Preservation *)

(** Within the schema's limit the execution numbers never run out. *)
Lemma last_execution_unreachable st s d x round e i kind :
  wf st → node_at st s d x → recovery_ok d x → recovery_round_available st s = Some (round, e, i, kind) →
  execution_next e ≠ None.
Proof.
  intros [Hwf _] [Hx Hd] (_ & _ & Hr) (x' & v & ? & Hv & _ & _ & _ & Hlt & -> & <- & _)%recovery_round_available_spec.
  simplify_eq. rewrite Hv in Hr. destruct Hr as (c & Hc & Hcfg & _).
  pose proof (dw_retries _ Hwf _ _ _ Hd Hc) as Hmax.
  unfold execution_next, checked_add. unfold MAXIMUM_RETRIES, u8_max in *. case_decide; [done|lia].
Qed.

Lemma node_step_ok st s d x y :
  wf st → node_at st s d x → node_step st s d x y → node_ok s d x → node_ok s d y.
Proof.
  intros Hwf Hat Hstep [Hrec Hact]. pose proof (proj1 Hat) as Hx.
  assert (Hbk : ∀ y v a, bookkeeping x y → recovery_ok d (enter v a y) ∧ recovery_ok d (settle v y)).
  { intros z v a Hz. split; eapply recovery_ok_same; try (by eapply bookkeeping_recovery_ok); done. }
  assert (Hlen : ∀ y, bookkeeping x y → length (rounds_of y) = length (rounds_of x))
    by (intros z Hz; by apply bookkeeping_rounds).
  unfold node_ok, activity_ok in *.
  destruct Hstep as [Hp|detail Hp|detail Hp|detail Hp|detail Hp|detail Hp|n Hp|a Hs Ha|a Hs|y outputs Hs Ho Hy
    |y detail Hc Hy|y detail record round e i Ht Hav He Hy|n round e i phase detail cause e' Ht Hrole Hav He
    |n round e i phase detail cause kind Ht Hrole Hav|y round a Hs Ha Hy|n y round failure e' Hs Hy Hf He
    |y reason active a Hc Ha Hrole Hy|a Hk|y detail reason Hs Hy|y Ha Hy].
  - rewrite Hp in Hact. split; [by eapply recovery_ok_same|]. simpl. by rewrite Hp.
  - rewrite Hp in Hact. split; [by eapply recovery_ok_same|]. by split; [|apply Hact].
  - split; [by eapply recovery_ok_same|done].
  - rewrite Hp in Hact. split; [by eapply recovery_ok_same|]. by split; [|apply Hact].
  - rewrite Hp in Hact. split; [by eapply recovery_ok_same|]. by split; [|apply Hact].
  - rewrite Hp in Hact. split; [by eapply recovery_ok_same|]. by split; [|apply Hact].
  - rewrite Hp in Hact. destruct Hact as (_ & _ & _ & Hr).
    split; [by eapply recovery_ok_same|]. simpl. change (rounds_of (start_node FIRST n x)) with (rounds_of x).
    rewrite Hr. split_and!; eauto.
  - rewrite Hs in Hact. destruct Hact as (_ & Hact). split; [by eapply recovery_ok_same|]. split; [eauto|done].
  - rewrite Hs in Hact. destruct Hact as (_ & Hact). split; [by eapply recovery_ok_same|]. split; [eauto|done].
  - split; [by eapply (Hbk y _ None)|]. done.
  - split; [by eapply (Hbk y _ None)|]. done.
  - by destruct (last_execution_unreachable st s d x round e i None Hwf Hat Hrec Hav).
  - destruct (recovery_round_available_spec _ _ _ _ _ _ Hav) as (x' & v & ? & Hv & _ & _ & _ & _ & -> & <- & _).
    simplify_eq. apply execution_next_Some in He as ->. split.
    + eapply recovery_ok_same; [|by eapply (recovery_ok_push st s d x)]. done.
    + simpl. change (rounds_of (start_node ?e n ?z)) with (rounds_of z).
      erewrite rounds_of_push by done. rewrite length_app. simpl. unfold rounds_of. rewrite Hv.
      split_and!; [eauto..| |]; do 2 f_equal; lia.
  - destruct (recovery_round_available_spec _ _ _ _ _ _ Hav) as (x' & v & ? & Hv & He & Hi & _ & _ & Hround & Heq & _).
    simplify_eq. split; [by eapply recovery_ok_recovering, recovery_ok_push|].
    rewrite rounds_of_recovering. erewrite rounds_of_push by done. rewrite length_app. simpl.
    unfold rounds_of. rewrite Hv. split_and!; [eauto..|lia|lia|rewrite He; f_equal; lia|done].
  - rewrite Hs in Hact. destruct Hact as (_ & Hact). split; [by apply (Hbk y)|].
    destruct Hy as [Hy1 Hy2]. rewrite <-(Hlen y) in Hact by done. rewrite Hy1 in Hact |- *.
    simpl. split; [eauto|]. exact Hact.
  - rewrite Hs in Hact. destruct Hact as (_ & Hact & -> & _).
    rewrite (recheck_execution st s d x) in He by done. apply execution_next_Some in He as ->.
    split; [eapply recovery_ok_same; [|by eapply bookkeeping_recovery_ok]; done|].
    simpl. change (rounds_of (start_node ?e n ?z)) with (rounds_of z). rewrite (Hlen y) by done. split_and!; eauto.
  - split; [by apply (Hbk y)|]. simpl. split; [eauto|]. rewrite (proj1 Hy). simpl. eauto.
  - split; [by eapply recovery_ok_same|]. simpl. destruct (ss_state x); try done. by split; [eauto|apply Hact].
  - split; [by eapply (Hbk y _ None)|]. done.
  - split; [by eapply bookkeeping_recovery_ok|]. rewrite (Hlen y) by done. destruct Hy as [Hy _]. rewrite Hy. simpl.
    destruct (ss_state x); try done; exact Hact.
Qed.

Lemma initial_node_ok D (seed : ExecutionSeed Output) :
  definition_wf D → each_node node_ok (initial_state (Cause := Cause) (Deadline := Deadline) D seed).
Proof.
  intros Hwf s d x [Hx Hd]. rewrite initial_lookup in Hx by done. unfold def_step in Hd. simpl in Hd.
  rewrite Hd in Hx. simplify_eq/=. unfold node_ok, recovery_ok, activity_ok, rounds_of. simpl.
  destruct (bt_get seed s); simpl; [done|]. destruct (rt_recovery d) as [c|]; simpl; [|done].
  split; [|done]. split_and!; [done..|]. exists c. split_and!; try done. lia.
Qed.

Lemma reachable_node_ok D st :
  definition_wf D → reachable (Provisional := Provisional) D st → each_node node_ok st ∧ wf st ∧ rs_definition st = D.
Proof.
  intros Hwf Hr. apply (reachable_invariant (each_node node_ok) D st); [|..|done|done].
  - intros seed _. by apply initial_node_ok.
  - intros r r' Hm Hw _. apply (each_node_move node_ok r r'); [|done|done].
    intros st' s d x y Hw' _. by apply node_step_ok.
Qed.

(** ** Outputs of successful nodes *)

Definition outputs_ok (_ : string) d x : Prop :=
  ∀ outputs, ss_state x = SSucceeded outputs → bt_keys outputs = rt_declared_outputs d.

Lemma node_step_outputs st s d x y :
  node_step st s d x y → outputs_ok s d x → outputs_ok s d y.
Proof.
  intros Hstep Hok. destruct Hstep; intros o Ho; try (by simplify_eq/=); try (by apply Hok).
  apply Hok. by rewrite <-(bookkeeping_state x y).
Qed.
End node_invariants.
