(* ===== verification/Phases.v ===== *)
(** * The phases of a run

    Ordinary steps run first; finalization begins when they are all
    terminal and the run ends when every node is.  What each phase
    guarantees of the nodes, of the gates and of the recorded outcome. *)

From S2P Require Import Prelude Text Nodes Evidence Condition Validated Runtime Reducer Moves Refinement Views Stabilize Occurrences Runs NodeSteps NodeInvariants.

Section phases.
Context {Provisional Cause Output Deadline : Type}.
Context `{!SerdeJson, !NodeFailureSource Cause, !ConditionOutput Output,
          !ProvisionalStepResources Provisional}.

Local Abbreviation State := (RuntimeState Cause Output Deadline).
Local Abbreviation Red := (Reduction Provisional Cause Output Deadline).
Local Abbreviation Step := (StepRuntimeState Cause Output).

Implicit Types (st : State) (r : Red) (x y : Step) (s t : string) (d : RuntimeStep) (D : RuntimeDefinition).

Lemma node_step_live st s d x y : node_step st s d x y → is_terminal (ss_state x) = false.
Proof.
  destruct 1 as [| | | | | | | | |? ? Hs| | | | | | | |? Hk| |]; try (by simplify_eq/=; destruct (ss_state x));
    try (match goal with Hs : ss_state x = _ |- _ => by rewrite Hs end).
  - by destruct Hs as [->| ->].
Qed.

Lemma role_terminal st role :
  wf st → forallb (step_is is_terminal st) (role_ids st role) = true →
  ∀ s d x, node_at st s d x → rt_role d = role → is_terminal (ss_state x) = true.
Proof.
  intros Hwf Hall s d x Hat Hrole. rewrite <-(step_is_at is_terminal st s d x) by done.
  rewrite forallb_forall in Hall. apply Hall, list_elem_of_In, wf_role_ids_iff; [done|].
  exists d. by split; [apply Hat|].
Qed.

(** ** What each phase guarantees *)

Definition all_of st (role : WorkflowNodeRole) (P : StepState Output → Prop) : Prop :=
  ∀ s d x, node_at st s d x → rt_role d = role → P (ss_state x).

Definition forced st : bool := bool_decide (is_Some (rs_force_abort st)).

Definition phase_ok st : Prop :=
  match rs_workflow st with
  | WExecuting gate =>
      all_of st RoleFinalizer (λ v, v = SPending)
      ∧ rs_finalization st = None ∧ rs_exports st = None
      ∧ (rs_force_abort st = None
         ∨ ordinary_force_abort st = true ∧ ∃ reason prior, gate = GateCancelling reason prior)
  | WFinalizing trigger gate issue =>
      all_of st RoleStep (λ v, is_terminal v = true)
      ∧ rs_exports st = None
      ∧ (rs_force_abort st = None ∨ ∃ reason deadline, gate = FinCancelling reason deadline true)
      ∧ ∃ f, rs_finalization st = Some f ∧ fnr_trigger f = trigger
          ∧ outcome_trigger (fnr_ordinary_outcome f) = trigger
          ∧ (trigger = TriggerSucceeded ∨ issue = outcome_primary_issue (fnr_ordinary_outcome f))
          ∧ match gate with
            | FinOpen => fnr_cancellation f = None
            | FinCancelling reason _ _ => fin_reason <$> fnr_cancellation f = Some reason
            end
  | WSucceeded | WFailed _ _ | WCancelled _ =>
      all_of st RoleStep (λ v, is_terminal v = true) ∧ all_of st RoleFinalizer (λ v, is_terminal v = true)
      ∧ is_Some (rs_exports st)
  end.

Lemma all_of_changed st st' role P s d x y :
  rs_definition st' = rs_definition st → rs_steps st' = <[s := y]> (rs_steps st) → node_at st s d x →
  all_of st role P → (rt_role d = role → P (ss_state x) → P (ss_state y)) → all_of st' role P.
Proof.
  intros HD Hs Hat Hall Hy t d' z [Hz Hd] Hrole. unfold def_step in Hd. rewrite HD in Hd. rewrite Hs in Hz.
  destruct (decide (t = s)) as [->|].
  - rewrite lookup_insert_eq in Hz. simplify_eq. pose proof (proj2 Hat) as Hd'. unfold def_step in Hd'.
    simplify_eq. apply Hy; [done|]. by eapply Hall.
  - rewrite lookup_insert_ne in Hz by done. by eapply Hall.
Qed.

Lemma all_of_same st st' role P :
  rs_definition st' = rs_definition st → rs_steps st' = rs_steps st → all_of st role P → all_of st' role P.
Proof. intros HD Hs Hall t d x [Hx Hd]. apply (Hall t). split; [by rewrite <-Hs|]. unfold def_step in *. by rewrite <-HD. Qed.

(** While ordinary steps execute no finalizer leaves [Pending]. *)
Lemma executing_finalizer_pending st s d x y :
  is_executing (rs_workflow st) = true → node_at st s d x → node_step st s d x y →
  rt_role d = RoleFinalizer → ss_state x = SPending → ss_state y = SPending.
Proof.
  intros Hex [Hx Hd] Hstep Hrole Hp.
  assert (Hgate : condition_gate_ready st s = true → False).
  { unfold condition_gate_ready, condition_phase_gate_open. rewrite Hd, Hx, Hrole.
    destruct (rs_workflow st) as [[]| | | |]; try done; by rewrite !orb_true_r. }
  destruct Hstep as [_|detail _ Hr|detail _ Hr|detail _ Hr|detail _ Hr|detail _ Hr|n _ Hr|a Hs _|a Hs|y outputs Hs _ _
    |y detail Hc _|y detail record round e i Ht _ _ _|n round e i phase detail cause e' Ht _ _ _
    |n round e i phase detail cause kind Ht _ _|y round a Hs _ _|n y round failure e' Hs _ _ _
    |y reason active a Hc _ _ _|a Hk|y detail reason Hs _|y Ha _]; try (by exfalso; apply Hgate);
    try congruence; try (by rewrite Hp in Hc || rewrite Hp in Ht || rewrite Hp in Hk || rewrite Hp in Ha).
  - unfold block_reason in Hr. rewrite Hrole in Hr. destruct Hr as [Hr _]. by destruct (rs_workflow st).
  - unfold not_run_reason in Hr. rewrite Hrole in Hr. destruct Hr as [Hr _]. by destruct (rs_workflow st).
  - rewrite Hrole in Hr. by destruct Hr as [Hr|(_ & Hr & _)]; destruct (rs_workflow st) as [[]| | | |].
  - rewrite Hrole in Hr. by destruct (rs_workflow st) as [[]| | | |].
  - by rewrite Hp in Hs; destruct Hs.
Qed.

Lemma after_node_cases (w w' : WorkflowState Deadline) s d y :
  w' = after_node w s d y →
  w' = w ∨ (∃ issue, w = WExecuting GateOpen ∧ w' = WExecuting (GateFailureStopped issue))
  ∨ (∃ issue, w = WFinalizing TriggerSucceeded FinOpen None ∧ w' = WFinalizing TriggerSucceeded FinOpen (Some issue)).
Proof.
  intros ->. unfold after_node, committed_workflow.
  destruct (node_issue s d y) as [issue|]; auto; destruct (rt_failure_policy d), (rt_role d), w as [[]|[] [] []| | |]; simpl; eauto 8.
Qed.

Lemma phase_ok_node r r' :
  rs_definition (rd_state r') = rs_definition (rd_state r) →
  node_changed r r' → phase_ok (rd_state r) → phase_ok (rd_state r').
Proof.
  intros HD (s & d & x & y & Hat & Hstep & Hst & Hw & Hf & Hfa & He & _) Hok.
  pose proof (node_step_live _ _ _ _ _ Hstep) as Hlive.
  assert (Hterm : ∀ role, all_of (rd_state r) role (λ v, is_terminal v = true) →
                          all_of (rd_state r') role (λ v, is_terminal v = true)).
  { intros role Hall. eapply all_of_changed; [done..|]. intros _ Ht. congruence. }
  unfold phase_ok in *. rewrite Hf, He. unfold ordinary_force_abort in *. rewrite Hfa.
  apply after_node_cases in Hw as [->|[(issue & Hw & ->)|(issue & Hw & ->)]].
  - destruct (rs_workflow (rd_state r)) eqn:Hwf; [|naive_solver..].
    destruct Hok as (Hall & ?). split; [|done]. eapply all_of_changed; [done..|].
    intros Hrole Hp. eapply executing_finalizer_pending; [by rewrite Hwf|done..].
  - rewrite Hw in Hok. destruct Hok as (Hall & ? & ? & Hforce). split_and!; [|done..|naive_solver].
    eapply all_of_changed; [done..|]. intros Hrole Hp. eapply executing_finalizer_pending; [by rewrite Hw|done..].
  - rewrite Hw in Hok. destruct Hok as (Hall & ? & ? & f & Hf' & ? & ? & ? & ?).
    split_and!; [auto..|]. exists f. split_and!; auto.
Qed.

Lemma phase_ok_run r r' :
  wf (rd_state r) → rs_definition (rd_state r') = rs_definition (rd_state r) →
  run_changed r r' → phase_ok (rd_state r) → phase_ok (rd_state r').
Proof.
  intros Hwf HD [Hst (es & _ & Hrun)] Hok.
  assert (Hkeep : ∀ role P, all_of (rd_state r) role P → all_of (rd_state r') role P)
    by (intros; by eapply all_of_same).
  unfold phase_ok in *.
  destruct Hrun as [Hw Hf Hfa He|outcome f n to Hex Hall Hnil Ho Hentry Hf Hfa He|outcome summary exports n to Hreason Hexp Hw He Hf Hfa
    |gate reason prior n deadline Hw Hg Hw' Hf Hfa He|trigger issue reason deadline n Hw Hw' Hf Hfa He
    |gate n Hw Hnone Hw' Hfa Hf He|trigger gate issue n Hw Hnone Hw' Hfa Hf He].
  - rewrite Hw, Hf, He. unfold ordinary_force_abort in *. rewrite Hfa. destruct (rs_workflow (rd_state r)); naive_solver.
  - unfold finalization_entry in Hentry. simplify_eq. rewrite H0, He, Hfa, Hf.
    destruct (rs_workflow (rd_state r)) as [gate| | | |]; try done. destruct Hok as (_ & _ & Hexp & Hforce).
    assert (Hterm := role_terminal _ RoleStep Hwf Hall). split_and!; [by apply Hkeep|done| |].
    + destruct Hforce as [?|[-> _]]; [by left|right; eauto].
    + eexists. split; [done|]. simpl. split_and!; [done..|by right|].
      by destruct (ordinary_force_abort (rd_state r)).
  - assert (Hall : all_of (rd_state r) RoleStep (λ v, is_terminal v = true)
                   ∧ all_of (rd_state r) RoleFinalizer (λ v, is_terminal v = true)).
    { destruct summary as [summary|]; destruct Hreason as (Hphase & Hall & Hrest).
      - split; [|exact (role_terminal _ RoleFinalizer Hwf Hall)].
        destruct (rs_workflow (rd_state r)); try done. by destruct Hok.
      - split; [exact (role_terminal _ RoleStep Hwf Hall)|]. destruct Hrest as [Hnil _].
        intros s d x Hat Hrole. exfalso. assert (Hin : s ∈ role_ids (rd_state r) RoleFinalizer).
        { apply wf_role_ids_iff; [done|]. exists d. by split; [apply Hat|]. }
        simpl in Hin. rewrite Hnil in Hin. by apply elem_of_nil in Hin. }
    destruct Hall as [Hs1 Hs2]. rewrite Hw, He. unfold finished_workflow. destruct outcome; eauto.
  - rewrite Hw in Hok. rewrite Hw', Hf, He. unfold ordinary_force_abort in *. rewrite Hfa.
    destruct Hok as (? & ? & ? & Hforce). split_and!; [by apply Hkeep|done|done|].
    destruct Hforce as [?|[? _]]; [by left|right; eauto].
  - rewrite Hw in Hok. rewrite Hw', Hf, He, Hfa. destruct Hok as (? & ? & Hforce & f & -> & ? & ? & ? & _).
    split_and!; [by apply Hkeep|done| |eexists; split; [done|]; by split_and!].
    destruct Hforce as [?|(? & ? & ?)]; [by left|done].
  - rewrite Hw in Hok. rewrite Hw', Hf, He. unfold ordinary_force_abort. rewrite Hfa.
    destruct Hok as (? & ? & ? & _). split_and!; [by apply Hkeep|done|done|].
    right. split; [done|]. destruct gate; simpl; eauto.
  - rewrite Hw in Hok. rewrite Hw', Hf, He, Hfa. destruct Hok as (? & ? & _ & f & -> & ? & ? & ? & Hgate).
    split_and!; [by apply Hkeep|done| |].
    + right. destruct gate; simpl; eauto.
    + eexists. split; [done|]. split_and!; [done..|]. simpl.
      destruct gate; simpl in *; [by rewrite Hgate|]. destruct (fnr_cancellation f); by simplify_eq/=.
Qed.

Lemma initial_phase_ok D (seed : ExecutionSeed Output) :
  definition_wf D → seed_wf D seed → phase_ok (initial_state (Cause := Cause) (Deadline := Deadline) D seed).
Proof.
  intros Hwf Hseed. unfold phase_ok. simpl. split_and!; [|done|done|by left].
  intros s d x [Hx Hd] Hrole. rewrite initial_lookup in Hx by done. unfold def_step in Hd. simpl in Hd.
  rewrite Hd in Hx. simplify_eq/=. destruct (bt_get seed s) as [v|] eqn:Hs; [|done].
  destruct (Hseed _ _ Hs) as (d' & Hd' & Hr). congruence.
Qed.

Lemma move_phase_ok r r' : move r r' → wf (rd_state r) → phase_ok (rd_state r) → phase_ok (rd_state r').
Proof.
  intros Hm Hwf Hok. destruct (move_changed _ _ Hwf Hm) as [Hn|Hr];
    [by eapply phase_ok_node; [apply move_definition|..]|by eapply phase_ok_run; [..|apply move_definition| |]].
Qed.

Lemma visited_phase_ok D st :
  definition_wf D → visited (Provisional := Provisional) D st → phase_ok st ∧ wf st ∧ rs_definition st = D.
Proof.
  intros Hwf Hr. apply (visited_invariant (Provisional := Provisional) phase_ok D st); [|..|done|done].
  - intros seed Hs. by apply initial_phase_ok.
  - intros r r' Hm Hw _. by apply move_phase_ok.
Qed.

Lemma reachable_phase_ok D st :
  definition_wf D → reachable (Provisional := Provisional) D st → phase_ok st ∧ wf st ∧ rs_definition st = D.
Proof. intros HD Hr. by apply (visited_phase_ok D st HD), (reachable_visited D st HD). Qed.

(** ** Success means success *)

(** A state a run may pass through and still succeed: nothing was cancelled,
    nothing required failed or was blocked, and only finalizers were left
    out. *)
Definition clean d (v : StepState Output) : Prop :=
  match v with
  | SCancelling _ | SCancelled _ => False
  | SFailed _ | SBlocked _ => rt_failure_policy d = Advisory
  | SNotRun _ => rt_role d = RoleFinalizer
  | _ => True
  end.

Definition clean_workflow (w : WorkflowState Deadline) : Prop :=
  match w with
  | WExecuting GateOpen | WFinalizing TriggerSucceeded FinOpen None | WSucceeded => True
  | _ => False
  end.

Definition clean_ok st : Prop :=
  clean_workflow (rs_workflow st) → ∀ s d x, node_at st s d x → clean d (ss_state x).

Lemma node_step_clean st s d x y :
  phase_ok st → clean_workflow (rs_workflow st) → node_step st s d x y → clean d (ss_state x) →
  match ss_state y with SFailed _ | SBlocked _ => rt_failure_policy d = Advisory | _ => True end →
  clean d (ss_state y).
Proof.
  intros Hok Hw Hstep Hx Hy.
  destruct Hstep as [Hp|detail Hp|detail Hp|detail Hp|detail Hp Hr|detail Hp Hr|n Hp|a Hs Ha|a Hs|y outputs Hs Ho Hb
    |y detail Hc Hb|y detail record round e i Ht Hav He Hb|n round e i phase detail cause e' Ht Hrole Hav He
    |n round e i phase detail cause kind Ht Hrole Hav|y round a Hs Ha Hb|n y round failure e' Hs Hb Hf He
    |y reason active a Hc Ha Hrole Hb|a Hk|y detail reason Hs Hb|y Ha Hb]; simpl in *; try done.
  - unfold not_run_reason in Hr. destruct (rt_role d); [|done]. destruct Hr as [Hr _].
    by destruct (rs_workflow st) as [[]| | | |].
  - destruct Hr as [Hr|(_ & Hfin & Hforce)].
    + by destruct (rs_workflow st) as [[]|[] [] []| | |], (rt_role d).
    + unfold phase_ok in Hok. unfold ordinary_force_abort in Hforce.
      destruct (rs_workflow st) as [[]|[] [] []| | |]; try done. destruct Hok as (_ & _ & [Hnone|(? & ? & ?)] & _); [|done].
      by rewrite Hnone in Hforce.
  - by destruct (rs_workflow st) as [[]|[] [] []| | |], (rt_role d).
  - by rewrite Hs in Hx.
  - rewrite (bookkeeping_state _ _ Hb) in *. done.
Qed.

Lemma clean_ok_node r r' :
  rs_definition (rd_state r') = rs_definition (rd_state r) → phase_ok (rd_state r) →
  node_changed r r' → clean_ok (rd_state r) → clean_ok (rd_state r').
Proof.
  intros HD Hok (s & d & x & y & Hat & Hstep & Hst & Hw & _) Hclean Hw'.
  pose proof (node_step_live _ _ _ _ _ Hstep) as Hlive.
  assert (Hbad : rt_failure_policy d = Required → is_pending (ss_state y) = false →
    ∀ issue, rs_workflow (rd_state r') = default (rs_workflow (rd_state r)) (committed_workflow (rs_workflow (rd_state r)) d issue) → False).
  { intros Hreq Hnp issue Heq. unfold phase_ok in Hok. unfold committed_workflow in Heq. rewrite Hreq in Heq.
    destruct (rt_role d) eqn:Hrole, (rs_workflow (rd_state r)) as [[]|[] [] []| | |] eqn:Hwr; simpl in Heq;
      rewrite Heq in Hw'; try done.
    - destruct Hok as [Hall _]. specialize (Hall _ _ _ Hat Hrole). simpl in Hall. congruence.
    - destruct Hok as [Hall _]. specialize (Hall _ _ _ Hat Hrole). simpl in Hall. congruence.
    - destruct Hok as [Hall _]. specialize (Hall _ _ _ Hat Hrole). simpl in Hall.
      rewrite (executing_finalizer_pending (rd_state r) s d x y) in Hnp; [done|by rewrite Hwr|done..].
    - destruct Hok as (_ & Hall & _). specialize (Hall _ _ _ Hat Hrole). simpl in Hall. congruence. }
  assert (Hy : clean_workflow (rs_workflow (rd_state r)) ∧
    match ss_state y with SFailed _ | SBlocked _ => rt_failure_policy d = Advisory | _ => True end).
  { pose proof (after_node_cases _ _ _ _ _ Hw) as Hcases. split.
    - destruct Hcases as [<-|[(? & -> & _)|(? & -> & _)]]; done.
    - unfold after_node, node_issue in Hw. destruct (ss_state y) eqn:Hs; try done;
        destruct (rt_failure_policy d) eqn:Hp; try done; exfalso; by eapply Hbad. }
  destruct Hy as [Hcw Hy]. intros t d' z [Hz Hd]. unfold def_step in Hd. rewrite HD in Hd. rewrite Hst in Hz.
  destruct (decide (t = s)) as [->|].
  - rewrite lookup_insert_eq in Hz. simplify_eq. pose proof (proj2 Hat) as Hd'. unfold def_step in Hd'. simplify_eq.
    eapply node_step_clean; [done..| |done]. by apply (Hclean Hcw s).
  - rewrite lookup_insert_ne in Hz by done. by apply (Hclean Hcw t).
Qed.

Lemma clean_ok_run r r' :
  rs_definition (rd_state r') = rs_definition (rd_state r) → phase_ok (rd_state r) →
  run_changed r r' → clean_ok (rd_state r) → clean_ok (rd_state r').
Proof.
  intros HD Hok [Hst (es & _ & Hrun)] Hclean Hw'.
  assert (Hcw : clean_workflow (rs_workflow (rd_state r))).
  { destruct Hrun as [Hw|outcome f n to Hex Hall Hnil Ho Hentry|outcome summary exports n to Hreason Hexp Hw
      |gate reason prior n deadline Hw Hg Hw1|trigger issue reason deadline n Hw Hw1|gate n Hw Hnone Hw1|trigger gate issue n Hw Hnone Hw1].
    - by rewrite Hw in Hw'.
    - unfold finalization_entry in Hentry. injection Hentry as Hentry _. rewrite Hentry in Hw'.
      unfold ordinary_outcome in Ho. destruct (rs_workflow (rd_state r)) as [[| |? []]| | | |]; by simplify_eq/=.
    - rewrite Hw in Hw'. destruct outcome; try done. destruct summary as [summary|]; simpl in Hreason.
      + destruct Hreason as (Hfin & _ & f & Hf & Hout & _). unfold phase_ok in Hok. unfold compose_final_outcome in Hout.
        destruct (rs_workflow (rd_state r)) as [|trigger gate issue| | |]; try done.
        destruct Hok as (_ & _ & _ & f' & Hf' & Ht & Ht' & _). assert (f' = f) as -> by congruence.
        destruct (fnr_ordinary_outcome f); try done. rewrite <-Ht'. by destruct issue, gate.
      + destruct Hreason as (_ & _ & _ & Ho). unfold ordinary_outcome in Ho.
        by destruct (rs_workflow (rd_state r)) as [[| |? []]| | | |]; simplify_eq/=.
    - by rewrite Hw1 in Hw'.
    - rewrite Hw1 in Hw'. by destruct trigger.
    - rewrite Hw1 in Hw'. by destruct gate.
    - rewrite Hw1 in Hw'. by destruct trigger, gate. }
  intros s d x [Hx Hd]. apply (Hclean Hcw s). split; [by rewrite <-Hst|]. unfold def_step in *. by rewrite <-HD.
Qed.

Lemma reachable_clean_ok D st : definition_wf D → reachable (Provisional := Provisional) D st → clean_ok st.
Proof.
  intros Hwf Hr. apply (reachable_invariant (λ st, phase_ok st ∧ clean_ok st) D st) in Hr as [[_ ?] _]; [done|..|done].
  - intros seed Hs. split; [by apply initial_phase_ok|]. intros _ s d x [Hx Hd].
    rewrite initial_lookup in Hx by done. unfold def_step in Hd. simpl in Hd. rewrite Hd in Hx. simplify_eq/=.
    by destruct (bt_get seed s).
  - intros r r' Hm Hw _ [Hok Hclean]. split; [by eapply move_phase_ok|].
    pose proof (move_definition _ _ Hm). destruct (move_changed _ _ Hw Hm);
      [by eapply clean_ok_node|by eapply clean_ok_run].
Qed.
End phases.
