(* ===== verification/History.v ===== *)
(** * The history of a run

    A run with the transitions it logged, and what they say about its state:
    every node that started has a start, every node that ended after it
    started has an end, and the accepted cancellation is the one the state
    remembers. *)

From S2P Require Import Prelude Text Nodes Evidence Condition Validated Runtime RunTiming Reducer Moves Refinement Views Stabilize Occurrences Runs NodeSteps NodeInvariants Phases.

(** An initial cancellation is not a force abort in disguise, as
    [CancellationSource::request_cancellation] checks. *)
Definition initial_graceful {Deadline} (c : option (InitialCancellation Deadline)) : Prop :=
  match c with Some (InitialGraceful request _) => cr_reason request ≠ ForceAbort | _ => True end.

Section history.
Context {Provisional Cause Output Deadline : Type}.
Context `{!SerdeJson, !NodeFailureSource Cause, !ConditionOutput Output,
          !ProvisionalStepResources Provisional}.

Local Abbreviation State := (RuntimeState Cause Output Deadline).
Local Abbreviation Red := (Reduction Provisional Cause Output Deadline).
Local Abbreviation Step := (StepRuntimeState Cause Output).
Local Abbreviation Occ := (Occurrence Provisional Cause Output Deadline).
Local Abbreviation Event := (TransitionEvent Deadline).

Implicit Types (st : State) (r : Red) (x y : Step) (s t : string) (d : RuntimeStep) (D : RuntimeDefinition) (h : list Event).

Local Open Scope list_scope.

(** ** Runs with their log *)

Inductive history D (seed : ExecutionSeed Output) : list Event → State → Prop :=
| rec_initial c :
    seed_wf D seed → initial_graceful c →
    history D seed
      (rd_events (initialize_seeded_definition (Provisional := Provisional) (Cause := Cause) D c seed))
      (rd_state (initialize_seeded_definition (Provisional := Provisional) D c seed))
| rec_reduce h st (o : Occ) :
    history D seed h st → history D seed (h ++ rd_events (reduce st o)) (rd_state (reduce st o)).

Lemma history_reachable D seed h st : history D seed h st → reachable (Provisional := Provisional) D st.
Proof. induction 1; by econstructor. Qed.

(** An invariant of moves and their events is an invariant of runs and their
    log. *)
Lemma history_invariant (P : list Event → State → Prop) D seed h st :
  P [] (initial_state D seed) →
  (∀ h r r', move r r' → wf (rd_state r) → rs_definition (rd_state r) = D →
     P (h ++ rd_events r) (rd_state r) → P (h ++ rd_events r') (rd_state r')) →
  definition_wf D → history D seed h st → P h st.
Proof.
  intros Hinit Hstep HD Hrec.
  assert (Hmoves : ∀ h r r', rtc move r r' → wf (rd_state r) → rs_definition (rd_state r) = D →
    P (h ++ rd_events r) (rd_state r) → P (h ++ rd_events r') (rd_state r')).
  { intros h' r r'. induction 1 as [|r1 r2 r3 Hm _ IH]; intros Hwf Hdef HP; [done|]. apply IH.
    - by eapply move_wf.
    - by rewrite (move_definition _ _ Hm).
    - by eapply Hstep. }
  induction Hrec as [c Hs _|h st o Hrec IH].
  - apply (Hmoves [] (begin (initial_state D seed))); [by apply initialize_moves|by apply initial_wf|done|done].
  - destruct (reachable_wf D st HD (history_reachable _ _ _ _ Hrec)) as [Hwf Hdef].
    apply (Hmoves h (begin st)); [by apply reduce_moves|done|done|]. cbn [begin rd_events rd_state]. by rewrite app_nil_r.
Qed.

(** ** Failures of executions *)

(** A cause is recorded in the phase it is reported for. *)
Definition failure_phase_law : Prop :=
  ∀ (cause : Cause) phase detail, node_failure_detail cause phase = Ok detail → fd_phase detail = phase.

Definition failures_of x : list (ProvisionalTargetFailure Cause) := rrr_failed_execution <$> rounds_of x.

Definition rounds_in_phase (_ : string) (_ : RuntimeStep) x : Prop :=
  Forall (λ failure, fd_phase (ptf_detail failure) ≠ PhaseCondition) (failures_of x).

Lemma failures_of_bookkeeping x y : bookkeeping x y → failures_of y = failures_of x.
Proof.
  intros [_ Hb]. unfold failures_of, rounds_of.
  destruct (ss_recovery x) as [a|], (ss_recovery y) as [b|]; try done. by destruct Hb as (_ & _ & _ & ->).
Qed.

Lemma failures_of_push record x :
  failures_of (push_round record x) = failures_of x
  ∨ failures_of (push_round record x) = failures_of x ++ [rrr_failed_execution record].
Proof.
  unfold failures_of, rounds_of, push_round. simpl. destruct (ss_recovery x) as [v|]; simpl; [right|by left].
  by rewrite fmap_app.
Qed.

Lemma failures_of_recovering round kind n x : failures_of (recovering_node round kind n x) = failures_of x.
Proof.
  unfold failures_of, rounds_of. simpl. destruct (ss_recovery x) as [v|]; simpl; [|done].
  by apply fmap_update_last.
Qed.

Lemma rounds_in_phase_push s d record x :
  fd_phase (ptf_detail (rrr_failed_execution record)) ≠ PhaseCondition →
  rounds_in_phase s d x → rounds_in_phase s d (push_round record x).
Proof.
  unfold rounds_in_phase. intros Hr Hx. destruct (failures_of_push record x) as [->| ->]; [done|].
  apply Forall_app. by split; [|apply Forall_singleton].
Qed.

Lemma latest_in_phase st s d x failure :
  node_at st s d x → rounds_in_phase s d x → latest_target_failure st s = Some failure →
  fd_phase (ptf_detail failure) ≠ PhaseCondition.
Proof.
  intros [Hx _] Hok. unfold latest_target_failure. rewrite Hx. simpl. unfold rounds_in_phase, failures_of, rounds_of in Hok.
  destruct (ss_recovery x) as [v|]; simpl; [|done]. rewrite <-fmap_last. intros Hlast.
  rewrite Forall_forall in Hok. by apply Hok, last_Some_elem_of.
Qed.

Section phases.
Hypothesis Hlaw : failure_phase_law.

Lemma origin_in_phase st s d x detail :
  node_at st s d x → rounds_in_phase s d x → failure_origin st s detail → fd_phase detail ≠ PhaseCondition.
Proof.
  intros Hat Hok [(phase & cause & Hd & Hp)|(failure & Hf & ->)]; [by rewrite (Hlaw _ _ _ Hd)|].
  by eapply latest_in_phase.
Qed.

Lemma node_step_in_phase st s d x y : node_step st s d x y → rounds_in_phase s d x → rounds_in_phase s d y.
Proof.
  assert (Hexec : ∀ phase detail cause, execution_failure phase detail cause → fd_phase detail ≠ PhaseCondition).
  { intros phase detail cause [Hd Hp]. by rewrite (Hlaw _ _ _ Hd). }
  assert (Hbook : ∀ y z, bookkeeping y z → rounds_in_phase s d y → rounds_in_phase s d z).
  { intros y' z Hb. unfold rounds_in_phase. by rewrite (failures_of_bookkeeping _ _ Hb). }
  destruct 1; try done; intros Hx;
    try match goal with Hb : bookkeeping x ?y |- _ => exact (Hbook _ _ Hb Hx) end.
  - match goal with Hb : bookkeeping (push_round _ _) _ |- _ => apply (Hbook _ _ Hb) end.
    match goal with Hf : ∃ _ _, _ |- _ => destruct Hf as (phase & cause & Hf%Hexec) end.
    apply rounds_in_phase_push; [congruence|done].
  - apply (rounds_in_phase_push s d (round_record round e invocation phase detail cause)); [by eapply Hexec|done].
  - unfold rounds_in_phase. rewrite failures_of_recovering. apply (rounds_in_phase_push s d); [by eapply Hexec|done].
Qed.

(** ** Times of nodes *)

Context `{!TimeLibrary} (deadline_utc : Deadline → OffsetDateTime) (opened : ObservationTime).

Definition ended (entry : option ObservedStepTiming) : Prop :=
  ∃ times, entry = Some times ∧ is_Some (ost_finished times).

(** What the timing of a node says of its state. *)
Definition timed (entry : option ObservedStepTiming) (v : StepState Output) : Prop :=
  match v with
  | SPending | SInherited _ _ _ | SBlocked _ | SSkipped _ | SNotRun _ => entry = None
  | SStarting | SRunning | SCapturingOutputs | SRecovering _ _ | SCancelling _ =>
      ∃ times, entry = Some times ∧ ost_finished times = None
  | SSucceeded _ => ended entry
  | SFailed detail => if decide (fd_phase detail = PhaseCondition) then entry = None else ended entry
  | SCancelled _ => entry = None ∨ ended entry
  end.

Definition timing_ok h st : Prop :=
  ∀ log : list (Event * ObservationTime), log.*1 = h →
    ∀ s d x, node_at st s d x → timed (rts_steps (observed deadline_utc opened log) !! s) (ss_state x).

Lemma log_snoc h (log : list (Event * ObservationTime)) e :
  log.*1 = h ++ [e] → ∃ log' at_time, log = log' ++ [(e, at_time)] ∧ log'.*1 = h.
Proof.
  intros (log' & l & -> & Hl & ->)%fmap_app_inv. destruct l as [|[e' at_time] [|]]; simplify_eq/=.
  by exists log', at_time.
Qed.

(** The nodes after a change of one of them. *)
Lemma node_at_insert st st' s d x y t d' z :
  rs_definition st' = rs_definition st → rs_steps st' = <[s := y]> (rs_steps st) → node_at st s d x →
  node_at st' t d' z → t = s ∧ z = y ∧ d' = d ∨ t ≠ s ∧ node_at st t d' z.
Proof.
  intros HD Hs Hat [Hz Hd]. unfold def_step in Hd. rewrite HD in Hd. rewrite Hs in Hz.
  destruct (decide (t = s)) as [->|Hne].
  - rewrite lookup_insert_eq in Hz. left. destruct Hat as [_ Hat]. unfold def_step in Hat. naive_solver.
  - rewrite lookup_insert_ne in Hz by done. by right.
Qed.

Lemma timing_quiet h st st' s d x y :
  rs_definition st' = rs_definition st → rs_steps st' = <[s := y]> (rs_steps st) → node_at st s d x →
  ss_state y = ss_state x → timing_ok h st → timing_ok h st'.
Proof.
  intros HD Hs Hat Hy Hok log Hlog t d' z Hz.
  destruct (node_at_insert _ _ _ _ _ _ _ _ _ HD Hs Hat Hz) as [(-> & -> & ->)|[_ Hz']]; [|by eapply Hok].
  rewrite Hy. by eapply Hok.
Qed.

Lemma timing_step h st st' n s d x y role policy from :
  rs_definition st' = rs_definition st → rs_steps st' = <[s := y]> (rs_steps st) → node_at st s d x →
  (∀ entry at_time, timed entry (ss_state x) → timed (timed_entry (state_kind (ss_state y)) at_time entry) (ss_state y)) →
  timing_ok h st → timing_ok (h ++ [EvStep n s role policy from (state_kind (ss_state y))]) st'.
Proof.
  intros HD Hs Hat Hy Hok log (log' & at_time & -> & Hlog)%log_snoc t d' z Hz. rewrite observed_snoc, record_step.
  destruct (node_at_insert _ _ _ _ _ _ _ _ _ HD Hs Hat Hz) as [(-> & -> & ->)|[Hne Hz']].
  - rewrite decide_True by done. apply Hy. by eapply Hok.
  - rewrite decide_False by done. by eapply Hok.
Qed.

Lemma timing_other h st st' e :
  rs_definition st' = rs_definition st → rs_steps st' = rs_steps st →
  match e with EvStep _ _ _ _ _ _ => False | _ => True end →
  timing_ok h st → timing_ok (h ++ [e]) st'.
Proof.
  intros HD Hs He Hok log (log' & at_time & -> & Hlog)%log_snoc t d x [Hx Hd]. rewrite observed_snoc.
  replace (rts_steps (record deadline_utc e at_time (observed deadline_utc opened log')))
    with (rts_steps (observed deadline_utc opened log')).
  - eapply Hok; [done|]. split; [by rewrite <-Hs|]. unfold def_step in *. by rewrite <-HD.
  - unfold record. by destruct e; repeat case_match.
Qed.

Lemma timing_same h st st' :
  rs_definition st' = rs_definition st → rs_steps st' = rs_steps st → timing_ok h st → timing_ok h st'.
Proof.
  intros HD Hs Hok log Hlog t d x [Hx Hd]. eapply Hok; [done|]. split; [by rewrite <-Hs|].
  unfold def_step in *. by rewrite <-HD.
Qed.

(** The moves of a node. *)
Definition advances x y : Prop :=
  ∀ entry at_time, timed entry (ss_state x) → timed (timed_entry (state_kind (ss_state y)) at_time entry) (ss_state y).

Lemma timing_update h r s d x y acts :
  node_at (rd_state r) s d x → advances x y →
  timing_ok (h ++ rd_events r) (rd_state r) →
  timing_ok (h ++ rd_events (node_update r s d x y acts)) (rd_state (node_update r s d x y acts)).
Proof.
  intros Hat Hy Hok. cbn [node_update rd_events]. rewrite app_assoc.
  eapply timing_step; [by simpl; rewrite bump_definition|done..].
Qed.

Lemma timing_commit h r d issue :
  timing_ok (h ++ rd_events r) (rd_state r) →
  timing_ok (h ++ rd_events (commit_required_issue r d issue)) (rd_state (commit_required_issue r d issue)).
Proof.
  rewrite commit_required_issue_eq. destruct (committed_workflow _ _ _); [|done]. cbn [workflow_update rd_events].
  rewrite app_assoc. intros Hok. eapply timing_other; [..|done|exact Hok]; simpl; by rewrite ?bump_definition, ?bump_steps.
Qed.

Lemma advances_live x y :
  cancellable (ss_state x) = true → cancellable (ss_state y) = true ∨ state_kind (ss_state y) = KCancelling → advances x y.
Proof.
  intros Hx Hy entry at_time. destruct (ss_state x); try done; intros (t & -> & Ht);
    destruct (ss_state y); simpl; try (by destruct Hy); unfold timed_entry; simpl; eauto.
Qed.

Lemma advances_ended x y :
  is_active (ss_state x) = true →
  match ss_state y with
  | SSucceeded _ | SCancelled _ => True
  | SFailed detail => fd_phase detail ≠ PhaseCondition
  | _ => False
  end → advances x y.
Proof.
  assert (Hend : ∀ entry at_time, (∃ times, entry = Some times ∧ ost_finished times = None) →
    ended ((λ times, {| ost_started := ost_started times;
                        ost_finished := get_or_insert (ost_finished times) (obs_monotonic at_time) |}) <$> entry)).
  { intros entry at_time (times & -> & Ht). eexists. split; [done|]. simpl. eauto. }
  intros Hx Hy entry at_time Ht.
  assert (Ht' : ∃ times, entry = Some times ∧ ost_finished times = None) by by destruct (ss_state x).
  destruct (ss_state y); try done; unfold timed_entry; simpl.
  - by apply Hend.
  - rewrite decide_False by done. by apply Hend.
  - right. by apply Hend.
Qed.

Lemma advances_pending x y :
  ss_state x = SPending →
  match ss_state y with
  | SStarting | SBlocked _ | SSkipped _ | SNotRun _ | SCancelled _ => True
  | SFailed detail => fd_phase detail = PhaseCondition
  | _ => False
  end → advances x y.
Proof.
  intros Hx Hy entry at_time Ht. rewrite Hx in Ht. simpl in Ht. subst entry.
  destruct (ss_state y); try done; unfold timed_entry; simpl; eauto. by rewrite decide_True.
Qed.

Ltac workflow_events r Hok :=
  cbn [workflow_update rd_events rd_state]; rewrite app_assoc; apply (timing_other _ (rd_state r));
  [simpl; apply bump_definition|simpl; apply bump_steps|exact I|exact Hok].

Lemma internal_timing h r r' :
  internal r r' → timing_ok (h ++ rd_events r) (rd_state r) → timing_ok (h ++ rd_events r') (rd_state r').
Proof.
  intros Hi Hok. destruct Hi as [r' Hi|outcome|outcome summary exports].
  - destruct Hi as [s d x p Hat Hr|s d x p trace detail Hat Hr|s d x p reference pointer detail Hat Hr _ _ Hj
      |s d x detail Hat Hp|s d x detail Hat Hp|s d x Hat Hp|s d x Hat Hp];
      try pose proof (condition_gate_ready_pending _ _ _ _ Hat Hr) as Hp.
    + by eapply (timing_quiet _ (rd_state r) _ s d x); [..|exact Hok].
    + apply timing_update; [done|by apply advances_pending|done].
    + eapply timing_commit, timing_update; [done| |done]. apply advances_pending; [done|].
      unfold json_pointer_missing in Hj. by apply result_bind_Ok in Hj as (? & _ & [= <-]).
    + eapply timing_commit, timing_update; [done|by apply advances_pending|done].
    + apply timing_update; [done|by apply advances_pending|done].
    + apply timing_update; [done|by apply advances_pending|done].
    + apply timing_update; [done|by apply advances_pending|done].
  - destruct (finalization_entry (rd_state r) outcome) as [to f]. workflow_events r Hok.
  - workflow_events r Hok.
Qed.

Lemma external_timing h r r' :
  external r r' → wf (rd_state r) → each_node rounds_in_phase (rd_state r) →
  timing_ok (h ++ rd_events r) (rd_state r) → timing_ok (h ++ rd_events r') (rd_state r').
Proof.
  intros He Hwf Hphase Hok. destruct He as
    [s d x a Hat Hs Ha|s d x p Hat Hs Ho|s d x y z Hat Hs Ho Hy Hz|s d x y outputs Hat Hs Ho Hy
    |s d x y detail Hat Hc Hy Horigin|s d x y round e i phase detail cause Hat Ht Hrole Hav He Hy Hf
    |s d x round e i phase detail cause e' Hat Ht Hrole Hav He
    |s d x y round e i phase detail cause kind Hat Ht Hrole Hav ->|s d x y round a Hat Hs Ha Hy
    |s d x y round failure e' Hat Hs Hy Hf He|s d x reason Hat Hp Hrole
    |s d x y reason active a acts Hat Hc Ha Hrole Hy|s d x a acts Hat Hk
    |s d x y detail active reason Hat Hs Ha Hy|s x y Hx Ha Hy|a p|b|operation|gate reason deadline prior Hw Hg
    |trigger issue reason deadline Hw|gate Hw Hf|trigger gate issue Hw Hf];
    try (workflow_events r Hok).
  - apply timing_update; [done| |done]. apply advances_live; [by rewrite Hs|by left].
  - apply timing_update; [done| |done]. apply advances_live; [by rewrite Hs|by left].
  - subst y. eapply timing_update; [by eapply node_at_node| |].
    + by apply advances_ended.
    + apply timing_update; [done| |done]. apply advances_live; [by rewrite Hs|by left].
  - apply timing_update; [done| |done]. apply advances_ended; [by rewrite Hs|done].
  - apply timing_commit, timing_update; [done| |done]. apply advances_ended; [by destruct (ss_state x)|].
    simpl. eapply origin_in_phase; [done| |done]. by apply (Hphase s d x).
  - apply timing_commit, timing_update; [done| |done]. apply advances_ended; [by destruct (ss_state x)|].
    simpl. destruct Hf as [Hd Hp]. by rewrite (Hlaw _ _ _ Hd).
  - apply timing_update; [done| |done]. apply advances_live; [by destruct (ss_state x)|by left].
  - apply timing_update; [done| |done]. apply advances_live; [by destruct (ss_state x)|by left].
  - apply timing_update; [done| |done]. apply advances_live; [by rewrite Hs|by left].
  - apply timing_update; [done| |done]. apply advances_live; [by rewrite Hs|by left].
  - apply timing_update; [done| |done]. by apply advances_pending.
  - apply timing_update; [done| |done]. apply advances_live; [by destruct (ss_state x)|by right].
  - assert (Heq : ∀ r0, rd_events (foldr push_action r0 acts) = rd_events r0 ∧ rd_state (foldr push_action r0 acts) = rd_state r0)
      by (intros r0; induction acts as [|b acts IH]; [done|exact IH]).
    destruct (Heq (quiet_update r s (set_action (Some a) x))) as [-> ->].
    by eapply (timing_quiet _ (rd_state r) _ s d x); [..|exact Hok].
  - apply timing_update; [done| |done]. apply advances_ended; [by rewrite Hs|done].
  - destruct (wf_defined _ _ _ Hwf Hx) as [d Hd]. eapply (timing_quiet _ (rd_state r) _ s d x); [done..| |exact Hok]. by apply bookkeeping_state.
  - done.
  - done.
  - by eapply (timing_same _ (rd_state r)); [..|exact Hok].
Qed.

Lemma history_timing D seed h st :
  definition_wf D → history D seed h st → timing_ok h st.
Proof.
  intros HD Hrec. apply (history_invariant (λ h st, each_node rounds_in_phase st ∧ timing_ok h st)) in Hrec as [_ ?]; [done|..|done].
  - split; [intros s d x [Hx Hd]|intros log Hlog s d x [Hx Hd]]; rewrite initial_lookup in Hx by done;
      unfold def_step in Hd; simpl in Hd; rewrite Hd in Hx; injection Hx as <-.
    + unfold rounds_in_phase, failures_of, rounds_of. simpl. destruct (bt_get seed s); [done|]. by destruct (rt_recovery d).
    + apply fmap_nil_inv in Hlog as ->. simpl. by destruct (bt_get seed s).
  - intros h' r r' Hm Hwf _ [Hp Hok]. split.
    + apply (each_node_move rounds_in_phase r r'); [|done|done|done]. intros st0 s d x y _ _ _. apply node_step_in_phase.
    + destruct Hm; [by eapply internal_timing|by eapply external_timing].
Qed.
End phases.
End history.
