(* ===== verification/Scheduling.v ===== *)
(** * Scheduling

    How many nodes run at once, what holds of a node that was started, and
    what an accepted cancellation does to the nodes of its phase. *)

From S2P Require Import Prelude Text Nodes Evidence Condition Validated Runtime Reducer Moves Refinement Views Stabilize Occurrences Runs NodeSteps NodeInvariants Phases.

Section scheduling.
Context {Provisional Cause Output Deadline : Type}.
Context `{!SerdeJson, !NodeFailureSource Cause, !ConditionOutput Output,
          !ProvisionalStepResources Provisional}.

Local Abbreviation State := (RuntimeState Cause Output Deadline).
Local Abbreviation Red := (Reduction Provisional Cause Output Deadline).
Local Abbreviation Step := (StepRuntimeState Cause Output).

Implicit Types (st : State) (r : Red) (x y : Step) (s t : string) (d : RuntimeStep) (D : RuntimeDefinition).

(** ** Parallelism *)

Lemma node_step_active st s d x y :
  node_step st s d x y → is_active (ss_state y) = true →
  is_active (ss_state x) = true ∨ active_count st < def_maximum_parallel_steps (rs_definition st).
Proof.
  destruct 1 as [Hp|detail Hp|detail Hp|detail Hp|detail Hp Hr|detail Hp Hr|n Hp Hg Hr Hmax|a Hs Ha|a Hs|y outputs Hs Ho Hb
    |y detail Hc Hb|y detail record round e i Ht Hav He Hb|n round e i phase detail cause e' Ht Hrole Hav He
    |n round e i phase detail cause kind Ht Hrole Hav|y round a Hs Ha Hb|n y round failure e' Hs Hb Hf He
    |y reason active a Hc Ha Hrole Hb|a Hk|y detail reason Hs Hb|y Ha Hb]; simpl; intros Hact;
    try done; try (by right); try (left; by rewrite Hs); left.
  all: by destruct (ss_state x).
Qed.

Definition parallel_ok st : Prop := active_count st <= def_maximum_parallel_steps (rs_definition st).

Lemma move_parallel r r' : move r r' → wf (rd_state r) → parallel_ok (rd_state r) → parallel_ok (rd_state r').
Proof.
  intros Hm Hwf Hok. unfold parallel_ok in *. rewrite (move_definition _ _ Hm).
  destruct (move_changed _ _ Hwf Hm) as [(s & d & x & y & Hat & Hstep & Hst & _)|[Hst _]].
  - pose proof (active_count_insert _ _ _ _ _ Hst (proj1 Hat)) as Hcount.
    pose proof (node_step_active _ _ _ _ _ Hstep) as Hact.
    destruct (is_active (ss_state y)), (is_active (ss_state x)); simpl in Hcount;
      try (destruct (Hact eq_refl); [done|]); lia.
  - unfold active_count in *. by rewrite Hst.
Qed.

Lemma initial_parallel D (seed : ExecutionSeed Output) :
  definition_wf D → parallel_ok (initial_state (Cause := Cause) (Deadline := Deadline) D seed).
Proof.
  intros Hwf. unfold parallel_ok, active_count.
  replace (length _) with 0; [lia|]. symmetry. apply length_zero_iff_nil.
  destruct (List.filter _ _) as [|[s x] l] eqn:Hf; [done|]. exfalso.
  assert (Hin : In (s, x) (List.filter (λ '(_, x), is_active (ss_state x))
    (map_to_list (rs_steps (initial_state (Cause := Cause) (Deadline := Deadline) D seed))))) by (rewrite Hf; by left).
  apply filter_In in Hin as [Hin%list_elem_of_In%elem_of_map_to_list Hact].
  rewrite initial_lookup in Hin by done. destruct (bt_get (def_steps D) s); simplify_eq/=.
  by destruct (bt_get seed s).
Qed.

(** ** Started nodes *)

(** What the code checked before it started a node. *)
Definition start_conditions st d : Prop :=
  match rt_role d with
  | RoleStep => forallb (ordinary_prerequisite_satisfied st) (rt_prerequisites d) = true
  | RoleFinalizer =>
      forallb (λ p, step_is is_terminal st (rdp_producer p)) (rt_prerequisites d) = true
      ∧ unavailable_references st d = []
      ∧ ∃ f, rs_finalization st = Some f ∧ fnr_trigger f ∈ rt_when d
  end.

Definition started_ok st : Prop :=
  ∀ s d x, node_at st s d x → is_Some (ss_target_execution x) → start_conditions st d.

Lemma node_ready_start st s d :
  node_ready st (rt_role d) s d = true → start_conditions st d.
Proof.
  unfold node_ready, start_conditions. destruct (rt_role d).
  - by intros [_ ?]%andb_prop.
  - intros [Hready ?%bool_decide_eq_true]%andb_prop. unfold finalizer_ready in Hready.
    destruct (rs_finalization st) as [f|]; [|done].
    apply andb_prop in Hready as [[_ ?%bool_decide_eq_true]%andb_prop ?]. eauto.
Qed.

Lemma unavailable_references_extends st st' d :
  extends st st' → unavailable_references st d = [] → unavailable_references st' d = [].
Proof.
  intros He Hnil. unfold unavailable_references in *.
  induction (rt_evidence_prerequisites d) as [|p ps IH]; [done|]. simpl in *.
  destruct (unavailable_reference st p) as [ref|] eqn:Hp; [done|].
  assert (unavailable_reference st' p = None) as ->; [|by apply IH].
  destruct p as [| |ref]; simpl in *; [done..|].
  destruct (output_reference_producer ref) as [producer|]; simpl in *; [|done].
  destruct (step_is step_data_available st producer) eqn:Ha; [|done].
  by rewrite (step_is_extends step_data_available st st' producer data_available_terminal He Ha).
Qed.

Lemma start_conditions_extends st st' d :
  extends st st' →
  (∀ f, rs_finalization st = Some f → ∃ f', rs_finalization st' = Some f' ∧ fnr_trigger f' = fnr_trigger f) →
  start_conditions st d → start_conditions st' d.
Proof.
  intros He Hf. unfold start_conditions. destruct (rt_role d).
  - by apply prerequisites_satisfied_extends.
  - intros (Hp & Hu & f & Hf' & Hin). split_and!.
    + revert Hp. apply forallb_impl. intros p. by apply step_is_extends.
    + by eapply unavailable_references_extends.
    + destruct (Hf _ Hf') as (f' & ? & Ht). exists f'. by rewrite Ht.
Qed.

Lemma node_step_started st s d x y :
  node_at st s d x → node_ok s d x → node_step st s d x y → is_Some (ss_target_execution y) →
  is_Some (ss_target_execution x) ∨ start_conditions st d.
Proof.
  intros Hat [_ Hact].
  destruct 1 as [Hp|detail Hp|detail Hp|detail Hp|detail Hp Hr|detail Hp Hr|n Hp Hg Hr Hmax|a Hs Ha|a Hs|y outputs Hs Ho Hb
    |y detail Hc Hb|y detail record round e i Ht Hav He Hb|n round e i phase detail cause e' Ht Hrole Hav He
    |n round e i phase detail cause kind Ht Hrole Hav|y round a Hs Ha Hb|n y round failure e' Hs Hb Hf He
    |y reason active a Hc Ha Hrole Hb|a Hk|y detail reason Hs Hb|y Ha Hb]; simpl; intros Hsome;
    try (by left); try (left; destruct Hb as [Hb _]; rewrite Hb in Hsome; exact Hsome).
  - right. by apply (node_ready_start st s).
  - left. apply recovery_round_available_spec in Hav as (x' & v & Hx & _ & Hte & _).
    pose proof (proj1 Hat). simplify_eq. eauto.
  - left. unfold activity_ok in Hact. rewrite Hs in Hact. destruct Hact as (_ & _ & _ & _ & -> & _). eauto.
Qed.

(** Along a move the finalization record keeps its trigger. *)
Lemma move_trigger r r' f :
  wf (rd_state r) → phase_ok (rd_state r) → move r r' → rs_finalization (rd_state r) = Some f →
  ∃ f', rs_finalization (rd_state r') = Some f' ∧ fnr_trigger f' = fnr_trigger f.
Proof.
  intros Hwf Hok Hm Hf.
  destruct (move_changed _ _ Hwf Hm) as [(s & d & x & y & _ & _ & _ & _ & Hf' & _)|[_ (es & _ & Hrun)]];
    [rewrite Hf'; eauto|].
  destruct Hrun as [_ Hf' _ _|outcome f' n to Hex _ _ _ _ _ _ _|outcome summary exports n to _ _ _ _ Hf' _
      |gate reason prior n deadline _ _ _ Hf' _ _|trigger issue reason deadline n _ _ Hf' _ _|gate n _ _ _ _ Hf' _
      |trigger gate issue n _ _ _ _ Hf' _]; try (rewrite Hf', Hf; simpl; by eauto).
  unfold phase_ok in Hok. destruct (rs_workflow (rd_state r)); try done. destruct Hok as (_ & Hnone & _). congruence.
Qed.

Lemma move_started r r' :
  move r r' → wf (rd_state r) → each_node node_ok (rd_state r) → phase_ok (rd_state r) →
  started_ok (rd_state r) → started_ok (rd_state r').
Proof.
  intros Hm Hwf Hnodes Hphase Hok s d x [Hx Hd] Hsome. unfold def_step in Hd. rewrite (move_definition _ _ Hm) in Hd.
  assert (Hcond : start_conditions (rd_state r) d → start_conditions (rd_state r') d).
  { apply start_conditions_extends; [by apply move_extends|]. intros f Hf. by eapply move_trigger. }
  destruct (move_changed _ _ Hwf Hm) as [(s' & d' & x' & y & Hat & Hstep & Hst & _)|[Hst _]]; rewrite Hst in Hx.
  - destruct (decide (s = s')) as [->|].
    + rewrite lookup_insert_eq in Hx. simplify_eq. pose proof (proj2 Hat) as Hd'. unfold def_step in Hd'. simplify_eq.
      apply Hcond. destruct (node_step_started _ _ _ _ _ Hat (Hnodes _ _ _ Hat) Hstep Hsome); [|done].
      by eapply Hok.
    + rewrite lookup_insert_ne in Hx by done. apply Hcond. by eapply (Hok s).
  - apply Hcond. by eapply (Hok s).
Qed.

Lemma reachable_started D st : definition_wf D → reachable (Provisional := Provisional) D st → started_ok st.
Proof.
  intros Hwf Hr.
  apply (reachable_invariant (λ st, each_node node_ok st ∧ phase_ok st ∧ started_ok st) D st) in Hr as [(_ & _ & ?) _];
    [done|..|done].
  - intros seed Hs. split_and!; [by apply initial_node_ok|by apply initial_phase_ok|].
    intros s d x [Hx Hd] [e He]. rewrite initial_lookup in Hx by done. unfold def_step in Hd. simpl in Hd.
    rewrite Hd in Hx. by simplify_eq/=.
  - intros r r' Hm Hw _ (Hn & Hp & Hs). split_and!.
    + apply (each_node_move node_ok r r'); [|done..]. intros st' s d x y Hw' _. by apply node_step_ok.
    + by eapply move_phase_ok.
    + by eapply move_started.
Qed.

(** ** Contained nodes *)

(** A node a cancellation has dealt with. *)
Definition contained (v : StepState Output) : bool := bool_decide (state_kind v = KCancelling) || is_terminal v.

Lemma node_step_contained st s d x y :
  node_step st s d x y → contained (ss_state x) = true → contained (ss_state y) = true.
Proof.
  intros Hstep Hc. pose proof (node_step_live _ _ _ _ _ Hstep) as Hlive. unfold contained in Hc.
  rewrite Hlive, orb_false_r in Hc. apply bool_decide_eq_true in Hc.
  destruct Hstep as [Hp|detail Hp|detail Hp|detail Hp|detail Hp Hr|detail Hp Hr|n Hp Hg Hr Hmax|a Hs Ha|a Hs|y outputs Hs Ho Hb
    |y detail Hcc Hb|y detail record round e i Ht Hav He Hb|n round e i phase detail cause e' Ht Hrole Hav He
    |n round e i phase detail cause kind Ht Hrole Hav|y round a Hs Ha Hb|n y round failure e' Hs Hb Hf He
    |y reason active a Hcc Ha Hrole Hb|a Hk|y detail reason Hs Hb|y Ha Hb];
    try (by rewrite Hp in Hc); try (by rewrite Hs in Hc); try (by destruct (ss_state x)); try done.
  - unfold contained. simpl. by rewrite Hc.
  - unfold contained. rewrite (bookkeeping_state _ _ Hb), Hc. done.
Qed.

Definition role_contained role st : Prop := all_of st role (λ v, contained v = true).

Lemma move_contained role r r' :
  move r r' → wf (rd_state r) → role_contained role (rd_state r) → role_contained role (rd_state r').
Proof.
  intros Hm Hwf Hall. pose proof (move_definition _ _ Hm) as HD.
  destruct (move_changed _ _ Hwf Hm) as [(s & d & x & y & Hat & Hstep & Hst & _)|[Hst _]].
  - eapply all_of_changed; [done..|]. intros _. by eapply node_step_contained.
  - by eapply all_of_same.
Qed.

Lemma moves_contained role r r' :
  rtc move r r' → wf (rd_state r) → role_contained role (rd_state r) → role_contained role (rd_state r').
Proof.
  intros Hm Hwf Hc.
  by apply (moves_invariant (role_contained role) (rs_definition (rd_state r)) r r') in Hm as [? _];
    [|intros; by eapply move_contained|..].
Qed.
End scheduling.
