(* ===== verification/Containment.v ===== *)
(** * Accepted and rejected occurrences

    An accepted cancellation leaves no node of its phase pending or working;
    a rejected occurrence leaves the run as it was. *)

From S2P Require Import Prelude Text Nodes Evidence Condition Validated Runtime Reducer Moves Refinement Views Stabilize Occurrences Runs NodeSteps NodeInvariants Phases Scheduling.

Section containment.
Context {Provisional Cause Output Deadline : Type}.
Context `{!SerdeJson, !NodeFailureSource Cause, !ConditionOutput Output,
          !ProvisionalStepResources Provisional}.

Local Abbreviation State := (RuntimeState Cause Output Deadline).
Local Abbreviation Red := (Reduction Provisional Cause Output Deadline).
Local Abbreviation Step := (StepRuntimeState Cause Output).
Local Abbreviation Occ := (Occurrence Provisional Cause Output Deadline).

Implicit Types (st : State) (r : Red) (x y : Step) (s t : string) (d : RuntimeStep) (D : RuntimeDefinition).

(** ** Containment *)

(** A node [cancel_nodes] will go through, with consistent bookkeeping. *)
Definition containable st role (node : string * StepStateKind) : Prop :=
  ∃ d x, node_at st node.1 d x ∧ rt_role d = role ∧ node.2 = state_kind (ss_state x) ∧ activity_ok x.

(** What a cancellation makes of the state of a node. *)
Definition cancelled_from (reason : CancellationReason) (v w : StepState Output) : Prop :=
  match v with
  | SPending => w = SCancelled (cancellation_detail reason)
  | SStarting | SRunning | SCapturingOutputs | SRecovering _ _ => w = SCancelling (cancellation_detail reason)
  | _ => w = v
  end.

Definition cancelled_at reason st st' s : Prop :=
  ∃ x x', rs_steps st !! s = Some x ∧ rs_steps st' !! s = Some x'
    ∧ cancelled_from reason (ss_state x) (ss_state x').

Lemma cancelled_from_contained reason (v w : StepState Output) : cancelled_from reason v w → contained w = true.
Proof. by destruct v; simpl; intros ->. Qed.

Lemma cancellable_active x :
  cancellable (ss_state x) = true → activity_ok x → is_Some (ss_active_invocation x).
Proof. unfold activity_ok. destruct (ss_state x); try done; intros _ Hact; destruct_and! Hact; naive_solver. Qed.

Lemma cancel_active_cancelled reason force graceful r i s d x :
  node_at (rd_state r) s d x → cancellable (ss_state x) = true → activity_ok x →
  cancelled_at reason (rd_state r) (rd_state (cancel_active reason force graceful r i s).1) s.
Proof.
  intros Hat Hc Hact. unfold cancel_active. rewrite (proj1 Hat). cbn [mbind option_bind].
  destruct (cancellable_active x Hc Hact) as [active ->].
  destruct (booked_transition r _ s d x (SCancelling (cancellation_detail reason)) None Hat
              (mark_handler_cancelled_booked r s x active (proj1 Hat))) as (y & Hy & _ & ->).
  unfold set_current_action.
  destruct force as [[operation deadline]|]; [|destruct graceful as [deadline|]]; cbn [fst];
    rewrite node_update_update by done; rewrite ?node_update_push; exists x; eexists;
    (split; [apply Hat|]); (split; [apply node_update_lookup|]); by destruct (ss_state x).
Qed.

Lemma cancel_node_cancelled role reason force graceful r i s kind :
  containable (rd_state r) role (s, kind) →
  cancelled_at reason (rd_state r) (rd_state (cancel_node reason force graceful (r, i) (s, kind)).1) s.
Proof.
  intros (d & x & Hat & <- & Hk & Hact). cbn [fst snd] in *.
  assert (Hsame : cancelled_from reason (ss_state x) (ss_state x) → cancelled_at reason (rd_state r) (rd_state r) s)
    by (intros; exists x, x; split_and!; [apply Hat..|done]).
  unfold cancel_node.
  destruct kind; try (apply Hsame; by destruct (ss_state x));
    try (eapply cancel_active_cancelled; [done| |done]; by destruct (ss_state x)).
  - cbn [fst]. erewrite transition_step_eq by done. cbn [snd]. exists x. eexists.
    split; [apply Hat|]. split; [apply node_update_lookup|]. by destruct (ss_state x).
  - assert (Hc : cancelled_from reason (ss_state x) (ss_state x)) by by destruct (ss_state x).
    destruct force as [[operation deadline]|]; [|by apply Hsame].
    unfold contain_cancelling, set_current_action. rewrite (update_step_eq _ _ x) by apply Hat.
    rewrite quiet_update_lookup. cbn [mbind option_bind].
    destruct (ss_active_invocation _); cbn [fst]; exists x; eexists;
      (split; [apply Hat|]); (split; [apply quiet_update_lookup|exact Hc]).
Qed.

Lemma cancel_loop_cancelled role reason force graceful nodes r i :
  closing (rd_state r) role reason (bool_decide (is_Some force)) →
  NoDup nodes.*1 → Forall (containable (rd_state r) role) nodes →
  let r' := (foldl (cancel_node reason force graceful) (r, i) nodes).1 in
  (∀ s, s ∈ nodes.*1 → cancelled_at reason (rd_state r) (rd_state r') s)
  ∧ ∀ s, s ∉ nodes.*1 → rs_steps (rd_state r') !! s = rs_steps (rd_state r) !! s.
Proof.
  revert r i. induction nodes as [|[s kind] nodes IH]; intros r i Hrole Hnd Hall; [by split; [intros ? ?%elem_of_nil|]|].
  apply NoDup_cons in Hnd as [Hnin Hnd]. apply Forall_cons in Hall as [Hs Hall].
  pose proof (cancel_node_cancelled role reason force graceful r i s kind Hs) as Hcont.
  destruct (cancel_node_moves role reason force graceful r i s kind Hrole) as [_ (Ho & Hd & Hw & Hf)].
  { destruct Hs as (d & x & ? & ? & ? & _). by exists d, x. }
  cbn [foldl]. destruct (cancel_node reason force graceful (r, i) (s, kind)) as [r' i']. cbn [fst] in *.
  destruct (IH r' i') as [H1 H2]; [by eapply closing_same|done| |].
  { rewrite Forall_forall in Hall |- *. intros node Hin.
    destruct (Hall node Hin) as (d & x & [Hx Hdx] & ? & ? & ?). exists d, x. split; [|done]. split.
    - rewrite Ho; [done|]. intros Heq. apply Hnin. rewrite <-Heq. apply list_elem_of_fmap. by exists node.
    - unfold def_step. by rewrite Hd. }
  split; intros t Ht; rewrite fmap_cons in Ht; cbn [fst] in Ht.
  - destruct (decide (t = s)) as [->|Hne].
    + destruct Hcont as (x & x' & Hx & Hx' & Hc). exists x, x'. split_and!; [done| |done]. by rewrite H2.
    + apply elem_of_cons in Ht as [|Ht]; [done|]. destruct (H1 t Ht) as (x & x' & Hx & Hx' & Hc).
      exists x, x'. split_and!; [|done..]. by rewrite <-Ho.
  - apply not_elem_of_cons in Ht as [? ?]. rewrite H2 by done. by apply Ho.
Qed.

Lemma role_nodes_containable st role :
  wf st → each_node node_ok st → Forall (containable st role) (role_nodes st role).
Proof.
  intros Hwf Hn. pose proof (role_nodes_listed st role Hwf) as Hall.
  eapply Forall_impl; [exact Hall|]. intros node (d & x & Hat & Hr & Hk). exists d, x.
  split_and!; [done..|]. by apply (Hn _ _ _ Hat).
Qed.

Lemma role_nodes_complete st role s d x :
  node_at st s d x → rt_role d = role → s ∈ (role_nodes st role).*1.
Proof.
  intros [Hx Hd] Hrole. apply list_elem_of_fmap. exists (s, state_kind (ss_state x)). split; [done|].
  apply list_elem_of_omap. exists (s, d). split; [by apply bt_get_elem_of|].
  rewrite bool_decide_eq_true_2 by done. by rewrite Hx.
Qed.

(** A cancellation moves exactly the nodes of the role that still work. *)
Lemma cancel_nodes_cancelled r role reason deadline force operation :
  wf (rd_state r) → each_node node_ok (rd_state r) → closing (rd_state r) role reason force →
  force = false ∨ is_Some operation →
  let st' := rd_state (cancel_nodes r role reason (Some deadline) force operation) in
  ∀ s d x, node_at (rd_state r) s d x →
    if decide (rt_role d = role) then cancelled_at reason (rd_state r) st' s
    else rs_steps st' !! s = rs_steps (rd_state r) !! s.
Proof.
  intros Hwf Hn Hrole Hforce st' s d x Hat.
  assert (Hrun : ∀ fc, bool_decide (is_Some fc) = force →
    st' = rd_state (foldl (cancel_node reason fc (if force then None else Some deadline))
      (r, 1%N) (role_nodes (rd_state r) role)).1 →
    if decide (rt_role d = role) then cancelled_at reason (rd_state r) st' s
    else rs_steps st' !! s = rs_steps (rd_state r) !! s).
  { intros fc Hfc ->. rewrite <-Hfc in Hrole. destruct (cancel_loop_cancelled role reason fc (if force then None else Some deadline)
      (role_nodes (rd_state r) role) r 1 Hrole (role_nodes_NoDup _ _ Hwf) (role_nodes_containable _ _ Hwf Hn)) as [Hc Ho].
    case_decide as Hr; [apply Hc; by eapply role_nodes_complete|]. apply Ho.
    intros (node & -> & Hin)%list_elem_of_fmap. pose proof (role_nodes_listed (rd_state r) role Hwf) as Hl.
    rewrite Forall_forall in Hl. destruct (Hl node Hin) as (d' & x' & [_ Hd'] & ? & _). destruct Hat as [_ Hd]. congruence. }
  destruct force.
  - destruct operation as [operation|]; [|by destruct Hforce as [|[? ?]]]. by apply (Hrun (Some (operation, deadline))).
  - by apply (Hrun None).
Qed.

(** Every node of the role is contained afterwards. *)
Lemma cancel_nodes_contained r role reason deadline force operation :
  wf (rd_state r) → each_node node_ok (rd_state r) → closing (rd_state r) role reason force →
  force = false ∨ is_Some operation →
  role_contained role (rd_state (cancel_nodes r role reason (Some deadline) force operation)).
Proof.
  intros Hwf Hn Hrole Hforce s d x [Hx Hd] Hr.
  destruct (external_moves_same _ _ (cancel_nodes_moves r role reason (Some deadline) force operation Hwf Hrole)) as [HD Hnodes].
  unfold def_step in Hd. rewrite HD in Hd. destruct (proj1 (Hnodes s)) as [x0 Hx0]; [eauto|].
  pose proof (cancel_nodes_cancelled r role reason deadline force operation Hwf Hn Hrole Hforce s d x0 (conj Hx0 Hd)) as Hc.
  rewrite decide_True in Hc by done. destruct Hc as (x1 & x' & _ & Hx' & Hc). simplify_eq.
  by eapply cancelled_from_contained.
Qed.

(** Runs with the same nodes share the node invariants. *)
Lemma same_nodes_transfer st st' :
  rs_definition st' = rs_definition st → rs_steps st' = rs_steps st →
  (wf st → wf st') ∧ (each_node node_ok st → each_node node_ok st').
Proof.
  intros HD Hs. split.
  - intros [Hw Hdef]. split; [by rewrite HD|]. intros t. unfold def_step. rewrite HD, Hs. apply Hdef.
  - intros Hn s d x [Hx Hd]. apply (Hn s d x). split; [by rewrite <-Hs|]. unfold def_step in *. by rewrite <-HD.
Qed.

Lemma record_operation_nodes operation st :
  rs_definition (record_operation operation st) = rs_definition st
  ∧ rs_steps (record_operation operation st) = rs_steps st
  ∧ rs_workflow (record_operation operation st) = rs_workflow st.
Proof. by destruct operation. Qed.

(** The phase a run is in. *)
Definition phase_role (w : WorkflowState Deadline) : WorkflowNodeRole :=
  if is_executing w then RoleStep else RoleFinalizer.

(** An accepted cancellation or force abort: an event is logged and the gate
    is closed, then the nodes of the phase are cancelled. *)
Inductive acceptance r (role : WorkflowNodeRole) (reason : CancellationReason) (force : bool) (r' : Red) : Prop :=
| acceptance_intro closed deadline operation event :
    r' = cancel_nodes closed role reason (Some deadline) force operation →
    phase_role (rs_workflow (rd_state r)) = role →
    rs_steps (rd_state closed) = rs_steps (rd_state r) →
    rs_definition (rd_state closed) = rs_definition (rd_state r) →
    closing (rd_state closed) role reason force →
    force = false ∨ is_Some operation →
    rd_events closed = (rd_events r ++ [event])%list →
    (∀ n cause deadline,
       event = EvCancellationAccepted n cause deadline ∨ event = EvFinalizationCancellationAccepted n cause deadline →
       cause = reason ∧ force = false) →
    acceptance r role reason force r'.

Lemma ordinary_cancellation_accepted r c operation r' :
  apply_ordinary_cancellation r c operation = (true, r') → acceptance r RoleStep (cr_reason c) false r'.
Proof.
  intros Happly. unfold apply_ordinary_cancellation in Happly.
  destruct (record_operation_nodes operation (rd_state r)) as (HD & Hs & _).
  destruct (rs_workflow (rd_state r)) as [[| |]| | | |] eqn:Hw; try done; cbv zeta beta in Happly;
    rewrite next_sequence_eq in Happly; apply (f_equal snd) in Happly; cbn [snd] in Happly;
    (eapply acceptance_intro; [by symmetry|by rewrite Hw| | | |by left|reflexivity|]);
    try (by simpl; rewrite ?bump_definition, ?bump_steps);
    try (unfold closing, cancel_reason; simpl; rewrite bump_workflow; simpl; split_and!; [done|by left|done]);
    by intros ? ? ? [[=]|[=]].
Qed.

Lemma finalization_cancellation_accepted r c operation r' :
  apply_finalization_cancellation r c operation = (true, r') → acceptance r RoleFinalizer (cr_reason c) false r'.
Proof.
  unfold apply_finalization_cancellation.
  destruct (record_operation_nodes operation (rd_state r)) as (HD & Hs & Hw). rewrite Hw.
  destruct (rs_workflow (rd_state r)) as [|trigger gate issue| | |] eqn:Hw'; try done. rewrite next_sequence_eq. intros Happly.
  apply (f_equal snd) in Happly. cbn [snd] in Happly.
  eapply acceptance_intro; [by symmetry|by rewrite Hw'| | | |by left|reflexivity|].
  - by simpl; rewrite ?bump_steps.
  - by simpl; rewrite ?bump_definition.
  - unfold closing, cancel_reason; simpl. rewrite bump_workflow. simpl. split_and!; [done|by left|done].
  - by intros ? ? ? [[=]|[=]].
Qed.

Lemma force_abort_accepted r operation deadline r' :
  apply_force_abort r operation deadline = (true, r') →
  acceptance r (phase_role (rs_workflow (rd_state r))) ForceAbort true r'.
Proof.
  unfold apply_force_abort. case_decide; [done|].
  destruct (rs_workflow (rd_state r)) as [gate|trigger gate issue| | |] eqn:Hw; try done; rewrite next_sequence_eq;
    intros Happly; apply (f_equal snd) in Happly; cbn [snd] in Happly;
    (eapply acceptance_intro; [by symmetry|by rewrite Hw| | | |right; eauto|reflexivity|]);
    try (by simpl; rewrite ?bump_definition, ?bump_steps);
    try (by intros ? ? ? [[=]|[=]]).
  - unfold closing, cancel_reason, aborting, ordinary_force_abort; simpl.
    rewrite bump_workflow, bump_force_abort. simpl. split_and!; [by destruct gate|by right|done].
  - unfold closing, cancel_reason, aborting; simpl. rewrite bump_workflow. simpl.
    split_and!; [by destruct gate|right; by destruct gate|by destruct gate].
Qed.

Lemma cancellation_accepted r c operation r' :
  apply_cancellation r c operation = (true, r') →
  acceptance r (phase_role (rs_workflow (rd_state r))) (cr_reason c) false r'.
Proof.
  unfold apply_cancellation, phase_role. destruct (rs_workflow (rd_state r)) as [gate|trigger [|] issue| | |] eqn:Hw; try done.
  - by apply ordinary_cancellation_accepted.
  - by apply finalization_cancellation_accepted.
Qed.

(** An acceptance cancels exactly the working nodes of the phase. *)
Lemma acceptance_cancelled r role reason force r' :
  wf (rd_state r) → each_node node_ok (rd_state r) → acceptance r role reason force r' →
  (∀ s d x, node_at (rd_state r) s d x →
    if decide (rt_role d = role) then cancelled_at reason (rd_state r) (rd_state r') s
    else rs_steps (rd_state r') !! s = rs_steps (rd_state r) !! s)
  ∧ role_contained role (rd_state r').
Proof.
  intros Hwf Hn [r1 deadline operation e -> Hrole Hs HD Hcl Hk _ _].
  destruct (same_nodes_transfer (rd_state r) (rd_state r1) HD Hs) as [Hwf1%(λ f, f Hwf) Hn1%(λ f, f Hn)].
  split; [|by apply cancel_nodes_contained]. intros s d x [Hx Hd].
  unfold cancelled_at. rewrite <-Hs. apply (cancel_nodes_cancelled r1 role reason deadline force operation Hwf1 Hn1 Hcl Hk s d x).
  split; [by rewrite Hs|]. unfold def_step in *. by rewrite HD.
Qed.

(** ** Acceptance *)

Lemma internal_accepted r r' : internal r r' → rd_occurrence_accepted r' = rd_occurrence_accepted r.
Proof.
  destruct 1 as [r' Hi| |]; [destruct Hi|..]; try done; try (by destruct (finalization_entry _ _));
    rewrite commit_required_issue_eq; by destruct (committed_workflow _ _ _).
Qed.

Lemma internal_moves_accepted r r' : rtc internal r r' → rd_occurrence_accepted r' = rd_occurrence_accepted r.
Proof. induction 1 as [|? ? ? Hi]; [done|]. by rewrite <-(internal_accepted _ _ Hi). Qed.

(** [reduce] of an unfinished run: rejected as applied, or stabilised. *)
Lemma reduce_cases st (o : Occ) :
  wf st → is_finished (rs_workflow st) = false →
  (∃ r, apply_occurrence (begin st) o = (false, r) ∧ reduce st o = r)
  ∨ ∃ r, apply_occurrence (begin st) o = (true, r) ∧ reduce st o = stabilize (set_accepted true r)
      ∧ rd_occurrence_accepted (reduce st o) = true ∧ rtc internal (set_accepted true r) (reduce st o).
Proof.
  intros Hwf Hfin. unfold reduce. rewrite Hfin.
  pose proof (apply_occurrence_moves (begin st) o Hwf) as Hm.
  destruct (apply_occurrence (begin st) o) as [[] r]; cbn [negb snd] in *; [right|left; eauto].
  exists r. assert (Hs : rtc internal (set_accepted true r) (stabilize (set_accepted true r))).
  { apply stabilize_moves. simpl. by apply (same_nodes_wf (begin st) r); [apply external_moves_same|]. }
  split_and!; [done..| |done]. by rewrite (internal_moves_accepted _ _ Hs).
Qed.

(** ** Rejection *)

(** Nothing of the run changed. *)
Definition unchanged st r : Prop := rd_state r = st ∧ rd_events r = [] ∧ rd_occurrence_accepted r = false.

Lemma step_failure_rejected st s a kind phase cause r :
  apply_step_failure (begin st) s a kind phase cause = (false, r) → unchanged st r.
Proof.
  unfold apply_step_failure. destruct (step_accepts _ _ _ _); cbn [negb]; [|by intros [= <-]].
  destruct (def_step _ s) as [d|]; [|by intros [= <-]].
  destruct (node_failure_detail cause phase); [|by intros [= <-]].
  case_decide; [destruct (activate_recovery_round _ _ _ _ _) as [[] ?]|]; done.
Qed.

Lemma handler_failure_rejected st s round a expected phase cause r :
  apply_handler_failure (begin st) s round a expected phase cause = (false, r) → unchanged st r.
Proof.
  unfold apply_handler_failure. destruct (handler_accepts _ _ _ _ _); cbn [negb]; [done|by intros [= <-]].
Qed.

(** A recheck is always possible: the rounds of a recovering node are
    numbered within the schema's limit. *)
Lemma handler_decision_rejected st s round a decision r :
  wf st → each_node node_ok st →
  apply_handler_decision (begin st) s round a decision = (false, r) → unchanged st r.
Proof.
  intros Hwf Hn. unfold apply_handler_decision.
  destruct (handler_accepts _ _ _ _ _) eqn:Hacc; cbn [negb]; [|by intros [= <-]].
  destruct (handler_accepts_spec _ _ _ _ _ Hwf Hacc) as (d & x & Hat & Hs & _ & _). cbn [begin rd_state] in Hat.
  destruct (set_handler_outcome_booked (begin st : Red) s x round (decision_outcome decision) (proj1 Hat)) as (y & Hy & ->).
  destruct (dec_kind decision); [|done].
  rewrite (latest_target_failure_booked _ _ x) by (done || apply Hat). cbn [begin rd_state].
  destruct (Hn _ _ _ Hat) as [Hrec Hact]. unfold activity_ok in Hact. rewrite Hs in Hact.
  destruct Hact as (_ & _ & Hround & Hpos & _). pose proof Hrec as (_ & _ & Hcfg).
  unfold rounds_of in Hpos. destruct (ss_recovery x) as [v|] eqn:Hv; [|simpl in Hpos; lia].
  destruct Hcfg as (c & Hc & Hret & _ & Hlen).
  pose proof (dw_retries _ (proj1 Hwf) _ _ _ (proj2 Hat) Hc) as Hmax.
  destruct (latest_target_failure st s) as [failure|] eqn:Hf; cbn [mbind option_bind].
  - rewrite (recheck_execution st s d x failure (proj1 Hat) Hrec Hf). unfold rounds_of. rewrite Hv.
    unfold execution_next, checked_add. rewrite decide_True by (unfold u8_max, MAXIMUM_RETRIES in *; lia).
    unfold def_step. cbn [rd_state quiet_update map_state with_state set_steps rs_definition begin].
    pose proof (proj2 Hat) as Hd. unfold def_step in Hd. rewrite Hd. done.
  - exfalso. unfold latest_target_failure in Hf. rewrite (proj1 Hat) in Hf. simpl in Hf. rewrite Hv in Hf. simpl in Hf.
    destruct (last (sr_rounds v)) eqn:Hl; [done|]. apply last_None in Hl. rewrite Hl in Hpos. simpl in Hpos. lia.
Qed.

Lemma cancellation_rejected st c operation r :
  apply_cancellation (begin st) c operation = (false, r) → unchanged st r.
Proof.
  unfold apply_cancellation, apply_ordinary_cancellation, apply_finalization_cancellation. cbn [begin rd_state].
  destruct (record_operation_nodes operation st) as (_ & _ & Hw).
  destruct (rs_workflow st) as [[]|? [] ?| | |] eqn:Hws; try (by intros [= <-]);
    rewrite ?Hw; destruct (next_sequence _); done.
Qed.

Lemma apply_occurrence_rejected st (o : Occ) r :
  wf st → each_node node_ok st → is_finished (rs_workflow st) = false →
  apply_occurrence (begin st) o = (false, r) → unchanged st r.
Proof.
  intros Hwf Hn Hfin. destruct o; cbn [apply_occurrence];
    eauto using step_failure_rejected, handler_failure_rejected, handler_decision_rejected.
  - destruct (step_accepts _ _ _ _); cbn [negb]; [done|by intros [= <-]].
  - unfold apply_execution_completed. destruct (step_accepts _ _ _ _); cbn [negb].
    + destruct (transition_step _ _ _ _) as [? r1]. destruct (step_declares_outputs _ _); [done|].
      by destruct (transition_step _ _ _ _).
    + intros [= <-]. by destruct (requires_release provisional).
  - destruct (_ || _); [by intros [= <-]|]. by destruct (transition_step _ _ _ _).
  - destruct (handler_accepts _ _ _ _ _); cbn [negb]; [done|by intros [= <-]].
  - destruct (_ || _); [by intros [= <-]|]. apply cancellation_rejected.
  - unfold apply_ordinary_only_cancellation. destruct (_ || _); [by intros [= <-]|].
    cbn [begin rd_state]. destruct (rs_workflow st) as [gate| | | |] eqn:Hw; cbn [is_executing negb] in *; try done.
    + intros Happly. apply (cancellation_rejected st {| cr_reason := reason; cr_deadline := deadline |} (Some operation)).
      unfold apply_cancellation. cbn [begin rd_state]. by rewrite Hw.
    + cbn [map_state with_state rd_state set_last_operation rs_workflow begin]. rewrite Hw. done.
  - destruct (stale_operation _ _); [by intros [= <-]|]. unfold apply_force_abort.
    case_decide; [by intros [= <-]|]. cbn [begin rd_state].
    destruct (rs_workflow st); try (by intros [= <-]); by destruct (next_sequence _).
  - destruct (cancelling_step _ _ _) as [[? ?]|]; [|by intros [= <-]]. by destruct (transition_step _ _ _ _).
Qed.
End containment.
