(* ===== verification/Numbering.v ===== *)
(** * Transition events

    The events of a reduction are numbered consecutively from the sequence
    the run had before it, and tell for every node the path of kinds it
    took. *)

From S2P Require Import Prelude Text Nodes Evidence Condition Validated Runtime Reducer Moves Refinement Views Stabilize Occurrences Runs NodeSteps.

Section numbering.
Context {Provisional Cause Output Deadline : Type}.
Context `{!SerdeJson, !NodeFailureSource Cause, !ConditionOutput Output,
          !ProvisionalStepResources Provisional}.

Local Abbreviation State := (RuntimeState Cause Output Deadline).
Local Abbreviation Red := (Reduction Provisional Cause Output Deadline).
Local Abbreviation Step := (StepRuntimeState Cause Output).
Local Abbreviation Event := (TransitionEvent Deadline).
Local Abbreviation Req := (RequestedAction Provisional Cause Output Deadline).

Implicit Types (st : State) (r : Red) (x y : Step) (s t : string) (d : RuntimeStep) (D : RuntimeDefinition).

(** ** Events of one node *)

(** The changes of kind an event log records for node [s]. *)
Definition node_changes s (events : list Event) : list (StepStateKind * StepStateKind) :=
  omap (λ e, match e with
             | EvStep _ t _ _ from to => if decide (t = s) then Some (from, to) else None
             | _ => None
             end) events.

(** The kinds chain: each change starts where the last one ended. *)
Fixpoint chains (k : StepStateKind) (changes : list (StepStateKind * StepStateKind)) (k' : StepStateKind) : Prop :=
  match changes with
  | [] => k = k'
  | (from, to) :: changes => from = k ∧ chains to changes k'
  end.

Lemma chains_snoc k changes k1 k2 : chains k changes k1 → chains k (changes ++ [(k1, k2)]) k2.
Proof. revert k. induction changes as [|[a b] changes IH]; intros k; simpl; [by intros ->|]. intros [-> Hc]. auto. Qed.

(** ** One move *)

(** What a move appends to the log, and the numbers it takes. *)
Inductive logged r : Red → Prop :=
| log_quiet r' :
    rs_definition (rd_state r') = rs_definition (rd_state r) →
    rd_events r' = rd_events r →
    rs_last_transition_sequence (rd_state r') = rs_last_transition_sequence (rd_state r) →
    rs_transition_capacity_exceeded (rd_state r') = rs_transition_capacity_exceeded (rd_state r) →
    (∀ s, (state_kind ∘ ss_state) <$> rs_steps (rd_state r') !! s = (state_kind ∘ ss_state) <$> rs_steps (rd_state r) !! s) →
    logged r r'
| log_node s d x y acts :
    rs_steps (rd_state r) !! s = Some x → logged r (node_update r s d x y acts)
| log_workflow f e acts :
    (∀ n, event_sequence (e n) = n ∧ (∀ s, node_changes s [e n] = [])) →
    (∀ st, rs_definition (f st) = rs_definition st ∧ rs_steps (f st) = rs_steps st
           ∧ rs_last_transition_sequence (f st) = rs_last_transition_sequence st
           ∧ rs_transition_capacity_exceeded (f st) = rs_transition_capacity_exceeded st) →
    logged r (workflow_update r f e acts).

Lemma commit_logged r d issue : rtc logged r (commit_required_issue r d issue).
Proof.
  rewrite commit_required_issue_eq. destruct (committed_workflow _ _ _); [|done]. by apply rtc_once, log_workflow.
Qed.

Lemma log_quiet_update r s x y :
  rs_steps (rd_state r) !! s = Some x → ss_state y = ss_state x → logged r (quiet_update r s y).
Proof.
  intros Hx Hy. apply log_quiet; [done..|]. intros t. simpl. destruct (decide (t = s)) as [->|].
  - rewrite lookup_insert_eq, Hx. simpl. by rewrite Hy.
  - by rewrite lookup_insert_ne.
Qed.

Lemma foldr_push_action_events r (acts : list Req) : rd_events (foldr push_action r acts) = rd_events r.
Proof. by induction acts. Qed.

Lemma move_logged r r' : wf (rd_state r) → move r r' → rtc logged r r'.
Proof.
  intros Hwf [r1 [r2 Hi|outcome|outcome summary exports]|r1 He].
  - destruct Hi as [s d x p [Hx _]|s d x p trace detail [Hx _]|s d x p ? ? detail [Hx _]|s d x detail [Hx _]
                   |s d x detail [Hx _]|s d x [Hx _]|s d x [Hx _]];
      try (by apply rtc_once, log_node); try (by eapply rtc_l; [by eapply log_node|apply commit_logged]).
    by eapply rtc_once, log_quiet_update.
  - apply rtc_once. unfold finalization_entry. by apply log_workflow.
  - by apply rtc_once, log_workflow.
  - destruct He as
    [s d x a [Hx _]|s d x p [Hx _]|s d x y z [Hx _]|s d x y outputs [Hx _]
    |s d x y detail [Hx _]|s d x y round e i phase detail cause [Hx _]
    |s d x round e i phase detail cause e' [Hx _]
    |s d x y round e i phase detail cause kind [Hx _]|s d x y round a [Hx _]
    |s d x y round failure e' [Hx _]|s d x reason [Hx _]
    |s d x y reason active a acts [Hx _]|s d x a acts [Hx _]
    |s d x y detail active reason [Hx _]|s x y Hx Ha Hy|a p|b|operation|gate reason deadline prior Hw Hg
    |trigger issue reason deadline Hw|gate Hw Hf|trigger gate issue Hw Hf];
      try (by apply rtc_once, log_node); try (by eapply rtc_l; [by eapply log_node|apply commit_logged]);
      try (by apply rtc_once, log_quiet); try (by apply rtc_once, log_workflow).
    + eapply rtc_l; [by eapply log_node|]. eapply rtc_once, log_node, node_update_lookup.
    + apply rtc_once. pose proof (log_quiet_update r s x (set_action (Some a) x) Hx eq_refl) as Hl.
      apply log_quiet; rewrite ?foldr_push_action_state, ?foldr_push_action_events; try done.
      intros t. simpl. destruct (decide (t = s)) as [->|]; [by rewrite lookup_insert_eq, Hx|by rewrite lookup_insert_ne].
    + by eapply rtc_once, log_quiet_update; [|apply bookkeeping_state].
Qed.

Lemma moves_logged r r' : wf (rd_state r) → rtc move r r' → rtc logged r r'.
Proof.
  intros Hwf Hm. revert Hwf. induction Hm as [|r1 r2 r3 Hm _ IH]; intros Hwf; [done|].
  etrans; [by apply move_logged|]. apply IH. by eapply move_wf.
Qed.

(** ** Numbers *)

Definition numbered_from (base : N) r : Prop :=
  rs_transition_capacity_exceeded (rd_state r) = false →
  rs_last_transition_sequence (rd_state r) = (base + N.of_nat (length (rd_events r)))%N
  ∧ ∀ i e, rd_events r !! i = Some e → event_sequence e = (base + 1 + N.of_nat i)%N.

Lemma bump_numbered st :
  (def_maximum_transitions (rs_definition st) < u64_max)%N →
  rs_transition_capacity_exceeded (bump st) = false →
  rs_transition_capacity_exceeded st = false ∧ seqno st = (rs_last_transition_sequence st + 1)%N
  ∧ rs_last_transition_sequence (bump st) = (rs_last_transition_sequence st + 1)%N.
Proof.
  intros Hmax. unfold bump, seqno, next_sequence, sequence_next, saturating_add. case_decide as Hlt; simpl; [done|].
  intros He. destruct (N.min_spec u64_max (rs_last_transition_sequence st + 1)) as [[? Hm]|[? Hm]]; rewrite Hm in *; [lia|done].
Qed.

Lemma numbered_append base r r' e :
  (def_maximum_transitions (rs_definition (rd_state r)) < u64_max)%N →
  rd_events r' = (rd_events r ++ [e])%list → event_sequence e = seqno (rd_state r) →
  rs_last_transition_sequence (rd_state r') = rs_last_transition_sequence (bump (rd_state r)) →
  rs_transition_capacity_exceeded (rd_state r') = rs_transition_capacity_exceeded (bump (rd_state r)) →
  numbered_from base r → numbered_from base r'.
Proof.
  intros Hmax Hev Hseq Hlast Hexc Hok Hfalse. rewrite Hexc in Hfalse.
  destruct (bump_numbered _ Hmax Hfalse) as (Hf & Hs & Hl). destruct (Hok Hf) as [Hbase Hall].
  rewrite Hev, length_app, Hlast, Hl, Hbase. simpl. split; [lia|].
  intros i e' [Hi|[Hi Hi']]%lookup_app_Some; [by apply Hall|].
  apply list_lookup_singleton_Some in Hi' as [Hzero <-]. rewrite Hseq, Hs, Hbase. lia.
Qed.

Lemma logged_numbered base r r' :
  logged r r' → (def_maximum_transitions (rs_definition (rd_state r)) < u64_max)%N →
  numbered_from base r → numbered_from base r'.
Proof.
  intros [r1 _ Hev Hlast Hexc _|s d x y acts Hx|f e acts He Hf] Hmax Hok.
  - unfold numbered_from. by rewrite Hev, Hlast, Hexc.
  - by eapply numbered_append.
  - destruct (Hf (bump (rd_state r))) as (_ & _ & Hlast & Hexc).
    eapply numbered_append; [done..| | | |done]; [apply He|done|done].
Qed.

Lemma logged_definition r r' : logged r r' → rs_definition (rd_state r') = rs_definition (rd_state r).
Proof.
  intros [r1 HD|s d x y acts Hx|f e acts He Hf]; [done|apply bump_definition|].
  simpl. destruct (Hf (bump (rd_state r))) as [-> _]. apply bump_definition.
Qed.

Lemma moves_numbered base r r' :
  wf (rd_state r) → rtc move r r' → (def_maximum_transitions (rs_definition (rd_state r)) < u64_max)%N →
  numbered_from base r → numbered_from base r'.
Proof.
  intros Hwf Hm%moves_logged; [|done]. clear Hwf. induction Hm as [|r1 r2 r3 Hl _ IH]; [done|].
  intros Hmax Hok. apply IH; [by rewrite (logged_definition _ _ Hl)|by eapply logged_numbered].
Qed.

(** ** Paths *)

Definition kind_at st s : option StepStateKind := (state_kind ∘ ss_state) <$> rs_steps st !! s.

Definition path_from s k r : Prop := ∀ k', kind_at (rd_state r) s = Some k' → chains k (node_changes s (rd_events r)) k'.

Lemma node_changes_app s (l k : list Event) : node_changes s (l ++ k) = (node_changes s l ++ node_changes s k)%list.
Proof. unfold node_changes. apply omap_app. Qed.

Lemma logged_path s k r r' : logged r r' → path_from s k r → path_from s k r'.
Proof.
  intros [r1 _ Hev _ _ Hk|t d x y acts Hx|f e acts He Hf] Hok k' Hk'; unfold kind_at in *.
  - rewrite Hev. apply Hok. unfold kind_at. by rewrite <-Hk.
  - simpl in *. rewrite node_changes_app. simpl. destruct (decide (t = s)) as [->|Hne].
    + rewrite lookup_insert_eq in Hk'. simplify_eq/=. apply chains_snoc, Hok. unfold kind_at. by rewrite Hx.
    + rewrite app_nil_r. apply Hok. unfold kind_at. by rewrite lookup_insert_ne in Hk'.
  - cbn [rd_events workflow_update]. rewrite node_changes_app, (proj2 (He _)), app_nil_r. apply Hok. unfold kind_at.
    destruct (Hf (bump (rd_state r))) as [_ [Hs _]]. cbn [rd_state workflow_update] in Hk'. by rewrite Hs, bump_steps in Hk'.
Qed.

Lemma moves_path s k r r' : wf (rd_state r) → rtc move r r' → path_from s k r → path_from s k r'.
Proof.
  intros Hwf Hm%moves_logged; [|done]. clear Hwf. induction Hm as [|r1 r2 r3 Hl _ IH]; [done|].
  intros Hp. by eapply IH, logged_path.
Qed.
End numbering.
