(* ===== verification/Termination.v ===== *)
(** * The loops of stabilisation terminate

    The loops of [stabilize] and of the functions it calls are modelled with
    fuel.  Here each of them is related to the loop of the source, whose
    meaning is given by a finite derivation: the fuel is always enough, so
    the loops end by their own exit conditions. *)

From S2P Require Import Prelude Text Nodes Evidence Condition Validated Runtime Reducer Moves Refinement Views Stabilize Occurrences Runs NodeSteps Numbering.

(** ** Loops *)

(** The [loop] and [while let] of the source: the body runs until it
    breaks. *)
Inductive runs_to {A} (body : A → option A) : A → A → Prop :=
| runs_stop a : body a = None → runs_to body a a
| runs_again a b c : body a = Some b → runs_to body b c → runs_to body a c.

(** A body that decreases a measure is run to its end by a fuelled loop. *)
Lemma runs_to_measure {A} (body : A → option A) (loop : nat → A → A) (I : A → Prop) (m : A → nat) :
  (∀ n a, loop (S n) a = match body a with None => a | Some b => loop n b end) →
  (∀ a b, I a → body a = Some b → I b ∧ m b < m a) →
  ∀ n a, I a → m a < n → runs_to body a (loop n a).
Proof.
  intros Hloop Hstep n. induction n as [|n IH]; intros a Ha Hn; [lia|]. rewrite Hloop.
  destruct (body a) as [b|] eqn:Hb; [|by apply runs_stop].
  destruct (Hstep a b Ha Hb) as [HI Hm]. eapply runs_again; [exact Hb|]. apply IH; [done|lia].
Qed.

Lemma runs_to_exit {A} (body : A → option A) a b : runs_to body a b → body b = None.
Proof. by induction 1. Qed.

Lemma filter_length_lt {A} (p q : A → bool) l x :
  (∀ a, q a = true → p a = true) → x ∈ l → p x = true → q x = false →
  length (List.filter q l) < length (List.filter p l).
Proof.
  intros Hpq Hin Hp Hq.
  assert (Hle : ∀ k, length (List.filter q k) <= length (List.filter p k)).
  { induction k as [|a k IH]; simpl; [done|]. destruct (q a) eqn:Ha; [rewrite (Hpq _ Ha); simpl; lia|].
    destruct (p a); simpl; lia. }
  induction l as [|a l IH]; [by apply elem_of_nil in Hin|]. apply elem_of_cons in Hin as [<-|Hin]; simpl.
  - rewrite Hp, Hq. simpl. pose proof (Hle l). lia.
  - specialize (IH Hin). destruct (q a) eqn:Ha; [rewrite (Hpq _ Ha); simpl; lia|]. destruct (p a); simpl; lia.
Qed.

Section termination.
Context {Provisional Cause Output Deadline : Type}.
Context `{!SerdeJson, !NodeFailureSource Cause, !ConditionOutput Output,
          !ProvisionalStepResources Provisional}.

Local Abbreviation State := (RuntimeState Cause Output Deadline).
Local Abbreviation Red := (Reduction Provisional Cause Output Deadline).
Local Abbreviation Step := (StepRuntimeState Cause Output).

Implicit Types (st : State) (r : Red) (x y : Step) (s t : string) (d : RuntimeStep).

(** ** The measure: nodes that still satisfy a predicate *)

Definition node_is (p : Step → bool) st s : bool :=
  match rs_steps st !! s with Some x => p x | None => false end.

Definition remaining (p : Step → bool) (ids : list string) r : nat :=
  length (List.filter (node_is p (rd_state r)) ids).

Lemma remaining_le p ids r : remaining p ids r <= length ids.
Proof. apply List.filter_length_le. Qed.

Lemma remaining_lt p ids r r' s x y :
  rs_steps (rd_state r') = <[s := y]> (rs_steps (rd_state r)) → rs_steps (rd_state r) !! s = Some x →
  s ∈ ids → p x = true → p y = false → remaining p ids r' < remaining p ids r.
Proof.
  intros Hst Hx Hin Hp Hq. apply (filter_length_lt _ _ _ s); [|done|unfold node_is; by rewrite Hx|].
  - intros t. unfold node_is. rewrite Hst. destruct (decide (t = s)) as [->|].
    + rewrite lookup_insert_eq. by rewrite Hq.
    + by rewrite lookup_insert_ne.
  - unfold node_is. by rewrite Hst, lookup_insert_eq.
Qed.

Lemma commit_required_issue_steps r d issue :
  rs_steps (rd_state (commit_required_issue r d issue)) = rs_steps (rd_state r).
Proof.
  rewrite commit_required_issue_eq. destruct (committed_workflow _ _ _); [|done]. simpl. apply bump_steps.
Qed.

Abbreviation waiting x := (is_pending (ss_state x)).
Abbreviation unevaluated x := (is_pending (ss_state x) && negb (ss_condition_passed x)).

(** The definition a loop iterates over does not change. *)
Definition loop_ok (D : RuntimeDefinition) r : Prop := wf (rd_state r) ∧ rs_definition (rd_state r) = D.

Lemma loop_ok_node D r r' : loop_ok D r → internal_node r r' → loop_ok D r'.
Proof.
  intros [Hwf HD] Hi%internal_node_same. split; [by eapply same_nodes_wf|]. by rewrite (proj1 Hi).
Qed.

Lemma same_nodes_loop_ok D r r' : same_nodes r r' → loop_ok D r → loop_ok D r'.
Proof. intros Hs [Hwf HD]. split; [by eapply same_nodes_wf|]. by rewrite (proj1 Hs). Qed.

Lemma settle_blocked_decreases D ids r s d x detail :
  loop_ok D r → node_at (rd_state r) s d x → ss_state x = SPending → s ∈ ids →
  loop_ok D (settle_blocked r s detail)
  ∧ remaining (λ x, waiting x) ids (settle_blocked r s detail) < remaining (λ x, waiting x) ids r.
Proof.
  intros Hok Hat Hp Hin. erewrite settle_blocked_eq by done. split.
  - eapply same_nodes_loop_ok; [|exact Hok]. eapply same_nodes_trans; [eapply same_nodes_node; apply Hat|apply same_nodes_commit].
  - eapply (remaining_lt _ _ _ _ s x (enter (SBlocked detail) None x));
      [by rewrite commit_required_issue_steps|apply Hat|done|by rewrite Hp|done].
Qed.

Lemma transition_decreases D ids r s d x v :
  loop_ok D r → node_at (rd_state r) s d x → ss_state x = SPending → is_pending v = false → s ∈ ids →
  loop_ok D (transition_step r s v None).2
  ∧ remaining (λ x, waiting x) ids (transition_step r s v None).2 < remaining (λ x, waiting x) ids r.
Proof.
  intros Hok Hat Hp Hv Hin. erewrite transition_step_eq by done. cbn [snd]. split.
  - eapply same_nodes_loop_ok; [|exact Hok]. eapply same_nodes_node. apply Hat.
  - eapply (remaining_lt _ _ _ _ s x (enter v None x)); [done|apply Hat|done|by rewrite Hp|done].
Qed.

(** ** Ordinary steps *)

Definition propagate_ordinary_body r : option Red :=
  match next_ordinary_pending_disposition (rd_state r) with
  | None => None
  | Some (step, PendingBlocked detail) => Some (settle_blocked r step detail)
  | Some (step, PendingNotRun) => Some (transition_step r step (SNotRun failure_stop) None).2
  end.

Lemma propagate_ordinary_terminates r :
  wf (rd_state r) → runs_to propagate_ordinary_body r (propagate_ordinary_pending_dispositions r).
Proof.
  intros Hwf. set (D := rs_definition (rd_state r)). unfold propagate_ordinary_pending_dispositions.
  apply (runs_to_measure _ _ (loop_ok D) (remaining (λ x, waiting x) (def_ordinary_ids D))).
  - intros n r'. unfold propagate_ordinary_body. simpl.
    by destruct (next_ordinary_pending_disposition (rd_state r')) as [[? []]|].
  - intros r1 r2 Hok Hbody. unfold propagate_ordinary_body in Hbody.
    destruct (next_ordinary_pending_disposition (rd_state r1)) as [[t disposition]|] eqn:Hn; [|done].
    apply find_map_Some in Hn as (s & Hin & (-> & d & x & Hat & Hp & _)%ordinary_pending_disposition_spec).
    rewrite (proj2 Hok) in Hin. destruct disposition as [detail|]; injection Hbody as <-.
    + by eapply settle_blocked_decreases.
    + by eapply transition_decreases.
  - done.
  - pose proof (remaining_le (λ x, waiting x) (def_ordinary_ids D) r). unfold D in *. lia.
Qed.

(** ** Conditions *)

Lemma condition_gate_ready_unevaluated st s d x :
  node_at st s d x → condition_gate_ready st s = true → unevaluated x = true.
Proof.
  intros [Hx Hd]. unfold condition_gate_ready. rewrite Hd, Hx.
  destruct (has_condition d), (ss_condition_passed x), (is_pending (ss_state x)); done.
Qed.

Lemma evaluate_ready_condition_decreases D role r r' :
  loop_ok D r → evaluate_ready_condition r role = Some r' →
  loop_ok D r' ∧ remaining (λ x, unevaluated x) (role_ids (rd_state r) role) r'
                 < remaining (λ x, unevaluated x) (role_ids (rd_state r) role) r.
Proof.
  intros Hok Hr. split; [by eapply loop_ok_node, evaluate_ready_condition_move; [|exact Hr|apply Hok]|].
  unfold evaluate_ready_condition in Hr.
  destruct (List.find _ _) as [s|] eqn:Hfind; simpl in Hr; [|done]. apply find_some in Hfind as [Hin Hready].
  apply list_elem_of_In in Hin. destruct (def_step (rd_state r) s) as [d|] eqn:Hd; simpl in Hr; [|done].
  destruct (node_at_exists _ _ _ (proj1 Hok) Hd) as [x Hat].
  pose proof (condition_gate_ready_unevaluated _ _ _ _ Hat Hready) as Hu.
  destruct (rt_condition d) as [p|]; simpl in Hr; [|done].
  destruct (evaluate_condition _ d p).
  - erewrite update_step_eq in Hr by apply Hat. injection Hr as <-.
    eapply (remaining_lt _ _ _ _ s x); [done|apply Hat|done|done|]. simpl. apply andb_false_r.
  - destruct (condition_false_detail_new _); [|done]. erewrite transition_step_eq in Hr by done. injection Hr as <-.
    eapply (remaining_lt _ _ _ _ s x); [done|apply Hat|done|done|done].
  - destruct (json_pointer_missing _ _); [|done]. unfold settle_condition_failure in Hr.
    erewrite settle_target_failure_eq in Hr by done. injection Hr as <-.
    eapply (remaining_lt _ _ _ _ s x); [by rewrite commit_required_issue_steps|apply Hat|done|done|done].
  - done.
Qed.

Lemma evaluate_ready_conditions_terminate r role :
  wf (rd_state r) → runs_to (λ r, evaluate_ready_condition r role) r (evaluate_ready_conditions r role).
Proof.
  intros Hwf. set (D := rs_definition (rd_state r)). unfold evaluate_ready_conditions.
  apply (runs_to_measure _ (λ n r, evaluate_ready_conditions_loop n r role) (loop_ok D)
    (λ r', remaining (λ x, unevaluated x) (role_ids (rd_state r) role) r')).
  - done.
  - intros r1 r2 Hok Hr. assert (role_ids (rd_state r1) role = role_ids (rd_state r) role) as <-
      by (unfold role_ids; by rewrite (proj2 Hok)).
    by apply evaluate_ready_condition_decreases.
  - done.
  - pose proof (remaining_le (λ x, unevaluated x) (role_ids (rd_state r) role) r). lia.
Qed.

(** ** Finalizers *)

Definition condition_block_body r : option Red :=
  match next_finalizer_condition_block (rd_state r) with
  | None => None
  | Some (finalizer, detail) => Some (settle_blocked r finalizer detail)
  end.

Lemma finalizer_condition_block_spec st s t detail :
  finalizer_condition_block st s = Some (t, detail) →
  s = t ∧ ∃ d x, node_at st s d x ∧ ss_state x = SPending ∧ has_condition d = true
    ∧ blocked_detail_new (condition_blockers st d) = Ok detail.
Proof.
  unfold finalizer_condition_block. destruct (def_step st s) as [d|] eqn:Hd; simpl; [|done].
  destruct (rs_steps st !! s) as [x|] eqn:Hx; simpl; [|done].
  destruct (has_condition d) eqn:Hc, (ss_condition_passed x), (is_pending (ss_state x)) eqn:Hp,
    (condition_phase_gate_open st d); try done. simpl. destruct (blocked_detail_new _) eqn:Hb; [|done]. intros [= <- <-].
  apply is_pending_true in Hp. split; [done|].
  exists d, x. split; [done|]. done.
Qed.

Lemma condition_blocks_terminate r n :
  wf (rd_state r) → length (def_finalizer_ids (rs_definition (rd_state r))) < n →
  runs_to condition_block_body r (propagate_condition_blocks_loop n r).
Proof.
  intros Hwf Hn. set (D := rs_definition (rd_state r)) in *.
  apply (runs_to_measure _ _ (loop_ok D) (remaining (λ x, waiting x) (def_finalizer_ids D))).
  - intros m r'. unfold condition_block_body. simpl. by destruct (next_finalizer_condition_block (rd_state r')) as [[? ?]|].
  - intros r1 r2 Hok Hbody. unfold condition_block_body in Hbody.
    destruct (next_finalizer_condition_block (rd_state r1)) as [[t detail]|] eqn:Hnext; [|done]. injection Hbody as <-.
    apply find_map_Some in Hnext as (s & Hin & (-> & d & x & Hat & Hp & _)%finalizer_condition_block_spec).
    rewrite (proj2 Hok) in Hin. by eapply settle_blocked_decreases.
  - done.
  - pose proof (remaining_le (λ x, waiting x) (def_finalizer_ids D) r). lia.
Qed.

(** What validation guarantees of the evidence a node may need: references
    to outputs, and no more of them than a detail holds. *)
Definition evidence_ok d : Prop :=
  length (rt_evidence_prerequisites d) <= MAXIMUM_PREREQUISITES
  ∧ ∀ ref, PBody ref ∈ rt_evidence_prerequisites d → is_output_reference ref = true.

Definition definition_evidence_ok (D : RuntimeDefinition) : Prop :=
  ∀ s d, bt_get (def_steps D) s = Some d → evidence_ok d.

Lemma unavailable_references_bodies st d ref :
  ref ∈ unavailable_references st d → PBody ref ∈ rt_evidence_prerequisites d.
Proof.
  unfold unavailable_references. intros (p & Hin & Hp)%list_elem_of_omap. unfold unavailable_reference in Hp.
  destruct p as [| |ref']; try done. destruct (output_reference_producer ref'); simpl in Hp; [|done].
  by destruct (step_is _ _ _); simplify_eq.
Qed.

Lemma body_prerequisites_fmap refs :
  (∀ ref, ref ∈ refs → is_output_reference ref = true) → body_prerequisites refs = PBody <$> refs.
Proof.
  induction refs as [|ref refs IH]; intros Hall; [done|].
  change (body_prerequisites (ref :: refs))
    with (result_to_list (prerequisite_body ref) ++ body_prerequisites refs)%list.
  rewrite IH by (intros; apply Hall; by right). unfold prerequisite_body. rewrite (Hall ref) by by left. done.
Qed.

Lemma unavailable_references_length st d :
  length (unavailable_references st d) <= length (rt_evidence_prerequisites d).
Proof.
  unfold unavailable_references. induction (rt_evidence_prerequisites d) as [|p l IH]; [done|].
  change (omap (unavailable_reference st) (p :: l))
    with (match unavailable_reference st p with
          | Some ref => ref :: omap (unavailable_reference st) l
          | None => omap (unavailable_reference st) l
          end).
  destruct (unavailable_reference st p); cbn [length]; lia.
Qed.

(** The evidence of a finalizer whose inputs are unavailable can always be
    recorded. *)
Lemma unavailable_evidence st d :
  evidence_ok d → unavailable_references st d ≠ [] →
  ∃ detail, blocked_detail_new (body_prerequisites (unavailable_references st d)) = Ok detail.
Proof.
  intros [Hlen Hrefs] Hne.
  assert (Hall : ∀ ref, ref ∈ unavailable_references st d → is_output_reference ref = true)
    by (intros ref Hin%unavailable_references_bodies; by apply Hrefs).
  rewrite body_prerequisites_fmap by done. eexists {| bd_prerequisites := _ |}. apply blocked_detail_new_Ok.
  split; [reflexivity|]. split; [by intros ?%fmap_nil_inv|]. split.
  - etrans; [apply length_sort_dedup|]. rewrite length_fmap. etrans; [apply unavailable_references_length|done].
  - apply Forall_fmap, Forall_forall. intros ref Hin. eapply prerequisite_ref_ok; [by apply Hall|by right].
Qed.

(** The body of the last loop continues without a change when the evidence
    cannot be recorded, which would never end. *)
Definition input_unavailable_body r : option Red :=
  match next_input_unavailable (rd_state r) with
  | None => None
  | Some (finalizer, references) =>
      match blocked_detail_new (body_prerequisites references) with
      | Err _ => Some r
      | Ok detail => Some (settle_blocked r finalizer detail)
      end
  end.

Lemma input_unavailable_terminates r n :
  wf (rd_state r) → definition_evidence_ok (rs_definition (rd_state r)) →
  length (def_finalizer_ids (rs_definition (rd_state r))) < n →
  runs_to input_unavailable_body r (propagate_input_unavailable_loop n r).
Proof.
  intros Hwf Hev Hn. set (D := rs_definition (rd_state r)) in *.
  apply (runs_to_measure _ _ (loop_ok D) (remaining (λ x, waiting x) (def_finalizer_ids D))).
  - intros m r'. unfold input_unavailable_body. simpl. destruct (next_input_unavailable (rd_state r')) as [[? ?]|]; [|done].
    by destruct (blocked_detail_new _).
  - intros r1 r2 Hok Hbody. unfold input_unavailable_body in Hbody.
    destruct (next_input_unavailable (rd_state r1)) as [[t refs]|] eqn:Hnext; [|done].
    apply find_map_Some in Hnext as (s & Hin & (-> & d & x & Hat & Hready & -> & Hne)%input_unavailable_spec).
    rewrite (proj2 Hok) in Hin. pose proof (proj2 Hat) as Hd. unfold def_step in Hd. rewrite (proj2 Hok) in Hd.
    destruct (unavailable_evidence (rd_state r1) d (Hev t d Hd) Hne) as [detail Hdetail]. rewrite Hdetail in Hbody.
    injection Hbody as <-. eapply settle_blocked_decreases; [done..| |done]. by eapply finalizer_ready_pending.
  - done.
  - pose proof (remaining_le (λ x, waiting x) (def_finalizer_ids D) r). lia.
Qed.

Lemma condition_blocks_same n r : wf (rd_state r) → same_nodes r (propagate_condition_blocks_loop n r).
Proof.
  revert r. induction n as [|n IH]; intros r Hwf; simpl; [apply same_nodes_refl|].
  destruct (next_finalizer_condition_block (rd_state r)) as [[t detail]|] eqn:Hn; [|apply same_nodes_refl].
  apply find_map_Some in Hn as (s & _ & Hs). unfold finalizer_condition_block in Hs.
  destruct (def_step (rd_state r) s) as [d|] eqn:Hd; simpl in Hs; [|done].
  destruct (rs_steps (rd_state r) !! s) as [x|] eqn:Hx; simpl in Hs; [|done].
  destruct (_ || _); [done|]. destruct (blocked_detail_new _); simplify_eq/=.
  erewrite settle_blocked_eq by done. eapply same_nodes_trans; [|apply IH].
  - eapply same_nodes_trans; [by eapply same_nodes_node|apply same_nodes_commit].
  - eapply same_nodes_wf, Hwf. eapply same_nodes_trans; [by eapply same_nodes_node|apply same_nodes_commit].
Qed.

(** The two loops of [propagate_finalizer_dispositions], one after the
    other. *)
Lemma finalizer_dispositions_terminate r :
  wf (rd_state r) → definition_evidence_ok (rs_definition (rd_state r)) →
  is_finalizing (rs_workflow (rd_state r)) = true →
  ∃ r1, runs_to condition_block_body (propagate_finalizer_trigger_dispositions r) r1
    ∧ runs_to input_unavailable_body r1 (propagate_finalizer_dispositions r).
Proof.
  intros Hwf Hev Hfin. unfold propagate_finalizer_dispositions. cbv zeta.
  pose proof (trigger_dispositions_moves r Hfin Hwf) as Hm0.
  set (r0 := propagate_finalizer_trigger_dispositions r) in *.
  set (n := S (length (def_finalizer_ids (rs_definition (rd_state r0))))).
  destruct (node_moves_keep _ _ Hm0 Hwf) as (Hwf0 & _ & Hfin0 & _). rewrite Hfin in Hfin0.
  pose proof (condition_blocks_same n r0 Hwf0) as Hs1. apply internal_nodes_same in Hm0 as Hs0.
  exists (propagate_condition_blocks_loop n r0). split; [apply condition_blocks_terminate; [done|lia]|].
  apply input_unavailable_terminates; [by eapply same_nodes_wf|..];
    rewrite (proj1 Hs1); [by rewrite (proj1 Hs0)|lia].
Qed.

(** ** Rounds *)

Abbreviation last_sequence r := (rs_last_transition_sequence (rd_state r)).
Abbreviation ceiling r := (def_maximum_transitions (rs_definition (rd_state r))).

(** The [loop] of [stabilize]: rounds until one takes no number. *)
Inductive stabilizes : Red → Red → Prop :=
| stabilizes_stop r : last_sequence (stabilize_round r) = last_sequence r → stabilizes r (stabilize_round r)
| stabilizes_again r r' :
    last_sequence (stabilize_round r) ≠ last_sequence r → stabilizes (stabilize_round r) r' → stabilizes r r'.

(** Numbers only grow, and within the ceiling. *)
Definition sequence_grows r r' : Prop :=
  (last_sequence r <= u64_max → last_sequence r <= last_sequence r' <= N.max (last_sequence r) (ceiling r)
   ∧ last_sequence r' <= u64_max)%N
  ∧ ceiling r' = ceiling r.

#[local] Instance sequence_grows_preorder : PreOrder sequence_grows.
Proof.
  split; [intros r; split; [lia|done]|]. intros r1 r2 r3 [H1 E1] [H2 E2]. split; [|congruence].
  intros Hle. destruct (H1 Hle) as [? Hle']. specialize (H2 Hle'). rewrite E1 in H2. lia.
Qed.

Lemma bump_sequence st :
  (rs_last_transition_sequence st <= u64_max →
   rs_last_transition_sequence st <= rs_last_transition_sequence (bump st)
     <= N.max (rs_last_transition_sequence st) (def_maximum_transitions (rs_definition st))
   ∧ rs_last_transition_sequence (bump st) <= u64_max)%N.
Proof. unfold bump, next_sequence, sequence_next, saturating_add. case_decide; simpl; lia. Qed.

Lemma logged_sequence r r' : logged r r' → sequence_grows r r'.
Proof.
  intros Hl. pose proof (logged_definition _ _ Hl) as HD. split; [|by rewrite HD]. intros Hle.
  destruct Hl as [r1 _ _ -> _ _|s d x y acts _|f e acts _ Hf]; [lia|apply (bump_sequence _ Hle)|].
  cbn [workflow_update rd_state]. destruct (Hf (bump (rd_state r))) as (_ & _ & -> & _). apply (bump_sequence _ Hle).
Qed.

Lemma stabilize_round_sequence r : wf (rd_state r) → sequence_grows r (stabilize_round r).
Proof.
  intros Hwf. pose proof (moves_logged _ _ Hwf (internal_moves_move _ _ (stabilize_round_moves r Hwf))) as Hl.
  clear Hwf. induction Hl as [|r1 r2 r3 Hone%logged_sequence _ IH]; [reflexivity|].
  exact (transitivity Hone IH).
Qed.

Lemma stabilize_loop_terminates n r :
  wf (rd_state r) → (last_sequence r <= u64_max)%N → N.to_nat (ceiling r - last_sequence r) < n →
  stabilizes r (stabilize_loop n r).
Proof.
  revert r. induction n as [|n IH]; intros r Hwf Hle Hn; [lia|]. cbn [stabilize_loop]. cbv zeta.
  case_decide as Heq; [by apply stabilizes_stop|]. apply stabilizes_again; [done|].
  destruct (stabilize_round_sequence r Hwf) as [Hgrow Hceil]. specialize (Hgrow Hle). apply IH.
  - by eapply same_nodes_wf, Hwf; apply internal_moves_same, stabilize_round_moves.
  - lia.
  - rewrite Hceil. lia.
Qed.
End termination.
