(* ===== verification/Quiet.v ===== *)
(** * Settled runs

    Stabilisation stops at the first round that takes no transition number.
    Within the transition capacity every change of a node or of the workflow
    takes a number, so nothing was left to propagate, to evaluate, to start
    or to finish in the state it stops in.  [settled] states that, and holds
    of every reachable state. *)

From S2P Require Import Prelude Text Nodes Evidence Condition Validated Runtime Reducer Moves Refinement Views Stabilize Occurrences Runs NodeSteps NodeInvariants Phases Scheduling Containment Numbering Termination.

Section quiet.
Context {Provisional Cause Output Deadline : Type}.
Context `{!SerdeJson, !NodeFailureSource Cause, !ConditionOutput Output,
          !ProvisionalStepResources Provisional}.

Local Abbreviation State := (RuntimeState Cause Output Deadline).
Local Abbreviation Red := (Reduction Provisional Cause Output Deadline).
Local Abbreviation Step := (StepRuntimeState Cause Output).

Implicit Types (st : State) (r : Red) (x y : Step) (s t : string) (d : RuntimeStep) (D : RuntimeDefinition).

(** ** Numbers taken *)

Abbreviation exceeded st := (rs_transition_capacity_exceeded st).
Abbreviation numbers st := (rs_last_transition_sequence st).

(** The numbers of a run do not go down, within its capacity. *)
Definition counts st st' : Prop :=
  rs_definition st' = rs_definition st
  ∧ (exceeded st' = false → exceeded st = false ∧ (numbers st <= numbers st')%N).

(** At least one number was taken. *)
Definition strictly st st' : Prop :=
  rs_definition st' = rs_definition st
  ∧ (exceeded st' = false → exceeded st = false ∧ (numbers st < numbers st')%N).

#[local] Instance counts_preorder : PreOrder counts.
Proof.
  split; [intros st; split; [done|intros; split; [done|lia]]|].
  intros st1 st2 st3 [E1 H1] [E2 H2]. split; [congruence|]. intros Hf. destruct (H2 Hf) as [? ?]. destruct H1; [done|].
  split; [done|lia].
Qed.

Lemma strictly_counts st st' : strictly st st' → counts st st'.
Proof. intros [E Hs]. split; [done|]. intros Hf. destruct (Hs Hf). split; [done|lia]. Qed.

(** A round that took no number took none at any point. *)
Lemma strictly_absurd st st1 st2 :
  strictly st st1 → counts st1 st2 → exceeded st2 = false → numbers st2 = numbers st → False.
Proof. intros [_ H1] [_ H2] Hf Heq. destruct (H2 Hf) as [Hf1 ?]. destruct (H1 Hf1). lia. Qed.

Definition ceiling_ok st : Prop := (def_maximum_transitions (rs_definition st) < u64_max)%N.

Lemma counts_ceiling st st' : counts st st' → ceiling_ok st → ceiling_ok st'.
Proof. intros [E _]. unfold ceiling_ok. by rewrite E. Qed.

Lemma bump_strictly st : ceiling_ok st → strictly st (bump st).
Proof.
  intros Hc. split; [apply bump_definition|]. intros Hf. destruct (bump_numbered st Hc Hf) as (? & _ & ->). split; [done|lia].
Qed.

Lemma transition_strictly r s v a : ceiling_ok (rd_state r) → strictly (rd_state r) (rd_state (transition_step r s v a).2).
Proof.
  intros Hc. unfold transition_step. rewrite next_sequence_eq. destruct (bump_strictly _ Hc) as [E Hs].
  repeat case_match; cbn; (split; [exact E|exact Hs]).
Qed.

Lemma authorize_strictly r s n inputs :
  ceiling_ok (rd_state r) → strictly (rd_state r) (rd_state (authorize_target r s n inputs)).
Proof.
  intros Hc. unfold authorize_target.
  pose proof (transition_strictly (map_state (update_step s (set_target_execution (Some n))) r) s SStarting None Hc) as Ht.
  destruct (transition_step _ _ _ _) as [seq r1]. exact Ht.
Qed.

Lemma logged_counts r r' : logged r r' → ceiling_ok (rd_state r) → counts (rd_state r) (rd_state r').
Proof.
  intros Hl Hc. pose proof (logged_definition _ _ Hl) as HD. destruct (bump_strictly _ Hc) as [_ Hb].
  split; [done|]. destruct Hl as [r1 _ _ Hn He _|s d x y acts _|f e acts _ Hf]; cbn.
  - rewrite Hn, He. intros ->. split; [done|lia].
  - intros Hfalse. destruct (Hb Hfalse). split; [done|]. cbn. lia.
  - destruct (Hf (bump (rd_state r))) as (_ & _ & -> & ->). intros Hfalse. destruct (Hb Hfalse). split; [done|lia].
Qed.

Lemma moves_counts r r' :
  wf (rd_state r) → ceiling_ok (rd_state r) → rtc move r r' → counts (rd_state r) (rd_state r').
Proof.
  intros Hwf Hc Hm%moves_logged; [|done]. clear Hwf. induction Hm as [|r1 r2 r3 Hl _ IH]; [done|].
  pose proof (logged_counts _ _ Hl Hc) as H12. etrans; [exact H12|]. apply IH. by eapply counts_ceiling.
Qed.

Lemma node_moves_counts r r' :
  wf (rd_state r) → ceiling_ok (rd_state r) → rtc internal_node r r' → counts (rd_state r) (rd_state r').
Proof. intros Hwf Hc Hm. apply moves_counts; [done..|]. by apply internal_moves_move, node_moves_internal. Qed.

Lemma settle_blocked_strictly r s d x detail :
  ceiling_ok (rd_state r) → node_at (rd_state r) s d x → strictly (rd_state r) (rd_state (settle_blocked r s detail)).
Proof.
  intros Hc Hat. erewrite settle_blocked_eq by done. rewrite commit_required_issue_eq.
  destruct (bump_strictly _ Hc) as [E1 H1].
  destruct (committed_workflow _ _ _); [|by split].
  set (st1 := rd_state (node_update _ _ _ _ _ _)).
  assert (Hc1 : ceiling_ok st1) by (unfold ceiling_ok, st1; cbn; by rewrite bump_definition).
  destruct (bump_strictly st1 Hc1) as [E2 H2]. split; [cbn; by rewrite !bump_definition|]. intros Hf.
  destruct (H2 Hf) as [Hf1 ?]. destruct (H1 Hf1) as [? ?]. split; [done|].
  change (numbers (rd_state r) < numbers (bump st1))%N. change (numbers st1) with (numbers (bump (rd_state r))) in *. lia.
Qed.

Lemma foldl_counts {A} (f : Red → A → Red) l r :
  (∀ r a, ceiling_ok (rd_state r) → strictly (rd_state r) (rd_state (f r a))) →
  ceiling_ok (rd_state r) → counts (rd_state r) (rd_state (foldl f r l)).
Proof.
  intros Hstrict. revert r. induction l as [|a l IH]; intros r Hc; [done|]. cbn [foldl].
  pose proof (strictly_counts _ _ (Hstrict r a Hc)) as H1. etrans; [exact H1|].
  apply IH. by eapply counts_ceiling.
Qed.

(** ** Quiet loops *)

Section loops.
Context (r : Red) (Hwf : wf (rd_state r)) (Hc : ceiling_ok (rd_state r)).

(** [r'] follows [r] and took no number. *)
Definition took_none r' : Prop := exceeded (rd_state r') = false ∧ numbers (rd_state r') = numbers (rd_state r).

Lemma propagate_ordinary_quiet :
  is_executing (rs_workflow (rd_state r)) = true → took_none (propagate_ordinary_pending_dispositions r) →
  propagate_ordinary_pending_dispositions r = r ∧ next_ordinary_pending_disposition (rd_state r) = None.
Proof.
  intros Hex [Hf Hn]. unfold propagate_ordinary_pending_dispositions in *. cbn [propagate_ordinary_loop] in *.
  destruct (next_ordinary_pending_disposition (rd_state r)) as [[t disposition]|] eqn:Hnext; [exfalso|done].
  apply find_map_Some in Hnext as (s & Hin & (-> & d & x & Hat & Hp & Hreason)%ordinary_pending_disposition_spec).
  assert (Hgo : ∀ r1, internal_node r r1 → strictly (rd_state r) (rd_state r1) → ∀ n,
    exceeded (rd_state (propagate_ordinary_loop n r1)) = false →
    numbers (rd_state (propagate_ordinary_loop n r1)) = numbers (rd_state r) → False).
  { intros r1 Hi Hs n. apply strictly_absurd with (rd_state r1); [done|].
    assert (wf (rd_state r1)) by (eapply same_nodes_wf; [by apply internal_node_same|done]).
    apply node_moves_counts; [done|eapply counts_ceiling; [by apply strictly_counts|done]|].
    apply propagate_ordinary_moves; [|done]. by rewrite (proj1 (internal_node_phase _ _ Hi)). }
  pose proof (wf_role_ids _ RoleStep _ _ Hwf Hin (proj2 Hat)) as Hrole.
  destruct disposition as [detail|]; eapply Hgo; [| |exact Hf|exact Hn| | |exact Hf|exact Hn].
  - erewrite settle_blocked_eq by done. apply int_blocked; [done..|]. unfold block_reason. by rewrite Hrole.
  - by eapply settle_blocked_strictly.
  - erewrite transition_step_eq by done. apply int_not_run; [done..|]. unfold not_run_reason. rewrite Hrole. by destruct Hreason.
  - by apply transition_strictly.
Qed.

Lemma foldl_strictly_quiet {A} (f : Red → A → Red) l :
  (∀ r a, ceiling_ok (rd_state r) → strictly (rd_state r) (rd_state (f r a))) →
  took_none (foldl f r l) → l = [].
Proof.
  intros Hstrict. destruct l as [|a l]; [done|]. cbn [foldl]. intros [Hf Hn]. exfalso.
  eapply strictly_absurd; [by apply Hstrict|..|exact Hf|exact Hn]. apply foldl_counts; [done|].
  eapply counts_ceiling; [|exact Hc]. by apply strictly_counts, Hstrict.
Qed.

Lemma select_quiet role :
  took_none (select_ready_nodes r role) → role_gate_open (rs_workflow (rd_state r)) role = true →
  active_count (rd_state r) < def_maximum_parallel_steps (rs_definition (rd_state r)) →
  select_ready_nodes r role = r
  ∧ ∀ s d, s ∈ role_ids (rd_state r) role → def_step (rd_state r) s = Some d → node_ready (rd_state r) role s d = false.
Proof.
  intros Ht Hg Hlt. unfold select_ready_nodes in *. rewrite Hg in *. cbn [negb] in *.
  apply foldl_strictly_quiet in Ht as Hnil; [|intros r' [s inputs]; apply authorize_strictly].
  rewrite Hnil. split; [done|]. intros s d Hs Hd.
  destruct (node_ready (rd_state r) role s d) eqn:Hready; [exfalso|done].
  set (k := _ - _) in Hnil. assert (k ≠ 0) by (unfold k; lia). destruct k as [|k]; [done|].
  assert (Hin : (s, resolved_action_inputs (rd_state r) d) ∈ omap (λ id, definition ← def_step (rd_state r) id;
      if node_ready (rd_state r) role id definition
      then Some (id, resolved_action_inputs (rd_state r) definition) else None) (role_ids (rd_state r) role)).
  { apply list_elem_of_omap. exists s. split; [done|]. rewrite Hd. cbn. by rewrite Hready. }
  destruct (omap _ _); [by apply elem_of_nil in Hin|done].
Qed.

Lemma select_closed role :
  role_gate_open (rs_workflow (rd_state r)) role = false → select_ready_nodes r role = r.
Proof. unfold select_ready_nodes. by intros ->. Qed.

Lemma finish_run_strictly outcome summary :
  is_Some (derive_exports (rd_state r)) → strictly (rd_state r) (rd_state (finish_run r outcome summary)).
Proof.
  intros [exports He]. erewrite finish_run_eq by done. destruct (bump_strictly _ Hc) as [E Hs]. by split.
Qed.

Lemma enter_quiet :
  took_none (enter_finalization_or_finish r) → is_executing (rs_workflow (rd_state r)) = true →
  enter_finalization_or_finish r = r
  ∧ (forallb (step_is is_terminal (rd_state r)) (def_ordinary_ids (rs_definition (rd_state r))) = true →
     def_finalizer_ids (rs_definition (rd_state r)) = [] ∧ derive_exports (rd_state r) = None).
Proof.
  intros [Hf Hn] Hex. unfold enter_finalization_or_finish in *. rewrite Hex in *. cbn [negb orb] in *.
  destruct (forallb _ _); cbn [negb] in *; [|done].
  destruct (rs_workflow (rd_state r)) as [gate| | | |] eqn:Hw; try done.
  assert (∃ outcome, ordinary_outcome (rd_state r) = Some outcome) as [outcome Ho]
    by (unfold ordinary_outcome; rewrite Hw; destruct gate as [| |? []]; eauto).
  rewrite Ho in *. case_bool_decide.
  - destruct (derive_exports (rd_state r)) as [exports|] eqn:He.
    + exfalso. eapply strictly_absurd; [by apply finish_run_strictly; eauto|reflexivity|exact Hf|exact Hn].
    + unfold finish_run. by rewrite He.
  - exfalso. rewrite next_sequence_eq in *. destruct (bump_strictly _ Hc) as [E Hs].
    destruct (ordinary_force_abort (rd_state r)); cbn in Hf, Hn; destruct (Hs Hf); lia.
Qed.

Lemma finish_quiet f :
  took_none (finish_finalization_if_terminal r) → is_finalizing (rs_workflow (rd_state r)) = true →
  rs_finalization (rd_state r) = Some f →
  finish_finalization_if_terminal r = r
  ∧ (forallb (step_is is_terminal (rd_state r)) (def_finalizer_ids (rs_definition (rd_state r))) = true →
     derive_exports (rd_state r) = None).
Proof.
  intros [Hf Hn] Hfin Hfr. unfold finish_finalization_if_terminal in *. rewrite Hfin, Hfr in *. cbn [negb orb] in *.
  destruct (forallb _ _); cbn [negb] in *; [|done].
  destruct (derive_exports (rd_state r)) as [exports|] eqn:He.
  - exfalso. eapply strictly_absurd; [by apply finish_run_strictly; eauto|reflexivity|exact Hf|exact Hn].
  - unfold finish_run. by rewrite He.
Qed.

(** What follows the blocking of a finalizer. *)
Lemma settled_finalizer_counts s d x detail (k : Red → Red) :
  is_finalizing (rs_workflow (rd_state r)) = true → ordinary_force_abort (rd_state r) = false →
  s ∈ role_ids (rd_state r) RoleFinalizer → node_at (rd_state r) s d x → ss_state x = SPending →
  (has_condition d = true ∧ blocked_detail_new (condition_blockers (rd_state r) d) = Ok detail
   ∨ finalizer_ready (rd_state r) s d = true
     ∧ blocked_detail_new (body_prerequisites (unavailable_references (rd_state r) d)) = Ok detail) →
  (∀ r', is_finalizing (rs_workflow (rd_state r')) = true → ordinary_force_abort (rd_state r') = false →
     node_moves r' (k r')) →
  counts (rd_state (settle_blocked r s detail)) (rd_state (k (settle_blocked r s detail))).
Proof.
  intros Hfin Hforce Hin Hat Hp Hreason Hk.
  assert (Hi : internal_node r (settle_blocked r s detail)).
  { erewrite settle_blocked_eq by done. apply int_blocked; [done..|]. unfold block_reason.
    by rewrite (wf_role_ids _ _ _ _ Hwf Hin (proj2 Hat)). }
  assert (Hwf1 : wf (rd_state (settle_blocked r s detail))) by (eapply same_nodes_wf; [by apply internal_node_same|done]).
  apply node_moves_counts; [done| |].
  - eapply counts_ceiling; [by eapply strictly_counts, settle_blocked_strictly|done].
  - destruct (internal_node_phase _ _ Hi) as (_ & Hfin' & _ & Hforce').
    apply Hk; [by rewrite Hfin'| |done]. unfold ordinary_force_abort in *. by rewrite Hforce'.
Qed.

Lemma condition_blocks_quiet n :
  is_finalizing (rs_workflow (rd_state r)) = true → ordinary_force_abort (rd_state r) = false →
  took_none (propagate_condition_blocks_loop (S n) r) →
  propagate_condition_blocks_loop (S n) r = r ∧ next_finalizer_condition_block (rd_state r) = None.
Proof.
  intros Hfin Hforce [Hf Hn]. cbn [propagate_condition_blocks_loop] in *.
  destruct (next_finalizer_condition_block (rd_state r)) as [[t detail]|] eqn:Hnext; [exfalso|done].
  apply find_map_Some in Hnext as (s & Hin & (-> & d & x & Hat & Hp & Hcond & Hb)%finalizer_condition_block_spec).
  eapply strictly_absurd; [by eapply settle_blocked_strictly|..|exact Hf|exact Hn].
  by apply (settled_finalizer_counts t d x detail (propagate_condition_blocks_loop n)); eauto using condition_blocks_moves.
Qed.

Lemma input_unavailable_quiet n :
  is_finalizing (rs_workflow (rd_state r)) = true → ordinary_force_abort (rd_state r) = false →
  definition_evidence_ok (rs_definition (rd_state r)) →
  took_none (propagate_input_unavailable_loop (S n) r) →
  propagate_input_unavailable_loop (S n) r = r ∧ next_input_unavailable (rd_state r) = None.
Proof.
  intros Hfin Hforce Hev [Hf Hn]. cbn [propagate_input_unavailable_loop] in *.
  destruct (next_input_unavailable (rd_state r)) as [[t refs]|] eqn:Hnext; [exfalso|done].
  apply find_map_Some in Hnext as (s & Hin & (-> & d & x & Hat & Hready & -> & Hne)%input_unavailable_spec).
  destruct (unavailable_evidence (rd_state r) d) as [detail Hdetail]; [by eapply Hev; apply Hat|done|]. rewrite Hdetail in *.
  eapply strictly_absurd; [by eapply settle_blocked_strictly|..|exact Hf|exact Hn].
  eapply (settled_finalizer_counts t d x detail (propagate_input_unavailable_loop n));
    eauto using finalizer_ready_pending, input_unavailable_moves.
Qed.

End loops.
Lemma took_none_split r r1 r2 :
  counts (rd_state r) (rd_state r1) → counts (rd_state r1) (rd_state r2) → took_none r r2 →
  took_none r r1 ∧ took_none r1 r2.
Proof.
  intros [_ H1] [_ H2] [Hf Hn]. destruct (H2 Hf) as [Hf1 ?]. destruct (H1 Hf1) as [? ?].
  unfold took_none. split; (split; [done|]); lia.
Qed.

Lemma propagate_finalizer_quiet r f :
  wf (rd_state r) → ceiling_ok (rd_state r) → is_finalizing (rs_workflow (rd_state r)) = true →
  ordinary_force_abort (rd_state r) = false →
  definition_evidence_ok (rs_definition (rd_state r)) → rs_finalization (rd_state r) = Some f →
  took_none r (propagate_finalizer_dispositions r) →
  propagate_finalizer_dispositions r = r
  ∧ (∀ s d x, node_at (rd_state r) s d x → rt_role d = RoleFinalizer → ss_state x = SPending → fnr_trigger f ∈ rt_when d)
  ∧ next_finalizer_condition_block (rd_state r) = None ∧ next_input_unavailable (rd_state r) = None.
Proof.
  intros Hwf Hc Hfin Hforce Hev Hfr Ht. unfold propagate_finalizer_dispositions in *. cbv zeta in *.
  pose proof (trigger_dispositions_moves r Hfin Hwf) as M0.
  destruct (node_moves_keep _ _ M0 Hwf) as (Hwf0 & _ & Hfin0 & Hforce0). rewrite Hfin in Hfin0. rewrite Hforce in Hforce0.
  pose proof (node_moves_counts _ _ Hwf Hc M0) as C0. pose proof (counts_ceiling _ _ C0 Hc) as Hc0.
  pose proof (condition_blocks_moves (S (length (def_finalizer_ids (rs_definition (rd_state
    (propagate_finalizer_trigger_dispositions r)))))) _ Hfin0 Hforce0 Hwf0) as M1.
  destruct (node_moves_keep _ _ M1 Hwf0) as (Hwf1 & _ & Hfin1 & Hforce1). rewrite Hfin0 in Hfin1. rewrite Hforce0 in Hforce1.
  pose proof (node_moves_counts _ _ Hwf0 Hc0 M1) as C1. pose proof (counts_ceiling _ _ C1 Hc0) as Hc1.
  pose proof (input_unavailable_moves (S (length (def_finalizer_ids (rs_definition (rd_state
    (propagate_finalizer_trigger_dispositions r)))))) _ Hfin1 Hforce1 Hwf1) as M2.
  pose proof (node_moves_counts _ _ Hwf1 Hc1 M2) as C2.
  destruct (took_none_split _ _ _ C0 (transitivity C1 C2) Ht) as [T0 T12].
  destruct (took_none_split _ _ _ C1 C2 T12) as [T1 T2].
  assert (E0 : propagate_finalizer_trigger_dispositions r = r
    ∧ ∀ s d x, node_at (rd_state r) s d x → rt_role d = RoleFinalizer → ss_state x = SPending → fnr_trigger f ∈ rt_when d).
  { unfold propagate_finalizer_trigger_dispositions in *. rewrite Hfr in *.
    apply foldl_strictly_quiet in T0; [|done|intros r' t; apply transition_strictly]. rewrite T0. split; [done|].
    intros s d x Hat Hrole Hp. destruct (decide (fnr_trigger f ∈ rt_when d)) as [|Hno]; [done|exfalso].
    assert (Hin : In s []); [|done]. rewrite <-T0. apply filter_In. split.
    - apply list_elem_of_In, (wf_role_ids_iff _ RoleFinalizer); [done|]. exists d. split; [apply Hat|done].
    - rewrite (step_is_at _ _ _ _ _ Hat), (proj2 Hat), Hp. simpl. by rewrite bool_decide_eq_false_2. }
  destruct E0 as [E0 Hwhen]. rewrite E0 in *.
  apply condition_blocks_quiet in T1 as [E1 N1]; [|done..]. rewrite E1 in *.
  apply input_unavailable_quiet in T2 as [E2 N2]; [|done..]. by rewrite E2.
Qed.

(** ** Settled states *)

(** Nothing of a role is left to evaluate. *)
Definition evaluated st (role : WorkflowNodeRole) : Prop :=
  ∀ r, rd_state r = st → evaluate_ready_condition r role = None.

Definition nothing_ready st (role : WorkflowNodeRole) : Prop :=
  role_gate_open (rs_workflow st) role = true →
  active_count st < def_maximum_parallel_steps (rs_definition st) →
  ∀ s d, s ∈ role_ids st role → def_step st s = Some d → node_ready st role s d = false.

Definition settled st : Prop :=
  match rs_workflow st with
  | WExecuting _ =>
      next_ordinary_pending_disposition st = None ∧ evaluated st RoleStep ∧ nothing_ready st RoleStep
      ∧ (forallb (step_is is_terminal st) (def_ordinary_ids (rs_definition st)) = true →
         def_finalizer_ids (rs_definition st) = [] ∧ derive_exports st = None)
  | WFinalizing trigger FinOpen _ =>
      (∀ s d x, node_at st s d x → rt_role d = RoleFinalizer → ss_state x = SPending → trigger ∈ rt_when d)
      ∧ next_finalizer_condition_block st = None ∧ next_input_unavailable st = None
      ∧ evaluated st RoleFinalizer ∧ nothing_ready st RoleFinalizer
      ∧ (forallb (step_is is_terminal st) (def_finalizer_ids (rs_definition st)) = true → derive_exports st = None)
  | WFinalizing _ (FinCancelling _ _ _) _ =>
      (ordinary_force_abort st = true → all_of st RoleFinalizer (λ v, v ≠ SPending))
      ∧ (forallb (step_is is_terminal st) (def_finalizer_ids (rs_definition st)) = true → derive_exports st = None)
  | _ => True
  end.

(** No node goes back to [Pending]. *)
Lemma node_step_not_pending st s d x y : node_step st s d x y → ss_state x ≠ SPending → ss_state y ≠ SPending.
Proof.
  destruct 1; simpl; try done;
    try (match goal with Hb : bookkeeping _ _ |- _ => by rewrite (bookkeeping_state _ _ Hb) end).
Qed.

Lemma moves_not_pending role r r' :
  rtc move r r' → wf (rd_state r) → all_of (rd_state r) role (λ v, v ≠ SPending) →
  all_of (rd_state r') role (λ v, v ≠ SPending).
Proof.
  intros Hm Hwf Hall.
  apply (moves_invariant (λ st, all_of st role (λ v, v ≠ SPending)) (rs_definition (rd_state r)) r r') in Hm as [? _];
    [done| |done..]. clear Hm Hwf Hall. intros r1 r2 Hm Hwf _ Hall.
  destruct (move_changed _ _ Hwf Hm) as [(s & d & x & y & Hat & Hstep & Hst & _)|[Hst _]].
  - eapply all_of_changed; [by apply move_definition|done..|]. intros _. by eapply node_step_not_pending.
  - eapply all_of_same; [by apply move_definition|done..].
Qed.

Lemma evaluate_none_state r r' role :
  rd_state r' = rd_state r → evaluate_ready_condition r role = None → evaluate_ready_condition r' role = None.
Proof.
  intros E. unfold evaluate_ready_condition. rewrite E.
  destruct (List.find _ _) as [s|]; [cbn|done]. destruct (def_step _ s) as [d|]; [cbn|done].
  destruct (rt_condition d) as [p|]; [cbn|done]. destruct (evaluate_condition _ d p); [done| | |done].
  - by destruct (condition_false_detail_new _).
  - by destruct (json_pointer_missing _ _).
Qed.

Lemma evaluate_exit r role :
  wf (rd_state r) → evaluated (rd_state (evaluate_ready_conditions r role)) role.
Proof.
  intros Hwf r' E. eapply evaluate_none_state; [exact E|].
  exact (runs_to_exit _ _ _ (evaluate_ready_conditions_terminate r role Hwf)).
Qed.

Lemma select_none r role :
  wf (rd_state r) → ceiling_ok (rd_state r) → took_none r (select_ready_nodes r role) →
  select_ready_nodes r role = r ∧ nothing_ready (rd_state r) role.
Proof.
  intros Hwf Hc Ht. destruct (role_gate_open (rs_workflow (rd_state r)) role) eqn:Hg.
  - destruct (decide (active_count (rd_state r) < def_maximum_parallel_steps (rs_definition (rd_state r)))) as [Hlt|Hge].
    + destruct (select_quiet r Hc role Ht Hg Hlt) as [E Hn]. split; [done|]. intros _ _. exact Hn.
    + split; [|intros _ ?; lia]. unfold select_ready_nodes. rewrite Hg. cbn [negb].
      by replace (def_maximum_parallel_steps (rs_definition (rd_state r)) - active_count (rd_state r)) with 0 by lia.
  - split; [by apply select_closed|]. intros Hopen. congruence.
Qed.
(** A number was taken by no part of an executing round. *)
Lemma executing_round_settled r gate :
  wf (rd_state r) → ceiling_ok (rd_state r) → rs_workflow (rd_state r) = WExecuting gate →
  took_none r (stabilize_round r) → settled (rd_state (stabilize_round r)).
Proof.
  intros Hwf Hc Hw Ht. assert (Hex : is_executing (rs_workflow (rd_state r)) = true) by by rewrite Hw.
  unfold stabilize_round in *. rewrite Hw in Ht |- *.
  set (r1 := propagate_ordinary_pending_dispositions r) in *.
  set (r2 := evaluate_ready_conditions r1 RoleStep) in *.
  set (r3 := propagate_ordinary_pending_dispositions r2) in *. set (r4 := select_ready_nodes r3 RoleStep) in *.
  assert (M1 : rtc internal_node r r1) by by apply propagate_ordinary_moves.
  destruct (node_moves_keep _ _ M1 Hwf) as (Hwf1 & Hex1 & _). pose proof (node_moves_counts _ _ Hwf Hc M1) as C1.
  pose proof (counts_ceiling _ _ C1 Hc) as Hc1.
  assert (M2 : rtc internal_node r1 r2) by by apply evaluate_ready_conditions_moves.
  destruct (node_moves_keep _ _ M2 Hwf1) as (Hwf2 & Hex2 & _). pose proof (node_moves_counts _ _ Hwf1 Hc1 M2) as C2.
  pose proof (counts_ceiling _ _ C2 Hc1) as Hc2.
  assert (M3 : rtc internal_node r2 r3) by (apply propagate_ordinary_moves; congruence).
  destruct (node_moves_keep _ _ M3 Hwf2) as (Hwf3 & Hex3 & _). pose proof (node_moves_counts _ _ Hwf2 Hc2 M3) as C3.
  pose proof (counts_ceiling _ _ C3 Hc2) as Hc3.
  assert (M4 : rtc internal_node r3 r4) by by apply select_ready_nodes_moves.
  destruct (node_moves_keep _ _ M4 Hwf3) as (Hwf4 & Hex4 & _). pose proof (node_moves_counts _ _ Hwf3 Hc3 M4) as C4.
  pose proof (counts_ceiling _ _ C4 Hc3) as Hc4.
  pose proof (moves_counts _ _ Hwf4 Hc4 (internal_moves_move _ _ (enter_finalization_moves r4))) as C5.
  destruct (took_none_split _ _ _ C1 (transitivity C2 (transitivity C3 (transitivity C4 C5))) Ht) as [_ T2].
  destruct (took_none_split _ _ _ C2 (transitivity C3 (transitivity C4 C5)) T2) as [_ T3].
  destruct (took_none_split _ _ _ C3 (transitivity C4 C5) T3) as [T3' T4].
  destruct (took_none_split _ _ _ C4 C5 T4) as [T4' T5].
  apply propagate_ordinary_quiet in T3' as [E3 Hnext]; [|done..|congruence]. fold r3 in E3.
  apply select_none in T4' as [E4 Hready]; [|done..]. fold r4 in E4.
  apply enter_quiet in T5 as [E5 Hexp]; [|done|congruence].
  rewrite E5. rewrite E4 in *. rewrite E3 in *.
  assert (∃ gate', rs_workflow (rd_state r2) = WExecuting gate') as [gate' Hw2].
  { destruct (rs_workflow (rd_state r2)) eqn:E; simpl in *; eauto; congruence. }
  unfold settled. rewrite Hw2. split_and!; [done|by apply evaluate_exit|done|done].
Qed.

Lemma finalizing_round_settled r f :
  wf (rd_state r) → ceiling_ok (rd_state r) → phase_ok (rd_state r) →
  is_finalizing (rs_workflow (rd_state r)) = true → ordinary_force_abort (rd_state r) = false →
  definition_evidence_ok (rs_definition (rd_state r)) → rs_finalization (rd_state r) = Some f →
  took_none r (stabilize_round r) → phase_ok (rd_state (stabilize_round r)) → settled (rd_state (stabilize_round r)).
Proof.
  intros Hwf Hc Hph Hfin Hforce Hev Hfr.
  assert (∃ trigger gate issue, rs_workflow (rd_state r) = WFinalizing trigger gate issue) as (trigger & gate & issue & Hw).
  { destruct (rs_workflow (rd_state r)); simpl in Hfin; try discriminate; eauto. }
  unfold stabilize_round. rewrite Hw, Hforce. cbv zeta.
  set (r1 := propagate_finalizer_dispositions r) in *.
  set (r2 := evaluate_ready_conditions r1 RoleFinalizer) in *.
  set (r3 := propagate_finalizer_dispositions r2) in *. set (r4 := select_ready_nodes r3 RoleFinalizer) in *.
  intros Ht Hph'. assert (M1 : rtc internal_node r r1) by by apply propagate_finalizer_moves.
  destruct (node_moves_keep _ _ M1 Hwf) as (Hwf1 & _ & Hfin1 & Hforce1). pose proof (node_moves_counts _ _ Hwf Hc M1) as C1.
  pose proof (counts_ceiling _ _ C1 Hc) as Hc1.
  assert (M2 : rtc internal_node r1 r2) by by apply evaluate_ready_conditions_moves.
  destruct (node_moves_keep _ _ M2 Hwf1) as (Hwf2 & _ & Hfin2 & Hforce2). pose proof (node_moves_counts _ _ Hwf1 Hc1 M2) as C2.
  pose proof (counts_ceiling _ _ C2 Hc1) as Hc2.
  assert (M3 : rtc internal_node r2 r3) by (apply propagate_finalizer_moves; congruence).
  destruct (node_moves_keep _ _ M3 Hwf2) as (Hwf3 & _ & Hfin3 & _). pose proof (node_moves_counts _ _ Hwf2 Hc2 M3) as C3.
  pose proof (counts_ceiling _ _ C3 Hc2) as Hc3.
  assert (M4 : rtc internal_node r3 r4) by by apply select_ready_nodes_moves.
  destruct (node_moves_keep _ _ M4 Hwf3) as (Hwf4 & _ & Hfin4 & _). pose proof (node_moves_counts _ _ Hwf3 Hc3 M4) as C4.
  pose proof (counts_ceiling _ _ C4 Hc3) as Hc4.
  pose proof (moves_counts _ _ Hwf4 Hc4 (internal_moves_move _ _ (finish_finalization_moves r4))) as C5.
  destruct (took_none_split _ _ _ C1 (transitivity C2 (transitivity C3 (transitivity C4 C5))) Ht) as [_ T2].
  destruct (took_none_split _ _ _ C2 (transitivity C3 (transitivity C4 C5)) T2) as [_ T3].
  destruct (took_none_split _ _ _ C3 (transitivity C4 C5) T3) as [T3' T4].
  destruct (took_none_split _ _ _ C4 C5 T4) as [T4' T5].
  assert (Hfr2 : rs_finalization (rd_state r2) = Some f).
  { pose proof (internal_nodes_phase _ _ (transitivity M1 M2)) as (_ & _ & -> & _). done. }
  assert (Hev2 : definition_evidence_ok (rs_definition (rd_state r2))) by (rewrite (proj1 C2), (proj1 C1); done).
  eapply propagate_finalizer_quiet in T3' as (E3 & Hwhen & Hblock & Hinput); [|done..|congruence|congruence|done|done]. fold r3 in E3.
  apply select_none in T4' as [E4 Hready]; [|done..]. fold r4 in E4.
  rewrite E4 in *. rewrite E3 in *. eapply finish_quiet in T5 as [E5 Hexp]; [|done|congruence|done].
  rewrite E5 in Hph' |- *. unfold phase_ok in Hph'. unfold settled.
  assert (∃ trigger2 gate2 issue2, rs_workflow (rd_state r2) = WFinalizing trigger2 gate2 issue2)
    as (trigger2 & gate2 & issue2 & Hw2).
  { assert (is_finalizing (rs_workflow (rd_state r2)) = true) as Hf2 by congruence.
    destruct (rs_workflow (rd_state r2)); simpl in Hf2; try discriminate; eauto. }
  rewrite Hw2 in Hph' |- *. destruct gate2 as [|].
  2: { split; [|exact Hexp]. pose proof (internal_nodes_phase _ _ (transitivity M1 M2)) as (_ & _ & _ & Hfa).
       unfold ordinary_force_abort in *. rewrite Hfa, Hforce. discriminate. }
  destruct Hph' as (_ & _ & _ & f' & Hf' & <- & _). rewrite Hfr2 in Hf'. injection Hf' as <-.
  split; [exact Hwhen|]. split; [exact Hblock|]. split; [exact Hinput|].
  split; [by apply evaluate_exit|]. split; [exact Hready|exact Hexp].
Qed.
Lemma moves_phase_ok r r' : rtc move r r' → wf (rd_state r) → phase_ok (rd_state r) → phase_ok (rd_state r').
Proof.
  induction 1 as [|r1 r2 r3 Hm _ IH]; [done|]. intros Hwf Hok. apply IH; [by eapply move_wf|by eapply move_phase_ok].
Qed.

(** With an ordinary force abort, finalization is never open, and a quiet
    round found no pending finalizer. *)
Lemma suppressed_not_pending r :
  wf (rd_state r) → ceiling_ok (rd_state r) → is_finalizing (rs_workflow (rd_state r)) = true →
  ordinary_force_abort (rd_state r) = true → took_none r (finalizing_round r) →
  all_of (rd_state (finalizing_round r)) RoleFinalizer (λ v, v ≠ SPending).
Proof.
  intros Hwf Hc Hfin Hforce. unfold finalizing_round. rewrite Hforce. cbv zeta.
  set (r1 := propagate_finalizer_trigger_dispositions r). set (r2 := cancel_pending_nodes r1 RoleFinalizer ForceAbort).
  set (r3 := evaluate_ready_conditions r2 RoleFinalizer). intros Ht.
  assert (M1 : rtc internal_node r r1) by by apply trigger_dispositions_moves.
  destruct (node_moves_keep _ _ M1 Hwf) as (Hwf1 & _ & Hfin1 & Hforce1). rewrite Hfin in Hfin1. rewrite Hforce in Hforce1.
  pose proof (node_moves_counts _ _ Hwf Hc M1) as C1. pose proof (counts_ceiling _ _ C1 Hc) as Hc1.
  assert (M2 : rtc internal_node r1 r2) by by apply cancel_pending_moves.
  destruct (node_moves_keep _ _ M2 Hwf1) as (Hwf2 & _). pose proof (node_moves_counts _ _ Hwf1 Hc1 M2) as C2.
  pose proof (counts_ceiling _ _ C2 Hc1) as Hc2.
  assert (M3 : rtc internal_node r2 (select_ready_nodes r3 RoleFinalizer)).
  { assert (M : rtc internal_node r2 r3) by by apply evaluate_ready_conditions_moves. etrans; [exact M|].
    apply select_ready_nodes_moves. by apply (node_moves_keep _ _ M Hwf2). }
  pose proof (node_moves_counts _ _ Hwf2 Hc2 M3) as C3.
  destruct (took_none_split _ _ _ C1 (transitivity C2 C3) Ht) as [_ T2].
  destruct (took_none_split _ _ _ C2 C3 T2) as [T2' _].
  apply (moves_not_pending RoleFinalizer r1); [apply internal_moves_move, node_moves_internal; by etrans|done|].
  unfold r2, cancel_pending_nodes in T2'. apply foldl_strictly_quiet in T2' as Hnil;
    [|done|intros r' s'; apply transition_strictly].
  intros s d x Hat Hrole Hp. assert (Hin : s ∈ @nil string); [|by apply elem_of_nil in Hin]. rewrite <-Hnil.
  apply list_elem_of_omap. exists (s, d). split; [apply bt_get_elem_of, Hat|].
  by rewrite bool_decide_eq_true_2, (step_is_at _ _ _ _ _ Hat), Hp.
Qed.

Lemma suppressed_round_settled r f :
  wf (rd_state r) → ceiling_ok (rd_state r) → phase_ok (rd_state r) → is_finalizing (rs_workflow (rd_state r)) = true →
  ordinary_force_abort (rd_state r) = true → rs_finalization (rd_state r) = Some f →
  took_none r (stabilize_round r) → phase_ok (rd_state (stabilize_round r)) → settled (rd_state (stabilize_round r)).
Proof.
  intros Hwf Hc Hph Hfin Hforce Hfr.
  assert (∃ trigger gate issue, rs_workflow (rd_state r) = WFinalizing trigger gate issue) as (trigger & gate & issue & Hw).
  { destruct (rs_workflow (rd_state r)); simpl in Hfin; try discriminate; eauto. }
  assert (Heq : stabilize_round r = finish_finalization_if_terminal (finalizing_round r))
    by (unfold stabilize_round; by rewrite Hw).
  rewrite Heq. pose proof (finalizing_round_moves r Hfin Hwf) as M.
  pose proof (suppressed_not_pending r Hwf Hc Hfin Hforce) as Hnp. set (r4 := finalizing_round r) in *.
  destruct (node_moves_keep _ _ M Hwf) as (Hwf4 & _ & Hfin4 & Hforce4). rewrite Hfin in Hfin4. rewrite Hforce in Hforce4.
  pose proof (node_moves_counts _ _ Hwf Hc M) as C4. pose proof (counts_ceiling _ _ C4 Hc) as Hc4.
  pose proof (moves_counts _ _ Hwf4 Hc4 (internal_moves_move _ _ (finish_finalization_moves r4))) as C5.
  intros Ht Hph'. destruct (took_none_split _ _ _ C4 C5 Ht) as [T4 T5]. specialize (Hnp T4).
  assert (Hfr4 : rs_finalization (rd_state r4) = Some f) by (by rewrite (proj1 (proj2 (proj2 (internal_nodes_phase _ _ M))))).
  eapply finish_quiet in T5 as [E5 Hexp]; [|done|done|done]. rewrite E5 in Hph' |- *.
  unfold phase_ok in Hph'. unfold settled. revert Hph' Hfin4.
  destruct (rs_workflow (rd_state r4)) as [|t [|] i| | |]; intros Hph' Hfin4; try discriminate Hfin4.
  - destruct Hph' as (_ & _ & [Hnone|(? & ? & ?)] & _); [|discriminate]. unfold ordinary_force_abort in Hforce4.
    rewrite Hnone in Hforce4. discriminate.
  - by split.
Qed.

Lemma stabilizes_settled r r' :
  stabilizes r r' → wf (rd_state r) → ceiling_ok (rd_state r) → phase_ok (rd_state r) →
  definition_evidence_ok (rs_definition (rd_state r)) → exceeded (rd_state r') = false → settled (rd_state r').
Proof.
  induction 1 as [r Hsame|r r' _ _ IH]; intros Hwf Hc Hph Hev Hf;
    pose proof (internal_moves_move _ _ (stabilize_round_moves r Hwf)) as Hm;
    pose proof (moves_phase_ok _ _ Hm Hwf Hph) as Hph';
    pose proof (moves_same _ _ Hm) as Hsn.
  - assert (Ht : took_none r (stabilize_round r)) by by split.
    destruct (rs_workflow (rd_state r)) as [gate|trigger gate issue| | |] eqn:Hw.
    + by eapply executing_round_settled.
    + assert (Hfin : is_finalizing (rs_workflow (rd_state r)) = true) by by rewrite Hw.
      pose proof Hph as Hph0. unfold phase_ok in Hph0. rewrite Hw in Hph0. destruct Hph0 as (_ & _ & _ & f & Hfr & _).
      destruct (ordinary_force_abort (rd_state r)) eqn:Hforce;
        [by eapply suppressed_round_settled|by eapply finalizing_round_settled].
    + unfold stabilize_round, settled. rewrite Hw. by rewrite Hw.
    + unfold stabilize_round, settled. rewrite Hw. by rewrite Hw.
    + unfold stabilize_round, settled. rewrite Hw. by rewrite Hw.
  - apply IH; [by eapply same_nodes_wf|by eapply counts_ceiling; [by apply moves_counts|]|done|by rewrite (proj1 Hsn)|done].
Qed.

Lemma stabilize_settled r :
  wf (rd_state r) → ceiling_ok (rd_state r) → phase_ok (rd_state r) →
  definition_evidence_ok (rs_definition (rd_state r)) → (numbers (rd_state r) <= u64_max)%N →
  exceeded (rd_state (stabilize r)) = false → settled (rd_state (stabilize r)).
Proof.
  intros Hwf Hc Hph Hev Hn Hf. eapply stabilizes_settled; [|done..].
  apply stabilize_loop_terminates; [done..|lia].
Qed.
Lemma moves_bounded r r' :
  wf (rd_state r) → rtc move r r' → (numbers (rd_state r) <= u64_max)%N → (numbers (rd_state r') <= u64_max)%N.
Proof.
  intros Hwf Hm%moves_logged; [|done]. clear Hwf. induction Hm as [|r1 r2 r3 Hl _ IH]; [done|]. intros Hle.
  apply IH. by apply (logged_sequence _ _ Hl).
Qed.

(** Every state between two occurrences is settled. *)
Lemma reachable_settled D st :
  definition_wf D → (def_maximum_transitions D < u64_max)%N → definition_evidence_ok D →
  reachable (Provisional := Provisional) D st → exceeded st = false →
  settled st ∧ (numbers st <= u64_max)%N.
Proof.
  intros HD Hmax Hev. induction 1 as [c seed Hs|st o Hr IH]; intros Hf.
  - unfold initialize_seeded_definition in *. set (r0 := set_accepted true _ : Red) in *.
    assert (Hwf0 : wf (rd_state r0)) by by apply initial_wf.
    assert (Hc : rtc external r0 (apply_initial_cancellation c r0)).
    { destruct c as [[]|]; simpl; [by apply cancellation_moves|by apply force_abort_moves|done]. }
    apply external_moves_move in Hc. pose proof (moves_same _ _ Hc) as Hsn.
    assert (Hwf1 : wf (rd_state (apply_initial_cancellation c r0))) by by eapply same_nodes_wf.
    assert (Hn1 : (numbers (rd_state (apply_initial_cancellation c r0)) <= u64_max)%N)
      by (apply (moves_bounded r0); [done|done|]; cbn; lia).
    split.
    + apply stabilize_settled; try done.
      * unfold ceiling_ok. by rewrite (proj1 Hsn).
      * eapply moves_phase_ok; [exact Hc|done|]. by apply initial_phase_ok.
      * by rewrite (proj1 Hsn).
    + eapply moves_bounded; [exact Hwf1|apply internal_moves_move, stabilize_moves, Hwf1|done].
  - destruct (reachable_node_ok D st HD Hr) as (Hn & Hwf & HDs).
    destruct (reachable_phase_ok D st HD Hr) as [Hph _].
    pose proof (reduce_moves st o Hwf) as Hm.
    assert (Hc : counts st (rd_state (reduce st o)))
      by (apply (moves_counts (begin st)); [done|unfold ceiling_ok; cbn; by rewrite HDs|done]).
    destruct (IH (proj1 (proj2 Hc Hf))) as [Hset Hle].
    split; [|by apply (moves_bounded (begin st)) in Hm].
    destruct (is_finished (rs_workflow st)) eqn:Hfin.
    { unfold reduce. rewrite Hfin. done. }
    destruct (reduce_cases st o Hwf Hfin) as [(r & Happly & Heq)|(r & Happly & Heq & _ & _)].
    + rewrite Heq. destruct (apply_occurrence_rejected st o r Hwf Hn Hfin Happly) as [-> _]. done.
    + rewrite Heq in *. pose proof (apply_occurrence_moves (begin st) o Hwf) as Ho. rewrite Happly in Ho. cbn [snd] in Ho.
      apply external_moves_move in Ho. pose proof (moves_same _ _ Ho) as Hsn.
      apply stabilize_settled; [by eapply (same_nodes_wf (begin st) r)|..|done].
      * unfold ceiling_ok. cbn. rewrite (proj1 Hsn). cbn. by rewrite HDs.
      * by apply (moves_phase_ok (begin st) r).
      * cbn. rewrite (proj1 Hsn). cbn. by rewrite HDs.
      * by apply (moves_bounded (begin st) r).
Qed.
End quiet.
