(* ===== verification/Cancelling.v ===== *)
(** * Runs that are being cancelled

    Once a phase is being cancelled, its nodes are cancelling or terminal: a
    cancellation reaches every node of its phase in the reduction that
    accepts it, and nothing else closes a phase.  The exception is a
    finalization entered after a force abort, whose finalizers are cancelled
    by the stabilisation that enters it. *)

From S2P Require Import Prelude Text Nodes Evidence Condition Validated Runtime Reducer Moves Refinement Views Stabilize Occurrences Runs NodeSteps NodeInvariants Phases Scheduling Containment.

Section cancelling.
Context {Provisional Cause Output Deadline : Type}.
Context `{!SerdeJson, !NodeFailureSource Cause, !ConditionOutput Output,
          !ProvisionalStepResources Provisional}.

Local Abbreviation State := (RuntimeState Cause Output Deadline).
Local Abbreviation Red := (Reduction Provisional Cause Output Deadline).
Local Abbreviation Step := (StepRuntimeState Cause Output).
Local Abbreviation Occ := (Occurrence Provisional Cause Output Deadline).

Implicit Types (st : State) (r : Red) (x y : Step) (s t : string) (d : RuntimeStep) (D : RuntimeDefinition) (o : Occ).

(** ** Occurrences that close no phase *)

Definition cancellation_requested o : bool :=
  match o with
  | CancellationOperationRequested _ _ _ | OrdinaryCancellationOperationRequested _ _ _ | ForceAbortRequested _ _ => true
  | _ => false
  end.

Definition same_gates r r' : Prop :=
  ∀ role, role_cancelling (rs_workflow (rd_state r')) role = role_cancelling (rs_workflow (rd_state r)) role.

#[local] Instance same_gates_preorder : PreOrder same_gates.
Proof. split; [done|]. intros r1 r2 r3 H12 H23 role. by rewrite H23. Qed.

Lemma same_workflow_gates r r' : rs_workflow (rd_state r') = rs_workflow (rd_state r) → same_gates r r'.
Proof. intros E role. by rewrite E. Qed.

Lemma transition_gates r s v a : same_gates r (transition_step r s v a).2.
Proof.
  apply same_workflow_gates. unfold transition_step. rewrite next_sequence_eq.
  destruct (rs_steps _ !! s); simpl; by rewrite bump_workflow.
Qed.

Lemma commit_gates r d issue : same_gates r (commit_required_issue r d issue).
Proof.
  intros role. rewrite commit_required_issue_eq. unfold committed_workflow.
  destruct (rt_failure_policy d), (rt_role d), (rs_workflow (rd_state r)) as [[]|[] [] []| | |] eqn:E; simpl;
    rewrite ?bump_workflow, ?E; try done; by destruct role.
Qed.

Lemma settle_failure_gates r s d detail : same_gates r (settle_target_failure r s d detail).
Proof.
  unfold settle_target_failure. pose proof (transition_gates r s (SFailed detail) None) as Ht.
  destruct (transition_step r s (SFailed detail) None) as [n r1]. cbn [snd] in Ht.
  etrans; [exact Ht|]. etrans; [|apply commit_gates]. by apply same_workflow_gates.
Qed.

Lemma settle_latest_gates r s : same_gates r (settle_latest_target_failure r s).
Proof.
  unfold settle_latest_target_failure. destruct (latest_target_failure (rd_state r) s); [|done].
  destruct (def_step (rd_state r) s); [apply settle_failure_gates|done].
Qed.

Lemma authorize_gates r s n inputs : same_gates r (authorize_target r s n inputs).
Proof.
  unfold authorize_target. set (r0 := map_state _ r).
  pose proof (transition_gates r0 s SStarting None) as Ht. destruct (transition_step r0 s SStarting None) as [k r1].
  cbn [snd] in Ht. etrans; [|by apply same_workflow_gates]. by etrans; [|exact Ht].
Qed.

Lemma mark_recovered_gates s r : same_gates r (mark_recovered s r).
Proof. unfold mark_recovered. by destruct (activated_recovery_execution (rd_state r) s). Qed.

Lemma mark_exhausted_gates s r : same_gates r (map_state (mark_recovery_exhausted s) r).
Proof.
  apply same_workflow_gates. simpl. unfold mark_recovery_exhausted.
  by destruct (activated_recovery_execution (rd_state r) s).
Qed.

Lemma mark_cancelled_gates s active r : same_gates r (map_state (mark_recovery_cancelled s active) r).
Proof. apply same_workflow_gates. simpl. unfold mark_recovery_cancelled. by destruct (_ ≫= _). Qed.

Lemma activate_gates r s phase detail cause : same_gates r (activate_recovery_round r s phase detail cause).2.
Proof.
  unfold activate_recovery_round. destruct (recovery_round_available (rd_state r) s) as [[[[round e] i] [kind|]]|]; [..|done].
  - set (r0 := map_state _ (map_state _ r)). pose proof (transition_gates r0 s (SRecovering round HandlerStarting) None) as Ht.
    destruct (transition_step r0 s (SRecovering round HandlerStarting) None) as [k r1]. cbn [snd] in Ht |- *.
    etrans; [|by apply same_workflow_gates]. by etrans; [|exact Ht].
  - destruct (execution_next e); [|done]. destruct (def_step _ s); [|done]. cbn [snd]. etrans; [|apply authorize_gates].
    by apply same_workflow_gates.
Qed.

Lemma step_failure_gates r s a kind phase cause : same_gates r (apply_step_failure r s a kind phase cause).2.
Proof.
  unfold apply_step_failure. destruct (negb _); [done|]. destruct (def_step (rd_state r) s) as [d|]; [|done].
  destruct (node_failure_detail cause phase) as [detail|]; [|done].
  pose proof (activate_gates r s phase detail cause) as Hact.
  assert (Hgo : ∀ r1, same_gates r r1 → same_gates r (settle_target_failure
    (match rt_recovery d with Some _ => map_state (mark_recovery_exhausted s) r1 | None => r1 end) s d detail)).
  { intros r1 H1. etrans; [exact H1|]. etrans; [|apply settle_failure_gates].
    destruct (rt_recovery d); [apply mark_exhausted_gates|done]. }
  case_decide; [|by apply Hgo]. destruct (activate_recovery_round r s phase detail cause) as [[] r1]; cbn [snd] in *; auto.
Qed.

Lemma handler_failure_gates r s round a expected phase cause :
  same_gates r (apply_handler_failure r s round a expected phase cause).2.
Proof.
  unfold apply_handler_failure. destruct (negb _); [done|]. cbn [snd]. etrans; [|apply settle_latest_gates].
  by apply same_workflow_gates.
Qed.

Lemma handler_decision_gates r s round a decision : same_gates r (apply_handler_decision r s round a decision).2.
Proof.
  unfold apply_handler_decision. destruct (negb _); [done|]. destruct (dec_kind decision).
  - destruct (_ ≫= _); [|done]. destruct (def_step _ s); [|done]. cbn [snd]. etrans; [|apply authorize_gates].
    by apply same_workflow_gates.
  - cbn [snd]. etrans; [|apply settle_latest_gates]. by apply same_workflow_gates.
Qed.

Lemma apply_occurrence_gates r o : cancellation_requested o = false → same_gates r (apply_occurrence r o).2.
Proof.
  intros Ho. destruct o; try discriminate Ho; cbn [apply_occurrence];
    auto using step_failure_gates, handler_failure_gates, handler_decision_gates.
  - destruct (negb _); [done|]. apply transition_gates.
  - unfold apply_execution_completed. destruct (negb _); [by destruct (requires_release provisional)|].
    pose proof (transition_gates r step SCapturingOutputs None) as H1.
    destruct (transition_step r step SCapturingOutputs None) as [n r1]. cbn [snd] in H1.
    destruct (step_declares_outputs (rd_state r1) step); [by cbn; etrans; [exact H1|apply same_workflow_gates]|].
    pose proof (transition_gates (mark_recovered step r1) step (SSucceeded []) None) as H2.
    destruct (transition_step (mark_recovered step r1) step (SSucceeded []) None) as [n2 r2]. cbn [snd] in H2.
    etrans; [exact H1|]. etrans; [apply mark_recovered_gates|]. etrans; [exact H2|].
    apply same_workflow_gates. by destruct (requires_release provisional).
  - destruct (_ || _); [done|]. pose proof (transition_gates (mark_recovered step r) step (SSucceeded outputs) None) as H2.
    destruct (transition_step (mark_recovered step r) step (SSucceeded outputs) None) as [n2 r2]. cbn [snd] in H2 |- *.
    etrans; [apply mark_recovered_gates|]. etrans; [exact H2|]. by apply same_workflow_gates.
  - destruct (negb _); [done|]. cbn [snd]. etrans; [|apply transition_gates]. by apply same_workflow_gates.
  - destruct (cancelling_step (rd_state r) step action) as [[reason active]|]; [|done].
    set (r0 := map_state (mark_recovery_cancelled step active) r).
    set (v := SCancelled _). pose proof (transition_gates r0 step v None) as H2.
    destruct (transition_step r0 step v None) as [n2 r2]. cbn [snd] in H2 |- *.
    etrans; [apply mark_cancelled_gates|]. etrans; [exact H2|]. by apply same_workflow_gates.
Qed.

(** ** Cancellations *)

Lemma acceptance_contains r role reason force r' :
  wf (rd_state r) → each_node node_ok (rd_state r) → acceptance r role reason force r' →
  role_contained (phase_role (rs_workflow (rd_state r))) (rd_state r').
Proof.
  intros Hwf Hn Hacc. destruct (acceptance_cancelled _ _ _ _ _ Hwf Hn Hacc) as [_ Hc].
  by destruct Hacc as [? ? ? ? _ -> _ _ _ _ _ _].
Qed.

Lemma external_executing r r' :
  external r r' → is_executing (rs_workflow (rd_state r')) = is_executing (rs_workflow (rd_state r)).
Proof.
  assert (Hcommit : ∀ r1 d issue, is_executing (rs_workflow (rd_state (commit_required_issue r1 d issue)))
    = is_executing (rs_workflow (rd_state r1))).
  { intros r1 d issue. rewrite commit_required_issue_eq. unfold committed_workflow.
    destruct (rt_failure_policy d), (rt_role d), (rs_workflow (rd_state r1)) as [[]|[] [] []| | |] eqn:E; simpl;
      by rewrite ?bump_workflow, ?E. }
  destruct 1; rewrite ?Hcommit; simpl; rewrite ?foldr_push_action_state; simpl; rewrite ?bump_workflow; simpl; rewrite ?bump_workflow; try done;
    match goal with Hw : rs_workflow _ = _ |- _ => by rewrite Hw end.
Qed.

Lemma cancelling_phase w role : role_cancelling w role = true → role = phase_role (w : WorkflowState Deadline).
Proof. unfold phase_role. by destruct w as [[]|? [] ?| | |], role. Qed.

Lemma externals_executing r r' :
  rtc external r r' → is_executing (rs_workflow (rd_state r')) = is_executing (rs_workflow (rd_state r)).
Proof. induction 1 as [|r1 r2 r3 H12 _ IH]; [done|]. by rewrite IH, (external_executing _ _ H12). Qed.

(** ** The invariant *)

Definition closed_contained st : Prop :=
  ∀ role, role_cancelling (rs_workflow st) role = true → (role = RoleFinalizer → ordinary_force_abort st = false) →
    role_contained role st.

Lemma internal_closed r r' :
  internal r r' → wf (rd_state r) → closed_contained (rd_state r) → closed_contained (rd_state r').
Proof.
  intros Hi Hwf Hok role Hrole Hforce. pose proof (move_internal r r' Hi : move r r') as Hm.
  apply (move_contained role r r' Hm Hwf). destruct Hi as [r' Hi|outcome Hex Hall Hnil Ho|outcome summary exports Hreason He].
  - apply internal_node_changed in Hi as (s & d & x & y & _ & _ & _ & Hw & _ & Hfa & _). apply Hok.
    + apply after_node_cases in Hw as [<-|[(issue & Hw & Hw')|(issue & Hw & Hw')]]; [done|..]; rewrite Hw' in Hrole; by destruct role.
    + intros Hf. unfold ordinary_force_abort in *. rewrite <-Hfa. by apply Hforce.
  - exfalso. unfold finalization_entry in *. simpl in Hrole, Hforce. rewrite ?bump_workflow in Hrole. unfold ordinary_force_abort in Hforce.
    simpl in Hforce. rewrite bump_force_abort in Hforce. fold (ordinary_force_abort (rd_state r)) in Hforce.
    destruct role; [by destruct (ordinary_force_abort (rd_state r))|]. rewrite (Hforce eq_refl) in Hrole. done.
  - exfalso. simpl in Hrole. rewrite ?bump_workflow in Hrole. by destruct outcome, role.
Qed.

Lemma internals_closed r r' :
  rtc internal r r' → wf (rd_state r) → closed_contained (rd_state r) → closed_contained (rd_state r').
Proof.
  induction 1 as [|r1 r2 r3 Hi _ IH]; [done|]. intros Hwf Hok. apply IH; [|by eapply internal_closed].
  eapply move_wf; [by apply move_internal|done].
Qed.

(** A force abort of the ordinary phase stays one. *)
Lemma moves_force_abort r r' :
  rtc move r r' → wf (rd_state r) → ordinary_force_abort (rd_state r) = true → ordinary_force_abort (rd_state r') = true.
Proof.
  intros Hm Hwf Hf.
  apply (moves_invariant (λ st, ordinary_force_abort st = true) (rs_definition (rd_state r)) r r') in Hm as [? _];
    [done| |done..]. clear Hm Hwf Hf. intros r1 r2 Hm Hwf _ Hf. unfold ordinary_force_abort in *.
  destruct (move_changed _ _ Hwf Hm) as [(s & d & x & y & _ & _ & _ & _ & _ & Hfa & _)|[_ (es & _ & Hrun)]]; [by rewrite Hfa|].
  destruct Hrun as [_ _ Hfa _|outcome f n to _ _ _ _ _ _ Hfa _|outcome summary exports n to _ _ _ _ _ Hfa|gate reason prior n deadline _ _ _ _ Hfa _
    |trigger issue reason deadline n _ _ _ Hfa _|gate n _ Hnone _ _ _ _|trigger gate issue n _ Hnone _ _ _ _];
    try (by rewrite Hfa); by rewrite Hnone in Hf.
Qed.

Lemma contained_closed st st' role0 :
  role0 = phase_role (rs_workflow st) → is_executing (rs_workflow st') = is_executing (rs_workflow st) →
  role_contained role0 st' → closed_contained st'.
Proof. intros -> Hex Hc role ->%cancelling_phase _. unfold phase_role in *. by rewrite Hex. Qed.

Lemma apply_occurrence_closed st o r :
  wf st → each_node node_ok st → closed_contained st → apply_occurrence (begin st) o = (true, r) →
  closed_contained (rd_state r).
Proof.
  intros Hwf Hn Hok Happly. pose proof (apply_occurrence_moves (begin st) o Hwf) as Hm. rewrite Happly in Hm. cbn [snd] in Hm.
  pose proof (externals_executing _ _ Hm) as Hex. cbn [begin rd_state] in Hex.
  destruct (cancellation_requested o) eqn:Ho.
  - destruct o; try discriminate Ho; cbn [apply_occurrence] in Happly.
    + destruct (_ || _); [done|]. eapply contained_closed; [reflexivity|exact Hex|].
      by apply cancellation_accepted, (acceptance_contains (begin st) _ _ _ r Hwf Hn) in Happly.
    + unfold apply_ordinary_only_cancellation in Happly. destruct (_ || _); [done|]. cbn [begin rd_state] in Happly.
      destruct (is_executing (rs_workflow st)) eqn:He; cbn [negb] in Happly.
      * eapply (contained_closed st); [|by rewrite Hex|by apply ordinary_cancellation_accepted, (acceptance_cancelled (begin st) _ _ _ _ Hwf Hn) in Happly as [_ ?]].
        unfold phase_role. by rewrite He.
      * injection Happly as _ <-. exact Hok.
    + destruct (stale_operation _ _); [done|]. eapply contained_closed; [reflexivity|exact Hex|].
      by apply force_abort_accepted, (acceptance_contains (begin st) _ _ _ r Hwf Hn) in Happly.
  - intros role Hrole Hforce. pose proof (apply_occurrence_gates (begin st) o Ho role) as Hg. rewrite Happly in Hg.
    cbn [snd begin rd_state] in Hg. apply (moves_contained role (begin st) r (external_moves_move _ _ Hm) Hwf).
    apply Hok; [congruence|]. intros ->. destruct (ordinary_force_abort st) eqn:Hfa; [exfalso|done].
    apply (moves_force_abort _ _ (external_moves_move _ _ Hm) Hwf) in Hfa. rewrite Hforce in Hfa; done.
Qed.

Lemma initial_closed D c (seed : ExecutionSeed Output) :
  definition_wf D → seed_wf D seed →
  closed_contained (rd_state (apply_initial_cancellation (Provisional := Provisional) (Cause := Cause) c
    (set_accepted true (begin (initial_state D seed))))).
Proof.
  intros HD Hs. set (r0 := set_accepted true _ : Red).
  assert (Hwf : wf (rd_state r0)) by by apply initial_wf.
  assert (Hn : each_node node_ok (rd_state r0)) by by apply initial_node_ok.
  assert (Hok : closed_contained (rd_state r0)) by (intros [] Hrole; done).
  assert (Hmoves : rtc external r0 (apply_initial_cancellation c r0)).
  { destruct c as [[]|]; simpl; [by apply cancellation_moves|by apply force_abort_moves|done]. }
  pose proof (externals_executing _ _ Hmoves) as Hex.
  destruct c as [[request operation|operation deadline]|]; [..|exact Hok]; cbn [apply_initial_cancellation] in *.
  - pose proof (cancellation_accepted r0 request operation) as Hc.
    change (apply_cancellation r0 request operation) with (apply_ordinary_cancellation r0 request operation) in *.
    eapply (contained_closed (rd_state r0)); [reflexivity|exact Hex|]. eapply (acceptance_contains r0); [done..|]. apply Hc.
    unfold apply_ordinary_cancellation, r0. cbn [set_accepted begin rd_state initial_state rs_workflow].
    by destruct (next_sequence _).
  - eapply (contained_closed (rd_state r0)); [reflexivity|exact Hex|]. eapply (acceptance_contains r0); [done..|]. apply (force_abort_accepted r0 operation deadline).
    unfold apply_force_abort, r0. cbn [set_accepted begin rd_state initial_state rs_workflow rs_force_abort].
    rewrite decide_False by (by intros [? ?]). by destruct (next_sequence _).
Qed.

Lemma reachable_closed D st :
  definition_wf D → reachable (Provisional := Provisional) D st → closed_contained st.
Proof.
  intros HD. induction 1 as [c seed Hs|st o Hr IH].
  - unfold initialize_seeded_definition. set (r0 := set_accepted true _ : Red).
    assert (Hc : rtc external r0 (apply_initial_cancellation c r0)).
    { destruct c as [[]|]; simpl; [apply cancellation_moves|apply force_abort_moves|done]; by apply initial_wf. }
    assert (Hwf : wf (rd_state (apply_initial_cancellation c r0)))
      by (eapply same_nodes_wf; [by apply external_moves_same|by apply initial_wf]).
    eapply internals_closed; [by apply stabilize_moves|done|by apply initial_closed].
  - destruct (reachable_node_ok D st HD Hr) as (Hn & Hwf & _).
    destruct (is_finished (rs_workflow st)) eqn:Hfin; [unfold reduce; by rewrite Hfin|].
    destruct (reduce_cases st o Hwf Hfin) as [(r & Happly & ->)|(r & Happly & _ & _ & Hi)].
    + by destruct (apply_occurrence_rejected st o r Hwf Hn Hfin Happly) as [-> _].
    + eapply internals_closed; [exact Hi| |exact (apply_occurrence_closed st o r Hwf Hn IH Happly)].
      pose proof (apply_occurrence_moves (begin st) o Hwf) as Hm. rewrite Happly in Hm.
      change (wf (rd_state r)). by apply (same_nodes_wf (begin st) r); [apply external_moves_same|].
Qed.
End cancelling.
