(* ===== verification/Progress.v ===== *)
(** * Progress

    When may a run that is not finished wait for nothing?  A run with no
    active node is finished, unless it is in the one configuration that
    [stuck] describes: the run stopped at a failure, and a step whose
    condition was never evaluated reads the output of a node that did not
    produce it. *)

From S2P Require Import Prelude Text Nodes Evidence Condition Validated Runtime Reducer Moves Refinement Views Stabilize Occurrences Runs NodeSteps NodeInvariants Phases Scheduling Containment Numbering Termination Quiet Cancelling.

(** ** Definitions that can be scheduled

    What validation guarantees of a definition: the producers of a node are
    nodes of its own role, without cycles, and the evidence of a node names
    everything that may keep it from running. *)

Record source_schedulable (D : RuntimeDefinition) (d : RuntimeStep) (source : ResolvedValueSource) : Prop := {
  sos_input name : source = SourceInput name →
    bt_contains_key (def_text_inputs D) name || bt_contains_key (def_json_inputs D) name = true;
  sos_context : source = SourceFinalizationContext → rt_role d = RoleFinalizer;
  sos_output o : source = SourceOutput o →
    PCondition (output_source_reference o) ∈ rt_evidence_prerequisites d
    ∧ ∃ d', bt_get (def_steps D) (node_id (ros_node o)) = Some d'
        ∧ (rt_role d = RoleStep → rt_role d' = RoleStep)
        ∧ (rt_role d' = rt_role d →
           ∃ p, p ∈ rt_prerequisites d ∧ rdp_producer p = node_id (ros_node o) ∧ rdp_condition_data p = true)
}.

Record prerequisite_schedulable (D : RuntimeDefinition) (d : RuntimeStep) (p : ResolvedDirectPrerequisite) : Prop := {
  prs_role : ∃ d', bt_get (def_steps D) (rdp_producer p) = Some d' ∧ rt_role d' = rt_role d;
  prs_control : rdp_control p = true → PControl (rdp_producer p) ∈ rt_evidence_prerequisites d;
  prs_data : rdp_data p = true → rdp_condition_data p = true
    ∨ ∃ ref, PBody ref ∈ rt_evidence_prerequisites d ∧ output_reference_producer ref = Some (rdp_producer p);
  prs_condition : rdp_condition_data p = true → is_Some (rt_condition d)
    ∧ ∃ ref, PCondition ref ∈ rt_evidence_prerequisites d ∧ output_reference_producer ref = Some (rdp_producer p)
}.

Record schedulable (D : RuntimeDefinition) : Prop := {
  sch_wf : definition_wf D;
  sch_rank : ∃ rank : string → nat, ∀ s d p, bt_get (def_steps D) s = Some d → p ∈ rt_prerequisites d →
    rank (rdp_producer p) < rank s;
  sch_prerequisite s d p : bt_get (def_steps D) s = Some d → p ∈ rt_prerequisites d → prerequisite_schedulable D d p;
  sch_source s d source : bt_get (def_steps D) s = Some d → source ∈ bt_values (rt_condition_values d) →
    source_schedulable D d source;
  sch_evidence s d : bt_get (def_steps D) s = Some d →
    length (rt_evidence_prerequisites d) <= MAXIMUM_PREREQUISITES
    ∧ Forall (λ p, prerequisite_ok p = true) (rt_evidence_prerequisites d);
  sch_export name source : (name, source) ∈ def_exports D →
    ∃ d, bt_get (def_steps D) (re_step source) = Some d ∧ re_output source ∈ rt_declared_outputs d;
  sch_parallel : 0 < def_maximum_parallel_steps D
}.

Lemma forallb_false {A} (f : A → bool) l : forallb f l = false → ∃ y, y ∈ l ∧ f y = false.
Proof.
  induction l as [|y l IH]; simpl; [done|]. destruct (f y) eqn:Hy; [|eexists; split; [left|done]].
  intros (z & ? & ?)%IH. exists z. by split; [right|].
Qed.

Lemma prerequisite_ok_body ref : prerequisite_ok (PBody ref) = true → is_output_reference ref = true.
Proof.
  unfold prerequisite_ok. simpl. destruct (str_is_empty ref); [done|]. simpl. by destruct (is_output_reference ref).
Qed.

Lemma schedulable_evidence_ok D : schedulable D → definition_evidence_ok D.
Proof.
  intros HD s d Hd. destruct (sch_evidence D HD s d Hd) as [Hlen Hok]. split; [done|]. intros ref Hin.
  rewrite Forall_forall in Hok. by apply prerequisite_ok_body, Hok.
Qed.

Section progress.
Context {Provisional Cause Output Deadline : Type}.
Context `{!SerdeJson, !NodeFailureSource Cause, !ConditionOutput Output,
          !ProvisionalStepResources Provisional}.

Local Abbreviation State := (RuntimeState Cause Output Deadline).
Local Abbreviation Red := (Reduction Provisional Cause Output Deadline).
Local Abbreviation Step := (StepRuntimeState Cause Output).

Implicit Types (st : State) (r : Red) (x y : Step) (s t : string) (d : RuntimeStep) (D : RuntimeDefinition).

(** ** Invariants *)

(** The outputs of a node that succeeded are those it declares. *)
Definition outputs_declared (s : string) d x : Prop :=
  ∀ outputs, ss_state x = SSucceeded outputs → bt_keys outputs = rt_declared_outputs d.

Lemma visited_outputs D st :
  definition_wf D → visited (Provisional := Provisional) D st → each_node outputs_declared st.
Proof.
  intros HD Hr. apply (visited_invariant (Provisional := Provisional) (each_node outputs_declared) D st); [|..|done|done].
  - intros seed _ s d x [Hx _] outputs Ho. rewrite initial_lookup in Hx by done.
    destruct (bt_get (def_steps D) s); [|done]. injection Hx as <-. simpl in Ho. by destruct (bt_get seed s).
  - intros r r' Hm Hw _. apply (each_node_move outputs_declared r r'); [|done|done].
    clear. intros st s d x y _ _ _ Hstep Hx outputs. destruct Hstep; simpl; try done; try (by apply Hx);
      try (match goal with Hb : bookkeeping _ _ |- _ => rewrite (bookkeeping_state _ _ Hb) end; by apply Hx).
    by intros [= <-].
Qed.

Lemma reachable_outputs D st :
  definition_wf D → reachable (Provisional := Provisional) D st → each_node outputs_declared st.
Proof. intros HD Hr. by apply (visited_outputs D st HD), (reachable_visited D st HD). Qed.

(** A condition passed only when the data it reads was there. *)
Definition passed_available st : Prop :=
  ∀ s d x, node_at st s d x → ss_condition_passed x = true →
    ∀ p, p ∈ rt_prerequisites d → rdp_condition_data p = true → step_is step_data_available st (rdp_producer p) = true.

Lemma bookkeeping_passed x y : bookkeeping x y → ss_condition_passed y = ss_condition_passed x.
Proof. intros [E _]. by rewrite E. Qed.

Lemma node_step_passed st s d x y :
  node_step st s d x y → ss_condition_passed y = true → ss_condition_passed x = true ∨ condition_gate_ready st s = true.
Proof.
  destruct 1; simpl; intros Hp; try (by left); try (by right);
    try (left; match goal with Hb : bookkeeping _ _ |- _ => by rewrite (bookkeeping_passed _ _ Hb) in Hp end).
Qed.

Lemma gate_ready_available st s d p :
  def_step st s = Some d → condition_gate_ready st s = true → p ∈ rt_prerequisites d → rdp_condition_data p = true →
  step_is step_data_available st (rdp_producer p) = true.
Proof.
  intros Hd Hg Hin Hc. unfold condition_gate_ready in Hg. rewrite Hd in Hg.
  destruct (rs_steps st !! s) as [x|]; [|done]. destruct (_ || _); [done|]. apply andb_prop in Hg as [Hg _].
  rewrite forallb_forall in Hg. specialize (Hg p (proj1 (list_elem_of_In _ _) Hin)). unfold condition_prerequisite_ready in Hg.
  unfold step_is. destruct (rs_steps st !! rdp_producer p) as [z|]; [|done]. rewrite Hc in Hg.
  destruct (rt_role d); apply andb_prop in Hg as [_ Hg]; exact Hg.
Qed.

Lemma reachable_passed D st :
  definition_wf D → reachable (Provisional := Provisional) D st → passed_available st.
Proof.
  intros HD Hr. apply (reachable_invariant passed_available D st); [|..|done|done].
  - intros seed _ s d x [Hx _] Hp. rewrite initial_lookup in Hx by done.
    destruct (bt_get (def_steps D) s); [|done]. injection Hx as <-. done.
  - intros r r' Hm Hw _ Hok s d x [Hx Hd] Hp p Hin Hc.
    apply (step_is_extends step_data_available (rd_state r)); [apply data_available_terminal|by apply move_extends|].
    unfold def_step in Hd. rewrite (move_definition _ _ Hm) in Hd.
    destruct (move_changed _ _ Hw Hm) as [(s' & d' & x' & y & Hat & Hns & Heq & _)|[Heq _]]; rewrite Heq in Hx.
    + destruct (decide (s = s')) as [->|].
      * rewrite lookup_insert_eq in Hx. simplify_eq.
        assert (d = d') as -> by (destruct Hat as [_ Hat]; unfold def_step in Hat; congruence).
        destruct (node_step_passed _ _ _ _ _ Hns Hp) as [Hp'|Hg]; [by eapply Hok|].
        eapply gate_ready_available; [apply Hat|done..].
      * rewrite lookup_insert_ne in Hx by done. by apply (Hok s d x (conj Hx Hd) Hp).
    + by apply (Hok s d x (conj Hx Hd) Hp).
Qed.

(** ** Evidence of blocked nodes *)

Lemma blocked_within (evidence blockers : list Prerequisite) :
  length evidence <= MAXIMUM_PREREQUISITES → Forall (λ p, prerequisite_ok p = true) evidence →
  blockers ⊆ evidence → blockers ≠ [] → ∃ detail, blocked_detail_new blockers = Ok detail.
Proof.
  intros Hlen Hok Hsub Hne. eexists {| bd_prerequisites := _ |}. apply blocked_detail_new_Ok.
  split; [reflexivity|]. split; [done|]. split.
  - etrans; [|exact Hlen]. apply submseteq_length, NoDup_submseteq; [apply sort_dedup_NoDup|].
    intros p Hp. apply Hsub. by apply elem_of_sort_dedup.
  - rewrite Forall_forall in *. auto.
Qed.

(** The outcome of an evaluation can be recorded. *)
Definition recorded (e : ConditionEvaluation) : Prop :=
  match e with
  | ConditionPassed => True
  | ConditionFalse trace => ∃ detail, condition_false_detail_new (predicate_evidence <$> trace) = Ok detail
  | ConditionFailed reference pointer => ∃ detail, json_pointer_missing reference pointer = Ok detail
  | ConditionUnavailable _ => False
  end.

Definition recordable st : Prop :=
  ∀ s d p, condition_gate_ready st s = true → def_step st s = Some d → rt_condition d = Some p →
    recorded (evaluate_condition st d p).

(** The run waits for a step that can neither be evaluated nor be settled. *)
Definition stuck st : Prop :=
  ∃ issue s d x p,
    rs_workflow st = WExecuting (GateFailureStopped issue)
    ∧ node_at st s d x ∧ rt_role d = RoleStep ∧ ss_state x = SPending
    ∧ has_condition d = true ∧ ss_condition_passed x = false
    ∧ p ∈ rt_prerequisites d ∧ rdp_data p = true ∧ rdp_condition_data p = false
    ∧ step_is (λ v, is_terminal v && negb (step_data_available v)) st (rdp_producer p) = true.

(** Without active nodes no node is active. *)
Lemma idle_steps st s x : active_count st = 0 → rs_steps st !! s = Some x → is_active (ss_state x) = false.
Proof.
  intros Hidle%nil_length_inv Hx. destruct (is_active (ss_state x)) eqn:Hact; [exfalso|done].
  assert (Hin : In (s, x) []); [|done]. rewrite <-Hidle. apply filter_In. split; [|done].
  by apply list_elem_of_In, elem_of_map_to_list.
Qed.

Section settled_state.
Context (D : RuntimeDefinition) (HD : schedulable D).
Context (st : State) (Hwf : wf st) (HDs : rs_definition st = D).

Lemma node_defined s d x : node_at st s d x → bt_get (def_steps D) s = Some d.
Proof. intros [_ Hd]. unfold def_step in Hd. by rewrite HDs in Hd. Qed.

Lemma control_blocker s d x p :
  node_at st s d x → p ∈ rt_prerequisites d → rdp_control p = true →
  result_to_list (prerequisite_control (rdp_producer p)) = [PControl (rdp_producer p)]
  ∧ PControl (rdp_producer p) ∈ rt_evidence_prerequisites d.
Proof.
  intros Hat%node_defined Hin Hc. pose proof (prs_control _ _ _ (sch_prerequisite D HD s d p Hat Hin) Hc) as Hev.
  split; [|done]. destruct (sch_evidence D HD s d Hat) as [_ Hok]. rewrite Forall_forall in Hok. specialize (Hok _ Hev).
  unfold prerequisite_ok in Hok. simpl in Hok. unfold prerequisite_control. by destruct (str_is_empty _).
Qed.

Lemma source_blocker s d x o :
  node_at st s d x → SourceOutput o ∈ bt_values (rt_condition_values d) →
  result_to_list (prerequisite_condition (output_source_reference o)) = [PCondition (output_source_reference o)]
  ∧ PCondition (output_source_reference o) ∈ rt_evidence_prerequisites d.
Proof.
  intros Hat%node_defined Hin. destruct (sos_output _ _ _ (sch_source D HD s d _ Hat Hin) o eq_refl) as [Hev _].
  split; [|done]. destruct (sch_evidence D HD s d Hat) as [_ Hok]. rewrite Forall_forall in Hok. specialize (Hok _ Hev).
  unfold prerequisite_ok in Hok. simpl in Hok. unfold prerequisite_condition.
  by destruct (is_output_reference _).
Qed.

Lemma condition_blockers_within s d x :
  node_at st s d x → condition_blockers st d ⊆ rt_evidence_prerequisites d.
Proof.
  intros Hat p Hp. apply (proj1 (elem_of_sort_dedup _ _)) in Hp. apply elem_of_app in Hp as [Hp|Hp].
  - apply list_elem_of_join in Hp as (l & Hp & (q & -> & Hq)%list_elem_of_fmap). unfold condition_prerequisite_blockers in Hp.
    destruct (rs_steps st !! _) as [z|]; [|by apply elem_of_nil in Hp]. destruct (negb _); [by apply elem_of_nil in Hp|].
    apply elem_of_app in Hp as [Hp|Hp].
    + destruct (bool_decide _); [|by apply elem_of_nil in Hp]. destruct (rdp_control q) eqn:Hc; [|by apply elem_of_nil in Hp].
      destruct (control_blocker s d x q Hat Hq Hc) as [E Hev]. rewrite E in Hp. destruct (_ && _); [|by apply elem_of_nil in Hp].
      by apply list_elem_of_singleton in Hp as ->.
    + destruct (_ && _); [|by apply elem_of_nil in Hp]. by apply list_elem_of_In, filter_In in Hp as [?%list_elem_of_In _].
  - apply list_elem_of_join in Hp as (l & Hp & (source & -> & Hs)%list_elem_of_fmap).
    destruct source as [|o|]; simpl in Hp; [by apply elem_of_nil in Hp| |by apply elem_of_nil in Hp].
    destruct (source_blocker s d x o Hat Hs) as [E Hev]. destruct (step_is _ _ _); [|by apply elem_of_nil in Hp].
    rewrite E in Hp. by apply list_elem_of_singleton in Hp as ->.
Qed.

Lemma body_blockers_within s d x :
  node_at st s d x → mjoin (body_prerequisite_blockers st d <$> rt_prerequisites d) ⊆ rt_evidence_prerequisites d.
Proof.
  intros Hat p (l & Hp & (q & -> & Hq)%list_elem_of_fmap)%list_elem_of_join. unfold body_prerequisite_blockers in Hp.
  destruct (rs_steps st !! _) as [z|]; [|by apply elem_of_nil in Hp]. destruct (negb _); [by apply elem_of_nil in Hp|].
  apply elem_of_app in Hp as [Hp|Hp].
  - destruct (rdp_control q) eqn:Hc; [|by apply elem_of_nil in Hp].
    destruct (control_blocker s d x q Hat Hq Hc) as [E Hev]. rewrite E in Hp. destruct (_ && _); [|by apply elem_of_nil in Hp].
    by apply list_elem_of_singleton in Hp as ->.
  - destruct (_ && _); [|by apply elem_of_nil in Hp]. by apply list_elem_of_In, filter_In in Hp as [?%list_elem_of_In _].
Qed.
Lemma producer_node s d x p :
  node_at st s d x → p ∈ rt_prerequisites d →
  ∃ d' z, node_at st (rdp_producer p) d' z ∧ rt_role d' = rt_role d.
Proof.
  intros Hat%node_defined Hin. destruct (prs_role _ _ _ (sch_prerequisite D HD s d p Hat Hin)) as (d' & Hd' & Hrole).
  destruct (node_at_exists st (rdp_producer p) d' Hwf) as [z Hz]; [unfold def_step; by rewrite HDs|]. by exists d', z.
Qed.

Lemma gates_evaluated role s :
  recordable st → evaluated (Provisional := Provisional) st role → s ∈ role_ids st role → condition_gate_ready st s = false.
Proof.
  intros Hrec Hev Hs. destruct (condition_gate_ready st s) eqn:Hg; [exfalso|done].
  specialize (Hev (begin st) eq_refl). unfold evaluate_ready_condition in Hev. cbn [begin rd_state] in Hev.
  destruct (List.find (condition_gate_ready st) (role_ids st role)) as [id|] eqn:Hfind.
  - apply find_some in Hfind as [_ Hgid]. pose proof Hgid as Hgid'. unfold condition_gate_ready in Hgid'.
    destruct (def_step st id) as [d|] eqn:Hd; [|done]. destruct (rs_steps st !! id) as [x|]; [|done].
    destruct (rt_condition d) as [p|] eqn:Hp.
    + cbn in Hev. specialize (Hrec id d p Hgid Hd Hp). rewrite Hd in Hev. cbn in Hev. rewrite Hp in Hev. cbn in Hev.
      destruct (evaluate_condition st d p); cbn in Hrec; [done| | |done].
      * destruct Hrec as [detail Hdetail]. by rewrite Hdetail in Hev.
      * destruct Hrec as [detail Hdetail]. by rewrite Hdetail in Hev.
    + unfold has_condition in Hgid'. by rewrite Hp in Hgid'.
  - eapply find_none in Hfind; [|by apply list_elem_of_In]. congruence.
Qed.

(** *** A pending node whose producers are terminal *)

Section node.
Context (Hpassed : passed_available st).
Context (s : string) (d : RuntimeStep) (x : Step) (Hat : node_at st s d x).
Context (Hterminal : ∀ p, p ∈ rt_prerequisites d → step_is is_terminal st (rdp_producer p) = true).

Lemma producer_state p : p ∈ rt_prerequisites d →
  ∃ z, rs_steps st !! rdp_producer p = Some z ∧ is_terminal (ss_state z) = true.
Proof.
  intros Hin. specialize (Hterminal p Hin). unfold step_is in Hterminal. destruct (rs_steps st !! _) as [z|]; [eauto|done].
Qed.

Lemma join_nil {A B} (f : A → list B) l a : mjoin (f <$> l) = [] → a ∈ l → f a = [].
Proof.
  intros Hj Ha. destruct (f a) as [|b k] eqn:E; [done|exfalso].
  assert (Hb : b ∈ mjoin (f <$> l)); [|rewrite Hj in Hb; by apply elem_of_nil in Hb].
  apply list_elem_of_join. exists (f a). split; [rewrite E; by left|]. apply list_elem_of_fmap. eauto.
Qed.

(** Evidence of a reference to a producer is found. *)
Lemma filter_evidence_nil (f : Prerequisite → bool) q :
  q ∈ rt_evidence_prerequisites d → f q = true → List.filter f (rt_evidence_prerequisites d) = [] → False.
Proof.
  intros Hq Hf Hnil. assert (Hin : In q []); [|done]. rewrite <-Hnil. apply filter_In. split; [by apply list_elem_of_In|done].
Qed.

(** Without blockers of its body, a node has everything it needs. *)
Lemma body_satisfied p :
  rt_role d = RoleStep → has_condition d && negb (ss_condition_passed x) = false →
  mjoin (body_prerequisite_blockers st d <$> rt_prerequisites d) = [] → p ∈ rt_prerequisites d →
  ordinary_prerequisite_satisfied st p = true.
Proof.
  intros Hrole Hcond Hnil Hin. pose proof (join_nil _ _ _ Hnil Hin) as Hp. unfold body_prerequisite_blockers in Hp.
  destruct (producer_state p Hin) as (z & Hz & Hterm). rewrite Hz, Hterm in Hp. cbn [negb] in Hp.
  unfold ordinary_prerequisite_satisfied. rewrite Hz, Hterm. apply app_eq_nil in Hp as [Hcontrol Hdata].
  rewrite orb_true_r, andb_true_r. apply andb_true_intro. split.
  - destruct (rdp_control p) eqn:Hc; [|done]. destruct (control_blocker s d x p Hat Hin Hc) as [E _].
    destruct (ordinary_control_satisfied st p); [done|]. cbn in Hcontrol. by rewrite E in Hcontrol.
  - destruct (rdp_data p) eqn:Hdt; [|done]. destruct (step_data_available (ss_state z)) eqn:Hav; [done|exfalso].
    cbn in Hdata. pose proof (sch_prerequisite D HD s d p (node_defined _ _ _ Hat) Hin) as Hsch.
    destruct (prs_data _ _ _ Hsch Hdt) as [Hcd|(ref & Href & Hprod)].
    + destruct (prs_condition _ _ _ Hsch Hcd) as [Hsome _].
      assert (Hpass : ss_condition_passed x = true).
      { unfold has_condition in Hcond. rewrite bool_decide_eq_true_2 in Hcond by done. by destruct (ss_condition_passed x). }
      pose proof (Hpassed s d x Hat Hpass p Hin Hcd) as Ha. unfold step_is in Ha. rewrite Hz in Ha. congruence.
    + eapply filter_evidence_nil; [exact Href| |exact Hdata]. simpl. by rewrite bool_decide_eq_true_2.
Qed.

(** Without blockers of its condition, what the condition reads is there. *)
Lemma condition_satisfied p :
  condition_blockers st d = [] → p ∈ rt_prerequisites d →
  (rt_role d = RoleStep → rdp_control p = true → ordinary_control_satisfied st p = true)
  ∧ (rdp_condition_data p = true → step_is step_data_available st (rdp_producer p) = true).
Proof.
  intros Hnil Hin. apply sort_dedup_nil, app_eq_nil in Hnil as [Hnil _].
  pose proof (join_nil _ _ _ Hnil Hin) as Hp. unfold condition_prerequisite_blockers in Hp.
  destruct (producer_state p Hin) as (z & Hz & Hterm). rewrite Hz, Hterm in Hp. cbn [negb] in Hp.
  apply app_eq_nil in Hp as [Hcontrol Hdata]. split.
  - intros Hrole Hc. destruct (control_blocker s d x p Hat Hin Hc) as [E _].
    destruct (ordinary_control_satisfied st p); [done|exfalso]. rewrite Hrole, Hc, E in Hcontrol. done.
  - intros Hcd. unfold step_is. rewrite Hz. destruct (step_data_available (ss_state z)) eqn:Hav; [done|exfalso].
    rewrite Hcd in Hdata. cbn in Hdata.
    destruct (prs_condition _ _ _ (sch_prerequisite D HD s d p (node_defined _ _ _ Hat) Hin) Hcd) as (_ & ref & Href & Hprod).
    eapply filter_evidence_nil; [exact Href| |exact Hdata]. simpl. by rewrite bool_decide_eq_true_2.
Qed.

Lemma sources_satisfied :
  condition_blockers st d = [] →
  (rt_role d = RoleFinalizer → is_Some (rs_finalization st) ∧ all_of st RoleStep (λ v, is_terminal v = true)) →
  condition_sources_available st d = true.
Proof.
  intros Hnil Hfin. unfold condition_sources_available. apply forallb_forall. intros source Hs%list_elem_of_In.
  pose proof (sch_source D HD s d source (node_defined _ _ _ Hat) Hs) as Hsch. destruct source as [name|o|]; simpl.
  - rewrite HDs. by apply (sos_input _ _ _ Hsch).
  - destruct (sos_output _ _ _ Hsch o eq_refl) as (_ & d' & Hd' & Hphase & Hsame).
    destruct (node_at_exists st (node_id (ros_node o)) d' Hwf) as [z Hz]; [unfold def_step; by rewrite HDs|].
    assert (Hterm : is_terminal (ss_state z) = true).
    { destruct (decide (rt_role d' = rt_role d)) as [Hr|Hr].
      - destruct (Hsame Hr) as (p & Hin & Hprod & _). destruct (producer_state p Hin) as (z' & Hz' & ?).
        rewrite Hprod in Hz'. destruct Hz as [Hz _]. by simplify_eq.
      - destruct (rt_role d) eqn:Hrole; [by rewrite Hphase in Hr|]. destruct (Hfin eq_refl) as [_ Hall].
        eapply (Hall (node_id (ros_node o)) d'); [done|]. by destruct (rt_role d'). }
    destruct (step_is step_data_available st (node_id (ros_node o))) eqn:Hav; [done|exfalso].
    apply sort_dedup_nil, app_eq_nil in Hnil as [_ Hnil]. pose proof (join_nil _ _ _ Hnil Hs) as Hb. simpl in Hb.
    destruct (source_blocker s d x o Hat Hs) as [E _]. rewrite E in Hb.
    unfold step_is in Hav, Hb. rewrite (proj1 Hz) in Hav, Hb. by rewrite Hterm, Hav in Hb.
  - rewrite bool_decide_eq_true_2; [done|]. apply Hfin. by apply (sos_context _ _ _ Hsch).
Qed.
End node.

(** *** Ordinary steps *)

Context (Hset : settled (Provisional := Provisional) st) (Hpassed : passed_available st) (Hrec : recordable st).
Context (Hidle : active_count st = 0).

Lemma idle_node s d x : node_at st s d x → ss_state x = SPending ∨ is_terminal (ss_state x) = true.
Proof.
  intros [Hx _]. pose proof (idle_steps st s x Hidle Hx). destruct (ss_state x); auto.
Qed.

(** A node that waits while its producers are terminal. *)
Definition waiting role s d x : Prop :=
  node_at st s d x ∧ rt_role d = role ∧ ss_state x = SPending
  ∧ ∀ p, p ∈ rt_prerequisites d → step_is is_terminal st (rdp_producer p) = true.

(** Among the pending nodes of a role, one waits for none of the others. *)
Lemma waiting_exists role s d x :
  node_at st s d x → rt_role d = role → ss_state x = SPending → ∃ s d x, waiting role s d x.
Proof.
  destruct (sch_rank D HD) as [rank Hrank]. remember (rank s) as n eqn:Hn. revert s d x Hn.
  induction n as [n IH] using lt_wf_ind. intros s d x -> Hat Hrole Hp.
  destruct (forallb (λ p, step_is is_terminal st (rdp_producer p)) (rt_prerequisites d)) eqn:Hall.
  - exists s, d, x. split_and!; [done..|]. intros p Hin. rewrite forallb_forall in Hall. by apply Hall, list_elem_of_In.
  - apply forallb_false in Hall as (p & Hin & Hnt).
    destruct (producer_node s d x p Hat Hin) as (d' & z & Hz & Hrole'). rewrite (step_is_at _ _ _ _ _ Hz) in Hnt.
    destruct (idle_node _ _ _ Hz) as [Hpz|]; [|congruence].
    eapply (IH (rank (rdp_producer p))); [|done|exact Hz|congruence|done]. eapply Hrank; [by eapply node_defined|done].
Qed.

(** *** A waiting step *)

Section step.
Context (gate : SchedulingGate) (Hw : rs_workflow st = WExecuting gate).
Context (s : string) (d : RuntimeStep) (x : Step) (Hwait : waiting RoleStep s d x).

Lemma waiting_listed : s ∈ role_ids st RoleStep.
Proof. destruct Hwait as ([_ Hd] & Hrole & _). apply wf_role_ids_iff; eauto. Qed.

(** It is neither blocked nor left out by a failure stop. *)
Lemma waiting_unblocked :
  ordinary_unsatisfied_prerequisites st s d = []
  ∧ (failure_stopped (rs_workflow st) && forallb (ordinary_prerequisite_satisfied st) (rt_prerequisites d) = false).
Proof.
  destruct Hwait as (Hat & Hrole & Hp & _). unfold settled in Hset. rewrite Hw in Hset. destruct Hset as (Hnext & _).
  pose proof (find_map_None _ _ _ Hnext waiting_listed) as Hnone. unfold ordinary_pending_disposition in Hnone.
  rewrite (proj2 Hat), (proj1 Hat) in Hnone. cbn in Hnone. rewrite Hp in Hnone. cbn in Hnone.
  assert (Hblockers : ordinary_unsatisfied_prerequisites st s d = []).
  { apply dec_stable. intros Hne. rewrite bool_decide_eq_false_2 in Hnone by done. cbn in Hnone.
    destruct (sch_evidence D HD s d (node_defined s d x Hat)) as [Hlen Hok].
    destruct (blocked_within (rt_evidence_prerequisites d) (ordinary_unsatisfied_prerequisites st s d)) as [detail Hdetail];
      [done..| |done|by rewrite Hdetail in Hnone].
    unfold ordinary_unsatisfied_prerequisites.
    destruct (_ && _); [by eapply condition_blockers_within|by eapply body_blockers_within]. }
  split; [done|]. rewrite bool_decide_eq_true_2 in Hnone by done. cbn in Hnone. by destruct (_ && _).
Qed.

Lemma waiting_not_ready :
  gate = GateOpen → forallb (ordinary_prerequisite_satisfied st) (rt_prerequisites d) = false.
Proof.
  intros ->. destruct Hwait as (Hat & Hrole & Hp & _). unfold settled in Hset. rewrite Hw in Hset.
  destruct Hset as (_ & _ & Hready & _).
  assert (Hno : node_ready st RoleStep s d = false).
  { apply Hready; [by rewrite Hw| |apply waiting_listed|apply Hat]. rewrite Hidle, HDs. apply (sch_parallel D HD). }
  cbn in Hno. unfold ordinary_ready in Hno. by rewrite (step_is_at _ _ _ _ _ Hat), Hp in Hno.
Qed.

(** With the gate open its condition, if it waits for one, can be evaluated. *)
Lemma waiting_evaluated :
  gate = GateOpen → has_condition d = true → ss_condition_passed x = false → condition_blockers st d = [] → False.
Proof.
  intros -> Hhas Hnp Hblockers. destruct Hwait as (Hat & Hrole & Hp & Hterm).
  pose proof (λ p, condition_satisfied s d x Hat Hterm p Hblockers) as Hsat.
  unfold settled in Hset. rewrite Hw in Hset. destruct Hset as (_ & Heval & _).
  pose proof (gates_evaluated RoleStep s Hrec Heval waiting_listed) as Hg. unfold condition_gate_ready in Hg.
  rewrite (proj2 Hat), (proj1 Hat), Hhas, Hnp, Hp, Hblockers in Hg. unfold condition_phase_gate_open in Hg.
  rewrite Hw, Hrole in Hg. cbn in Hg. apply not_true_iff_false in Hg. apply Hg. apply andb_true_intro. split.
  - apply forallb_forall. intros p Hin%list_elem_of_In. unfold condition_prerequisite_ready.
    destruct (Hsat p Hin) as [Hcontrol Hdata]. destruct (producer_state d Hterm p Hin) as (z & Hz & Ht).
    unfold step_is in Hdata. rewrite Hz, Ht, Hrole in *. rewrite orb_true_r, andb_true_r. apply andb_true_intro. split.
    + destruct (rdp_control p); [|done]. by rewrite Hcontrol.
    + destruct (rdp_condition_data p); [|done]. by rewrite Hdata.
  - eapply sources_satisfied; [done..|]. rewrite Hrole. discriminate.
Qed.

(** Whose body data is missing, after a failure stop. *)
Lemma waiting_missing_data :
  condition_blockers st d = [] → forallb (ordinary_prerequisite_satisfied st) (rt_prerequisites d) = false →
  ∃ p, p ∈ rt_prerequisites d ∧ rdp_data p = true ∧ rdp_condition_data p = false
    ∧ step_is (λ v, is_terminal v && negb (step_data_available v)) st (rdp_producer p) = true.
Proof.
  intros Hblockers (p & Hin & Hns)%forallb_false. destruct Hwait as (Hat & Hrole & Hp & Hterm).
  destruct (condition_satisfied s d x Hat Hterm p Hblockers Hin) as [Hcontrol Hdata].
  destruct (producer_state d Hterm p Hin) as (z & Hz & Ht).
  unfold ordinary_prerequisite_satisfied in Hns. unfold step_is in Hdata. rewrite Hz in *.
  rewrite Ht, orb_true_r, andb_true_r in Hns.
  assert (negb (rdp_control p) || ordinary_control_satisfied st p = true) as Hc
    by (destruct (rdp_control p); [rewrite Hcontrol by done; done|done]).
  rewrite Hc in Hns. cbn in Hns. apply orb_false_elim in Hns as [Hdt%negb_false_iff Hav].
  exists p. split_and!; [done..| |unfold step_is; by rewrite Hz, Ht, Hav].
  destruct (rdp_condition_data p); [|done]. by rewrite Hdata in Hav.
Qed.

Lemma waiting_step : (∀ reason prior, gate ≠ GateCancelling reason prior) → stuck st.
Proof.
  intros Hgate. destruct waiting_unblocked as [Hblockers Hnotrun]. pose proof Hwait as (Hat & Hrole & Hp & Hterm).
  assert (gate = GateOpen ∨ ∃ issue, gate = GateFailureStopped issue) as Hcases
    by (generalize Hgate; case gate; [eauto..|intros reason prior Hno; by destruct (Hno reason prior)]).
  unfold ordinary_unsatisfied_prerequisites in Hblockers. rewrite (proj1 Hat) in Hblockers.
  destruct (has_condition d && negb (ss_condition_passed x)) eqn:Hcond.
  - apply andb_prop in Hcond as [Hhas Hnp%negb_true_iff].
    destruct Hcases as [Hg|[issue Hg]]; [by destruct waiting_evaluated|].
    rewrite Hw, Hg in Hnotrun. destruct (waiting_missing_data Hblockers Hnotrun) as (p & ? & ? & ? & ?).
    exists issue, s, d, x, p. rewrite <-Hg. by split_and!.
  - assert (Hall : forallb (ordinary_prerequisite_satisfied st) (rt_prerequisites d) = true).
    { apply forallb_forall. intros p Hin%list_elem_of_In. by eapply body_satisfied. }
    destruct Hcases as [Hg|[issue Hg]]; [by rewrite waiting_not_ready in Hall|]. by rewrite Hw, Hg, Hall in Hnotrun.
Qed.
End step.

(** *** A waiting finalizer *)

Lemma waiting_finalizer trigger issue s d x :
  phase_ok st → rs_workflow st = WFinalizing trigger FinOpen issue → waiting RoleFinalizer s d x → False.
Proof.
  intros Hph Hw (Hat & Hrole & Hp & Hterm). unfold phase_ok in Hph. rewrite Hw in Hph.
  destruct Hph as (Hall & _ & _ & f & Hf & Htrig & _).
  unfold settled in Hset. rewrite Hw in Hset. destruct Hset as (Hwhen & Hblock & Hinput & Heval & Hready & _).
  specialize (Hwhen s d x Hat Hrole Hp).
  assert (Hs : s ∈ role_ids st RoleFinalizer) by (apply wf_role_ids_iff; [done|]; exists d; by split; [apply Hat|]).
  assert (Hopen : condition_phase_gate_open st d = true)
    by (unfold condition_phase_gate_open; by rewrite Hw, Hrole, bool_decide_eq_true_2).
  destruct (has_condition d && negb (ss_condition_passed x)) eqn:Hcond.
  - apply andb_prop in Hcond as [Hhas Hnp%negb_true_iff].
    pose proof (find_map_None _ _ _ Hblock Hs) as Hnone. unfold finalizer_condition_block in Hnone.
    rewrite (proj2 Hat), (proj1 Hat) in Hnone. cbn in Hnone. rewrite Hhas, Hnp, Hp, Hopen in Hnone. cbn in Hnone.
    assert (Hblockers : condition_blockers st d = []).
    { apply dec_stable. intros Hne. destruct (sch_evidence D HD s d (node_defined s d x Hat)) as [Hlen Hok].
      destruct (blocked_within (rt_evidence_prerequisites d) (condition_blockers st d)) as [detail Hdetail];
        [done..|by eapply condition_blockers_within|done|by rewrite Hdetail in Hnone]. }
    pose proof (gates_evaluated RoleFinalizer s Hrec Heval Hs) as Hg. unfold condition_gate_ready in Hg.
    rewrite (proj2 Hat), (proj1 Hat), Hhas, Hnp, Hp, Hopen, Hblockers in Hg. cbn in Hg. apply not_true_iff_false in Hg.
    apply Hg. apply andb_true_intro. split; [|eapply sources_satisfied; [done..|]; intros _; split; [by rewrite Hf|done]].
    apply forallb_forall. intros p Hin%list_elem_of_In. unfold condition_prerequisite_ready.
    destruct (condition_satisfied s d x Hat Hterm p Hblockers Hin) as [_ Hdata].
    destruct (producer_state d Hterm p Hin) as (z & Hz & Ht). unfold step_is in Hdata. rewrite Hz in Hdata. rewrite Hz, Ht, Hrole.
    rewrite orb_true_r. destruct (rdp_condition_data p); [|done]. by rewrite Hdata.
  - assert (Hfr : finalizer_ready st s d = true).
    { unfold finalizer_ready. rewrite Hf, Htrig, (step_is_at _ _ _ _ _ Hat), Hp, bool_decide_eq_true_2 by done. cbn.
      apply forallb_forall. intros p Hin%list_elem_of_In. by apply Hterm. }
    pose proof (find_map_None _ _ _ Hinput Hs) as Hnone. unfold input_unavailable in Hnone.
    rewrite (proj2 Hat), (proj1 Hat) in Hnone. cbn in Hnone. rewrite Hfr, Hcond in Hnone. cbn in Hnone.
    assert (Hno : node_ready st RoleFinalizer s d = false).
    { apply Hready; [by rewrite Hw| |done|apply Hat]. rewrite Hidle, HDs. apply (sch_parallel D HD). }
    cbn in Hno. rewrite Hfr in Hno. by destruct (bool_decide _).
Qed.

(** *** The end of the run *)

(** The outputs a run reads of a node: those it exports, and those the
    conditions of the nodes it does not inherit read. *)
Definition output_read (s name : string) : Prop :=
  (∃ export, (export, {| re_step := s; re_output := name |}) ∈ def_exports (rs_definition st))
  ∨ ∃ t d x canonical source, node_at st t d x ∧ state_kind (ss_state x) ≠ KInherited
      ∧ (canonical, SourceOutput source) ∈ rt_condition_values d ∧ node_id (ros_node source) = s ∧ ros_output source = name.

(** What a node inherited holds the outputs the run reads of it. *)
Definition inherited_read : Prop :=
  ∀ s d x run outputs, node_at st s d x → ss_state x = SInherited run InhSucceeded outputs →
    ∀ name, output_read s name → is_Some (bt_get outputs name).

Lemma exports_derived :
  each_node outputs_declared st → inherited_read → (∀ s d x, node_at st s d x → is_terminal (ss_state x) = true) →
  derive_exports st = None → False.
Proof.
  intros Hout Hinh Hall Hnone. assert (is_Some (derive_exports st)) as [? ?]; [|congruence].
  unfold derive_exports. apply mapM_is_Some_2, Forall_forall. intros [name source] Hin. rewrite HDs in Hin.
  destruct (sch_export D HD name source Hin) as (d & Hd & Hdecl).
  destruct (node_at_exists st (re_step source) d Hwf) as [z Hz]; [unfold def_step; by rewrite HDs|].
  change (is_Some (x ← rs_steps st !! re_step source; value ← export_value (ss_state x) (re_output source); Some (name, value))). rewrite (proj1 Hz). cbn. assert (is_Some (export_value (ss_state z) (re_output source))) as [v ->]; [|cbn; eauto].
  specialize (Hall _ _ _ Hz). unfold export_value.
  destruct (ss_state z) as [| | | | | |outputs|run [] outputs| | | | |] eqn:E; try done; try (simpl; eauto).
  - apply fmap_is_Some. apply bt_get_is_Some. by rewrite (Hout _ _ _ Hz outputs E).
  - apply fmap_is_Some. eapply Hinh; [done..|]. left. exists name. rewrite HDs. by destruct source.
Qed.

End settled_state.

(** Either the nodes of a role are terminal or one of them waits. *)
Lemma role_idle D st role :
  schedulable D → wf st → rs_definition st = D → active_count st = 0 →
  (forallb (step_is is_terminal st) (role_ids st role) = true
   ∧ ∀ s d x, node_at st s d x → rt_role d = role → is_terminal (ss_state x) = true)
  ∨ ∃ s d x, waiting st role s d x.
Proof.
  intros HD Hwf HDs Hidle. destruct (forallb (step_is is_terminal st) (role_ids st role)) eqn:Hall.
  - left. split; [done|]. intros s d x Hat Hrole. rewrite forallb_forall in Hall. rewrite <-(step_is_at is_terminal _ _ _ _ Hat).
    apply Hall, list_elem_of_In, wf_role_ids_iff; [done|]. exists d. by split; [apply Hat|].
  - right. apply forallb_false in Hall as (s & (d & Hd & Hrole)%wf_role_ids_iff & Hnt); [|done].
    destruct (node_at_exists st s d Hwf Hd) as [x Hat]. rewrite (step_is_at _ _ _ _ _ Hat) in Hnt.
    destruct (idle_node st Hidle s d x Hat) as [Hp|]; [|congruence]. by eapply waiting_exists.
Qed.

(** An unfinished run that waits for nothing is stuck. *)
Lemma reachable_idle D st :
  schedulable D → (def_maximum_transitions D < u64_max)%N → reachable (Provisional := Provisional) D st →
  rs_transition_capacity_exceeded st = false → recordable st → inherited_read st →
  is_finished (rs_workflow st) = false → active_count st = 0 → stuck st.
Proof.
  intros HD Hmax Hr Hcap Hrec Hinh Hfin Hidle. pose proof (sch_wf D HD) as Hdw.
  destruct (reachable_settled D st Hdw Hmax (schedulable_evidence_ok D HD) Hr Hcap) as [Hset _].
  destruct (reachable_phase_ok D st Hdw Hr) as [Hph [Hwf HDs]].
  pose proof (reachable_outputs D st Hdw Hr) as Hout. pose proof (reachable_passed D st Hdw Hr) as Hpassed.
  pose proof (reachable_closed D st Hdw Hr) as Hclosed.
  destruct (rs_workflow st) as [gate|trigger gate issue| | |] eqn:Hw; try done.
  - destruct (role_idle D st RoleStep HD Hwf HDs Hidle) as [[Hforall Hall]|(s & d & x & Hwait)].
    + exfalso. unfold settled in Hset. rewrite Hw in Hset. destruct Hset as (_ & _ & _ & Hend).
      destruct (Hend Hforall) as [Hnil Hexp]. eapply exports_derived; [done..| |exact Hexp]. intros s d x Hat.
      destruct (rt_role d) eqn:Hrole; [by eapply Hall|exfalso].
      assert (Hin : s ∈ role_ids st RoleFinalizer) by (apply wf_role_ids_iff; [done|]; exists d; by split; [apply Hat|]).
      simpl in Hin. rewrite Hnil in Hin. by apply elem_of_nil in Hin.
    + eapply waiting_step; [done..|]. intros reason prior ->. destruct Hwait as (Hat & Hrole & Hp & _).
      pose proof (Hclosed RoleStep) as Hc. rewrite Hw in Hc. specialize (Hc eq_refl ltac:(done) s d x Hat Hrole). by rewrite Hp in Hc.
  - exfalso. pose proof Hset as Hsettled. unfold settled in Hset. rewrite Hw in Hset. pose proof Hph as Hsteps. unfold phase_ok in Hsteps. rewrite Hw in Hsteps.
    destruct Hsteps as (Hsteps & _).
    assert (Hexp : forallb (step_is is_terminal st) (def_finalizer_ids (rs_definition st)) = true → derive_exports st = None)
      by (destruct gate; apply Hset).
    destruct (role_idle D st RoleFinalizer HD Hwf HDs Hidle) as [[Hforall Hall]|(s & d & x & Hwait)].
    + eapply exports_derived; [done..| |by apply Hexp]. intros s d x Hat. destruct (rt_role d) eqn:Hrole; eauto.
    + destruct gate as [|reason deadline force]; [by eapply waiting_finalizer|].
      destruct Hwait as (Hat & Hrole & Hp & _). destruct (ordinary_force_abort st) eqn:Hforce.
      * by apply (proj1 Hset eq_refl s d x Hat Hrole).
      * pose proof (Hclosed RoleFinalizer) as Hc. rewrite Hw in Hc. specialize (Hc eq_refl ltac:(done) s d x Hat Hrole).
        by rewrite Hp in Hc.
Qed.

(** ** An idle run only hears cancellations *)

Lemma idle_step_accepts st s kind a :
  active_count st = 0 → kind ∈ [KStarting; KRunning; KCapturingOutputs] → step_accepts st s kind a = false.
Proof.
  intros Hidle Hk. unfold step_accepts. destruct (rs_steps st !! s) as [x|] eqn:Hx; [|done].
  pose proof (idle_steps st s x Hidle Hx) as Hact. apply andb_false_intro1, bool_decide_eq_false_2. intros <-.
  rewrite !elem_of_cons, elem_of_nil in Hk. destruct (ss_state x); simpl in *; intuition discriminate.
Qed.

Lemma idle_handler_accepts st s round expected a : active_count st = 0 → handler_accepts st s round expected a = false.
Proof.
  intros Hidle. unfold handler_accepts. destruct (rs_steps st !! s) as [x|] eqn:Hx; [|done].
  pose proof (idle_steps st s x Hidle Hx) as Hact. apply andb_false_intro2. by destruct (ss_state x).
Qed.

Lemma idle_cancelling_step st s a : active_count st = 0 → cancelling_step st s a = None.
Proof.
  intros Hidle. unfold cancelling_step. destruct (rs_steps st !! s) as [x|] eqn:Hx; [|done]. cbn.
  pose proof (idle_steps st s x Hidle Hx) as Hact. by destruct (ss_state x).
Qed.

Lemma idle_rejects st o :
  active_count st = 0 → cancellation_requested o = false → rd_occurrence_accepted (reduce st o) = false.
Proof.
  intros Hidle Ho. unfold reduce. destruct (is_finished (rs_workflow st)); [done|].
  assert (Hfalse : apply_occurrence (begin st) o = (false, (apply_occurrence (begin st) o).2)
    ∧ rd_occurrence_accepted (apply_occurrence (begin st) o).2 = false).
  { destruct o; try discriminate Ho; cbn [apply_occurrence];
      unfold apply_step_failure, apply_execution_completed, apply_handler_decision, apply_handler_failure; cbn [begin rd_state];
      rewrite ?idle_handler_accepts, ?idle_cancelling_step by done;
      rewrite ?idle_step_accepts by (done || set_solver); try done. by destruct (requires_release provisional). }
  destruct Hfalse as [-> Hacc]. exact Hacc.
Qed.
End progress.
