(* ===== verification/Outcomes.v ===== *)
(** * What a finished run says of its nodes

    The outcome of a run, its primary issue, its cancellation and its force
    abort are read back by everything that reports it.  The invariants here
    tie them to the nodes: the issue is the one of a required node, the
    cancelled nodes carry the reason of an accepted cancellation, and the
    outcome is the one its two phases compose. *)

From S2P Require Import Prelude Text Nodes Evidence Condition Validated Runtime Reducer Moves Refinement Views Stabilize Occurrences Runs NodeSteps NodeInvariants Phases.

Section outcomes.
Context {Provisional Cause Output Deadline : Type}.
Context `{!SerdeJson, !NodeFailureSource Cause, !ConditionOutput Output,
          !ProvisionalStepResources Provisional}.

Local Abbreviation State := (RuntimeState Cause Output Deadline).
Local Abbreviation Red := (Reduction Provisional Cause Output Deadline).
Local Abbreviation Step := (StepRuntimeState Cause Output).

Implicit Types (st : State) (r : Red) (x y : Step) (s t : string) (d : RuntimeStep) (D : RuntimeDefinition).

(** ** The outcome of the ordinary steps *)

(** The outcome of a run that ended, without its finalization. *)
Definition ended_outcome (w : WorkflowState Deadline) : option OrdinaryOutcome :=
  match w with
  | WSucceeded => Some OrdSucceeded
  | WFailed primary_issue later_cancellation => Some (OrdFailed primary_issue later_cancellation)
  | WCancelled reason => Some (OrdCancelled reason)
  | WExecuting _ | WFinalizing _ _ _ => None
  end.

(** The outcome the ordinary steps have, or would have if they ended now. *)
Definition ordinary_result st : option OrdinaryOutcome :=
  match rs_finalization st with
  | Some f => Some (fnr_ordinary_outcome f)
  | None => if is_executing (rs_workflow st) then ordinary_outcome st else ended_outcome (rs_workflow st)
  end.

(** The reason of the accepted cancellation of the ordinary steps. *)
Definition ordinary_reason st : option CancellationReason := ordinary_result st ≫= outcome_cancellation.

(** The outcome two phases compose: that of the ordinary steps, the reason
    the finalizers were cancelled for, and their issue. *)
Definition composed (ordinary : OrdinaryOutcome) (reason : option CancellationReason) (issue : option PrimaryIssue)
    : OrdinaryOutcome :=
  match ordinary with
  | OrdFailed primary_issue (Some later) => OrdFailed primary_issue (Some later)
  | OrdFailed primary_issue None => OrdFailed primary_issue reason
  | OrdCancelled reason => OrdCancelled reason
  | OrdSucceeded =>
      match issue, reason with
      | Some primary_issue, _ => OrdFailed primary_issue reason
      | None, Some reason => OrdCancelled reason
      | None, None => OrdSucceeded
      end
  end.

Definition finalization_reason (f : FinalizationRuntime Deadline) : option CancellationReason :=
  fin_reason <$> fnr_cancellation f.

Lemma compose_final_outcome_composed st f trigger gate issue :
  phase_ok st → rs_workflow st = WFinalizing trigger gate issue → rs_finalization st = Some f →
  compose_final_outcome st f = composed (fnr_ordinary_outcome f) (finalization_reason f) issue.
Proof.
  unfold phase_ok, compose_final_outcome, composed, finalization_reason. intros Hok Hw Hf. rewrite Hw in Hok |- *.
  destruct Hok as (_ & _ & _ & f' & Hf' & _ & _ & _ & Hgate). rewrite Hf in Hf'. injection Hf' as <-.
  destruct (fnr_ordinary_outcome f) as [|primary [later|]|reason]; try done.
  destruct issue as [issue|]; [by destruct gate|]. destruct gate as [|reason deadline force]; by rewrite Hgate.
Qed.

(** ** Issues *)

(** The issue of a required node of the run. *)
Definition issue_at st (role : WorkflowNodeRole) (issue : PrimaryIssue) : Prop :=
  ∃ s d x, node_at st s d x ∧ rt_role d = role ∧ rt_failure_policy d = Required ∧ node_issue s d x = Some issue.

Lemma issue_at_role st role issue : issue_at st role issue → node_role (pi_node issue) = role.
Proof.
  intros (s & d & x & _ & Hrole & _ & Hi). unfold node_issue in Hi. destruct (ss_state x); by simplify_eq/=.
Qed.

Lemma node_issue_terminal s d x issue : node_issue s d x = Some issue → is_terminal (ss_state x) = true.
Proof. unfold node_issue. by destruct (ss_state x). Qed.

Lemma issue_at_changed r r' role issue :
  rs_definition (rd_state r') = rs_definition (rd_state r) → node_changed r r' →
  issue_at (rd_state r) role issue → issue_at (rd_state r') role issue.
Proof.
  intros HD (s & d & x & y & Hat & Hstep & Hst & _) (t & d' & z & [Hz Hd] & Hrole & Hp & Hi). exists t, d', z.
  split_and!; [|done..]. split; [|unfold def_step in *; by rewrite HD]. rewrite Hst, lookup_insert_ne; [done|].
  intros ->. pose proof (node_step_live _ _ _ _ _ Hstep) as Hlive. apply node_issue_terminal in Hi.
  destruct Hat as [Hx _]. simplify_eq. congruence.
Qed.

Lemma issue_at_same st st' role issue :
  rs_definition st' = rs_definition st → rs_steps st' = rs_steps st → issue_at st role issue → issue_at st' role issue.
Proof.
  intros HD Hs (t & d & z & [Hz Hd] & Hrest). exists t, d, z. split; [|done]. split; [by rewrite Hs|].
  unfold def_step in *. by rewrite HD.
Qed.

(** The issue a node commits is its own. *)
Lemma committed_issue r r' s d x y :
  rs_definition (rd_state r') = rs_definition (rd_state r) →
  node_at (rd_state r) s d x → rs_steps (rd_state r') = <[s := y]> (rs_steps (rd_state r)) →
  rs_workflow (rd_state r') = after_node (rs_workflow (rd_state r)) s d y →
  rs_workflow (rd_state r') = rs_workflow (rd_state r)
  ∨ (∃ issue, rs_workflow (rd_state r) = WExecuting GateOpen
       ∧ rs_workflow (rd_state r') = WExecuting (GateFailureStopped issue) ∧ issue_at (rd_state r') RoleStep issue)
  ∨ (∃ issue, rs_workflow (rd_state r) = WFinalizing TriggerSucceeded FinOpen None
       ∧ rs_workflow (rd_state r') = WFinalizing TriggerSucceeded FinOpen (Some issue)
       ∧ issue_at (rd_state r') RoleFinalizer issue).
Proof.
  intros HD [Hx Hd] Hst Hw. unfold after_node in Hw.
  destruct (node_issue s d y) as [issue|] eqn:Hi; [|by left].
  assert (Hat : ∀ role, rt_role d = role → rt_failure_policy d = Required → issue_at (rd_state r') role issue).
  { intros role Hrole Hp. exists s, d, y. split_and!; [|done..]. split; [by rewrite Hst, lookup_insert_eq|].
    unfold def_step in *. by rewrite HD. }
  rewrite Hw. unfold committed_workflow.
  destruct (rt_failure_policy d) eqn:Hp, (rt_role d) eqn:Hrole, (rs_workflow (rd_state r)) as [[]|[] [] []| | |];
    simpl; eauto 12.
Qed.

(** ** The invariant of outcomes *)

(** How a run that ended relates to its finalization. *)
Definition ended_ok st : Prop :=
  match rs_finalization st with
  | Some f =>
      rs_finalization_summary st = Some (finalization_summary st f)
      ∧ ∃ issue, ended_outcome (rs_workflow st) = Some (composed (fnr_ordinary_outcome f) (finalization_reason f) issue)
          ∧ ∀ primary, issue = Some primary → fnr_ordinary_outcome f = OrdSucceeded → issue_at st RoleFinalizer primary
  | None => rs_finalization_summary st = None ∧ def_finalizer_ids (rs_definition st) = []
  end.

Definition outcome_ok st : Prop :=
  (∀ issue later, ordinary_result st = Some (OrdFailed issue later) → issue_at st RoleStep issue)
  ∧ (is_Some (rs_finalization st) → def_finalizer_ids (rs_definition st) ≠ [])
  ∧ match rs_workflow st with
    | WExecuting _ => True
    | WFinalizing trigger _ issue =>
        ∀ primary, trigger = TriggerSucceeded → issue = Some primary → issue_at st RoleFinalizer primary
    | WSucceeded | WFailed _ _ | WCancelled _ => ended_ok st
    end.

Lemma ordinary_result_same st st' :
  rs_workflow st' = rs_workflow st → rs_finalization st' = rs_finalization st → ordinary_result st' = ordinary_result st.
Proof. intros Hw Hf. unfold ordinary_result, ordinary_outcome. by rewrite Hw, Hf. Qed.

Lemma finalization_summary_same st st' f :
  rs_definition st' = rs_definition st → rs_steps st' = rs_steps st → finalization_summary st' f = finalization_summary st f.
Proof. intros HD Hs. unfold finalization_summary, def_step. by rewrite HD, Hs. Qed.

Lemma outcome_ok_node r r' :
  rs_definition (rd_state r') = rs_definition (rd_state r) → phase_ok (rd_state r) →
  node_changed r r' → outcome_ok (rd_state r) → outcome_ok (rd_state r').
Proof.
  intros HD Hph Hch (Hord & Hids & Hrest). pose proof (issue_at_changed r r') as Hkeep.
  pose proof Hch as (s & d & x & y & Hat & Hstep & Hst & Hw & Hf & Hfa & He & _).
  unfold outcome_ok. rewrite HD, Hf. split_and!; [|done|].
  - destruct (committed_issue r r' s d x y HD Hat Hst Hw) as [Hsame|[(issue & Hw0 & Hw1 & Hi)|(issue & Hw0 & Hw1 & Hi)]].
    + rewrite (ordinary_result_same (rd_state r) (rd_state r')) by done. intros issue later Hp. by eapply Hkeep, Hord.
    + unfold phase_ok in Hph. rewrite Hw0 in Hph. unfold ordinary_result, ordinary_outcome. rewrite Hf, Hw1.
      destruct Hph as (_ & -> & _). simpl. intros ? ? [= <- _]. done.
    + intros primary later Hp. apply (Hkeep _ _ HD Hch), (Hord primary later). unfold ordinary_result in *.
      by rewrite Hf, Hw1 in Hp; rewrite Hw0.
  - destruct (committed_issue r r' s d x y HD Hat Hst Hw) as [Hsame|[(issue & Hw0 & Hw1 & Hi)|(issue & Hw0 & Hw1 & Hi)]].
    + rewrite Hsame. unfold phase_ok in Hph. pose proof (node_step_live _ _ _ _ _ Hstep) as Hlive.
      destruct (rs_workflow (rd_state r)) as [|trigger gate issue| | |]; [done|eauto|..];
        exfalso; destruct Hph as (H1 & H2 & _); destruct (rt_role d) eqn:Hrole;
        [specialize (H1 _ _ _ Hat Hrole)|specialize (H2 _ _ _ Hat Hrole)
        |specialize (H1 _ _ _ Hat Hrole)|specialize (H2 _ _ _ Hat Hrole)
        |specialize (H1 _ _ _ Hat Hrole)|specialize (H2 _ _ _ Hat Hrole)]; simpl in *; congruence.
    + by rewrite Hw1.
    + rewrite Hw1. by intros ? _ [= <-].
Qed.

Lemma outcome_ok_run r r' :
  rs_definition (rd_state r') = rs_definition (rd_state r) → phase_ok (rd_state r) →
  run_changed r r' → outcome_ok (rd_state r) → outcome_ok (rd_state r').
Proof.
  intros HD Hph [Hst (es & _ & Hrun)] (Hord & Hids & Hrest).
  assert (Hkeep : ∀ role issue, issue_at (rd_state r) role issue → issue_at (rd_state r') role issue)
    by (intros; by eapply issue_at_same).
  unfold outcome_ok. rewrite HD. unfold phase_ok in Hph.
  destruct Hrun as [Hw Hf Hfa He Hs|outcome f n to Hex Hall Hnil Ho Hentry Hf Hfa He
    |outcome summary exports n to Hreason Hexp Hw He Hf Hfa Hs
    |gate reason prior n deadline Hw Hg Hw' Hf Hfa He|trigger issue reason deadline n Hw Hw' Hf Hfa He
    |gate n Hw Hnone Hw' Hfa Hf He|trigger gate issue n Hw Hnone Hw' Hfa Hf He].
  - rewrite (ordinary_result_same (rd_state r) (rd_state r')), Hf, Hw by done. split_and!; [eauto|done|].
    unfold ended_ok in *. rewrite Hw, Hf, Hs, HD. destruct (rs_workflow (rd_state r)); [done|eauto|..];
      (destruct (rs_finalization (rd_state r)) as [f|]; [|done]);
      destruct Hrest as (Hsum & issue & He' & Hi); rewrite (finalization_summary_same (rd_state r) (rd_state r')) by done; eauto 8.
  - unfold finalization_entry in Hentry. injection Hentry as Hw' Hf'. unfold ordinary_result. rewrite Hf, Hw', Hf'. simpl.
    destruct (rs_workflow (rd_state r)) as [gate| | | |] eqn:Hw; try done. destruct Hph as (_ & Hnone & _).
    split_and!; [|done|].
    + intros issue later [= ->]. apply Hkeep, (Hord issue later). unfold ordinary_result. by rewrite Hnone, Hw.
    + intros primary Htrig Hi. exfalso. by destruct outcome.
  - unfold ordinary_result. rewrite Hf, Hw. unfold ended_ok. rewrite Hf, Hs, HD, Hw.
    assert (Hbut : ∀ (P : Prop), P → match finished_workflow (Deadline := Deadline) outcome with
      | WExecuting _ => True
      | WFinalizing trigger _ issue => ∀ primary, trigger = TriggerSucceeded → issue = Some primary → issue_at (rd_state r') RoleFinalizer primary
      | WSucceeded | WFailed _ _ | WCancelled _ => P end) by (intros P HP; by destruct outcome).
    assert (Hend : ended_outcome (finished_workflow outcome) = Some outcome) by by destruct outcome.
    destruct summary as [summary|]; destruct Hreason as (Hphase & _ & Hreason).
    + destruct Hreason as (f & Hf' & -> & ->). rewrite Hf' in *. unfold ordinary_result in Hord. rewrite Hf' in Hord.
      split_and!; [eauto|done|]. apply Hbut. rewrite (finalization_summary_same (rd_state r) (rd_state r')) by done.
      split; [done|]. destruct (rs_workflow (rd_state r)) as [|trigger gate issue| | |] eqn:Hwr; try done.
      exists issue. rewrite Hend. split.
      * f_equal. eapply compose_final_outcome_composed; [|done..]. unfold phase_ok. by rewrite Hwr, Hf'.
      * intros primary Hi Hout. apply Hkeep, Hrest; [|done]. destruct Hph as (_ & _ & _ & f' & Hff & Ht & Ht' & _).
        simplify_eq. by rewrite <-Ht', Hout.
    + destruct (rs_workflow (rd_state r)) as [gate| | | |] eqn:Hwr; try done. destruct Hph as (_ & Hnone & _).
      rewrite Hnone. destruct Hreason as [Hnil Ho]. split_and!; [|by intros [? [=]]|by apply Hbut].
      intros issue later. replace (is_executing (finished_workflow outcome)) with false by by destruct outcome.
      rewrite Hend. intros [= ->]. apply Hkeep, (Hord issue later). unfold ordinary_result. by rewrite Hnone, Hwr.
  - unfold ordinary_result, ordinary_outcome in *. rewrite Hf, Hw' in *. rewrite Hw in *. simpl in *.
    destruct Hph as (_ & Hnone & _). rewrite Hnone in *. split_and!; [|done|done].
    destruct Hg as [(-> & ->)|(issue & -> & ->)]; [done|]. intros ? ? [= <- _]. apply Hkeep. by eapply Hord.
  - unfold ordinary_result in *. rewrite Hf, Hw'. rewrite Hw in Hrest, Hph.
    destruct (rs_finalization (rd_state r)) as [f|] eqn:Hff; simpl; [|by destruct Hph as (_ & _ & _ & ? & [=] & _)].
    split_and!; [eauto|eauto|]. intros primary ? ?. by apply Hkeep, Hrest.
  - unfold ordinary_result, ordinary_outcome in *. rewrite Hf, Hw' in *. rewrite Hw in *. simpl in *.
    destruct Hph as (_ & Hfin & _). rewrite Hfin in *. split_and!; [|done|done].
    destruct gate as [|issue|reason [issue|]]; simpl; try done; intros ? ? [= <- _]; apply Hkeep; by eapply Hord.
  - unfold ordinary_result in *. rewrite Hf, Hw'. rewrite Hw in Hrest, Hph.
    destruct (rs_finalization (rd_state r)) as [f|] eqn:Hff; simpl; [|by destruct Hph as (_ & _ & _ & ? & [=] & _)].
    split_and!; [eauto|eauto|]. intros primary ? ?. by apply Hkeep, Hrest.
Qed.

(** ** Force aborts and the cancellation of finalizers *)

Definition cancellation_ok (f : FinalizationRuntime Deadline) (c : FinalizationCancellation Deadline) : Prop :=
  is_Some (fin_deadline c) ∨ fin_reason c = ForceAbort ∧ fin_deadline c = None ∧ fnr_force_abort f = true.

Definition abort_ok st : Prop :=
  (∀ evidence, rs_force_abort st = Some evidence →
     fae_reason evidence = ForceAbort ∧ (fae_phase evidence = PhaseFinalization → is_Some (rs_finalization st)))
  ∧ ∀ f, rs_finalization st = Some f →
      fnr_force_abort f = forced st
      ∧ (∀ c, fnr_cancellation f = Some c → cancellation_ok f c)
      ∧ (fnr_force_abort f = true → is_Some (fnr_cancellation f))
      ∧ (ordinary_force_abort st = true →
         fnr_cancellation f = Some {| fin_reason := ForceAbort; fin_deadline := None |})
      ∧ (∀ trigger reason deadline force issue,
           rs_workflow st = WFinalizing trigger (FinCancelling reason deadline force) issue → fnr_force_abort f = force).

Lemma abort_ok_node r r' : node_changed r r' → abort_ok (rd_state r) → abort_ok (rd_state r').
Proof.
  intros (s & d & x & y & _ & _ & _ & Hw & Hf & Hfa & _) [H1 H2]. unfold abort_ok, forced, ordinary_force_abort in *.
  rewrite Hf, Hfa. split; [done|]. intros f Hff. destruct (H2 f Hff) as (? & ? & ? & ? & Hgate). split_and!; [done..|].
  intros trigger reason deadline force issue Hw'. apply (Hgate trigger reason deadline force issue).
  apply after_node_cases in Hw as [<-|[(? & _ & Hw)|(? & _ & Hw)]]; congruence.
Qed.

Lemma abort_ok_run r r' :
  phase_ok (rd_state r) → run_changed r r' → abort_ok (rd_state r) → abort_ok (rd_state r').
Proof.
  intros Hph [_ (es & _ & Hrun)] [Hev Hfin]. unfold phase_ok in Hph.
  assert (Hsame : rs_force_abort (rd_state r') = rs_force_abort (rd_state r) →
    rs_finalization (rd_state r') = rs_finalization (rd_state r) →
    (∀ trigger gate issue, rs_workflow (rd_state r') = WFinalizing trigger gate issue →
       rs_workflow (rd_state r) = WFinalizing trigger gate issue) → abort_ok (rd_state r')).
  { intros Hfa Hf Hw. unfold abort_ok, forced, ordinary_force_abort in *. rewrite Hfa, Hf. split; [done|].
    intros f Hff. destruct (Hfin f Hff) as (? & ? & ? & ? & ?). split_and!; eauto. }
  destruct Hrun as [Hw Hf Hfa He Hs|outcome f n to Hex Hall Hnil Ho Hentry Hf Hfa He _
    |outcome summary exports n to Hreason Hexp Hw He Hf Hfa Hs _
    |gate reason prior n deadline Hw Hg Hw' Hf Hfa He|trigger issue reason deadline n Hw Hw' Hf Hfa He
    |gate n Hw Hnone Hw' Hfa Hf He|trigger gate issue n Hw Hnone Hw' Hfa Hf He].
  - apply Hsame; [done..|]. by rewrite Hw.
  - unfold finalization_entry in Hentry. injection Hentry as Hw' Hf'. unfold abort_ok, forced, ordinary_force_abort.
    rewrite Hf, Hfa. split; [intros evidence Hev'; split; [by apply Hev|eauto]|]. intros f0 [= <-]. rewrite Hf'. simpl.
    destruct (rs_workflow (rd_state r)) as [gate| | | |] eqn:Hw; try done. destruct Hph as (_ & _ & _ & Hforce).
    assert (Hforced : ordinary_force_abort (rd_state r) = forced (rd_state r)).
    { unfold forced, ordinary_force_abort in *. destruct Hforce as [->|[Hf0 _]]; [done|].
      destruct (rs_force_abort (rd_state r)); [|done]. by rewrite Hf0, bool_decide_eq_true_2. }
    unfold ordinary_force_abort, forced in *.
    split_and!; [done|..].
    + destruct (match rs_force_abort (rd_state r) with Some _ => _ | None => _ end); [|done]. intros c [= <-]. right. done.
    + by intros ->.
    + by intros ->.
    + intros trigger reason deadline force issue. rewrite Hw'.
      destruct (match rs_force_abort (rd_state r) with Some _ => _ | None => _ end); [|done]. by intros [= _ _ _ <- _].
  - apply Hsame; [done..|]. rewrite Hw. by destruct outcome.
  - apply Hsame; [done..|]. by rewrite Hw'.
  - rewrite Hw in Hph. destruct Hph as (_ & _ & Hforce & f & Hff & _). rewrite Hff in *.
    assert (Hnone : rs_force_abort (rd_state r) = None) by by destruct Hforce as [|(? & ? & ?)].
    unfold abort_ok, forced, ordinary_force_abort in *. rewrite Hfa, Hf, Hnone in *. split; [done|].
    destruct (Hfin f eq_refl) as (Hff' & _). intros f0 [= <-]. simpl. rewrite Hff'. split_and!; try done.
    + intros c [= <-]. left. eauto.
    + intros ? ? ? ? ?. rewrite Hw'. by intros [= _ _ _ <- _].
  - rewrite Hw in Hph. destruct Hph as (_ & Hfn & _). unfold abort_ok, forced, ordinary_force_abort. rewrite Hfa, Hf, Hfn.
    split; [|done]. by intros evidence [= <-].
  - rewrite Hw in Hph. destruct Hph as (_ & _ & _ & f & Hff & _ & _ & _ & Hgate). rewrite Hff in *.
    unfold abort_ok, forced, ordinary_force_abort. rewrite Hfa, Hf. simpl. split.
    { intros evidence [= <-]. simpl. eauto. }
    destruct (Hfin f eq_refl) as (_ & Hc & _). intros f0 [= <-]. simpl. split_and!; [done|..].
    + intros c. unfold cancellation_ok; simpl. destruct (fnr_cancellation f) as [c0|] eqn:Hc0.
      * intros [= <-]. destruct (Hc c0 eq_refl) as [?|(? & ? & ?)]; [by left|by right].
      * intros [= <-]. by right.
    + intros _. destruct (fnr_cancellation f); eauto.
    + done.
    + intros ? ? ? ? ?. rewrite Hw'. destruct gate; by intros [= _ _ _ <- _].
Qed.

Lemma initial_abort_ok D (seed : ExecutionSeed Output) :
  abort_ok (initial_state (Cause := Cause) (Deadline := Deadline) D seed).
Proof. by split. Qed.

Lemma move_abort_ok r r' :
  move r r' → wf (rd_state r) → phase_ok (rd_state r) → abort_ok (rd_state r) → abort_ok (rd_state r').
Proof.
  intros Hm Hwf Hph. destruct (move_changed _ _ Hwf Hm); [by eapply abort_ok_node|by eapply abort_ok_run].
Qed.

Lemma initial_outcome_ok D (seed : ExecutionSeed Output) :
  outcome_ok (initial_state (Cause := Cause) (Deadline := Deadline) D seed).
Proof. split_and!; [by intros ? ? [=]|by intros [? [=]]|done]. Qed.

Lemma move_outcome_ok r r' :
  move r r' → wf (rd_state r) → phase_ok (rd_state r) → outcome_ok (rd_state r) → outcome_ok (rd_state r').
Proof.
  intros Hm Hwf Hph. pose proof (move_definition _ _ Hm). destruct (move_changed _ _ Hwf Hm);
    [by eapply outcome_ok_node|by eapply outcome_ok_run].
Qed.
End outcomes.
