(* ===== verification/Reasons.v ===== *)
(** * The reasons nodes are cancelled for

    Every cancelled node carries the reason of the accepted cancellation of
    its phase, or a force abort that reached its phase.  The log says which
    cancellation was accepted. *)

From S2P Require Import Prelude Text Nodes Evidence Condition Validated Runtime Reducer Moves Refinement Views Stabilize Occurrences Runs NodeSteps NodeInvariants Phases History Scheduling Containment Numbering Cancelling Outcomes.

Section reasons.
Context {Provisional Cause Output Deadline : Type}.
Context `{!SerdeJson, !NodeFailureSource Cause, !ConditionOutput Output,
          !ProvisionalStepResources Provisional}.

Local Abbreviation State := (RuntimeState Cause Output Deadline).
Local Abbreviation Red := (Reduction Provisional Cause Output Deadline).
Local Abbreviation Step := (StepRuntimeState Cause Output).
Local Abbreviation Event := (TransitionEvent Deadline).

Implicit Types (st : State) (r : Red) (x y : Step) (s t : string) (d : RuntimeStep) (D : RuntimeDefinition).

(** ** What a change does to the outcome of the ordinary steps *)

Definition only_stopped st st' : Prop :=
  ordinary_reason st = None ∧ ordinary_reason st' = None.

Lemma node_result r r' :
  phase_ok (rd_state r) → node_changed r r' →
  ordinary_result (rd_state r') = ordinary_result (rd_state r) ∨ only_stopped (rd_state r) (rd_state r').
Proof.
  intros Hph (s & d & x & y & _ & _ & _ & Hw & Hf & _). unfold phase_ok in Hph. unfold only_stopped, ordinary_reason.
  apply after_node_cases in Hw as [Hw|[(issue & Hw & Hw')|(issue & Hw & Hw')]].
  - left. by apply ordinary_result_same.
  - rewrite Hw in Hph. destruct Hph as (_ & Hnone & _). right. unfold ordinary_result, ordinary_outcome.
    by rewrite Hf, Hw, Hw', Hnone.
  - rewrite Hw in Hph. destruct Hph as (_ & _ & _ & f & Hff & _). left. unfold ordinary_result. by rewrite Hf, Hff.
Qed.

(** The reason of an accepted cancellation stays, and becomes known only
    with its acceptance. *)
Inductive reason_step st st' (es : list Event) : Prop :=
| reason_same :
    ordinary_reason st' = ordinary_reason st → Forall (λ e, match e with EvCancellationAccepted _ _ _ => False | _ => True end) es →
    reason_step st st' es
| reason_accepted n reason deadline :
    es = [EvCancellationAccepted n reason deadline] →
    ordinary_reason st = None → ordinary_reason st' = Some reason → reason_step st st' es
| reason_aborted n phase :
    es = [EvForceAbortAccepted n ForceAbort phase] →
    ordinary_reason st = None → ordinary_reason st' = Some ForceAbort → ordinary_force_abort st' = true →
    reason_step st st' es.

Lemma run_reason st st' es : phase_ok st → run_step st st' es → reason_step st st' es.
Proof.
  intros Hph Hrun. unfold phase_ok in Hph. unfold ordinary_reason, ordinary_result, ordinary_outcome.
  destruct Hrun as [Hw Hf Hfa He Hs|outcome f n to Hex Hall Hnil Ho Hentry Hf Hfa He _
    |outcome summary exports n to Hreason Hexp Hw He Hf Hfa Hs _
    |gate reason prior n deadline Hw Hg Hw' Hf Hfa He|trigger issue reason deadline n Hw Hw' Hf Hfa He
    |gate n Hw Hnone Hw' Hfa Hf He|trigger gate issue n Hw Hnone Hw' Hfa Hf He].
  - apply reason_same; [|done]. unfold ordinary_reason, ordinary_result, ordinary_outcome. by rewrite Hw, Hf.
  - apply reason_same; [|by repeat constructor]. unfold finalization_entry in Hentry. injection Hentry as Hw' Hf'.
    unfold ordinary_reason, ordinary_result. rewrite Hf, Hf'. simpl.
    destruct (rs_workflow st) as [gate| | | |] eqn:Hw; try done. destruct Hph as (_ & Hnone & _). by rewrite Hnone, Ho.
  - apply reason_same; [|by repeat constructor]. unfold ordinary_reason, ordinary_result. rewrite Hf, Hw.
    destruct summary as [summary|]; destruct Hreason as (Hphase & _ & Hreason).
    + by destruct Hreason as (f & -> & _).
    + destruct (rs_workflow st) as [gate| | | |] eqn:Hwr; try done. destruct Hph as (_ & Hnone & _). destruct Hreason as [_ Ho].
      rewrite Hnone. simpl. rewrite Ho. by destruct outcome.
  - rewrite Hw in Hph. destruct Hph as (_ & Hfn & _). eapply reason_accepted; [done|..];
      unfold ordinary_reason, ordinary_result, ordinary_outcome; rewrite ?Hf, Hfn, ?Hw, ?Hw'; simpl;
      by destruct Hg as [(-> & ->)|(issue & -> & ->)].
  - apply reason_same; [|by repeat constructor]. rewrite Hw in Hph. destruct Hph as (_ & _ & _ & f & Hff & _).
    unfold ordinary_reason, ordinary_result. by rewrite Hf, Hff.
  - rewrite Hw in Hph. destruct Hph as (_ & Hfn & _).
    assert (Hab : ordinary_force_abort st' = true) by (unfold ordinary_force_abort; by rewrite Hfa).
    destruct gate as [|issue|reason prior].
    1,2: eapply reason_aborted; [done|..|done]; unfold ordinary_reason, ordinary_result, ordinary_outcome;
      by rewrite ?Hf, Hfn, ?Hw, ?Hw'.
    apply reason_same; [|by repeat constructor]. unfold ordinary_reason, ordinary_result, ordinary_outcome.
    by rewrite ?Hf, Hfn, ?Hw, ?Hw'.
  - apply reason_same; [|by repeat constructor]. rewrite Hw in Hph. destruct Hph as (_ & _ & _ & f & Hff & _).
    unfold ordinary_reason, ordinary_result. by rewrite Hf, Hff.
Qed.

(** Every move in terms of the reason, with what it logs. *)
Lemma move_reason r r' :
  phase_ok (rd_state r) → wf (rd_state r) → move r r' →
  ∃ es, rd_events r' = (rd_events r ++ es)%list ∧ reason_step (rd_state r) (rd_state r') es.
Proof.
  intros Hph Hwf Hm. destruct (move_changed _ _ Hwf Hm) as [Hn|[_ (es & He & Hrun)]].
  - pose proof Hn as (s & d & x & y & _ & _ & _ & _ & _ & _ & _ & es & He & Hes). exists es. split; [done|].
    apply reason_same.
    + destruct (node_result _ _ Hph Hn) as [Hr|[Hr1 Hr2]]; [unfold ordinary_reason; by rewrite Hr|by rewrite Hr1, Hr2].
    + eapply Forall_impl; [exact Hes|]. by intros [].
  - exists es. split; [done|by apply run_reason].
Qed.

(** ** The reasons of a phase *)

Definition role_reason st (role : WorkflowNodeRole) : option CancellationReason :=
  match role with
  | RoleStep => ordinary_reason st
  | RoleFinalizer => rs_finalization st ≫= finalization_reason
  end.

Definition role_aborted st (role : WorkflowNodeRole) : bool :=
  match role with
  | RoleStep => ordinary_force_abort st
  | RoleFinalizer => match rs_finalization st with Some f => fnr_force_abort f | None => false end
  end.

Definition code_ok st role (code : CancellationReason) : Prop :=
  role_reason st role = Some code ∨ code = ForceAbort ∧ role_aborted st role = true.

Lemma move_code_ok r r' :
  phase_ok (rd_state r) → wf (rd_state r) → move r r' →
  (∀ role code, code_ok (rd_state r) role code → code_ok (rd_state r') role code)
  ∧ ∀ role, role_aborted (rd_state r) role = true → role_aborted (rd_state r') role = true.
Proof.
  intros Hph Hwf Hm.
  assert (Hab : ∀ role, role_aborted (rd_state r) role = true → role_aborted (rd_state r') role = true).
  { intros role. destruct (move_changed _ _ Hwf Hm) as [(s & d & x & y & _ & _ & _ & _ & Hf & Hfa & _)|[_ (es & _ & Hrun)]].
    - unfold role_aborted, ordinary_force_abort. by rewrite Hf, Hfa.
    - unfold phase_ok in Hph. unfold role_aborted, ordinary_force_abort.
      destruct Hrun as [Hw Hf Hfa He Hs|outcome f n to Hex Hall Hnil Ho Hentry Hf Hfa He _
        |outcome summary exports n to Hreason Hexp Hw He Hf Hfa Hs _
        |gate reason prior n deadline Hw Hg Hw' Hf Hfa He|trigger issue reason deadline n Hw Hw' Hf Hfa He
        |gate n Hw Hnone Hw' Hfa Hf He|trigger gate issue n Hw Hnone Hw' Hfa Hf He]; rewrite ?Hf, ?Hfa; try done.
      + destruct role; [done|]. destruct (rs_workflow (rd_state r)) as [gate| | | |]; try done. by destruct Hph as (_ & -> & _).
      + destruct role; [done|]. by destruct (rs_finalization (rd_state r)).
      + by destruct role.
      + rewrite Hnone. destruct role; [done|]. by destruct (rs_finalization (rd_state r)). }
  split; [|exact Hab]. intros role code [Hc|[-> Ha]]; [|right; eauto]. left. destruct role; simpl in *.
  - destruct (move_reason r r' Hph Hwf Hm) as (es & _ & [Hr _|? ? ? _ Hr _|? ? _ Hr _]); congruence.
  - destruct (move_changed _ _ Hwf Hm) as [(s & d & x & y & _ & _ & _ & _ & Hf & _)|[_ (es & _ & Hrun)]]; [by rewrite Hf|].
    unfold phase_ok in Hph.
    destruct Hrun as [Hw Hf Hfa He Hs|outcome f n to Hex Hall Hnil Ho Hentry Hf Hfa He _
        |outcome summary exports n to Hreason Hexp Hw He Hf Hfa Hs _
        |gate reason prior n deadline Hw Hg Hw' Hf Hfa He|trigger issue reason deadline n Hw Hw' Hf Hfa He
        |gate n Hw Hnone Hw' Hfa Hf He|trigger gate issue n Hw Hnone Hw' Hfa Hf He]; rewrite ?Hf; try done.
    + destruct (rs_workflow (rd_state r)) as [gate| | | |]; try done. destruct Hph as (_ & Hnone & _). by rewrite Hnone in Hc.
    + rewrite Hw in Hph. destruct Hph as (_ & _ & _ & f & Hff & _ & _ & _ & Hgate). rewrite Hff in Hc. simpl in Hc.
      unfold finalization_reason in Hc. by rewrite Hgate in Hc.
    + destruct (rs_finalization (rd_state r)) as [f|]; [|done]. simpl in *. unfold finalization_reason in *. simpl.
      by destruct (fnr_cancellation f).
Qed.

(** ** The reasons of nodes *)

Lemma aborting_aborted st role : phase_ok st → abort_ok st → aborting st role = true → role_aborted st role = true.
Proof.
  unfold phase_ok, aborting, role_aborted. intros Hph [_ Hab]. destruct role, (rs_workflow st) as [gate|trigger gate issue| | |]; try done.
  destruct gate as [|reason deadline force]; [done|]. intros ->. destruct Hph as (_ & _ & _ & f & Hf & _). rewrite Hf.
  destruct (Hab f Hf) as (_ & _ & _ & _ & Hgate). by eapply Hgate.
Qed.

Lemma cancel_reason_code st role reason : phase_ok st → abort_ok st → cancel_reason st role reason → code_ok st role reason.
Proof.
  intros Hph Hab [Hc|[-> Ha]]; [left|right; split; [done|by apply aborting_aborted]]. unfold phase_ok in Hph.
  destruct role, (rs_workflow st) as [[]|? [] ?| | |] eqn:Hw; try done; subst; simpl.
  - destruct Hph as (_ & Hnone & _). unfold ordinary_reason, ordinary_result, ordinary_outcome. rewrite Hnone, Hw. simpl.
    by match goal with |- context[match ?o with Some _ => _ | None => _ end] => destruct o end.
  - destruct Hph as (_ & _ & _ & f & -> & _ & _ & _ & Hgate). done.
Qed.

Definition cancel_mark st d x : Prop :=
  match ss_state x with
  | SCancelling detail =>
      code_ok st (rt_role d) (cd_code detail)
      ∧ ∀ a, ss_current_action x = Some a → is_force_abort a = true → role_aborted st (rt_role d) = true
  | SCancelled detail => code_ok st (rt_role d) (cd_code detail)
  | _ => True
  end.

Definition reasons_ok st : Prop := ∀ s d x, node_at st s d x → cancel_mark st d x.

(** Transition numbers stay below the ceiling of the definition. *)
Definition last_ok st : Prop := (rs_last_transition_sequence st <= def_maximum_transitions (rs_definition st))%N.

Lemma bump_last st : last_ok st → (seqno st <= def_maximum_transitions (rs_definition st))%N ∧ last_ok (bump st).
Proof.
  unfold last_ok, seqno, bump, next_sequence. intros Hl. case_decide; simpl; [done|]. split; lia.
Qed.

Lemma logged_last r r' : logged r r' → last_ok (rd_state r) → last_ok (rd_state r').
Proof.
  intros [r1 HD _ Hl _ _|s d x y acts _|f e acts _ Hf] Hok.
  - unfold last_ok in *. by rewrite HD, Hl.
  - by apply bump_last.
  - destruct (Hf (bump (rd_state r))) as (HD & _ & Hl & _). unfold last_ok. simpl. rewrite HD, Hl. by apply bump_last.
Qed.

Lemma move_last r r' : wf (rd_state r) → move r r' → last_ok (rd_state r) → last_ok (rd_state r').
Proof.
  intros Hwf Hm%move_logged; [|done]. clear Hwf. induction Hm as [|r1 r2 r3 Hl _ IH]; [done|].
  intros Hok. by eapply IH, logged_last.
Qed.

Lemma cancel_mark_kept st st' d x :
  (∀ role code, code_ok st role code → code_ok st' role code) →
  (∀ role, role_aborted st role = true → role_aborted st' role = true) →
  cancel_mark st d x → cancel_mark st' d x.
Proof. unfold cancel_mark. intros H1 H2. destruct (ss_state x); naive_solver. Qed.

Lemma node_step_mark st s d x y :
  phase_ok st → abort_ok st → last_ok st → (def_maximum_transitions (rs_definition st) < 2 ^ 63)%N →
  node_step st s d x y → cancel_mark st d x → cancel_mark st d y.
Proof.
  intros Hph Hab Hlast Hmax Hstep Hx.
  assert (Hbook : ∀ y, bookkeeping x y → cancel_mark st d y).
  { intros z [-> _]. done. }
  destruct Hstep as [Hp|detail Hp|detail Hp|detail Hp|detail Hp Hr|detail Hp Hg Hr|n Hp|a Hs Ha|a Hs|y outputs Hs Ho Hb
    |y detail Hc Hb|y detail record round e i Ht Hav He Hb|n round e i phase detail cause e' Ht Hrole Hav He
    |n round e i phase detail cause kind Ht Hrole Hav|y round a Hs Ha Hb|n y round failure e' Hs Hb Hf He
    |y reason active a Hc Ha Hrole Hb Hr Hact|a Hk Ha|y detail reason Hs Hb Hr|y Ha Hb]; try done; auto.
  - unfold cancel_mark. simpl. destruct Hr as [Hr|(Hrole & Hforce & ->)]; [by apply cancel_reason_code|].
    right. split; [done|]. unfold role_aborted. rewrite Hrole. destruct Hg as [Hg|(_ & Hfin & _)].
    + rewrite Hrole in Hg. unfold phase_ok in Hph. destruct (rs_workflow st) as [[]|? [] ?| | |]; try done.
      destruct Hph as (_ & _ & _ & f & Hf & _). rewrite Hf. destruct Hab as [_ Hab]. destruct (Hab f Hf) as (-> & _).
      unfold forced, ordinary_force_abort in *. destruct (rs_force_abort st); [|done]. by apply bool_decide_eq_true_2.
    + unfold phase_ok in Hph. destruct (rs_workflow st) as [[]|? ? ?| | |]; try done.
      destruct Hph as (_ & _ & _ & f & Hf & _). rewrite Hf. destruct Hab as [_ Hab]. destruct (Hab f Hf) as (-> & _).
      unfold forced, ordinary_force_abort in *. destruct (rs_force_abort st); [|done]. by apply bool_decide_eq_true_2.
  - unfold cancel_mark. simpl. split; [by apply cancel_reason_code|]. intros b [= <-] Hb'.
    destruct Hact as [->|Hact]; [|by apply aborting_aborted]. exfalso.
    destruct (bump_last st Hlast) as [Hseq _]. unfold for_transition in Hb'.
    rewrite is_force_abort_high in Hb' by lia. apply N.leb_le in Hb'. lia.
  - unfold cancel_mark in *. simpl. destruct (ss_state x); try done. destruct Hx as [Hcode _]. split; [done|].
    intros b _ _. by apply aborting_aborted.
  - unfold cancel_mark in Hx. rewrite Hs in Hx. destruct Hx as [Hcode Hforce]. unfold cancel_mark. simpl.
    destruct Hr as [->|(-> & a & Ha & Hfa)]; [done|]. right. split; [done|]. by eapply Hforce.
Qed.

Lemma move_reasons_ok r r' :
  move r r' → wf (rd_state r) → phase_ok (rd_state r) → abort_ok (rd_state r) → last_ok (rd_state r) →
  (def_maximum_transitions (rs_definition (rd_state r)) < 2 ^ 63)%N →
  reasons_ok (rd_state r) → reasons_ok (rd_state r').
Proof.
  intros Hm Hwf Hph Hab Hlast Hmax Hok s d x [Hx Hd]. destruct (move_code_ok r r' Hph Hwf Hm) as [Hcode Haborted].
  eapply cancel_mark_kept; [exact Hcode|exact Haborted|].
  unfold def_step in Hd. rewrite (move_definition _ _ Hm) in Hd.
  destruct (move_changed _ _ Hwf Hm) as [(s' & d' & x' & y & Hat & Hns & Heq & _)|[Heq _]]; rewrite Heq in Hx.
  - destruct (decide (s = s')) as [->|].
    + rewrite lookup_insert_eq in Hx. simplify_eq.
      assert (d = d') as -> by (destruct Hat as [_ Hat]; unfold def_step in Hat; congruence).
      eapply node_step_mark; [done..|]. by eapply Hok.
    + rewrite lookup_insert_ne in Hx by done. by eapply Hok.
  - by eapply Hok.
Qed.

(** ** The accepted cancellation in the log *)

Definition accepted_reason (e : Event) : option CancellationReason :=
  match e with EvCancellationAccepted _ reason _ => Some reason | _ => None end.

(** The first accepted cancellation of the ordinary steps. *)
Definition accepted (h : list Event) : option CancellationReason := find_map accepted_reason h.

Lemma accepted_app h es : accepted (h ++ es) = match accepted h with Some reason => Some reason | None => accepted es end.
Proof. induction h as [|e h IH]; [done|]. unfold accepted in *. simpl. by destruct (accepted_reason e). Qed.

Lemma accepted_none es :
  Forall (λ e : Event, match e with EvCancellationAccepted _ _ _ => False | _ => True end) es → accepted es = None.
Proof. induction 1 as [|e es He _ IH]; [done|]. unfold accepted. simpl. by destruct e. Qed.

Definition log_ok (h : list Event) st : Prop :=
  match accepted h with
  | Some reason => ordinary_reason st = Some reason
  | None => ordinary_reason st = None ∨ ordinary_reason st = Some ForceAbort ∧ ordinary_force_abort st = true
  end.

Lemma move_log_ok h r r' :
  move r r' → wf (rd_state r) → phase_ok (rd_state r) →
  log_ok (h ++ rd_events r) (rd_state r) → log_ok (h ++ rd_events r') (rd_state r').
Proof.
  intros Hm Hwf Hph Hok. destruct (move_code_ok r r' Hph Hwf Hm) as [_ Hab]. specialize (Hab RoleStep). simpl in Hab.
  destruct (move_reason r r' Hph Hwf Hm) as (es & -> & Hstep). unfold log_ok in *. rewrite (app_assoc h), accepted_app.
  destruct Hstep as [Hr He|n reason deadline -> Hr Hr'|n phase -> Hr Hr' Hforce].
  - rewrite (accepted_none es He), Hr. destruct (accepted (h ++ rd_events r)); naive_solver.
  - destruct (accepted (h ++ rd_events r)); [congruence|done].
  - destruct (accepted (h ++ rd_events r)); [congruence|]. by right.
Qed.

(** ** Graceful cancellations *)

(** A cancellation that is no force abort. *)
Definition graceful_event (e : Event) : Prop :=
  match e with
  | EvCancellationAccepted _ reason _ | EvFinalizationCancellationAccepted _ reason _ => reason ≠ ForceAbort
  | _ => True
  end.

Definition accepting (e : Event) : Prop :=
  match e with EvCancellationAccepted _ _ _ | EvFinalizationCancellationAccepted _ _ _ => True | _ => False end.

Definition silent (es : list Event) : Prop := Forall (λ e, ¬ accepting e) es.

(** The gates a move closes, and the events it logs. *)
Definition closes r r' : Prop :=
  (∀ role, role_cancelling (rs_workflow (rd_state r)) role = true → role_cancelling (rs_workflow (rd_state r')) role = true)
  ∧ ∃ es, rd_events r' = (rd_events r ++ es)%list
      ∧ (silent es ∨ ∃ role, role_cancelling (rs_workflow (rd_state r)) role = false
                           ∧ role_cancelling (rs_workflow (rd_state r')) role = true).

#[local] Instance closes_preorder : PreOrder closes.
Proof.
  split.
  - intros r. split; [done|]. exists []. split; [by rewrite app_nil_r|by left; constructor].
  - intros r1 r2 r3 [H12 (es & He & Hes)] [H23 (es' & He' & Hes')]. split; [eauto|]. exists (es ++ es')%list.
    split; [by rewrite He', He, app_assoc|].
    destruct Hes as [Hes|(role & ? & ?)]; [|right; exists role; eauto].
    destruct Hes' as [Hes'|(role & Hr & Hr')]; [left; by apply Forall_app|right]. exists role. split; [|done].
    destruct (role_cancelling (rs_workflow (rd_state r1)) role) eqn:E; [|done]. apply H12 in E. congruence.
Qed.

Lemma closes_node r s d x y acts : closes r (node_update r s d x y acts).
Proof.
  split; [simpl; by rewrite bump_workflow|]. eexists. split; [done|]. left. constructor; [by intros []|constructor].
Qed.

Lemma closes_commit r d issue : closes r (commit_required_issue r d issue).
Proof.
  split; [intros role; by rewrite (commit_gates r d issue role)|].
  rewrite commit_required_issue_eq. destruct (committed_workflow _ _ _) as [w|].
  - eexists. split; [done|]. left. constructor; [by intros []|constructor].
  - exists []. split; [by rewrite app_nil_r|by left; constructor].
Qed.

Lemma closes_quiet r r' : rs_workflow (rd_state r') = rs_workflow (rd_state r) → rd_events r' = rd_events r → closes r r'.
Proof. intros Hw He. split; [by rewrite Hw|]. exists []. rewrite He, app_nil_r. split; [done|by left; constructor]. Qed.

Lemma external_closes r r' : external r r' → closes r r'.
Proof.
  destruct 1; try (by apply closes_node); try (by apply closes_quiet).
  - etrans; apply closes_node.
  - etrans; [apply closes_node|apply closes_commit].
  - etrans; [apply closes_node|apply closes_commit].
  - apply closes_quiet; [by rewrite foldr_push_action_state|].
    match goal with |- context[foldr push_action _ ?acts] => by induction acts end.
  - match goal with E : rs_workflow _ = WExecuting _, G : _ ∨ _ |- _ => rename E into Hw; rename G into Hg end.
    split; [intros role; rewrite Hw; by destruct Hg as [[-> _]|(? & -> & _)]|]. eexists. split; [done|]. right. exists RoleStep.
    split; [rewrite Hw; by destruct Hg as [[-> _]|(? & -> & _)]|done].
  - match goal with E : rs_workflow _ = WFinalizing _ _ _ |- _ => rename E into Hw end.
    split; [intros role; rewrite Hw; by destruct role|]. eexists. split; [done|]. right. exists RoleFinalizer. by rewrite Hw.
  - match goal with E : rs_workflow _ = WExecuting _ |- _ => rename E into Hw end.
    split; [intros role; rewrite Hw; by destruct gate, role|]. eexists. split; [done|]. left. constructor; [by intros []|constructor].
  - match goal with E : rs_workflow _ = WFinalizing _ _ _ |- _ => rename E into Hw end.
    split; [intros role; rewrite Hw; by destruct gate, role|]. eexists. split; [done|]. left. constructor; [by intros []|constructor].
Qed.

Lemma externals_close r r' : rtc external r r' → closes r r'.
Proof. induction 1 as [|r1 r2 r3 He _ IH]; [done|]. etrans; [by apply external_closes|done]. Qed.

Lemma cancel_nodes_silent r role reason deadline force operation :
  wf (rd_state r) → closing (rd_state r) role reason force →
  ∃ es, rd_events (cancel_nodes r role reason deadline force operation) = (rd_events r ++ es)%list ∧ silent es.
Proof.
  intros Hwf Hc. pose proof (cancel_nodes_moves r role reason deadline force operation Hwf Hc) as Hm.
  destruct (externals_close _ _ Hm) as [Hkeep (es & He & [Hes|(role' & Hno & Hyes)])]; [by exists es|exfalso].
  destruct Hc as [Hrole _]. pose proof (Hkeep role Hrole) as Hrole'.
  apply cancelling_phase in Hrole'. apply cancelling_phase in Hyes. congruence.
Qed.

Lemma silent_graceful es : silent es → Forall graceful_event es.
Proof. intros Hs. eapply Forall_impl; [exact Hs|]. intros []; simpl; naive_solver. Qed.

Lemma acceptance_graceful r role reason force r' :
  wf (rd_state r) → acceptance r role reason force r' → force = true ∨ reason ≠ ForceAbort →
  ∃ es, rd_events r' = (rd_events r ++ es)%list ∧ Forall graceful_event es.
Proof.
  intros Hwf [closed deadline operation e -> _ Hs HD Hc _ He Hcause] Hg.
  destruct (same_nodes_transfer (rd_state r) (rd_state closed) HD Hs) as [Hwf1%(λ f, f Hwf) _].
  destruct (cancel_nodes_silent closed role reason (Some deadline) force operation Hwf1 Hc) as (es & -> & Hes%silent_graceful).
  exists (e :: es). split; [by rewrite He, <-app_assoc|]. constructor; [|done].
  destruct e as [| |n cause dl|n cause dl|]; try done; simpl; destruct (Hcause n cause dl) as [-> ->]; auto; by destruct Hg.
Qed.

Lemma internals_silent r r' : rtc internal r r' → ∃ es, rd_events r' = (rd_events r ++ es)%list ∧ silent es.
Proof.
  assert (Hcommit : ∀ r d issue, ∃ es, rd_events (commit_required_issue r d issue) = (rd_events r ++ es)%list ∧ silent es).
  { intros r0 d issue. destruct (closes_commit r0 d issue) as [_ (es & He & [Hes|(role & Hno & Hyes)])]; [eauto|exfalso].
    rewrite (commit_gates r0 d issue role) in Hyes. congruence. }
  assert (Hone : ∀ r r', internal r r' → ∃ es, rd_events r' = (rd_events r ++ es)%list ∧ silent es).
  { clear r r'. intros r r' [r1 Hi|outcome|outcome summary exports].
    - destruct Hi;
        try (exists []; split; [by rewrite app_nil_r|constructor]);
        try (eexists; split; [done|]; constructor; [by intros []|constructor]);
        (match goal with |- context[commit_required_issue ?r0 ?d ?issue] => destruct (Hcommit r0 d issue) as (es & -> & Hes) end;
         eexists; split; [simpl; by rewrite <-app_assoc|]; constructor; [by intros []|done]).
    - eexists. split; [done|]. constructor; [by intros []|constructor].
    - eexists. split; [done|]. constructor; [by intros []|constructor]. }
  induction 1 as [r|r1 r2 r3 Hi _ (es' & -> & Hes')]; [exists []; split; [by rewrite app_nil_r|constructor]|].
  destruct (Hone _ _ Hi) as (es & -> & Hes). exists (es ++ es')%list. split; [by rewrite app_assoc|by apply Forall_app].
Qed.

(** An occurrence other than a cancellation logs no acceptance. *)
Lemma occurrence_silent st (o : Occurrence Provisional Cause Output Deadline) r :
  wf st → cancellation_requested o = false → apply_occurrence (begin st) o = (true, r) → silent (rd_events r).
Proof.
  intros Hwf Ho Happly. pose proof (apply_occurrence_moves (begin st) o Hwf) as Hm. rewrite Happly in Hm.
  pose proof (apply_occurrence_gates (begin st) o Ho) as Hg. rewrite Happly in Hg. cbn [snd] in Hm, Hg.
  destruct (externals_close _ _ Hm) as [_ (es & -> & [Hes|(role & Hno & Hyes)])]; [done|exfalso].
  rewrite (Hg role) in Hyes. congruence.
Qed.

Lemma occurrence_graceful st (o : Occurrence Provisional Cause Output Deadline) r :
  wf st → apply_occurrence (begin st) o = (true, r) → Forall graceful_event (rd_events r).
Proof.
  intros Hwf Happly. destruct (cancellation_requested o) eqn:Ho; [|by eapply silent_graceful, occurrence_silent].
  assert (Hacc : ∀ role reason force, acceptance (begin st) role reason force r → force = true ∨ reason ≠ ForceAbort →
    Forall graceful_event (rd_events r)).
  { intros role reason force Ha Hg. destruct (acceptance_graceful (begin st) role reason force r Hwf Ha Hg) as (es & -> & Hes). done. }
  destruct o; try discriminate Ho; cbn [apply_occurrence] in Happly.
  - destruct (_ || _) eqn:Hguard; [done|]. apply orb_false_elim in Hguard as [Hr _]; apply bool_decide_eq_false_1 in Hr.
    apply cancellation_accepted in Happly. eapply Hacc; [exact Happly|by right].
  - unfold apply_ordinary_only_cancellation in Happly. destruct (_ || _) eqn:Hguard; [done|].
    apply orb_false_elim in Hguard as [Hr _]; apply bool_decide_eq_false_1 in Hr. destruct (negb _); [by simplify_eq/=|].
    apply ordinary_cancellation_accepted in Happly. eapply Hacc; [exact Happly|by right].
  - destruct (stale_operation _ _); [done|]. apply force_abort_accepted in Happly. eapply Hacc; [exact Happly|by left].
Qed.

Lemma history_graceful D (seed : ExecutionSeed Output) h st :
  definition_wf D → history (Provisional := Provisional) (Cause := Cause) D seed h st → Forall graceful_event h.
Proof.
  intros HD. induction 1 as [c Hs Hc|h st o Hrec IH].
  - unfold initialize_seeded_definition. set (r0 := set_accepted true _ : Red).
    assert (Hwf : wf (rd_state r0)) by by apply initial_wf.
    assert (Hm : rtc external r0 (apply_initial_cancellation c r0)).
    { destruct c as [[]|]; simpl; [by apply cancellation_moves|by apply force_abort_moves|done]. }
    assert (Hwf1 : wf (rd_state (apply_initial_cancellation c r0))).
    { eapply (same_nodes_wf r0); [by apply external_moves_same|done]. }
    destruct (internals_silent _ _ (stabilize_moves (apply_initial_cancellation c r0) Hwf1)) as (es & -> & Hes%silent_graceful).
    apply Forall_app. split; [|done].
    destruct c as [[request operation|operation deadline]|]; [..|constructor]; cbn [apply_initial_cancellation] in *.
    + assert (Ha : acceptance r0 RoleStep (cr_reason request) false (apply_ordinary_cancellation r0 request operation).2).
      { apply (ordinary_cancellation_accepted r0 request operation).
        unfold apply_ordinary_cancellation, r0. cbn [set_accepted begin rd_state initial_state rs_workflow].
        by destruct (next_sequence _). }
      destruct (acceptance_graceful r0 _ _ _ _ Hwf Ha (or_intror Hc)) as (es' & He & Hes'). 
      change (rd_events (apply_cancellation r0 request operation).2) with (rd_events (apply_ordinary_cancellation r0 request operation).2).
      by rewrite He.
    + assert (Ha : acceptance r0 RoleStep ForceAbort true (apply_force_abort r0 operation deadline).2).
      { apply (force_abort_accepted r0 operation deadline).
        unfold apply_force_abort, r0. cbn [set_accepted begin rd_state initial_state rs_workflow rs_force_abort].
        rewrite decide_False by (by intros [? ?]). by destruct (next_sequence _). }
      destruct (acceptance_graceful r0 _ _ _ _ Hwf Ha (or_introl eq_refl)) as (es' & He & Hes'). by rewrite He.
  - apply Forall_app. split; [done|]. apply history_reachable in Hrec.
    destruct (reachable_node_ok D st HD Hrec) as (Hn & Hwf & _).
    destruct (is_finished (rs_workflow st)) eqn:Hfin.
    { unfold reduce. rewrite Hfin. destruct o; constructor. }
    destruct (reduce_cases st o Hwf Hfin) as [(r & Happly & ->)|(r & Happly & _ & _ & Hi)].
    + destruct (apply_occurrence_rejected st o r Hwf Hn Hfin Happly) as (_ & -> & _). constructor.
    + destruct (internals_silent _ _ Hi) as (es & -> & Hes%silent_graceful). apply Forall_app. split; [|done].
      by apply (occurrence_graceful st o r Hwf Happly).
Qed.

(** The cancellation of finalizers with a deadline was requested. *)
Definition deadline_graceful (h : list Event) st : Prop :=
  Forall graceful_event h → ∀ f c, rs_finalization st = Some f → fnr_cancellation f = Some c →
  is_Some (fin_deadline c) → fin_reason c ≠ ForceAbort.

Lemma move_deadline_graceful h r r' :
  move r r' → wf (rd_state r) → phase_ok (rd_state r) →
  deadline_graceful (h ++ rd_events r) (rd_state r) → deadline_graceful (h ++ rd_events r') (rd_state r').
Proof.
  intros Hm Hwf Hph Hok Hg f c Hf Hc Hd.
  assert (Hsame : ∀ es, rd_events r' = (rd_events r ++ es)%list → Forall graceful_event es ∧ Forall graceful_event (h ++ rd_events r)).
  { intros es He. rewrite He, app_assoc in Hg. by apply Forall_app in Hg as [? ?]. }
  destruct (move_changed _ _ Hwf Hm) as [(s & d & x & y & _ & _ & _ & _ & Hff & _ & _ & es & He & _)|[_ (es & He & Hrun)]].
  - rewrite Hff in Hf. destruct (Hsame es He) as [_ Hg']. by eapply Hok.
  - destruct (Hsame es He) as [Hes Hg']. specialize (Hok Hg'). unfold phase_ok in Hph.
    destruct Hrun as [Hw Hff Hfa Hx Hs|outcome f' n to Hex Hall Hnil Ho Hentry Hff Hfa Hx _
        |outcome summary exports n to Hreason Hexp Hw Hx Hff Hfa Hs _
        |gate reason prior n deadline Hw Hgate Hw' Hff Hfa Hx|trigger issue reason deadline n Hw Hw' Hff Hfa Hx
        |gate n Hw Hnone Hw' Hfa Hff Hx|trigger gate issue n Hw Hnone Hw' Hfa Hff Hx]; rewrite Hff in Hf; try (by eapply Hok).
    + unfold finalization_entry in Hentry. injection Hentry as _ Hf'. injection Hf as <-. rewrite Hf' in Hc. simpl in Hc.
      destruct (ordinary_force_abort (rd_state r)); [|done]. injection Hc as <-. by destruct Hd.
    + destruct (rs_finalization (rd_state r)) as [f0|]; [|done]. injection Hf as <-. simpl in Hc. injection Hc as <-.
      by inversion Hes.
    + destruct (rs_finalization (rd_state r)) as [f0|] eqn:Hf0; [|done]. injection Hf as <-. simpl in Hc.
      destruct (fnr_cancellation f0) as [c0|] eqn:Hc0; injection Hc as <-; [by eapply Hok|by destruct Hd].
Qed.

(** ** All together *)

Record run_ok (h : list Event) st : Prop := {
  run_phase : phase_ok st;
  run_outcome_ok : outcome_ok st;
  run_abort : abort_ok st;
  run_last : last_ok st;
  run_reasons : reasons_ok st;
  run_log : log_ok h st;
  run_deadline : deadline_graceful h st
}.

Lemma history_run_ok D (seed : ExecutionSeed Output) h st :
  definition_wf D → (def_maximum_transitions D < 2 ^ 63)%N →
  history (Provisional := Provisional) (Cause := Cause) D seed h st → run_ok h st.
Proof.
  intros HD Hmax Hrec. assert (Hs : seed_wf D seed) by by induction Hrec.
  apply (history_invariant run_ok D seed h st); [..|done|done].
  - split; try done.
    + by apply initial_phase_ok.
    + apply initial_outcome_ok.
    + unfold last_ok. simpl. lia.
    + intros s d x [Hx Hd]. rewrite initial_lookup in Hx by done. unfold def_step in Hd. simpl in Hd. rewrite Hd in Hx.
      injection Hx as <-. unfold cancel_mark. simpl. by destruct (bt_get seed s).
    + by left.
  - intros h' r r' Hm Hwf HD' [? ? ? ? ? ? ?]. split;
      [by eapply move_phase_ok|by eapply move_outcome_ok|by eapply move_abort_ok|by eapply move_last
      |eapply move_reasons_ok; [done..|by rewrite HD'|done]|by eapply move_log_ok|by eapply move_deadline_graceful].
Qed.
End reasons.
