(* ===== verification/Stops.v ===== *)
(** * Runs that were cancelled

    A cancellation that decides the outcome of a phase stops at least one of
    its nodes and leaves no failure unreported: in the reduction that accepts
    it every working node of the phase is cancelled, and nothing fails
    afterwards. *)

From S2P Require Import Prelude Text Nodes Evidence Condition Validated Runtime Reducer Moves Refinement Views Stabilize Occurrences Runs NodeSteps NodeInvariants Phases History Scheduling Containment Numbering Quiet Cancelling Progress Outcomes Reasons.

Section stops.
Context {Provisional Cause Output Deadline : Type}.
Context `{!SerdeJson, !NodeFailureSource Cause, !ConditionOutput Output,
          !ProvisionalStepResources Provisional}.

Local Abbreviation State := (RuntimeState Cause Output Deadline).
Local Abbreviation Red := (Reduction Provisional Cause Output Deadline).
Local Abbreviation Step := (StepRuntimeState Cause Output).
Local Abbreviation Occ := (Occurrence Provisional Cause Output Deadline).

Implicit Types (st : State) (r : Red) (x y : Step) (s t : string) (d : RuntimeStep) (D : RuntimeDefinition) (o : Occ).

(** ** Phases a cancellation decided *)

Definition stop_role st (role : WorkflowNodeRole) : bool :=
  match role with
  | RoleStep => match ordinary_result st with Some (OrdCancelled _) => true | _ => false end
  | RoleFinalizer =>
      match rs_finalization st with
      | Some f => bool_decide (is_Some (fnr_cancellation f)) && negb (ordinary_force_abort st)
      | None => false
      end
  end.

Definition just_closed st st' role : Prop :=
  role_cancelling (rs_workflow st) role = false ∧ role_cancelling (rs_workflow st') role = true.

Lemma node_stop r r' role :
  phase_ok (rd_state r) → node_changed r r' → stop_role (rd_state r') role = true → stop_role (rd_state r) role = true.
Proof.
  intros Hph Hn. pose proof Hn as (s & d & x & y & _ & _ & _ & _ & Hf & Hfa & _).
  destruct role; simpl.
  - destruct (node_result _ _ Hph Hn) as [->|[_ Hr]]; [done|]. unfold ordinary_reason in Hr.
    by destruct (ordinary_result (rd_state r')) as [[]|].
  - unfold ordinary_force_abort. by rewrite Hf, Hfa.
Qed.

Lemma run_stop st st' es role :
  phase_ok st → run_step st st' es → stop_role st' role = true → stop_role st role = true ∨ just_closed st st' role.
Proof.
  intros Hph Hrun. unfold phase_ok in Hph. unfold just_closed, stop_role, ordinary_result, ordinary_outcome, ordinary_force_abort.
  destruct Hrun as [Hw Hf Hfa He Hs|outcome f n to Hex Hall Hnil Ho Hentry Hf Hfa He _
    |outcome summary exports n to Hreason Hexp Hw He Hf Hfa Hs _
    |gate reason prior n deadline Hw Hg Hw' Hf Hfa He|trigger issue reason deadline n Hw Hw' Hf Hfa He
    |gate n Hw Hnone Hw' Hfa Hf He|trigger gate issue n Hw Hnone Hw' Hfa Hf He].
  - rewrite Hw, Hf, Hfa. by left.
  - unfold finalization_entry in Hentry. injection Hentry as Hw' Hf'. rewrite Hf, Hf', Hfa. simpl.
    destruct (rs_workflow st) as [gate| | | |] eqn:Hw; try done. destruct Hph as (_ & Hnone & _). rewrite Hnone. simpl.
    unfold ordinary_outcome in Ho. rewrite Hw in Ho. rewrite Ho. destruct role; [by left|].
    unfold ordinary_force_abort. by destruct (match rs_force_abort st with Some _ => _ | None => _ end).
  - rewrite Hf, Hfa, Hw. destruct summary as [summary|]; destruct Hreason as (Hphase & _ & Hreason).
    + destruct Hreason as (f & -> & _). by left.
    + destruct (rs_workflow st) as [gate| | | |] eqn:Hwr; try done. destruct Hph as (_ & Hnone & _). destruct Hreason as [_ Ho].
      unfold ordinary_outcome in Ho. rewrite Hwr in Ho. rewrite Hnone. simpl. rewrite Ho. left. by destruct role, outcome.
  - rewrite Hw in *. destruct Hph as (_ & Hfn & _). rewrite Hf, Hfa, Hw', Hfn. destruct role; simpl; [right|by left].
    by destruct Hg as [(-> & ->)|(issue & -> & ->)].
  - rewrite Hw in *. destruct Hph as (_ & _ & _ & f & Hff & _). rewrite Hf, Hfa, Hw', Hff. simpl. destruct role; [by left|by right].
  - rewrite Hw in *. destruct Hph as (_ & Hfn & _). rewrite Hf, Hfa, Hw', Hfn. simpl. destruct role; [|by left].
    destruct gate as [|issue|reason prior]; simpl; by auto.
  - rewrite Hw in *. destruct Hph as (_ & _ & _ & f & Hff & _ & _ & _ & Hgate). rewrite Hf, Hfa, Hw', Hff, Hnone. simpl. destruct role; [by left|].
    intros _. destruct gate as [|reason deadline force]; simpl; [by right|left]. by destruct (fnr_cancellation f).
Qed.

Lemma move_stop r r' role :
  phase_ok (rd_state r) → wf (rd_state r) → move r r' → stop_role (rd_state r') role = true →
  stop_role (rd_state r) role = true ∨ just_closed (rd_state r) (rd_state r') role.
Proof.
  intros Hph Hwf Hm Hs. destruct (move_changed _ _ Hwf Hm) as [Hn|[_ (es & _ & Hrun)]];
    [left; by eapply node_stop|by eapply run_stop].
Qed.

(** Stabilisation decides nothing. *)
Lemma internal_stop r r' role :
  phase_ok (rd_state r) → wf (rd_state r) → internal r r' → stop_role (rd_state r') role = true → stop_role (rd_state r) role = true.
Proof.
  intros Hph Hwf Hi Hs. destruct (move_stop r r' role Hph Hwf (move_internal _ _ Hi) Hs) as [|[Hno Hyes]]; [done|exfalso].
  destruct Hi as [r' Hi|outcome Hex Hall Hnil Ho|outcome summary exports Hreason He].
  - apply internal_node_changed in Hi as (s & d & x & y & _ & _ & _ & Hw & _).
    apply after_node_cases in Hw as [Hw|[(? & _ & Hw)|(? & _ & Hw)]]; rewrite Hw in Hyes; [congruence|by destruct role..].
  - unfold finalization_entry in *. simpl in Hs, Hyes. destruct role; [by destruct (ordinary_force_abort (rd_state r))|].
    unfold stop_role, ordinary_force_abort in Hs. simpl in Hs. rewrite bump_force_abort in Hs.
    destruct (rs_force_abort (rd_state r)) as [ev|]; [|done]. simpl in *.
    by destruct (bool_decide (fae_phase ev = PhaseOrdinary)).
  - simpl in Hyes. by destruct outcome, role.
Qed.

Lemma internals_stop r r' role :
  rtc internal r r' → phase_ok (rd_state r) → wf (rd_state r) → stop_role (rd_state r') role = true → stop_role (rd_state r) role = true.
Proof.
  induction 1 as [|r1 r2 r3 Hi _ IH]; [done|]. intros Hph Hwf Hs. eapply internal_stop; [done..|]. apply IH; [| |done].
  - eapply move_phase_ok; [by apply move_internal|done..].
  - eapply move_wf; [by apply move_internal|done].
Qed.

Lemma externals_stop r r' role :
  rtc external r r' → phase_ok (rd_state r) → wf (rd_state r) → stop_role (rd_state r') role = true →
  stop_role (rd_state r) role = true ∨ just_closed (rd_state r) (rd_state r') role.
Proof.
  induction 1 as [|r1 r2 r3 He Hrest IH]; [by left|]. intros Hph Hwf Hs.
  destruct (externals_close _ _ Hrest) as [H23 _]. destruct (external_closes _ _ He) as [H12 _].
  destruct IH as [Hstop|[Hno Hyes]]; [eapply move_phase_ok; [by apply move_external|done..]
    |eapply move_wf; [by apply move_external|done]|done|..].
  - destruct (move_stop r1 r2 role Hph Hwf (move_external _ _ He) Hstop) as [|[? ?]]; [by left|right; split; auto].
  - right. split; [|done]. destruct (role_cancelling (rs_workflow (rd_state r1)) role) eqn:E; [|done]. apply H12 in E. congruence.
Qed.

(** ** What such a cancellation leaves *)

Definition stopped (v : StepState Output) : Prop :=
  match v with SCancelling _ | SCancelled _ => True | _ => False end.

Definition calm d (v : StepState Output) : Prop :=
  match v with
  | SFailed _ | SBlocked _ => rt_failure_policy d = Advisory
  | SNotRun _ => rt_role d = RoleFinalizer
  | _ => True
  end.

(** The finalization has no issue of its own to report. *)
Definition clear st (role : WorkflowNodeRole) : Prop :=
  match role with
  | RoleStep => True
  | RoleFinalizer =>
      fnr_ordinary_outcome <$> rs_finalization st = Some OrdSucceeded
      ∧ match rs_workflow st with WFinalizing _ _ (Some _) | WFailed _ _ => False | _ => True end
  end.

Definition stops st role : Prop :=
  role_contained role st
  ∧ (∃ s d x, node_at st s d x ∧ rt_role d = role ∧ stopped (ss_state x))
  ∧ (clear st role → ∀ s d x, node_at st s d x → rt_role d = role → calm d (ss_state x)).

Lemma node_step_stopped st s d x y :
  node_step st s d x y → contained (ss_state x) = true → stopped (ss_state y).
Proof.
  intros Hstep Hc. pose proof (node_step_live _ _ _ _ _ Hstep) as Hlive. unfold contained in Hc.
  rewrite Hlive, orb_false_r in Hc. apply bool_decide_eq_true in Hc.
  destruct Hstep as [Hp|? Hp|? Hp|? Hp|? Hp|? Hp|? Hp|? Hs|? Hs|? ? Hs|? ? Hs|? ? ? ? ? ? Hs|? ? ? ? ? ? ? ? Hs|? ? ? ? ? ? ? ? Hs
    |? ? ? Hs|? ? ? ? ? Hs|? ? ? ? Hs|? Hk|? ? ? Hs|y Ha Hb]; simpl; try done;
    try (by rewrite Hp in Hc); try (by rewrite Hs in Hc); try (by destruct (ss_state x)).
  - by destruct Hs as [Hs|Hs]; rewrite Hs in Hc.
  - rewrite (bookkeeping_state _ _ Hb). by destruct (ss_state x).
Qed.

Lemma stop_role_finalization st : stop_role st RoleFinalizer = true → is_Some (rs_finalization st).
Proof. simpl. destruct (rs_finalization st); [eauto|done]. Qed.

Lemma clear_before r r' role :
  phase_ok (rd_state r) → wf (rd_state r) → move r r' → (role = RoleFinalizer → is_Some (rs_finalization (rd_state r))) →
  clear (rd_state r') role → clear (rd_state r) role.
Proof.
  intros Hph Hwf Hm Hs. destruct role; [done|]. simpl in *. unfold phase_ok in Hph. intros [Hf Hw].
  destruct (Hs eq_refl) as [f Hff]. rewrite Hff.
  destruct (move_changed _ _ Hwf Hm) as [(s & d & x & y & _ & _ & _ & Hw' & Hf' & _)|[_ (es & _ & Hrun)]].
  - rewrite Hf', Hff in Hf. split; [done|]. apply after_node_cases in Hw' as [Hw'|[(? & Hw0 & _)|(? & Hw0 & _)]].
    + by rewrite Hw' in Hw.
    + rewrite Hw0 in Hph. destruct Hph as (_ & Hnone & _). congruence.
    + by rewrite Hw0.
  - destruct Hrun as [Hw1 Hf1 Hfa He Hsum|outcome f1 n to Hex Hall Hnil Ho Hentry Hf1 Hfa He _
      |outcome summary exports n to Hreason Hexp Hw1 He Hf1 Hfa Hsum _
      |gate reason prior n deadline Hw1 Hg Hw2 Hf1 Hfa He|trigger issue reason deadline n Hw1 Hw2 Hf1 Hfa He
      |gate n Hw1 Hnone Hw2 Hfa Hf1 He|trigger gate issue n Hw1 Hnone Hw2 Hfa Hf1 He].
    + rewrite Hf1, Hff in Hf. by rewrite Hw1 in Hw.
    + destruct (rs_workflow (rd_state r)); try done. destruct Hph as (_ & Hnone & _). congruence.
    + rewrite Hf1, Hff in Hf. split; [done|]. destruct summary as [summary|]; destruct Hreason as (Hphase & _ & Hreason).
      * destruct Hreason as (f' & Hf' & -> & _). simplify_eq. unfold compose_final_outcome in Hw1. simpl in Hf. injection Hf as Hf.
        rewrite Hf in Hw1. destruct (rs_workflow (rd_state r)) as [|trigger [] [issue|]| | |]; try done; by rewrite Hw1 in Hw.
      * by destruct (rs_workflow (rd_state r)).
    + rewrite Hw1 in Hph. destruct Hph as (_ & Hnone & _). congruence.
    + rewrite Hf1, Hff in Hf. rewrite Hw2 in Hw. by rewrite Hw1.
    + rewrite Hw1 in Hph. destruct Hph as (_ & Hno & _). congruence.
    + rewrite Hf1, Hff in Hf. rewrite Hw2 in Hw. by rewrite Hw1.
Qed.

Lemma move_stops r r' role :
  phase_ok (rd_state r) → wf (rd_state r) → move r r' → stop_role (rd_state r) role = true →
  stops (rd_state r) role → stops (rd_state r') role.
Proof.
  intros Hph Hwf Hm Hstop (Hcont & (t & d' & z & Hz & Hrole & Hs) & Hcalm).
  pose proof (move_definition _ _ Hm) as HD. assert (Hclear : clear (rd_state r') role → clear (rd_state r) role)
    by (apply clear_before; [done..|]; intros ->; by apply stop_role_finalization).
  split; [by eapply move_contained|].
  destruct (move_changed _ _ Hwf Hm) as [(s & d & x & y & Hat & Hstep & Hst & _)|[Hst _]].
  - assert (Hy : rt_role d = role → stopped (ss_state y)) by (intros Hr; eapply node_step_stopped; [done|by eapply Hcont]).
    pose proof (node_at_insert (rd_state r) (rd_state r') s d x y) as Hins.
    split.
    + destruct (decide (t = s)) as [->|Hne].
      * exists s, d, y. assert (d = d') as <- by (destruct Hat as [_ Hd], Hz as [_ Hd']; congruence). split_and!; [|done|auto].
        split; [by rewrite Hst, lookup_insert_eq|]. destruct Hat as [_ Hd]. unfold def_step in *. by rewrite HD.
      * exists t, d', z. split_and!; [|done..]. destruct Hz as [Hz Hd]. split; [by rewrite Hst, lookup_insert_ne|].
        unfold def_step in *. by rewrite HD.
    + intros Hc t' d0 z' Hz' Hr0. destruct (Hins _ _ _ HD Hst Hat Hz') as [(-> & -> & ->)|[_ Hz0]]; [|by eapply Hcalm; eauto].
      specialize (Hy Hr0). by destruct (ss_state y).
  - assert (Hback : ∀ t d x, node_at (rd_state r') t d x → node_at (rd_state r) t d x).
    { intros t' d0 x' [Hx' Hd']. split; [by rewrite <-Hst|]. unfold def_step in *. by rewrite <-HD. }
    split; [|intros Hc t' d0 x' Hx' Hr; eapply Hcalm; eauto]. exists t, d', z. split_and!; [|done..].
    destruct Hz as [Hz Hd]. split; [by rewrite Hst|]. unfold def_step in *. by rewrite HD.
Qed.

(** The decision stays. *)
Lemma move_stop_kept r r' role :
  phase_ok (rd_state r) → wf (rd_state r) → move r r' → stop_role (rd_state r) role = true → stop_role (rd_state r') role = true.
Proof.
  intros Hph Hwf Hm Hs.
  destruct (move_changed _ _ Hwf Hm) as [Hn|[_ (es & _ & Hrun)]].
  { pose proof Hn as (s & d & x & y & _ & _ & _ & _ & Hf & Hfa & _). destruct role; simpl in *.
    - destruct (node_result _ _ Hph Hn) as [->|[Hr _]]; [done|]. unfold ordinary_reason in Hr.
      by destruct (ordinary_result (rd_state r)) as [[]|].
    - unfold ordinary_force_abort. by rewrite Hf, Hfa. }
  unfold phase_ok in Hph. unfold stop_role, ordinary_result, ordinary_outcome, ordinary_force_abort in *.
  destruct Hrun as [Hw Hf Hfa He Hsum|outcome f n to Hex Hall Hnil Ho Hentry Hf Hfa He _
    |outcome summary exports n to Hreason Hexp Hw He Hf Hfa Hsum _
    |gate reason prior n deadline Hw Hg Hw' Hf Hfa He|trigger issue reason deadline n Hw Hw' Hf Hfa He
    |gate n Hw Hnone Hw' Hfa Hf He|trigger gate issue n Hw Hnone Hw' Hfa Hf He].
  - by rewrite Hw, Hf, Hfa.
  - unfold finalization_entry in Hentry. injection Hentry as Hw' Hf'. rewrite Hf, Hf', Hfa. simpl.
    destruct (rs_workflow (rd_state r)) as [gate| | | |] eqn:Hw; try done. destruct Hph as (_ & Hnone & _). rewrite Hnone in Hs.
    simpl in Hs. unfold ordinary_outcome in Ho. rewrite Hw in Ho. rewrite Ho in Hs. by destruct role.
  - rewrite Hf, Hfa, Hw. destruct summary as [summary|]; destruct Hreason as (Hphase & _ & Hreason).
    + destruct Hreason as (f & Hff & _). by rewrite Hff in *.
    + destruct (rs_workflow (rd_state r)) as [gate| | | |] eqn:Hwr; try done. destruct Hph as (_ & Hnone & _). destruct Hreason as [_ Ho].
      unfold ordinary_outcome in Ho. rewrite Hwr in Ho. rewrite Hnone in *. simpl in Hs. rewrite Ho in Hs. by destruct role, outcome.
  - rewrite Hw in Hph, Hs. destruct Hph as (_ & Hfn & _). rewrite Hfn in Hs. rewrite Hf, Hfn. destruct role; [exfalso|done].
    by destruct Hg as [(-> & ->)|(issue & -> & ->)].
  - rewrite Hw in Hph. destruct Hph as (_ & _ & _ & f & Hff & _). rewrite Hff in Hs. rewrite Hf, Hfa, Hff. simpl.
    destruct role; [done|]. by apply andb_prop in Hs as [_ ->].
  - rewrite Hw in Hph, Hs. destruct Hph as (_ & Hfn & _). rewrite Hfn in Hs. rewrite Hf, Hfn, Hw'. destruct role; [|done].
    simpl in *. by destruct gate as [|issue|reason []].
  - rewrite Hw in Hph. destruct Hph as (_ & _ & _ & f & Hff & _). rewrite Hff in Hs. rewrite Hf, Hfa, Hff. simpl.
    destruct role; [done|]. simpl. rewrite andb_true_r. destruct (fnr_cancellation f); by apply bool_decide_eq_true_2.
Qed.

Lemma moves_stops r r' role :
  rtc move r r' → phase_ok (rd_state r) → wf (rd_state r) → stop_role (rd_state r) role = true →
  stops (rd_state r) role → stops (rd_state r') role.
Proof.
  induction 1 as [|r1 r2 r3 Hm _ IH]; [done|]. intros Hph Hwf Hs Hst. apply IH.
  - by eapply move_phase_ok.
  - by eapply move_wf.
  - by eapply move_stop_kept.
  - by eapply move_stops.
Qed.

(** A phase that failed before it was cancelled reports the failure. *)
Definition failed_before st role : Prop :=
  match role with
  | RoleStep => ∃ issue later, ordinary_result st = Some (OrdFailed issue later)
  | RoleFinalizer => ¬ clear st RoleFinalizer ∧ is_Some (rs_finalization st)
  end.

Lemma move_failed r r' role :
  phase_ok (rd_state r) → wf (rd_state r) → move r r' → failed_before (rd_state r) role → failed_before (rd_state r') role.
Proof.
  intros Hph Hwf Hm Hs. destruct role; simpl in *.
  - destruct Hs as (issue & later & Hs). destruct (move_changed _ _ Hwf Hm) as [Hn|[_ (es & _ & Hrun)]].
    { pose proof Hn as (s & d & x & y & _ & _ & _ & Hw & Hf & _). unfold phase_ok in Hph. unfold ordinary_result, ordinary_outcome in *.
      apply after_node_cases in Hw as [Hw|[(i & Hw & Hw')|(i & Hw & Hw')]].
      - rewrite Hf, Hw. eauto.
      - rewrite Hw in Hph, Hs. destruct Hph as (_ & Hnone & _). by rewrite Hnone in Hs.
      - rewrite Hw in Hph. destruct Hph as (_ & _ & _ & f & Hff & _). rewrite Hf, Hff in *. eauto. }
    unfold phase_ok in Hph. unfold ordinary_result, ordinary_outcome in *.
    destruct Hrun as [Hw Hf Hfa He Hsum|outcome f n to Hex Hall Hnil Ho Hentry Hf Hfa He _
      |outcome summary exports n to Hreason Hexp Hw He Hf Hfa Hsum _
      |gate reason prior n deadline Hw Hg Hw' Hf Hfa He|trigger i reason deadline n Hw Hw' Hf Hfa He
      |gate n Hw Hnone Hw' Hfa Hf He|trigger gate i n Hw Hnone Hw' Hfa Hf He].
    + rewrite Hw, Hf. eauto.
    + unfold finalization_entry in Hentry. injection Hentry as Hw' Hf'. rewrite Hf, Hf'. simpl.
      destruct (rs_workflow (rd_state r)) as [gate| | | |] eqn:Hw; try done. destruct Hph as (_ & Hnone & _). rewrite Hnone in Hs.
      simpl in Hs. unfold ordinary_outcome in Ho. rewrite Hw in Ho. rewrite Ho in Hs. injection Hs as ->. eauto.
    + rewrite Hf, Hw. destruct summary as [summary|]; destruct Hreason as (Hphase & _ & Hreason).
      * destruct Hreason as (f & Hff & _). rewrite Hff in *. eauto.
      * destruct (rs_workflow (rd_state r)) as [gate| | | |] eqn:Hwr; try done. destruct Hph as (_ & Hnone & _). destruct Hreason as [_ Ho].
        unfold ordinary_outcome in Ho. rewrite Hwr in Ho. rewrite Hnone in *. simpl in Hs. rewrite Ho in Hs. injection Hs as ->. simpl. eauto.
    + rewrite Hw in Hph, Hs. destruct Hph as (_ & Hfn & _). rewrite Hfn in Hs. rewrite Hf, Hfn, Hw'.
      destruct Hg as [(-> & ->)|(i & -> & ->)]; [done|]. simpl. eauto.
    + rewrite Hw in Hph. destruct Hph as (_ & _ & _ & f & Hff & _). rewrite Hff in Hs. rewrite Hf, Hff. simpl. eauto.
    + rewrite Hw in Hph, Hs. destruct Hph as (_ & Hfn & _). rewrite Hfn in Hs. rewrite Hf, Hfn, Hw'. simpl in *.
      destruct gate as [|i|reason [i|]]; try done; simpl; eauto.
    + rewrite Hw in Hph. destruct Hph as (_ & _ & _ & f & Hff & _). rewrite Hff in Hs. rewrite Hf, Hff. simpl. eauto.
  - destruct Hs as [Hs Hfin]. split; [intros Hc; apply Hs; by apply (clear_before r r' RoleFinalizer)|].
    destruct (move_changed _ _ Hwf Hm) as [(s & d & x & y & _ & _ & _ & _ & Hf & _)|[_ (es & _ & Hrun)]]; [by rewrite Hf|].
    destruct Hrun as [Hw Hf|outcome f n to Hex Hall Hnil Ho Hentry Hf|outcome summary exports n to Hreason Hexp Hw He Hf
      |gate reason prior n deadline Hw Hg Hw' Hf|trigger i reason deadline n Hw Hw' Hf
      |gate n Hw Hnone Hw' Hfa Hf|trigger gate i n Hw Hnone Hw' Hfa Hf]; rewrite Hf; try done; try (by eexists);
      by apply fmap_is_Some.
Qed.

(** ** The end of an unfinished phase is never missed *)

Lemma reachable_live D st :
  schedulable D → (def_maximum_transitions D < u64_max)%N → reachable (Provisional := Provisional) D st →
  rs_transition_capacity_exceeded st = false → inherited_read st → is_finished (rs_workflow st) = false →
  ∃ s d x, node_at st s d x ∧ rt_role d = phase_role (rs_workflow st) ∧ is_terminal (ss_state x) = false.
Proof.
  intros HD Hmax Hr Hcap Hinh Hfin. pose proof (sch_wf D HD) as Hdw.
  destruct (reachable_settled D st Hdw Hmax (schedulable_evidence_ok D HD) Hr Hcap) as [Hset _].
  destruct (reachable_phase_ok D st Hdw Hr) as [Hph [Hwf HDs]]. pose proof (reachable_outputs D st Hdw Hr) as Hout.
  set (role := phase_role (rs_workflow st)).
  destruct (forallb (step_is is_terminal st) (role_ids st role)) eqn:Hall.
  - exfalso. pose proof (role_terminal st role Hwf Hall) as Hterm.
    assert (Hexp : derive_exports st = None ∧ all_of st (match role with RoleStep => RoleFinalizer | RoleFinalizer => RoleStep end)
      (λ v, is_terminal v = true)).
    { unfold settled in Hset. unfold phase_ok in Hph. unfold role, phase_role in *.
      destruct (rs_workflow st) as [gate|trigger gate issue| | |]; try done; simpl in *.
      - destruct Hset as (_ & _ & _ & Hend). destruct (Hend Hall) as [Hnil Hexp]. split; [done|]. intros s d x Hat Hrole.
        assert (Hin : s ∈ role_ids st RoleFinalizer) by (apply wf_role_ids_iff; [done|]; exists d; by split; [apply Hat|]).
        simpl in Hin. rewrite Hnil in Hin. by apply elem_of_nil in Hin.
      - destruct Hph as [Hsteps _]. split; [|done]. destruct gate; naive_solver. }
    destruct Hexp as [Hexp Hother]. eapply exports_derived; [done..| |exact Hexp]. intros s d x Hat.
    destruct (decide (rt_role d = role)) as [Hrole|Hrole]; [by eapply Hterm|].
    apply (Hother s d x Hat). by destruct role, (rt_role d).
  - apply forallb_false in Hall as (s & Hin & Hs). apply wf_role_ids_iff in Hin as (d & Hd & Hrole); [|done].
    destruct (node_at_exists st s d Hwf Hd) as [x Hx]. exists s, d, x. split_and!; [done..|].
    by rewrite <-(step_is_at is_terminal st s d x).
Qed.

(** What a run inherited is what its seed holds. *)
Definition inherited_from (seed : ExecutionSeed Output) (s : string) (_ : RuntimeStep) x : Prop :=
  match ss_state x with
  | SInherited detail disposition outputs =>
      ∃ v, bt_get seed s = Some v ∧ detail = seed_detail v ∧ disposition = seed_disposition v ∧ outputs = seed_outputs v
  | _ => bt_get seed s = None
  end.

Lemma history_inherited D (seed : ExecutionSeed Output) h st :
  definition_wf D → history (Provisional := Provisional) (Cause := Cause) D seed h st → each_node (inherited_from seed) st.
Proof.
  intros HD Hrec. apply (history_invariant (λ _ st, each_node (inherited_from seed) st) D seed h st); [..|done|done].
  - intros s d x [Hx Hd]. rewrite initial_lookup in Hx by done. unfold def_step in Hd. simpl in Hd. rewrite Hd in Hx.
    injection Hx as <-. unfold inherited_from. simpl. destruct (bt_get seed s) as [v|]; [eauto|done].
  - intros _ r r' Hm Hwf _ Hok. apply (each_node_move (inherited_from seed) r r'); [|done..].
    intros st' s d x y _ _ _ Hstep Hx. pose proof (node_step_live _ _ _ _ _ Hstep) as Hlive.
    assert (Hnone : bt_get seed s = None) by (unfold inherited_from in Hx; by destruct (ss_state x)).
    destruct Hstep; unfold inherited_from in *; simpl; try done.
    + match goal with Hb : bookkeeping x ?y |- _ => rewrite (bookkeeping_state _ _ Hb) end. by destruct (ss_state x).
Qed.

(** The outputs a run with a seed reads of a node, and a seed that holds
    them. *)
Definition seed_read D (seed : ExecutionSeed Output) (s name : string) : Prop :=
  (∃ export, (export, {| re_step := s; re_output := name |}) ∈ def_exports D)
  ∨ ∃ t d canonical source, bt_get (def_steps D) t = Some d ∧ bt_get seed t = None
      ∧ (canonical, SourceOutput source) ∈ rt_condition_values d ∧ node_id (ros_node source) = s ∧ ros_output source = name.

Definition seed_complete D (seed : ExecutionSeed Output) : Prop :=
  ∀ s v, bt_get seed s = Some v → seed_disposition v = InhSucceeded →
    ∀ name, seed_read D seed s name → is_Some (bt_get (seed_outputs v) name).

Lemma history_read D (seed : ExecutionSeed Output) h st :
  definition_wf D → history (Provisional := Provisional) (Cause := Cause) D seed h st → seed_complete D seed →
  inherited_read st.
Proof.
  intros HD Hrec Hseed s d x run outputs Hat Hx name Hname. pose proof (history_inherited D seed h st HD Hrec) as Hfrom.
  destruct (reachable_wf D st HD (history_reachable _ _ _ _ Hrec)) as [_ HDs].
  pose proof (Hfrom s d x Hat) as Hin. unfold inherited_from in Hin. rewrite Hx in Hin. destruct Hin as (v & Hv & _ & Hdisp & ->).
  apply (Hseed s v); [done..|]. destruct Hname as [Hexport|(t & d' & y & canonical & source & Hy & Hkind & Hsource)].
  - left. by rewrite <-HDs.
  - right. exists t, d', canonical, source. split_and!; try apply Hsource.
    + rewrite <-HDs. apply Hy.
    + pose proof (Hfrom t d' y Hy) as Hin. unfold inherited_from in Hin. by destruct (ss_state y).
Qed.

(** ** Every cancelled phase *)

Definition stop_ok st : Prop := ∀ role, stop_role st role = true → stops st role.

Definition live_node st : Prop :=
  ∃ s d x, node_at st s d x ∧ rt_role d = phase_role (rs_workflow st) ∧ is_terminal (ss_state x) = false.

Lemma cancelled_stopped reason (v w : StepState Output) : cancelled_from reason v w → is_terminal v = false → stopped w.
Proof. by destruct v; simpl; intros ->. Qed.

Lemma cancelled_calm reason d (v w : StepState Output) : cancelled_from reason v w → clean d v → calm d w.
Proof. destruct v; simpl; by intros ->. Qed.

Lemma acceptance_stops r role reason force r' :
  wf (rd_state r) → each_node node_ok (rd_state r) → clean_ok (rd_state r) → live_node (rd_state r) →
  acceptance r role reason force r' → rs_definition (rd_state r') = rs_definition (rd_state r) →
  (clear (rd_state r') role → clean_workflow (rs_workflow (rd_state r))) → stops (rd_state r') role.
Proof.
  intros Hwf Hn Hclean (s & d & x & Hat & Hrole & Hlive) Hacc HD Hcw.
  destruct (acceptance_cancelled _ _ _ _ _ Hwf Hn Hacc) as [Hc Hcont].
  assert (Hphase : phase_role (rs_workflow (rd_state r)) = role) by by destruct Hacc.
  assert (Hof : ∀ t d' z, node_at (rd_state r') t d' z → rt_role d' = role →
    ∃ z', node_at (rd_state r) t d' z' ∧ cancelled_from reason (ss_state z') (ss_state z)).
  { intros t d' z [Hz Hd] Hr. unfold def_step in Hd. rewrite HD in Hd.
    destruct (node_at_exists (rd_state r) t d' Hwf Hd) as [z' Hz']. exists z'. split; [done|].
    pose proof (Hc t d' z' Hz') as Ht. rewrite decide_True in Ht by done. destruct Ht as (u & u' & Hu & Hu' & Hcf).
    destruct Hz' as [Hz' _]. by simplify_eq. }
  split; [done|]. split.
  - pose proof (Hc s d x Hat) as Hs. rewrite decide_True in Hs by congruence. destruct Hs as (u & u' & Hu & Hu' & Hcf).
    exists s, d, u'. split_and!; [|congruence|].
    + split; [done|]. destruct Hat as [_ Hd]. unfold def_step in *. by rewrite HD.
    + eapply cancelled_stopped; [done|]. destruct Hat as [Hx _]. by simplify_eq.
  - intros Hcl t d' z Hz Hr. destruct (Hof t d' z Hz Hr) as (z' & Hz' & Hcf). eapply cancelled_calm; [done|].
    by apply (Hclean (Hcw Hcl) t).
Qed.

(** A gate that was open when its phase was cancelled: nothing required had
    failed. *)
Lemma open_clean st st' role :
  phase_ok st → role_cancelling (rs_workflow st) role = false → phase_role (rs_workflow st) = role →
  is_finished (rs_workflow st) = false → stop_role st' role = true → clear st' role → (failed_before st role → failed_before st' role) →
  clean_workflow (rs_workflow st).
Proof.
  intros Hph Hopen Hrole Hfin Hstop Hclear Hfailed. unfold phase_ok in Hph.
  destruct (rs_workflow st) as [gate|trigger gate issue| | |] eqn:Hw; try done; simpl in Hrole; subst role.
  - destruct gate as [|issue|]; try done. exfalso. destruct Hph as (_ & Hnone & _). simpl in *.
    destruct Hfailed as (i & l & Hr); [|by rewrite Hr in Hstop]. unfold ordinary_result, ordinary_outcome. rewrite Hnone, Hw. simpl. eauto.
  - destruct gate; [|done]. destruct Hph as (_ & _ & _ & f & Hf & Ht & Ht' & _). simpl in *.
    destruct (decide (trigger = TriggerSucceeded)) as [->|Hne]; [destruct issue as [issue|]; [exfalso|done]|exfalso];
      destruct Hfailed as [Hno _]; try (by apply Hno); (split; [|rewrite Hf; eauto]); rewrite Hf, Hw.
    + by intros [_ ?].
    + intros [Ho _]. apply Hne. rewrite <-Ht'. simpl in Ho. by injection Ho as ->.
Qed.

Lemma externals_failed r r' role :
  rtc external r r' → phase_ok (rd_state r) → wf (rd_state r) → failed_before (rd_state r) role → failed_before (rd_state r') role.
Proof.
  induction 1 as [|r1 r2 r3 He _ IH]; [done|]. intros Hph Hwf Hf. apply move_external in He. apply IH.
  - by eapply move_phase_ok.
  - by eapply move_wf.
  - by eapply move_failed.
Qed.

Lemma accepted_stop r r' role role0 reason force :
  phase_ok (rd_state r) → wf (rd_state r) → each_node node_ok (rd_state r) → clean_ok (rd_state r) → live_node (rd_state r) →
  is_finished (rs_workflow (rd_state r)) = false →
  rtc external r r' → acceptance r role0 reason force r' →
  just_closed (rd_state r) (rd_state r') role → stop_role (rd_state r') role = true → stops (rd_state r') role.
Proof.
  intros Hph Hwf Hn Hclean Hlive Hfin Hm Hacc [Hno Hyes] Hs.
  assert (Hphase : phase_role (rs_workflow (rd_state r)) = role0) by by destruct Hacc.
  assert (role = role0) as ->.
  { apply cancelling_phase in Hyes. rewrite Hyes, <-Hphase. unfold phase_role. by rewrite (externals_executing _ _ Hm). }
  eapply acceptance_stops; [done..|by apply external_moves_same in Hm as [? _]|]. intros Hcl.
  eapply open_clean; [done..|]. by apply externals_failed.
Qed.

Lemma apply_stop_ok st o r :
  phase_ok st → wf st → each_node node_ok st → clean_ok st → live_node st → is_finished (rs_workflow st) = false →
  stop_ok st → apply_occurrence (begin st) o = (true, r) → stop_ok (rd_state r).
Proof.
  intros Hph Hwf Hn Hclean Hlive Hfin Hok Happly role Hs.
  pose proof (apply_occurrence_moves (begin st) o Hwf) as Hm. rewrite Happly in Hm. cbn [snd] in Hm.
  destruct (externals_stop (begin st) r role Hm Hph Hwf Hs) as [Hstop|Hclosed].
  { by eapply (moves_stops (begin st) r); [apply external_moves_move|..|by apply Hok]. }
  assert (Hgo : ∀ role0 reason force, acceptance (begin st) role0 reason force r → stops (rd_state r) role)
    by (intros role0 reason force Hacc; by eapply (accepted_stop (begin st) r role role0)).
  destruct (cancellation_requested o) eqn:Ho.
  - destruct o; try discriminate Ho; cbn [apply_occurrence] in Happly.
    + destruct (_ || _); [done|]. by eapply Hgo, cancellation_accepted.
    + unfold apply_ordinary_only_cancellation in Happly. destruct (_ || _); [done|].
      destruct (negb _); [|by eapply Hgo, ordinary_cancellation_accepted]. exfalso.
      injection Happly as _ <-. destruct Hclosed as [Hno Hyes]. simpl in *. congruence.
    + destruct (stale_operation _ _); [done|]. by eapply Hgo, force_abort_accepted.
  - exfalso. pose proof (apply_occurrence_gates (begin st) o Ho role) as Hg. rewrite Happly in Hg. destruct Hclosed as [Hno Hyes].
    cbn [snd] in Hg. congruence.
Qed.

(** Some step is left to be executed. *)
Definition fresh_step D (seed : ExecutionSeed Output) : Prop :=
  ∃ s d, bt_get (def_steps D) s = Some d ∧ rt_role d = RoleStep ∧ bt_get seed s = None.

Lemma initial_live D (seed : ExecutionSeed Output) :
  definition_wf D → fresh_step D seed → live_node (initial_state (Cause := Cause) (Deadline := Deadline) D seed).
Proof.
  intros HD (s & d & Hd & Hrole & Hnone). exists s, d, (initial_step seed s d).
  split_and!; [|done|unfold initial_step; simpl; by rewrite Hnone]. split; [by rewrite initial_lookup, Hd|done].
Qed.

Lemma initial_clean D (seed : ExecutionSeed Output) :
  definition_wf D → clean_ok (initial_state (Cause := Cause) (Deadline := Deadline) D seed).
Proof.
  intros HD _ s d x [Hx Hd]. rewrite initial_lookup in Hx by done. unfold def_step in Hd. simpl in Hd. rewrite Hd in Hx.
  injection Hx as <-. unfold clean. simpl. by destruct (bt_get seed s).
Qed.

Lemma initial_stop_ok D c (seed : ExecutionSeed Output) :
  definition_wf D → seed_wf D seed → fresh_step D seed →
  let r0 := set_accepted true (begin (initial_state D seed)) : Red in
  stop_ok (rd_state (apply_initial_cancellation c r0)).
Proof.
  intros HD Hseed Hfresh r0 role Hs.
  assert (Hwf : wf (rd_state r0)) by by apply initial_wf.
  assert (Hph : phase_ok (rd_state r0)) by by apply initial_phase_ok.
  assert (Hm : rtc external r0 (apply_initial_cancellation c r0)).
  { destruct c as [[]|]; simpl; [by apply cancellation_moves|by apply force_abort_moves|done]. }
  destruct (externals_stop r0 _ role Hm Hph Hwf Hs) as [Hstop|Hclosed]; [by destruct role|].
  assert (Hgo : ∀ role0 reason force, acceptance r0 role0 reason force (apply_initial_cancellation c r0) →
    stops (rd_state (apply_initial_cancellation c r0)) role).
  { intros role0 reason force Hacc. eapply (accepted_stop r0 _ role role0); try done.
    - by apply initial_node_ok.
    - by apply initial_clean.
    - by apply initial_live. }
  destruct c as [[request operation|operation deadline]|]; cbn [apply_initial_cancellation] in *.
  - apply (Hgo RoleStep (cr_reason request) false), (ordinary_cancellation_accepted r0 request operation).
    unfold apply_cancellation, apply_ordinary_cancellation, r0. cbn [set_accepted begin rd_state initial_state rs_workflow].
    by destruct (next_sequence _).
  - apply (Hgo RoleStep ForceAbort true), (force_abort_accepted r0 operation deadline).
    unfold apply_force_abort, r0. cbn [set_accepted begin rd_state initial_state rs_workflow rs_force_abort].
    rewrite decide_False by (by intros [? ?]). by destruct (next_sequence _).
  - by destruct Hclosed, role.
Qed.

Lemma internals_stop_ok r r' :
  rtc internal r r' → phase_ok (rd_state r) → wf (rd_state r) → stop_ok (rd_state r) → stop_ok (rd_state r').
Proof.
  intros Hi Hph Hwf Hok role Hs. pose proof (internals_stop r r' role Hi Hph Hwf Hs) as Hs0.
  by eapply moves_stops; [apply internal_moves_move|..|by apply Hok].
Qed.

Lemma history_stop_ok D (seed : ExecutionSeed Output) h st :
  schedulable D → (def_maximum_transitions D < u64_max)%N → seed_complete D seed → fresh_step D seed →
  history (Provisional := Provisional) (Cause := Cause) D seed h st →
  rs_transition_capacity_exceeded st = false → stop_ok st.
Proof.
  intros HD Hmax Hseed Hfresh. pose proof (sch_wf D HD) as Hdw. induction 1 as [c Hs Hc|h st o Hh IH]; intros Hcap.
  - unfold initialize_seeded_definition. set (r0 := set_accepted true _ : Red).
    assert (Hm : rtc external r0 (apply_initial_cancellation c r0)).
    { destruct c as [[]|]; simpl; [apply cancellation_moves|apply force_abort_moves|done]; by apply initial_wf. }
    assert (Hwf : wf (rd_state (apply_initial_cancellation c r0)))
      by (eapply same_nodes_wf; [by apply external_moves_same|by apply initial_wf]).
    eapply internals_stop_ok; [by apply stabilize_moves| |done|by apply initial_stop_ok].
    eapply moves_phase_ok; [by apply external_moves_move|by apply initial_wf|by apply initial_phase_ok].
  - pose proof (history_reachable _ _ _ _ Hh) as Hr. destruct (reachable_node_ok D st Hdw Hr) as (Hn & Hwf & HDs).
    destruct (reachable_phase_ok D st Hdw Hr) as [Hph _]. pose proof (reachable_clean_ok D st Hdw Hr) as Hclean.
    assert (Hc : counts st (rd_state (reduce st o)))
      by (apply (moves_counts (begin st)); [done|unfold ceiling_ok; cbn; by rewrite HDs|by apply reduce_moves]).
    pose proof (proj1 (proj2 Hc Hcap)) as Hcap0. specialize (IH Hcap0).
    destruct (is_finished (rs_workflow st)) eqn:Hfin; [unfold reduce; by rewrite Hfin|].
    assert (Hlive : live_node st).
    { eapply (reachable_live D); [done..|by eapply history_read|done]. }
    destruct (reduce_cases st o Hwf Hfin) as [(r & Happly & ->)|(r & Happly & _ & _ & Hi)].
    + by destruct (apply_occurrence_rejected st o r Hwf Hn Hfin Happly) as [-> _].
    + pose proof (apply_occurrence_moves (begin st) o Hwf) as Hm. rewrite Happly in Hm. cbn [snd] in Hm.
      eapply internals_stop_ok; [exact Hi|..].
      * change (phase_ok (rd_state r)). by apply (moves_phase_ok (begin st) r (external_moves_move _ _ Hm)).
      * change (wf (rd_state r)). by apply (same_nodes_wf (begin st) r); [apply external_moves_same|].
      * change (stop_ok (rd_state r)). by eapply apply_stop_ok.
Qed.
End stops.
