(* ===== verification/Endings.v ===== *)
(** * How the nodes of a run end

    What the final states of nodes are when a run ends: a node that did not
    run says why by its role, a run whose ordinary steps succeeded has only
    steps that did, a force abort of the ordinary steps leaves no finalizer
    that ran, and the trigger of a finalization is the one its ordinary
    outcome has. *)

From S2P Require Import Prelude Text Nodes Evidence Condition Validated Runtime RunTiming Reducer Moves Refinement Views Stabilize Occurrences Runs NodeSteps NodeInvariants Phases History Scheduling Containment Numbering Cancelling Outcomes Reasons Stops.

Section endings.
Context {Provisional Cause Output Deadline : Type}.
Context `{!SerdeJson, !NodeFailureSource Cause, !ConditionOutput Output,
          !ProvisionalStepResources Provisional}.

Local Abbreviation State := (RuntimeState Cause Output Deadline).
Local Abbreviation Red := (Reduction Provisional Cause Output Deadline).
Local Abbreviation Step := (StepRuntimeState Cause Output).

Implicit Types (st : State) (r : Red) (x y : Step) (s t : string) (d : RuntimeStep) (D : RuntimeDefinition).

Local Open Scope list_scope.

(** ** Nodes that did not run *)

Definition not_run_of (role : WorkflowNodeRole) : NonExecutionDetail :=
  match role with RoleStep => failure_stop | RoleFinalizer => finalizer_trigger_not_selected end.

Definition not_run_ok (_ : string) d x : Prop :=
  match ss_state x with SNotRun detail => detail = not_run_of (rt_role d) | _ => True end.

Lemma node_step_not_run st s d x y : node_step st s d x y → not_run_ok s d x → not_run_ok s d y.
Proof.
  intros Hstep Hx. unfold not_run_ok in *.
  destruct Hstep; simpl in *; try done; try (by match goal with Hb : bookkeeping x _ |- _ => rewrite (bookkeeping_state _ _ Hb) end).
  match goal with Hr : not_run_reason _ _ _ |- _ => unfold not_run_reason in Hr; destruct (rt_role d); naive_solver end.
Qed.

(** ** Finalizers after a force abort of the ordinary steps *)

Definition spared (v : StepState Output) : Prop :=
  match v with SPending | SCancelled _ | SNotRun _ => True | _ => False end.

Definition aborted_ok st : Prop := ordinary_force_abort st = true → all_of st RoleFinalizer spared.

Lemma finalizing_aborted st trigger gate issue :
  phase_ok st → ordinary_force_abort st = true → rs_workflow st = WFinalizing trigger gate issue →
  ∃ reason deadline, gate = FinCancelling reason deadline true.
Proof.
  unfold phase_ok, ordinary_force_abort. intros Hph Hforce Hw. rewrite Hw in Hph.
  destruct Hph as (_ & _ & [Hnone|Hgate] & _); [by rewrite Hnone in Hforce|done].
Qed.

Lemma node_step_spared st s d x y :
  phase_ok st → node_at st s d x → ordinary_force_abort st = true → rt_role d = RoleFinalizer →
  node_step st s d x y → spared (ss_state x) → spared (ss_state y).
Proof.
  intros Hph Hat Hforce Hrole Hstep Hx. pose proof (node_step_live _ _ _ _ _ Hstep) as Hlive.
  assert (Hp : ss_state x = SPending) by by destruct (ss_state x). clear Hx Hlive.
  destruct (is_executing (rs_workflow st)) eqn:Hex.
  { by rewrite (executing_finalizer_pending st s d x y). }
  assert (Hgate : condition_gate_ready st s = true → False).
  { destruct Hat as [Hx Hd]. unfold condition_gate_ready, condition_phase_gate_open. rewrite Hd, Hx, Hrole.
    destruct (rs_workflow st) as [gate|trigger gate issue| | |] eqn:Hw; [done| |by rewrite !orb_true_r..].
    destruct (finalizing_aborted st trigger gate issue Hph Hforce Hw) as (? & ? & ->). by rewrite !orb_true_r. }
  assert (Hopen : role_gate_open (rs_workflow st) RoleFinalizer = true → False).
  { destruct (rs_workflow st) as [|trigger gate issue| | |] eqn:Hw; try done.
    by destruct (finalizing_aborted st trigger gate issue Hph Hforce Hw) as (? & ? & ->). }
  destruct Hstep; simpl in *; rewrite ?Hrole in *; try done; try (by exfalso; auto); try (by rewrite Hp);
    try congruence; try (naive_solver congruence);
    try (match goal with
         | Hs : cancellable (ss_state x) = true |- _ => by rewrite Hp in Hs
         | Hs : target_active (ss_state x) = true |- _ => by rewrite Hp in Hs
         | Hs : is_active (ss_state x) = true |- _ => by rewrite Hp in Hs
         | Hs : state_kind (ss_state x) = _ |- _ => by rewrite Hp in Hs
         end).
  match goal with Hb : block_reason _ _ _ _ |- _ => unfold block_reason in Hb; rewrite Hrole in Hb; destruct Hb as (_ & _ & Hb) end.
  congruence.
Qed.

Lemma move_aborted_ok r r' :
  move r r' → wf (rd_state r) → phase_ok (rd_state r) → aborted_ok (rd_state r) → aborted_ok (rd_state r').
Proof.
  intros Hm Hwf Hph Hok Hforce. pose proof (move_definition _ _ Hm) as HD.
  destruct (move_changed _ _ Hwf Hm) as [(s & d & x & y & Hat & Hstep & Hst & _ & _ & Hfa & _)|[Hst (es & _ & Hrun)]].
  - unfold ordinary_force_abort in Hforce. rewrite Hfa in Hforce. eapply all_of_changed; [done..|by apply Hok|].
    intros Hrole. by eapply node_step_spared.
  - assert (Hsame : ordinary_force_abort (rd_state r) = true → all_of (rd_state r') RoleFinalizer spared)
      by (intros; by eapply all_of_same; [done..|apply Hok]).
    assert (Hkeep : rs_force_abort (rd_state r') = rs_force_abort (rd_state r) → all_of (rd_state r') RoleFinalizer spared)
      by (unfold ordinary_force_abort in Hsame, Hforce; intros Hfa; rewrite Hfa in Hforce; auto).
    unfold phase_ok in Hph. unfold ordinary_force_abort in Hforce.
    destruct Hrun as [_ _ Hfa|outcome f n to _ _ _ _ _ _ Hfa|outcome summary exports n to _ _ _ _ _ Hfa
      |gate reason prior n deadline _ _ _ _ Hfa|trigger issue reason deadline n _ _ _ Hfa
      |gate n Hw Hnone Hw' Hfa Hf He|trigger gate issue n Hw Hnone Hw' Hfa Hf He]; try (by apply Hkeep).
    + rewrite Hw in Hph. destruct Hph as [Hall _]. eapply all_of_same; [done..|].
      intros s d x Hat Hrole. by rewrite (Hall s d x Hat Hrole).
    + by rewrite Hfa in Hforce.
Qed.

(** ** The outcome of the ordinary steps *)

Definition trigger_ok st : Prop :=
  ∀ f, rs_finalization st = Some f → fnr_trigger f = outcome_trigger (fnr_ordinary_outcome f).

Lemma run_trigger st st' es : run_step st st' es → trigger_ok st → trigger_ok st'.
Proof.
  intros Hrun Hok f. destruct Hrun as [_ Hf|outcome f' n to _ _ _ _ Hentry Hf|outcome summary exports n to _ _ _ _ Hf
      |gate reason prior n deadline _ _ _ Hf|trigger issue reason deadline n _ _ Hf
      |gate n _ _ _ _ Hf|trigger gate issue n _ _ _ _ Hf]; rewrite Hf; try (by apply Hok).
  - intros [= <-]. unfold finalization_entry in Hentry. by injection Hentry as _ ->.
  - intros (f0 & Hf0 & ->)%fmap_Some. simpl. by apply Hok.
  - intros (f0 & Hf0 & ->)%fmap_Some. simpl. by apply Hok.
Qed.

Lemma move_trigger_ok r r' : move r r' → wf (rd_state r) → trigger_ok (rd_state r) → trigger_ok (rd_state r').
Proof.
  intros Hm Hwf Hok. destruct (move_changed _ _ Hwf Hm) as [(s & d & x & y & _ & _ & _ & _ & Hf & _)|[_ (es & _ & Hrun)]].
  - unfold trigger_ok. by rewrite Hf.
  - by eapply run_trigger.
Qed.

(** A force abort of the ordinary steps cancels them. *)
Definition abort_reason_ok st : Prop := ordinary_force_abort st = true → is_Some (ordinary_reason st).

Lemma move_abort_reason_ok r r' :
  move r r' → wf (rd_state r) → phase_ok (rd_state r) → abort_reason_ok (rd_state r) → abort_reason_ok (rd_state r').
Proof.
  intros Hm Hwf Hph Hok Hforce. destruct (ordinary_force_abort (rd_state r)) eqn:Hbefore.
  - destruct (move_reason r r' Hph Hwf Hm) as (es & _ & [Hr _|n reason deadline _ _ Hr|n phase _ _ Hr _]);
      rewrite Hr; [by apply Hok|eauto..].
  - unfold ordinary_force_abort in Hforce, Hbefore.
    destruct (move_changed _ _ Hwf Hm) as [(s & d & x & y & _ & _ & _ & _ & _ & Hfa & _)|[_ (es & _ & Hrun)]].
    { rewrite Hfa in Hforce. congruence. }
    unfold phase_ok in Hph.
    destruct Hrun as [_ _ Hfa|outcome f n to _ _ _ _ _ _ Hfa|outcome summary exports n to _ _ _ _ _ Hfa
      |gate reason prior n deadline _ _ _ _ Hfa|trigger issue reason deadline n _ _ _ Hfa
      |gate n Hw Hnone Hw' Hfa Hf He|trigger gate issue n Hw Hnone Hw' Hfa Hf He]; try (rewrite Hfa in Hforce; congruence);
      [|by rewrite Hfa in Hforce].
    rewrite Hw in Hph. destruct Hph as (_ & Hfin & _). unfold ordinary_reason, ordinary_result, ordinary_outcome.
    rewrite Hf, Hfin, Hw'. simpl. destruct gate as [|?|? []]; simpl; eauto.
Qed.

(** ** Steps of a run whose ordinary steps succeeded *)

Definition steps_clean st : Prop :=
  fnr_ordinary_outcome <$> rs_finalization st = Some OrdSucceeded →
  ∀ s d x, node_at st s d x → rt_role d = RoleStep → clean d (ss_state x).

Lemma finalization_steps_terminal st :
  phase_ok st → is_Some (rs_finalization st) → all_of st RoleStep (λ v, is_terminal v = true).
Proof.
  unfold phase_ok. intros Hph [f Hf]. destruct (rs_workflow st); try by destruct Hph as [? _].
  destruct Hph as (_ & Hnone & _). congruence.
Qed.

Lemma move_steps_clean r r' :
  move r r' → wf (rd_state r) → phase_ok (rd_state r) → clean_ok (rd_state r) →
  steps_clean (rd_state r) → steps_clean (rd_state r').
Proof.
  intros Hm Hwf Hph Hclean Hok Ho. pose proof (move_definition _ _ Hm) as HD.
  destruct (move_changed _ _ Hwf Hm) as [(s & d & x & y & Hat & Hstep & Hst & _ & Hf & _)|[Hst (es & _ & Hrun)]].
  - rewrite Hf in Ho. intros t d' z Hz Hrole.
    destruct (node_at_insert _ _ _ _ _ _ _ _ _ HD Hst Hat Hz) as [(-> & -> & ->)|[_ Hz']]; [|by eapply Hok].
    assert (Hterm : is_terminal (ss_state x) = true).
    { apply (finalization_steps_terminal _ Hph) with s d; [|done..]. by destruct (rs_finalization (rd_state r)). }
    by rewrite (node_step_live _ _ _ _ _ Hstep) in Hterm.
  - assert (Hsame : fnr_ordinary_outcome <$> rs_finalization (rd_state r) = Some OrdSucceeded ∨ clean_workflow (rs_workflow (rd_state r)) →
      ∀ s d x, node_at (rd_state r') s d x → rt_role d = RoleStep → clean d (ss_state x)).
    { intros Hcase s d x [Hx Hd] Hrole. assert (Hat : node_at (rd_state r) s d x)
        by (split; [by rewrite <-Hst|unfold def_step in *; by rewrite <-HD]).
      destruct Hcase; [by eapply Hok|by eapply Hclean]. }
    apply Hsame. destruct Hrun as [_ Hf|outcome f' n to _ _ _ Hout Hentry Hf|outcome summary exports n to _ _ _ _ Hf
      |gate reason prior n deadline _ _ _ Hf|trigger issue reason deadline n _ _ Hf
      |gate n _ _ _ _ Hf|trigger gate issue n _ _ _ _ Hf]; rewrite Hf in Ho; try (by left).
    + right. unfold finalization_entry in Hentry. injection Hentry as _ ->. simpl in Ho. injection Ho as ->.
      unfold ordinary_outcome in Hout. by destruct (rs_workflow (rd_state r)) as [[| |? []]| | | |]; simplify_eq/=.
    + left. by destruct (rs_finalization (rd_state r)) as [[]|].
    + left. by destruct (rs_finalization (rd_state r)) as [[]|].
Qed.

(** ** Together *)

Record ending_ok st : Prop := {
  end_not_run : each_node not_run_ok st;
  end_aborted : aborted_ok st;
  end_trigger : trigger_ok st;
  end_abort_reason : abort_reason_ok st;
  end_clean : clean_ok st;
  end_steps : steps_clean st
}.

Lemma history_ending_ok D (seed : ExecutionSeed Output) h st :
  definition_wf D → history (Provisional := Provisional) (Cause := Cause) D seed h st → ending_ok st.
Proof.
  intros HD Hrec. assert (Hs : seed_wf D seed) by by induction Hrec.
  apply (history_invariant (λ _ st, phase_ok st ∧ ending_ok st) D seed h st) in Hrec as [_ ?]; [done|..|done].
  - split; [by apply initial_phase_ok|]. split; try done.
    + intros s d x [Hx Hd]. rewrite initial_lookup in Hx by done. unfold def_step in Hd. simpl in Hd. rewrite Hd in Hx.
      injection Hx as <-. unfold not_run_ok. simpl. by destruct (bt_get seed s).
    + by apply initial_clean.
  - intros _ r r' Hm Hwf _ [Hph [H1 H2 H3 H4 H5 H6]]. split; [by eapply move_phase_ok|]. split.
    + apply (each_node_move not_run_ok r r'); [|done..]. intros st0 s d x y _ _ _. apply node_step_not_run.
    + by eapply move_aborted_ok.
    + by eapply move_trigger_ok.
    + by eapply move_abort_reason_ok.
    + pose proof (move_definition _ _ Hm). destruct (move_changed _ _ Hwf Hm); [by eapply clean_ok_node|by eapply clean_ok_run].
    + by eapply move_steps_clean.
Qed.
End endings.
