(* ===== verification/ValidWorkflows.v ===== *)
(** * Validated workflows

    The workflow that [validate] returns is one the engine can run: its
    runtime definition is well formed, and its nodes can be scheduled, since
    their producers precede them and their evidence names everything that
    may keep them from running. *)

From S2P Require Import Prelude Text Nodes Evidence Condition Predicates Document Validated Validation Graph Requirements Capacity Runtime ValidDocuments ConditionTypes Reducer Moves Refinement Views Stabilize Occurrences Runs Ceiling NodeSteps NodeInvariants Phases Scheduling Containment Numbering Termination Quiet Cancelling Progress.

Local Open Scope list_scope.

(** ** Texts of output references *)

Lemma identifier_nonempty n : is_workflow_value_identifier n = true → str_is_empty n = false.
Proof. unfold is_workflow_value_identifier, str_is_empty. destruct n; [done|]. intros _. by apply bool_decide_eq_false_2. Qed.

Lemma lowercase_alphabetic c : is_ascii_lowercase c = true → is_ascii_alphabetic c = true.
Proof. unfold is_ascii_alphabetic. by intros ->. Qed.

Lemma value_identifier_node n : is_workflow_value_identifier n = true → is_workflow_node_identifier n = true.
Proof.
  unfold is_workflow_value_identifier, is_workflow_node_identifier. destruct (bytes n) as [|c rest]; [done|].
  intros [[Hc Hlen]%andb_prop Hrest]%andb_prop. rewrite (lowercase_alphabetic _ Hc), Hlen. simpl.
  rewrite forallb_forall in *. intros x Hx. by rewrite (Hrest x Hx).
Qed.

Lemma output_text_split node output :
  is_workflow_value_identifier node = true → is_workflow_value_identifier output = true →
  str_split "."%char ("outputs." ++ node ++ "." ++ output)%string = ["outputs"%string; node; output].
Proof.
  intros Hn Ho. change ("outputs." ++ node ++ "." ++ output)%string
    with ("outputs" ++ String "."%char (node ++ String "."%char output))%string.
  rewrite !str_split_app; [|by apply identifier_no_dot|by vm_compute; set_solver].
  rewrite str_split_none; [done|by apply identifier_no_dot].
Qed.

Lemma output_text_reference node output :
  is_workflow_value_identifier node = true → is_workflow_value_identifier output = true →
  is_output_reference ("outputs." ++ node ++ "." ++ output)%string = true
  ∧ output_reference_producer ("outputs." ++ node ++ "." ++ output)%string = Some node.
Proof.
  intros Hn Ho. unfold is_output_reference, output_reference_producer. rewrite (output_text_split _ _ Hn Ho).
  rewrite (value_identifier_node _ Hn), Ho. split; [done|]. by rewrite decide_True.
Qed.

(** ** Evidence names what a node reads *)

Definition condition_descriptors (c : ConditionPredicate) : list Prerequisite := retain_predicate_descriptors c [].

Lemma retain_predicate_app c ds : retain_predicate_descriptors c ds = ds ++ condition_descriptors c.
Proof.
  unfold condition_descriptors. revert ds.
  induction c as [l IH|l IH|c IH|lhs rhs|s|node d] using ConditionPredicate_nested_ind; intros ds;
    cbn [retain_predicate_descriptors]; try done; try (by rewrite app_nil_l).
  1,2: set (go := fix go children descriptors := match children with [] => descriptors
      | child :: children => go children (retain_predicate_descriptors child descriptors) end);
    change (go l ds = ds ++ go l []);
    revert ds; induction IH as [|c l Hc _ IHl]; intros ds; cbn [go]; [by rewrite app_nil_r|];
    rewrite (IHl (retain_predicate_descriptors c ds)), (IHl (retain_predicate_descriptors c [])), (Hc ds), (Hc []);
    by rewrite app_nil_l, <-app_assoc.
Qed.

Lemma result_to_list_elem {A E} (r : result A E) a : a ∈ result_to_list r ↔ r = Ok a.
Proof. destruct r; simpl; [rewrite list_elem_of_singleton; naive_solver|]. split; [by intros ?%elem_of_nil|done]. Qed.

Lemma descriptors_children l p :
  p ∈ condition_descriptors (CAll l) ↔ ∃ c, c ∈ l ∧ p ∈ condition_descriptors c.
Proof.
  unfold condition_descriptors. cbn [retain_predicate_descriptors].
  set (go := fix go children descriptors := match children with [] => descriptors
      | child :: children => go children (retain_predicate_descriptors child descriptors) end).
  cut (∀ ds, p ∈ go l ds ↔ p ∈ ds ∨ ∃ c, c ∈ l ∧ p ∈ condition_descriptors c).
  { intros Hcut. rewrite Hcut. split; [by intros [?%elem_of_nil|?]|by right]. }
  induction l as [|c l IH]; intros ds; cbn [go]; [set_solver|].
  rewrite IH, retain_predicate_app. set_solver.
Qed.

(** A reference of a condition leaves a descriptor. *)
Lemma condition_reference_descriptor c o :
  RefOutput o ∈ condition_references c → is_output_reference (output_reference_text o) = true →
  PCondition (output_reference_text o) ∈ condition_descriptors c.
Proof.
  intros Hin Hok. assert (Hd : PCondition (output_reference_text o) ∈ reference_descriptor prerequisite_condition (RefOutput o)).
  { apply result_to_list_elem. unfold prerequisite_condition. by rewrite Hok. }
  revert Hin. induction c as [l IH|l IH|c IH|lhs rhs|s|node d] using ConditionPredicate_nested_ind;
    cbn [condition_references].
  1,2: intros (c & Hc%list_elem_of_In & Ho%list_elem_of_In)%list_elem_of_In%in_flat_map; apply (descriptors_children l);
    exists c; split; [done|]; rewrite Forall_forall in IH; by apply IH.
  - apply IH.
  - unfold condition_descriptors. cbn [retain_predicate_descriptors]. rewrite app_nil_l, !elem_of_app.
    intros [H|H]; [left; destruct lhs|right; destruct rhs]; simpl in H; try (by apply elem_of_nil in H);
      by apply list_elem_of_singleton in H as <-.
  - intros H. unfold condition_descriptors. cbn [retain_predicate_descriptors]. rewrite app_nil_l.
    by apply list_elem_of_singleton in H as <-.
  - by intros ?%elem_of_nil.
Qed.

Lemma reference_descriptor_ok make reference p :
  make = prerequisite_condition ∨ make = prerequisite_body → p ∈ reference_descriptor make reference → prerequisite_ok p = true.
Proof.
  intros Hm. destruct reference as [|o|]; simpl; try (by intros ?%elem_of_nil). rewrite result_to_list_elem.
  unfold prerequisite_condition, prerequisite_body in Hm.
  destruct Hm as [-> | ->]; destruct (is_output_reference _) eqn:E; try done; intros [= <-];
    (eapply prerequisite_ref_ok; [exact E|]); auto.
Qed.

Lemma condition_descriptors_ok c p : p ∈ condition_descriptors c → prerequisite_ok p = true.
Proof.
  induction c as [l IH|l IH|c IH|lhs rhs|s|node d] using ConditionPredicate_nested_ind.
  1,2: intros (c & Hc & Hp)%(descriptors_children l); rewrite Forall_forall in IH; by apply (IH c).
  - apply IH.
  - unfold condition_descriptors. cbn [retain_predicate_descriptors]. rewrite app_nil_l, elem_of_app.
    intros [H|H]; [destruct lhs|destruct rhs]; simpl in H; try (by apply elem_of_nil in H);
      (eapply reference_descriptor_ok; [by left|done]).
  - unfold condition_descriptors. cbn [retain_predicate_descriptors]. rewrite app_nil_l.
    apply reference_descriptor_ok. by left.
  - unfold condition_descriptors. cbn [retain_predicate_descriptors]. rewrite app_nil_l, result_to_list_elem.
    apply prerequisite_control_ok.
Qed.

(** A reference of a body leaves a descriptor, and nothing else does. *)
Lemma body_descriptors_elem body p :
  p ∈ body_descriptors body ↔ ∃ reference, reference ∈ body_references body ∧ p ∈ reference_descriptor prerequisite_body reference.
Proof.
  destruct body as [common inputs argv|common agent]; cbn [body_descriptors body_references].
  - rewrite list_elem_of_bind. naive_solver.
  - rewrite list_elem_of_bind. split.
    + intros (m & Hp & Hm). destruct m as [path|reference]; simpl in Hp; [by apply elem_of_nil in Hp|].
      exists reference. split; [|done]. apply list_elem_of_In, in_flat_map. exists (SourceReference reference).
      split; [by apply list_elem_of_In|by left].
    + intros (reference & (m & Hm & Hr)%list_elem_of_In%in_flat_map & Hp). destruct m as [path|reference']; [done|].
      destruct Hr as [->|[]]. exists (SourceReference reference). split; [done|by apply list_elem_of_In].
Qed.

(** What the evidence of a node lists. *)
Record evidence_complete (body : NodeBody) (direct : list ResolvedDirectPrerequisite) (evidence : list Prerequisite)
    : Prop := {
  evc_length : length evidence <= MAXIMUM_PREREQUISITES;
  evc_ok : Forall (λ p, prerequisite_ok p = true) evidence;
  evc_control p : p ∈ direct → rdp_control p = true → str_is_empty (rdp_producer p) = false →
    PControl (rdp_producer p) ∈ evidence;
  evc_condition c o : cn_condition (common_node body) = Some c → RefOutput o ∈ condition_references c →
    is_output_reference (output_reference_text o) = true → PCondition (output_reference_text o) ∈ evidence;
  evc_body o : RefOutput o ∈ body_references body → is_output_reference (output_reference_text o) = true →
    PBody (output_reference_text o) ∈ evidence
}.

Lemma evidence_prerequisites_Ok body direct evidence :
  evidence_prerequisites body direct = Ok evidence → evidence_complete body direct evidence.
Proof.
  unfold evidence_prerequisites. set (controls := List.filter rdp_control direct ≫= _).
  assert (Hretain : ∀ p, p ∈ retain_condition_descriptors (cn_condition (common_node body)) controls ↔
    p ∈ controls ∨ ∃ c, cn_condition (common_node body) = Some c ∧ p ∈ condition_descriptors c).
  { intros p. destruct (cn_condition (common_node body)) as [c|]; simpl; [|naive_solver].
    rewrite retain_predicate_app, elem_of_app. naive_solver. }
  assert (Hcontrols : ∀ p, p ∈ controls ↔ ∃ q, q ∈ direct ∧ rdp_control q = true ∧ prerequisite_control (rdp_producer q) = Ok p).
  { intros p. unfold controls. rewrite list_elem_of_bind. setoid_rewrite result_to_list_elem.
    setoid_rewrite list_elem_of_In. setoid_rewrite filter_In. setoid_rewrite <-list_elem_of_In. naive_solver. }
  case_decide as Hlen; [done|]. intros [= <-]. split.
  - lia.
  - apply Forall_forall. intros p Hp. apply (proj1 (elem_of_sort_dedup _ _)) in Hp.
    apply elem_of_app in Hp as [[(q & _ & _ & ?)%Hcontrols|(c & _ & ?)]%Hretain|(reference & _ & ?)%body_descriptors_elem].
    + by eapply prerequisite_control_ok.
    + by eapply condition_descriptors_ok.
    + eapply reference_descriptor_ok; [by right|done].
  - intros p Hp Hc Hne. apply elem_of_sort_dedup, elem_of_app. left. apply Hretain. left. apply Hcontrols.
    exists p. split_and!; [done..|]. unfold prerequisite_control. by rewrite Hne.
  - intros c o Hc Ho Hok. apply elem_of_sort_dedup, elem_of_app. left. apply Hretain. right.
    exists c. split; [done|]. by apply condition_reference_descriptor.
  - intros o Ho Hok. apply elem_of_sort_dedup, elem_of_app. right. apply body_descriptors_elem.
    exists (RefOutput o). split; [done|]. apply result_to_list_elem. unfold prerequisite_body. by rewrite Hok.
Qed.

(** The outputs of a validated body. *)
Lemma validated_outputs document role n body ps v name :
  body_wf body → body_facts document role n body ps v →
  bt_get (vc_outputs (common_step v)) name
  = (λ output, {| vo_definition := output; vo_value_type := output_value_type output |})
    <$> bt_get (cn_outputs (common_node body)) name.
Proof.
  intros Hwf Hf. rewrite (bf_outputs _ _ _ _ _ _ Hf), bt_get_collect.
  - apply (bt_get_fmap (λ name output, {| vo_definition := output; vo_value_type := output_value_type output |})).
  - rewrite (bt_keys_fmap (λ name output, {| vo_definition := output; vo_value_type := output_value_type output |})).
    apply bt_wf_NoDup. destruct body; apply Hwf.
Qed.

(** ** The nodes of the workflow *)

Section workflow.
Context (document : WorkflowDocument) (Hdoc : document_wf MAXIMUM_RETRIES document).
Context (profiles : btree ValidatedHarness) (steps finalizers : ValidatedGraph) (W : ValidatedWorkflow).
Context (Hval : validated_from document profiles steps finalizers W).

Lemma validated_workflow_wf : validated_wf W.
Proof.
  pose proof (vd_namespace _ _ _ _ _ Hval) as (_ & Hdis & _)%validate_node_namespace_Ok. split.
  - eapply entries_wf; [apply Hval|apply Hdoc].
  - eapply entries_wf; [apply (vd_finalizers _ _ _ _ _ Hval)|apply Hdoc].
  - intros s. rewrite (entries_keys _ _ _ (vd_steps _ _ _ _ _ Hval)), (entries_keys _ _ _ (vd_finalizers _ _ _ _ _ Hval)).
    apply Hdis.
  - by rewrite (entries_keys _ _ _ (vd_recoveries _ _ _ _ _ Hval)), (entries_keys _ _ _ (vd_steps _ _ _ _ _ Hval)).
  - intros s v Hv. destruct (entries_get_inv _ _ _ _ _ (vd_recoveries _ _ _ _ _ Hval) Hv) as (step & Hs & Hr).
    unfold validate_recovery in Hr. destruct (sd_recovery step) as [recovery|] eqn:Hrec; [|done].
    apply result_bind_Ok in Hr as (handler & _ & [= <-]). by eapply (dwf_retries _ _ Hdoc).
Qed.

Definition role_graph (role : WorkflowNodeRole) : ValidatedGraph :=
  match role with RoleStep => steps | RoleFinalizer => finalizers end.

(** A node of the workflow and what it was validated from. *)
Record node_from (n : string) (d : RuntimeStep) (body : NodeBody) (control : list string) (v : ValidatedStep) : Prop := {
  nf_body : node_body document n = Some (rt_role d, body);
  nf_wf : body_wf body;
  nf_graph : rt_prerequisites d = graph_prerequisites (role_graph (rt_role d)) n;
  nf_resolved : resolved document n (rt_role d) body control (rt_prerequisites d);
  nf_facts : body_facts document (rt_role d) n body (rt_prerequisites d) v;
  nf_condition : rt_condition d = vc_condition (common_step v);
  nf_values : rt_condition_values d = vc_condition_values (common_step v);
  nf_evidence : rt_evidence_prerequisites d = vc_evidence_prerequisites (common_step v);
  nf_outputs : rt_declared_outputs d = bt_keys (vc_outputs (common_step v));
  nf_policy : rt_failure_policy d = cn_failure_policy (common_node body);
  nf_when : rt_role d = RoleFinalizer → rt_when d = finalizer_when document n
}.

Context (parallel : nat) (ceiling : N).
Local Abbreviation D := (from_workflow W parallel ceiling).

Lemma graph_resolved {A} (nodes : btree A) source_order resolve g n a :
  graph_ok nodes source_order resolve g → bt_get nodes n = Some a → resolve n a = Ok (graph_prerequisites g n).
Proof.
  intros Hg Ha. destruct (entries_get _ _ _ _ _ (go_entries _ _ _ _ Hg) Ha) as (ps & Hps & Hr).
  unfold graph_prerequisites. by rewrite Hps.
Qed.

Lemma node_from_definition n d :
  bt_get (def_steps D) n = Some d → ∃ body control v, node_from n d body control v.
Proof.
  rewrite (def_steps_lookup _ _ _ validated_workflow_wf).
  destruct (bt_get (vw_steps W) n) as [v|] eqn:Hv; [intros [= <-]|intros (f & Hf & ->)%fmap_Some].
  - destruct (entries_get_inv _ _ _ _ _ (vd_steps _ _ _ _ _ Hval) Hv) as (step & Hs & Hb).
    pose proof (graph_resolved _ _ _ _ _ _ (vd_step_graph _ _ _ _ _ Hval) Hs) as Hr%resolve_step_prerequisites_ok.
    pose proof (validate_body_facts _ _ _ _ _ _ _ Hb) as Hfacts.
    exists (sd_body step), (sd_control_dependencies step), v.
    split; simpl; rewrite ?(bf_prerequisites _ _ _ _ _ _ Hfacts); try done.
    + unfold node_body. by rewrite Hs.
    + by eapply (dwf_step_body _ _ Hdoc).
    + apply (bf_policy _ _ _ _ _ _ Hfacts).
  - destruct (entries_get_inv _ _ _ _ _ (vd_finalizers _ _ _ _ _ Hval) Hf) as (fin & Hs & Hb & Hwhen).
    pose proof (graph_resolved _ _ _ _ _ _ (vd_finalizer_graph _ _ _ _ _ Hval) Hs) as [_ Hr]%resolve_finalizer_prerequisites_ok.
    pose proof (validate_body_facts _ _ _ _ _ _ _ Hb) as Hfacts.
    exists (fd_body fin), (fd_after fin), (vf_body f).
    split; simpl; rewrite ?(bf_prerequisites _ _ _ _ _ _ Hfacts); try done.
    + unfold node_body. rewrite Hs. destruct (bt_get (doc_steps document) n) as [step|] eqn:E; [|done].
      destruct (entries_get _ _ _ _ _ (vd_steps _ _ _ _ _ Hval) E) as (? & ? & _). congruence.
    + by eapply (dwf_finalizer_body _ _ Hdoc).
    + apply (bf_policy _ _ _ _ _ _ Hfacts).
    + intros _. unfold finalizer_when. by rewrite Hs, Hwhen.
Qed.

(** The nodes of the document are nodes of the definition. *)
Lemma node_defined_body n role body :
  node_body document n = Some (role, body) →
  ∃ d control v, bt_get (def_steps D) n = Some d ∧ rt_role d = role ∧ node_from n d body control v.
Proof.
  intros Hb. assert (∃ d, bt_get (def_steps D) n = Some d) as [d Hd].
  { rewrite (def_steps_lookup _ _ _ validated_workflow_wf). unfold node_body in Hb.
    destruct (bt_get (doc_steps document) n) as [step|] eqn:Hs.
    - destruct (entries_get _ _ _ _ _ (vd_steps _ _ _ _ _ Hval) Hs) as (v & -> & _). eauto.
    - apply fmap_Some in Hb as (f & Hf & _).
      destruct (entries_get _ _ _ _ _ (vd_finalizers _ _ _ _ _ Hval) Hf) as (v & -> & _).
      destruct (bt_get (vw_steps W) n); simpl; eauto. }
  destruct (node_from_definition n d Hd) as (body' & control & v & Hn).
  pose proof (nf_body _ _ _ _ _ Hn) as Hb'. rewrite Hb in Hb'. injection Hb' as -> ->. eauto 10.
Qed.

Lemma role_key_defined role n :
  n ∈ role_keys document role → ∃ d, bt_get (def_steps D) n = Some d ∧ rt_role d = role.
Proof.
  pose proof (vd_namespace _ _ _ _ _ Hval) as (_ & Hdis & _)%validate_node_namespace_Ok. intros Hn.
  assert (∃ body, node_body document n = Some (role, body)) as [body Hb].
  { unfold node_body. destruct role; simpl in Hn; pose proof Hn as [x Hx]%bt_get_is_Some; rewrite Hx; simpl; [eauto|].
    destruct (bt_get (doc_steps document) n) eqn:E; [|eauto]. exfalso. apply (Hdis n); [|done]. apply bt_get_is_Some. eauto. }
  destruct (node_defined_body n role body Hb) as (d & _ & _ & Hd & Hr & _). eauto.
Qed.

Lemma role_key_identifier role n : n ∈ role_keys document role → is_workflow_value_identifier n = true.
Proof.
  destruct role; intros Hn; [pose proof (dwf_step_names _ _ Hdoc) as Hi|pose proof (dwf_finalizer_names _ _ Hdoc) as Hi];
    eapply Forall_forall in Hi; [exact Hi|done|exact Hi|done].
Qed.

Lemma body_output_identifier body name output :
  body_wf body → bt_get (cn_outputs (common_node body)) name = Some output → is_workflow_value_identifier name = true.
Proof.
  intros Hwf Ho. assert (Hi : identifiers (bt_keys (cn_outputs (common_node body)))) by (destruct body; apply Hwf).
  eapply Forall_forall in Hi; [exact Hi|]. apply bt_get_is_Some. eauto.
Qed.

(** The text of an authorised reference is one, and names its producer. *)
Lemma authorised_text consumer role o :
  authorised document consumer role (RefOutput o) →
  is_output_reference (output_reference_text o) = true
  ∧ output_reference_producer (output_reference_text o) = Some (or_node o).
Proof.
  intros (r & body & output & Hb & Ho & _). destruct (node_defined_body _ _ _ Hb) as (d & control & v & _ & _ & Hn).
  apply output_text_reference.
  - eapply role_key_identifier, node_body_key. exact Hb.
  - eapply body_output_identifier; [apply Hn|exact Ho].
Qed.

Section node.
Context (n : string) (d : RuntimeStep) (body : NodeBody) (control : list string) (v : ValidatedStep).
Context (Hnode : node_from n d body control v).

Local Abbreviation reqs := (requirements document (rt_role d) body control).

Lemma prerequisite_required p :
  p ∈ rt_prerequisites d → required_prerequisite reqs (rdp_producer p) = Some p
    ∧ rdp_producer p ∈ role_keys document (rt_role d).
Proof.
  intros Hp. destruct (nf_resolved _ _ _ _ _ Hnode) as [(m & [Hw Hm] & Hps) [_ Hcontrol] _ _].
  rewrite Hps in Hp. apply list_elem_of_fmap in Hp as ([k p'] & -> & Hin). simpl.
  apply (bt_get_NoDup _ _ _ (bt_wf_NoDup _ Hw)) in Hin. rewrite Hm in Hin.
  assert (Hk : rdp_producer p' = k) by (unfold required_prerequisite in Hin; case_decide; by simplify_eq/=).
  rewrite Hk. split; [done|]. unfold required_prerequisite in Hin. case_decide as Hin'; [|done].
  apply list_elem_of_fmap in Hin' as (r & -> & Hr). eapply requirements_producer; [|exact Hr].
  eapply Forall_impl; [exact Hcontrol|]. naive_solver.
Qed.

Lemma requirement_prerequisite r :
  r ∈ reqs → ∃ p, p ∈ rt_prerequisites d ∧ required_prerequisite reqs (requirement_producer r) = Some p
    ∧ rdp_producer p = requirement_producer r.
Proof.
  intros Hr. destruct (nf_resolved _ _ _ _ _ Hnode) as [(m & [Hw Hm] & Hps) _ _ _].
  assert (∃ p, required_prerequisite reqs (requirement_producer r) = Some p ∧ rdp_producer p = requirement_producer r)
    as (p & Hp & Hprod).
  { unfold required_prerequisite. rewrite decide_True by (apply list_elem_of_fmap; eauto). eauto. }
  exists p. split_and!; [|done..]. rewrite Hps. rewrite <-Hm in Hp. apply bt_get_elem_of in Hp. unfold bt_values.
  apply list_elem_of_fmap. by exists (requirement_producer r, p).
Qed.

Lemma evidence_of_node : evidence_complete body (rt_prerequisites d) (rt_evidence_prerequisites d).
Proof.
  rewrite (nf_evidence _ _ _ _ _ Hnode). apply evidence_prerequisites_Ok. apply (nf_facts _ _ _ _ _ Hnode).
Qed.

(** A data requirement comes from a reference. *)
Lemma data_requirement condition refs producer b :
  ReqData producer b ∈ flat_map (reference_requirements document (rt_role d) condition) refs →
  b = condition ∧ ∃ o, RefOutput o ∈ refs ∧ or_node o = producer.
Proof.
  intros (reference & Hin & Hr)%list_elem_of_In%in_flat_map. destruct reference as [|o|]; simpl in Hr; [done| |done].
  destruct (node_body document (or_node o)) as [[r b']|]; [|done]. case_decide; [|done]. destruct Hr as [[= <- <-]|[]].
  split; [done|]. exists o. split; [by apply list_elem_of_In|done].
Qed.

Lemma condition_data_requirement c producer b :
  ReqData producer b ∈ condition_requirements document (rt_role d) c →
  b = true ∧ ∃ o, RefOutput o ∈ condition_references c ∧ or_node o = producer.
Proof.
  induction c as [l IH|l IH|c IH|lhs rhs|s|node disposition] using ConditionPredicate_nested_ind;
    cbn [condition_requirements condition_references].
  1,2: intros (c & Hc%list_elem_of_In & Hr%list_elem_of_In)%list_elem_of_In%in_flat_map; rewrite Forall_forall in IH;
    destruct (IH c Hc Hr) as (-> & o & Ho & <-); split; [done|]; exists o; split; [|done];
    apply list_elem_of_In, in_flat_map; exists c; split; by apply list_elem_of_In.
  - apply IH.
  - apply data_requirement.
  - apply data_requirement.
  - case_decide; [|by intros ?%elem_of_nil]. by intros ?%list_elem_of_singleton.
Qed.

(** A reference of a condition to a node of the same phase is a requirement. *)
Lemma condition_reference_requirement c o pbody :
  RefOutput o ∈ condition_references c → node_body document (or_node o) = Some (rt_role d, pbody) →
  ReqData (or_node o) true ∈ condition_requirements document (rt_role d) c.
Proof.
  intros Hin Hb. assert (Hone : ∀ refs, RefOutput o ∈ refs →
    ReqData (or_node o) true ∈ flat_map (reference_requirements document (rt_role d) true) refs).
  { intros refs Hr. apply list_elem_of_In, in_flat_map. exists (RefOutput o). split; [by apply list_elem_of_In|].
    simpl. rewrite Hb, decide_True by done. by left. }
  revert Hin. induction c as [l IH|l IH|c IH|lhs rhs|s|node disposition] using ConditionPredicate_nested_ind;
    cbn [condition_requirements condition_references]; auto.
  1,2: intros (c & Hc%list_elem_of_In & Hr%list_elem_of_In)%list_elem_of_In%in_flat_map; rewrite Forall_forall in IH;
    apply list_elem_of_In, in_flat_map; exists c; split; [by apply list_elem_of_In|]; apply list_elem_of_In; by apply IH.
  by intros ?%elem_of_nil.
Qed.

Lemma requirements_data producer b :
  ReqData producer b ∈ reqs →
  (b = true ∧ ∃ c o, cn_condition (common_node body) = Some c ∧ RefOutput o ∈ condition_references c ∧ or_node o = producer)
  ∨ (b = false ∧ ∃ o, RefOutput o ∈ body_references body ∧ or_node o = producer).
Proof.
  unfold requirements. rewrite !elem_of_app, list_elem_of_fmap. intros [(? & ? & _)|[Hr|[-> ?]%data_requirement]]; [done| |by right].
  left. destruct (cn_condition (common_node body)) as [c|] eqn:Hc; simpl in Hr; [|by apply elem_of_nil in Hr].
  apply condition_data_requirement in Hr as (-> & o & ? & ?). split; [done|]. by exists c, o.
Qed.

Lemma node_reference_authorised reference :
  reference ∈ node_references body → authorised document n (rt_role d) reference.
Proof. intros Hin. pose proof (res_authority _ _ _ _ _ _ (nf_resolved _ _ _ _ _ Hnode)) as Ha. rewrite Forall_forall in Ha. by apply Ha. Qed.

Lemma condition_reference_node c reference :
  cn_condition (common_node body) = Some c → reference ∈ condition_references c → reference ∈ node_references body.
Proof. intros Hc Hin. unfold node_references. rewrite Hc. apply elem_of_app. by left. Qed.

Lemma condition_defined c : cn_condition (common_node body) = Some c → is_Some (rt_condition d).
Proof.
  intros Hc. pose proof (bf_condition _ _ _ _ _ _ (nf_facts _ _ _ _ _ Hnode)) as Hr. rewrite Hc in Hr.
  apply result_bind_Ok in Hr as ([p values] & _ & Hv). rewrite (nf_condition _ _ _ _ _ Hnode). injection Hv as <- _. eauto.
Qed.

Lemma node_prerequisite_schedulable p : p ∈ rt_prerequisites d → prerequisite_schedulable D d p.
Proof.
  intros Hp. destruct (prerequisite_required p Hp) as [Hreq Hkey]. pose proof evidence_of_node as Hev.
  unfold required_prerequisite in Hreq. case_decide as Hin; [|done]. injection Hreq as Hreq.
  split.
  - destruct (role_key_defined _ _ Hkey) as (d' & ? & ?). eauto.
  - intros Hc. apply (evc_control _ _ _ Hev); [done..|]. eapply identifier_nonempty, role_key_identifier. exact Hkey.
  - rewrite <-Hreq. simpl. rewrite !bool_decide_eq_true. intros [|Hd]; [by left|].
    apply requirements_data in Hd as [[? _]|(_ & o & Ho & Hprod)]; [done|]. right.
    destruct (authorised_text n (rt_role d) o) as [Hok Hpr]; [apply node_reference_authorised, elem_of_app; by right|].
    exists (output_reference_text o). split; [by apply (evc_body _ _ _ Hev)|]. rewrite Hpr. by f_equal.
  - rewrite <-Hreq. simpl. rewrite bool_decide_eq_true. intros [(_ & c & o & Hc & Ho & Hprod)|[? _]]%requirements_data; [|done].
    destruct (authorised_text n (rt_role d) o) as [Hok Hpr]; [by eapply node_reference_authorised, condition_reference_node|].
    split; [by eapply condition_defined|]. exists (output_reference_text o).
    split; [by eapply (evc_condition _ _ _ Hev)|]. rewrite Hpr. by f_equal.
Qed.

(** *** Its condition *)

(** What validation establishes of a condition. *)
Record condition_from (c : ConditionPredicate) (p : ResolvedPredicate) : Prop := {
  cf_wf : bt_wf (rt_condition_values d);
  cf_typed : predicate_typed document (rt_condition_values d) p;
  cf_nodes : predicate_nodes p <= MAXIMUM_CONDITION_NODES;
  cf_targets t : t ∈ predicate_targets p →
    target_role document (node_id t) = Some (node_role t) ∧ (rt_role d = RoleStep → node_role t = RoleStep)
    ∧ (node_role t = rt_role d → ReqDisposition (node_id t) ∈ reqs);
  cf_values canonical source : (canonical, source) ∈ rt_condition_values d →
    canonical = canonical_reference source
    ∧ ∃ reference t, reference ∈ condition_references c ∧ denotes document reference source t ∧ is_Some (type_kind t)
}.

Lemma declared_output_listed name output :
  bt_get (cn_outputs (common_node body)) name = Some output → name ∈ rt_declared_outputs d.
Proof.
  intros Ho. rewrite (nf_outputs _ _ _ _ _ Hnode). apply bt_get_is_Some.
  rewrite (validated_outputs _ _ _ _ _ _ _ (nf_wf _ _ _ _ _ Hnode) (nf_facts _ _ _ _ _ Hnode)), Ho. eauto.
Qed.

Lemma document_identifiers :
  identifiers (bt_keys (doc_steps document)) ∧ identifiers (bt_keys (doc_finalizers document)).
Proof. split; apply Hdoc. Qed.

Lemma condition_bounds c : cn_condition (common_node body) = Some c → condition_nodes c <= MAXIMUM_CONDITION_NODES.
Proof.
  intros Hc. pose proof (vd_conditions _ _ _ _ _ Hval) as (total & Hfold & _)%result_bind_Ok.
  assert (Hin : (n, rt_role d, Some c) ∈ document_conditions document).
  { pose proof (nf_body _ _ _ _ _ Hnode) as Hb. unfold node_body in Hb. unfold document_conditions. apply elem_of_app.
    destruct (bt_get (doc_steps document) n) as [step|] eqn:E.
    - injection Hb as <- <-. left. apply list_elem_of_fmap. exists (n, step). rewrite Hc. split; [done|by apply bt_get_elem_of].
    - apply fmap_Some in Hb as (f & Hf & [= -> ->]). right. apply list_elem_of_fmap. exists (n, f). rewrite Hc.
      split; [done|by apply bt_get_elem_of]. }
  destruct (try_fold_elem _ _ _ _ _ Hfold Hin) as (t1 & t2 & Ht). simpl in Ht.
  apply result_bind_Ok in Ht as (k & [-> Hk]%condition_node_count_Ok & _). done.
Qed.

Lemma target_typed values p t :
  predicate_typed document values p → t ∈ predicate_targets p → target_role document (node_id t) = Some (node_role t).
Proof.
  induction p as [l IH|l IH|q IH|l r|s|node dd] using predicate_nested_ind; cbn [predicate_typed predicate_targets];
    try (by intros _ ?%elem_of_nil).
  1,2: rewrite typed_children; intros Hl (q & Hq%list_elem_of_In & Ht%list_elem_of_In)%list_elem_of_In%in_flat_map;
    rewrite Forall_forall in IH, Hl; by apply (IH q); [|apply Hl|].
  - done.
  - by intros ? ->%list_elem_of_singleton.
Qed.

Lemma condition_validated p :
  rt_condition d = Some p → ∃ c, cn_condition (common_node body) = Some c ∧ condition_from c p.
Proof.
  intros Hp. pose proof (bf_condition _ _ _ _ _ _ (nf_facts _ _ _ _ _ Hnode)) as Hr.
  rewrite <-(nf_condition _ _ _ _ _ Hnode), <-(nf_values _ _ _ _ _ Hnode), Hp in Hr.
  destruct (cn_condition (common_node body)) as [c|] eqn:Hc; [|done]. exists c. split; [done|].
  apply result_bind_Ok in Hr as ([p' values] & Hres & Heq). injection Heq as -> Hvalues.
  destruct (resolve_condition_predicate_ok document document_identifiers n (rt_role d) c [] _ Hres) as [Hok Hnodes].
  pose proof (resolve_condition_targets _ _ _ _ _ _ Hres) as Htargets.
  pose proof (resolve_condition_wf _ _ _ _ _ _ Hres ltac:(constructor)) as Hwf.
  destruct Hok as (Hvok & _ & Htyped & Hfrom); [intros ??; done|]. cbn [fst snd] in *. rewrite Hvalues in *.
  split; [done|done|rewrite Hnodes; by apply condition_bounds| |].
  - intros t Ht. pose proof (target_typed _ _ _ Htyped Ht) as Hrole.
    assert (Hin : node_id t ∈ condition_targets c) by (rewrite <-Htargets; by apply list_elem_of_fmap_2).
    pose proof (res_targets _ _ _ _ _ _ (nf_resolved _ _ _ _ _ Hnode) c Hc) as Hauth. rewrite Forall_forall in Hauth.
    destruct (Hauth _ Hin) as (r & Hr & _ & Hphase). rewrite Hrole in Hr. injection Hr as <-. split_and!; [done..|].
    intros Heq. unfold requirements. rewrite Hc. apply elem_of_app. right. apply elem_of_app. left. simpl.
    apply target_requirement; congruence.
  - intros canonical source Hin%(bt_get_NoDup _ _ _ (bt_wf_NoDup _ Hwf)). split; [by apply Hvok|].
    destruct (Hfrom _ _ Hin) as [Hnil|?]; [discriminate Hnil|done].
Qed.

Lemma no_condition_no_values : rt_condition d = None → rt_condition_values d = [].
Proof.
  intros Hp. pose proof (bf_condition _ _ _ _ _ _ (nf_facts _ _ _ _ _ Hnode)) as Hr.
  rewrite <-(nf_condition _ _ _ _ _ Hnode), <-(nf_values _ _ _ _ _ Hnode), Hp in Hr.
  destruct (cn_condition (common_node body)) as [c|]; [|by injection Hr].
  by apply result_bind_Ok in Hr as ([p' values] & _ & Heq).
Qed.

End node.

(** ** Producers come first *)

(** The position of a node in the presentation order of its phase. *)
Definition position (order : list string) (n : string) : nat :=
  default 0 (fst <$> list_find (.= n) order).

Lemma position_lookup order k n : NoDup order → order !! k = Some n → position order n = k.
Proof.
  intros Hnd Hk. unfold position. destruct (list_find (.= n) order) as [[i m]|] eqn:Hf.
  - apply list_find_Some in Hf as (Hi & -> & _). simpl. by eapply NoDup_lookup.
  - exfalso. apply list_find_None in Hf. rewrite Forall_forall in Hf. eapply Hf; [by eapply list_elem_of_lookup_2|done].
Qed.

Definition rank (n : string) : nat :=
  match node_body document n with
  | Some (role, _) => position (vg_presentation_order (role_graph role)) n
  | None => 0
  end.

Lemma producer_rank n d p : bt_get (def_steps D) n = Some d → p ∈ rt_prerequisites d → rank (rdp_producer p) < rank n.
Proof.
  intros Hd Hp. destruct (node_from_definition n d Hd) as (body & control & v & Hn).
  destruct (prerequisite_required n d body control v Hn p Hp) as [_ Hkey].
  destruct (role_key_defined _ _ Hkey) as (d' & Hd' & Hrole).
  destruct (node_from_definition _ _ Hd') as (body' & control' & v' & Hn').
  unfold rank. rewrite (nf_body _ _ _ _ _ Hn), (nf_body _ _ _ _ _ Hn'), Hrole.
  assert (Hgraph : ∃ indices, greedy (vg_direct_prerequisites (role_graph (rt_role d))) indices
      (vg_presentation_order (role_graph (rt_role d)))
    ∧ vg_presentation_order (role_graph (rt_role d)) ≡ₚ role_keys document (rt_role d)).
  { destruct (rt_role d); eexists; (split; [eapply go_greedy|eapply go_order]); apply Hval. }
  destruct Hgraph as (indices & Hg & Hperm). set (g := role_graph (rt_role d)) in *.
  assert (n ∈ vg_presentation_order g) as [k Hk]%list_elem_of_lookup
    by (rewrite Hperm; eapply node_body_key; apply Hn).
  pose proof (greedy_topological _ _ _ _ _ Hg Hk (rdp_producer p)) as Hin.
  assert (rdp_producer p ∈ take k (vg_presentation_order g)) as (j & Hj & Hlt)%elem_of_take.
  { apply Hin. unfold producers. pose proof (nf_graph _ _ _ _ _ Hn) as Hps. unfold graph_prerequisites in Hps. fold g in Hps.
    unfold producers_of. rewrite <-Hps. by apply list_elem_of_fmap_2. }
  pose proof (greedy_NoDup _ _ _ Hg) as Hnd.
  by rewrite (position_lookup _ _ _ Hnd Hk), (position_lookup _ _ _ Hnd Hj).
Qed.
End workflow.

(** ** Admitted workflows *)

(** Admission resolves an input of the declared type for every declaration. *)
Definition input_matches (t : WorkflowValueType) (input : ResolvedInput) : bool :=
  match t, input with
  | TyText, InputText _ | TyJson, InputJson _ | TyFile, InputFile | TyAttachmentCollection, InputAttachments => true
  | _, _ => false
  end.

Definition inputs_admitted (admitted : AdmittedWorkflow) : Prop :=
  bt_wf (adm_inputs admitted)
  ∧ ∀ name t, bt_get (vw_required_inputs (adm_definition admitted)) name = Some t →
      ∃ input, bt_get (adm_inputs admitted) name = Some input ∧ input_matches t input = true.

Lemma bt_get_omap {A B} (f : A → option B) (m : btree A) k :
  NoDup (bt_keys m) → bt_get (omap (λ '(k, a), (λ b, (k, b)) <$> f a) m) k = bt_get m k ≫= f.
Proof.
  induction m as [|[k' a] m IH]; [done|]. intros Hnd. unfold bt_keys in Hnd. rewrite fmap_cons in Hnd.
  apply NoDup_cons in Hnd as [Hnin Hnd]. csimpl. case_decide as E.
  - subst k'. simpl. destruct (f a) eqn:Hf; simpl; [by rewrite decide_True|].
    rewrite IH by done. destruct (bt_get m k) eqn:Hk; [|done]. exfalso. apply Hnin, bt_get_is_Some. eauto.
  - destruct (f a); simpl; [rewrite decide_False by done|]; by apply IH.
Qed.

Definition input_text (input : ResolvedInput) : option string := match input with InputText v => Some v | _ => None end.
Definition input_json (input : ResolvedInput) : option Value := match input with InputJson v => Some v | _ => None end.

Lemma text_input_get admitted name :
  bt_wf (adm_inputs admitted) →
  bt_get (def_text_inputs (from_admitted admitted)) name = bt_get (adm_inputs admitted) name ≫= input_text.
Proof.
  intros Hw. rewrite <-(bt_get_omap input_text _ _ (bt_wf_NoDup _ Hw)). f_equal. simpl.
  apply list_omap_ext, Forall2_same_length_lookup. split; [done|]. intros i [k a] [k' b] H1 H2. rewrite H1 in H2. injection H2 as <- <-. by destruct a.
Qed.

Lemma json_input_get admitted name :
  bt_wf (adm_inputs admitted) →
  bt_get (def_json_inputs (from_admitted admitted)) name = bt_get (adm_inputs admitted) name ≫= input_json.
Proof.
  intros Hw. rewrite <-(bt_get_omap input_json _ _ (bt_wf_NoDup _ Hw)). f_equal. simpl.
  apply list_omap_ext, Forall2_same_length_lookup. split; [done|]. intros i [k a] [k' b] H1 H2. rewrite H1 in H2. injection H2 as <- <-. by destruct a.
Qed.

Section admitted.
Context (document : WorkflowDocument) (Hdoc : document_wf MAXIMUM_RETRIES document).
Context (profiles : btree ValidatedHarness) (steps finalizers : ValidatedGraph) (admitted : AdmittedWorkflow).
Context (Hval : validated_from document profiles steps finalizers (adm_definition admitted)).
Context (Hinputs : inputs_admitted admitted).

Local Abbreviation D := (from_admitted admitted).
Local Abbreviation D0 :=
  (from_workflow (adm_definition admitted) (adm_maximum_parallel_steps admitted) (adm_maximum_transitions admitted)).

Lemma node_source_schedulable n d source :
  bt_get (def_steps D) n = Some d → source ∈ bt_values (rt_condition_values d) → source_schedulable D d source.
Proof.
  intros Hd Hs. destruct (node_from_definition document Hdoc _ _ _ _ Hval (adm_maximum_parallel_steps admitted)
    (adm_maximum_transitions admitted) n d Hd) as (body & control & v & Hn).
  apply list_elem_of_fmap in Hs as ([canonical source'] & -> & Hin). simpl.
  destruct (rt_condition d) as [p|] eqn:Hp; [|rewrite (no_condition_no_values _ _ _ _ _ _ _ _ Hn Hp) in Hin; by apply elem_of_nil in Hin].
  destruct (condition_validated document Hdoc _ _ _ _ Hval n d body control v Hn p Hp) as (c & Hc & Hcf).
  destruct (cf_values _ _ _ _ _ _ Hcf _ _ Hin) as (Hcan & reference & t & Href & Hden & [kind Hkind]).
  pose proof (node_reference_authorised _ _ _ n d body control v Hn reference
    (condition_reference_node _ _ _ Hc Href)) as Hauth.
  destruct reference as [name|o|]; cbn [denotes] in Hden.
  - destruct Hden as [-> Ht]. split; [intros ? [= <-]|done|done]. destruct Hinputs as [Hw Hall].
    rewrite <-(vd_inputs _ _ _ _ _ Hval) in Ht. destruct (Hall _ _ Ht) as (input & Hi & Hm).
    unfold bt_contains_key. rewrite (text_input_get _ _ Hw), (json_input_get _ _ Hw), Hi. simpl.
    by destruct t, input; try discriminate Hkind; try discriminate Hm.
  - pose proof Hauth as (role & pbody & output & Hb & Ho & _ & _ & Hphase & _).
    destruct Hden as (role' & pbody' & output' & Hb' & Ho' & -> & ->). rewrite Hb in Hb'. injection Hb' as <- <-.
    destruct (node_defined_body document Hdoc _ _ _ _ Hval (adm_maximum_parallel_steps admitted)
      (adm_maximum_transitions admitted) _ _ _ Hb) as (d' & control' & v' & Hd' & Hrole & Hn').
    split; [done|done|intros ? [= <-]]. unfold output_source_reference. cbn [ros_node ros_output node_id]. split.
    + apply (evc_condition _ _ _ (evidence_of_node _ _ _ _ _ _ _ _ Hn) c o Hc Href).
      exact (proj1 (authorised_text document Hdoc _ _ _ _ Hval (adm_maximum_parallel_steps admitted)
        (adm_maximum_transitions admitted) n (rt_role d) o Hauth)).
    + exists d'. split; [done|]. rewrite Hrole. split; [done|]. intros Heq.
      assert (Hr : ReqData (or_node o) true ∈ requirements document (rt_role d) body control).
      { unfold requirements. rewrite Hc. apply elem_of_app. right. apply elem_of_app. left. simpl.
        by eapply condition_reference_requirement; [|rewrite Hb, Heq]. }
      destruct (requirement_prerequisite _ _ _ _ _ _ _ _ Hn _ Hr) as (q & Hq & Hreq & Hprod).
      exists q. split_and!; [done..|]. unfold required_prerequisite in Hreq. case_decide; [|done]. injection Hreq as <-.
      simpl. by apply bool_decide_eq_true.
  - destruct Hden as [-> _]. split; [done| |done]. intros _. exact Hauth.
Qed.

Lemma admitted_schedulable : 0 < adm_maximum_parallel_steps admitted → schedulable D.
Proof.
  intros Hpar. pose proof (validated_workflow_wf document Hdoc _ _ _ _ Hval) as HW.
  assert (Hfrom : ∀ n d, bt_get (def_steps D) n = Some d → ∃ body control v, node_from document steps finalizers n d body control v)
    by (intros n d; exact (node_from_definition document Hdoc _ _ _ _ Hval (adm_maximum_parallel_steps admitted)
         (adm_maximum_transitions admitted) n d)).
  split.
  - by apply from_admitted_wf.
  - exists (rank document steps finalizers). intros n d p Hd Hp.
    exact (producer_rank document Hdoc _ _ _ _ Hval (adm_maximum_parallel_steps admitted) (adm_maximum_transitions admitted) n d p Hd Hp).
  - intros n d p Hd Hp. destruct (Hfrom n d Hd) as (body & control & v & Hn).
    destruct (node_prerequisite_schedulable document Hdoc _ _ _ _ Hval (adm_maximum_parallel_steps admitted)
      (adm_maximum_transitions admitted) n d body control v Hn p Hp) as [? ? ? ?]. by split.
  - apply node_source_schedulable.
  - intros n d Hd. destruct (Hfrom n d Hd) as (body & control & v & Hn).
    destruct (evidence_of_node _ _ _ _ _ _ _ _ Hn). done.
  - intros name source Hin. simpl in Hin. apply list_elem_of_fmap in Hin as ([name' src] & [= -> ->] & Hin).
    assert (Hex : bt_wf (vw_exports (adm_definition admitted)))
      by (eapply entries_wf; [apply (vd_exports _ _ _ _ _ Hval)|apply Hdoc]).
    apply (bt_get_NoDup _ _ _ (bt_wf_NoDup _ Hex)) in Hin.
    destruct (entries_get_inv _ _ _ _ _ (vd_exports _ _ _ _ _ Hval) Hin) as (o & _ & Hr). unfold resolve_export in Hr.
    destruct (node_body document (or_node o)) as [[role body]|] eqn:Hb; [|done].
    destruct (bt_get (cn_outputs (common_node body)) (or_output o)) as [output|] eqn:Ho; [|done].
    case_decide; [done|]. destruct (_ && _); [done|]. injection Hr as <-. simpl.
    destruct (node_defined_body document Hdoc _ _ _ _ Hval (adm_maximum_parallel_steps admitted)
      (adm_maximum_transitions admitted) _ _ _ Hb) as (d' & control' & v' & Hd' & _ & Hn').
    exists d'. split; [done|]. by eapply (declared_output_listed document).
  - done.
Qed.
End admitted.
