(* ===== verification/FinishedRuns.v ===== *)
(** * The result of a finished run

    What the final state of a run and its log give the result: every node
    with its state, its times and its policy, and the accepted cancellation. *)

From S2P Require Import Prelude Text Nodes Evidence Condition Document Validated Failures Validation Runtime RunTiming Results Publication RunResults ValidDocuments Reducer Moves Refinement Views Stabilize Occurrences Runs Ceiling NodeSteps NodeInvariants Phases History Scheduling Containment Numbering Cancelling Outcomes Reasons Stops Endings ValidWorkflows.

(** ** Building a result, node by node

    The loops of [build_run_result] take the nodes of the presentation orders
    out of the maps one by one; as the orders name each node once, every node
    is read from the final state itself, and nothing is left exactly when the
    orders name every node. *)

Local Open Scope list_scope.

Lemma mapM_ext_in {A B} (f g : A → option B) l : (∀ y, y ∈ l → f y = g y) → mapM f l = mapM g l.
Proof.
  induction l as [|y l IH]; intros Hfg; [done|]. cbn [mapM]. rewrite (Hfg y) by by left. rewrite IH; [done|].
  intros z Hz. apply Hfg. by right.
Qed.

Section building.
Context `{!TimeLibrary, !Base64, !TimeDifference} {Output Deadline : Type} (deadline_utc : Deadline → OffsetDateTime).

Implicit Types (W : ValidatedWorkflow) (evidence : LocalRunEvidence).

Local Abbreviation Remaining :=
  (gmap string (StepState Output) * gmap string (option (StepRecoveryState StepFailureCause)))%type.

Definition take_nodes (remaining : Remaining) (ids : list string) : Remaining := foldl take_node remaining ids.

Lemma take_nodes_dom ids (remaining : Remaining) :
  dom (take_nodes remaining ids).1 = dom remaining.1 ∖ (list_to_set ids : gset string)
  ∧ dom (take_nodes remaining ids).2 = dom remaining.2 ∖ (list_to_set ids : gset string).
Proof.
  revert remaining. induction ids as [|id ids IH]; intros [states recoveries]; simpl; [split; set_solver|].
  destruct (IH (take_node (states, recoveries) id)) as [Hs Hr]. unfold take_nodes in *. rewrite Hs, Hr. simpl.
  rewrite !dom_delete_L. split; set_solver.
Qed.

Lemma run_step_value_take W evidence (remaining : Remaining) id id' :
  id' ≠ id → run_step_value W evidence (take_node remaining id) id' = run_step_value W evidence remaining id'.
Proof. intros Hne. unfold run_step_value, take_node. simpl. by rewrite !lookup_delete_ne by done. Qed.

Lemma run_step_results_eq W evidence ids (remaining : Remaining) :
  NoDup ids →
  run_step_results W evidence ids remaining
  = steps ← mapM (run_step_value W evidence remaining) ids; Some (steps, take_nodes remaining ids).
Proof.
  intros Hnd. revert remaining. induction Hnd as [|id ids Hid Hnd IH]; intros remaining; [done|]. cbn [run_step_results].
  rewrite IH. replace (mapM (run_step_value W evidence (take_node remaining id)) ids)
    with (mapM (run_step_value W evidence remaining) ids).
  - cbn [mapM]. destruct (run_step_value W evidence remaining id); simpl; [|done].
    by destruct (mapM (run_step_value W evidence remaining) ids).
  - apply mapM_ext_in. intros id' Hin. symmetry. apply run_step_value_take. by intros ->.
Qed.

Definition take_summaries (retained : btree FinalizerResult) (ids : list string) : btree FinalizerResult :=
  foldl take_summary retained ids.

Lemma take_summary_get retained id id' :
  bt_get (take_summary retained id) id' = if decide (id' = id) then None else bt_get retained id'.
Proof.
  induction retained as [|[k v] retained IH]; simpl; [by case_decide|].
  case_bool_decide as Hk; simpl; rewrite IH; repeat case_decide; by simplify_eq.
Qed.

Lemma take_summary_keys retained id k : k ∈ bt_keys (take_summary retained id) ↔ k ≠ id ∧ k ∈ bt_keys retained.
Proof. rewrite <-!bt_get_is_Some, take_summary_get. case_decide; [split; [by intros []|by intros [[] _]]|naive_solver]. Qed.

Lemma take_summaries_keys ids retained k :
  k ∈ bt_keys (take_summaries retained ids) ↔ k ∉ ids ∧ k ∈ bt_keys retained.
Proof.
  revert retained. induction ids as [|id ids IH]; intros retained; simpl; [set_solver|].
  unfold take_summaries in *. rewrite IH, take_summary_keys. set_solver.
Qed.

Lemma run_finalizer_value_take W evidence (remaining : Remaining) retained id id' :
  id' ≠ id →
  run_finalizer_value W evidence (take_node remaining id) (take_summary retained id) id'
  = run_finalizer_value W evidence remaining retained id'.
Proof.
  intros Hne. unfold run_finalizer_value, take_node. cbn [fst snd]. rewrite take_summary_get, decide_False by done.
  by rewrite !lookup_delete_ne by done.
Qed.

Lemma run_finalizer_results_eq W evidence ids (remaining : Remaining) retained :
  NoDup ids →
  run_finalizer_results W evidence ids remaining retained
  = finalizers ← mapM (run_finalizer_value W evidence remaining retained) ids;
    Some (finalizers, (take_nodes remaining ids, take_summaries retained ids)).
Proof.
  intros Hnd. revert remaining retained. induction Hnd as [|id ids Hid Hnd IH]; intros remaining retained; [done|].
  cbn [run_finalizer_results]. rewrite IH.
  replace (mapM (run_finalizer_value W evidence (take_node remaining id) (take_summary retained id)) ids)
    with (mapM (run_finalizer_value W evidence remaining retained) ids).
  - cbn [mapM]. destruct (run_finalizer_value W evidence remaining retained id); simpl; [|done].
    by destruct (mapM (run_finalizer_value W evidence remaining retained) ids).
  - apply mapM_ext_in. intros id' Hin. symmetry. apply run_finalizer_value_take. by intros ->.
Qed.

(** ** The nodes of a result *)

(** A node of the result is the node of the final state. *)
Record node_reported W evidence (remaining : Remaining) (role : WorkflowNodeRole) (id : string)
    (step : WorkflowRunStep Output) : Prop := {
  nr_id : wrs_id step = id;
  nr_role : wrs_role step = role;
  nr_state : remaining.1 !! id = Some (wrs_state step);
  nr_timing : node_timing (le_timing evidence) id = Some (wrs_timing step);
  nr_kind : (match role with
             | RoleStep => kind_and_policy <$> bt_get (vw_steps W) id
             | RoleFinalizer => finalizer_kind_and_policy W id
             end) = Some (wrs_kind step, wrs_failure_policy step);
  nr_output : wrs_command_output step = node_command_output evidence (wrs_kind step) id
}.

Lemma run_step_value_reported W evidence (remaining : Remaining) id step :
  run_step_value W evidence remaining id = Some step → node_reported W evidence remaining RoleStep id step.
Proof.
  unfold run_step_value. intros (state & Hs & (timing & Ht & (v & Hv & Hrest)%bind_Some)%bind_Some)%bind_Some.
  apply bind_Some in Hrest as (recovery_state & _ & (recovery & _ & (invocations & _ & [= <-])%bind_Some)%bind_Some).
  split; simpl; try done. rewrite Hv. simpl. by destruct (kind_and_policy v).
Qed.

Lemma run_finalizer_value_reported W evidence (remaining : Remaining) retained id step :
  run_finalizer_value W evidence remaining retained id = Some step → node_reported W evidence remaining RoleFinalizer id step.
Proof.
  unfold run_finalizer_value. intros (state & Hs & (summarized & _ & (policy & _ & Hrest)%bind_Some)%bind_Some)%bind_Some.
  destruct (bool_decide _ && _); [|done].
  apply bind_Some in Hrest as (timing & Ht & (kind_policy & Hk & (recovery & _ & Hrest)%bind_Some)%bind_Some).
  destruct recovery; [done|]. apply bind_Some in Hrest as (invocations & _ & [= <-]).
  split; simpl; try done. rewrite Hk. by destruct kind_policy.
Qed.

Lemma take_nodes_lookup ids (remaining : Remaining) id :
  (take_nodes remaining ids).1 !! id = (if decide (id ∈ ids) then None else remaining.1 !! id)
  ∧ (take_nodes remaining ids).2 !! id = (if decide (id ∈ ids) then None else remaining.2 !! id).
Proof.
  revert remaining. induction ids as [|id' ids IH]; intros [states recoveries]; [done|]. cbn [take_nodes foldl fst snd].
  unfold take_nodes in *. destruct (IH (take_node (states, recoveries) id')) as [-> ->]. cbn [take_node fst snd].
  destruct (decide (id = id')) as [->|Hne].
  - rewrite !lookup_delete_eq. destruct (decide (id' ∈ id' :: ids)) as [_|Hno]; [|by destruct Hno; left].
    by destruct (decide (id' ∈ ids)).
  - rewrite !lookup_delete_ne by done. destruct (decide (id ∈ ids)), (decide (id ∈ id' :: ids)); set_solver.
Qed.

Lemma node_reported_taken W evidence (remaining : Remaining) ids role id step :
  node_reported W evidence (take_nodes remaining ids) role id step → node_reported W evidence remaining role id step.
Proof.
  intros [? ? Hs ? ? ?]. split; try done. rewrite (proj1 (take_nodes_lookup ids remaining id)) in Hs. by case_decide.
Qed.

(** What a result has of the execution it was built from. *)
Record result_reports W evidence (execution : WorkflowExecutionResult StepFailureCause Output Deadline)
    (run : WorkflowRunResult Output) : Prop := {
  rr_steps : Forall2 (node_reported W evidence (er_steps execution, er_recoveries execution) RoleStep)
               (vw_presentation_order W) (wr_steps run);
  rr_cancellation :
    run_cancellation (er_outcome execution) (rts_cancellation (le_timing evidence)) = Some (wr_cancellation run);
  rr_outcome : wr_outcome run = er_outcome execution;
  rr_force_abort : wr_force_abort run = er_force_abort execution;
  rr_finalization :
    match er_finalization_summary execution with
    | None => wr_finalization run = None
    | Some summary =>
        ∃ f, wr_finalization run = Some f ∧ wrf_trigger f = fs_trigger summary
          ∧ Forall2 (node_reported W evidence (er_steps execution, er_recoveries execution) RoleFinalizer)
              (vw_finalizer_presentation_order W) (wrf_finalizers f)
          ∧ wrf_cancellation f = run_finalization_cancellation deadline_utc <$> fs_cancellation summary
          ∧ wrf_force_abort f = fs_force_abort summary
    end
}.

Lemma build_run_result_reports W admission execution evidence run_timing local_run run :
  NoDup (vw_presentation_order W) → NoDup (vw_finalizer_presentation_order W) →
  build_run_result deadline_utc W admission execution evidence run_timing local_run = Some run →
  result_reports W evidence execution run.
Proof.
  intros Hnd Hndf. unfold build_run_result. rewrite run_step_results_eq by done.
  intros (continuation & _ & (cancellation & Hc & Hrest)%bind_Some)%bind_Some.
  apply bind_Some in Hrest as ([steps remaining] & Hsteps & Hrest).
  apply bind_Some in Hsteps as (steps' & Hsteps & [= <- <-]).
  apply bind_Some in Hrest as ([finalization remaining'] & Hfin & Hrest).
  destruct (bool_decide _ && _); [|done]. injection Hrest as <-. split; simpl; try done.
  - apply mapM_Some_1 in Hsteps. eapply Forall2_impl; [exact Hsteps|]. intros id step. apply run_step_value_reported.
  - unfold run_finalization in Hfin. destruct (vw_finalizers W) as [|first rest], (er_finalization_summary execution) as [summary|];
      try done; [by injection Hfin as <- _|].
    rewrite run_finalizer_results_eq in Hfin by done. apply bind_Some in Hfin as ([finalizers left] & Hf & Hfin).
    apply bind_Some in Hf as (finalizers' & Hf & [= <- <-]). case_bool_decide; [|done]. injection Hfin as <- _.
    eexists. split; [done|]. simpl. split_and!; try done. apply mapM_Some_1 in Hf. eapply Forall2_impl; [exact Hf|].
    intros id step Hv. eapply node_reported_taken, run_finalizer_value_reported, Hv.
Qed.

(** ** When the result can be built *)

Lemma build_run_result_some W admission (execution : WorkflowExecutionResult StepFailureCause Output Deadline) evidence run_timing local_run continuation cancellation :
  NoDup (vw_presentation_order W) → NoDup (vw_finalizer_presentation_order W) →
  (∀ id, id ∈ vw_presentation_order W → id ∉ vw_finalizer_presentation_order W) →
  lr_continuation_record local_run = Some continuation →
  run_cancellation (er_outcome execution) (rts_cancellation (le_timing evidence)) = Some cancellation →
  (∀ id, id ∈ vw_presentation_order W →
     is_Some (run_step_value W evidence (er_steps execution, er_recoveries execution) id)) →
  (match er_finalization_summary execution with
   | None => vw_finalizers W = [] ∧ vw_finalizer_presentation_order W = []
   | Some summary =>
       vw_finalizers W ≠ []
       ∧ fr_finalizer <$> fs_finalizers summary = vw_finalizer_presentation_order W
       ∧ ∀ id, id ∈ vw_finalizer_presentation_order W →
           is_Some (run_finalizer_value W evidence (er_steps execution, er_recoveries execution)
             (bt_collect ((λ finalizer, (fr_finalizer finalizer, finalizer)) <$> fs_finalizers summary)) id)
   end) →
  (∀ id, is_Some (er_steps execution !! id) ∨ is_Some (er_recoveries execution !! id) →
     id ∈ vw_presentation_order W ++ vw_finalizer_presentation_order W) →
  is_Some (build_run_result deadline_utc W admission execution evidence run_timing local_run).
Proof.
  intros Hnd Hndf Hdisj Hcont Hcanc Hsteps Hfin Hall.
  set (remaining := (er_steps execution, er_recoveries execution)) in *.
  destruct (mapM_is_Some_2 (run_step_value W evidence remaining) (vw_presentation_order W)) as [steps Hs].
  { apply Forall_forall. exact Hsteps. }
  assert (Hempty : ∀ remaining', remaining' = take_nodes remaining (vw_presentation_order W ++ vw_finalizer_presentation_order W) →
    bool_decide (dom remaining'.1 = (∅ : gset string)) && bool_decide (dom remaining'.2 = (∅ : gset string)) = true).
  { intros remaining' ->. destruct (take_nodes_dom (vw_presentation_order W ++ vw_finalizer_presentation_order W) remaining) as [-> ->].
    rewrite !bool_decide_true; [done| |]; apply leibniz_equiv; intros id; rewrite elem_of_difference, elem_of_dom, elem_of_list_to_set;
      simpl; split; [by intros [? []]; apply Hall; auto|set_solver|by intros [? []]; apply Hall; auto|set_solver]. }
  unfold build_run_result. rewrite Hcont, Hcanc. fold remaining. cbn [mbind option_bind].
  rewrite run_step_results_eq, Hs by done. cbn [mbind option_bind].
  unfold run_finalization. destruct (er_finalization_summary execution) as [summary|].
  - destruct Hfin as (Hne & Hids & Hvals). destruct (vw_finalizers W) as [|first rest]; [done|].
    rewrite run_finalizer_results_eq by done. set (retained := bt_collect _) in *.
    destruct (mapM_is_Some_2 (run_finalizer_value W evidence (take_nodes remaining (vw_presentation_order W)) retained)
      (vw_finalizer_presentation_order W)) as [finalizers Hf].
    { apply Forall_forall. intros id Hid. destruct (Hvals id Hid) as [v Hv]. exists v. rewrite <-Hv.
      unfold run_finalizer_value. destruct (take_nodes_lookup (vw_presentation_order W) remaining id) as [-> ->].
      rewrite !decide_False; [done|intros Hin; by apply (Hdisj id)..]. }
    rewrite Hf. cbn [mbind option_bind]. rewrite bool_decide_true.
    + cbn [mbind option_bind]. rewrite Hempty; [by eexists|]. unfold take_nodes. by rewrite foldl_app.
    + destruct (take_summaries retained (vw_finalizer_presentation_order W)) as [|[k v] l] eqn:Hl; [done|exfalso].
      assert (Hk : k ∈ bt_keys (take_summaries retained (vw_finalizer_presentation_order W)))
        by (rewrite Hl; left).
      apply take_summaries_keys in Hk as [Hk1 Hk2]. apply Hk1. rewrite <-Hids. unfold retained in Hk2.
      assert (Hkeys : bt_keys ((λ finalizer, (fr_finalizer finalizer, finalizer)) <$> fs_finalizers summary)
        = fr_finalizer <$> fs_finalizers summary) by (unfold bt_keys; by rewrite <-list_fmap_compose).
      rewrite <-bt_get_is_Some, bt_get_collect, bt_get_is_Some, Hkeys in Hk2; [exact Hk2|].
      rewrite Hkeys, Hids. exact Hndf.
  - destruct Hfin as [-> Hnil]. cbn [mbind option_bind]. rewrite Hempty; [by eexists|]. by rewrite Hnil, app_nil_r.
Qed.
End building.

Local Open Scope list_scope.

(** ** Workflows with their presentation *)

Record presented (W : ValidatedWorkflow) : Prop := {
  pw_wf : validated_wf W;
  pw_steps : vw_presentation_order W ≡ₚ bt_keys (vw_steps W);
  pw_finalizers : vw_finalizer_presentation_order W ≡ₚ bt_keys (vw_finalizers W)
}.

Lemma validated_presented `{!HarnessDecoder} document W :
  document_wf MAXIMUM_RETRIES document → validate document = Ok W → presented W.
Proof.
  intros Hdoc Hvalid. destruct (validate_inv _ _ _ Hdoc Hvalid) as (profiles & steps & finalizers & Hval).
  split.
  - exact (validated_workflow_wf document Hdoc _ _ _ _ Hval).
  - rewrite (vd_presentation _ _ _ _ _ Hval), (entries_keys _ _ _ (vd_steps _ _ _ _ _ Hval)).
    apply (go_order _ _ _ _ (vd_step_graph _ _ _ _ _ Hval)).
  - rewrite (vd_finalizer_presentation _ _ _ _ _ Hval), (entries_keys _ _ _ (vd_finalizers _ _ _ _ _ Hval)).
    apply (go_order _ _ _ _ (vd_finalizer_graph _ _ _ _ _ Hval)).
Qed.

Lemma presented_orders W :
  presented W →
  NoDup (vw_presentation_order W) ∧ NoDup (vw_finalizer_presentation_order W)
  ∧ ∀ id, id ∈ vw_presentation_order W → id ∉ vw_finalizer_presentation_order W.
Proof.
  intros [Hwf Hs Hf]. split_and!.
  - rewrite Hs. apply bt_wf_NoDup, Hwf.
  - rewrite Hf. apply bt_wf_NoDup, Hwf.
  - intros id. rewrite Hs, Hf. intros H1 H2. by eapply (vwf_disjoint _ Hwf).
Qed.

(** ** The phase of a recorded failure *)

Lemma step_failure_phase_law : failure_phase_law (Cause := StepFailureCause).
Proof.
  intros cause phase detail. unfold node_failure_detail, step_failure_source, failure_detail.
  intros (detail' & Hd & (() & _ & [= <-])%result_bind_Ok)%result_bind_Ok.
  destruct phase, cause as [source|source|source| ]; try done; simpl in Hd.
  - unfold start_failure_detail in Hd. apply result_bind_Ok in Hd as (() & _ & [= <-]). by destruct source.
  - injection Hd as <-. destruct source as [[]| |]; done.
  - injection Hd as <-. by destruct source.
Qed.

Section finished.
Context {Provisional Output Deadline : Type}.
Context `{!SerdeJson, !ConditionOutput Output, !ProvisionalStepResources Provisional}.
Context `{!TimeLibrary, !Base64, !TimeDifference} (deadline_utc : Deadline → OffsetDateTime) (opened : ObservationTime).

Local Abbreviation State := (RuntimeState StepFailureCause Output Deadline).
Local Abbreviation Event := (TransitionEvent Deadline).

Implicit Types (st : State) (admitted : AdmittedWorkflow) (evidence : LocalRunEvidence) (h : list Event).

(** ** The observed cancellation *)

Lemma observed_cancellation (log : list (Event * ObservationTime)) :
  fst <$> rts_cancellation (observed deadline_utc opened log) = accepted log.*1.
Proof.
  induction log as [|[e at_time] log IH] using rev_ind; [done|]. rewrite observed_snoc, fmap_app, accepted_app, <-IH.
  destruct e as [n s role policy from to|n from to|n reason deadline|n reason deadline|n reason phase].
  - rewrite (proj1 (record_step_rest _ _ _ _ _ _ _ _ _)). by destruct (rts_cancellation _).
  - unfold record. destruct (terminal_workflow to); simpl; by destruct (rts_cancellation _).
  - simpl. by destruct (rts_cancellation _).
  - simpl. by destruct (rts_cancellation _).
  - simpl. by destruct (rts_cancellation _).
Qed.

(** The observation of a run starts when its execution does, and then sees
    every transition. *)
Definition times_log evidence h : Prop :=
  ∃ started (log : list (Event * ObservationTime)), log.*1 = h
    ∧ le_timing evidence = foldl (observe deadline_utc) (mark_execution_started started (timing_new opened)) log.

Lemma observe_started timing started (entry : Event * ObservationTime) :
  observe deadline_utc (mark_execution_started started timing) entry
  = mark_execution_started started (observe deadline_utc timing entry).
Proof.
  destruct entry as [e at_time]. unfold observe. destruct (observation_needs_timing_sample e); [|done].
  destruct e as [n s role policy from to|n from to|n reason deadline|n reason deadline|n reason phase]; simpl; try done.
  - case_decide; [by destruct (rts_steps timing !! s)|]. destruct (finishing_kind to); [|done]. by destruct (rts_steps timing !! s).
  - by destruct (terminal_workflow to).
Qed.

Lemma times_observed evidence h :
  times_log evidence h → ∃ started (log : list (Event * ObservationTime)), log.*1 = h
    ∧ le_timing evidence = mark_execution_started started (observed deadline_utc opened log).
Proof.
  intros (started & log & Hlog & Htiming). exists started, log. split; [done|]. rewrite Htiming. clear Hlog Htiming. unfold observed.
  generalize (timing_new opened). induction log as [|e log IH]; intros timing; [done|]. simpl. by rewrite observe_started, IH.
Qed.

(** The end of a run is in its log. *)
Definition ending_event (e : Event) : bool := match e with EvWorkflow _ _ to => terminal_workflow to | _ => false end.

Lemma history_ended D (seed : ExecutionSeed Output) h st :
  definition_wf D → history (Provisional := Provisional) (Cause := StepFailureCause) D seed h st →
  is_finished (rs_workflow st) = true → existsb ending_event h = true.
Proof.
  intros HD Hrec. apply (history_invariant (λ h st, is_finished (rs_workflow st) = true → existsb ending_event h = true) D seed h st);
    [done| |done|done].
  intros h' r r' Hm Hwf _ IH Hfin. destruct (move_changed _ _ Hwf Hm) as [Hn|[_ (es & -> & Hrun)]].
  - destruct Hn as (s & d & x & y & _ & _ & _ & Hw & _ & _ & _ & es & -> & _). rewrite app_assoc, existsb_app, IH; [done|].
    apply after_node_cases in Hw as [Hw|[(? & _ & Hw)|(? & _ & Hw)]]; rewrite Hw in Hfin; done.
  - rewrite app_assoc, existsb_app. destruct (is_finished (rs_workflow (rd_state r))) eqn:Hbefore; [by rewrite IH|].
    apply orb_true_intro. right.
    destruct Hrun as [Hw|outcome f n to _ _ _ _ Hentry _ _ _ Hto|outcome summary exports n to _ _ Hw _ _ _ _ Hto
      |gate reason prior n deadline _ _ Hw|trigger issue reason deadline n _ Hw|gate n _ _ Hw|trigger gate issue n _ _ Hw];
      try (rewrite Hw in Hfin; simpl in Hfin; congruence); simpl.
    + unfold finalization_entry in Hentry. injection Hentry as Hw _. rewrite Hw in Hfin. done.
    + subst to. rewrite Hw. by destruct outcome.
Qed.

Lemma observed_ended (log : list (Event * ObservationTime)) :
  existsb ending_event log.*1 = true → is_Some (rts_terminal (observed deadline_utc opened log)).
Proof.
  induction log as [|[e at_time] log IH] using rev_ind; [done|].
  rewrite observed_snoc, fmap_app, existsb_app. intros [Hend|Hend]%orb_prop.
  - specialize (IH Hend). destruct e as [n s role policy from to|n from to|n reason deadline|n reason deadline|n reason phase].
    + by rewrite (proj2 (record_step_rest _ _ _ _ _ _ _ _ _)).
    + unfold record. destruct (terminal_workflow to); [|done]. simpl. destruct IH as [x ->]. by eexists.
    + done.
    + done.
    + done.
  - simpl in Hend. rewrite orb_false_r in Hend. destruct e as [|n from to| | |]; try done. simpl in Hend. unfold record. rewrite Hend. simpl.
    by destruct (rts_terminal _); eexists.
Qed.

Lemma history_seed D (seed : ExecutionSeed Output) h st :
  history (Provisional := Provisional) (Cause := StepFailureCause) D seed h st → seed_wf D seed.
Proof. by induction 1. Qed.

Section run.
Context admitted (seed : ExecutionSeed Output) h st.
Local Abbreviation W := (adm_definition admitted).
Local Abbreviation D := (from_admitted admitted).
Hypothesis Hpres : presented W.
Hypothesis Hmax : (adm_maximum_transitions admitted < 2 ^ 63)%N.
Hypothesis Hhist : history (Provisional := Provisional) D seed h st.
Hypothesis Hfinished : is_finished (rs_workflow st) = true.

Lemma run_definition_wf : definition_wf D.
Proof. apply from_admitted_wf, Hpres. Qed.

Lemma run_wf : wf st ∧ rs_definition st = D.
Proof. apply (reachable_wf D st run_definition_wf (history_reachable _ _ _ _ Hhist)). Qed.

Lemma run_state_ok : run_ok h st.
Proof. by eapply history_run_ok; [apply run_definition_wf| |]. Qed.

Lemma run_ending_ok : ending_ok st.
Proof. eapply history_ending_ok; [apply run_definition_wf|done]. Qed.

Lemma run_terminal s d x : node_at st s d x → is_terminal (ss_state x) = true.
Proof.
  intros Hat. pose proof (run_phase _ _ run_state_ok) as Hph. unfold phase_ok in Hph.
  destruct (rs_workflow st); try done; destruct Hph as (Hsteps & Hfinalizers & _), (rt_role d) eqn:Hrole;
    first [by eapply Hsteps|by eapply Hfinalizers].
Qed.

(** The nodes of the workflow in the final state. *)
Lemma step_node id :
  id ∈ vw_presentation_order W →
  ∃ step x, bt_get (vw_steps W) id = Some step
    ∧ node_at st id (runtime_step RoleStep step (mjoin (bt_get (vw_recoveries W) id)) []) x.
Proof.
  rewrite (pw_steps _ Hpres). intros [step Hstep]%bt_get_is_Some. destruct run_wf as [[_ Hdef] HD].
  assert (Hd : def_step st id = Some (runtime_step RoleStep step (mjoin (bt_get (vw_recoveries W) id)) [])).
  { unfold def_step. rewrite HD. cbn [from_admitted def_steps]. rewrite (def_steps_lookup _ _ _ (pw_wf _ Hpres)). by rewrite Hstep. }
  destruct (proj2 (Hdef id)) as [x Hx]; [eauto|]. exists step, x. by split_and!.
Qed.

Lemma finalizer_node id :
  id ∈ vw_finalizer_presentation_order W →
  ∃ finalizer x, bt_get (vw_finalizers W) id = Some finalizer ∧ node_at st id (runtime_finalizer finalizer) x.
Proof.
  rewrite (pw_finalizers _ Hpres). intros Hin. pose proof Hin as [finalizer Hf]%bt_get_is_Some.
  destruct run_wf as [[_ Hdef] HD].
  assert (Hd : def_step st id = Some (runtime_finalizer finalizer)).
  { unfold def_step. rewrite HD. cbn [from_admitted def_steps]. rewrite (def_steps_lookup _ _ _ (pw_wf _ Hpres)).
    destruct (bt_get (vw_steps W) id) eqn:Hs; [exfalso|by rewrite Hf].
    eapply (vwf_disjoint _ (pw_wf _ Hpres)); [apply bt_get_is_Some; eauto|done]. }
  destruct (proj2 (Hdef id)) as [x Hx]; [eauto|]. exists finalizer, x. by split_and!.
Qed.

Lemma run_node id : is_Some (rs_steps st !! id) → id ∈ vw_presentation_order W ++ vw_finalizer_presentation_order W.
Proof.
  destruct run_wf as [[_ Hdef] HD]. intros Hx. apply Hdef in Hx as [d Hd]. unfold def_step in Hd. rewrite HD in Hd.
  cbn [from_admitted def_steps] in Hd. rewrite (def_steps_lookup _ _ _ (pw_wf _ Hpres)) in Hd.
  rewrite (pw_steps _ Hpres), (pw_finalizers _ Hpres). apply elem_of_app. rewrite <-!bt_get_is_Some.
  destruct (bt_get (vw_steps W) id); [left; eauto|right]. destruct (bt_get (vw_finalizers W) id); [eauto|done].
Qed.

(** ** Times *)

Lemma timed_node evidence s d x :
  times_log evidence h → node_at st s d x →
  ∃ timing, node_timing (le_timing evidence) s = Some timing
    ∧ (match ss_state x with
       | SSucceeded _ => is_Some timing
       | SFailed detail => is_Some timing ↔ fd_phase detail ≠ PhaseCondition
       | SCancelled _ => True
       | _ => timing = None
       end).
Proof.
  intros (started & log & Hlog & Htiming)%times_observed Hat.
  pose proof (history_timing step_failure_phase_law deadline_utc opened D seed h st run_definition_wf Hhist log Hlog s d x Hat) as Ht.
  pose proof (run_terminal s d x Hat) as Hterm. unfold node_timing. rewrite Htiming.
  change (rts_steps (mark_execution_started ?t ?o)) with (rts_steps o).
  set (entry := rts_steps _ !! s) in *. clearbody entry.
  assert (Hended : ended entry → ∃ timing, match entry with
    | None => Some None
    | Some times => ost_finished times ≫= λ finished,
        Some (Some {| wst_started_at := obs_utc (ost_started times);
                      wst_duration := saturating_duration_since finished (obs_monotonic (ost_started times)) |})
    end = Some timing ∧ is_Some timing).
  { intros (times & -> & finished & ->). simpl. eauto. }
  destruct (ss_state x) as [| | | | | |outputs|inh disp outputs|detail|detail|detail|detail|detail]; try done; simpl in Ht.
  - by apply Hended.
  - subst entry. eauto.
  - case_decide as Hphase; [subst entry; eexists; split; [done|]; split; [by intros []|done]|].
    destruct (Hended Ht) as (timing & ? & ?). exists timing. split; [done|]. by split.
  - subst entry. eauto.
  - subst entry. eauto.
  - subst entry. eauto.
  - destruct Ht as [->|Ht%Hended]; [eauto|]. destruct Ht as (timing & ? & _). eauto.
Qed.

(** ** The cancellation *)

Lemma final_outcome_ended : final_outcome (rs_workflow st) = Moves.run_outcome <$> ended_outcome (rs_workflow st).
Proof. by destruct (rs_workflow st). Qed.

Lemma ended_finished : is_Some (ended_outcome (rs_workflow st)).
Proof. destruct (rs_workflow st); try done; by eexists. Qed.

(** An accepted cancellation of the ordinary steps is in the outcome. *)
Lemma outcome_reason reason outcome :
  ordinary_reason st = Some reason → ended_outcome (rs_workflow st) = Some outcome →
  retained_by_outcome (Moves.run_outcome outcome) reason = true.
Proof.
  intros Hreason Hout. destruct (run_outcome_ok _ _ run_state_ok) as (_ & _ & Hended).
  assert (Hend : ended_ok st) by (destruct (rs_workflow st); done). unfold ended_ok in Hend.
  unfold ordinary_reason, ordinary_result in Hreason. destruct (rs_finalization st) as [f|].
  - destruct Hend as (_ & issue & Hc & _). rewrite Hout in Hc. injection Hc as ->.
    destruct (fnr_ordinary_outcome f) as [|primary [later|]|cancelled]; simplify_eq/=; by rewrite bool_decide_true.
  - replace (is_executing (rs_workflow st)) with false in Hreason by by destruct (rs_workflow st).
    rewrite Hout in Hreason. simpl in Hreason. destruct outcome as [|primary [later|]|cancelled]; simplify_eq/=;
      by rewrite bool_decide_true.
Qed.

Lemma run_cancellation_some evidence outcome :
  times_log evidence h → ended_outcome (rs_workflow st) = Some outcome →
  ∃ cancellation, run_cancellation (Moves.run_outcome outcome) (rts_cancellation (le_timing evidence)) = Some cancellation
    ∧ wrc_reason <$> cancellation = accepted h.
Proof.
  intros (started & log & Hh & ->)%times_observed Hout. pose proof (observed_cancellation log) as Hobs. rewrite Hh in Hobs.
  pose proof (run_log _ _ run_state_ok) as Hlog.
  change (rts_cancellation (mark_execution_started ?t ?o)) with (rts_cancellation o).
  destruct (rts_cancellation (observed deadline_utc opened log)) as [[reason deadline]|]; simpl in *; [|eauto].
  unfold log_ok in Hlog. rewrite <-Hobs in Hlog. rewrite (outcome_reason reason outcome Hlog Hout). by eexists.
Qed.

(** ** The nodes of the result *)

(** What the adapters kept of recoveries and invocations can be reported. *)
Definition recoveries_kept evidence : Prop :=
  ∀ id x, rs_steps st !! id = Some x →
    ∃ summary, step_recovery_summary_v1 (ss_recovery x) = Ok summary
      ∧ ∀ kind, is_Some (node_invocations evidence (bool_decide (is_Some summary)) kind id).

Local Abbreviation final_nodes := (ss_state <$> rs_steps st, ss_recovery <$> rs_steps st).

Lemma step_value evidence id :
  times_log evidence h → recoveries_kept evidence → id ∈ vw_presentation_order W →
  is_Some (run_step_value W evidence final_nodes id).
Proof.
  intros Htimes Hrec (step & x & Hstep & Hat)%step_node.
  destruct (timed_node evidence id _ x Htimes Hat) as (timing & Ht & _). destruct Hat as [Hx _].
  destruct (Hrec id x Hx) as (summary & Hsum & Hinv). destruct (Hinv (kind_and_policy step).1) as [invocations Hi].
  unfold run_step_value. cbn [fst snd]. rewrite !lookup_fmap, Hx. simpl. rewrite Ht. simpl. rewrite Hstep. simpl.
  rewrite Hsum. simpl. rewrite Hi. by eexists.
Qed.

Lemma finalizer_erased id d x :
  node_at st id d x → rt_role d = RoleFinalizer →
  ∃ disposition, erase_outputs (ss_state x) = Some disposition ∧ summary_disposition_matches disposition (ss_state x) = true.
Proof.
  intros Hat Hrole. pose proof (run_terminal id d x Hat) as Hterm.
  pose proof (history_inherited D seed h st run_definition_wf Hhist id d x Hat) as Hin. unfold inherited_from in Hin.
  destruct (ss_state x) as [| | | | | |outputs|inh disp outputs|detail|detail|detail|detail|detail]; try done;
    try (eexists; split; [done|]; simpl; by rewrite ?bool_decide_true).
  destruct Hin as (v & Hv & _). pose proof (history_seed _ _ _ _ Hhist) as Hseed.
  destruct (Hseed id v Hv) as (d' & Hd' & Hrole'). destruct Hat as [_ Hd]. unfold def_step in Hd.
  rewrite (proj2 run_wf) in Hd. congruence.
Qed.

Definition finalizer_summary (id : string) : option FinalizerResult :=
  x ← rs_steps st !! id;
  disposition ← erase_outputs (ss_state x);
  definition ← def_step st id;
  Some {| fr_finalizer := id; fr_failure_policy := rt_failure_policy definition; fr_disposition := disposition |}.

Lemma omap_total {A B} (f : A → option B) l : Forall (is_Some ∘ f) l → Forall2 (λ y z, f y = Some z) l (omap f l).
Proof.
  induction 1 as [|y l [z Hz] _ IH]; [constructor|]. cbn [omap list_omap]. rewrite Hz. by constructor.
Qed.

Lemma finalizer_results :
  Forall2 (λ id result, finalizer_summary id = Some result) (vw_finalizer_presentation_order W)
    (omap finalizer_summary (vw_finalizer_presentation_order W)).
Proof.
  apply omap_total, Forall_forall. intros id (finalizer & x & Hf & Hat)%finalizer_node.
  destruct (finalizer_erased id _ x Hat eq_refl) as (disposition & Hd & _). destruct Hat as [Hx Hdef]. simpl.
  unfold finalizer_summary. rewrite Hx. simpl. rewrite Hd. simpl. rewrite Hdef. by eexists.
Qed.

Lemma finalizer_results_ids :
  fr_finalizer <$> omap finalizer_summary (vw_finalizer_presentation_order W) = vw_finalizer_presentation_order W.
Proof.
  pose proof finalizer_results as Hres. set (results := omap _ _) in *. clearbody results.
  induction Hres as [|id result ids results' Hr _ IH]; [done|]. cbn [fmap list_fmap]. rewrite IH. f_equal.
  unfold finalizer_summary in Hr. apply bind_Some in Hr as (x & _ & (disposition & _ & (d & _ & [= <-])%bind_Some)%bind_Some). done.
Qed.

Lemma finalizer_retained id result :
  finalizer_summary id = Some result → id ∈ vw_finalizer_presentation_order W →
  bt_get (bt_collect ((λ finalizer, (fr_finalizer finalizer, finalizer))
    <$> omap finalizer_summary (vw_finalizer_presentation_order W))) id = Some result.
Proof.
  intros Hres Hid. pose proof (presented_orders W Hpres) as (_ & Hnd & _).
  assert (Hkeys : bt_keys ((λ finalizer, (fr_finalizer finalizer, finalizer))
    <$> omap finalizer_summary (vw_finalizer_presentation_order W)) = vw_finalizer_presentation_order W).
  { unfold bt_keys. rewrite <-list_fmap_compose. apply finalizer_results_ids. }
  rewrite bt_get_collect by by rewrite Hkeys. apply bt_get_NoDup; [by rewrite Hkeys|].
  apply list_elem_of_fmap. exists result. split.
  - f_equal. unfold finalizer_summary in Hres. by apply bind_Some in Hres as (x & _ & (disposition & _ & (d & _ & [= <-])%bind_Some)%bind_Some).
  - apply list_elem_of_omap. by exists id.
Qed.

Lemma finalizer_value evidence id :
  times_log evidence h → recoveries_kept evidence → id ∈ vw_finalizer_presentation_order W →
  is_Some (run_finalizer_value W evidence final_nodes
    (bt_collect ((λ finalizer, (fr_finalizer finalizer, finalizer))
       <$> omap finalizer_summary (vw_finalizer_presentation_order W))) id).
Proof.
  intros Htimes Hrec Hid. pose proof Hid as (finalizer & x & Hf & Hat)%finalizer_node.
  destruct (finalizer_erased id _ x Hat eq_refl) as (disposition & Hd & Hmatch).
  destruct (timed_node evidence id _ x Htimes Hat) as (timing & Ht & _).
  destruct (reachable_node_ok D st run_definition_wf (history_reachable _ _ _ _ Hhist)) as (Hnode & _).
  destruct (Hnode id _ x Hat) as [(_ & _ & Hnorec) _]. destruct Hat as [Hx Hdef].
  assert (Hres : finalizer_summary id = Some {| fr_finalizer := id; fr_failure_policy := rt_failure_policy (runtime_finalizer finalizer);
    fr_disposition := disposition |}) by (unfold finalizer_summary; by rewrite Hx; simpl; rewrite Hd; simpl; rewrite Hdef).
  destruct (ss_recovery x) as [v|] eqn:Hss; [by destruct Hnorec as (c & ? & _)|].
  destruct (Hrec id x Hx) as (summary & Hsum & Hinv). rewrite Hss in Hsum. simpl in Hsum. injection Hsum as <-.
  destruct (Hinv (kind_and_policy (vf_body finalizer)).1) as [invocations Hi]. rewrite bool_decide_false in Hi by by intros [].
  unfold run_finalizer_value, finalizer_failure_policy, finalizer_kind_and_policy. cbn [fst snd].
  rewrite !lookup_fmap, Hx. simpl. rewrite (finalizer_retained id _ Hres Hid). simpl. rewrite Hf. simpl.
  rewrite bool_decide_true by by destruct (vf_body finalizer). rewrite Hmatch. simpl. rewrite Ht. simpl. rewrite Hss.
  rewrite Hi. by eexists.
Qed.

Lemma run_finalization_cases :
  match rs_finalization_summary st with
  | None => rs_finalization st = None ∧ vw_finalizers W = [] ∧ vw_finalizer_presentation_order W = []
  | Some summary =>
      vw_finalizers W ≠ [] ∧ ∃ f, rs_finalization st = Some f ∧ summary = finalization_summary st f
        ∧ fs_finalizers summary = omap finalizer_summary (vw_finalizer_presentation_order W)
  end.
Proof.
  destruct (run_outcome_ok _ _ run_state_ok) as (_ & Hids & Hended). destruct run_wf as [_ HD].
  assert (Hend : ended_ok st) by (destruct (rs_workflow st); done). unfold ended_ok in Hend. rewrite HD in *. simpl in *.
  destruct (rs_finalization st) as [f|].
  - destruct Hend as [-> _]. split.
    + intros Hnil. apply Hids; [by eexists|]. by rewrite Hnil.
    + exists f. split_and!; [done..|]. unfold finalization_summary. simpl. by rewrite HD.
  - destruct Hend as [-> Hnil]. split_and!; [done|by destruct (vw_finalizers W)|].
    apply Permutation_nil_r. rewrite (pw_finalizers _ Hpres), Hnil. done.
Qed.

Lemma finished_execution : ∃ execution outcome,
  execution_result st = Some execution ∧ ended_outcome (rs_workflow st) = Some outcome
  ∧ er_outcome execution = Moves.run_outcome outcome ∧ er_steps execution = ss_state <$> rs_steps st
  ∧ er_recoveries execution = ss_recovery <$> rs_steps st ∧ er_finalization_summary execution = rs_finalization_summary st
  ∧ er_force_abort execution = rs_force_abort st.
Proof.
  destruct ended_finished as [outcome Hout]. pose proof (run_phase _ _ run_state_ok) as Hph. unfold phase_ok in Hph.
  assert (Hexp : is_Some (rs_exports st)) by (destruct (rs_workflow st); try done; by destruct Hph as (_ & _ & ?)).
  destruct Hexp as [exports Hexp]. unfold execution_result. rewrite final_outcome_ended, Hout, Hexp. simpl.
  eexists _, outcome. by split_and!.
Qed.

Lemma run_timed evidence : times_log evidence h → is_Some (observed_run_timing (le_timing evidence)).
Proof.
  intros (started & log & Hh & ->)%times_observed. unfold observed_run_timing.
  destruct (observed_ended log) as [finished Hf]; [rewrite Hh; by eapply history_ended; [apply run_definition_wf|..]|].
  simpl. rewrite Hf. by destruct (rts_execution_started _).
Qed.

Lemma run_has_result evidence admission local_run continuation :
  times_log evidence h → recoveries_kept evidence → lr_continuation_record local_run = Some continuation →
  is_Some (local_run_result deadline_utc W admission st evidence local_run).
Proof.
  intros Htimes Hrec Hcont. destruct (run_timed evidence Htimes) as [run_timing Htiming]. destruct finished_execution as (execution & outcome & He & Hout & Ho & Hs & Hr & Hsum & _).
  destruct (run_cancellation_some evidence outcome Htimes Hout) as (cancellation & Hc & _).
  destruct (presented_orders W Hpres) as (Hnd & Hndf & Hdisj).
  destruct (build_run_result_some deadline_utc W admission execution evidence run_timing local_run continuation cancellation)
    as [run Hrun]; try done.
  - by rewrite Ho.
  - intros id Hid. rewrite Hs, Hr. by apply step_value.
  - rewrite Hsum, Hs, Hr. pose proof run_finalization_cases as Hcases.
    destruct (rs_finalization_summary st) as [summary|]; [|by destruct Hcases as (_ & ? & ?)].
    destruct Hcases as (Hne & f & _ & _ & Hfin). split; [done|]. rewrite Hfin. split; [apply finalizer_results_ids|].
    intros id Hid. by apply finalizer_value.
  - intros id Hid. rewrite Hs, Hr, !lookup_fmap in Hid. apply run_node. destruct (rs_steps st !! id); [eauto|].
    by destruct Hid as [[]|[]].
  - exists run. unfold local_run_result. rewrite He. simpl. by rewrite Htiming.
Qed.
End run.
End finished.
