(* ===== verification/ResultChecks.v ===== *)
(** * Finished runs pass the checks on results

    The published result of a finished run satisfies the checks of
    [result_metadata.rs] that depend on how the run ended: the evidence and
    the times of nodes, the finalization, the force abort and the outcome. *)

From S2P Require Import Prelude Text Nodes Evidence Condition Document Validated Failures Validation Runtime RunTiming Results Publication SchemaCommon ResultMetadata RunResults ValidDocuments Reducer ExportReasons Moves Refinement Views Stabilize Occurrences Runs Ceiling NodeSteps NodeInvariants Phases History Scheduling Containment Numbering Cancelling Outcomes Reasons Stops Endings ValidWorkflows FinishedRuns.

(** ** The published result of a finished run

    What [build_result_with_provenance] publishes of a finished run, node by
    node, and the checks of [result_metadata.rs] it satisfies: the evidence of
    nodes, the finalization, the force abort and the outcome. *)

Local Open Scope list_scope.

Lemma collect_results_Ok {A B E} (f : A → result B E) l k :
  collect_results f l = Ok k → Forall2 (λ a b, f a = Ok b) l k.
Proof.
  revert k. induction l as [|a l IH]; simpl; intros k; [intros [= <-]; constructor|].
  intros (b & Hb & (bs & Hbs%IH & [= <-])%result_bind_Ok)%result_bind_Ok. by constructor.
Qed.

Lemma transpose_Ok {A B E} (f : A → result B E) o v :
  transpose f o = Ok v → match o with None => v = None | Some a => ∃ b, f a = Ok b ∧ v = Some b end.
Proof. destruct o; simpl; [intros (b & ? & [= <-])%result_bind_Ok; eauto|by intros [= <-]]. Qed.

Section published.
Context {Provisional Output Deadline : Type}.
Context `{!SerdeJson, !ConditionOutput Output, !ProvisionalStepResources Provisional}.
Context `{!TimeLibrary, !Base64, !TimeDifference, !MediaTypes} (Htime : TimeLaws).
Context (deadline_utc : Deadline → OffsetDateTime) (opened : ObservationTime).

Local Abbreviation State := (RuntimeState StepFailureCause Output Deadline).

Implicit Types (st : State) (admitted : AdmittedWorkflow) (evidence : LocalRunEvidence) (d : RuntimeStep)
  (x : StepRuntimeState StepFailureCause Output) (v : WorkflowStepV1).

Lemma timestamp_canonical t text : timestamp t = Ok text → canonical_timestamp text = true.
Proof. intros Hf%ok_or_Ok. apply bool_decide_eq_true. by eapply format_canonical. Qed.

(** ** Nodes *)

(** A published node shows the state, the policy and the times of a node. *)
Record shows evidence (s : string) d x v : Prop := {
  sh_id : st_id v = s;
  sh_role : st_role v = workflow_node_role (rt_role d);
  sh_policy : st_failure_policy v = rt_failure_policy d;
  sh_state : step_state_v1 (ss_state x) = Ok (st_state v, st_detail v);
  sh_timing : ∃ timing, node_timing (le_timing evidence) s = Some timing ∧ (is_Some (st_started_at v) ↔ is_Some timing);
  sh_pair : step_timing_pair_valid v = true;
  sh_output : is_Some (st_command_output v) → ∃ kind, is_Some (node_command_output evidence kind s)
}.

Definition shows_all evidence st (role : WorkflowNodeRole) (vs : list WorkflowStepV1) : Prop :=
  (∀ v, v ∈ vs → ∃ s d x, node_at st s d x ∧ rt_role d = role ∧ shows evidence s d x v)
  ∧ ∀ s d x, node_at st s d x → rt_role d = role → ∃ v, v ∈ vs ∧ shows evidence s d x v.

Lemma step_v1_shows evidence s d x (step : WorkflowRunStep Output) v :
  step_v1 step = Ok v → wrs_id step = s → wrs_role step = rt_role d → wrs_failure_policy step = rt_failure_policy d →
  wrs_state step = ss_state x → node_timing (le_timing evidence) s = Some (wrs_timing step) →
  wrs_command_output step = node_command_output evidence (wrs_kind step) s → shows evidence s d x v.
Proof.
  intros Hv <- Hrole Hpolicy Hstate Htiming Hout. pose proof Hv as (Hid & Hr & Hp & Hs & Hstart)%step_v1_Ok.
  assert (Hfields : step_timing_pair_valid v = true ∧ (is_Some (st_command_output v) → is_Some (wrs_command_output step))).
  { clear Hid Hr Hp Hs Hstart. unfold step_v1 in Hv. apply result_bind_Ok in Hv as (timing & Ht & Hv).
    apply result_bind_Ok in Hv as (sd & _ & Hv). apply result_bind_Ok in Hv as (output & Ho & Hv).
    apply transpose_Ok in Ht, Ho.
    assert (Hpair : match (fst <$> timing : option string), (snd <$> timing : option N) with
      | Some started_at, Some _ => canonical_timestamp started_at | None, None => true | _, _ => false end = true).
    { destruct (wrs_timing step) as [t|]; [|by subst]. destruct Ht as (b & Hb & ->). simpl. unfold step_timing_v1 in Hb.
      apply result_bind_Ok in Hb as (started & Hstarted & Hb). apply result_bind_Ok in Hb as (duration & _ & [= <-]). simpl.
      by eapply timestamp_canonical. }
    assert (Hpresent : is_Some output → is_Some (wrs_command_output step)).
    { destruct (wrs_command_output step); [eauto|]. by subst. }
    destruct (wrs_kind step), output; try done; injection Hv as <-; done. }
  destruct Hfields as [Hpair Hpresent]. split; try done.
  - by rewrite Hr, Hrole.
  - by rewrite Hp.
  - by rewrite <-Hstate.
  - exists (wrs_timing step). split; [done|]. destruct (st_started_at v), (wrs_timing step); naive_solver.
  - intros Hc%Hpresent. rewrite Hout in Hc. eauto.
Qed.

Section run.
Context admitted (seed : ExecutionSeed Output) (h : list (TransitionEvent Deadline)) st.
Local Abbreviation W := (adm_definition admitted).
Local Abbreviation D := (from_admitted admitted).
Hypothesis Hpres : presented W.
Hypothesis Hmax : (adm_maximum_transitions admitted < 2 ^ 63)%N.
Hypothesis Hhist : history (Provisional := Provisional) D seed h st.
Hypothesis Hfinished : is_finished (rs_workflow st) = true.

Local Abbreviation final_nodes := (ss_state <$> rs_steps st, ss_recovery <$> rs_steps st).

Definition role_order (role : WorkflowNodeRole) : list string :=
  match role with RoleStep => vw_presentation_order W | RoleFinalizer => vw_finalizer_presentation_order W end.

Lemma kind_policy_runtime step : (kind_and_policy step).2 = vc_failure_policy (common_step step).
Proof. by destruct step. Qed.

(** The node of the run a node of the result was read from. *)
Lemma role_node role id :
  id ∈ role_order role →
  ∃ d x, node_at st id d x ∧ rt_role d = role
    ∧ ∀ evidence step, node_reported W evidence final_nodes role id step →
        wrs_role step = rt_role d ∧ wrs_failure_policy step = rt_failure_policy d ∧ wrs_state step = ss_state x.
Proof.
  intros Hid. destruct role; simpl in Hid.
  - destruct (step_node _ _ _ _ Hpres Hhist id Hid) as (step & x & Hstep & Hat). eexists _, x. split; [exact Hat|].
    split; [done|]. intros evidence v [_ Hrole Hs _ Hkind _]. simpl in Hs. rewrite lookup_fmap, (proj1 Hat) in Hs. simpl in Hs.
    rewrite Hstep in Hkind. simpl in Hkind. injection Hkind as Hkind. rewrite Hrole. split_and!; [done| |by injection Hs].
    apply (f_equal snd) in Hkind. simpl in Hkind. by rewrite <-Hkind, kind_policy_runtime.
  - destruct (finalizer_node _ _ _ _ Hpres Hhist id Hid) as (finalizer & x & Hf & Hat). eexists _, x. split; [exact Hat|].
    split; [done|]. intros evidence v [_ Hrole Hs _ Hkind _]. simpl in Hs. rewrite lookup_fmap, (proj1 Hat) in Hs. simpl in Hs.
    unfold finalizer_kind_and_policy in Hkind. rewrite Hf in Hkind. simpl in Hkind. injection Hkind as Hkind. rewrite Hrole.
    split_and!; [done| |by injection Hs]. apply (f_equal snd) in Hkind. simpl in Hkind. by rewrite <-Hkind, kind_policy_runtime.
Qed.

Lemma node_in_order s d x : node_at st s d x → s ∈ role_order (rt_role d).
Proof.
  intros [_ Hd]. unfold def_step in Hd. rewrite (proj2 (run_wf _ _ _ _ Hpres Hhist)) in Hd. cbn [from_admitted def_steps] in Hd.
  rewrite (def_steps_lookup _ _ _ (pw_wf _ Hpres)) in Hd. destruct (bt_get (vw_steps W) s) eqn:Hs.
  - injection Hd as <-. simpl. rewrite (pw_steps _ Hpres). apply bt_get_is_Some. eauto.
  - apply fmap_Some in Hd as (f & Hf & ->). simpl. rewrite (pw_finalizers _ Hpres). apply bt_get_is_Some. eauto.
Qed.

Lemma reported_shown evidence role steps vs :
  Forall2 (node_reported W evidence final_nodes role) (role_order role) steps →
  Forall2 (λ step v, step_v1 step = Ok v) steps vs → shows_all evidence st role vs.
Proof.
  assert (Hpairs : ∀ ids steps vs, Forall2 (node_reported W evidence final_nodes role) ids steps →
    Forall2 (λ step v, step_v1 step = Ok v) steps vs →
    Forall2 (λ id v, id ∈ role_order role → ∃ d x, node_at st id d x ∧ rt_role d = role ∧ shows evidence id d x v) ids vs).
  { clear steps vs. intros ids steps vs Hrep. revert vs.
    induction Hrep as [|id step ids steps Hnode _ IH]; intros vs Hpub; inversion Hpub as [|? v ? vs' Hv Hrest]; subst; constructor; [|by apply IH].
    intros Hid. destruct (role_node role id Hid) as (d & x & Hat & Hrole & Hnodes). exists d, x. split_and!; [done..|].
    destruct (Hnodes _ _ Hnode) as (Hr & Hp & Hs). pose proof Hnode as [Hid' _ _ Ht _ Ho]. by eapply step_v1_shows. }
  intros Hrep Hpub. pose proof (Hpairs _ _ _ Hrep Hpub) as Hpair. split.
  - intros v (k & Hk)%list_elem_of_lookup. destruct (Forall2_lookup_r _ _ _ _ _ Hpair Hk) as (id & Hid & Hshow).
    destruct Hshow as (d & x & Hat & Hrole & Hshow); [by eapply list_elem_of_lookup_2|]. eauto 6.
  - intros s d x Hat Hrole. pose proof (node_in_order s d x Hat) as Hin. rewrite Hrole in Hin.
    pose proof Hin as (k & Hk)%list_elem_of_lookup. destruct (Forall2_lookup_l _ _ _ _ _ Hpair Hk) as (v & Hv & Hshow).
    destruct (Hshow Hin) as (d' & x' & [Hx' Hd'] & _ & Hshows). destruct Hat as [Hx Hd]. simplify_eq.
    exists v. split; [by eapply list_elem_of_lookup_2|done].
Qed.

(** ** The result *)

Definition cancellation_shown (cancellation : option (FinalizationCancellation Deadline))
    (shown : option FinalizationCancellationV1) : Prop :=
  match cancellation, shown with
  | None, None => True
  | Some c, Some c1 =>
      fc1_reason c1 = cancellation_reason (fin_reason c)
      ∧ match fin_deadline c with
        | None => fc1_force_stop_deadline c1 = None
        | Some _ => deadline_valid c1 = true
        end
  | _, _ => False
  end.

Record finalization_shown evidence (f : FinalizationRuntime Deadline) (fz : FinalizationV1) : Prop := {
  fsh_trigger : fz_trigger fz = finalization_trigger (fnr_trigger f);
  fsh_finalizers : shows_all evidence st RoleFinalizer (fz_finalizers fz);
  fsh_issues : fz_issues fz = finalization_issue_v1 <$> List.filter failed_or_blocked (fz_finalizers fz);
  fsh_cancellation : cancellation_shown (fnr_cancellation f) (fz_cancellation fz);
  fsh_force_abort : fz_force_abort fz = fnr_force_abort f
}.

Record publishes evidence (published : WorkflowResultV1) : Prop := {
  pb_steps : shows_all evidence st RoleStep (res_steps published);
  pb_outcome : ∃ outcome, ended_outcome (rs_workflow st) = Some outcome
    ∧ (res_outcome published, res_primary_issue published) = outcome_v1 (Moves.run_outcome outcome);
  pb_cancellation : cn1_reason <$> res_cancellation published = cancellation_reason <$> accepted h;
  pb_deadline c : res_cancellation published = Some c → canonical_timestamp (cn1_force_stop_deadline c) = true;
  pb_force_abort : res_force_abort published = force_abort_v1 <$> rs_force_abort st;
  pb_finalization :
    match rs_finalization st with
    | None => res_finalization published = None
    | Some f => ∃ fz, res_finalization published = Some fz ∧ finalization_shown evidence f fz
    end
}.

Lemma finalization_cancellation_shown (cancellation : option (FinalizationCancellation Deadline)) shown :
  transpose finalization_cancellation_v1 (run_finalization_cancellation deadline_utc <$> cancellation) = Ok shown →
  cancellation_shown cancellation shown.
Proof.
  intros Hv%transpose_Ok. destruct cancellation as [[reason deadline]|]; simpl in Hv; [|by subst].
  destruct Hv as (c1 & Hc & ->). unfold finalization_cancellation_v1 in Hc.
  apply result_bind_Ok in Hc as (text & Ht%transpose_Ok & [= <-]). simpl in *. split; [done|].
  destruct deadline as [deadline|]; simpl in Ht; [|by subst]. destruct Ht as (t & Ht & ->).
  unfold deadline_valid. simpl. by eapply timestamp_canonical.
Qed.

Lemma finalization_v1_shown evidence (f : FinalizationRuntime Deadline) (run : WorkflowRunFinalization Output) fz :
  finalization_v1 run = Ok fz → wrf_trigger run = fnr_trigger f →
  Forall2 (node_reported W evidence final_nodes RoleFinalizer) (vw_finalizer_presentation_order W) (wrf_finalizers run) →
  wrf_cancellation run = run_finalization_cancellation deadline_utc <$> fnr_cancellation f →
  wrf_force_abort run = fnr_force_abort f → finalization_shown evidence f fz.
Proof.
  intros Hv Htrigger Hrep Hc Hforce. unfold finalization_v1 in Hv. apply result_bind_Ok in Hv as (finalizers & Hf%collect_results_Ok & Hv).
  destruct (existsb _ _); [done|]. apply result_bind_Ok in Hv as (cancellation & Hcanc & [= <-]). split; simpl; try done.
  - by rewrite Htrigger.
  - by eapply (reported_shown evidence RoleFinalizer).
  - rewrite Hc in Hcanc. by apply finalization_cancellation_shown.
Qed.

Lemma result_published evidence admission local_run run provenance exports published :
  times_log deadline_utc opened evidence h → local_run_result deadline_utc W admission st evidence local_run = Some run →
  build_result_with_provenance run provenance exports = Ok published → publishes evidence published.
Proof.
  unfold local_run_result. intros Htimes (execution & Hexec & (run_timing & _ & Hrun)%bind_Some)%bind_Some Hpub. destruct (presented_orders W Hpres) as (Hnd & Hndf & _).
  destruct (finished_execution _ _ _ _ Hpres Hmax Hhist Hfinished) as (execution' & outcome & He & Hout & Ho & Hs & Hr & Hsum & Hfa).
  rewrite Hexec in He. injection He as <-.
  destruct (build_run_result_reports deadline_utc W _ _ _ _ _ _ Hnd Hndf Hrun) as [Hsteps Hcanc Hrout Hrfa Hfin].
  rewrite Hs, Hr in Hsteps, Hfin. rewrite Ho in Hcanc, Hrout.
  destruct (run_cancellation_some deadline_utc opened _ _ _ _ Hpres Hmax Hhist Hfinished evidence outcome Htimes Hout)
    as (cancellation & Hcanc' & Haccepted). rewrite Hcanc in Hcanc'. injection Hcanc' as Hcanc'. subst cancellation.
  unfold build_result_with_provenance in Hpub. rewrite Hrout, Hrfa, Hfa in Hpub.
  destruct (outcome_v1 (Moves.run_outcome outcome)) as [out issue] eqn:Hov.
  apply result_bind_Ok in Hpub as (cn & Hcn%transpose_Ok & Hpub).
  apply result_bind_Ok in Hpub as (steps & Hst%collect_results_Ok & Hpub).
  apply result_bind_Ok in Hpub as (finalization & Hfz%transpose_Ok & Hpub).
  apply result_bind_Ok in Hpub as (exports' & _ & Hpub). case_bool_decide; [done|].
  apply result_bind_Ok in Hpub as (started & _ & Hpub). apply result_bind_Ok in Hpub as (finish & _ & Hpub).
  apply result_bind_Ok in Hpub as (duration & _ & [= <-]). split; simpl; try done.
  - by eapply (reported_shown evidence RoleStep).
  - exists outcome. by rewrite Hov.
  - rewrite <-Haccepted. destruct (wr_cancellation run) as [c|]; [|by subst]. destruct Hcn as (c1 & Hc1 & ->).
    unfold cancellation_v1 in Hc1. by apply result_bind_Ok in Hc1 as (text & _ & [= <-]).
  - intros c ->. destruct (wr_cancellation run) as [c'|]; [|done]. destruct Hcn as (c1 & Hc1 & [= ->]).
    unfold cancellation_v1 in Hc1. apply result_bind_Ok in Hc1 as (text & Ht & [= <-]). by eapply timestamp_canonical.
  - pose proof (run_finalization_cases _ _ _ _ Hpres Hmax Hhist Hfinished) as Hcases. rewrite Hsum in Hfin.
    destruct (rs_finalization_summary st) as [summary|].
    + destruct Hcases as (_ & f & -> & -> & _). destruct Hfin as (rf & Hrf & Htrig & Hrep & Hfc & Hff).
      rewrite Hrf in Hfz. destruct Hfz as (fz & Hfz & ->). exists fz. split; [done|]. by eapply finalization_v1_shown.
    + destruct Hcases as (-> & _). rewrite Hfin in Hfz. done.
Qed.
End run.
End published.

Local Open Scope list_scope.

Lemma forallb_elem {A} (f : A → bool) l : (∀ y, y ∈ l → f y = true) → forallb f l = true.
Proof. intros Hall. apply forallb_forall. intros y Hy%list_elem_of_In. by apply Hall. Qed.

Lemma existsb_elem {A} (f : A → bool) l y : y ∈ l → f y = true → existsb f l = true.
Proof. intros Hy%list_elem_of_In Hf. apply existsb_exists. eauto. Qed.

Lemma filter_elem {A} (f : A → bool) l y : y ∈ List.filter f l ↔ y ∈ l ∧ f y = true.
Proof. by rewrite !list_elem_of_In, filter_In. Qed.

Lemma cancellation_reason_code reason : cd_code (cancellation_detail_v1 (cancellation_reason reason)) = reason.
Proof. by destruct reason. Qed.

Lemma cancellation_reason_force reason : cancellation_reason reason = ForceAbortReasonV1 ↔ reason = ForceAbort.
Proof. by destruct reason. Qed.

Section checks.
Context {Output Deadline : Type}.
Context `{!SerdeJson, !ConditionOutput Output, !TimeLibrary, !Base64, !TimeDifference, !MediaTypes}.

Local Abbreviation State := (RuntimeState StepFailureCause Output Deadline).

Context (h : list (TransitionEvent Deadline)) (st : State) (evidence : LocalRunEvidence) (published : WorkflowResultV1).
Hypothesis Hpub : publishes h st evidence published.
Hypothesis Hrun : run_ok h st.
Hypothesis Hend : ending_ok st.
Hypothesis Hstop : stop_ok st.
Hypothesis Hgraceful : Forall graceful_event h.
Hypothesis Hfinished : is_finished (rs_workflow st) = true.
Hypothesis Hterm : ∀ s d x, node_at st s d x → is_terminal (ss_state x) = true.

Implicit Types (v : WorkflowStepV1) (d : RuntimeStep) (x : StepRuntimeState StepFailureCause Output).

(** ** Nodes *)

Lemma shown_state s d x v : shows evidence s d x v → 
  match ss_state x with
  | SSucceeded _ => st_state v = StateSucceeded ∧ st_detail v = None
  | SInherited detail _ _ => st_state v = StateInherited ∧ st_detail v = Some (DetailInherited detail)
  | SFailed detail => st_state v = StateFailed ∧ st_detail v = Some (DetailFailed detail)
  | SBlocked detail => st_state v = StateBlocked ∧ st_detail v = Some (DetailBlocked detail)
  | SSkipped detail => st_state v = StateSkipped ∧ st_detail v = Some (DetailSkipped detail)
  | SNotRun detail => st_state v = StateNotRun ∧ st_detail v = Some (DetailNotRun detail)
  | SCancelled detail => st_state v = StateCancelled ∧ st_detail v = Some (DetailCancellation detail)
  | _ => False
  end.
Proof. intros Hs. exact (step_state_v1_kind _ _ _ (sh_state _ _ _ _ _ Hs)). Qed.

Lemma shown_cancelled s d x v :
  shows evidence s d x v → state_is StateCancelled v = true →
  ∃ detail, ss_state x = SCancelled detail ∧ st_detail v = Some (DetailCancellation detail).
Proof.
  intros Hs%shown_state Hv%bool_decide_eq_true. destruct (ss_state x); try done; destruct Hs as [Hs Hd];
    rewrite Hs in Hv; try done. eauto.
Qed.

Lemma shown_stopped s d x v :
  node_at st s d x → shows evidence s d x v → stopped (ss_state x) → state_is StateCancelled v = true.
Proof.
  intros Hat%Hterm Hs%shown_state Hst. apply bool_decide_eq_true. by destruct (ss_state x); try done; destruct Hs.
Qed.

Lemma shown_clean s d x v :
  shows evidence s d x v → rt_role d = RoleStep → clean d (ss_state x) → step_succeeds_workflow v = true.
Proof.
  intros Hs Hrole Hc. pose proof (sh_policy _ _ _ _ _ Hs) as Hp. apply shown_state in Hs. unfold step_succeeds_workflow, state_is.
  destruct (ss_state x); try done; destruct Hs as [-> ->]; simpl in *; rewrite ?Hp, ?Hc; try done. congruence.
Qed.

Lemma shown_calm s d x v :
  shows evidence s d x v → rt_role d = RoleStep → calm d (ss_state x) →
  step_succeeds_workflow v || state_is StateCancelled v = true.
Proof.
  intros Hs Hrole Hc. pose proof (sh_policy _ _ _ _ _ Hs) as Hp. apply shown_state in Hs. unfold step_succeeds_workflow, state_is.
  destruct (ss_state x); try done; destruct Hs as [-> ->]; simpl in *; rewrite ?Hp, ?Hc; try done; [congruence|by rewrite orb_true_r].
Qed.

(** A failed or blocked finalizer of a calm run is advisory. *)
Lemma shown_advisory s d x v :
  shows evidence s d x v → calm d (ss_state x) → failed_or_blocked v = true → st_failure_policy v = Advisory.
Proof.
  intros Hs Hc Hf. rewrite (sh_policy _ _ _ _ _ Hs). apply shown_state in Hs. unfold failed_or_blocked in Hf.
  destruct (ss_state x); try done; destruct Hs as [Hs _]; by rewrite Hs in Hf.
Qed.

(** The code of a cancelled node. *)
Lemma cancelled_code s d x detail : node_at st s d x → ss_state x = SCancelled detail → code_ok st (rt_role d) (cd_code detail).
Proof. intros Hat Hx. pose proof (run_reasons _ _ Hrun s d x Hat) as Hm. unfold cancel_mark in Hm. by rewrite Hx in Hm. Qed.

(** ** The force abort *)

Lemma abort_shown : ordinary_abort (res_force_abort published) = ordinary_force_abort st
  ∧ (first_phase (res_force_abort published) = Some FirstOrdinary ↔ ordinary_force_abort st = true).
Proof.
  rewrite (pb_force_abort _ _ _ _ Hpub). unfold ordinary_abort, first_phase, ordinary_force_abort.
  destruct (rs_force_abort st) as [[reason []]|]; simpl; split; try done.
Qed.

(** The accepted cancellation, as the run remembers it. *)
Lemma cancellation_known :
  match res_cancellation published with
  | Some c => ∃ reason, ordinary_reason st = Some reason ∧ cn1_reason c = cancellation_reason reason ∧ reason ≠ ForceAbort
  | None => ordinary_reason st = None ∨ ordinary_reason st = Some ForceAbort ∧ ordinary_force_abort st = true
  end.
Proof.
  pose proof (run_log _ _ Hrun) as Hlog. unfold log_ok in Hlog. pose proof (pb_cancellation _ _ _ _ Hpub) as Hc.
  destruct (res_cancellation published) as [c|], (accepted h) as [reason|] eqn:Ha; try done. injection Hc as Hc.
  exists reason. split_and!; [done..|]. unfold accepted in Ha. apply find_map_Some in Ha as (e & He & Hr).
  rewrite Forall_forall in Hgraceful. specialize (Hgraceful e He). by destruct e; simplify_eq/=.
Qed.

Lemma cancelled_steps_match v :
  v ∈ res_steps published → state_is StateCancelled v = true → cancelled_step_matches published v = true.
Proof.
  intros Hv Hcv. destruct (pb_steps _ _ _ _ Hpub) as [Hall _]. destruct (Hall v Hv) as (s & d & x & Hat & Hrole & Hs).
  destruct (shown_cancelled _ _ _ _ Hs Hcv) as (detail & Hx & Hd). unfold cancelled_step_matches. rewrite Hd.
  destruct (cancelled_code _ _ _ _ Hat Hx) as [Hcode|[Hcode Hab]]; rewrite Hrole in *; unfold role_reason, role_aborted in *.
  - unfold ordinary_node_cancellation_matches. pose proof cancellation_known as Hk.
    destruct (res_cancellation published) as [c|]; cbn [fmap option_fmap option_map].
    + destruct Hk as (reason & Hr & -> & _). rewrite cancellation_reason_code, bool_decide_true; [done|congruence].
    + destruct Hk as [Hk|[Hk Hf]]; [congruence|]. rewrite Hk in Hcode. injection Hcode as <-.
      rewrite (bool_decide_true (first_phase _ = _)) by by apply abort_shown. done.
  - unfold ordinary_node_cancellation_matches. rewrite Hcode, (bool_decide_true (first_phase _ = _)) by by apply abort_shown.
    by rewrite orb_true_r.
Qed.

Lemma force_abort_checked : validate_force_abort published = true.
Proof.
  destruct (run_abort _ _ Hrun) as [Hev Hfin]. unfold validate_force_abort. rewrite !andb_true_iff. split_and!.
  - rewrite (pb_force_abort _ _ _ _ Hpub). pose proof (pb_finalization _ _ _ _ Hpub) as Hf.
    destruct (rs_force_abort st) as [e|]; [|done]. simpl. destruct (Hev e eq_refl) as [Hreason Hphase]. rewrite Hreason. simpl.
    destruct (fae_phase e); simpl; [done|]. destruct (Hphase eq_refl) as [f Hff]. rewrite Hff in Hf.
    by destruct Hf as (fz & -> & _).
  - pose proof (pb_finalization _ _ _ _ Hpub) as Hf. destruct (rs_finalization st) as [f|]; [|by rewrite Hf].
    destruct Hf as (fz & -> & Hfz). destruct (Hfin f eq_refl) as [Hforced _].
    rewrite (fsh_force_abort _ _ _ _ Hfz), Hforced, (pb_force_abort _ _ _ _ Hpub). unfold forced. by destruct (rs_force_abort st).
  - apply forallb_elem. intros v [Hv Hc]%filter_elem. by apply cancelled_steps_match.
Qed.

(** ** The finalization *)

Lemma failed_or_blocked_same v : failed_or_blocked_v1 v = failed_or_blocked v.
Proof. unfold failed_or_blocked_v1, failed_or_blocked, state_is. by destruct (st_state v). Qed.

Lemma issues_checked fz :
  fz_issues fz = finalization_issue_v1 <$> List.filter failed_or_blocked (fz_finalizers fz) → issues_valid fz = true.
Proof.
  intros Hi. unfold issues_valid. rewrite (filter_ext _ _ failed_or_blocked_same), Hi.
  set (l := List.filter _ _). clearbody l. rewrite bool_decide_true by by rewrite length_fmap. simpl.
  induction l as [|v l IH]; [done|]. cbn [fmap list_fmap zip zip_with forallb]. rewrite IH. simpl. by rewrite !bool_decide_true.
Qed.

(** The cancelled finalizers have the reason of the finalization. *)
Lemma cancelled_finalizers_match f fz c c1 v :
  rs_finalization st = Some f → finalization_shown st evidence f fz → fnr_cancellation f = Some c →
  fc1_reason c1 = cancellation_reason (fin_reason c) → v ∈ fz_finalizers fz → state_is StateCancelled v = true →
  cancelled_finalizer_matches fz c1 v = true.
Proof.
  intros Hf Hfz Hc Hc1 Hv Hcv. destruct (fsh_finalizers _ _ _ _ Hfz) as [Hall _].
  destruct (Hall v Hv) as (s & d & x & Hat & Hrole & Hs). destruct (shown_cancelled _ _ _ _ Hs Hcv) as (detail & Hx & Hd).
  unfold cancelled_finalizer_matches, finalization_node_cancellation_matches. rewrite Hd, Hc1, cancellation_reason_code.
  rewrite (fsh_force_abort _ _ _ _ Hfz).
  destruct (cancelled_code _ _ _ _ Hat Hx) as [Hcode|[Hcode Hab]]; rewrite Hrole in *; unfold role_reason, role_aborted in *;
    rewrite Hf in *; simpl in *.
  - unfold finalization_reason in Hcode. rewrite Hc in Hcode. simpl in Hcode. by rewrite bool_decide_true.
  - rewrite Hab, Hcode. by rewrite orb_true_r.
Qed.

Lemma no_cancelled_finalizer f fz v :
  rs_finalization st = Some f → finalization_shown st evidence f fz → fnr_cancellation f = None →
  v ∈ fz_finalizers fz → state_is StateCancelled v = true → False.
Proof.
  intros Hf Hfz Hc Hv Hcv. destruct (fsh_finalizers _ _ _ _ Hfz) as [Hall _].
  destruct (Hall v Hv) as (s & d & x & Hat & Hrole & Hs). destruct (shown_cancelled _ _ _ _ Hs Hcv) as (detail & Hx & Hd).
  destruct (run_abort _ _ Hrun) as [_ Hab]. destruct (Hab f Hf) as (_ & _ & Hforce & _).
  destruct (cancelled_code _ _ _ _ Hat Hx) as [Hcode|[_ Haborted]]; rewrite Hrole in *; unfold role_reason, role_aborted in *;
    rewrite Hf in *; simpl in *.
  - unfold finalization_reason in Hcode. by rewrite Hc in Hcode.
  - rewrite Hc in Hforce. by destruct (Hforce Haborted).
Qed.

(** A cancelled finalization has a cancelled finalizer, unless the ordinary
    steps were force aborted and no finalizer was selected. *)
Lemma cancelled_finalization f fz :
  rs_finalization st = Some f → finalization_shown st evidence f fz → is_Some (fnr_cancellation f) →
  (∃ v, v ∈ fz_finalizers fz ∧ state_is StateCancelled v = true)
  ∨ ordinary_force_abort st = true ∧ forallb trigger_ineligible (fz_finalizers fz) = true.
Proof.
  intros Hf Hfz Hc. destruct (fsh_finalizers _ _ _ _ Hfz) as [Hall Hnodes].
  destruct (ordinary_force_abort st) eqn:Hab.
  - destruct (existsb (state_is StateCancelled) (fz_finalizers fz)) eqn:Hex.
    { apply existsb_exists in Hex as (v & Hv%list_elem_of_In & Hcv). eauto. }
    right. split; [done|]. apply forallb_elem. intros v Hv. destruct (Hall v Hv) as (s & d & x & Hat & Hrole & Hs).
    assert (Hno : state_is StateCancelled v = false).
    { apply not_true_iff_false. intros Hcv. rewrite (existsb_elem _ _ v Hv Hcv) in Hex. done. }
    pose proof (end_aborted _ Hend Hab s d x Hat Hrole) as Hspared. pose proof (Hterm _ _ _ Hat) as Ht.
    pose proof (end_not_run _ Hend s d x Hat) as Hnr. unfold not_run_ok in Hnr. apply shown_state in Hs.
    unfold trigger_ineligible. unfold state_is in Hno.
    destruct (ss_state x); try done; destruct Hs as [Hs Hd]; rewrite Hs in Hno; [|done].
    rewrite Hd, Hnr, Hrole. done.
  - left. destruct (Hstop RoleFinalizer) as (_ & (s & d & x & Hat & Hrole & Hst) & _).
    { simpl. rewrite Hf, Hab. destruct Hc as [c ->]. by rewrite bool_decide_true. }
    destruct (Hnodes s d x Hat Hrole) as (v & Hv & Hs). exists v. split; [done|]. by eapply shown_stopped.
Qed.

Lemma dispositions_checked f fz :
  rs_finalization st = Some f → finalization_shown st evidence f fz →
  cancellation_dispositions_valid fz (res_force_abort published) = true.
Proof.
  intros Hff Hshown. pose proof (fsh_cancellation _ _ _ _ Hshown) as Hcanc.
  unfold cancellation_dispositions_valid. unfold cancellation_shown in Hcanc.
  destruct (fnr_cancellation f) as [c|] eqn:Hc, (fz_cancellation fz) as [c1|]; try done.
  - destruct Hcanc as [Hreason _].
    assert (Hmatch : forallb (cancelled_finalizer_matches fz c1) (List.filter (state_is StateCancelled) (fz_finalizers fz)) = true).
    { apply forallb_elem. intros v [Hv Hcv]%filter_elem. by eapply cancelled_finalizers_match. }
    rewrite Hmatch, andb_true_r. destruct (bool_decide _) eqn:Hnil; [|by rewrite orb_true_r]. simpl. rewrite orb_false_r.
    apply bool_decide_eq_true, nil_length_inv in Hnil.
    destruct (cancelled_finalization f fz Hff Hshown) as [(v & Hv & Hcv)|[Hord Hnone]]; [by rewrite Hc|exfalso|].
    + assert (v ∈ List.filter (state_is StateCancelled) (fz_finalizers fz)) as Hin by by apply filter_elem.
      rewrite Hnil in Hin. by apply elem_of_nil in Hin.
    + destruct (run_abort _ _ Hrun) as [Hev Hab]. destruct (Hab f Hff) as (_ & _ & _ & Hordinary & _).
      rewrite Hnone, andb_true_r. specialize (Hordinary Hord). rewrite Hordinary in Hc. injection Hc as <-.
      rewrite Hreason. simpl. apply bool_decide_eq_true. rewrite (pb_force_abort _ _ _ _ Hpub).
      unfold ordinary_force_abort in Hord. destruct (rs_force_abort st) as [e|] eqn:He; [|done].
      apply bool_decide_eq_true in Hord. destruct (Hev e eq_refl) as [Hr _].
      simpl. unfold force_abort_v1. by rewrite Hr, Hord.
  - apply bool_decide_eq_true. destruct (List.filter _ _) as [|v l] eqn:Hl; [done|exfalso].
    assert (v ∈ List.filter (state_is StateCancelled) (fz_finalizers fz)) as [Hv Hcv]%filter_elem by (rewrite Hl; left).
    by eapply no_cancelled_finalizer.
Qed.

Lemma finalization_checked fz :
  res_finalization published = Some fz → validate_finalization fz (res_force_abort published) = true.
Proof.
  intros Hfz. pose proof (pb_finalization _ _ _ _ Hpub) as Hf. rewrite Hfz in Hf.
  destruct (rs_finalization st) as [f|] eqn:Hff; [|done]. destruct Hf as (fz' & [= <-] & Hshown).
  destruct (run_abort _ _ Hrun) as [_ Hab]. destruct (Hab f Hff) as (Hforced & Hcok & Hforce & Hordinary & _).
  pose proof (run_deadline _ _ Hrun Hgraceful f) as Hdeadline.
  pose proof (fsh_cancellation _ _ _ _ Hshown) as Hcanc.
  pose proof (fsh_force_abort _ _ _ _ Hshown) as Hfa.
  unfold validate_finalization. rewrite !andb_true_iff. split_and!.
  - apply issues_checked, Hshown.
  - unfold finalization_cancellation_matches_force_phase. destruct (ordinary_force_abort st) eqn:Hord.
    + rewrite (Hordinary eq_refl) in Hcanc. unfold cancellation_shown in Hcanc.
      destruct (fz_cancellation fz) as [c1|]; [|done]. destruct Hcanc as [Hr _]. simpl in *. rewrite Hr.
      by rewrite (bool_decide_true (Some _ = Some _)), orb_true_r.
    + rewrite bool_decide_false; [done|]. intros Hphase%abort_shown. congruence.
  - unfold finalization_cancellation_valid. rewrite Hfa. unfold cancellation_shown in Hcanc.
    destruct (fnr_cancellation f) as [c|] eqn:Hc, (fz_cancellation fz) as [c1|]; try done.
    + destruct Hcanc as [Hreason Hdl]. rewrite Hreason.
      destruct (Hcok c eq_refl) as [Hd|(Hr & Hd & Hforcef)].
      * specialize (Hdeadline c Hff eq_refl Hd). destruct Hd as [deadline Hd]. rewrite Hd in Hdl.
        destruct (fnr_force_abort f); [|rewrite bool_decide_false, Hdl; [done|by rewrite cancellation_reason_force]].
        by rewrite decide_False by by rewrite cancellation_reason_force.
      * rewrite Hforcef, Hr in *. rewrite decide_True by done. by rewrite Hd in Hdl; rewrite Hdl.
    + destruct (fnr_force_abort f); [|done]. by destruct (Hforce eq_refl).
  - by eapply dispositions_checked.
Qed.

(** ** The outcome *)

Lemma ended_run : ended_ok st.
Proof. destruct (run_outcome_ok _ _ Hrun) as (_ & _ & He). by destruct (rs_workflow st). Qed.

(** The outcome of the ordinary steps is known, and the run ends with it or
    with what the finalization made of it. *)
Lemma outcome_composed :
  ∃ ordinary issue, ordinary_result st = Some ordinary
    ∧ (∀ primary, issue = Some primary → ordinary = OrdSucceeded → issue_at st RoleFinalizer primary)
    ∧ (rs_finalization st = None → issue = None)
    ∧ ended_outcome (rs_workflow st) = Some (composed ordinary (rs_finalization st ≫= finalization_reason) issue).
Proof.
  pose proof ended_run as He. unfold ended_ok in He. unfold ordinary_result. destruct (rs_finalization st) as [f|].
  - destruct He as (_ & issue & Ho & Hi). exists (fnr_ordinary_outcome f), issue. by split_and!.
  - destruct (pb_outcome _ _ _ _ Hpub) as (outcome & Ho & _). exists outcome, None.
    replace (is_executing (rs_workflow st)) with false by by destruct (rs_workflow st). rewrite Ho. split_and!; try done.
    by destruct outcome as [|? []|].
Qed.

Lemma shown_issue role primary vs :
  shows_all evidence st role vs → issue_at st role primary →
  ∃ v, v ∈ vs ∧ st_id v = node_id (pi_node primary) ∧ st_role v = primary_role primary ∧ st_failure_policy v = Required
    ∧ state_is (primary_state primary) v = true ∧ st_detail v = Some (primary_node_detail primary)
    ∧ failed_or_blocked v = true.
Proof.
  intros [_ Hnodes] (s & d & x & Hat & Hrole & Hreq & Hi). destruct (Hnodes s d x Hat Hrole) as (v & Hv & Hs). exists v.
  pose proof (sh_id _ _ _ _ _ Hs) as Hid. pose proof (sh_role _ _ _ _ _ Hs) as Hr. pose proof (sh_policy _ _ _ _ _ Hs) as Hp.
  apply shown_state in Hs. unfold node_issue in Hi. unfold state_is, failed_or_blocked, primary_role.
  destruct (ss_state x); simplify_eq/=; destruct Hs as [-> ->]; rewrite Hr, Hp; by destruct (rt_role d).
Qed.

Lemma issue_role role primary : issue_at st role primary → primary_role primary = workflow_node_role role.
Proof. intros Hi%issue_at_role. unfold primary_role. by rewrite Hi; destruct role. Qed.

(** The ordinary steps ended as the result shows. *)
Lemma ordinary_trigger_shown ordinary :
  ordinary_result st = Some ordinary → ordinary_trigger published = finalization_trigger (outcome_trigger ordinary).
Proof.
  intros Ho. unfold ordinary_trigger. pose proof (pb_finalization _ _ _ _ Hpub) as Hf. unfold ordinary_result in Ho.
  destruct (rs_finalization st) as [f|] eqn:Hff.
  - destruct Hf as (fz & -> & Hfz). rewrite (fsh_trigger _ _ _ _ Hfz), (end_trigger _ Hend f Hff). by injection Ho as ->.
  - rewrite Hf. replace (is_executing (rs_workflow st)) with false in Ho by by destruct (rs_workflow st).
    destruct (pb_outcome _ _ _ _ Hpub) as (outcome & Ho' & Hout). rewrite Ho in Ho'. injection Ho' as <-.
    pose proof cancellation_known as Hk. destruct (run_outcome_ok _ _ Hrun) as [Hissue _].
    assert (Hres : ordinary_result st = Some ordinary).
    { unfold ordinary_result. rewrite Hff. by replace (is_executing (rs_workflow st)) with false by by destruct (rs_workflow st). }
    unfold ordinary_reason in Hk. rewrite Hres in Hk. simpl in Hk. rewrite (proj1 abort_shown).
    pose proof (end_abort_reason _ Hend) as Hreason. unfold abort_reason_ok, ordinary_reason in Hreason. rewrite Hres in Hreason.
    destruct ordinary as [|primary later|reason]; simpl in Hout; injection Hout as _ ->; simpl in *.
    + destruct (res_cancellation published); [naive_solver|]. simpl. destruct (ordinary_force_abort st); [|done].
      by destruct (Hreason eq_refl).
    + rewrite (issue_role RoleStep) by eauto. done.
    + destruct (res_cancellation published); [done|]. destruct Hk as [|[_ ->]]; done.
Qed.

Lemma ordinary_checked ordinary :
  ordinary_result st = Some ordinary → ordinary_valid published (finalization_trigger (outcome_trigger ordinary)) = true.
Proof.
  intros Ho. pose proof cancellation_known as Hk. unfold ordinary_reason in Hk. rewrite Ho in Hk.
  destruct (pb_steps _ _ _ _ Hpub) as [Hall Hnodes].
  destruct ordinary as [|primary later|reason]; simpl in *.
  - apply andb_true_iff. split; [destruct (res_cancellation published); [naive_solver|done]|].
    apply forallb_elem. intros v Hv. destruct (Hall v Hv) as (s & d & x & Hat & Hrole & Hs).
    apply (shown_clean s d x v Hs Hrole). unfold ordinary_result in Ho. destruct (rs_finalization st) as [f|] eqn:Hf.
    + apply (end_steps _ Hend) with s; [by rewrite Hf; simpl; rewrite (inj Some _ _ Ho)|done|done].
    + apply (end_clean _ Hend) with s; [|done]. by destruct (rs_workflow st).
  - destruct (run_outcome_ok _ _ Hrun) as [Hissue _]. specialize (Hissue primary later Ho).
    destruct outcome_composed as (ordinary & issue & Ho' & _ & _ & Hended). rewrite Ho in Ho'. injection Ho' as <-.
    destruct (pb_outcome _ _ _ _ Hpub) as (outcome & Hout & Hpi). rewrite Hended in Hout. injection Hout as <-.
    replace (res_primary_issue published) with (Some primary) by by destruct later; injection Hpi.
    simpl. by rewrite (issue_role RoleStep).
  - destruct (Hstop RoleStep) as (_ & (s & d & x & Hat & Hrole & Hst) & Hcalm); [simpl; by rewrite Ho|].
    rewrite !andb_true_iff. split_and!.
    + destruct (res_cancellation published); [done|]. rewrite (proj1 abort_shown). by destruct Hk as [|[_ ->]].
    + apply forallb_elem. intros v Hv. destruct (Hall v Hv) as (t & d' & y & Hat' & Hrole' & Hs).
      eapply shown_calm; [done..|]. by eapply Hcalm.
    + destruct (Hnodes s d x Hat Hrole) as (v & Hv & Hs). eapply existsb_elem; [done|]. by eapply shown_stopped.
Qed.

(** The finalizers with a required issue. *)
Lemma required_issue_shown :
  required_finalization_issue published = true ↔
  ∃ fz v, res_finalization published = Some fz ∧ v ∈ fz_finalizers fz ∧ failed_or_blocked v = true
    ∧ st_failure_policy v = Required.
Proof.
  unfold required_finalization_issue. pose proof (pb_finalization _ _ _ _ Hpub) as Hf.
  destruct (rs_finalization st) as [f|]; [|rewrite Hf; naive_solver]. destruct Hf as (fz & -> & Hfz).
  rewrite existsb_exists, (fsh_issues _ _ _ _ Hfz). split.
  - intros (issue & Hi%list_elem_of_In & Hreq%bool_decide_eq_true).
    apply list_elem_of_fmap in Hi as (v & -> & [Hv Hfb]%filter_elem). eauto 6.
  - intros (fz' & v & [= <-] & Hv & Hfb & Hreq). exists (finalization_issue_v1 v).
    rewrite <-list_elem_of_In. split; [apply list_elem_of_fmap; exists v; by rewrite filter_elem|by apply bool_decide_eq_true].
Qed.

Lemma no_required_issue :
  (∀ s d x, node_at st s d x → rt_role d = RoleFinalizer → calm d (ss_state x)) →
  required_finalization_issue published = false.
Proof.
  intros Hcalm. apply not_true_iff_false. intros (fz & v & Hfz & Hv & Hfb & Hreq)%required_issue_shown.
  pose proof (pb_finalization _ _ _ _ Hpub) as Hf. destruct (rs_finalization st) as [f|]; [|congruence].
  destruct Hf as (fz' & Hfz' & Hshown). rewrite Hfz in Hfz'. injection Hfz' as <-.
  destruct (fsh_finalizers _ _ _ _ Hshown) as [Hall _]. destruct (Hall v Hv) as (s & d & x & Hat & Hrole & Hs).
  rewrite (shown_advisory s d x v Hs (Hcalm s d x Hat Hrole) Hfb) in Hreq. done.
Qed.

Lemma finalization_cancelled_shown :
  finalization_cancelled published = bool_decide (is_Some (rs_finalization st ≫= finalization_reason)).
Proof.
  unfold finalization_cancelled. pose proof (pb_finalization _ _ _ _ Hpub) as Hf.
  destruct (rs_finalization st) as [f|]; [|by rewrite Hf]. destruct Hf as (fz & -> & Hfz). simpl.
  pose proof (fsh_cancellation _ _ _ _ Hfz) as Hc. unfold cancellation_shown, finalization_reason in *.
  by destruct (fnr_cancellation f), (fz_cancellation fz).
Qed.

Lemma clean_calm d (state : StepState Output) : clean d state → calm d state.
Proof. by destruct state. Qed.

Lemma outcome_checked ordinary :
  ordinary_result st = Some ordinary → outcome_valid published (finalization_trigger (outcome_trigger ordinary)) = true.
Proof.
  intros Ho. destruct outcome_composed as (ordinary' & issue & Ho' & Hissue & Hnone & Hended). rewrite Ho in Ho'.
  injection Ho' as <-. destruct (pb_outcome _ _ _ _ Hpub) as (outcome & Hout & Hpi). rewrite Hended in Hout. injection Hout as <-.
  destruct ordinary as [|primary [later|]|reason]; simpl in Hpi |- *; [|by injection Hpi as -> _..|by injection Hpi as -> ->].
  unfold outcome_valid. rewrite finalization_cancelled_shown. destruct issue as [primary|].
  - injection Hpi as -> ->. specialize (Hissue primary eq_refl eq_refl). rewrite bool_decide_true by by rewrite (issue_role RoleFinalizer).
    rewrite andb_true_r. apply required_issue_shown. pose proof (pb_finalization _ _ _ _ Hpub) as Hf.
    destruct (rs_finalization st) as [f|]; [|by specialize (Hnone eq_refl)]. destruct Hf as (fz & -> & Hfz).
    destruct (shown_issue _ _ _ (fsh_finalizers _ _ _ _ Hfz) Hissue) as (v & Hv & _ & _ & Hreq & _ & _ & Hfb). eauto 6.
  - assert (Hresult : ∀ f, rs_finalization st = Some f → fnr_ordinary_outcome f = OrdSucceeded).
    { intros f Hf. unfold ordinary_result in Ho. rewrite Hf in Ho. by injection Ho. }
    destruct (rs_finalization st ≫= finalization_reason) as [reason|] eqn:Hreason; injection Hpi as -> ->; simpl.
    + rewrite no_required_issue; [done|]. destruct (rs_finalization st) as [f|] eqn:Hf; [|done].
      destruct (Hstop RoleFinalizer) as (_ & _ & Hcalm).
      { simpl. rewrite Hf. simpl in Hreason. unfold finalization_reason in Hreason.
        destruct (fnr_cancellation f); [|done]. rewrite bool_decide_true by done. simpl. apply negb_true_iff, not_true_iff_false.
        intros Hab%(end_abort_reason _ Hend). unfold ordinary_reason in Hab. rewrite Ho in Hab. by destruct Hab. }
      apply Hcalm. simpl. rewrite Hf. simpl. rewrite (Hresult f eq_refl). split; [done|]. by destruct (rs_workflow st).
    + rewrite no_required_issue; [done|]. intros s d x Hat _. apply clean_calm.
      apply (end_clean _ Hend) with s; [|done]. by destruct (rs_workflow st).
Qed.

Lemma primary_checked primary : res_primary_issue published = Some primary → primary_issue_found published primary = true.
Proof.
  intros Hp. destruct outcome_composed as (ordinary & issue & Ho & Hissue & Hnone & Hended).
  destruct (pb_outcome _ _ _ _ Hpub) as (outcome & Hout & Hpi). rewrite Hended in Hout. injection Hout as <-.
  assert (Hat : issue_at st RoleStep primary ∨ is_Some (rs_finalization st) ∧ issue_at st RoleFinalizer primary).
  { destruct (run_outcome_ok _ _ Hrun) as [Hstep _].
    destruct ordinary as [|p later|]; [|left; apply (Hstep primary later)|]; rewrite ?Ho; simpl in Hpi.
    - destruct issue as [p|]; [right|by destruct (rs_finalization st ≫= finalization_reason); injection Hpi as _ Hp'; congruence].
      simpl in Hpi. injection Hpi as _ Hp'. rewrite Hp in Hp'. injection Hp' as <-. split; [|by apply Hissue].
      destruct (rs_finalization st); [done|]. by specialize (Hnone eq_refl).
    - destruct later; simpl in Hpi; injection Hpi as _ Hp'; rewrite Hp in Hp'; by injection Hp' as <-.
    - injection Hpi as _ Hp'. congruence. }
  unfold primary_issue_found. destruct Hat as [Hat|[[f Hf] Hat]]; rewrite (issue_role _ _ Hat); simpl.
  - destruct (shown_issue _ _ _ (pb_steps _ _ _ _ Hpub) Hat) as (v & Hv & Hid & Hr & Hreq & Hs & Hd & _).
    apply existsb_elem with v; [done|]. rewrite Hid, Hr, (issue_role _ _ Hat), Hreq, Hs, Hd. by rewrite !bool_decide_true.
  - pose proof (pb_finalization _ _ _ _ Hpub) as Hfz. rewrite Hf in Hfz. destruct Hfz as (fz & -> & Hfz). simpl.
    destruct (shown_issue _ _ _ (fsh_finalizers _ _ _ _ Hfz) Hat) as (v & Hv & Hid & Hr & Hreq & Hs & Hd & _).
    apply existsb_elem with v; [done|]. rewrite Hid, Hr, (issue_role _ _ Hat), Hreq, Hs, Hd. by rewrite !bool_decide_true.
Qed.

Lemma run_outcome_checked : validate_outcome published = true.
Proof.
  destruct outcome_composed as (ordinary & _ & Ho & _). unfold validate_outcome.
  rewrite (ordinary_trigger_shown ordinary Ho), (ordinary_checked ordinary Ho), (outcome_checked ordinary Ho), !andb_true_r.
  apply andb_true_iff. split.
  - pose proof cancellation_known as Hk. pose proof (pb_deadline _ _ _ _ Hpub) as Hd.
    destruct (res_cancellation published) as [c|]; [|done]. destruct Hk as (reason & _ & -> & Hne).
    rewrite (Hd c eq_refl), bool_decide_false; [done|by rewrite cancellation_reason_force].
  - destruct (res_primary_issue published) eqn:Hp; [by apply primary_checked|done].
Qed.

(** ** The evidence and the times of nodes *)

Definition timing_law (state : StepState Output) (timing : option WorkflowStepTiming) : Prop :=
  match state with
  | SSucceeded _ => is_Some timing
  | SFailed detail => is_Some timing ↔ fd_phase detail ≠ PhaseCondition
  | SCancelled _ => True
  | _ => timing = None
  end.

(** The checks of a node that depend on how it ended. *)
Definition node_checked (role : WorkflowNodeRoleV1) v : bool :=
  bool_decide (st_role v = role) && step_timing_pair_valid v && exact_fields role v && timing_valid v.

(** A kept command output belongs to a node that was started. *)
Definition outputs_timed : Prop :=
  ∀ kind s, is_Some (node_command_output evidence kind s) → is_Some (rts_steps (le_timing evidence) !! s).

Definition inherited_detail_valid (detail : InheritedDetail) : bool :=
  (0 <? id_prior_attempt_number detail)%N && is_canonical_uuid (id_prior_attempt_id detail).

Lemma exact_fields_checked s d x v :
  node_at st s d x → shows evidence s d x v →
  (∀ detail disposition outputs, ss_state x = SInherited detail disposition outputs →
     rt_role d = RoleStep ∧ inherited_detail_valid detail = true) →
  exact_fields (workflow_node_role (rt_role d)) v = true.
Proof.
  intros Hat Hs%shown_state Hin. pose proof (end_not_run _ Hend s d x Hat) as Hnr. unfold not_run_ok in Hnr. unfold exact_fields.
  destruct (ss_state x) as [| | | | | |outputs|detail disp outputs|detail|detail|detail|detail|detail]; try done;
    destruct Hs as [-> ->]; simpl; try by destruct (rt_role d).
  - destruct (Hin detail disp outputs eq_refl) as [-> Hd]. done.
  - rewrite Hnr. by destruct (rt_role d).
Qed.

Lemma timing_checked s d x v timing :
  shows evidence s d x v → outputs_timed → node_timing (le_timing evidence) s = Some timing →
  timing_law (ss_state x) timing → timing_valid v = true.
Proof.
  intros Hs Hout Ht Hlaw. destruct (sh_timing _ _ _ _ _ Hs) as (timing' & Ht' & Hstart). rewrite Ht in Ht'. injection Ht' as <-.
  pose proof (sh_output _ _ _ _ _ Hs) as Ho. apply shown_state in Hs. unfold timing_valid, detail_failure_phase.
  rewrite (bool_decide_ext (is_Some (st_started_at v)) (is_Some timing)) by done. unfold timing_law in Hlaw.
  destruct (ss_state x) as [| | | | | |outputs|detail disp outputs|detail|detail|detail|detail|detail]; try done;
    destruct Hs as [-> ?]; simpl; subst; try done.
  - by apply bool_decide_eq_true.
  - match goal with Hd : st_detail v = _ |- _ => rewrite Hd end.
    apply eqb_true_iff, eq_true_iff_eq. rewrite negb_true_iff, bool_decide_eq_true, bool_decide_eq_false, Hlaw. split; intros Hne Heq; apply Hne; congruence.
  - destruct (bool_decide (is_Some (st_command_output v))) eqn:Hc; [simpl|done]. apply bool_decide_eq_true in Hc.
    apply bool_decide_eq_true. destruct (Ho Hc) as (kind & [times Hk]%Hout). unfold node_timing in Ht. rewrite Hk in Ht. simpl in Ht.
    apply bind_Some in Ht as (finished & _ & [= <-]). eauto.
Qed.
End checks.
