(* ===== verification/ConditionRuns.v ===== *)
(** * Conditions of running workflows

    When the engine evaluates the condition of a node, every value it reads
    is there and has the type validation found, and every node it names has
    a disposition: the evaluation always reaches a result, and the result can
    be recorded. *)

From S2P Require Import Prelude Text Nodes Evidence Condition Predicates Document Validated Validation Graph Requirements Capacity Runtime ValidDocuments ConditionTypes Reducer Moves Refinement Views Stabilize Occurrences Runs Ceiling NodeSteps NodeInvariants Phases Scheduling Containment Numbering Termination Quiet Cancelling Progress ValidWorkflows.

Local Open Scope list_scope.

(** The document of [serde_json::to_vec] is read by [from_slice]. *)
Class SerdeJsonLaws `{!SerdeJson} : Prop := {
  from_slice_to_vec context : is_Some (from_slice (to_vec context))
}.

Section conditions.
Context {Provisional Cause Output Deadline : Type}.
Context `{!SerdeJson, !SerdeJsonLaws, !NodeFailureSource Cause, !ConditionOutput Output,
          !ProvisionalStepResources Provisional}.

Local Abbreviation State := (RuntimeState Cause Output Deadline).
Local Abbreviation Step := (StepRuntimeState Cause Output).
Implicit Types (st : State) (x y : Step) (s t : string) (d : RuntimeStep) (D : RuntimeDefinition).

(** ** The finalization context is a document *)

Definition context_serialized st : Prop :=
  ∀ f, rs_finalization st = Some f → ∃ context, fnr_context f = serialize context.

Lemma visited_context D st :
  definition_wf D → visited (Provisional := Provisional) D st → context_serialized st.
Proof.
  intros HD Hr. apply (visited_invariant (Provisional := Provisional) context_serialized D st); [done|..|done|done].
  intros r r' Hm Hw _ Hok f.
  destruct (move_changed _ _ Hw Hm) as [(s & d & x & y & _ & _ & _ & _ & Hf & _)|[_ (es & _ & Hrun)]].
  - rewrite Hf. apply Hok.
  - destruct Hrun as [_ Hf _ _|outcome f' n to _ _ _ _ Hentry Hf _ _|outcome summary exports n to _ _ _ _ Hf _
      |gate reason prior n deadline _ _ _ Hf _ _|trigger issue reason deadline n _ _ Hf _ _|gate n _ _ _ _ Hf _|trigger gate issue n _ _ _ _ Hf _];
      rewrite Hf; try apply Hok.
    + intros [= <-]. unfold finalization_entry in Hentry. injection Hentry as _ ->. simpl. eauto.
    + intros (f' & Hf' & ->)%fmap_Some. exact (Hok f' Hf').
    + intros (f' & Hf' & ->)%fmap_Some. exact (Hok f' Hf').
Qed.

Lemma reachable_context D st :
  definition_wf D → reachable (Provisional := Provisional) D st → context_serialized st.
Proof. intros HD Hr. by apply (visited_context D st HD), (reachable_visited D st HD). Qed.

(** ** Values and dispositions *)

Lemma foldl_insert_lookup st context (l : btree ResolvedValueSource) values c source v :
  NoDup (bt_keys l) → (c, source) ∈ l → condition_value st context source = Some v →
  foldl (λ (values : ConditionValues) '(canonical, source),
           match condition_value st context source with
           | Some value => <[canonical := value]> values
           | None => values
           end) values l !! c = Some v.
Proof.
  intros Hnd Hin Hv. induction l as [|[c' source'] l IH] using rev_ind; [by apply elem_of_nil in Hin|].
  unfold bt_keys in Hnd. rewrite fmap_app in Hnd. apply NoDup_app in Hnd as (Hnd & Hdis & _).
  rewrite foldl_app. cbn [foldl]. apply elem_of_app in Hin as [Hin|Hin].
  - assert (c ≠ c') as Hne.
    { intros ->. apply (Hdis c'); [apply list_elem_of_fmap; by exists (c', source)|simpl; by left]. }
    destruct (condition_value st context source') as [v'|]; [rewrite lookup_insert_ne by done|]; by apply IH.
  - apply list_elem_of_singleton in Hin as [= -> ->]. rewrite Hv. by rewrite lookup_insert_eq.
Qed.

Lemma terminal_has_disposition (v : StepState Output) : is_terminal v = true → is_Some (terminal_disposition v).
Proof. destruct v; try done; simpl; eauto. Qed.

Lemma condition_dispositions_lookup st s d x :
  node_at st s d x → is_terminal (ss_state x) = true →
  is_Some (condition_dispositions st !! {| node_id := s; node_role := rt_role d |}).
Proof.
  intros [Hx Hd] [v Hv]%terminal_has_disposition. unfold condition_dispositions.
  destruct (list_to_map _ !! _) eqn:E; [eauto|]. exfalso.
  apply not_elem_of_list_to_map in E. apply E, list_elem_of_fmap.
  exists ({| node_id := s; node_role := rt_role d |}, v). split; [done|].
  apply list_elem_of_omap. exists (s, x). split; [by apply elem_of_map_to_list|]. by rewrite Hv, Hd.
Qed.

(** ** Evaluation *)

(** The declared type of an output of the workflow. *)
Definition workflow_output_type (W : ValidatedWorkflow) (s name : string) : option WorkflowValueType :=
  let declared v := vo_value_type <$> bt_get (vc_outputs (common_step v)) name in
  match bt_get (vw_steps W) s with
  | Some v => declared v
  | None => f ← bt_get (vw_finalizers W) s; declared (vf_body f)
  end.

Definition output_matches (t : option WorkflowValueType) (o : Output) : Prop :=
  match t with
  | Some TyText => is_Some (condition_text o)
  | Some TyJson => condition_text o = None ∧ is_Some (condition_json o)
  | _ => True
  end.

(** The outputs of every node are there and have their types: what capture
    promises of the outputs it returns. *)
Definition outputs_typed (W : ValidatedWorkflow) st : Prop :=
  ∀ s x outputs name o, rs_steps st !! s = Some x → step_outputs (ss_state x) = Some outputs →
    bt_get outputs name = Some o → output_matches (workflow_output_type W s name) o.

(** No condition selects a part of an input. *)
Definition inputs_whole D : Prop :=
  ∀ s d p c name, bt_get (def_steps D) s = Some d → rt_condition d = Some p → c ∈ predicate_pointers p →
    bt_get (rt_condition_values d) c ≠ Some (SourceInput name).

Section admitted.
Context (document : WorkflowDocument) (Hdoc : document_wf MAXIMUM_RETRIES document).
Context (profiles : btree ValidatedHarness) (steps finalizers : ValidatedGraph) (admitted : AdmittedWorkflow).
Context (Hval : validated_from document profiles steps finalizers (adm_definition admitted)).
Context (Hinputs : inputs_admitted admitted).
Local Abbreviation D := (from_admitted admitted).

Context (st : State) (Hwf : wf st) (HDs : rs_definition st = D) (Hph : phase_ok st).
Context (Hout : each_node outputs_declared st) (Hinh : inherited_read st) (Hctx : context_serialized st).
Context (Htyped : outputs_typed (adm_definition admitted) st).

Lemma declared_type n role body name output :
  node_body document n = Some (role, body) → bt_get (cn_outputs (common_node body)) name = Some output →
  workflow_output_type (adm_definition admitted) n name = Some (output_value_type output).
Proof.
  intros Hb Ho. unfold node_body in Hb. unfold workflow_output_type.
  destruct (bt_get (doc_steps document) n) as [step|] eqn:Hs.
  - injection Hb as <- <-. destruct (entries_get _ _ _ _ _ (vd_steps _ _ _ _ _ Hval) Hs) as (v & -> & Hv%validate_body_facts).
    by rewrite (validated_outputs _ _ _ _ _ _ _ (dwf_step_body _ _ Hdoc _ _ Hs) Hv), Ho.
  - apply fmap_Some in Hb as (f & Hf & [= -> ->]).
    destruct (entries_get _ _ _ _ _ (vd_finalizers _ _ _ _ _ Hval) Hf) as (v & Hv & Hfacts%validate_body_facts & _).
    destruct (bt_get (vw_steps (adm_definition admitted)) n) as [w|] eqn:E.
    { destruct (entries_get_inv _ _ _ _ _ (vd_steps _ _ _ _ _ Hval) E) as (? & ? & _). congruence. }
    rewrite Hv. simpl. by rewrite (validated_outputs _ _ _ _ _ _ _ (dwf_finalizer_body _ _ Hdoc _ _ Hf) Hfacts), Ho.
Qed.

Section gate.
Context (s : string) (d : RuntimeStep) (p : ResolvedPredicate).
Context (Hgate : condition_gate_ready st s = true) (Hd : def_step st s = Some d) (Hp : rt_condition d = Some p).

Lemma gate_open : ∃ x, rs_steps st !! s = Some x ∧ ss_state x = SPending
  ∧ forallb (condition_prerequisite_ready st d) (rt_prerequisites d) = true ∧ condition_sources_available st d = true
  ∧ condition_phase_gate_open st d = true.
Proof.
  unfold condition_gate_ready in Hgate. rewrite Hd in Hgate. destruct (rs_steps st !! s) as [x|]; [|done]. exists x.
  destruct (condition_phase_gate_open st d); rewrite ?orb_true_r in Hgate; [|done]. cbn [negb] in Hgate.
  destruct (ss_state x) eqn:Hx; cbn in Hgate; rewrite ?orb_true_r in Hgate; try discriminate Hgate.
  destruct (_ || _); [done|]. by apply andb_prop in Hgate as [? ?].
Qed.

Lemma gate_node : ∃ body control v, node_from document steps finalizers s d body control v.
Proof.
  apply (node_from_definition document Hdoc _ _ _ _ Hval (adm_maximum_parallel_steps admitted) (adm_maximum_transitions admitted)).
  unfold def_step in Hd. by rewrite HDs in Hd.
Qed.

(** A step that is available has each output the condition reads of it. *)
Lemma available_output canonical o d' :
  (canonical, SourceOutput o) ∈ rt_condition_values d →
  def_step st (node_id (ros_node o)) = Some d' → step_is step_data_available st (node_id (ros_node o)) = true →
  ros_output o ∈ rt_declared_outputs d' →
  ∃ x outputs value, rs_steps st !! node_id (ros_node o) = Some x ∧ step_outputs (ss_state x) = Some outputs
    ∧ bt_get outputs (ros_output o) = Some value.
Proof.
  intros Hsource Hd' Hav Hdecl. unfold step_is in Hav. destruct (rs_steps st !! node_id (ros_node o)) as [x|] eqn:Hx; [|done].
  assert (∃ outputs, step_outputs (ss_state x) = Some outputs ∧ is_Some (bt_get outputs (ros_output o)))
    as (outputs & Ho & [value Hv]); [|by exists x, outputs, value].
  destruct (ss_state x) as [| | | | | |outputs|run [] outputs| | | | |] eqn:E; try done; exists outputs; (split; [done|]).
  - apply bt_get_is_Some. by rewrite (Hout _ _ _ (conj Hx Hd') outputs E).
  - apply (Hinh _ _ _ _ _ (conj Hx Hd') E). right. destruct gate_open as (z & Hz & Hpending & _).
    exists s, d, z, canonical, o. by rewrite Hpending.
Qed.

(** Every value the condition reads is there, with the kind of its source. *)
Lemma condition_value_typed canonical source kind :
  (canonical, source) ∈ rt_condition_values d → source_kind document source = Some kind →
  ∃ v, condition_value st (finalization ← rs_finalization st; from_slice (fnr_context finalization)) source = Some v
    ∧ captured_kind v = kind.
Proof.
  intros Hin Hkind. destruct gate_open as (x & Hx & _ & _ & Hsrc & _). destruct gate_node as (body & control & v & Hn).
  unfold condition_sources_available in Hsrc. rewrite forallb_forall in Hsrc.
  assert (Hav : condition_source_available st source = true).
  { apply Hsrc, list_elem_of_In. unfold bt_values. apply list_elem_of_fmap. by exists (canonical, source). }
  destruct (condition_validated document Hdoc _ _ _ _ Hval s d body control v Hn p Hp) as (c & Hc & Hcf).
  destruct (cf_values _ _ _ _ _ _ Hcf _ _ Hin) as (_ & reference & t & _ & Hden & _).
  destruct reference as [name|o|]; cbn [denotes] in Hden.
  - destruct Hden as [-> Ht]. unfold source_kind in Hkind. cbn [source_type] in Hkind. rewrite Ht in Hkind. cbn in Hkind.
    destruct Hinputs as [Hw Hall]. rewrite <-(vd_inputs _ _ _ _ _ Hval) in Ht. destruct (Hall _ _ Ht) as (input & Hi & Hm).
    simpl. rewrite HDs, (text_input_get _ _ Hw), (json_input_get _ _ Hw), Hi.
    destruct t, input; try discriminate Hkind; try discriminate Hm; injection Hkind as <-; simpl; eauto.
  - destruct Hden as (role & pbody & output & Hb & Ho & -> & ->). simpl in Hav.
    destruct (node_defined_body document Hdoc _ _ _ _ Hval (adm_maximum_parallel_steps admitted)
      (adm_maximum_transitions admitted) _ _ _ Hb) as (d' & control' & v' & Hd' & Hrole & Hn').
    destruct (available_output canonical {| ros_node := {| node_id := or_node o; node_role := role |}; ros_output := or_output o;
      ros_value_type := output_value_type output |} d') as (z & outputs & value & Hz & Hzo & Hvalue);
      [done|unfold def_step; by rewrite HDs|done|by eapply (declared_output_listed document)|]. cbn [ros_node ros_output node_id] in *.
    pose proof (Htyped _ _ _ _ _ Hz Hzo Hvalue) as Hm. rewrite (declared_type _ _ _ _ _ Hb Ho) in Hm.
    simpl. rewrite Hz. simpl. rewrite Hzo. simpl. rewrite Hvalue. simpl.
    unfold source_kind in Hkind. cbn in Hkind. destruct (output_value_type output); try discriminate Hkind; injection Hkind as <-; cbn in Hm.
    + destruct Hm as [text ->]. eauto.
    + destruct Hm as [-> [json ->]]. simpl. eauto.
  - destruct Hden as [-> ->]. injection Hkind as <-. simpl in Hav. apply bool_decide_eq_true in Hav as [f Hf].
    destruct (Hctx f Hf) as [context Hcontext]. destruct (from_slice_to_vec (serialized_context context)) as [value Hvalue].
    exists (CapturedJson value). split; [|done]. simpl. rewrite Hf. simpl. rewrite Hcontext. unfold serialize. by rewrite Hvalue.
Qed.

(** Every node the condition names has a disposition. *)
Lemma condition_targets_settled (t : WorkflowNode) : t ∈ predicate_targets p → is_Some (condition_dispositions st !! t).
Proof.
  intros Ht. destruct gate_open as (x & Hx & _ & Hready & _ & Hopen). destruct gate_node as (body & control & v & Hn).
  destruct (condition_validated document Hdoc _ _ _ _ Hval s d body control v Hn p Hp) as (c & Hc & Hcf).
  destruct (cf_targets _ _ _ _ _ _ Hcf t Ht) as (Hrole & Hphase & Hreq).
  unfold target_role in Hrole. apply fmap_Some in Hrole as ([role pbody] & Hb & Hr). simpl in Hr.
  destruct (node_defined_body document Hdoc _ _ _ _ Hval (adm_maximum_parallel_steps admitted)
    (adm_maximum_transitions admitted) _ _ _ Hb) as (d' & control' & v' & Hd' & Hrole' & _).
  destruct (node_at_exists st (node_id t) d' Hwf) as [z Hz]; [unfold def_step; by rewrite HDs|].
  assert (t = {| node_id := node_id t; node_role := rt_role d' |}) as -> by (rewrite Hrole', <-Hr; by destruct t).
  apply (condition_dispositions_lookup _ _ _ z Hz).
  destruct (decide (node_role t = rt_role d)) as [Heq|Hne].
  - destruct (requirement_prerequisite _ _ _ _ _ _ _ _ Hn _ (Hreq Heq)) as (q & Hq & Hqr & Hprod).
    rewrite forallb_forall in Hready. specialize (Hready q (proj1 (list_elem_of_In _ _) Hq)).
    unfold condition_prerequisite_ready in Hready. rewrite Hprod in Hready. cbn [requirement_producer] in Hready.
    rewrite (proj1 Hz) in Hready. unfold required_prerequisite in Hqr. case_decide; [|done]. injection Hqr as <-.
    cbn [rdp_disposition_control rdp_control] in Hready. rewrite (bool_decide_eq_true_2 _ (Hreq Heq)), orb_true_r in Hready.
    destruct (rt_role d); repeat (apply andb_prop in Hready as [Hready ?]); done.
  - unfold condition_phase_gate_open in Hopen. unfold phase_ok in Hph.
    destruct (rs_workflow st) as [[]|? [] ?| | |], (rt_role d) eqn:Hrd; try done;
      try (exfalso; by apply Hne, Hphase).
    destruct Hph as (Hall & _). eapply Hall; [exact Hz|]. rewrite Hrole', <-Hr. by destruct (node_role t).
Qed.

Lemma gate_provides : provides document (condition_values st d) (rt_condition_values d).
Proof.
  destruct gate_node as (body & control & v & Hn).
  destruct (condition_validated document Hdoc _ _ _ _ Hval s d body control v Hn p Hp) as (c & Hc & Hcf).
  intros canonical source kind Hget Hkind. apply bt_get_elem_of in Hget.
  destruct (condition_value_typed canonical source kind Hget Hkind) as (value & Hv & Hk). exists value. split; [|done].
  unfold condition_values. apply (foldl_insert_lookup _ _ _ _ _ source); [|done|done].
  apply bt_wf_NoDup, (cf_wf _ _ _ _ _ _ Hcf).
Qed.

(** What the evaluation of a typed condition may result in. *)
Definition well_evaluated (e : ConditionEvaluation) : Prop :=
  match e with
  | ConditionPassed => True
  | ConditionFalse trace => ∃ detail, condition_false_detail_new (predicate_evidence <$> trace) = Ok detail
  | ConditionFailed canonical pointer =>
      canonical ∈ predicate_pointers p ∧ valid_json_pointer pointer = true
      ∧ ((∃ name, bt_get (rt_condition_values d) canonical = Some (SourceInput name))
         ∨ ∃ detail, json_pointer_missing canonical pointer = Ok detail)
  | ConditionUnavailable _ => False
  end.

Lemma gate_evaluates : well_evaluated (evaluate_condition st d p).
Proof.
  destruct gate_node as (body & control & v & Hn).
  destruct (condition_validated document Hdoc _ _ _ _ Hval s d body control v Hn p Hp) as (c & Hc & Hcf).
  pose proof (evaluate_predicate_typed document (rt_condition_values d) (condition_values st d) (condition_dispositions st)
    gate_provides p (cf_typed _ _ _ _ _ _ Hcf) condition_targets_settled "" []) as He.
  destruct (evaluate_condition st d p) as [|trace|canonical pointer|reason] eqn:Heval; unfold evaluate_condition, evaluate in Heval.
  - done.
  - eapply false_condition_recorded; [|unfold evaluate; exact Heval]. apply (cf_nodes _ _ _ _ _ _ Hcf).
  - destruct (evaluate_predicate _ _ _ _ _) as [[[] ?]|[]] eqn:E; try done. injection Heval as -> ->.
    destruct He as ((source & Hs & Hk) & Hparse & Hin). simpl.
    assert (Hvalid : valid_json_pointer pointer = true) by by apply pointer_readers_agree.
    split_and!; [done..|]. pose proof (bt_get_elem_of _ _ _ Hs) as Hel.
    destruct (cf_values _ _ _ _ _ _ Hcf _ _ Hel) as (-> & reference & t & Href & Hden & _).
    destruct source as [name|o|]; [left; eauto|right..]; apply json_pointer_missing_Ok; (split; [|done]).
    + destruct reference as [|r|]; cbn [denotes] in Hden; [by destruct Hden| |by destruct Hden].
      destruct Hden as (role & pbody & output & Hb & Ho & _ & [= ->]). unfold is_condition_json_reference.
      apply orb_true_intro. right. cbn [canonical_reference]. unfold output_source_reference. cbn [ros_node ros_output node_id].
      exact (proj1 (authorised_text document Hdoc _ _ _ _ Hval (adm_maximum_parallel_steps admitted)
        (adm_maximum_transitions admitted) s (rt_role d) r (node_reference_authorised _ _ _ s d body control v Hn _
          (condition_reference_node _ _ _ Hc Href)))).
    + reflexivity.
  - by destruct (evaluate_predicate _ _ _ _ _) as [[[] ?]|[]].
Qed.
End gate.

Lemma admitted_recordable : inputs_whole D → recordable st.
Proof.
  intros Hwhole s d p Hg Hd Hp. pose proof (gate_evaluates s d p Hg Hd Hp) as He.
  destruct (evaluate_condition st d p) as [|trace|canonical pointer|reason]; simpl in *; try done.
  destruct He as (Hin & _ & [[name Hname]|?]); [exfalso|done]. unfold def_step in Hd. rewrite HDs in Hd. by eapply Hwhole.
Qed.
End admitted.
End conditions.
