(* ===== verification/Coordination.v ===== *)
(** * What the coordinator guarantees

    Each turn of the coordinator is summarised by what it does to the run:
    nothing, one commit with the actions it releases, or an error.  From the
    summary follow the properties of the whole task: the log it commits, the
    order of commits and actions, and the absence of capacity failures. *)

From S2P Require Import Prelude Text Nodes Evidence Condition Validated Capacity Runtime CancellationSource Reducer OccurrenceDigest Coordinator Moves Refinement Views Stabilize Occurrences Runs Ceiling NodeSteps Numbering.

Section coordination.
Context {Provisional Cause Output Instant : Type}.
Context `{!SerdeJson, !NodeFailureSource Cause, !ConditionOutput Output, !ProvisionalStepResources Provisional}.
Context `{!DriverOccurrenceContent Provisional, !DriverOccurrenceContent Cause, !DriverOccurrenceContent Output}.
Context `{!Sha256, !CoordinatorClock Instant}.

Local Abbreviation State := (RuntimeState Cause Output Instant).
Local Abbreviation Red := (Reduction Provisional Cause Output Instant).
Local Abbreviation Occ := (Occurrence Provisional Cause Output Instant).
Local Abbreviation Req := (RequestedAction Provisional Cause Output Instant).
Local Abbreviation Coord := (Coordinator (Provisional := Provisional) (Cause := Cause) (Output := Output) (Instant := Instant)).
Local Abbreviation Eff := (Effect (Provisional := Provisional) (Cause := Cause) (Output := Output) (Instant := Instant)).
Local Abbreviation Commit := (CommittedReduction (Cause := Cause) (Output := Output) (Instant := Instant)).

Implicit Types (c : Coord) (t : Turn (Instant := Instant)) (st : State) (r : Red) (effects : list Eff).

(** ** The summary of a turn *)

Local Abbreviation capacity_diagnostic ordinal st := (diagnostic_of ordinal st DiagTransitionCapacityExceeded).

(** Effects that only release resources. *)
Definition cleanup effects : Prop :=
  Forall (λ e, ∃ id provisional, e = ERelease {| ra_id := id; ra_action := ReleaseStepResources provisional |}) effects.

(** What may follow a successful commit before its actions. *)
Definition answer effects : Prop := effects = [] ∨ ∃ accepted, effects = [EDecision accepted].

(** [turn_spec st ordinal red]: what a turn does from the state [st], where
    [red] tells which reductions it may commit. *)
Inductive turn_spec (red : Red → Prop) (ordinal : OccurrenceOrdinal) (state : option State) :
    option State → OccurrenceOrdinal → list Eff → TurnOutcome → Prop :=
| turn_idle effects : is_Some state → cleanup effects → turn_spec red ordinal state state ordinal effects TurnContinue
| turn_committed r ordinal' effects outcome :
    red r → ordinal_next ordinal = Some ordinal' → rs_transition_capacity_exceeded (rd_state r) = false → answer effects →
    outcome = (if is_finished (rs_workflow (rd_state r)) then TurnFinished else TurnContinue) →
    turn_spec red ordinal state (Some (rd_state r)) ordinal'
      (ECommit (record_of ordinal' r) true :: effects ++ (ERelease <$> rd_actions r))%list outcome
| turn_commit_failed r ordinal' effects :
    red r → ordinal_next ordinal = Some ordinal' → cleanup effects →
    turn_spec red ordinal state state ordinal' (ECommit (record_of ordinal' r) false :: effects) (TurnFailed CommitFailed)
| turn_exceeded r st ordinal' ok before effects :
    red r → ordinal_next ordinal = Some ordinal' → rs_transition_capacity_exceeded (rd_state r) = true →
    cleanup before → answer effects →
    turn_spec red ordinal state state ordinal' (before ++ ECommit (capacity_diagnostic ordinal' st) ok :: effects)%list
      (TurnFailed (if ok then TransitionCapacityExceeded else CommitFailed))
| turn_stopped error ordinal' effects :
    cleanup effects → error ≠ TransitionCapacityExceeded →
    turn_spec red ordinal state state ordinal' effects (TurnFailed error).

(** The parts of the coordinator that the summary is about. *)
Definition summarises (red : Red → Prop) c (res : Coord * TurnOutcome) : Prop :=
  ∃ effects, co_effects res.1 = (co_effects c ++ effects)%list
    ∧ turn_spec red (co_ordinal c) (co_state c) (co_state res.1) (co_ordinal res.1) effects res.2.

Lemma cleanup_release (actions : list Req) : cleanup (ERelease <$> omap action_resource_release actions).
Proof.
  unfold cleanup. rewrite Forall_fmap. apply Forall_forall. intros a (b & _ & Hb)%list_elem_of_omap.
  unfold action_resource_release in Hb. destruct b as [id []]; simpl in Hb; try done; [|simplify_eq; cbn; eauto].
  destruct (requires_release provisional); simplify_eq. cbn. eauto.
Qed.

Lemma resource_release_cleanup (o : Occ) a :
  occurrence_resource_release o = Some a → ∃ id p, a = {| ra_id := id; ra_action := ReleaseStepResources p |}.
Proof. destruct o; simpl; try done. destruct (requires_release _); [|done]. intros [= <-]. eauto. Qed.

Lemma release_occurrence_effects o c :
  ∃ effects, co_effects (release_occurrence o c) = (co_effects c ++ effects)%list ∧ cleanup effects.
Proof.
  unfold release_occurrence. eexists. split; [reflexivity|]. unfold cleanup.
  destruct (occurrence_resource_release _) as [a|] eqn:Ha; [|constructor].
  apply resource_release_cleanup in Ha as (id & p & ->). repeat constructor. eauto.
Qed.

Lemma commit_summary (red : Red → Prop) ordinal r acknowledgement t c c0 :
  red r → ordinal_next (co_ordinal c0) = Some ordinal → rs_transition_capacity_exceeded (rd_state r) = false →
  co_ordinal c = ordinal → co_state c = co_state c0 → co_effects c = co_effects c0 →
  summarises red c0 (after_commit (commit ordinal r acknowledgement t c)).
Proof.
  intros Hr Hnext Hexc Hord Hstate Heff. unfold commit. cbv zeta.
  destruct (if entered_finalization (rd_events r) then _ else _) as [arm source].
  destruct (turn_commit_ok t); cbn [negb].
  - exists (ECommit (record_of ordinal r) true :: (if acknowledgement then [EDecision (rd_occurrence_accepted r)] else [])
       ++ (ERelease <$> rd_actions r))%list.
    assert (Ha : answer (if acknowledgement then [EDecision (rd_occurrence_accepted r)] else []))
      by (destruct acknowledgement; [right; by eexists|by left]).
    pose proof (λ outcome, turn_committed red _ (co_state c0) r ordinal _ outcome Hr Hnext Hexc Ha) as Hspec.
    destruct (is_finished (rs_workflow (rd_state r))), acknowledgement, arm; cbn in *; rewrite ?Heff, ?Hord;
      (split; [by rewrite <-!app_assoc|by apply Hspec]).
  - exists (ECommit (record_of ordinal r) false :: (ERelease <$> omap action_resource_release (rd_actions r)))%list.
    destruct arm; cbn; rewrite ?Heff, ?Hord, ?Hstate;
      (split; [by rewrite <-!app_assoc|]); (by apply turn_commit_failed; [..|apply cleanup_release]).
Qed.

(** The reductions a turn may commit: of the current state, by the reducer or
    as a discarded repetition. *)
Definition reduction_of (state : option State) r : Prop :=
  ∃ st (o : Occ), state = Some st ∧ (r = reduce st o ∨ r = discard_occurrence st o).

(** [c] differs from [c0] in its inputs only. *)
Definition same_run c0 c : Prop := co_state c = co_state c0 ∧ co_effects c = co_effects c0.

Lemma commit_diagnostic_summary (red : Red → Prop) r st acknowledgement t c c0 before :
  red r → ordinal_next (co_ordinal c0) = Some (co_ordinal c) → rs_transition_capacity_exceeded (rd_state r) = true →
  co_state c = co_state c0 → co_effects c = (co_effects c0 ++ before)%list → cleanup before →
  summarises red c0 (commit_diagnostic st acknowledgement t c).
Proof.
  intros Hr Hnext Hexc Hstate Heff Hbefore. unfold commit_diagnostic, commit_coordination_diagnostic. cbv zeta.
  pose proof (λ ok effects Ha, turn_exceeded red (co_ordinal c0) (co_state c0) r st (co_ordinal c) ok before effects
    Hr Hnext Hexc Hbefore Ha) as Hspec.
  destruct (turn_commit_ok t), acknowledgement; eexists; cbn; rewrite Heff, <-?app_assoc;
    (split; [reflexivity|]); rewrite Hstate; apply Hspec; first [by left | by right; eexists].
Qed.

Lemma reduce_turn_summary (o : Occ) (acknowledgement assigned replay : bool) t c c0 :
  same_run c0 c →
  (if assigned then ordinal_next (co_ordinal c0) = Some (co_ordinal c) else co_ordinal c = co_ordinal c0) →
  summarises (reduction_of (co_state c0)) c0 (reduce_turn o acknowledgement assigned replay t c).
Proof.
  intros [Hstate Heff] Hord. unfold reduce_turn.
  destruct (if assigned then _ else _) as [ordinal|] eqn:Hnext.
  2:{ exists []. rewrite app_nil_r. cbn. rewrite Hstate. split; [done|]. by apply turn_stopped; [constructor|]. }
  assert (Hnext0 : ordinal_next (co_ordinal c0) = Some ordinal)
    by (destruct assigned; [injection Hnext as <-|rewrite <-Hord]; done).
  cbn [set_ordinal co_state]. destruct (co_state c) as [st|] eqn:Hst.
  2:{ exists []. rewrite app_nil_r. cbn. rewrite Hst, Hstate. split; [done|]. by apply turn_stopped; [constructor|]. }
  set (r := if replay then _ else _). assert (Hr : reduction_of (co_state c0) r).
  { exists st, o. split; [done|]. unfold r. destruct replay; auto. }
  destruct (rs_transition_capacity_exceeded (rd_state r)) eqn:Hexc.
  - eapply commit_diagnostic_summary; [done..|by cbn; rewrite Hst|cbn; by rewrite Heff|apply cleanup_release].
  - apply commit_summary; [done..|cbn; congruence|done].
Qed.

Lemma driver_turn_summary selected capacity t c c0 :
  same_run c0 c → co_ordinal c = co_ordinal c0 → is_Some (co_state c0) →
  summarises (reduction_of (co_state c0)) c0 (driver_turn selected capacity t c).
Proof.
  intros [Hstate Heff] Hord Hsome. unfold driver_turn.
  destruct (if is_resolved selected then _ else _) as [ordinal|] eqn:Hnext.
  2:{ exists []. rewrite app_nil_r. cbn. rewrite Hstate. split; [done|]. by apply turn_stopped; [constructor|]. }
  assert (Hassigned : if is_resolved selected then ordinal_next (co_ordinal c0) = Some ordinal else ordinal = co_ordinal c0)
    by (destruct (is_resolved selected); congruence).
  assert (Hstop : ∀ o error, error ≠ TransitionCapacityExceeded →
    summarises (reduction_of (co_state c0)) c0 (release_occurrence o (set_ordinal ordinal c), TurnFailed error)).
  { intros o error Herr. destruct (release_occurrence_effects o (set_ordinal ordinal c)) as (effects & He & Hc).
    exists effects. cbn [fst snd]. rewrite He. cbn. rewrite Heff, Hstate. split; [done|]. by apply turn_stopped. }
  destruct (resolve selected) as [[o acknowledgement]|discarded] eqn:Hresolve.
  - destruct (co_observed (set_ordinal ordinal c) !! identity o) as [digest|].
    + case_decide; [|by apply Hstop]. by apply reduce_turn_summary.
    + destruct (_ <=? _)%N; [by apply Hstop|]. by apply reduce_turn_summary.
  - assert (is_resolved selected = false) as Hres by (by destruct selected). rewrite Hres in Hassigned. subst ordinal.
    destruct (release_occurrence_effects discarded (set_ordinal (co_ordinal c0) c)) as (effects & He & Hc).
    exists effects. cbn [fst snd]. rewrite He. cbn. rewrite Heff, Hstate. split; [done|]. by apply turn_idle.
Qed.

Lemma turn_summary capacity grace t c :
  is_Some (co_state c) → summarises (reduction_of (co_state c)) c (turn capacity grace t c).
Proof.
  intros Hsome. unfold turn. set (c1 := requests (turn_requests t) c).
  destruct (next_operation (co_source c1) (co_next_index c1)) as [operation next_index].
  assert (Hidle : ∀ error, error ≠ TransitionCapacityExceeded →
    summarises (reduction_of (co_state c)) c (c1, TurnFailed error)).
  { intros error Herr. exists []. rewrite app_nil_r. split; [done|]. by apply turn_stopped; [constructor|]. }
  destruct (turn_input t); [by apply Hidle| |].
  - destruct operation as [operation|]; [by apply reduce_turn_summary|].
    exists []. rewrite app_nil_r. split; [done|]. apply turn_idle; [done|constructor].
  - assert (Hrecv : ∀ d, let c2 := (recv_delivery c1).2 in same_run c c2 ∧ co_ordinal c2 = co_ordinal c
      ∧ same_run c (retain_delivery d c2)).
    { intros d. unfold recv_delivery. by destruct (co_pending c1), (co_channel c1). }
    destruct (recv_delivery c1) as [[delivery|] c2] eqn:Hc2; cbn [snd] in Hrecv.
    + destruct (Hrecv delivery) as (Hrun & Hord & Hretain). destruct operation as [operation|].
      * apply reduce_turn_summary; [exact Hretain|exact Hord].
      * by apply driver_turn_summary.
    + unfold recv_delivery in Hc2. destruct (co_pending c1), (co_channel c1); simplify_eq. by apply Hidle.
Qed.

(** ** The log of a run *)

(** The commits that succeeded, in order. *)
Definition commits effects : list Commit :=
  omap (λ e, match e with ECommit record true => Some record | _ => None end) effects.

Lemma commits_app effects effects' : commits (effects ++ effects') = (commits effects ++ commits effects')%list.
Proof. apply omap_app. Qed.

Lemma commits_cleanup effects : cleanup effects → commits effects = [].
Proof. induction 1 as [|e l (id & p & ->) _ IH]; [done|exact IH]. Qed.

Lemma commits_answer effects : answer effects → commits effects = [].
Proof. by intros [->|[a ->]]. Qed.

Lemma commits_release (actions : list Req) : commits (ERelease <$> actions) = [].
Proof. by induction actions. Qed.

(** What a log records: the run is reachable, the ordinals and the events are
    numbered from one, and every action that was released is in an earlier
    commit. *)
Definition justified effects (a : Req) : Prop :=
  (∃ p, ra_action a = ReleaseStepResources p)
  ∨ ∃ record action, record ∈ commits effects ∧ committed_action a = Some action ∧ action ∈ cm_actions record.

Definition released_after_commit effects : Prop :=
  ∀ before a after, effects = (before ++ ERelease a :: after)%list → justified before a.

Record log_ok (D : RuntimeDefinition) (state : option State) (ordinal : OccurrenceOrdinal) effects : Prop := {
  log_state : ∀ st, state = Some st → reachable (Provisional := Provisional) D st
    ∧ rs_last_transition_sequence st = N.of_nat (length (mjoin (cm_events <$> commits effects)));
  log_ordinals : cm_occurrence_ordinal <$> commits effects = N.of_nat <$> seq 1 (length (commits effects));
  log_ordinal : ordinal = N.of_nat (length (commits effects));
  log_events : ∀ i e, mjoin (cm_events <$> commits effects) !! i = Some e → event_sequence e = (1 + N.of_nat i)%N;
  log_last : ∀ record, last (commits effects) = Some record → state = Some (cm_state record);
  log_released : released_after_commit effects
}.

Lemma released_app effects effects' :
  released_after_commit effects →
  (∀ before a after, effects' = (before ++ ERelease a :: after)%list → justified (effects ++ before)%list a) →
  released_after_commit (effects ++ effects')%list.
Proof.
  intros Hrel Hnew before a after Heq. apply app_eq_inv in Heq as [(k & -> & Hk)|(k & -> & Hk)]; [|by eapply Hnew].
  destruct k as [|e k]; cbn in Hk.
  - rewrite app_nil_r in Hnew. rewrite <-(app_nil_r before). by apply (Hnew [] a after).
  - injection Hk as <- ->. by eapply Hrel.
Qed.

Lemma released_cleanup effects effects' :
  released_after_commit effects → cleanup effects' → released_after_commit (effects ++ effects')%list.
Proof.
  intros Hrel Hclean. apply released_app; [done|]. intros before a after ->.
  apply Forall_app in Hclean as [_ Hclean]. apply Forall_cons in Hclean as [(id & p & [= ->]) _]. left. by exists p.
Qed.

(** The actions of a commit, once it is in the log. *)
Lemma released_commit ordinal r effects effects' :
  released_after_commit effects → answer effects' →
  released_after_commit (effects ++ ECommit (record_of ordinal r) true :: effects' ++ (ERelease <$> rd_actions r))%list.
Proof.
  intros Hrel Hans. apply released_app; [done|]. intros before a after Heq.
  assert (Hin : a ∈ rd_actions r).
  { assert (Ha : ERelease a ∈ (ECommit (record_of ordinal r) true :: effects' ++ (ERelease <$> rd_actions r))%list)
      by (rewrite Heq; apply elem_of_app; right; left).
    rewrite elem_of_cons, elem_of_app in Ha. destruct Ha as [?|[Ha|(b & [= ->] & ?)%list_elem_of_fmap]]; [done| |done].
    destruct Hans as [->|[x ->]]; [by apply elem_of_nil in Ha|]. by apply list_elem_of_singleton in Ha. }
  destruct before as [|e before]; [done|]. injection Heq as <- _.
  destruct (committed_action a) as [action|] eqn:Hact.
  - right. exists (record_of ordinal r), action. split; [|split; [done|]].
    + rewrite commits_app, elem_of_app. right. by left.
    + apply list_elem_of_omap. eauto.
  - left. unfold committed_action in Hact. destruct a as [id []]; cbn in *; try done. eauto.
Qed.

Lemma commits_committed ordinal r effects :
  answer effects → commits (ECommit (record_of ordinal r) true :: effects ++ (ERelease <$> rd_actions r))%list = [record_of ordinal r].
Proof.
  intros Hans.
  change (record_of ordinal r :: commits (effects ++ (ERelease <$> rd_actions r))%list = [record_of ordinal r]).
  by rewrite commits_app, commits_answer, commits_release.
Qed.

(** A reduction takes the numbers after the last one of the state it
    starts from. *)
Lemma reduction_numbered D state r st :
  definition_wf D → (def_maximum_transitions D < u64_max)%N → reduction_of state r → state = Some st →
  reachable (Provisional := Provisional) D st → rs_transition_capacity_exceeded (rd_state r) = false →
  reachable (Provisional := Provisional) D (rd_state r)
  ∧ rs_last_transition_sequence (rd_state r) = (rs_last_transition_sequence st + N.of_nat (length (rd_events r)))%N
  ∧ ∀ i e, rd_events r !! i = Some e → event_sequence e = (rs_last_transition_sequence st + 1 + N.of_nat i)%N.
Proof.
  intros HD Hmax (st' & o & -> & Hr) [= ->] Hreach Hexc. destruct (reachable_wf D st HD Hreach) as [Hwf Hdef].
  destruct Hr as [->| ->].
  - split; [by apply reach_reduce|].
    apply (moves_numbered (rs_last_transition_sequence st) (begin st)); [done|by apply reduce_moves|by simpl; rewrite Hdef| |done].
    intros _. simpl. split; [lia|done].
  - unfold discard_occurrence. simpl. split; [done|]. split; [lia|done].
Qed.

(** Appending a commit to a log. *)
Lemma log_commit D state ordinal effects ordinal' r answers (state' : option State) :
  log_ok D state ordinal effects → ordinal_next ordinal = Some ordinal' → answer answers →
  reachable (Provisional := Provisional) D (rd_state r) →
  (rs_last_transition_sequence (rd_state r) = N.of_nat (length (mjoin (cm_events <$> commits effects))) + N.of_nat (length (rd_events r)))%N →
  (∀ i e, rd_events r !! i = Some e →
     event_sequence e = (N.of_nat (length (mjoin (cm_events <$> commits effects))) + 1 + N.of_nat i)%N) →
  state' = Some (rd_state r) →
  log_ok D state' ordinal'
    (effects ++ ECommit (record_of ordinal' r) true :: answers ++ (ERelease <$> rd_actions r))%list.
Proof.
  intros [Hstate Hords Hord Hevents Hlast Hrel] Hnext Hans Hreach Hseq Hnum ->.
  unfold ordinal_next in Hnext. apply checked_add_Some in Hnext as [Hnext _].
  assert (Hjoin : mjoin (cm_events <$> (commits effects ++ [record_of ordinal' r])%list)
    = (mjoin (cm_events <$> commits effects) ++ rd_events r)%list)
    by (by rewrite fmap_app, join_app; cbn; rewrite app_nil_r).
  split; rewrite ?commits_app, ?commits_committed, ?Hjoin, ?length_app by done.
  - intros st [= <-]. split; [done|]. rewrite Hseq. lia.
  - rewrite fmap_app, Hords. cbn [length]. rewrite Nat.add_1_r, seq_S, fmap_app. cbn. do 2 f_equal. lia.
  - cbn [length]. lia.
  - intros i e [Hi|[Hle Hi]]%lookup_app_Some; [by apply Hevents|]. rewrite (Hnum _ _ Hi). lia.
  - intros record. rewrite last_snoc. by intros [= <-].
  - by apply released_commit.
Qed.

(** Appending effects that commit nothing. *)
Lemma log_quiet D state ordinal effects effects' :
  log_ok D state ordinal effects → commits effects' = [] → released_after_commit (effects ++ effects')%list →
  log_ok D state ordinal (effects ++ effects')%list.
Proof.
  intros [Hstate Hords Hord Hevents Hlast Hrel] Hcommits Hrel'. by split; rewrite ?commits_app, ?Hcommits, ?app_nil_r.
Qed.

(** A turn that goes on or finishes the run keeps the log. *)
Lemma turn_log D c res :
  definition_wf D → (def_maximum_transitions D < u64_max)%N →
  summarises (reduction_of (co_state c)) c res → is_Some (co_state c) →
  log_ok D (co_state c) (co_ordinal c) (co_effects c) →
  (∀ error, res.2 ≠ TurnFailed error) →
  log_ok D (co_state res.1) (co_ordinal res.1) (co_effects res.1) ∧ is_Some (co_state res.1)
  ∧ (res.2 = TurnFinished → ∃ st, co_state res.1 = Some st ∧ is_finished (rs_workflow st) = true).
Proof.
  intros HD Hmax (effects & -> & Hspec) [st Hst] Hlog Hok.
  inversion Hspec as [? _ Hclean|r ordinal' ? outcome Hr Hnext Hexc Hans Hout|r ? ? ? ? ?|? ? ? ? ? ? ? ? ? ? ?|error ? ? ? ?]; subst.
  - split_and!; [|by eauto|done]. apply log_quiet; [done|by apply commits_cleanup|]. apply released_cleanup; [apply Hlog|done].
  - destruct (log_state _ _ _ _ Hlog st Hst) as [Hreach Hseq].
    destruct (reduction_numbered D _ r st HD Hmax Hr Hst Hreach Hexc) as (Hreach' & Hseq' & Hnum).
    split_and!; [|by eauto|].
    + eapply log_commit; try done; rewrite <-Hseq; done.
    + intros Hfin. exists (rd_state r). split; [done|]. rewrite Hfin in Hout. by destruct (is_finished _).
  - by destruct (Hok CommitFailed).
  - exfalso. by eapply Hok.
  - by destruct (Hok error).
Qed.

(** What holds of the effects whatever the outcome. *)
Definition log_numbers effects : Prop :=
  cm_occurrence_ordinal <$> commits effects = N.of_nat <$> seq 1 (length (commits effects))
  ∧ (∀ i e, mjoin (cm_events <$> commits effects) !! i = Some e → event_sequence e = (1 + N.of_nat i)%N)
  ∧ released_after_commit effects.

Lemma log_ok_numbers D state ordinal effects : log_ok D state ordinal effects → log_numbers effects.
Proof. intros []. done. Qed.

Lemma log_numbers_quiet effects effects' :
  log_numbers effects → commits effects' = [] → released_after_commit (effects ++ effects')%list →
  log_numbers (effects ++ effects')%list.
Proof. intros (H1 & H2 & H3) Hcommits Hrel. split_and!; rewrite ?commits_app, ?Hcommits, ?app_nil_r; done. Qed.

(** A commit or an answer releases nothing. *)
Lemma released_silent effects effects' :
  released_after_commit effects → (∀ a, ERelease a ∉ effects') → released_after_commit (effects ++ effects')%list.
Proof.
  intros Hrel Hnone. apply released_app; [done|]. intros before a after ->. destruct (Hnone a).
  apply elem_of_app. right. by left.
Qed.

Lemma answer_silent effects a : answer effects → ERelease a ∉ effects.
Proof. intros [->|[x ->]]; [apply not_elem_of_nil|]. by rewrite list_elem_of_singleton. Qed.

(** The diagnostic of a capacity failure is one more commit, without
    events. *)
Lemma log_numbers_diagnostic effects ordinal ordinal' st ok before answers :
  log_numbers effects → ordinal = N.of_nat (length (commits effects)) → ordinal_next ordinal = Some ordinal' →
  cleanup before → answer answers →
  log_numbers (effects ++ before ++ ECommit (capacity_diagnostic ordinal' st) ok :: answers)%list.
Proof.
  intros (Hords & Hevents & Hrel) -> [Hnext _]%checked_add_Some Hbefore Hans.
  assert (Hrel' : released_after_commit (effects ++ before ++ ECommit (capacity_diagnostic ordinal' st) ok :: answers)%list).
  { rewrite app_assoc. apply released_silent; [by apply released_cleanup|]. intros a.
    rewrite elem_of_cons. intros [?|Ha]; [done|]. by eapply answer_silent. }
  destruct ok.
  - assert (Hc : commits (before ++ ECommit (capacity_diagnostic ordinal' st) true :: answers)%list = [capacity_diagnostic ordinal' st]).
    { rewrite commits_app, commits_cleanup by done.
      change (capacity_diagnostic ordinal' st :: commits answers = [capacity_diagnostic ordinal' st]). by rewrite commits_answer. }
    split_and!; [..|done]; rewrite commits_app, Hc.
    + rewrite fmap_app, length_app, Hords. cbn [length]. rewrite Nat.add_1_r, seq_S, fmap_app. cbn. do 2 f_equal. lia.
    + rewrite fmap_app, join_app. cbn. by rewrite app_nil_r.
  - apply log_numbers_quiet; [done| |done].
    rewrite commits_app, commits_cleanup by done. exact (commits_answer _ Hans).
Qed.

(** Every outcome of a turn keeps the numbers of the log. *)
Lemma turn_numbers red state ordinal state' ordinal' effects effects' outcome :
  turn_spec red ordinal state state' ordinal' effects' outcome →
  ((∀ error, outcome ≠ TurnFailed error) → log_numbers (effects ++ effects')%list) →
  log_numbers effects → ordinal = N.of_nat (length (commits effects)) →
  log_numbers (effects ++ effects')%list.
Proof.
  intros Hspec Hgood Hlog Hord.
  inversion Hspec as [? _ Hclean|r ? ? ? Hr Hnext Hexc Hans Hout|r ? e0 Hr Hnext Hclean
    |r st ? ok before answers Hr Hnext Hexc Hb Ha|error ? ? Hclean Herr]; subst.
  - by apply Hgood.
  - apply Hgood. by destruct (is_finished _).
  - apply log_numbers_quiet; [done|exact (commits_cleanup e0 Hclean)|].
    change (effects ++ ECommit (record_of ordinal' r) false :: e0)%list
      with (effects ++ [ECommit (record_of ordinal' r) false] ++ e0)%list.
    rewrite app_assoc. apply released_cleanup; [|done]. apply released_silent; [apply Hlog|].
    intros a. by rewrite list_elem_of_singleton.
  - by eapply log_numbers_diagnostic.
  - apply log_numbers_quiet; [done|by apply commits_cleanup|]. apply released_cleanup; [apply Hlog|done].
Qed.

(** Only a reduction beyond the ceiling fails for lack of capacity. *)
Lemma capacity_failure red state ordinal state' ordinal' effects outcome :
  turn_spec red ordinal state state' ordinal' effects outcome → outcome = TurnFailed TransitionCapacityExceeded →
  ∃ r, red r ∧ rs_transition_capacity_exceeded (rd_state r) = true.
Proof. destruct 1; intros; simplify_eq; eauto. by destruct (is_finished _). Qed.

(** ** Whole runs *)

Section run.
Variables (admitted : AdmittedWorkflow) (seed : ExecutionSeed Output) (grace : ClockDuration).
Let D := from_admitted admitted.
Hypothesis Hwf : definition_wf D.
Hypothesis Hmax : (def_maximum_transitions D < u64_max)%N.
Hypothesis Hseed : seed_wf D seed.

(** The state of a run between turns, and what is known when it ends. *)
Definition running c : Prop := log_ok D (co_state c) (co_ordinal c) (co_effects c) ∧ is_Some (co_state c).

Definition ended c (res : result (State * OccurrenceOrdinal) CoordinationError) : Prop :=
  log_numbers (co_effects c)
  ∧ match res with
    | Ok (st, ordinal) => running c ∧ co_state c = Some st ∧ ordinal = co_ordinal c ∧ is_finished (rs_workflow st) = true
    | Err TransitionCapacityExceeded => ∃ st, reachable (Provisional := Provisional) D st
        ∧ rs_transition_capacity_exceeded st = true
    | Err _ => True
    end.

Definition turn_ends (res : Coord * TurnOutcome) : Prop :=
  match res.2 with
  | TurnContinue => running res.1
  | TurnFinished => ended res.1 (coordination_result res.1)
  | TurnFailed error => ended res.1 (Err error)
  end.

Lemma turn_running capacity t c : running c → turn_ends (turn capacity grace t c).
Proof.
  intros [Hlog Hsome]. pose proof (turn_summary capacity grace t c Hsome) as Hsum. unfold turn_ends.
  pose proof (turn_log D c _ Hwf Hmax Hsum Hsome Hlog) as Hgood.
  destruct (turn capacity grace t c) as [c' outcome]. cbn [fst snd] in *.
  destruct outcome as [| |error]; [by destruct Hgood as (? & ? & _)|..].
  - destruct Hgood as (Hlog' & Hsome' & Hfin); [done|]. destruct (Hfin eq_refl) as (st & Hst & Hf).
    unfold ended, coordination_result. rewrite Hst. split; [by eapply log_ok_numbers|]. split_and!; done.
  - destruct Hsum as (effects & Heff & Hspec). cbn [fst snd] in *. split.
    + rewrite Heff. eapply turn_numbers; [exact Hspec|intros Hne; by destruct (Hne error)|by eapply log_ok_numbers|apply Hlog].
    + destruct error; try done. apply capacity_failure in Hspec as (r & (st' & o & Hst & Hr) & Hexc); [|done].
      destruct (log_state _ _ _ _ Hlog _ Hst) as [Hreach _]. exists (rd_state r). split; [|done].
      destruct Hr as [->| ->]; [by apply reach_reduce|done].
Qed.

Lemma turns_running capacity l c :
  running c →
  match turns capacity grace l c with
  | (c', None) => running c'
  | (c', Some res) => ended c' res
  end.
Proof.
  revert c. induction l as [|t l IH]; intros c Hc; [done|]. cbn [turns].
  pose proof (turn_running capacity t c Hc) as Ht. unfold turn_ends in Ht.
  destruct (turn capacity grace t c) as [c' []]; [by apply IH|exact Ht|exact Ht].
Qed.

(** The turn that initializes the run. *)
Definition initialization r : Prop := ∃ ic, r = initialize_seeded_with_operation admitted seed ic.

Lemma start_summary t source deliveries :
  summarises initialization (new_seeded source deliveries)
    (start_turn admitted seed grace t (new_seeded source deliveries)).
Proof.
  unfold start_turn. set (c1 := requests (turn_requests t) (new_seeded source deliveries)).
  destruct (next_operation (co_source c1) (co_next_index c1)) as [operation next_index]. cbn [ordinal_next].
  change (ordinal_next 0) with (Some 1%N). cbv beta iota zeta.
  set (r := initialize_seeded_with_operation _ _ _). assert (Hr : initialization r) by (by eexists).
  destruct (rs_transition_capacity_exceeded (rd_state r)) eqn:Hexc.
  - by apply (commit_diagnostic_summary initialization r _ _ _ _ _ []); [..|constructor].
  - by apply commit_summary.
Qed.

Lemma initialization_reachable r : initialization r → reachable (Provisional := Provisional) D (rd_state r).
Proof. intros [ic ->]. by apply reach_initial. Qed.

Lemma initialization_numbered r :
  initialization r → rs_transition_capacity_exceeded (rd_state r) = false →
  rs_last_transition_sequence (rd_state r) = (0 + N.of_nat (length (rd_events r)))%N
  ∧ ∀ i e, rd_events r !! i = Some e → event_sequence e = (0 + 1 + N.of_nat i)%N.
Proof.
  intros [ic ->]. unfold initialize_seeded_with_operation.
  apply (moves_numbered 0 (begin (initial_state D seed))); [by apply initial_wf|by apply initialize_moves|done|].
  intros _. split; done.
Qed.

Lemma start_running t source deliveries : turn_ends (start_turn admitted seed grace t (new_seeded source deliveries)).
Proof.
  destruct (start_summary t source deliveries) as (effects & Heff & Hspec). unfold turn_ends.
  destruct (start_turn admitted seed grace t (new_seeded source deliveries)) as [c outcome]. cbn [fst snd] in *.
  cbn [new_seeded co_effects co_ordinal co_state app] in Heff, Hspec.
  assert (Hempty : log_ok D None 0 []) by (by split; [..|intros []]).
  assert (Hgood : (∀ error, outcome ≠ TurnFailed error) →
    running c ∧ ∃ st, co_state c = Some st ∧ (outcome = TurnFinished → is_finished (rs_workflow st) = true)).
  { intros Hne. unfold running. rewrite Heff. revert Hne. destruct Hspec as [? [? [=]] _|r ordinal' answers outcome Hr Hnext Hexc Hans Hout
      |? ? ? _ _ _|? ? ? ? ? ? _ _ _ _ _|? ? ? _ _]; intros Hne; try (by edestruct Hne).
    destruct (initialization_numbered r Hr Hexc) as [Hseq Hnum]. split.
    - split; [|by eauto]. eapply (log_commit D None 0 []); try done. by apply initialization_reachable.
    - exists (rd_state r). split; [done|]. intros ->. by destruct (is_finished _). }
  destruct outcome as [| |error].
  - by apply Hgood.
  - destruct Hgood as [Hrun (st & Hst & Hfin)]; [done|]. unfold ended, coordination_result. rewrite Hst.
    split; [by eapply log_ok_numbers, Hrun|]. split_and!; auto.
  - split.
    + rewrite Heff. eapply (turn_numbers _ _ _ _ _ []); [exact Hspec|intros Hne; by destruct (Hne error)|by eapply log_ok_numbers|done].
    + destruct error; try done. apply capacity_failure in Hspec as (r & Hr & Hexc); [|done].
      exists (rd_state r). split; [by apply initialization_reachable|done].
Qed.

Lemma run_ends source deliveries first l :
  match run admitted seed grace source deliveries first l with
  | (c', None) => running c'
  | (c', Some res) => ended c' res
  end.
Proof.
  unfold run. pose proof (start_running first source deliveries) as Hs. unfold turn_ends in Hs.
  destruct (start_turn admitted seed grace first (new_seeded source deliveries)) as [c' []]; cbn [fst snd] in Hs;
    [by apply turns_running|exact Hs|exact Hs].
Qed.

(** The state of a run that goes on. *)
Lemma run_state_wf source deliveries first l c st :
  run admitted seed grace source deliveries first l = (c, None) → co_state c = Some st → wf st.
Proof.
  intros Hrun Hst. pose proof (run_ends source deliveries first l) as Hends. rewrite Hrun in Hends.
  destruct Hends as [[Hreach _ _ _ _ _] _]. by apply (reachable_wf (Provisional := Provisional) D), Hreach.
Qed.
End run.
End coordination.
