(* ===== verification/Resources.v ===== *)
(** * Resources of completed executions

    A completed execution may hold resources until its outputs are captured.
    Whatever becomes of the occurrence that reports it, its resources are
    handed on exactly once: to the capture of its outputs, or to a release. *)

From S2P Require Import Prelude Text Nodes Evidence Condition Validated Runtime CancellationSource Reducer OccurrenceDigest Coordinator Moves Refinement Views Stabilize Occurrences Runs.

Section resources.
Context {Provisional Cause Output Instant : Type}.
Context `{!SerdeJson, !NodeFailureSource Cause, !ConditionOutput Output, !ProvisionalStepResources Provisional}.
Context `{!DriverOccurrenceContent Provisional, !DriverOccurrenceContent Cause, !DriverOccurrenceContent Output}.
Context `{!Sha256, !CoordinatorClock Instant}.

Local Abbreviation State := (RuntimeState Cause Output Instant).
Local Abbreviation Red := (Reduction Provisional Cause Output Instant).
Local Abbreviation Occ := (Occurrence Provisional Cause Output Instant).
Local Abbreviation Req := (RequestedAction Provisional Cause Output Instant).
Local Abbreviation Coord := (Coordinator (Provisional := Provisional) (Cause := Cause) (Output := Output) (Instant := Instant)).
Local Abbreviation Eff := (Effect (Provisional := Provisional) (Cause := Cause) (Output := Output) (Instant := Instant)).

Implicit Types (c : Coord) (t : Turn (Instant := Instant)) (st : State) (r : Red) (a : Req).

(** Actions that hold the resources of an execution. *)
Definition carries a : bool :=
  match ra_action a with
  | CaptureOutputs _ p => requires_release p
  | ReleaseStepResources _ => true
  | _ => false
  end.

(** The resources of [p] are in exactly one action of the list, which
    captures the outputs or releases the resources. *)
Definition handed_on (p : Provisional) (actions : list Req) : Prop :=
  ∃ a, List.filter carries actions = [a]
    ∧ ((∃ s, ra_action a = CaptureOutputs s p) ∨ ra_action a = ReleaseStepResources p).

Lemma commit_required_issue_actions r d issue : rd_actions (commit_required_issue r d issue) = rd_actions r.
Proof.
  unfold commit_required_issue, close_ordinary_gate_for_failure, select_finalizer_primary_issue.
  repeat (case_match || case_decide); try done; by destruct (next_sequence _).
Qed.

(** Stabilisation starts steps and ends the run; it hands on nothing. *)
Lemma internal_carries r r' :
  internal r r' → List.filter carries (rd_actions r') = List.filter carries (rd_actions r).
Proof.
  intros [r1 Hn|outcome|outcome summary exports].
  - destruct Hn; rewrite ?commit_required_issue_actions; cbn; rewrite ?List.filter_app; cbn; rewrite ?app_nil_r; done.
  - destruct (finalization_entry _ _). cbn. by rewrite ?app_nil_r.
  - cbn. rewrite ?List.filter_app. cbn. by rewrite ?app_nil_r.
Qed.

Lemma stabilize_carries r :
  wf (rd_state r) → List.filter carries (rd_actions (stabilize r)) = List.filter carries (rd_actions r).
Proof.
  intros Hwf. pose proof (stabilize_moves r Hwf) as Hm. clear Hwf.
  induction Hm as [|r1 r2 r3 Hi _ IH]; [done|]. by rewrite IH, (internal_carries _ _ Hi).
Qed.

Lemma transition_step_actions r s v action : rd_actions (transition_step r s v action).2 = rd_actions r.
Proof. unfold transition_step. destruct (next_sequence _). by case_match. Qed.

Lemma execution_completed_actions r s id p :
  requires_release p = true → List.filter carries (rd_actions r) = [] →
  handed_on p (rd_actions (apply_execution_completed r s id p).2).
Proof.
  intros Hp Hnone. unfold apply_execution_completed. rewrite Hp.
  destruct (step_accepts _ _ _ _); cbn [negb].
  - pose proof (transition_step_actions r s SCapturingOutputs None) as Ha.
    destruct (transition_step r s SCapturingOutputs None) as [sequence r1]. cbn [snd] in Ha.
    destruct (step_declares_outputs (rd_state r1) s).
    + eexists. cbn. rewrite Ha, List.filter_app, Hnone. cbn. rewrite Hp. split; [reflexivity|]. left. by exists s.
    + pose proof (transition_step_actions (mark_recovered s r1) s (SSucceeded []) None) as Hb.
      destruct (transition_step (mark_recovered s r1) s (SSucceeded []) None) as [sequence2 r2]. cbn [snd] in Hb.
      assert (Hr2 : List.filter carries (rd_actions r2) = []).
      { rewrite Hb. unfold mark_recovered. destruct (activated_recovery_execution _ _); cbn; by rewrite Ha. }
      eexists. cbn. rewrite List.filter_app, Hr2. cbn. split; [reflexivity|]. by right.
  - eexists. cbn. rewrite List.filter_app, Hnone. cbn. split; [reflexivity|]. by right.
Qed.

(** The reducer hands on what a completed execution holds, whether it
    accepts the occurrence or not. *)
Lemma reduce_hands_on st s id p :
  wf st → requires_release p = true → handed_on p (rd_actions (reduce st (StepExecutionCompleted s id p))).
Proof.
  intros Hwf Hp. unfold reduce. destruct (is_finished (rs_workflow st)).
  { unfold discard_occurrence, occurrence_resource_release. rewrite Hp. eexists. split; [reflexivity|]. by right. }
  pose proof (execution_completed_actions (begin st) s id p Hp eq_refl) as Hdone.
  pose proof (apply_occurrence_moves (begin st) (StepExecutionCompleted s id p) Hwf) as Hm.
  cbn [apply_occurrence] in *. destruct (apply_execution_completed (begin st) s id p) as [applied r]. cbn [snd] in *.
  destruct applied; cbn [negb]; [|done]. unfold handed_on. rewrite stabilize_carries; [exact Hdone|].
  change (wf (rd_state r)). by apply (same_nodes_wf (begin st) r); [apply external_moves_same|].
Qed.

(** ** The coordinator *)

(** The actions a turn releases. *)
Definition releases (effects : list Eff) : list Req :=
  omap (λ e, match e with ERelease a => Some a | _ => None end) effects.

Lemma releases_app (l k : list Eff) : releases (l ++ k)%list = (releases l ++ releases k)%list.
Proof. apply omap_app. Qed.

Lemma releases_fmap (l : list Req) : releases (ERelease <$> l) = l.
Proof. induction l as [|a l IH]; [done|]. cbn. by f_equal. Qed.

Lemma release_carries a :
  match action_resource_release a with
  | Some b => carries a = true ∧ carries b = true
  | None => carries a = false
  end.
Proof. unfold action_resource_release, carries. destruct a as [id []]; cbn; try done. by destruct (requires_release provisional). Qed.

(** Releasing only the resources of a list of actions hands on the same. *)
Lemma handed_on_release p (actions : list Req) :
  handed_on p actions → handed_on p (omap action_resource_release actions).
Proof.
  assert (Hfilter : ∀ l : list Req, List.filter carries (omap action_resource_release l)
    = omap action_resource_release (List.filter carries l)).
  { intros l. induction l as [|a l IH]; [done|]. cbn [List.filter].
    change (omap action_resource_release (a :: l)) with (match action_resource_release a with
      | Some b => b :: omap action_resource_release l | None => omap action_resource_release l end).
    pose proof (release_carries a) as Ha. destruct (action_resource_release a) as [b|] eqn:Hrel.
    - destruct Ha as [-> Hb]. cbn [List.filter]. rewrite Hb, IH. cbn. by rewrite Hrel.
    - by rewrite Ha, IH. }
  intros (a & Hf & Ha).
  assert (Hc : carries a = true).
  { assert (Hin : In a (List.filter carries actions)) by (rewrite Hf; by left). by apply List.filter_In in Hin as [_ ?]. }
  unfold handed_on. rewrite Hfilter, Hf. unfold carries in Hc. destruct Ha as [[s Ha]|Ha].
  - rewrite Ha in Hc. eexists. cbn. unfold action_resource_release. rewrite Ha, Hc. split; [reflexivity|]. by right.
  - eexists. cbn. unfold action_resource_release. rewrite Ha. split; [reflexivity|]. by right.
Qed.

(** What a turn adds to the effects of [c0] hands on [p]. *)
Definition effects_hand_on (p : Provisional) c0 c : Prop :=
  ∃ effects, co_effects c = (co_effects c0 ++ effects)%list ∧ handed_on p (releases effects).

Lemma commit_hands_on ordinal r acknowledgement t c0 c p :
  handed_on p (rd_actions r) → co_effects c = co_effects c0 →
  effects_hand_on p c0 (after_commit (commit ordinal r acknowledgement t c)).1.
Proof.
  intros Hp Heff. unfold commit. cbv zeta. destruct (if entered_finalization _ then _ else _) as [arm source].
  destruct (turn_commit_ok t); cbn [negb].
  - exists (ECommit (record_of ordinal r) true :: (if acknowledgement then [EDecision (rd_occurrence_accepted r)] else []) ++ (ERelease <$> rd_actions r))%list.
    destruct (is_finished _), acknowledgement, arm; cbn; rewrite Heff; (split; [by rewrite <-!app_assoc|]); cbn;
      by rewrite releases_fmap.
  - exists (ECommit (record_of ordinal r) false :: (ERelease <$> omap action_resource_release (rd_actions r)))%list.
    destruct arm; cbn; rewrite Heff; (split; [by rewrite <-!app_assoc|]); cbn; rewrite releases_fmap;
      by apply handed_on_release.
Qed.

Lemma release_occurrence_hands_on s id p c0 c :
  requires_release p = true → co_effects c = co_effects c0 →
  effects_hand_on p c0 (release_occurrence (StepExecutionCompleted s id p) c).
Proof.
  intros Hp Heff. unfold release_occurrence, effects_hand_on. cbn. rewrite Hp, Heff. eexists. split; [reflexivity|].
  eexists. split; [reflexivity|]. by right.
Qed.

Lemma reduce_turn_hands_on s id p acknowledgement assigned replay t c0 c st :
  co_state c = Some st → wf st → requires_release p = true → co_effects c = co_effects c0 →
  let res := reduce_turn (StepExecutionCompleted s id p) acknowledgement assigned replay t c in
  res.2 ≠ TurnFailed OccurrenceOrdinalExhausted → effects_hand_on p c0 res.1.
Proof.
  intros Hst Hwf Hp Heff. cbv zeta. unfold reduce_turn. destruct (if assigned then _ else _) as [ordinal|]; [|done].
  cbn [set_ordinal co_state]. rewrite Hst.
  set (r := if replay then _ else _). assert (Hr : handed_on p (rd_actions r)).
  { unfold r. destruct replay; [|by apply reduce_hands_on].
    unfold discard_occurrence, occurrence_resource_release. rewrite Hp. eexists. split; [reflexivity|]. by right. }
  intros _. destruct (rs_transition_capacity_exceeded (rd_state r)); [|by apply commit_hands_on].
  unfold commit_diagnostic, commit_coordination_diagnostic.
  exists ((ERelease <$> omap action_resource_release (rd_actions r))
          ++ ECommit (diagnostic_of ordinal st DiagTransitionCapacityExceeded) (turn_commit_ok t)
          :: (if turn_commit_ok t && acknowledgement then [EDecision false] else []))%list.
  destruct (turn_commit_ok t), acknowledgement; cbn; rewrite Heff; (split; [by rewrite <-?app_assoc|]);
    rewrite releases_app, releases_fmap; cbn; rewrite ?app_nil_r; by apply handed_on_release.
Qed.

(** The occurrence of a delivery. *)
Definition delivery_occurrence (d : DriverOccurrenceDelivery (Provisional := Provisional) (Cause := Cause) (Output := Output))
    : DriverOccurrence Provisional Cause Output :=
  match d with Ready o | Claimed o _ _ | Acknowledged o => o end.

Lemma driver_turn_hands_on d s id p capacity t c0 c st :
  delivery_occurrence d = StepExecutionCompleted s id p →
  co_state c = Some st → wf st → requires_release p = true → co_effects c = co_effects c0 →
  let res := driver_turn (select d) capacity t c in
  res.2 ≠ TurnFailed OccurrenceOrdinalExhausted → effects_hand_on p c0 res.1.
Proof.
  intros Hd Hst Hwf Hp Heff. cbv zeta. unfold driver_turn.
  destruct (if is_resolved (select d) then _ else _) as [ordinal|]; [|done].
  assert (Hres : match resolve (select d) with Ok (o, _) | Err o => o = delivery_occurrence d end)
    by (by destruct d as [|? [] []|]). rewrite Hd in Hres.
  destruct (resolve (select d)) as [[o acknowledgement]|o]; subst o; [|by intros _; apply release_occurrence_hands_on].
  destruct (co_observed (set_ordinal ordinal c) !! _).
  - case_decide; [|by intros _; apply release_occurrence_hands_on]. by eapply reduce_turn_hands_on.
  - destruct (_ <=? _)%N; [by intros _; apply release_occurrence_hands_on|]. by eapply reduce_turn_hands_on.
Qed.

End resources.
