(* ===== verification/Scenario.v ===== *)
(** * Concrete runs

    The reducer instantiated with concrete adapter types, so that runs can be
    evaluated.  The instances stand for code outside the reducer: a
    provisional result says whether it holds resources, a failure cause is
    recorded with the generic code of its phase, an output is a text or a
    JSON value, a deadline is a number, and the finalization context is
    rendered to a fixed text. *)

From S2P Require Import Prelude Text Nodes Evidence Condition Document Validated Validation Runtime Reducer.

Inductive ScenarioOutput := OutText (text : string) | OutJson (value : Value).

#[export] Instance scenario_serde : SerdeJson := {|
  to_vec c := sc_trigger c;
  from_slice text := Some (VString text)
|}.

Inductive ScenarioCause := CauseGeneric.

#[export] Instance scenario_failure_source : NodeFailureSource ScenarioCause := {|
  node_failure_detail _ phase :=
    match phase with
    | PhaseStart => failure_detail_new phase StepUnavailable None None None None
    | PhaseExecution => failure_detail_new phase CommandExit None None None (Some 1%Z)
    | PhaseOutputCapture => failure_detail_new phase StepUnavailable None None None None
    | PhaseCondition => Err FailureCause
    end
|}.

#[export] Instance scenario_condition_output : ConditionOutput ScenarioOutput := {|
  condition_text o := match o with OutText text => Some text | OutJson _ => None end;
  condition_json o := match o with OutText _ => None | OutJson value => Some value end
|}.

#[export] Instance scenario_resources : ProvisionalStepResources bool := {| requires_release b := b |}.

Abbreviation SState := (RuntimeState ScenarioCause ScenarioOutput N).
Abbreviation SReduction := (Reduction bool ScenarioCause ScenarioOutput N).
Abbreviation SOccurrence := (Occurrence bool ScenarioCause ScenarioOutput N).

Definition start (definition : RuntimeDefinition) : SReduction :=
  initialize_seeded_definition definition None [].

(** A sequence of occurrences, each reduced from the state the previous one
    left. *)
Definition drive (definition : RuntimeDefinition) (occurrences : list SOccurrence) : SReduction :=
  foldl (λ r o, reduce (rd_state r) o) (start definition) occurrences.

Definition plain_step (role : WorkflowNodeRole) (prerequisites : list ResolvedDirectPrerequisite)
    (outputs : list string) : RuntimeStep :=
  {| rt_role := role; rt_is_agent := false; rt_failure_policy := Required; rt_condition := None;
     rt_condition_values := []; rt_prerequisites := prerequisites; rt_evidence_prerequisites := [];
     rt_inputs := []; rt_declared_outputs := outputs; rt_recovery := None;
     rt_when := [TriggerSucceeded; TriggerFailed; TriggerCancelled] |}.

Definition control_on (producer : string) : ResolvedDirectPrerequisite :=
  {| rdp_producer := producer; rdp_control := true; rdp_disposition_control := false;
     rdp_data := false; rdp_condition_data := false |}.

(** ** A sample workflow

    A build step with an output, a deploy step that recovers with a handler,
    and a finalizer that reports. *)

Definition common (prerequisites : list ResolvedDirectPrerequisite) (outputs : btree ValidatedOutput)
    : ValidatedCommonStep :=
  {| vc_failure_policy := Required; vc_condition := None; vc_condition_values := [];
     vc_prerequisites := prerequisites;
     vc_evidence_prerequisites := (λ p, PControl (rdp_producer p)) <$> prerequisites;
     vc_cwd := None; vc_outputs := outputs |}.

Definition sample_workflow : ValidatedWorkflow :=
  {| vw_schema_version := 1; vw_description := None;
     vw_steps := [("build", VCommand (common [] [("log", {| vo_definition := TextPath "log.txt"; vo_value_type := TyText |})]) [] ["make"]);
                  ("deploy", VCommand (common [control_on "build"] []) [] ["deploy"])];
     vw_recoveries := [("build", None);
                       ("deploy", Some {| vr_retries := 2; vr_handler := Some (HandlerCommand ["repair"] None) |})];
     vw_source_order := ["build"; "deploy"]; vw_presentation_order := ["build"; "deploy"];
     vw_finalizers := [("report", {| vf_body := VCommand (common [] []) [] ["report"];
                                     vf_when := [TriggerSucceeded; TriggerFailed; TriggerCancelled] |})];
     vw_finalizer_source_order := ["report"]; vw_finalizer_presentation_order := ["report"];
     vw_exports := [("buildLog", {| ros_node := {| node_id := "build"; node_role := RoleStep |};
                                    ros_output := "log"; ros_value_type := TyText |})];
     vw_required_inputs := []; vw_input_json_schema_paths := []; vw_input_file_media_types := [] |}.

(** The document it is validated from. *)

Definition every_trigger : list FinalizationTrigger := [TriggerSucceeded; TriggerFailed; TriggerCancelled].

Definition command_body (condition : option ConditionPredicate) (outputs : btree DocumentOutput)
    (inputs : btree ValueReference) (command : string) : NodeBody :=
  BodyCommand {| cn_failure_policy := Required; cn_condition := condition; cn_cwd := None; cn_outputs := outputs |}
    inputs [command].

Definition sample_document : WorkflowDocument :=
  {| doc_schema_version := 1; doc_description := None; doc_inputs := []; doc_agent_profiles := [];
     doc_steps := [("build", {| sd_body := command_body None [("log", TextPath "log.txt")] [] "make";
                                sd_control_dependencies := []; sd_recovery := None |});
                   ("deploy", {| sd_body := command_body None [] [] "deploy";
                                 sd_control_dependencies := ["build"];
                                 sd_recovery := Some {| srec_retries := 2;
                                                        srec_handler := Some (RecoverCommand ["repair"] None) |} |})];
     doc_step_order := ["build"; "deploy"];
     doc_finalizers := [("report", {| fd_body := command_body None [] [] "report"; fd_after := []; fd_when := every_trigger |})];
     doc_finalizer_order := ["report"];
     doc_exports := [("buildLog", {| or_node := "build"; or_output := "log" |})] |}.

(** No agent configuration is decoded: the samples run commands. *)
#[export] Instance scenario_decoder : HarnessDecoder := {|
  decode_pi _ := None; decode_claude_code _ := None; decode_codex _ := None
|}.

Lemma sample_validated : validate sample_document = Ok sample_workflow.
Proof. vm_compute. reflexivity. Qed.

Definition sample_admitted (workflow : ValidatedWorkflow) (ceiling : N) : AdmittedWorkflow :=
  {| adm_definition := workflow; adm_maximum_parallel_steps := 2; adm_maximum_transitions := ceiling;
     adm_inputs := [] |}.

Definition sample : RuntimeDefinition := from_admitted (sample_admitted sample_workflow 31).

(** The sample run until its deploy step is being recovered. *)
Definition sample_occurrences : list SOccurrence :=
  [StepStarted "build" 1; StepExecutionCompleted "build" 1 true;
   OutputsCaptured "build" 3 [("log", OutText "ok")]; StepStarted "deploy" 5;
   StepExecutionFailed "deploy" 5 CauseGeneric; RecoveryHandlerStarted "deploy" 1 7].

(** The rest of it: the recheck succeeds and the finalizer reports. *)
Definition sample_completion : list SOccurrence :=
  [RecoveryHandlerCompleted "deploy" 1 7 {| dec_kind := Recheck; dec_summary := ""; dec_reason := "" |};
   StepStarted "deploy" 9; StepExecutionCompleted "deploy" 9 false;
   StepStarted "report" 14; StepExecutionCompleted "report" 14 false].
