(* ===== verification/CapacityContract.v ===== *)
(** * The numerical contract of a capacity

    What [resolve_workflow_capacity] computes and [admit_capacity] admits is
    accepted by the consumers of a result, and conditions cost a bounded
    amount of evidence. *)

From S2P Require Import Prelude Text Nodes Evidence Condition Validated Capacity Scenario.

(** ** Condition evidence *)

Definition condition_false_bytes : N := 33871.

Lemma condition_false_transition_bound_Ok : condition_false_transition_bound = Ok condition_false_bytes.
Proof. vm_compute. reflexivity. Qed.

Lemma cond_add_Ok a b c : cond_add a b = Ok c ↔ c = (a + b)%N ∧ (a + b <= u64_max)%N.
Proof. unfold cond_add. by rewrite ok_or_Ok, checked_add_Some. Qed.
Lemma condition_checked_product_Ok a b c :
  condition_checked_product a b = Ok c ↔ c = (a * b)%N ∧ (a * b <= u64_max)%N.
Proof. unfold condition_checked_product. by rewrite ok_or_Ok, checked_mul_Some. Qed.

(** Resolves the checked operations of a goal one by one. *)
Ltac solve_checked :=
  repeat match goal with
  | |- context [condition_checked_product ?a ?b] =>
      rewrite (proj2 (condition_checked_product_Ok a b (a * b)%N)) by (split; [done|unfold u64_max in *; lia]); cbn [result_bind]; cbv zeta
  | |- context [cond_add ?a ?b] =>
      rewrite (proj2 (cond_add_Ok a b (a + b)%N)) by (split; [done|unfold u64_max in *; lia]); cbn [result_bind]; cbv zeta
  end.

(** The evidence of a source closure within its limit. *)
Lemma evidence_capacity_within bytes :
  (bytes <= MAX_SOURCE_CLOSURE_BYTES)%N →
  calculate_condition_evidence_capacity bytes
  = Ok {| cec_maximum_json_escaped_pointer_bytes := bytes * 3;
          cec_condition_transition_bytes := N.max (bytes * 4) condition_false_bytes;
          cec_terminal_result_structure_bytes := N.max (bytes * 4) condition_false_bytes * 2;
          cec_portable_result_bytes := N.max (bytes * 4) condition_false_bytes * 2 + 364209496 |}%N.
Proof.
  intros Hle. unfold MAX_SOURCE_CLOSURE_BYTES in Hle.
  unfold calculate_condition_evidence_capacity, JSON_ESCAPED_POINTER_SOURCE_MULTIPLIER. solve_checked.
  rewrite condition_false_transition_bound_Ok. cbn [result_bind]. cbv zeta.
  replace (bytes * 3 + bytes)%N with (bytes * 4)%N by lia.
  assert (Hmax : (N.max (bytes * 4) condition_false_bytes <= 268435456)%N) by (unfold condition_false_bytes; lia).
  set (m := N.max _ _) in *. solve_checked. unfold portable_result_bound.
  change MAXIMUM_ENCODED_RETAINED_STREAM_BYTES with 357918040%N.
  change MAXIMUM_EXPORT_MEDIA_TYPE_JSON_BYTES with 6291456%N. solve_checked.
  unfold MAX_SOURCE_CLOSURE_BYTES, MAXIMUM_CONDITION_TRANSITION_BYTES, MAXIMUM_TERMINAL_RESULT_STRUCTURE_BYTES,
    MAXIMUM_PORTABLE_RESULT_BYTES.
  repeat (rewrite (proj2 (N.ltb_ge _ _)) by lia). f_equal. f_equal; lia.
Qed.

Lemma evidence_capacity_source bytes evidence :
  calculate_condition_evidence_capacity bytes = Ok evidence → (bytes <= MAX_SOURCE_CLOSURE_BYTES)%N.
Proof.
  intros Hcap. do 5 apply result_bind_Ok in Hcap as (? & _ & Hcap).
  destruct (N.ltb_spec MAX_SOURCE_CLOSURE_BYTES bytes); [done|lia].
Qed.

(** Conditions never exhaust the evidence budget of an acceptable source:
    the evidence capacity is computed for every source closure within the
    64 MiB limit, and for no larger one. *)
Lemma condition_evidence_capacity_total bytes :
  is_Some (result_ok (calculate_condition_evidence_capacity bytes)) ↔ (bytes <= MAX_SOURCE_CLOSURE_BYTES)%N.
Proof.
  split.
  - intros [c Hc]. destruct (calculate_condition_evidence_capacity bytes) eqn:Hcap; [|done].
    by eapply evidence_capacity_source.
  - intros Hle. rewrite evidence_capacity_within by done. eauto.
Qed.

(** ** Agreement *)

Lemma calculate_condition_outbox_reservation_Ok m n a t b :
  calculate_condition_outbox_reservation m n a t = Ok b ↔
  b = ((m + 64 - (n + 1)) * 262144 + a + t)%N ∧ (m + 64 <= u64_max)%N ∧ (n + 1 <= m + 64)%N
  ∧ ((m + 64 - (n + 1)) * 262144 + a + t <= u64_max)%N.
Proof.
  unfold calculate_condition_outbox_reservation, RUNNER_OBSERVATION_RESERVE, RUNNER_ORDINARY_FRAME_BYTES.
  rewrite result_bind_Ok. setoid_rewrite result_bind_Ok. setoid_rewrite result_bind_Ok. setoid_rewrite result_bind_Ok.
  setoid_rewrite cond_add_Ok. setoid_rewrite condition_checked_product_Ok. setoid_rewrite ok_or_Ok.
  setoid_rewrite bind_Some. setoid_rewrite checked_add_Some. setoid_rewrite checked_sub_Some.
  split.
  - intros (? & [-> ?] & ? & [-> ?] & ? & [-> ?] & ? & [-> ?] & ? & [-> ?] & -> & ?). split_and!; done || lia.
  - intros (-> & ? & ? & ?). do 4 (eexists; split; [split; [reflexivity|lia]|]).
    eexists. split; [split; [reflexivity|lia]|]. split; [done|lia].
Qed.

(** What admission under the cloud contract guarantees. *)
Lemma admit_capacity_cloud cap budget ceiling :
  admit_capacity cap budget WorkflowV1CloudInputsArtifactsV1 = Ok ceiling →
  ceiling = cap_cloud_maximum_transitions cap
  ∧ (cap_maximum_invocations cap <= wcb_maximum_invocations budget)%N
  ∧ (cap_encoded_outbox_bytes cap <= wcb_encoded_outbox_bytes budget)%N.
Proof.
  unfold admit_capacity. cbn [bool_decide andb].
  rewrite bool_decide_eq_true_2 by done. cbn [andb].
  repeat match goal with |- context [(?a <? ?b)%N] => destruct (N.ltb_spec a b); [done|] end.
  intros [= <-]. done.
Qed.

(** The retention of a calculated capacity fits its budget. *)
Lemma retention_fits invocations :
  (0 < invocations <= 488)%N →
  let retained := N.min (RUN_LOG_BYTE_BUDGET / invocations) MAXIMUM_RETAINED_BYTES_PER_STREAM in
  (1 <= retained <= 4194304)%N ∧ (invocations * retained <= 67108864)%N ∧ (retained <= invocations * retained)%N.
Proof.
  intros Hinv. unfold RUN_LOG_BYTE_BUDGET, MAXIMUM_RETAINED_BYTES_PER_STREAM. cbv zeta.
  change (64 * 1024 * 1024)%N with 67108864%N. change (4 * 1024 * 1024)%N with 4194304%N.
  pose proof (N.Div0.mul_div_le 67108864 invocations) as Hdiv.
  assert (1 <= 67108864 / invocations)%N by (apply N.div_le_lower_bound; lia). nia.
Qed.

Lemma conditional_nodes_le W : conditional_nodes W <= length (vw_steps W) + length (vw_finalizers W).
Proof.
  unfold conditional_nodes, bt_values. etrans; [apply List.filter_length_le|].
  rewrite length_app, !length_fmap. done.
Qed.

Lemma workflow_counts_nodes W counts :
  workflow_counts W = Ok counts →
  cc_steps counts = N.of_nat (length (vw_steps W)) ∧ cc_finalizers counts = N.of_nat (length (vw_finalizers W)).
Proof.
  unfold workflow_counts, usize_to_u64. intros (? & Hs & Hk)%result_bind_Ok.
  apply result_bind_Ok in Hk as (? & Hf & Hk). apply result_bind_Ok in Hk as ([? ?] & _ & [= <-]).
  simpl. repeat case_match; by simplify_eq.
Qed.

(** The conditions of a resolved capacity satisfy the condition contract. *)
Lemma condition_capacity_valid cap ceiling bytes count outbox evidence :
  (count <= 256)%N → (count ≠ 0)%N →
  calculate_condition_evidence_capacity bytes = Ok evidence →
  calculate_condition_outbox_reservation ceiling count (cec_condition_transition_bytes evidence)
    (cec_terminal_result_structure_bytes evidence) = Ok outbox →
  (outbox <= MAXIMUM_ENCODED_OUTBOX_BYTES)%N →
  cap = from_parts ceiling (count, cec_condition_transition_bytes evidence)
          (cec_terminal_result_structure_bytes evidence, cec_portable_result_bytes evidence, outbox) →
  valid_condition_capacity cap = true.
Proof.
  intros Hcount Hne Hev Hout Hmax ->.
  pose proof (evidence_capacity_source _ _ Hev) as Hle.
  rewrite evidence_capacity_within in Hev by done. injection Hev as <-.
  unfold MAX_SOURCE_CLOSURE_BYTES in Hle.
  unfold valid_condition_capacity, from_parts. cbn [ccb_selected_maximum_transitions ccb_condition_transition_count
    ccb_aggregate_condition_transition_bytes ccb_terminal_result_structure_bytes ccb_portable_result_bytes
    ccb_encoded_outbox_bytes fst snd cec_condition_transition_bytes cec_terminal_result_structure_bytes
    cec_portable_result_bytes] in *.
  rewrite Hout. cbn [result_ok]. rewrite (proj2 (N.eqb_neq _ _) Hne).
  assert (Hm : (1 <= N.max (bytes * 4) condition_false_bytes <= 268435456)%N) by (unfold condition_false_bytes; lia).
  set (m := N.max _ _) in *. clearbody m.
  change MAXIMUM_CONDITION_TRANSITION_COUNT with 256%N. change MAXIMUM_CONDITION_TRANSITION_BYTES with 268435456%N.
  change MAXIMUM_TERMINAL_RESULT_STRUCTURE_BYTES with 536870912%N.
  change (MAXIMUM_ENCODED_RETAINED_STREAM_BYTES + MAXIMUM_EXPORT_MEDIA_TYPE_JSON_BYTES)%N with 364209496%N.
  change MAXIMUM_PORTABLE_RESULT_BYTES with 901080408%N.
  rewrite !andb_true_iff, !N.leb_le, !bool_decide_eq_true, checked_mul_Some, checked_add_Some.
  unfold u64_max. split_and!; done || lia.
Qed.

(** Without conditions the outbox is the ordinary one. *)
Lemma ordinary_condition_capacity_valid ceiling :
  (ceiling <= 1030)%N →
  valid_condition_capacity
    (from_parts ceiling (0, 0)
       (RUNNER_TERMINAL_FRAME_BYTES, ORDINARY_PORTABLE_RESULT_BYTES,
        (ceiling + RUNNER_OBSERVATION_RESERVE) * RUNNER_ORDINARY_FRAME_BYTES
        + (RUNNER_TERMINAL_FRAME_BYTES - RUNNER_ORDINARY_FRAME_BYTES)))%N = true.
Proof.
  intros Hle. unfold valid_condition_capacity.
  cbn [from_parts ccb_condition_transition_count fst snd ccb_selected_maximum_transitions
    ccb_aggregate_condition_transition_bytes ccb_terminal_result_structure_bytes ccb_portable_result_bytes
    ccb_encoded_outbox_bytes]. rewrite !N.eqb_refl. cbn [andb]. apply bool_decide_eq_true_2.
  change RUNNER_OBSERVATION_RESERVE with 64%N. change RUNNER_ORDINARY_FRAME_BYTES with 262144%N.
  change RUNNER_TERMINAL_FRAME_BYTES with 67108864%N.
  erewrite (proj2 (calculate_condition_outbox_reservation_Ok _ _ _ _ _)).
  - cbn [result_ok]. reflexivity.
  - unfold u64_max. split_and!; lia.
Qed.

(** The retention part of the contract, for a capacity with the transition
    and invocation bounds of an admitted one. *)
Lemma cloud_capacity_checks cap ceiling :
  (1 <= cap_general_maximum_transitions cap <= 1286)%N → (1 <= ceiling <= 1030)%N →
  (0 < cap_maximum_invocations cap <= 488)%N →
  cap_maximum_retained_bytes_per_invocation cap
  = N.min (RUN_LOG_BYTE_BUDGET / cap_maximum_invocations cap) MAXIMUM_RETAINED_BYTES_PER_STREAM →
  cap_native_session_retention_bytes cap
  = (cap_maximum_invocations cap * cap_maximum_retained_bytes_per_invocation cap)%N →
  cap_diagnostic_retention_bytes cap = (cap_native_session_retention_bytes cap * 2)%N →
  cap_aggregate_retention_bytes cap
  = (cap_diagnostic_retention_bytes cap + cap_native_session_retention_bytes cap)%N →
  valid_condition_capacity
    (from_parts ceiling (cap_condition_transition_count cap, cap_aggregate_condition_transition_bytes cap)
       (cap_terminal_result_structure_bytes cap, cap_portable_result_bytes cap, cap_encoded_outbox_bytes cap)) = true →
  valid_cloud_capacity cap ceiling = true.
Proof.
  intros Hg Hc Hi Hret Hnat Hdiag Hagg Hcond. unfold valid_cloud_capacity. rewrite Hcond.
  destruct (retention_fits (cap_maximum_invocations cap)) as (Hr & Hn & Hle); [done|]. rewrite <-Hret in Hr, Hn, Hle.
  rewrite Hagg, !andb_true_iff, !N.leb_le, bool_decide_eq_true, checked_add_Some. unfold u64_max.
  split_and!; done || lia.
Qed.

(** Conditions add to the base capacity only their own evidence. *)
Lemma resolve_workflow_capacity_parts W bytes cap :
  resolve_workflow_capacity W bytes = Ok cap →
  ∃ counts base, workflow_counts W = Ok counts ∧ calculate_capacity counts = Ok base
    ∧ cap_general_maximum_transitions cap = cap_general_maximum_transitions base
    ∧ cap_cloud_maximum_transitions cap = cap_cloud_maximum_transitions base
    ∧ cap_maximum_invocations cap = cap_maximum_invocations base
    ∧ cap_maximum_retained_bytes_per_invocation cap = cap_maximum_retained_bytes_per_invocation base
    ∧ cap_diagnostic_retention_bytes cap = cap_diagnostic_retention_bytes base
    ∧ cap_native_session_retention_bytes cap = cap_native_session_retention_bytes base
    ∧ cap_aggregate_retention_bytes cap = cap_aggregate_retention_bytes base
    ∧ (cap = base
       ∨ ∃ evidence, conditional_nodes W ≠ 0
         ∧ calculate_condition_evidence_capacity bytes = Ok evidence
         ∧ calculate_condition_outbox_reservation (cap_cloud_maximum_transitions cap) (N.of_nat (conditional_nodes W))
             (cec_condition_transition_bytes evidence) (cec_terminal_result_structure_bytes evidence)
           = Ok (cap_encoded_outbox_bytes cap)
         ∧ cap_condition_transition_count cap = N.of_nat (conditional_nodes W)
         ∧ cap_aggregate_condition_transition_bytes cap = cec_condition_transition_bytes evidence
         ∧ cap_terminal_result_structure_bytes cap = cec_terminal_result_structure_bytes evidence
         ∧ cap_portable_result_bytes cap = cec_portable_result_bytes evidence).
Proof.
  intros (counts & Hcounts & Hk)%result_bind_Ok. apply result_bind_Ok in Hk as (base & Hbase & Hk).
  exists counts, base. case_decide as Hno; [injection Hk as <-; split_and!; auto|].
  apply result_bind_Ok in Hk as (evidence & Hev & Hk). apply result_bind_Ok in Hk as (count & Hcount & Hk).
  apply result_bind_Ok in Hk as (outbox & Hbox & Hk). injection Hk as <-.
  unfold usize_to_u64 in Hcount. destruct (_ <=? _)%N; [|done]. injection Hcount as <-.
  unfold as_evidence_failure in Hev, Hbox.
  destruct (calculate_condition_evidence_capacity bytes) as [e|] eqn:Hce; [|done]. injection Hev as <-.
  destruct (calculate_condition_outbox_reservation _ _ _ _) as [b|] eqn:Hcb; [|done]. injection Hbox as <-.
  split_and!; try done. right. exists e. split_and!; done.
Qed.

(** C29: the producer and the consumers of a capacity agree: whatever
    [resolve_workflow_capacity] computes for a workflow, and the cloud
    contract admits within the supported budget, passes every numerical
    check that a reader of the published result makes. *)
Theorem admitted_cloud_capacity_is_valid W bytes cap ceiling :
  resolve_workflow_capacity W bytes = Ok cap →
  admit_capacity cap supported_maximum WorkflowV1CloudInputsArtifactsV1 = Ok ceiling →
  valid_cloud_capacity cap ceiling = true.
Proof.
  intros (counts & base & Hcounts & Hbase & Hg & Hc & Hi & Hret & Hdiag & Hnat & Hagg & Hcond)%resolve_workflow_capacity_parts
    (-> & Hinv & Hout)%admit_capacity_cloud.
  cbn [supported_maximum wcb_maximum_invocations wcb_encoded_outbox_bytes] in *.
  pose proof (workflow_counts_nodes _ _ Hcounts) as [Hsteps Hfin]. pose proof (conditional_nodes_le W) as Hnodes.
  apply calculate_capacity_Ok in Hbase as (Bg & Bc & Bgm & Bcm & Bi & Bipos & Bret & Bnat & Bdiag & Bagg & Bn & Ba & Bt & Bp & Bo).
  assert (Hoffset : (3 <= (if (cc_finalizers counts =? 0) then 3 else 6) <= 6)%N) by (destruct (_ =? _)%N; lia).
  apply cloud_capacity_checks; try congruence; try lia.
  destruct Hcond as [->|(evidence & Hne & Hev & Hbox & -> & -> & -> & ->)].
  - rewrite Bn, Ba, Bt, Bp, Bo. apply ordinary_condition_capacity_valid. lia.
  - eapply condition_capacity_valid; [| |exact Hev|exact Hbox|exact Hout|reflexivity]; lia.
Qed.

Lemma admitted_cloud_capacity_is_valid_witness :
  ∃ cap, resolve_workflow_capacity sample_workflow 0 = Ok cap
    ∧ admit_capacity cap supported_maximum WorkflowV1CloudInputsArtifactsV1 = Ok 28%N
    ∧ valid_cloud_capacity cap 28 = true.
Proof.
  eexists. split; [vm_compute; reflexivity|]. split; [vm_compute; reflexivity|].
  apply (admitted_cloud_capacity_is_valid sample_workflow 0); vm_compute; reflexivity.
Defined.
