(* ===== verification/Divergences.v ===== *)
(** * Where the engine departs from its documentation

    Concrete runs that show the places where the reducer does not do what the
    documentation of workflows promises: a condition on a workflow input
    whose pointer selects nothing, the transition ceiling of the cloud
    contract, and a run that stops at a failure and then waits for ever. *)

From S2P Require Import Prelude Text Nodes Evidence Condition Document Validated Validation Capacity Runtime Reducer Moves Quiet Cancelling Progress Scenario.

(** ** A missing pointer in a workflow input *)

(** The reference of a workflow input is none that a failed condition can
    record. *)
Lemma input_reference_unrecordable name : is_condition_json_reference ("inputs." ++ name) = false.
Proof.
  unfold is_condition_json_reference, is_output_reference.
  change ("inputs." ++ name) with ("inputs" ++ String "." name)%string.
  rewrite str_split_app by (vm_compute; set_solver).
  destruct (str_split "." name) as [|? [|? []]]; done.
Qed.

Lemma input_pointer_unrecordable name pointer :
  json_pointer_missing ("inputs." ++ name) pointer = Err FailureDetailError.
Proof.
  destruct (json_pointer_missing ("inputs." ++ name) pointer) as [d|e] eqn:Hd.
  - destruct (proj1 (json_pointer_missing_Ok ("inputs." ++ name) pointer)) as [Href _]; [eauto|].
    by rewrite input_reference_unrecordable in Href.
  - revert Hd. unfold json_pointer_missing, failure_detail_validate. repeat case_match; naive_solver.
Qed.

Definition region : JsonPointer := default {| jp_authored := ""; jp_tokens := [] |} (json_pointer_parse "/region").

(** [deploy] runs only in one region, read from a JSON input; [notify] has a
    condition that is always false. *)
Definition deploy_condition : ResolvedPredicate :=
  PEquals (json_reference "inputs.config" (Some region)) (json_literal (VString "eu")).

Definition conditioned (predicate : ResolvedPredicate) (values : btree ResolvedValueSource) : RuntimeStep :=
  {| rt_role := RoleStep; rt_is_agent := false; rt_failure_policy := Required; rt_condition := Some predicate;
     rt_condition_values := values; rt_prerequisites := []; rt_evidence_prerequisites := []; rt_inputs := [];
     rt_declared_outputs := []; rt_recovery := None; rt_when := [] |}.

Definition regional : RuntimeDefinition :=
  {| def_steps := [("deploy", conditioned deploy_condition [("inputs.config", SourceInput "config")]);
                   ("notify", conditioned (PNot (PAll [])) [])];
     def_ordinary_ids := ["deploy"; "notify"]; def_finalizer_ids := []; def_finalizer_presentation_order := [];
     def_exports := []; def_maximum_parallel_steps := 2; def_maximum_transitions := 13;
     def_text_inputs := []; def_json_inputs := [("config", Object [])] |}.

Definition start_of (s : string) (action : Action bool ScenarioCause ScenarioOutput N) : bool :=
  match action with StartStep t _ _ => bool_decide (t = s) | _ => false end.


(** ** The ceiling of the cloud contract *)

Definition single_workflow : ValidatedWorkflow :=
  {| vw_schema_version := 1; vw_description := None;
     vw_steps := [("build", VCommand (common [] [("log", {| vo_definition := TextPath "log.txt"; vo_value_type := TyText |})]) [] ["make"])];
     vw_recoveries := [("build", None)]; vw_source_order := ["build"]; vw_presentation_order := ["build"];
     vw_finalizers := []; vw_finalizer_source_order := []; vw_finalizer_presentation_order := [];
     vw_exports := []; vw_required_inputs := []; vw_input_json_schema_paths := [];
     vw_input_file_media_types := [] |}.

Definition cloud_ceiling (workflow : ValidatedWorkflow) : option N :=
  match resolve_workflow_capacity workflow 0 with
  | Ok capacity => result_ok (admit_capacity capacity supported_maximum WorkflowV1CloudInputsArtifactsV1)
  | Err _ => None
  end.

(** A step cancelled while its output is captured, then force aborted. *)
Definition aborted_occurrences : list SOccurrence :=
  [StepStarted "build" 1%N; StepExecutionCompleted "build" 1%N true;
   CancellationOperationRequested 1%N UserRequest 60%N; ForceAbortRequested 2%N 60%N;
   StepQuiesced "build" (for_force_abort 2 1)].


(** ** A run that waits for nothing *)

(** [report] reads the log of [build], on the condition that [check]
    succeeded. *)
Definition report_document : WorkflowDocument :=
  {| doc_schema_version := 1; doc_description := None; doc_inputs := []; doc_agent_profiles := [];
     doc_steps :=
       [("build", {| sd_body := command_body None [("log", TextPath "log.txt")] [] "make";
                     sd_control_dependencies := []; sd_recovery := None |});
        ("check", {| sd_body := command_body None [] [] "check"; sd_control_dependencies := []; sd_recovery := None |});
        ("report", {| sd_body := command_body (Some (CDisposition "check" DispSucceeded)) []
                                   [("log", RefOutput {| or_node := "build"; or_output := "log" |})] "report";
                      sd_control_dependencies := []; sd_recovery := None |})];
     doc_step_order := ["build"; "check"; "report"]; doc_finalizers := []; doc_finalizer_order := [];
     doc_exports := [] |}.

Definition report_workflow : ValidatedWorkflow := Eval vm_compute in
  match validate report_document with Ok W => W | Err _ => sample_workflow end.

(** [build] fails while [check] runs; [check] then succeeds. *)
Definition report_occurrences : list SOccurrence :=
  [StepStarted "build" 1%N; StepStarted "check" 2%N; StepExecutionFailed "build" 1%N CauseGeneric;
   StepExecutionCompleted "check" 2%N false].

Definition report_state : SState :=
  rd_state (drive (from_admitted (sample_admitted report_workflow 100)) report_occurrences).

(** C40: a run can stop at a failure and never end.  The document is valid.
    [build] fails, and stops the starts of further steps; [check] succeeds.
    The condition of [report] is then never evaluated, since the gate is no
    longer open, and as long as it is not, [report] is neither blocked for
    the log it reads nor left out: the run is not finished, no node is
    active, and every occurrence but a cancellation is rejected. *)
Theorem failure_stop_hangs :
  validate report_document = Ok report_workflow
  ∧ failure_stopped (rs_workflow report_state) = true ∧ is_finished (rs_workflow report_state) = false
  ∧ active_count report_state = 0
  ∧ (λ x, (state_kind (ss_state x), ss_condition_passed x)) <$> rs_steps report_state !! "report"%string
    = Some (KPending, false)
  ∧ ∀ o : SOccurrence, cancellation_requested o = false → rd_occurrence_accepted (reduce report_state o) = false.
Proof.
  split_and!; [vm_compute; reflexivity..|]. intros o. apply idle_rejects. vm_compute. reflexivity.
Qed.
