(* ===== verification/Correctness.v ===== *)
(** * What the reducer guarantees

    The properties of runs, each proved from the invariants of the
    components, with a concrete run of the sample workflow where a property
    has hypotheses. *)

From S2P Require Import Prelude Text Nodes Evidence Condition Validated Capacity Runtime Reducer Moves Refinement Views Stabilize Occurrences Runs Ceiling NodeSteps NodeInvariants Phases Scheduling Containment Numbering Termination Scenario.

(** ** The sample run *)

Lemma sample_workflow_wf : validated_wf sample_workflow.
Proof.
  split; [repeat constructor|repeat constructor|..].
  - simpl. set_solver.
  - done.
  - intros s v. simpl. repeat case_decide; intros; simplify_eq/=; unfold MAXIMUM_RETRIES; lia.
Qed.

Lemma sample_wf : definition_wf sample.
Proof. destruct (from_workflow_wf sample_workflow 2 31 sample_workflow_wf); by split. Qed.

Lemma drive_reachable definition occurrences : reachable (Provisional := bool) definition (rd_state (drive definition occurrences)).
Proof.
  unfold drive, start.
  assert (Hstart : reachable (Provisional := bool) definition
    (rd_state (initialize_seeded_definition (Provisional := bool) (Cause := ScenarioCause) (Output := ScenarioOutput)
       (Deadline := N) definition None []))).
  { apply reach_initial. intros s v Hs. discriminate Hs. }
  revert Hstart. generalize (initialize_seeded_definition (Provisional := bool) (Cause := ScenarioCause)
    (Output := ScenarioOutput) (Deadline := N) definition None []).
  induction occurrences as [|o l IH]; intros r Hr; cbn [foldl]; [exact Hr|].
  apply IH, reach_reduce, Hr.
Qed.

Definition sample_state : SState := rd_state (drive sample sample_occurrences).
Definition sample_final : SState := rd_state (drive sample (sample_occurrences ++ sample_completion)).

Lemma sample_state_reachable : reachable (Provisional := bool) sample sample_state.
Proof. apply drive_reachable. Qed.
Lemma sample_final_reachable : reachable (Provisional := bool) sample sample_final.
Proof. apply drive_reachable. Qed.

Lemma sample_state_wf : wf sample_state.
Proof. by eapply reachable_wf; [apply sample_wf|apply sample_state_reachable]. Qed.

(** The runs that follow a state. *)
Section properties.
Context {Provisional Cause Output Deadline : Type}.
Context `{!SerdeJson, !NodeFailureSource Cause, !ConditionOutput Output,
          !ProvisionalStepResources Provisional}.

Local Abbreviation State := (RuntimeState Cause Output Deadline).
Local Abbreviation Red := (Reduction Provisional Cause Output Deadline).
Local Abbreviation Occ := (Occurrence Provisional Cause Output Deadline).

Implicit Types (st : State) (s t : string) (d : RuntimeStep) (D : RuntimeDefinition) (o : Occ).

Definition follows : relation State := rtc (λ st st', ∃ o, st' = rd_state (reduce st o)).

Lemma follows_wf st st' : follows st st' → wf st → wf st'.
Proof.
  induction 1 as [|st1 st2 st3 [o ->] _ IH]; [done|]. intros Hwf. apply IH.
  pose proof (moves_same _ _ (reduce_moves st1 o Hwf)) as Hs. by eapply (same_nodes_wf (begin st1)).
Qed.

Lemma follows_contained role st st' :
  follows st st' → wf st → role_contained role st → role_contained role st'.
Proof.
  induction 1 as [|st1 st2 st3 [o ->] Hf IH]; [done|]. intros Hwf Hc. apply IH.
  - by eapply (follows_wf st1), Hwf; apply rtc_once; exists o.
  - by eapply (moves_contained role (begin st1)); [apply reduce_moves|..].
Qed.

(** What an accepted occurrence contains stays contained. *)
Lemma accepted_contains D role st o st' :
  definition_wf D → reachable (Provisional := Provisional) D st → is_finished (rs_workflow st) = false →
  (∀ r, apply_occurrence (begin st) o = (true, r) → role_contained role (rd_state r)) →
  rd_occurrence_accepted (reduce st o) = true → follows (rd_state (reduce st o)) st' → role_contained role st'.
Proof.
  intros HD Hr Hfin Hcont Hacc Hfol. destruct (reachable_node_ok D st HD Hr) as (Hn & Hwf & _).
  eapply follows_contained; [done|..].
  { eapply (same_nodes_wf (begin st)); [apply moves_same, reduce_moves, Hwf|done]. }
  destruct (reduce_cases st o Hwf Hfin) as [(r & Happly & Heq)|(r & Happly & _ & _ & Hm)].
  - destruct (apply_occurrence_rejected st o r Hwf Hn Hfin Happly) as (_ & _ & ?). congruence.
  - pose proof (apply_occurrence_moves (begin st) o Hwf) as Hext. rewrite Happly in Hext. cbn [snd] in Hext.
    eapply (moves_contained role (set_accepted true r)); [by apply internal_moves_move| |exact (Hcont r Happly)].
    change (wf (rd_state r)). by apply (same_nodes_wf (begin st) r); [apply external_moves_same|].
Qed.

(** C14: every reduction of a well-formed run is a sequence of the moves of
    the abstract transition system, starting from the run as it was: the
    reducer adds no behaviour of its own. *)
Theorem reduce_refines_moves st o : wf st → rtc move (begin st) (reduce st o).
Proof. apply reduce_moves. Qed.

(** C12: a node is started only when its prerequisites are satisfied, and
    they stay satisfied: in every reachable state, an ordinary step that has
    been authorized has all its control, data and disposition prerequisites
    met, and a finalizer that has been authorized was selected by the
    trigger, has only terminal prerequisites and every output it reads. *)
Theorem started_node_prerequisites D st s d x :
  definition_wf D → reachable (Provisional := Provisional) D st →
  node_at st s d x → is_Some (ss_target_execution x) →
  match rt_role d with
  | RoleStep => forallb (ordinary_prerequisite_satisfied st) (rt_prerequisites d) = true
  | RoleFinalizer =>
      forallb (λ p, step_is is_terminal st (rdp_producer p)) (rt_prerequisites d) = true
      ∧ unavailable_references st d = []
      ∧ ∃ f, rs_finalization st = Some f ∧ fnr_trigger f ∈ rt_when d
  end.
Proof. intros HD Hr Hat Hs. exact (reachable_started D st HD Hr s d x Hat Hs). Qed.

(** C13: at most [maximum_parallel_steps] nodes are active at once, retries,
    recovery handlers and cancelling nodes included. *)
Theorem parallelism_bound D st :
  definition_wf D → reachable (Provisional := Provisional) D st →
  active_count st <= def_maximum_parallel_steps D.
Proof.
  intros HD Hr. apply (reachable_invariant parallel_ok D st) in Hr as (Hok & _ & <-); [done|..|done].
  - intros seed _. by apply initial_parallel.
  - intros r r' Hm Hw _. by apply move_parallel.
Qed.

(** C15: a terminal node never changes again: reducing any occurrence keeps
    the state of every node that was terminal. *)
Theorem terminal_nodes_are_final st o s x :
  wf st → rs_steps st !! s = Some x → is_terminal (ss_state x) = true →
  ∃ x', rs_steps (rd_state (reduce st o)) !! s = Some x' ∧ ss_state x' = ss_state x.
Proof.
  intros Hwf Hx Ht. pose proof (moves_extends _ _ (reduce_moves st o Hwf)) as He.
  by eapply (ex_terminal _ _ He).
Qed.

(** C16: the phases of a run are ordered.  While ordinary steps execute, no
    finalizer has left [Pending]; finalization begins only once every
    ordinary step is terminal; a run ends only once every node is, and then
    its exports are recorded. *)
Theorem phases_are_ordered D st :
  definition_wf D → reachable (Provisional := Provisional) D st →
  ∀ s d x, node_at st s d x →
  match rs_workflow st with
  | WExecuting _ => rt_role d = RoleFinalizer → ss_state x = SPending
  | WFinalizing _ _ _ => rt_role d = RoleStep → is_terminal (ss_state x) = true
  | WSucceeded | WFailed _ _ | WCancelled _ => is_terminal (ss_state x) = true ∧ is_Some (rs_exports st)
  end.
Proof.
  intros HD Hr s d x Hat. apply (reachable_phase_ok D st HD) in Hr as (Hok & _ & _). unfold phase_ok in Hok.
  destruct (rs_workflow st); [exact (proj1 Hok s d x Hat)|exact (proj1 Hok s d x Hat)|..];
    destruct Hok as (H1 & H2 & H3), (rt_role d) eqn:Hrole; eauto.
Qed.

(** C17: a run that reports success is clean: no node was cancelled, every
    failed or blocked node is advisory, and only finalizers were left
    out. *)
Theorem succeeded_run_is_clean D st s d x :
  definition_wf D → reachable (Provisional := Provisional) D st → rs_workflow st = WSucceeded →
  node_at st s d x →
  match ss_state x with
  | SSucceeded _ | SSkipped _ | SInherited _ _ _ => True
  | SFailed _ | SBlocked _ => rt_failure_policy d = Advisory
  | SNotRun _ => rt_role d = RoleFinalizer
  | _ => False
  end.
Proof.
  intros HD Hr Hw Hat. pose proof (reachable_clean_ok D st HD Hr) as Hclean.
  apply (reachable_phase_ok D st HD) in Hr as (Hok & _ & _). unfold phase_ok in Hok. rewrite Hw in Hok.
  unfold clean_ok in Hclean. rewrite Hw in Hclean. specialize (Hclean I s d x Hat).
  destruct Hok as (H1 & H2 & _). assert (Ht : is_terminal (ss_state x) = true) by (destruct (rt_role d) eqn:?; eauto).
  by destruct (ss_state x).
Qed.

(** C18: recovery is bounded and its records are numbered: a node never has
    more rounds than its definition configures, round [i] and the execution
    that failed before it both carry the number [i], and an active target
    runs the execution after its last round. *)
Theorem recovery_rounds_numbered D st s d x :
  definition_wf D → reachable (Provisional := Provisional) D st → node_at st s d x →
  rrr_number <$> rounds_of x = numbered (length (rounds_of x))
  ∧ (ptf_execution_number ∘ rrr_failed_execution) <$> rounds_of x = numbered (length (rounds_of x))
  ∧ (N.of_nat (length (rounds_of x)) <= match rt_recovery d with Some c => rr_retries c | None => 0 end)%N
  ∧ (target_active (ss_state x) = true →
     ss_active_invocation x = Some (ActiveTarget (N.of_nat (length (rounds_of x)) + 1))).
Proof.
  intros HD Hr Hat. destruct (proj1 (reachable_node_ok D st HD Hr) _ _ _ Hat) as [(H1 & H2 & H3) Hact].
  split_and!; [done..| |].
  - unfold rounds_of. destruct (ss_recovery x) as [v|]; [|simpl; lia].
    destruct H3 as (c & -> & <- & _ & ?). done.
  - unfold activity_ok in Hact. destruct (ss_state x); try done; intros _; by destruct Hact as (_ & _ & _ & ?).
Qed.

(** An occurrence that is not accepted changes nothing: the run is left
    as it was and no event is emitted. *)
Lemma rejected_occurrence_changes_nothing D st o :
  definition_wf D → reachable (Provisional := Provisional) D st →
  rd_occurrence_accepted (reduce st o) = false →
  rd_state (reduce st o) = st ∧ rd_events (reduce st o) = [].
Proof.
  intros HD Hr Hacc. destruct (reachable_node_ok D st HD Hr) as (Hn & Hwf & _).
  destruct (is_finished (rs_workflow st)) eqn:Hfin.
  - unfold reduce. by rewrite Hfin.
  - destruct (reduce_cases st o Hwf Hfin) as [(r & Happly & ->)|(r & _ & _ & Ht & _)]; [|congruence].
    by destruct (apply_occurrence_rejected st o r Hwf Hn Hfin Happly) as (? & ? & _).
Qed.

(** A finished run is final: every further occurrence is discarded, and
    at most the resources it carries are released. *)
Lemma finished_run_is_final st o :
  is_finished (rs_workflow st) = true →
  rd_state (reduce st o) = st ∧ rd_events (reduce st o) = []
  ∧ rd_occurrence_accepted (reduce st o) = false
  ∧ Forall (λ a, ∃ provisional, ra_action a = ReleaseStepResources provisional) (rd_actions (reduce st o)).
Proof.
  intros Hfin. unfold reduce. rewrite Hfin. split_and!; [done..|]. unfold discard_occurrence. simpl.
  destruct o; simpl; try constructor. destruct (requires_release provisional); repeat constructor; eauto.
Qed.

(** C19: an accepted cancellation contains the ordinary steps for good: after
    it, and in every state that follows, each ordinary step is cancelling or
    terminal, so none is ever started or retried again. *)
Theorem cancellation_contains_steps D st operation reason deadline st' :
  definition_wf D → reachable (Provisional := Provisional) D st →
  is_executing (rs_workflow st) = true →
  rd_occurrence_accepted (reduce st (CancellationOperationRequested operation reason deadline : Occ)) = true →
  follows (rd_state (reduce st (CancellationOperationRequested operation reason deadline : Occ))) st' →
  role_contained RoleStep st'.
Proof.
  intros HD Hr Hex. apply (accepted_contains D); [done..|by destruct (rs_workflow st)|].
  intros r Happly. destruct (reachable_node_ok D st HD Hr) as (Hn & Hwf & _). cbn [apply_occurrence] in Happly.
  destruct (_ || _); [done|]. unfold apply_cancellation in Happly. cbn [begin rd_state] in Happly.
  destruct (rs_workflow st); try done.
  eapply (acceptance_cancelled (begin st)); [exact Hwf|exact Hn|]. exact (ordinary_cancellation_accepted _ _ _ _ Happly).
Qed.

(** An accepted force abort of a run whose ordinary steps execute
    contains them for good as well, whatever the gate was. *)
Lemma force_abort_contains_steps D st operation deadline st' :
  definition_wf D → reachable (Provisional := Provisional) D st →
  is_executing (rs_workflow st) = true →
  rd_occurrence_accepted (reduce st (ForceAbortRequested operation deadline : Occ)) = true →
  follows (rd_state (reduce st (ForceAbortRequested operation deadline : Occ))) st' →
  role_contained RoleStep st'.
Proof.
  intros HD Hr Hex. apply (accepted_contains D); [done..|by destruct (rs_workflow st)|].
  intros r Happly. destruct (reachable_node_ok D st HD Hr) as (Hn & Hwf & _). cbn [apply_occurrence] in Happly.
  destruct (stale_operation _ _); [done|].
  eapply (acceptance_cancelled (begin st)); [exact Hwf|exact Hn|].
  apply force_abort_accepted in Happly. unfold phase_role in Happly. cbn [begin rd_state] in Happly. rewrite Hex in Happly. exact Happly.
Qed.

(** The events of a reduction are numbered consecutively: the first
    takes the number after the run's last one, and the run's last number
    advances by the number of events. *)
Lemma events_numbered_consecutively D st o :
  definition_wf D → reachable (Provisional := Provisional) D st →
  (def_maximum_transitions D < u64_max)%N →
  rs_transition_capacity_exceeded (rd_state (reduce st o)) = false →
  rs_last_transition_sequence (rd_state (reduce st o))
  = (rs_last_transition_sequence st + N.of_nat (length (rd_events (reduce st o))))%N
  ∧ ∀ i e, rd_events (reduce st o) !! i = Some e →
      event_sequence e = (rs_last_transition_sequence st + 1 + N.of_nat i)%N.
Proof.
  intros HD Hr Hmax. destruct (reachable_wf D st HD Hr) as [Hwf Hdef].
  apply (moves_numbered (rs_last_transition_sequence st) (begin st)); [done|by apply reduce_moves|by simpl; rewrite Hdef|].
  intros _. simpl. split; [lia|done].
Qed.

(** The events of a reduction tell the whole history of every node: the
    changes of kind recorded for a node start at its kind before the
    reduction, chain, and end at its kind after it. *)
Lemma events_trace_nodes st o s k k' :
  wf st → kind_at st s = Some k → kind_at (rd_state (reduce st o)) s = Some k' →
  chains k (node_changes s (rd_events (reduce st o))) k'.
Proof.
  intros Hwf Hk. apply (moves_path s k (begin st) (reduce st o) Hwf (reduce_moves st o Hwf)).
  intros k1 Hk1. unfold kind_at in *. cbn [begin rd_state rd_events] in *. simpl. congruence.
Qed.
(** C20: every loop of stabilisation ends by its own exit condition, for any
    state it may start from: the ordinary propagation, the conditions of each
    role, the two loops over finalizers, and the outer loop, which stops at
    the first round that takes no transition number.  The evidence a node may
    need is assumed to be representable, as validation guarantees. *)
Theorem stabilization_terminates (r : Red) :
  wf (rd_state r) → definition_evidence_ok (rs_definition (rd_state r)) →
  (rs_last_transition_sequence (rd_state r) <= u64_max)%N →
  stabilizes r (stabilize r)
  ∧ runs_to propagate_ordinary_body r (propagate_ordinary_pending_dispositions r)
  ∧ (∀ role, runs_to (λ r, evaluate_ready_condition r role) r (evaluate_ready_conditions r role))
  ∧ (is_finalizing (rs_workflow (rd_state r)) = true →
      ∃ r1, runs_to condition_block_body (propagate_finalizer_trigger_dispositions r) r1
        ∧ runs_to input_unavailable_body r1 (propagate_finalizer_dispositions r)).
Proof.
  intros Hwf Hev Hle. split_and!.
  - apply stabilize_loop_terminates; [done..|lia].
  - by apply propagate_ordinary_terminates.
  - intros role. by apply evaluate_ready_conditions_terminate.
  - by apply finalizer_dispositions_terminate.
Qed.

End properties.

(** ** The properties on the sample run *)

(** The recheck that completes the recovery of the sample run. *)
Definition sample_recheck : SOccurrence :=
  RecoveryHandlerCompleted "deploy" 1 7 {| dec_kind := Recheck; dec_summary := ""; dec_reason := "" |}.

Definition sample_cancellation : SOccurrence := CancellationOperationRequested 1%N UserRequest 60%N.
Definition sample_force_abort : SOccurrence := ForceAbortRequested 1%N 60%N.

(** A node of a run, and its definition. *)
Definition node_of (st : SState) (s : string) : StepRuntimeState ScenarioCause ScenarioOutput :=
  default (initial_step [] s (plain_step RoleStep [] [])) (rs_steps st !! s).
Definition step_of (st : SState) (s : string) : RuntimeStep :=
  default (plain_step RoleStep [] []) (def_step st s).

Lemma reduce_refines_moves_witness :
  wf sample_state ∧ rtc move (begin sample_state) (reduce sample_state sample_recheck).
Proof. split; [exact sample_state_wf|]. apply (reduce_refines_moves sample_state). exact sample_state_wf. Defined.

Lemma started_node_prerequisites_witness :
  rt_prerequisites (step_of sample_state "deploy") = [control_on "build"]
  ∧ forallb (ordinary_prerequisite_satisfied sample_state) (rt_prerequisites (step_of sample_state "deploy")) = true.
Proof.
  split; [vm_compute; reflexivity|].
  apply (started_node_prerequisites (Provisional := bool) sample sample_state "deploy" (step_of sample_state "deploy")
           (node_of sample_state "deploy")).
  - exact sample_wf.
  - exact sample_state_reachable.
  - split; vm_compute; reflexivity.
  - vm_compute. eauto.
Defined.

Lemma parallelism_bound_witness :
  active_count sample_state = 1 ∧ active_count sample_state <= def_maximum_parallel_steps sample.
Proof.
  split; [vm_compute; reflexivity|].
  apply (parallelism_bound (Provisional := bool)); [exact sample_wf|exact sample_state_reachable].
Defined.

Lemma terminal_nodes_are_final_witness :
  state_kind (ss_state (node_of sample_state "build")) = KSucceeded
  ∧ ∃ x', rs_steps (rd_state (reduce sample_state sample_cancellation)) !! "build" = Some x'
          ∧ ss_state x' = ss_state (node_of sample_state "build").
Proof.
  split; [vm_compute; reflexivity|]. apply terminal_nodes_are_final.
  - exact sample_state_wf.
  - vm_compute. reflexivity.
  - vm_compute. reflexivity.
Defined.

Lemma phases_are_ordered_witness :
  rs_workflow sample_state = WExecuting GateOpen
  ∧ (rt_role (step_of sample_state "report") = RoleFinalizer → ss_state (node_of sample_state "report") = SPending).
Proof.
  split; [vm_compute; reflexivity|].
  apply (phases_are_ordered (Provisional := bool) sample sample_state sample_wf sample_state_reachable "report"
           (step_of sample_state "report") (node_of sample_state "report")).
  split; vm_compute; reflexivity.
Defined.

Lemma succeeded_run_is_clean_witness :
  match ss_state (node_of sample_final "deploy") with
  | SSucceeded _ | SSkipped _ | SInherited _ _ _ => True
  | SFailed _ | SBlocked _ => rt_failure_policy (step_of sample_final "deploy") = Advisory
  | SNotRun _ => rt_role (step_of sample_final "deploy") = RoleFinalizer
  | _ => False
  end.
Proof.
  apply (succeeded_run_is_clean (Provisional := bool) sample sample_final "deploy").
  - exact sample_wf.
  - exact sample_final_reachable.
  - vm_compute. reflexivity.
  - split; vm_compute; reflexivity.
Defined.

Lemma recovery_rounds_numbered_witness :
  length (rounds_of (node_of sample_state "deploy")) = 1
  ∧ (rrr_number <$> rounds_of (node_of sample_state "deploy")
     = numbered (length (rounds_of (node_of sample_state "deploy")))).
Proof.
  split; [vm_compute; reflexivity|].
  refine (proj1 (recovery_rounds_numbered (Provisional := bool) sample sample_state "deploy"
    (step_of sample_state "deploy") (node_of sample_state "deploy") _ _ _)).
  - exact sample_wf.
  - exact sample_state_reachable.
  - split; vm_compute; reflexivity.
Defined.


Lemma cancellation_contains_steps_witness :
  role_contained RoleStep (rd_state (reduce sample_state sample_cancellation)).
Proof.
  eapply (cancellation_contains_steps (Provisional := bool) sample sample_state 1%N UserRequest 60%N).
  - exact sample_wf.
  - exact sample_state_reachable.
  - vm_compute. reflexivity.
  - vm_compute. reflexivity.
  - apply rtc_refl.
Defined.


Lemma sample_evidence_ok : definition_evidence_ok sample.
Proof.
  intros s d. simpl. repeat case_decide; intros; simplify_eq/=; (split; [simpl; unfold MAXIMUM_PREREQUISITES; lia|set_solver]).
Qed.

Lemma stabilization_terminates_witness :
  let r : SReduction := begin sample_state in stabilizes r (stabilize r).
Proof.
  refine (proj1 (stabilization_terminates (begin sample_state) _ _ _)).
  - exact sample_state_wf.
  - exact sample_evidence_ok.
  - vm_compute. discriminate.
Defined.
