(* ===== verification/CoordinatorRuns.v ===== *)
(** * Properties of coordinated runs

    The guarantees of [Coordination] and [Resources] for every run of the
    coordinator, each with a concrete run of the sample workflow. *)

From S2P Require Import Prelude Text Nodes Evidence Condition Validated Capacity Runtime CancellationSource Reducer OccurrenceDigest Coordinator Moves Refinement Views Stabilize Occurrences Runs Ceiling NodeSteps Numbering Coordination Resources Scenario Correctness.

Section properties.
Context {Provisional Cause Output Instant : Type}.
Context `{!SerdeJson, !NodeFailureSource Cause, !ConditionOutput Output, !ProvisionalStepResources Provisional}.
Context `{!DriverOccurrenceContent Provisional, !DriverOccurrenceContent Cause, !DriverOccurrenceContent Output}.
Context `{!Sha256, !CoordinatorClock Instant}.

Local Abbreviation State := (RuntimeState Cause Output Instant).
Local Abbreviation Coord := (Coordinator (Provisional := Provisional) (Cause := Cause) (Output := Output) (Instant := Instant)).

Implicit Types (c : Coord) (t : Turn (Instant := Instant)) (st : State).

(** C21: a coordinated run of a workflow admitted under the general contract
    never fails for lack of transition capacity, whatever the drivers report,
    whoever cancels and whenever. *)
Theorem coordinator_capacity_suffices admitted seed grace bytes cap budget source deliveries first l c error :
  validated_wf (adm_definition admitted) → resolve_workflow_capacity (adm_definition admitted) bytes = Ok cap →
  admit_capacity cap budget General = Ok (adm_maximum_transitions admitted) →
  seed_wf (from_admitted admitted) seed →
  run (Provisional := Provisional) (Cause := Cause) (Instant := Instant) admitted seed grace source deliveries first l
    = (c, Some (Err error)) →
  error ≠ TransitionCapacityExceeded.
Proof.
  intros HW Hcap Hadmit Hseed Hrun ->. pose proof (from_admitted_wf admitted HW) as HD.
  assert (Hmax : (def_maximum_transitions (from_admitted admitted) < u64_max)%N).
  { apply admit_capacity_general in Hadmit. pose proof (resolve_general_bound _ _ _ Hcap). simpl. unfold u64_max. lia. }
  pose proof (run_ends admitted seed grace HD Hmax Hseed source deliveries first l) as Hends. rewrite Hrun in Hends.
  destruct Hends as [_ (st & Hreach & Hexc)].
  destruct (admitted_within_ceiling (Provisional := Provisional) admitted bytes cap budget st HW Hcap Hadmit Hreach). congruence.
Qed.

(** C22: the log of a run is numbered without gaps, however the run goes on
    or ends: its commits carry the ordinals 1, 2, 3, ..., and the events of
    all commits, in order, the transition numbers 1, 2, 3, ... *)
Theorem committed_log_is_numbered admitted seed grace source deliveries first l c res :
  definition_wf (from_admitted admitted) → (adm_maximum_transitions admitted < u64_max)%N →
  seed_wf (from_admitted admitted) seed →
  run (Provisional := Provisional) (Cause := Cause) (Instant := Instant) admitted seed grace source deliveries first l
    = (c, res) →
  cm_occurrence_ordinal <$> commits (co_effects c) = N.of_nat <$> seq 1 (length (commits (co_effects c)))
  ∧ ∀ i e, mjoin (cm_events <$> commits (co_effects c)) !! i = Some e → event_sequence e = (1 + N.of_nat i)%N.
Proof.
  intros HD Hmax Hseed Hrun. pose proof (run_ends admitted seed grace HD Hmax Hseed source deliveries first l) as Hends.
  rewrite Hrun in Hends. destruct res as [res|]; [destruct Hends as [(H1 & H2 & _) _]|destruct Hends as [[] _]]; done.
Qed.

(** C23: actions follow commits: every action that the coordinator releases,
    other than a release of resources, was recorded by a commit that
    succeeded before. *)
Theorem actions_follow_commits admitted seed grace source deliveries first l c res before a after :
  definition_wf (from_admitted admitted) → (adm_maximum_transitions admitted < u64_max)%N →
  seed_wf (from_admitted admitted) seed →
  run (Provisional := Provisional) (Cause := Cause) (Instant := Instant) admitted seed grace source deliveries first l
    = (c, res) →
  co_effects c = (before ++ ERelease a :: after)%list →
  (∃ p, ra_action a = ReleaseStepResources p)
  ∨ ∃ record action, record ∈ commits before ∧ committed_action a = Some action ∧ action ∈ cm_actions record.
Proof.
  intros HD Hmax Hseed Hrun Heff. pose proof (run_ends admitted seed grace HD Hmax Hseed source deliveries first l) as Hends.
  rewrite Hrun in Hends. assert (Hrel : released_after_commit (co_effects c))
    by (destruct res as [res|]; [destruct Hends as [(_ & _ & ?) _]|destruct Hends as [[] _]]; done).
  exact (Hrel before a after Heff).
Qed.

(** C24: what a coordinator returns is the run that it committed last: the
    state is finished and reachable, it is the state of the last commit, and
    the ordinal counts the commits. *)
Theorem coordinator_returns_last_commit admitted seed grace source deliveries first l c st ordinal :
  definition_wf (from_admitted admitted) → (adm_maximum_transitions admitted < u64_max)%N →
  seed_wf (from_admitted admitted) seed →
  run (Provisional := Provisional) (Cause := Cause) (Instant := Instant) admitted seed grace source deliveries first l
    = (c, Some (Ok (st, ordinal))) →
  is_finished (rs_workflow st) = true ∧ reachable (Provisional := Provisional) (from_admitted admitted) st
  ∧ ordinal = N.of_nat (length (commits (co_effects c)))
  ∧ ∀ record, last (commits (co_effects c)) = Some record → cm_state record = st.
Proof.
  intros HD Hmax Hseed Hrun. pose proof (run_ends admitted seed grace HD Hmax Hseed source deliveries first l) as Hends.
  rewrite Hrun in Hends. destruct Hends as (_ & [[Hstate _ Hord _ Hlast _] _] & Hst & -> & Hfin).
  split_and!; [done|by apply Hstate|done|]. intros record Hr. apply Hlast in Hr. congruence.
Qed.

(** An occurrence that was observed before is not applied again: its
    repetition is committed as rejected, with no events, the run keeps its
    state, and at most the resources the repetition holds are released. *)
Lemma repeated_occurrence_is_discarded capacity grace t c st d rest o ordinal :
  co_state c = Some st → rs_transition_capacity_exceeded st = false →
  turn_input t = DriverReady → turn_commit_ok t = true →
  (next_operation (foldl run_request (co_source c) (turn_requests t)) (co_next_index c)).1 = None →
  co_pending c = None → co_channel c = d :: rest → (d = Ready o ∨ d = Acknowledged o) →
  co_observed c !! identity o = Some (occurrence_content_digest o) → ordinal_next (co_ordinal c) = Some ordinal →
  let c' := (turn capacity grace t c).1 in
  co_state c' = Some st
  ∧ ∃ record effects, co_effects c' = (co_effects c ++ ECommit record true :: effects)%list
    ∧ cm_occurrence_accepted record = false ∧ cm_state record = st ∧ cm_events record = [] ∧ cm_actions record = []
    ∧ ∀ a, ERelease a ∈ effects → occurrence_resource_release (into_runtime o) = Some a.
Proof.
  intros Hst Hexc Hin Hok Hop Hpend Hchan Hd Hobs Hnext. unfold turn. cbn [requests set_source co_source co_next_index].
  destruct (next_operation _ _) as [operation next_index]. cbn [fst] in Hop. subst operation.
  rewrite Hin. unfold recv_delivery. cbn [requests set_source co_pending co_channel]. rewrite Hpend, Hchan.
  cbn [set_channel co_source].
  assert (Hsel : ∃ ack, select d = SelResolved o ack) by (destruct Hd as [->| ->]; by eexists).
  destruct Hsel as [ack ->]. unfold driver_turn. cbn [is_resolved resolve co_ordinal set_channel requests set_source].
  rewrite Hnext. cbn [set_ordinal co_observed set_channel requests set_source]. rewrite Hobs, decide_True by done.
  unfold reduce_turn. cbn [co_ordinal set_ordinal co_state set_channel requests set_source]. rewrite Hst.
  cbn [discard_occurrence rd_state]. rewrite Hexc. unfold commit. rewrite Hok.
  cbn [discard_occurrence rd_events entered_finalization existsb rd_state negb rd_actions rd_occurrence_accepted].
  split; [by destruct ack, (is_finished (rs_workflow st))|].
  exists (record_of ordinal (discard_occurrence st (into_runtime o))),
    ((if ack then [EDecision false] else [])
     ++ (ERelease <$> rd_actions (discard_occurrence (Deadline := Instant) st (into_runtime o))))%list.
  split; [by destruct ack, (is_finished (rs_workflow st)); cbn; rewrite <-?app_assoc|].
  split_and!; [done..| |].
  - cbn. destruct o as [| |? ? p| | | | | | | |? ? []|? ? []|? []|]; try done. cbn. by destruct (requires_release p).
  - intros a. rewrite elem_of_app. intros [Ha|Ha]; [destruct ack; set_solver|].
    apply list_elem_of_fmap in Ha as (b & [= <-] & Hb). cbn [discard_occurrence rd_actions] in Hb.
    destruct (occurrence_resource_release _) as [b'|]; set_solver.
Qed.
End properties.

(** ** A coordinated run of the sample workflow *)

#[export] Instance scenario_provisional_content : DriverOccurrenceContent bool :=
  {| update_occurrence_digest := λ b : bool, write_tag (if b then 1 else 0) |}.
#[export] Instance scenario_cause_content : DriverOccurrenceContent ScenarioCause :=
  {| update_occurrence_digest _ := write_tag 0 |}.
#[export] Instance scenario_output_content : DriverOccurrenceContent ScenarioOutput :=
  {| update_occurrence_digest o :=
       match o with
       | OutText text => (write_tag 0 ++ write_bytes (bytes text))%list
       | OutJson _ => write_tag 1
       end |}.

(** The whole text stands for its digest, and instants are seconds. *)
#[export] Instance scenario_sha256 : Sha256 := {| sha256 l := l |}.
#[export] Instance scenario_clock : CoordinatorClock N := {| ClockDuration := N; instant_add := N.add |}.

Definition sample_grace : ClockDuration (Instant := N) := 60%N.

Abbreviation SDelivery :=
  (DriverOccurrenceDelivery (Provisional := bool) (Cause := ScenarioCause) (Output := ScenarioOutput)).
Abbreviation STurn := (Turn (Instant := N)).
Abbreviation SCoordinator :=
  (Coordinator (Provisional := bool) (Cause := ScenarioCause) (Output := ScenarioOutput) (Instant := N)).

(** The build succeeds, the deployment fails once and is rechecked; the
    start of the build is reported twice. *)
Definition sample_deliveries : list SDelivery :=
  [Ready (StepStarted "build" 1); Ready (StepStarted "build" 1); Acknowledged (StepExecutionCompleted "build" 1 true);
   Ready (OutputsCaptured "build" 3 [("log", OutText "ok")]); Ready (StepStarted "deploy" 5);
   Claimed (StepExecutionFailed "deploy" 5 CauseGeneric) true true; Ready (RecoveryHandlerStarted "deploy" 1 7);
   Ready (RecoveryHandlerCompleted "deploy" 1 7 {| dec_kind := Recheck; dec_summary := ""; dec_reason := "" |});
   Ready (StepStarted "deploy" 9); Ready (StepExecutionCompleted "deploy" 9 false);
   Ready (StepStarted "report" 14); Ready (StepExecutionCompleted "report" 14 false)].

Definition quiet_turn (input : TurnInput) : STurn :=
  {| turn_now := 0%N; turn_requests := []; turn_input := input; turn_requests_before_commit := [];
     turn_requests_during_commit := []; turn_commit_ok := true |}.

Definition sample_turns (n : nat) : list STurn := repeat (quiet_turn DriverReady) n.

Abbreviation sample_run n :=
  (run (Provisional := bool) (Cause := ScenarioCause) (Output := ScenarioOutput) (Instant := N)
     (sample_admitted sample_workflow 31) [] sample_grace cancellation_operation_state_default sample_deliveries
     (quiet_turn DriverReady) (sample_turns n)).

Definition sample_coordinator (n : nat) : SCoordinator := (sample_run n).1.

Lemma sample_run_seed_wf : seed_wf (Output := ScenarioOutput) (from_admitted (sample_admitted sample_workflow 31)) [].
Proof. intros s v Hs. discriminate Hs. Qed.

(** A run whose drivers disappear. *)
Lemma coordinator_capacity_suffices_witness :
  ∃ error, (sample_run 12).2 ≠ Some (Err error)
  ∧ (run (Provisional := bool) (Cause := ScenarioCause) (Output := ScenarioOutput) (Instant := N)
     (sample_admitted sample_workflow 31) [] sample_grace cancellation_operation_state_default []
     (quiet_turn DriverReady) (sample_turns 1)).2 = Some (Err error) ∧ error ≠ TransitionCapacityExceeded.
Proof.
  exists OccurrenceChannelClosed. split; [vm_compute; discriminate|]. split; [vm_compute; reflexivity|].
  eapply (coordinator_capacity_suffices (Provisional := bool) (Cause := ScenarioCause) (Instant := N)
    (sample_admitted sample_workflow 31) [] sample_grace 0 _ supported_maximum
    cancellation_operation_state_default [] (quiet_turn DriverReady) (sample_turns 1)).
  - exact sample_workflow_wf.
  - vm_compute. reflexivity.
  - vm_compute. reflexivity.
  - exact sample_run_seed_wf.
  - vm_compute. reflexivity.
Defined.

Lemma committed_log_is_numbered_witness :
  length (mjoin (cm_events <$> commits (co_effects (sample_coordinator 12)))) = 18
  ∧ cm_occurrence_ordinal <$> commits (co_effects (sample_coordinator 12))
    = N.of_nat <$> seq 1 (length (commits (co_effects (sample_coordinator 12)))).
Proof.
  split; [vm_compute; reflexivity|].
  refine (proj1 (committed_log_is_numbered (Provisional := bool) (Cause := ScenarioCause) (Instant := N) (sample_admitted sample_workflow 31) [] sample_grace
    cancellation_operation_state_default sample_deliveries (quiet_turn DriverReady) (sample_turns 12)
    (sample_coordinator 12) (sample_run 12).2 _ _ _ _)).
  - exact sample_wf.
  - vm_compute. reflexivity.
  - exact sample_run_seed_wf.
  - apply surjective_pairing.
Defined.

Lemma actions_follow_commits_witness :
  let start := {| ra_id := 1%N; ra_action := StartStep "build" 1 [] |} in
  ∃ record, co_effects (sample_coordinator 0) = [ECommit record true; ERelease start]
  ∧ ((∃ p, ra_action start = ReleaseStepResources p)
     ∨ ∃ record' action, record' ∈ commits [ECommit record true : Effect (Provisional := bool) (Cause := ScenarioCause) (Output := ScenarioOutput) (Instant := N)]
         ∧ committed_action start = Some action ∧ action ∈ cm_actions record').
Proof.
  cbv zeta. eexists. split; [vm_compute; reflexivity|].
  eapply (actions_follow_commits (Provisional := bool) (Cause := ScenarioCause) (Instant := N) (sample_admitted sample_workflow 31) [] sample_grace
    cancellation_operation_state_default sample_deliveries (quiet_turn DriverReady) (sample_turns 0)
    (sample_coordinator 0) (sample_run 0).2 _ _ []).
  - exact sample_wf.
  - vm_compute. reflexivity.
  - exact sample_run_seed_wf.
  - apply surjective_pairing.
  - vm_compute. reflexivity.
Defined.

Lemma coordinator_returns_last_commit_witness :
  ∃ st, (sample_run 12).2 = Some (Ok (st, 13%N)) ∧ is_finished (rs_workflow st) = true.
Proof.
  eexists. split; [vm_compute; reflexivity|].
  eapply (coordinator_returns_last_commit (Provisional := bool) (Cause := ScenarioCause) (Instant := N) (sample_admitted sample_workflow 31) [] sample_grace
    cancellation_operation_state_default sample_deliveries (quiet_turn DriverReady) (sample_turns 12)
    (sample_coordinator 12)).
  - exact sample_wf.
  - vm_compute. reflexivity.
  - exact sample_run_seed_wf.
  - vm_compute. reflexivity.
Defined.

