(* ===== verification/ValidatedRuns.v ===== *)
(** * From documents to runs

    What [validate] guarantees of the workflows it accepts, and what the
    engine guarantees of their runs because of it, with concrete documents
    and runs where a property has hypotheses. *)

From S2P Require Import Prelude Text Nodes Evidence Condition Predicates Document Validated Validation Graph Requirements Capacity Runtime ValidDocuments ConditionTypes Reducer Moves Refinement Views Stabilize Occurrences Runs Ceiling NodeSteps Phases Quiet Progress ValidWorkflows ConditionRuns Scenario Correctness.

Local Open Scope list_scope.

(** ** Graphs *)

(** C10: a graph of prerequisites is accepted exactly when it has no cycle,
    and then its presentation order is the order of all its nodes that always
    takes, among the nodes whose producers were taken, the one that comes
    first in the source; a graph with a cycle is refused as one. *)
Theorem validate_graph_accepts_acyclic graph source_order :
  graph_input graph source_order →
  (∀ result, validate_graph graph source_order (length graph) = Ok result ↔
     acyclic graph ∧ vg_direct_prerequisites result = graph
     ∧ greedy graph (source_indices source_order) (vg_presentation_order result)
     ∧ length (vg_presentation_order result) = length graph)
  ∧ ∀ failure, validate_graph graph source_order (length graph) = Err failure ↔
      ¬ acyclic graph ∧ failure = {| vfail_kind := DependencyCycle; vfail_location := AtWorkflowGraph |}.
Proof. intros Hgi. split; intros; [by apply validate_graph_Ok|by apply validate_graph_Err]. Qed.

Lemma validate_graph_accepts_acyclic_witness :
  let graph := [("a"%string, [control_on "b"]); ("b"%string, []); ("c"%string, [])] in
  validate_graph graph ["a"; "b"; "c"]%string 3
  = Ok {| vg_direct_prerequisites := graph; vg_presentation_order := ["b"; "a"; "c"]%string |}
  ∧ acyclic graph
  ∧ validate_graph [("a"%string, [control_on "b"]); ("b"%string, [control_on "a"])] ["a"; "b"]%string 2
    = Err {| vfail_kind := DependencyCycle; vfail_location := AtWorkflowGraph |}
  ∧ ¬ acyclic [("a"%string, [control_on "b"]); ("b"%string, [control_on "a"])].
Proof.
  cbv zeta. split; [vm_compute; reflexivity|]. split; [|split; [vm_compute; reflexivity|]].
  - eapply (validate_graph_accepts_acyclic [("a"%string, [control_on "b"]); ("b"%string, []); ("c"%string, [])]
      ["a"; "b"; "c"]%string); [|vm_compute; reflexivity].
    split; [by repeat constructor; set_solver| |by repeat constructor; set_solver|set_solver].
    intros n ps Hin. repeat (apply elem_of_cons in Hin as [[= -> ->]|Hin]); try (by apply elem_of_nil in Hin);
      repeat constructor; set_solver.
  - eapply (validate_graph_accepts_acyclic [("a"%string, [control_on "b"]); ("b"%string, [control_on "a"])] ["a"; "b"]%string);
      [|vm_compute; reflexivity].
    split; [by repeat constructor; set_solver| |by repeat constructor; set_solver|set_solver].
    intros n ps Hin. repeat (apply elem_of_cons in Hin as [[= -> ->]|Hin]); try (by apply elem_of_nil in Hin);
      repeat constructor; set_solver.
Defined.

(** ** Validated workflows *)

Definition workflow_common (W : ValidatedWorkflow) (role : WorkflowNodeRole) (n : string) : option ValidatedCommonStep :=
  match role with
  | RoleStep => common_step <$> bt_get (vw_steps W) n
  | RoleFinalizer => (common_step ∘ vf_body) <$> bt_get (vw_finalizers W) n
  end.

Definition workflow_order (W : ValidatedWorkflow) (role : WorkflowNodeRole) : list string :=
  match role with RoleStep => vw_presentation_order W | RoleFinalizer => vw_finalizer_presentation_order W end.

(** The dependencies a document declares for a node. *)
Definition declared_control (document : WorkflowDocument) (role : WorkflowNodeRole) (n : string) : list string :=
  match role with
  | RoleStep => default [] (sd_control_dependencies <$> bt_get (doc_steps document) n)
  | RoleFinalizer => default [] (fd_after <$> bt_get (doc_finalizers document) n)
  end.

Lemma workflow_common_from document profiles steps finalizers W role n common :
  validated_from document profiles steps finalizers W → workflow_common W role n = Some common →
  ∃ body, node_body document n = Some (role, body)
    ∧ vc_prerequisites common = graph_prerequisites (role_graph steps finalizers role) n
    ∧ resolved document n role body (declared_control document role n) (vc_prerequisites common).
Proof.
  intros Hval. pose proof (vd_namespace _ _ _ _ _ Hval) as (_ & Hdis & _)%validate_node_namespace_Ok.
  destruct role; simpl; intros (v & Hv & ->)%fmap_Some.
  - destruct (entries_get_inv _ _ _ _ _ (vd_steps _ _ _ _ _ Hval) Hv) as (step & Hs & Hb%validate_body_facts).
    exists (sd_body step). rewrite (bf_prerequisites _ _ _ _ _ _ Hb), Hs. split; [unfold node_body; by rewrite Hs|].
    split; [done|]. apply resolve_step_prerequisites_ok. by apply (graph_resolved _ _ _ _ _ _ (vd_step_graph _ _ _ _ _ Hval)).
  - destruct (entries_get_inv _ _ _ _ _ (vd_finalizers _ _ _ _ _ Hval) Hv) as (f & Hf & Hb%validate_body_facts & _).
    exists (fd_body f). cbn [compose]. rewrite (bf_prerequisites _ _ _ _ _ _ Hb), Hf. split.
    + unfold node_body. destruct (bt_get (doc_steps document) n) eqn:E; [exfalso|by rewrite Hf].
      apply (Hdis n); apply bt_get_is_Some; eauto.
    + split; [done|]. eapply resolve_finalizer_prerequisites_ok.
      by apply (graph_resolved _ _ _ _ _ _ (vd_finalizer_graph _ _ _ _ _ Hval)).
Qed.

Section documents.
Context `{!HarnessDecoder}.
Implicit Types (document : WorkflowDocument) (W : ValidatedWorkflow).

(** The presentation orders of a validated workflow list every node of
    their phase once, each after all the nodes it has a prerequisite on. *)
Lemma presentation_orders_are_topological document W role :
  document_wf MAXIMUM_RETRIES document → validate document = Ok W →
  workflow_order W role ≡ₚ role_keys document role ∧ NoDup (workflow_order W role)
  ∧ ∀ k n common p, workflow_order W role !! k = Some n → workflow_common W role n = Some common →
      p ∈ vc_prerequisites common → rdp_producer p ∈ take k (workflow_order W role).
Proof.
  intros Hdoc Hvalid. destruct (validate_inv _ _ _ Hdoc Hvalid) as (profiles & steps & finalizers & Hval).
  assert (Hgraph : ∃ indices, workflow_order W role = vg_presentation_order (role_graph steps finalizers role)
    ∧ greedy (vg_direct_prerequisites (role_graph steps finalizers role)) indices (workflow_order W role)
    ∧ workflow_order W role ≡ₚ role_keys document role).
  { destruct role; simpl; rewrite ?(vd_presentation _ _ _ _ _ Hval), ?(vd_finalizer_presentation _ _ _ _ _ Hval);
      eexists; (split; [done|split; [eapply go_greedy|eapply go_order]]); apply Hval. }
  destruct Hgraph as (indices & _ & Hg & Hperm). split; [done|]. split; [by eapply greedy_NoDup|].
  intros k n common p Hk Hc Hp. destruct (workflow_common_from _ _ _ _ _ _ _ _ Hval Hc) as (body & _ & Hps & _).
  apply (greedy_topological _ _ _ _ _ Hg Hk). unfold producers, producers_of.
  unfold graph_prerequisites in Hps. rewrite <-Hps. by apply list_elem_of_fmap_2.
Qed.

(** C11: the prerequisites of a node are exactly what its document requires,
    and its references respect the authority of data.  There is one
    prerequisite for each node it depends on, reads an output of, or names in
    a disposition, with the flags of these requirements, and no other; the
    nodes are of its own phase.  Every output it reads is declared, is not a
    branch, belongs to another node of its phase or to an earlier phase, to a
    required node if it is required, and, among finalizers, to one that runs
    whenever it runs. *)
Theorem prerequisites_are_required document W role n common body :
  document_wf MAXIMUM_RETRIES document → validate document = Ok W →
  workflow_common W role n = Some common → node_body document n = Some (role, body) →
  (∀ p, p ∈ vc_prerequisites common ↔
     required_prerequisite (requirements document role body (declared_control document role n)) (rdp_producer p) = Some p)
  ∧ (∀ p, p ∈ vc_prerequisites common → rdp_producer p ∈ role_keys document role)
  ∧ Forall (authorised document n role) (node_references body).
Proof.
  intros Hdoc Hvalid Hc Hb. destruct (validate_inv _ _ _ Hdoc Hvalid) as (profiles & steps & finalizers & Hval).
  destruct (workflow_common_from _ _ _ _ _ _ _ _ Hval Hc) as (body' & Hb' & _ & [(m & [Hw Hm] & Hps) [_ Hcontrol] Hauth _]).
  rewrite Hb in Hb'. injection Hb' as <-. set (reqs := requirements _ _ _ _) in *.
  assert (Hiff : ∀ p, p ∈ vc_prerequisites common ↔ required_prerequisite reqs (rdp_producer p) = Some p).
  { intros p. rewrite Hps. unfold bt_values. rewrite list_elem_of_fmap. split.
    - intros ([k p'] & -> & Hin%(bt_get_NoDup _ _ _ (bt_wf_NoDup _ Hw))). simpl. rewrite Hm in Hin.
      assert (rdp_producer p' = k) as -> by (unfold required_prerequisite in Hin; case_decide; by simplify_eq/=). done.
    - intros Hp. rewrite <-Hm in Hp. exists (rdp_producer p, p). split; [done|]. by apply bt_get_elem_of. }
  split; [done|]. split; [|done]. intros p Hp%Hiff. unfold required_prerequisite in Hp. case_decide as Hin; [|done].
  apply list_elem_of_fmap in Hin as (r & -> & Hr). eapply requirements_producer; [|exact Hr].
  eapply Forall_impl; [exact Hcontrol|]. naive_solver.
Qed.
End documents.

(** ** Runs *)

Section runs.
Context {Provisional Cause Output Deadline : Type}.
Context `{!HarnessDecoder, !SerdeJson, !SerdeJsonLaws, !NodeFailureSource Cause, !ConditionOutput Output,
          !ProvisionalStepResources Provisional}.
Local Abbreviation State := (RuntimeState Cause Output Deadline).
Implicit Types (document : WorkflowDocument) (st : State) (s : string) (d : RuntimeStep).



(** C1: a run of a validated workflow admitted under the general contract
    never runs out of transition numbers: the ceiling computed by
    [resolve_workflow_capacity] is enough for every sequence of occurrences,
    whatever fails, is retried or is cancelled. *)
Theorem validated_run_within_ceiling document admitted bytes cap budget st :
  document_wf MAXIMUM_RETRIES document → validate document = Ok (adm_definition admitted) →
  resolve_workflow_capacity (adm_definition admitted) bytes = Ok cap →
  admit_capacity cap budget General = Ok (adm_maximum_transitions admitted) →
  reachable (Provisional := Provisional) (from_admitted admitted) st →
  rs_transition_capacity_exceeded st = false
  ∧ (rs_last_transition_sequence st <= adm_maximum_transitions admitted)%N.
Proof.
  intros Hdoc Hvalid Hcap Hadmit Hr. destruct (validate_inv _ _ _ Hdoc Hvalid) as (profiles & steps & finalizers & Hval).
  pose proof (validated_workflow_wf document Hdoc _ _ _ _ Hval) as HW.
  destruct (admitted_within_ceiling (Provisional := Provisional) admitted bytes cap budget st HW Hcap Hadmit Hr) as [? [? _]].
  by split.
Qed.
End runs.

(** ** Concrete documents *)

(** [publish] runs when [check] reports that everything is fine, reads the
    log of [build], and [notify] reads the finalization context. *)
Definition report_reference : ValueReference := RefOutput {| or_node := "check"; or_output := "report" |}.

Definition publish_document : WorkflowDocument :=
  {| doc_schema_version := 1; doc_description := None; doc_inputs := [("region"%string, DeclText)]; doc_agent_profiles := [];
     doc_steps :=
       [("build"%string, {| sd_body := command_body None [("log"%string, TextPath "log.txt")] [] "make";
                            sd_control_dependencies := []; sd_recovery := None |});
        ("check"%string, {| sd_body := command_body None [("report"%string, JsonPath "report.json" "report.schema.json")] [] "check";
                            sd_control_dependencies := ["build"%string]; sd_recovery := None |});
        ("publish"%string,
          {| sd_body := command_body
               (Some (CAll [CEquals (CondReference report_reference (Some "/ok"%string)) (CondLiteral (Bool true));
                            CEquals (CondReference (RefInput "region") None) (CondLiteral (VString "eu"));
                            CDisposition "build" DispSucceeded])) []
               [("log"%string, RefOutput {| or_node := "build"; or_output := "log" |})] "publish";
             sd_control_dependencies := []; sd_recovery := None |})];
     doc_step_order := ["publish"; "build"; "check"]%string;
     doc_finalizers :=
       [("notify"%string, {| fd_body := command_body (Some (CExists {| csel_reference := RefFinalizationContext; csel_pointer := "" |}))
                                         [] [("context"%string, RefFinalizationContext)] "notify";
                             fd_after := []; fd_when := every_trigger |})];
     doc_finalizer_order := ["notify"%string];
     doc_exports := [("buildLog"%string, {| or_node := "build"; or_output := "log" |})] |}.

Definition publish_workflow : ValidatedWorkflow := Eval vm_compute in
  match validate publish_document with Ok W => W | Err _ => sample_workflow end.

Lemma publish_validated : validate publish_document = Ok publish_workflow.
Proof. vm_compute. reflexivity. Qed.

(** Maps given as sorted lists, and names that are identifiers. *)
Ltac concrete_document :=
  split; intros; cbn in *;
  repeat match goal with
  | |- bt_wf _ => repeat constructor
  | |- identifiers _ => repeat constructor
  | H : context [decide _] |- _ => case_decide; simplify_eq
  | |- _ ∧ _ => split
  | |- body_wf _ => cbn
  end; simplify_eq/=; try done; try (unfold MAXIMUM_RETRIES; lia).

Lemma publish_document_wf : document_wf MAXIMUM_RETRIES publish_document.
Proof. concrete_document. Qed.

Lemma sample_document_wf : document_wf MAXIMUM_RETRIES sample_document.
Proof. concrete_document. Qed.


(** The prerequisites of [publish]: [build] for its log and its disposition,
    [check] for its report. *)
Lemma prerequisites_are_required_witness :
  ∃ common body,
    workflow_common publish_workflow RoleStep "publish" = Some common
    ∧ node_body publish_document "publish" = Some (RoleStep, body)
    ∧ vc_prerequisites common
      = [{| rdp_producer := "build"; rdp_control := false; rdp_disposition_control := true; rdp_data := true; rdp_condition_data := false |};
         {| rdp_producer := "check"; rdp_control := false; rdp_disposition_control := false; rdp_data := true; rdp_condition_data := true |}]
    ∧ Forall (authorised publish_document "publish" RoleStep) (node_references body).
Proof.
  eexists _, _. split; [reflexivity|]. split; [reflexivity|]. split; [reflexivity|].
  eapply (prerequisites_are_required publish_document publish_workflow RoleStep "publish");
    [apply publish_document_wf|apply publish_validated|reflexivity|reflexivity].
Defined.

#[export] Instance scenario_serde_laws : SerdeJsonLaws.
Proof. split. intros context. simpl. eauto. Defined.

Definition publish_admitted : AdmittedWorkflow :=
  {| adm_definition := publish_workflow; adm_maximum_parallel_steps := 2; adm_maximum_transitions := 26;
     adm_inputs := [("region"%string, InputText "eu")] |}.

Definition publish_definition : RuntimeDefinition := Eval vm_compute in from_admitted publish_admitted.

Lemma publish_inputs : inputs_admitted publish_admitted.
Proof.
  split; [repeat constructor|]. intros name t Ht. cbn in Ht. case_decide; [|done]. injection Ht as <-. subst name.
  exists (InputText "eu"). by split.
Qed.

(** The run until the report of [check] is captured. *)
Definition publish_occurrences : list SOccurrence :=
  [StepStarted "build" 1%N; StepExecutionCompleted "build" 1%N true; OutputsCaptured "build" 3%N [("log"%string, OutText "ok")];
   StepStarted "check" 5%N; StepExecutionCompleted "check" 5%N true].

Definition publish_capture : SOccurrence :=
  OutputsCaptured "check" 7%N [("report"%string, OutJson (Object [("ok"%string, Bool true)]))].

Definition publish_checked : SState := rd_state (drive (from_admitted publish_admitted) publish_occurrences).

(** The state after the capture, before the consequences are drawn. *)
Definition publish_captured : SState := rd_state (apply_occurrence (begin publish_checked) publish_capture).2.

Definition publish_ready : SState :=
  rd_state (drive (from_admitted publish_admitted) (publish_occurrences ++ [publish_capture])).

(** *** Deciding the hypotheses on the values of a state *)

Definition output_decided (t : option WorkflowValueType) (o : ScenarioOutput) : bool :=
  match t, o with
  | Some TyText, OutText _ => true
  | Some TyJson, OutJson _ => true
  | Some TyText, _ | Some TyJson, _ => false
  | _, _ => true
  end.

Definition outputs_decided (W : ValidatedWorkflow) (s : string) (x : StepRuntimeState ScenarioCause ScenarioOutput) : bool :=
  match ss_state x with
  | SInherited _ _ _ => false
  | SSucceeded outputs => forallb (λ '(name, o), output_decided (workflow_output_type W s name) o) outputs
  | _ => true
  end.

Lemma outputs_decide W (st : SState) :
  forallb (λ '(s, x), outputs_decided W s x) (map_to_list (rs_steps st)) = true →
  inherited_read st ∧ outputs_typed W st.
Proof.
  intros Hall. rewrite forallb_forall in Hall.
  assert (Hx : ∀ s x, rs_steps st !! s = Some x → outputs_decided W s x = true).
  { intros s x Hx. apply (Hall (s, x)), list_elem_of_In, elem_of_map_to_list, Hx. }
  clear Hall. split.
  - intros s d x run outputs [Hs _] Hi. apply Hx in Hs. unfold outputs_decided in Hs. by rewrite Hi in Hs.
  - intros s x outputs name o Hs Ho Hn. apply Hx in Hs. unfold outputs_decided in Hs.
    destruct (ss_state x); try done. injection Ho as ->. rewrite forallb_forall in Hs.
    specialize (Hs (name, o)). apply bt_get_elem_of, list_elem_of_In, Hs in Hn. 
    unfold output_decided in Hn. unfold output_matches.
    destruct (workflow_output_type W s name) as [[]|], o; try done; simpl; eauto.
Qed.

Lemma publish_wf : definition_wf (from_admitted publish_admitted).
Proof.
  destruct (validate_inv _ _ _ publish_document_wf publish_validated) as (profiles & steps & finalizers & Hval).
  exact (from_admitted_wf publish_admitted (validated_workflow_wf publish_document publish_document_wf _ _ _ _ Hval)).
Qed.

Lemma publish_captured_visited : visited (Provisional := bool) (from_admitted publish_admitted) publish_captured.
Proof. exact (visited_apply _ _ _ publish_wf (drive_reachable (from_admitted publish_admitted) publish_occurrences)). Qed.

Definition publish_step : RuntimeStep := Eval vm_compute in step_of publish_captured "publish".
Definition publish_condition : ResolvedPredicate := Eval vm_compute in
  default (PAll []) (rt_condition publish_step).


Lemma publish_inputs_whole : inputs_whole (from_admitted publish_admitted).
Proof.
  change (from_admitted publish_admitted) with publish_definition.
  intros s d p c name Hd Hp Hc. apply bt_get_elem_of in Hd. cbn in Hd.
  repeat (apply elem_of_cons in Hd as [[= -> ->]|Hd]); try (by apply elem_of_nil in Hd);
    cbn in Hp; simplify_eq; cbn in Hc; cbn; set_unfold; naive_solver.
Qed.


Lemma validated_run_within_ceiling_witness :
  ∃ cap, resolve_workflow_capacity publish_workflow 0 = Ok cap
    ∧ admit_capacity cap supported_maximum General = Ok 26%N
    ∧ rs_transition_capacity_exceeded publish_ready = false
    ∧ rs_last_transition_sequence publish_ready = 9%N ∧ (rs_last_transition_sequence publish_ready <= 26)%N.
Proof.
  eexists. split; [vm_compute; reflexivity|]. split; [vm_compute; reflexivity|].
  split; [vm_compute; reflexivity|]. split; [vm_compute; reflexivity|].
  eapply (validated_run_within_ceiling (Provisional := bool) publish_document publish_admitted 0 _ supported_maximum publish_ready
    publish_document_wf publish_validated); [vm_compute; reflexivity|vm_compute; reflexivity|exact (drive_reachable _ _)].
Defined.
