(* ===== verification/ResultClaims.v ===== *)
(** * The results of runs

    What a run of a validated workflow leaves behind once it is finished: a
    result can be built from it, the result that is published passes the
    checks its readers make of how the run ended, and the runner agrees with
    the run on its cancellation unless nothing was accepted while the ordinary
    steps ran.  A concrete run shows that the hypotheses hold. *)

From S2P Require Import Prelude Text Nodes Evidence Condition Document Validated Failures Validation Capacity Runtime RunTiming Results Publication SchemaCommon ResultMetadata DocumentChecks RunResults ValidDocuments Reducer Moves Refinement Views Stabilize Occurrences Runs Ceiling NodeSteps NodeInvariants Phases History Scheduling Progress Outcomes Reasons Stops Endings ValidWorkflows FinishedRuns ResultChecks Scenario ValidatedRuns.

Local Open Scope list_scope.

Section results.
Context {Provisional Output Deadline : Type}.
Context `{!SerdeJson, !ConditionOutput Output, !ProvisionalStepResources Provisional, !HarnessDecoder}.
Context `{!TimeLibrary, !Base64, !TimeDifference, !MediaTypes}.
Context (deadline_utc : Deadline → OffsetDateTime) (opened : ObservationTime).

Local Abbreviation State := (RuntimeState StepFailureCause Output Deadline).
Local Abbreviation Event := (TransitionEvent Deadline).

Implicit Types (st : State) (admitted : AdmittedWorkflow) (evidence : LocalRunEvidence) (h : list Event).

(** ** The accepted cancellation *)

(** The observer of the runner sees at most one acceptance. *)
Lemma history_observed D (seed : ExecutionSeed Output) h st :
  definition_wf D → history (Provisional := Provisional) (Cause := StepFailureCause) D seed h st →
  (observed_cancellations h).2 = false ∧ fst <$> (observed_cancellations h).1 = accepted h.
Proof.
  intros HD Hrec. assert (Hs : seed_wf D seed) by by induction Hrec.
  set (P := λ h st, phase_ok st ∧ log_ok h st ∧ (observed_cancellations h).2 = false
    ∧ fst <$> (observed_cancellations h).1 = accepted h).
  assert (HP : P h st); [|by destruct HP as (_ & _ & ?)]. apply (history_invariant P D seed h st); [..|done|done].
  - split_and!; [by apply initial_phase_ok|by left|done..].
  - intros h' r r' Hm Hwf _ (Hph & Hlog & Hone & Hkept). split; [by eapply move_phase_ok|]. split; [by eapply move_log_ok|].
    destruct (move_reason r r' Hph Hwf Hm) as (es & -> & Hstep). unfold observed_cancellations in *.
    rewrite app_assoc, foldl_app, accepted_app. set (kept := foldl _ _ (h' ++ rd_events r)) in *. clearbody kept.
    destruct Hstep as [_ He|n reason deadline -> Hr _|n phase -> _ _ _]; simpl.
    + rewrite (accepted_none es He). replace (foldl observe_cancellation kept es) with kept.
      { split; [done|]. by destruct (accepted _). }
      clear Hkept. induction He as [|e es He _ IH]; [done|]. simpl. rewrite IH at 1. f_equal. unfold observe_cancellation.
      rewrite Hone. by destruct e.
    + unfold observe_cancellation. rewrite Hone. unfold log_ok in Hlog. destruct (accepted (h' ++ rd_events r)); [congruence|].
      destruct kept as [[]?]; [done|]. by split.
    + unfold observe_cancellation. rewrite Hone. split; [done|]. by destruct (accepted _).
Qed.

(** ** Runs of validated workflows *)

(** A finished run of a validated workflow admitted under the general
    contract, with its log. *)
Record finished_run (document : WorkflowDocument) admitted (seed : ExecutionSeed Output) h st : Prop := {
  fr_document : document_wf MAXIMUM_RETRIES document;
  fr_valid : validate document = Ok (adm_definition admitted);
  fr_capacity : ∃ bytes cap budget, resolve_workflow_capacity (adm_definition admitted) bytes = Ok cap
    ∧ admit_capacity cap budget General = Ok (adm_maximum_transitions admitted);
  fr_history : history (Provisional := Provisional) (from_admitted admitted) seed h st;
  fr_finished : is_finished (rs_workflow st) = true
}.

Lemma finished_facts document admitted seed h st :
  finished_run document admitted seed h st →
  presented (adm_definition admitted) ∧ (adm_maximum_transitions admitted < 2 ^ 63)%N
  ∧ definition_wf (from_admitted admitted) ∧ rs_transition_capacity_exceeded st = false.
Proof.
  intros [Hdoc Hvalid (bytes & cap & budget & Hcap & Hadmit) Hhist Hfin].
  pose proof (validated_presented document _ Hdoc Hvalid) as Hpres.
  pose proof (resolve_general_bound _ _ _ Hcap) as Hbound. pose proof (admit_capacity_general _ _ _ Hadmit) as Hmax.
  split_and!; [done|lia|apply from_admitted_wf, Hpres|].
  eapply (admitted_within_ceiling (Provisional := Provisional)); [apply Hpres|done..|by eapply history_reachable].
Qed.


(** The nodes that are shown pass their checks. *)
Lemma nodes_accepted document admitted seed h st evidence role vs :
  finished_run document admitted seed h st →
  (∀ s v, bt_get seed s = Some v → inherited_detail_valid (seed_detail v) = true) →
  times_log deadline_utc opened evidence h → outputs_timed evidence →
  shows_all evidence st role vs → forallb (node_checked (workflow_node_role role)) vs = true.
Proof.
  intros Hrun Hseed Htimes Houtputs [Hall _]. destruct (finished_facts _ _ _ _ _ Hrun) as (Hpres & Hmax & HD & _).
  destruct Hrun as [_ _ _ Hhist Hfin]. apply forallb_elem. intros v Hv. destruct (Hall v Hv) as (s & d & x & Hat & <- & Hs).
  destruct (timed_node deadline_utc opened _ _ _ _ Hpres Hmax Hhist Hfin evidence s d x Htimes Hat) as (timing & Ht & Hlaw).
  unfold node_checked. rewrite (sh_role _ _ _ _ _ Hs), (sh_pair _ _ _ _ _ Hs), bool_decide_true by done. simpl.
  rewrite (exact_fields_checked st evidence (run_ending_ok _ _ _ _ Hpres Hhist) s d x v Hat Hs).
  - by apply (timing_checked evidence s d x v timing).
  - intros detail disposition outputs Hx. pose proof (history_inherited _ _ _ _ HD Hhist s d x Hat) as Hin.
    unfold inherited_from in Hin. rewrite Hx in Hin. destruct Hin as (w & Hw & -> & _). split; [|by eapply Hseed].
    destruct (history_seed _ _ _ _ Hhist s w Hw) as (d' & Hd' & Hrole). destruct Hat as [_ Hd]. unfold def_step in Hd.
    rewrite (proj2 (run_wf _ _ _ _ Hpres Hhist)) in Hd. congruence.
Qed.

(** C5: the published result of a finished run passes the checks on how the run
    ended.  Its outcome follows from its nodes, its cancellation and its
    finalization; the force abort, the cancellation and the issues of the
    finalization agree with the states of the nodes; and every node has the
    detail of its state and times exactly when it was started. *)
Theorem published_result_is_accepted document admitted seed h st evidence admission local_run run provenance exports published :
  TimeLaws → finished_run document admitted seed h st →
  inputs_admitted admitted → 0 < adm_maximum_parallel_steps admitted →
  seed_complete (from_admitted admitted) seed → fresh_step (from_admitted admitted) seed →
  (∀ s v, bt_get seed s = Some v → inherited_detail_valid (seed_detail v) = true) →
  times_log deadline_utc opened evidence h → outputs_timed evidence →
  local_run_result deadline_utc (adm_definition admitted) admission st evidence local_run = Some run →
  build_result_with_provenance run provenance exports = Ok published →
  validate_outcome published = true ∧ validate_force_abort published = true
  ∧ forallb (node_checked NodeStepV1) (res_steps published) = true
  ∧ ∀ finalization, res_finalization published = Some finalization →
      validate_finalization finalization (res_force_abort published) = true
      ∧ forallb (node_checked NodeFinalizerV1) (fz_finalizers finalization) = true.
Proof.
  intros Htime Hrun Hinputs Hpar Hcomplete Hfresh Hseed Htimes Houtputs Hresult Hbuild.
  destruct (finished_facts _ _ _ _ _ Hrun) as (Hpres & Hmax & HD & Hcap). pose proof Hrun as [Hdoc Hvalid _ Hhist Hfin].
  destruct (validate_inv _ _ _ Hdoc Hvalid) as (profiles & steps & finalizers & Hval).
  pose proof (admitted_schedulable document Hdoc _ _ _ admitted Hval Hinputs Hpar) as Hsched.
  pose proof (result_published Htime deadline_utc opened _ _ _ _ Hpres Hmax Hhist Hfin _ _ _ _ _ _ _ Htimes Hresult Hbuild) as Hpub.
  pose proof (run_state_ok _ _ _ _ Hpres Hmax Hhist) as Hok. pose proof (run_ending_ok _ _ _ _ Hpres Hhist) as Hend.
  assert (Hstop : stop_ok st) by (eapply (history_stop_ok (from_admitted admitted) seed h); try done; simpl; unfold u64_max; lia).
  pose proof (history_graceful _ _ _ _ HD Hhist) as Hgraceful. pose proof (run_terminal _ _ _ _ Hpres Hmax Hhist Hfin) as Hterm.
  split_and!.
  - by eapply run_outcome_checked.
  - by eapply force_abort_checked.
  - by eapply (nodes_accepted _ _ _ _ _ _ RoleStep), Hpub.
  - intros fz Hfz. split; [by eapply finalization_checked|]. pose proof (pb_finalization _ _ _ _ Hpub) as Hf.
    destruct (rs_finalization st) as [f|]; [|congruence]. destruct Hf as (fz' & Hfz' & Hshown). rewrite Hfz in Hfz'. injection Hfz' as <-.
    by eapply (nodes_accepted _ _ _ _ _ _ RoleFinalizer), Hshown.
Qed.

End results.

(** ** A concrete run

    The sample workflow: its steps succeed, and the cancellation of its
    finalization stops the finalizer. *)

#[export] Instance sample_time_difference : TimeDifference :=
  λ finished started, ((Z.of_N finished - Z.of_N started) * 1000)%Z.

Abbreviation ResultState := (RuntimeState StepFailureCause ScenarioOutput N).

Definition logged (occurrences : list (Occurrence bool StepFailureCause ScenarioOutput N)) : list (TransitionEvent N) * ResultState :=
  foldl (λ '(h, st) o, let r := reduce (Provisional := bool) st o in (h ++ rd_events r, rd_state r))
    (let r := initialize_seeded_definition (Provisional := bool) (Cause := StepFailureCause) sample None [] in
     (rd_events r, rd_state r)) occurrences.

Lemma logged_history occurrences :
  history (Provisional := bool) sample [] (logged occurrences).1 (logged occurrences).2.
Proof.
  unfold logged. set (first := let r := _ in (rd_events r, rd_state r)).
  assert (Hfirst : history (Provisional := bool) sample [] first.1 first.2).
  { unfold first. cbn [fst snd]. apply rec_initial; [intros s v Hs; discriminate Hs|exact I]. }
  clearbody first. revert first Hfirst. induction occurrences as [|o occurrences IH]; intros [h st] Hfirst; [done|].
  simpl. apply IH. by apply rec_reduce.
Qed.

Definition cancelled_occurrences : list (Occurrence bool StepFailureCause ScenarioOutput N) :=
  [StepStarted "build" 1%N; StepExecutionCompleted "build" 1%N true; OutputsCaptured "build" 3%N [("log"%string, OutText "ok")];
   StepStarted "deploy" 5%N; StepExecutionCompleted "deploy" 5%N false; StepStarted "report" 10%N;
   CancellationOperationRequested 1%N UserRequest 100%N; StepQuiesced "report" 13%N].

Definition cancelled_log : list (TransitionEvent N) := (logged cancelled_occurrences).1.
Definition cancelled_state : ResultState := (logged cancelled_occurrences).2.

Lemma cancelled_run :
  finished_run (Provisional := bool) sample_document (sample_admitted sample_workflow 31) [] cancelled_log cancelled_state.
Proof.
  split.
  - exact sample_document_wf.
  - exact sample_validated.
  - eexists 0%N, _, supported_maximum. split; vm_compute; reflexivity.
  - exact (logged_history cancelled_occurrences).
  - vm_compute. reflexivity.
Qed.

(** Each transition is observed a second after the previous one. *)
Definition sample_instant (n : nat) : ObservationTime := {| obs_utc := N.of_nat n; obs_monotonic := Z.of_nat n |}.

Definition timed_log : list (TransitionEvent N * ObservationTime) := zip cancelled_log (sample_instant <$> seq 1 (length cancelled_log)).

Definition sample_evidence : LocalRunEvidence :=
  {| le_diagnostics := {| dl_entries := []; dl_recovery_handlers := [] |}; le_durable_invocations := [];
     le_timing := foldl (observe id) (mark_execution_started (sample_instant 0) (timing_new (sample_instant 0))) timed_log |}.

Lemma sample_times : times_log id (sample_instant 0) sample_evidence cancelled_log.
Proof.
  exists (sample_instant 0), timed_log. split; [|done]. unfold timed_log. apply fst_zip. by rewrite length_fmap, length_seq.
Qed.

Definition unrecovered (x : StepRuntimeState StepFailureCause ScenarioOutput) : bool :=
  match step_recovery_summary_v1 (ss_recovery x) with Ok None => true | _ => false end.

Lemma unrecovered_kept (st : ResultState) evidence :
  le_durable_invocations evidence = [] → forallb (λ '(_, x), unrecovered x) (map_to_list (rs_steps st)) = true →
  recoveries_kept st evidence.
Proof.
  intros Hnone Hall id x Hx. rewrite forallb_forall in Hall. specialize (Hall (id, x)). unfold unrecovered in Hall.
  apply elem_of_map_to_list, list_elem_of_In, Hall in Hx. destruct (step_recovery_summary_v1 (ss_recovery x)) as [[|]|]; try done.
  exists None. split; [done|]. intros kind. unfold node_invocations. rewrite Hnone. simpl. rewrite andb_false_r. by eexists.
Qed.

Lemma sample_recoveries : recoveries_kept cancelled_state sample_evidence.
Proof. apply unrecovered_kept; [reflexivity|vm_compute; reflexivity]. Qed.

Lemma sample_outputs_timed : outputs_timed sample_evidence.
Proof. intros [] s [output Ho]; discriminate Ho. Qed.

Definition sample_digest : DigestV1 := {| dg_algorithm := "sha256"; dg_value := "00" |}.

Definition sample_run_admission : RunAdmission :=
  {| ra_workflow_path := "flow.yaml"; ra_source_root := "/src"; ra_content_digest := sample_digest; ra_execution_root := "/work";
     ra_maximum_parallel_steps := 2; ra_maximum_step_log_bytes := 1024 |}.

Definition sample_local_run : LocalRun :=
  {| lr_run_directory := "/runs/1"; lr_attempt_number := 1; lr_continuation_record := Some None |}.


Definition sample_exports : btree ExportV1 :=
  [("buildLog"%string, ExportAvailableV1 "text" "text/plain; charset=utf-8" "exports/0001" 2 sample_digest None None)].

(** The result of the run, and what is published of it. *)
Definition cancelled_result : WorkflowRunResult ScenarioOutput :=
  ltac:(let value := eval vm_compute in
          (local_run_result id sample_workflow sample_run_admission cancelled_state sample_evidence sample_local_run) in
        match value with Some ?run => exact run end).

Definition cancelled_published : WorkflowResultV1 :=
  ltac:(let value := eval vm_compute in
          (build_result_with_provenance cancelled_result (ProvenanceLocal "/src") sample_exports) in
        match value with Ok ?published => exact published end).

Lemma published_result_is_accepted_witness :
  local_run_result id sample_workflow sample_run_admission cancelled_state sample_evidence sample_local_run = Some cancelled_result
  ∧ build_result_with_provenance cancelled_result (ProvenanceLocal "/src") sample_exports = Ok cancelled_published
  ∧ res_outcome cancelled_published = OutcomeCancelledV1
  ∧ validate_outcome cancelled_published = true ∧ validate_force_abort cancelled_published = true.
Proof.
  split; [vm_compute; reflexivity|]. split; [vm_compute; reflexivity|]. split; [reflexivity|].
  destruct (published_result_is_accepted id (sample_instant 0) sample_document (sample_admitted sample_workflow 31) []
    cancelled_log cancelled_state sample_evidence sample_run_admission sample_local_run cancelled_result
    (ProvenanceLocal "/src") sample_exports cancelled_published) as (Houtcome & Habort & _);
    [..|split; [exact Houtcome|exact Habort]].
  - exact sample_time_laws.
  - exact cancelled_run.
  - split; [by constructor|]. intros name t Ht. discriminate Ht.
  - simpl. lia.
  - intros s v Hs. discriminate Hs.
  - exists "build"%string. eexists. split_and!; [vm_compute; reflexivity|reflexivity..].
  - intros s v Hs. discriminate Hs.
  - exact sample_times.
  - exact sample_outputs_timed.
  - vm_compute. reflexivity.
  - vm_compute. reflexivity.
Defined.

