(* ===== verification/Continuation.v ===== *)
(** * Continuing a run ([continuation.rs])

    A continuation executes a selection of steps again, with everything that
    depends on them, and inherits the other steps of an earlier attempt.
    [partition] splits a definition, [check_inheritance] tells why the split
    can not be used, [project_inputs] carries the inputs over and
    [definition_changed] compares one step of two definitions.

    A [BTreeSet] that is iterated is the list of its elements in order; one
    that is only searched is a finite set. *)

From stdpp Require Import relations.
From S2P Require Import Prelude Text Nodes Evidence Condition Document Validated Validation Runtime Results.

Local Open Scope list_scope.

(** ** Ordered sets *)

Definition lexicographic (first second : comparison) : comparison :=
  match first with Eq => second | _ => first end.

Fixpoint set_insert {A} (cmp : A → A → comparison) (x : A) (s : list A) : list A :=
  match s with
  | [] => [x]
  | y :: s' =>
      match cmp x y with
      | Lt => x :: s
      | Eq => s
      | Gt => y :: set_insert cmp x s'
      end
  end.

Definition role_rank (role : WorkflowNodeRole) : nat := match role with RoleStep => 0 | RoleFinalizer => 1 end.

Definition value_type_rank (t : WorkflowValueType) : nat :=
  match t with TyText => 0 | TyAttachmentCollection => 1 | TyJson => 2 | TyFile => 3 | TyGitBranch => 4 end.

(** The derived order of [ResolvedOutputSource]: its fields in order. *)
Definition output_source_cmp (l r : ResolvedOutputSource) : comparison :=
  lexicographic (String.compare (node_id (ros_node l)) (node_id (ros_node r)))
    (lexicographic (Nat.compare (role_rank (node_role (ros_node l))) (role_rank (node_role (ros_node r))))
      (lexicographic (String.compare (ros_output l) (ros_output r))
        (Nat.compare (value_type_rank (ros_value_type l)) (value_type_rank (ros_value_type r))))).

(** ** The partition *)

Record Partition := { pt_reexecuted : list string; pt_inherited : list string }.

Definition validated_common (step : ValidatedStep) : ValidatedCommonStep :=
  match step with VCommand common _ _ => common | VAgent common _ => common end.

(** The selected steps that are unknown or repeated. *)
Fixpoint invalid_selection (workflow : ValidatedWorkflow) (seen : gset string) (from : list string) : list string :=
  match from with
  | [] => []
  | id :: from' =>
      let rest := invalid_selection workflow ({[ id ]} ∪ seen) from' in
      if bool_decide (id ∈ seen) || negb (bt_contains_key (vw_steps workflow) id) then id :: rest else rest
  end.

Fixpoint collect_dependents (workflow : ValidatedWorkflow) (order : list string) (dependents : btree (list string))
    : result (btree (list string)) (list string) :=
  match order with
  | [] => Ok dependents
  | id :: order' =>
      match bt_get (vw_steps workflow) id with
      | None => Err [id]
      | Some step =>
          collect_dependents workflow order' (foldl (push_dependent id) dependents (vc_prerequisites (validated_common step)))
      end
  end.

(** One dependent of the step taken from the queue. *)
Definition visit_dependent (acc : gset string * list string) (dependent : string) : gset string * list string :=
  if bool_decide (dependent ∈ acc.1) then acc else ({[ dependent ]} ∪ acc.1, acc.2 ++ [dependent]).

(** The loop over the queue; what is left of the queue is returned with the
    set. *)
Fixpoint visit_queue (fuel : nat) (dependents : btree (list string)) (acc : gset string * list string)
    : gset string * list string :=
  match fuel, acc.2 with
  | S fuel', id :: queue =>
      visit_queue fuel' dependents (foldl visit_dependent (acc.1, queue) (default [] (bt_get dependents id)))
  | _, _ => acc
  end.

(** Every step enters the queue at most once. *)
Definition queue_fuel (workflow : ValidatedWorkflow) (from : list string) : nat :=
  length from + length (vw_presentation_order workflow).

Definition partition (workflow : ValidatedWorkflow) (from : list string) : result Partition (list string) :=
  let invalid := invalid_selection workflow ∅ from in
  if bool_decide (from = []) || negb (bool_decide (invalid = [])) then Err invalid
  else
    let? dependents := collect_dependents workflow (vw_presentation_order workflow) [] in
    let reexecuted := (visit_queue (queue_fuel workflow from) dependents (list_to_set from, from)).1 in
    Ok {| pt_reexecuted := filter (.∈ reexecuted) (vw_presentation_order workflow);
          pt_inherited := filter (.∉ reexecuted) (vw_presentation_order workflow) |}.

(** ** Violations *)

Inductive PriorState := PriorStateSucceeded | PriorStateSkipped | PriorStateInherited | PriorStateUnsatisfied.

Inductive AdmissionViolation :=
| InvalidFrom (id : string)
| ViolationNode (id : string) (prior : option PriorState)
| RequiredSkipped (consumer producer : string)
| ViolationReference (reference : string).

#[export] Instance PriorState_eq_dec : EqDecision PriorState.
Proof. solve_decision. Defined.
#[export] Instance AdmissionViolation_eq_dec : EqDecision AdmissionViolation.
Proof. solve_decision. Defined.

(** ** Inputs *)

Definition input_kind_matches (kind : WorkflowValueType) (retained : option ResolvedInput) : bool :=
  match kind, retained with
  | TyText, Some (InputText _) | TyJson, Some (InputJson _) | TyFile, Some InputFile
  | TyAttachmentCollection, Some InputAttachments => true
  | _, _ => false
  end.

Definition project_input (prior : ValidatedWorkflow) (values : btree ResolvedInput)
    (acc : btree ResolvedInput * list string) (required : string * WorkflowValueType) : btree ResolvedInput * list string :=
  let '(name, kind) := required in
  let retained := bt_get values name in
  if negb (bool_decide (bt_get (vw_required_inputs prior) name = Some kind)) || negb (input_kind_matches kind retained)
  then (acc.1, acc.2 ++ [name])
  else match retained with
       | Some value => (bt_insert acc.1 name value, acc.2)
       | None => acc
       end.

Definition project_input_candidates (workflow prior : ValidatedWorkflow) (values : btree ResolvedInput)
    : btree ResolvedInput * list string :=
  foldl (project_input prior values) ([], []) (vw_required_inputs workflow).

Definition project_inputs (workflow prior : ValidatedWorkflow) (values : btree ResolvedInput)
    : result (btree ResolvedInput) (list string) :=
  let '(projected, unsatisfied) := project_input_candidates workflow prior values in
  if bool_decide (unsatisfied = []) then Ok projected else Err unsatisfied.

(** ** References *)

Definition add_reference (references : list ResolvedOutputSource) (source : ResolvedValueSource)
    : list ResolvedOutputSource :=
  match source with SourceOutput output => set_insert output_source_cmp output references | _ => references end.

Definition add_message_reference (references : list ResolvedOutputSource) (source : ValidatedMessageSource)
    : list ResolvedOutputSource :=
  match source with MessageReference source _ => add_reference references source | MessageFile _ => references end.

Definition check_body_references (references : list ResolvedOutputSource) (step : ValidatedStep)
    : list ResolvedOutputSource :=
  match step with
  | VCommand _ inputs _ => foldl (λ references reference, add_reference references (rvr_source reference)) references (bt_values inputs)
  | VAgent _ agent =>
      foldl add_message_reference references (vm_text (va_message agent) ++ vm_attachments (va_message agent))
  end.

Definition check_step_references (references : list ResolvedOutputSource) (step : ValidatedStep)
    : list ResolvedOutputSource :=
  check_body_references (foldl add_reference references (bt_values (vc_condition_values (validated_common step)))) step.

Definition referenced_outputs (workflow : ValidatedWorkflow) (reexecuted : list string) : list ResolvedOutputSource :=
  let references :=
    foldl (λ references id,
      match bt_get (vw_steps workflow) id with
      | Some step => check_step_references references step
      | None => references
      end) [] reexecuted in
  let references :=
    foldl (λ references finalizer, check_step_references references (vf_body finalizer)) references
      (bt_values (vw_finalizers workflow)) in
  foldl (λ references source, set_insert output_source_cmp source references) references (bt_values (vw_exports workflow)).

(** ** Orders *)

(** The place of a step in the order of presentation, [usize::MAX] for
    anything else. *)
Definition presentation_index (workflow : ValidatedWorkflow) (id : string) : N :=
  match bt_get (source_indices (vw_presentation_order workflow)) id with
  | Some index => N.of_nat index
  | None => u64_max
  end.

Definition reference_cmp (workflow : ValidatedWorkflow) (l r : ResolvedOutputSource) : comparison :=
  lexicographic (N.compare (presentation_index workflow (node_id (ros_node l))) (presentation_index workflow (node_id (ros_node r))))
    (String.compare (output_source_reference l) (output_source_reference r)).

Definition reference_le (workflow : ValidatedWorkflow) (l r : ResolvedOutputSource) : Prop := reference_cmp workflow l r ≠ Gt.

#[export] Instance reference_le_dec workflow : RelDecision (reference_le workflow).
Proof. intros l r. unfold reference_le. apply _. Defined.

Definition ordered_references (workflow : ValidatedWorkflow) (references : list ResolvedOutputSource)
    : list ResolvedOutputSource := merge_sort (reference_le workflow) references.

Definition violation_key (violation : AdmissionViolation) : nat * string * string :=
  match violation with
  | InvalidFrom id => (0, id, id)
  | ViolationNode id _ => (1, id, ""%string)
  | RequiredSkipped consumer producer => (1, consumer, producer)
  | ViolationReference reference => (2, default ""%string (str_split "." reference !! 1), reference)
  end.

Definition violation_cmp (workflow : ValidatedWorkflow) (l r : AdmissionViolation) : comparison :=
  let '(reason, node, reference) := violation_key l in
  let '(reason', node', reference') := violation_key r in
  lexicographic (Nat.compare reason reason')
    (lexicographic (N.compare (presentation_index workflow node) (presentation_index workflow node'))
      (String.compare reference reference')).

Definition violation_le (workflow : ValidatedWorkflow) (l r : AdmissionViolation) : Prop := violation_cmp workflow l r ≠ Gt.

#[export] Instance violation_le_dec workflow : RelDecision (violation_le workflow).
Proof. intros l r. unfold violation_le. apply _. Defined.

Definition sort_violations (violations : list AdmissionViolation) (workflow : ValidatedWorkflow) : list AdmissionViolation :=
  merge_sort (violation_le workflow) violations.

(** ** Inheritance *)

Definition same_output_contract (current previous : DocumentOutput) : bool :=
  match current, previous with
  | (TextPath _ | TextAgentResponse), (TextPath _ | TextAgentResponse) => true
  | (JsonPath _ _ | JsonAgentResult _), (JsonPath _ _ | JsonAgentResult _) => true
  | GitBranchWorkspace, GitBranchWorkspace => true
  | FilePath _ a, FilePath _ b => bool_decide (a = b)
  | _, _ => false
  end.

Definition satisfied_prior (prior : option PriorState) : bool :=
  match prior with
  | Some (PriorStateSucceeded | PriorStateSkipped | PriorStateInherited) => true
  | _ => false
  end.

Definition node_violations (partition : Partition) (states : btree PriorState) : list AdmissionViolation :=
  omap (λ id, let prior := bt_get states id in
    if satisfied_prior prior then None else Some (ViolationNode id prior)) (pt_inherited partition).

(** The producers the body of a step reads, in order. *)
Definition body_producers (step : ValidatedStep) : list string :=
  foldl (λ producers source, set_insert String.compare (node_id (ros_node source)) producers) []
    (check_body_references [] step).

Definition skipped_violations (workflow : ValidatedWorkflow) (partition : Partition) (effectively_skipped : gset string)
    : list AdmissionViolation :=
  id ← pt_reexecuted partition;
  match bt_get (vw_steps workflow) id with
  | Some step =>
      if decide (vc_failure_policy (validated_common step) = Required)
      then omap (λ producer,
             if bool_decide (producer ∈ pt_inherited partition) && bool_decide (producer ∈ effectively_skipped)
             then Some (RequiredSkipped id producer) else None) (body_producers step)
      else []
  | None => []
  end.

Definition definition_output (workflow : ValidatedWorkflow) (node output : string) : option ValidatedOutput :=
  step ← bt_get (vw_steps workflow) node; bt_get (vc_outputs (validated_common step)) output.

Definition reference_violation (workflow previous : ValidatedWorkflow) (partition : Partition) (source : ResolvedOutputSource)
    : option AdmissionViolation :=
  if negb (bool_decide (node_role (ros_node source) = RoleStep))
     || negb (bool_decide (node_id (ros_node source) ∈ pt_inherited partition))
  then None
  else
    let expected := definition_output workflow (node_id (ros_node source)) (ros_output source) in
    let prior := definition_output previous (node_id (ros_node source)) (ros_output source) in
    match expected, prior with
    | Some expected, Some prior =>
        if same_output_contract (vo_definition expected) (vo_definition prior) then None
        else Some (ViolationReference (output_source_reference source))
    | _, _ => Some (ViolationReference (output_source_reference source))
    end.

Definition check_inheritance (workflow previous : ValidatedWorkflow) (partition : Partition) (states : btree PriorState)
    (effectively_skipped : gset string) : list AdmissionViolation :=
  node_violations partition states
  ++ skipped_violations workflow partition effectively_skipped
  ++ omap (reference_violation workflow previous partition)
       (ordered_references workflow (referenced_outputs workflow (pt_reexecuted partition))).

(** ** Comparing definitions *)

(** Equality of definitions is structural.  [serde_json] keeps a number as
    its text, so literals compare as texts. *)
Fixpoint Value_eq_dec (x y : Value) : {x = y} + {x ≠ y}.
Proof.
  decide equality; first [apply Bool.bool_dec|apply String.string_dec|by apply List.list_eq_dec|apply List.list_eq_dec].
  intros [] []. decide equality. apply String.string_dec.
Defined.

#[export] Instance Value_decision : EqDecision Value := Value_eq_dec.
#[export] Instance ResolvedInput_eq_dec : EqDecision ResolvedInput.
Proof. solve_decision. Defined.
#[export] Instance JsonPointer_eq_dec : EqDecision JsonPointer.
Proof. solve_decision. Defined.
#[export] Instance ResolvedOperandValue_eq_dec : EqDecision ResolvedOperandValue.
Proof. solve_decision. Defined.
#[export] Instance ResolvedOperand_eq_dec : EqDecision ResolvedOperand.
Proof. solve_decision. Defined.
#[export] Instance ResolvedSelector_eq_dec : EqDecision ResolvedSelector.
Proof. solve_decision. Defined.

Fixpoint ResolvedPredicate_eq_dec (x y : ResolvedPredicate) : {x = y} + {x ≠ y}.
Proof.
  decide equality; first [by apply List.list_eq_dec|apply ResolvedOperand_eq_dec|apply ResolvedSelector_eq_dec
    |apply WorkflowNode_eq_dec|apply TerminalDisposition_eq_dec].
Defined.

#[export] Instance ResolvedPredicate_decision : EqDecision ResolvedPredicate := ResolvedPredicate_eq_dec.
#[export] Instance ResolvedOutputSource_eq_dec : EqDecision ResolvedOutputSource.
Proof. solve_decision. Defined.
#[export] Instance ResolvedValueSource_eq_dec : EqDecision ResolvedValueSource.
Proof. solve_decision. Defined.
#[export] Instance ResolvedValueReference_eq_dec : EqDecision ResolvedValueReference.
Proof. solve_decision. Defined.
#[export] Instance ResolvedDirectPrerequisite_eq_dec : EqDecision ResolvedDirectPrerequisite.
Proof. solve_decision. Defined.
#[export] Instance ValidatedOutput_eq_dec : EqDecision ValidatedOutput.
Proof. solve_decision. Defined.
#[export] Instance ValidatedCommonStep_eq_dec : EqDecision ValidatedCommonStep.
Proof. solve_decision. Defined.
#[export] Instance ValidatedMessageSource_eq_dec : EqDecision ValidatedMessageSource.
Proof. solve_decision. Defined.
#[export] Instance ValidatedAgentMessage_eq_dec : EqDecision ValidatedAgentMessage.
Proof. solve_decision. Defined.
#[export] Instance Thinking_eq_dec : EqDecision Thinking.
Proof. solve_decision. Defined.
#[export] Instance ClaudeCodeEffort_eq_dec : EqDecision ClaudeCodeEffort.
Proof. solve_decision. Defined.
#[export] Instance PiConfig_eq_dec : EqDecision PiConfig.
Proof. solve_decision. Defined.
#[export] Instance ClaudeCodeConfig_eq_dec : EqDecision ClaudeCodeConfig.
Proof. solve_decision. Defined.
#[export] Instance CodexConfig_eq_dec : EqDecision CodexConfig.
Proof. solve_decision. Defined.
#[export] Instance ValidatedHarness_eq_dec : EqDecision ValidatedHarness.
Proof. solve_decision. Defined.
#[export] Instance ValidatedAgent_eq_dec : EqDecision ValidatedAgent.
Proof. solve_decision. Defined.
#[export] Instance ValidatedStep_eq_dec : EqDecision ValidatedStep.
Proof. solve_decision. Defined.
#[export] Instance ValidatedRecoveryHandler_eq_dec : EqDecision ValidatedRecoveryHandler.
Proof. solve_decision. Defined.
#[export] Instance ValidatedStepRecovery_eq_dec : EqDecision ValidatedStepRecovery.
Proof. solve_decision. Defined.

Record WorkflowSourceProvenance := { sp_source_root : string; sp_workflow_path : string }.

(** The parts of [ResolvedWorkflow] a continuation reads. *)
Record ResolvedWorkflow := {
  rw_definition : ValidatedWorkflow;
  rw_source_closure : btree (list ascii);
  rw_source : WorkflowSourceProvenance;
  rw_content_digest : DigestV1
}.

Definition source_bytes (workflow : ResolvedWorkflow) (canonical_path : string) : option (list ascii) :=
  bt_get (rw_source_closure workflow) canonical_path.

Definition output_schema (output : ValidatedOutput) : option string :=
  match vo_definition output with
  | JsonPath _ schema | JsonAgentResult schema => Some schema
  | _ => None
  end.

Definition recovery_prompt (recovery : option (option ValidatedStepRecovery)) : option string :=
  match recovery with
  | Some (Some {| vr_handler := Some (HandlerAgent _ prompt _ _) |}) => Some prompt
  | _ => None
  end.

Definition message_file (source : ValidatedMessageSource) : option string :=
  match source with MessageFile path => Some path | MessageReference _ _ => None end.

(** The retained files a step reaches, in the order they are collected. *)
Definition reached_paths (recovery : option (option ValidatedStepRecovery)) (step : ValidatedStep) : list string :=
  omap output_schema (bt_values (vc_outputs (validated_common step)))
  ++ option_list (recovery_prompt recovery)
  ++ match step with
     | VCommand _ _ _ => []
     | VAgent _ agent =>
         va_system_prompt agent
         :: omap message_file (vm_text (va_message agent) ++ vm_attachments (va_message agent))
     end.

Definition definition_changed (current previous : ResolvedWorkflow) (id : string) : bool :=
  let current_step := bt_get (vw_steps (rw_definition current)) id in
  let previous_step := bt_get (vw_steps (rw_definition previous)) id in
  let recovery := bt_get (vw_recoveries (rw_definition current)) id in
  if negb (bool_decide (current_step = previous_step))
     || negb (bool_decide (recovery = bt_get (vw_recoveries (rw_definition previous)) id))
  then true
  else match current_step with
       | None => true
       | Some step =>
           let paths := foldl (λ paths path, set_insert String.compare path paths) [] (reached_paths recovery step) in
           existsb (λ path, negb (bool_decide (source_bytes current path = source_bytes previous path))) paths
       end.
