(* ===== verification/Partitions.v ===== *)
(** * The split of a continuation

    [partition] executes again exactly the steps that can be reached from the
    selection through prerequisites; its loop ends within the fuel, since a
    step enters the queue only when it enters the set. *)

From stdpp Require Import relations.
From S2P Require Import Prelude Text Nodes Evidence Condition Document Validated Validation Graph Runtime Continuation.

Local Open Scope list_scope.

(** ** Ordered sets *)

Lemma elem_of_set_insert {A} (cmp : A → A → comparison) x s z :
  (∀ x y, cmp x y = Eq → x = y) → z ∈ set_insert cmp x s ↔ z = x ∨ z ∈ s.
Proof.
  intros Hcmp. induction s as [|y s IH]; simpl; [set_solver|]. destruct (cmp x y) eqn:E; [apply Hcmp in E as ->| |]; set_solver.
Qed.

Lemma elem_of_foldl_insert {A B} (cmp : B → B → comparison) (f : A → B) l s z :
  (∀ x y, cmp x y = Eq → x = y) → z ∈ foldl (λ s a, set_insert cmp (f a) s) s l ↔ z ∈ s ∨ z ∈ f <$> l.
Proof.
  intros Hcmp. revert s. induction l as [|a l IH]; intros s; simpl; [set_solver|].
  rewrite IH, elem_of_set_insert by done. set_solver.
Qed.

Lemma string_compare_Eq x y : String.compare x y = Eq → x = y.
Proof. apply String.compare_eq_iff. Qed.

Lemma output_source_cmp_Eq l r : output_source_cmp l r = Eq → l = r.
Proof.
  destruct l as [[i r1] o t], r as [[i' r1'] o' t']. unfold output_source_cmp, lexicographic. simpl.
  destruct (String.compare i i') eqn:Ei; try done. apply string_compare_Eq in Ei as ->.
  destruct (Nat.compare (role_rank r1) (role_rank r1')) eqn:Er; try done. apply Nat.compare_eq in Er.
  destruct (String.compare o o') eqn:Eo; try done. apply string_compare_Eq in Eo as ->. intros Et%Nat.compare_eq.
  assert (r1 = r1') as -> by (by destruct r1, r1'). assert (t = t') as -> by (by destruct t, t'). done.
Qed.

(** ** The selection *)

Lemma invalid_selection_nil W seen from :
  invalid_selection W seen from = [] ↔
  NoDup from ∧ Forall (λ id, id ∉ seen ∧ is_Some (bt_get (vw_steps W) id)) from.
Proof.
  revert seen. induction from as [|id from IH]; intros seen; simpl.
  { split; [by repeat constructor|done]. }
  rewrite NoDup_cons, Forall_cons. unfold bt_contains_key.
  destruct (decide (id ∈ seen)) as [Hs|Hs]; [rewrite bool_decide_true by done; naive_solver|]. rewrite bool_decide_false by done.
  destruct (decide (is_Some (bt_get (vw_steps W) id))) as [Hk|Hk]; [|rewrite bool_decide_false by done; naive_solver].
  rewrite bool_decide_true by done. simpl. rewrite IH, !Forall_forall. set_solver.
Qed.

Lemma elem_of_invalid_selection W seen from id :
  id ∈ invalid_selection W seen from ↔
  id ∈ from ∧ (id ∈ seen ∨ bt_get (vw_steps W) id = None ∨ ∃ before after, from = before ++ after ∧ id ∈ before ∧ id ∈ after).
Proof.
  revert seen. induction from as [|i from IH]; intros seen; simpl; [set_solver|].
  assert (Hrest : id ∈ invalid_selection W ({[i]} ∪ seen) from →
    id ∈ i :: from ∧ (id ∈ seen ∨ bt_get (vw_steps W) id = None
      ∨ ∃ before after, i :: from = before ++ after ∧ id ∈ before ∧ id ∈ after)).
  { intros [Hin [Hs|[Hn|(before & after & -> & Hb & Ha)]]]%IH; [|set_solver|].
    - split; [set_solver|]. apply elem_of_union in Hs as [->%elem_of_singleton|Hs]; [|by left]. right. right.
      exists [i], from. set_solver.
    - split; [set_solver|]. right. right. exists (i :: before), after. set_solver. }
  assert (Hback : id ∈ i :: from → (id ∈ seen ∨ bt_get (vw_steps W) id = None
      ∨ ∃ before after, i :: from = before ++ after ∧ id ∈ before ∧ id ∈ after) →
      id ≠ i ∨ id ∈ from → id ∈ invalid_selection W ({[i]} ∪ seen) from).
  { intros Hin Hcase Hfrom. apply IH. assert (Hf : id ∈ from) by set_solver. split; [done|].
    destruct (decide (id = i)) as [->|Hne]; [set_solver|].
    destruct Hcase as [?|[?|(before & after & Heq & Hb & Ha)]]; [set_solver|by right; left|].
    destruct before as [|b before]; [set_solver|]. injection Heq as <- ->. right. right. exists before, after. set_solver. }
  unfold bt_contains_key. destruct (bool_decide (i ∈ seen) || _) eqn:E.
  - rewrite elem_of_cons. split; [intros [->|Hin]; [split; [set_solver|]|by apply Hrest]|].
    + apply orb_true_iff in E as [E%bool_decide_eq_true|E%negb_true_iff%bool_decide_eq_false]; [by left|].
      right. left. by apply eq_None_not_Some.
    + intros [Hin Hcase]. destruct (decide (id = i)); [by left|]. right. apply Hback; [done..|by left].
  - apply orb_false_iff in E as [E%bool_decide_eq_false E'%negb_false_iff%bool_decide_eq_true].
    split; [apply Hrest|]. intros [Hin Hcase]. apply Hback; [done..|]. destruct (decide (id = i)) as [->|?]; [right|by left].
    destruct Hcase as [?|[Hn|(before & after & Heq & Hb & Ha)]]; [done|rewrite Hn in E'; by destruct E'|].
    destruct before as [|b before]; [set_solver|]. injection Heq as <- ->. set_solver.
Qed.

(** ** Dependents *)

(** [n] is in the order of presentation and needs [p]. *)
Definition needs (W : ValidatedWorkflow) (p n : string) : Prop :=
  n ∈ vw_presentation_order W
  ∧ ∃ step, bt_get (vw_steps W) n = Some step ∧ p ∈ producers_of (vc_prerequisites (validated_common step)).

Lemma elem_of_push_dependents n ps dependents p x :
  x ∈ dependents_of (foldl (push_dependent n) dependents ps) p ↔
  x ∈ dependents_of dependents p ∨ (x = n ∧ p ∈ producers_of ps).
Proof.
  revert dependents. induction ps as [|q ps IH]; intros dependents; simpl; [set_solver|]. rewrite IH.
  unfold push_dependent. rewrite dependents_of_insert. fold (dependents_of dependents (rdp_producer q)).
  case_decide as E; [subst|]; set_solver.
Qed.

Lemma collect_dependents_spec W order dependents :
  match collect_dependents W order dependents with
  | Ok dependents' => Forall (λ n, is_Some (bt_get (vw_steps W) n)) order
      ∧ ∀ p n, n ∈ dependents_of dependents' p ↔ n ∈ dependents_of dependents p
          ∨ (n ∈ order ∧ ∃ step, bt_get (vw_steps W) n = Some step ∧ p ∈ producers_of (vc_prerequisites (validated_common step)))
  | Err missing => ∃ n, missing = [n] ∧ n ∈ order ∧ bt_get (vw_steps W) n = None
  end.
Proof.
  revert dependents. induction order as [|m order IH]; intros dependents; simpl; [split; [done|set_solver]|].
  destruct (bt_get (vw_steps W) m) as [step|] eqn:E; [|set_solver].
  specialize (IH (foldl (push_dependent m) dependents (vc_prerequisites (validated_common step)))).
  destruct (collect_dependents _ _ _) as [dependents'|missing]; [|set_solver]. destruct IH as [Hall Hd].
  split; [constructor; [by eexists|done]|]. intros p n. rewrite Hd, elem_of_push_dependents. set_solver.
Qed.

(** ** The queue *)

Section queue.
Context (order : list string) (dependents : btree (list string)).
Hypothesis Hdependents : ∀ p, dependents_of dependents p ⊆ order.

Definition missed (visited : gset string) : nat := length (filter (.∉ visited) order).

Lemma missed_insert visited n : n ∈ order → n ∉ visited → S (missed ({[n]} ∪ visited)) <= missed visited.
Proof.
  unfold missed. intros Hn Hv. clear Hdependents. assert (Hle : ∀ l, length (filter (.∉ {[n]} ∪ visited) l) <= length (filter (.∉ visited) l)).
  { induction l as [|m l IH]; [done|]. rewrite !filter_cons. repeat case_decide; simpl; try lia; set_solver. }
  induction order as [|m l IH]; [set_solver|]. rewrite !filter_cons. specialize (Hle l).
  destruct (decide (n = m)) as [->|Hne].
  - rewrite decide_False by set_solver. rewrite decide_True by done. simpl. lia.
  - assert (Hl : n ∈ l) by set_solver. specialize (IH Hl). repeat case_decide; simpl; try lia; set_solver.
Qed.

(** Visiting the dependents of a step adds those that are new to the set and
    to the queue. *)
Lemma visit_dependents acc ds :
  ds ⊆ order →
  let acc' := foldl visit_dependent acc ds in
  acc'.1 = acc.1 ∪ list_to_set ds
  ∧ (∃ new, acc'.2 = acc.2 ++ new ∧ new ⊆ ds ∧ ∀ x, x ∈ acc'.1 → x ∈ acc.1 ∨ x ∈ new)
  ∧ length acc'.2 + missed acc'.1 <= length acc.2 + missed acc.1.
Proof.
  revert acc. induction ds as [|d ds IH]; intros acc Hds; simpl.
  { split; [set_solver|]. split; [|done]. exists []. rewrite app_nil_r. set_solver. }
  destruct (IH (visit_dependent acc d)) as (Hset & (new & Hq & Hnew & Hcover) & Hlen); [set_solver|].
  unfold visit_dependent in *. destruct (decide (d ∈ acc.1)) as [Hd|Hd].
  - rewrite bool_decide_true in * by done. split; [set_solver|]. split; [|done]. exists new. set_solver.
  - rewrite bool_decide_false in * by done. simpl in *. split; [set_solver|]. split.
    + exists (d :: new). rewrite Hq, <-app_assoc. set_solver.
    + pose proof (missed_insert acc.1 d ltac:(set_solver) Hd). rewrite length_app in Hlen. simpl in Hlen. lia.
Qed.

Record visiting (from : list string) (acc : gset string * list string) : Prop := {
  vq_from : list_to_set from ⊆ acc.1;
  vq_queue : list_to_set acc.2 ⊆ acc.1;
  vq_reached : ∀ x, x ∈ acc.1 → ∃ f, f ∈ from ∧ rtc (λ p n, n ∈ dependents_of dependents p) f x;
  vq_closed : ∀ x, x ∈ acc.1 → x ∉ acc.2 → ∀ n, n ∈ dependents_of dependents x → n ∈ acc.1
}.

Lemma visiting_step from visited id queue :
  visiting from (visited, id :: queue) →
  visiting from (foldl visit_dependent (visited, queue) (dependents_of dependents id)).
Proof.
  intros [Hfrom Hqueue Hreached Hclosed]. simpl in *.
  destruct (visit_dependents (visited, queue) (dependents_of dependents id) (Hdependents id)) as (Hset & (new & Hq & Hnew & Hcover) & _).
  destruct (foldl visit_dependent _ _) as [visited' queue']. simpl in *. subst. split; simpl.
  - set_solver.
  - set_solver.
  - intros x [Hx|Hx%elem_of_list_to_set]%elem_of_union; [by apply Hreached|].
    destruct (Hreached id ltac:(set_solver)) as (f & Hf & Hr). exists f. split; [done|]. by eapply rtc_r.
  - intros x Hx Hnq n Hn. destruct (Hcover x Hx) as [Hv|Hv]; [|set_solver].
    destruct (decide (x = id)) as [->|Hne]; [set_solver|]. apply elem_of_union_l, (Hclosed x); set_solver.
Qed.

Lemma visit_queue_spec fuel from acc :
  visiting from acc → length acc.2 + missed acc.1 <= fuel →
  visiting from (visit_queue fuel dependents acc) ∧ (visit_queue fuel dependents acc).2 = [].
Proof.
  revert acc. induction fuel as [|fuel IH]; intros [visited queue] Hv Hlen; simpl in *.
  { split; [done|]. apply length_zero_iff_nil. lia. }
  destruct queue as [|id queue]; [done|]. fold (dependents_of dependents id). apply IH; [by apply visiting_step|].
  pose proof (visit_dependents (visited, queue) (dependents_of dependents id) (Hdependents id)) as (_ & _ & Hle). simpl in *. lia.
Qed.

(** The set is the closure of the selection. *)
Lemma visit_queue_closure from x :
  let visited := (visit_queue (length from + length order) dependents (list_to_set from, from)).1 in
  x ∈ visited ↔ ∃ f, f ∈ from ∧ rtc (λ p n, n ∈ dependents_of dependents p) f x.
Proof.
  intros visited. destruct (visit_queue_spec (length from + length order) from (list_to_set from, from)) as [[Hfrom _ Hreached Hclosed] Hend].
  - split; simpl; [done..| |set_solver]. intros y Hy%elem_of_list_to_set. by exists y.
  - simpl. unfold missed. pose proof (length_filter (.∉ (list_to_set from : gset string)) order). lia.
  - split; [apply Hreached|]. intros (f & Hf & Hr). assert (Hv : f ∈ visited) by set_solver. clear Hf.
    induction Hr as [|y z w Hyz _ IH]; [done|]. apply IH, (Hclosed y); [done|rewrite Hend; set_solver|done].
Qed.
End queue.

(** ** The partition *)

Lemma partition_needs W dependents p n :
  collect_dependents W (vw_presentation_order W) [] = Ok dependents → n ∈ dependents_of dependents p ↔ needs W p n.
Proof.
  intros Hd. pose proof (collect_dependents_spec W (vw_presentation_order W) []) as Hspec. rewrite Hd in Hspec.
  destruct Hspec as [_ Hspec]. rewrite Hspec. unfold needs, dependents_of. set_solver.
Qed.

(** The steps that are reached from the selection. *)
Definition reruns (W : ValidatedWorkflow) (from : list string) (n : string) : Prop :=
  ∃ f, f ∈ from ∧ rtc (needs W) f n.

(** A split of the order of presentation by what the selection reaches. *)
Record splits (W : ValidatedWorkflow) (from : list string) (P : Partition) : Prop := {
  sp_reexecuted : ∀ n, n ∈ pt_reexecuted P ↔ n ∈ vw_presentation_order W ∧ reruns W from n;
  sp_inherited : ∀ n, n ∈ pt_inherited P ↔ n ∈ vw_presentation_order W ∧ ¬ reruns W from n;
  sp_reexecuted_order : pt_reexecuted P `sublist_of` vw_presentation_order W;
  sp_inherited_order : pt_inherited P `sublist_of` vw_presentation_order W;
  sp_all : vw_presentation_order W ≡ₚ pt_reexecuted P ++ pt_inherited P
}.

Lemma filter_complement (X : gset string) l : l ≡ₚ filter (.∈ X) l ++ filter (.∉ X) l.
Proof.
  induction l as [|x l IH]; [done|]. rewrite !filter_cons. destruct (decide (x ∈ X)) as [Hx|Hx].
  - rewrite decide_False by tauto. simpl. by f_equiv.
  - rewrite decide_True by done. by apply Permutation_cons_app.
Qed.

Lemma partition_spec W from :
  match partition W from with
  | Ok P => from ≠ [] ∧ NoDup from ∧ Forall (λ n, is_Some (bt_get (vw_steps W) n)) from ∧ splits W from P
  | Err invalid =>
      invalid = invalid_selection W ∅ from ∧ (from = [] ∨ invalid ≠ [])
      ∨ ∃ n, invalid = [n] ∧ n ∈ vw_presentation_order W ∧ bt_get (vw_steps W) n = None
  end.
Proof.
  unfold partition. destruct (decide (from = [])) as [->|Hne]; [rewrite bool_decide_true by done; by left; split; [|left]|].
  rewrite (bool_decide_false (from = [])) by done. destruct (decide (invalid_selection W ∅ from = [])) as [Hnil|Hinv].
  2: { rewrite bool_decide_false by done. left. by split; [|right]. }
  rewrite bool_decide_true by done. simpl.
  pose proof (collect_dependents_spec W (vw_presentation_order W) []) as Hspec.
  destruct (collect_dependents W _ []) as [dependents|missing] eqn:Hd; simpl; [|by right].
  apply invalid_selection_nil in Hnil as [Hnd Hk]. split_and!; [done|done|by eapply Forall_impl; [done|intros ? []]|].
  assert (Hclosure : ∀ n, n ∈ (visit_queue (queue_fuel W from) dependents (list_to_set from, from)).1 ↔ reruns W from n).
  { intros n. unfold queue_fuel. rewrite (visit_queue_closure (vw_presentation_order W)).
    - split; intros (f & Hf & Hr); exists f; (split; [done|]); (eapply rtc_subrel; [|exact Hr]); intros p x; by apply partition_needs.
    - intros p x Hx%(partition_needs W dependents p x Hd). apply Hx. }
  split; simpl; [intros n; rewrite list_elem_of_filter, Hclosure; tauto..|apply sublist_filter|apply sublist_filter|apply filter_complement].
Qed.

(** What an inherited step needs is inherited. *)
Lemma inherited_closed W from P p n :
  splits W from P → n ∈ pt_inherited P → needs W p n → p ∈ vw_presentation_order W → p ∈ pt_inherited P.
Proof.
  intros Hs [Hn Hno]%(sp_inherited _ _ _ Hs) Hp Hord. apply (sp_inherited _ _ _ Hs). split; [done|].
  intros (f & Hf & Hr). apply Hno. exists f. split; [done|]. by eapply rtc_r.
Qed.
