(* ===== verification/Attempts.v ===== *)
(** * Attempts on disk and what a continuation takes from them

    The state of a local run ([local_run.rs]): the run, its attempts with
    their steps, finalizers, invocations, actions and process guards, the
    index over them, the split of a pending continuation, the steps it
    inherits, the attempt it begins and the seed it is executed with.

    Reading and verifying files are the operations of the class
    [RetainedFiles].  Numbers of attempts are [u64]; an index into a [Vec] is
    far below [u64::MAX], so the number after it always exists. *)

From S2P Require Import Prelude Text Nodes Evidence Document Validated Validation Failures Capacity Runtime RunTiming Results SchemaCommon ResultMetadata RunResults Continuation.

Local Open Scope list_scope.

(** ** Data *)

(** The errors of a local run; what the errors of files, JSON and artifacts
    carry is left out. *)
Inductive LocalRunDirectoryError :=
| InvalidPath
| ParentUnavailable
| DestinationExists
| ExecutionRootOverlap
| StagingUnavailable
| LockUnavailable
| IdentityUnavailable
| HostIdentityUnavailable
| SerializationUnavailable
| StateInvalid
| DocumentFramingInvalid
| DocumentNullInvalid
| RecoverySchemaUnsupported
| StateConflict
| StateWriteUnavailable
| PublicationUnavailable
| FileError
| StateFileError
| JsonError
| ArtifactError
| AttemptNumberInvalid
| AttemptTriggerInvalid
| AttemptIdentityInvalid
| AttemptExecutionRootInvalid
| AttemptCreatedAtInvalid
| AttemptStartedAtInvalid
| AttemptSettledAtInvalid
| AttemptSettlementInvalid
| AttemptDefinitionInvalid
| AttemptSnapshotInvalid
| AttemptOwnerInvalid
| AttemptStepsEmpty
| AttemptStartInvalid
| AttemptCancellationRecordInvalid
| AttemptForceAbortInvalid
| AttemptCancellationMissing
| AttemptCancellationConfirmationInvalid
| AttemptInterruptionCancellationInvalid
| AttemptInterruptionInvalid
| AttemptRejectionInvalid
| AttemptStepIdInvalid
| AttemptStepRoleInvalid
| AttemptStepDuplicate
| AttemptStepDetailInvalid
| AttemptStepOutputsInvalid
| AttemptStepRecoveryInvalid
| AttemptStepCancellationInvalid
| AttemptActionIdInvalid
| AttemptActionTargetInvalid
| AttemptActionNodeInvalid
| AttemptActionInvocationInvalid
| AttemptTerminalActionsInvalid
| AttemptGuardIdInvalid
| AttemptGuardActionInvalid
| AttemptGuardStepInvalid
| AttemptGuardHostInvalid
| AttemptGuardProcessInvalid
| AttemptContinuationInvalid
| AttemptInheritedStepInvalid
| AttemptInheritedOutputInvalid
| AttemptRecoveryAccountingInvalid
| AttemptRecoveryInvocationInvalid
| AttemptRecoveryDiagnosticInvalid
| AttemptRecoveryRoundInvalid
| AttemptRecoveryActiveInvalid
| AttemptFinalizationForceAbortInvalid
| AttemptFinalizationProgressInvalid
| AttemptFinalizationCompleteInvalid
| AttemptFinalizationIssuesInvalid
| AttemptFinalizationInterruptionInvalid
| AttemptResultInvalid
| ManifestDigestInvalid
| RegularFileInvalid
| FileSizeInvalid
| CarrierInvalid
| StateSchemaInvalid
| StateIdentityInvalid
| StateRevisionInvalid
| StateCurrentAttemptInvalid
| StateAttemptsEmpty
| StateAttemptIndexInvalid
| StateDiagnosticsLimitInvalid.

Inductive AttemptTriggerV1 := AttemptInitial | AttemptExplicitRetry | AttemptContinuation.

Inductive AttemptStateV1 :=
| AttemptStateCreated
| AttemptStateRunning
| AttemptStateCancelling
| AttemptStateSucceeded
| AttemptStateWorkflowFailed
| AttemptStateCancelled
| AttemptStateInterrupted
| AttemptStateRejected.

(** [AttemptStateV1::is_terminal]. *)
Definition attempt_is_terminal (state : AttemptStateV1) : bool :=
  match state with
  | AttemptStateSucceeded | AttemptStateWorkflowFailed | AttemptStateCancelled | AttemptStateInterrupted | AttemptStateRejected => true
  | AttemptStateCreated | AttemptStateRunning | AttemptStateCancelling => false
  end.

Inductive AttemptStepStateV1 :=
| AttemptPending
| AttemptStarting
| AttemptRunning
| AttemptCapturingOutputs
| AttemptCancelling
| AttemptSucceeded
| AttemptInherited
| AttemptFailed
| AttemptBlocked
| AttemptSkipped
| AttemptNotRun
| AttemptCancelled.

Inductive AttemptDefinitionLocatorV1 :=
| LocatorRun
| LocatorAttempt (attempt_number : N)
| LocatorPriorAttempt (attempt_number : N).

Record AttemptDefinitionV1 := {
  ad_digest : DigestV1;
  ad_manifest_digest : DigestV1;
  ad_locator : AttemptDefinitionLocatorV1
}.

(** *** Owners, interruptions and rejections *)

Inductive ExecutionHostKindV1 := HostBoot | IsolationInstance.

Record ExecutionHostV1 := { eh_kind : ExecutionHostKindV1; eh_value : string }.

Record AttemptOwnerV1 := { ow_owner_nonce : string; ow_execution_host : ExecutionHostV1 }.

Record AttemptCancellationV1 := {
  acn_reason : CancellationReasonV1;
  acn_requested_at : string;
  acn_force_stop_deadline : string;
  acn_workflow_confirmed : bool
}.

Inductive InterruptionCauseV1 :=
| ExecutorShutdown
| InterruptedLeaseExpired
| ExecutionOwnerLost
| ExecutorFault
| StatePersistenceFailure.

Record AttemptInterruptionV1 := {
  ait_cause : InterruptionCauseV1;
  ait_execution_may_have_started : bool;
  ait_cancellation_requested : bool
}.

Inductive RejectionCodeV1 := ImmutableSpecificationUnusable.

Record AttemptRejectionV1 := { arj_code : RejectionCodeV1 }.

(** *** Retained outputs *)

Record RetainedCarrierV1 := {
  ct_relative_path : string;
  ct_media_type : string;
  ct_size_bytes : N;
  ct_digest : DigestV1
}.

Inductive RetainedOutputV1 :=
| RetainedText (name : string) (producer : option OutputProducer) (carrier : RetainedCarrierV1)
| RetainedJson (name : string) (producer : option OutputProducer) (carrier : RetainedCarrierV1)
| RetainedFile (name : string) (producer : option OutputProducer) (media_type : string) (carrier : RetainedCarrierV1)
| RetainedGitBranch (name : string) (producer : option OutputProducer) (artifact_version : N)
    (object_format base_oid head_oid tree_oid : string) (carrier : option RetainedCarrierV1).

#[export] Instance WorkspaceSnapshotUnavailableReasonV1_eq_dec : EqDecision WorkspaceSnapshotUnavailableReasonV1.
Proof. solve_decision. Defined.
#[export] Instance WorkspaceSnapshotV1_eq_dec : EqDecision WorkspaceSnapshotV1.
Proof. solve_decision. Defined.
#[export] Instance AttemptTriggerV1_eq_dec : EqDecision AttemptTriggerV1.
Proof. solve_decision. Defined.
#[export] Instance AttemptStepStateV1_eq_dec : EqDecision AttemptStepStateV1.
Proof. solve_decision. Defined.
#[export] Instance AttemptNodeRoleV1_eq_dec : EqDecision AttemptNodeRoleV1.
Proof. solve_decision. Defined.
#[export] Instance AttemptDefinitionLocatorV1_eq_dec : EqDecision AttemptDefinitionLocatorV1.
Proof. solve_decision. Defined.
#[export] Instance AttemptDefinitionV1_eq_dec : EqDecision AttemptDefinitionV1.
Proof. solve_decision. Defined.
#[export] Instance RetainedCarrierV1_eq_dec : EqDecision RetainedCarrierV1.
Proof. solve_decision. Defined.
#[export] Instance RetainedOutputV1_eq_dec : EqDecision RetainedOutputV1.
Proof. solve_decision. Defined.

Definition retained_name (retained : RetainedOutputV1) : string :=
  match retained with
  | RetainedText name _ _ | RetainedJson name _ _ | RetainedFile name _ _ _ | RetainedGitBranch name _ _ _ _ _ _ _ => name
  end.

Definition retained_producer (retained : RetainedOutputV1) : option OutputProducer :=
  match retained with
  | RetainedText _ producer _ | RetainedJson _ producer _ | RetainedFile _ producer _ _
  | RetainedGitBranch _ producer _ _ _ _ _ _ => producer
  end.

Definition set_producer (retained : RetainedOutputV1) (value : OutputProducer) : RetainedOutputV1 :=
  match retained with
  | RetainedText name _ carrier => RetainedText name (Some value) carrier
  | RetainedJson name _ carrier => RetainedJson name (Some value) carrier
  | RetainedFile name _ media_type carrier => RetainedFile name (Some value) media_type carrier
  | RetainedGitBranch name _ version format base head tree carrier =>
      RetainedGitBranch name (Some value) version format base head tree carrier
  end.

(** *** Recovery of a step *)

Inductive DurableRecoveryHandlerKindV1 := DurableCmd | DurableAgent.

Record DurableRecoveryRoundV1 := {
  drr_number : N;
  drr_failed_execution : RecoveryFailedExecutionV1;
  drr_handler : option RecoveryHandlerSummaryV1
}.

Inductive DurableRecoveryHandlerStateV1 := DurableHandlerStarting | DurableHandlerRunning.

Record DurableRecoveryActiveV1 := {
  dra_role : RecoveryInvocationRoleV1;
  dra_target_execution : option N;
  dra_recovery_round : option N;
  dra_invocation_id : N;
  dra_handler_state : option DurableRecoveryHandlerStateV1;
  dra_decision : option RecoveryHandlerOutcomeV1
}.

Record DurableStepRecoveryV1 := {
  dsr_schema_version : N;
  dsr_configured_retries : N;
  dsr_handler_kind : option DurableRecoveryHandlerKindV1;
  dsr_rounds : list DurableRecoveryRoundV1;
  dsr_active : option DurableRecoveryActiveV1;
  dsr_termination : option RecoveryTerminationV1
}.

Record AttemptStepV1 := {
  ast_id : string;
  ast_role : AttemptNodeRoleV1;
  ast_failure_policy : FailurePolicy;
  ast_state : AttemptStepStateV1;
  ast_outputs : option (list RetainedOutputV1);
  ast_detail : option NodeDetail;
  ast_recovery : option DurableStepRecoveryV1
}.

(** *** Progress *)

Inductive OutstandingActionKindV1 :=
| OutstandingStartStep
| OutstandingStartRecoveryHandler
| OutstandingCaptureOutputs
| OutstandingCancelStep
| OutstandingFinishRun.

Record OutstandingActionV1 := {
  oa_action_id : N;
  oa_kind : OutstandingActionKindV1;
  oa_step_id : option string;
  oa_node_role : option AttemptNodeRoleV1;
  oa_target_execution : option N;
  oa_recovery_round : option N
}.

Record DurableInvocationAccountingV1 := {
  dia_maximum_invocations : N;
  dia_observed_invocations : N;
  dia_settled_invocations : N;
  dia_input_tokens : N;
  dia_output_tokens : N;
  dia_retained_diagnostic_bytes : N;
  dia_discarded_diagnostic_bytes : N
}.

Record AttemptProgressV1 := {
  apr_accepted_occurrence_ordinal : N;
  apr_last_transition_sequence : N;
  apr_steps : list AttemptStepV1;
  apr_outstanding_actions : list OutstandingActionV1;
  apr_invocations : list DurableInvocationV1;
  apr_accounting : DurableInvocationAccountingV1
}.

(** *** Finalization *)

Record DurableFinalizationCancellationV1 := {
  dfc_reason : CancellationReasonV1;
  dfc_force_stop_deadline : option string
}.

Record DurableFinalizationIssueV1 := { dfi_finalizer_id : string; dfi_impact : FailurePolicy }.

Record DurableFinalizerV1 := {
  df_id : string;
  df_role : AttemptNodeRoleV1;
  df_failure_policy : FailurePolicy;
  df_state : AttemptStepStateV1;
  df_outputs : option (list RetainedOutputV1);
  df_detail : option NodeDetail
}.

Record AttemptFinalizationProgressV1 := {
  afp_complete : bool;
  afp_trigger : FinalizationTriggerV1;
  afp_finalizers : list AttemptStepV1;
  afp_cancellation : option DurableFinalizationCancellationV1;
  afp_force_abort : bool
}.

Record AttemptFinalizationCompleteV1 := {
  afc_complete : bool;
  afc_trigger : FinalizationTriggerV1;
  afc_finalizers : list DurableFinalizerV1;
  afc_issues : list DurableFinalizationIssueV1;
  afc_cancellation : option DurableFinalizationCancellationV1;
  afc_force_abort : bool
}.

Inductive AttemptFinalizationV1 :=
| FinalizationProgress (progress : AttemptFinalizationProgressV1)
| FinalizationComplete (complete : AttemptFinalizationCompleteV1).

(** *** Processes *)

Inductive ProcessGuardStateV1 := GuardPrepared | GuardReleased | GuardQuiesced.

Inductive ProcessLivenessKindV1 := LeaderStartIdentity | GuardHandleIdentity.

Record ProcessLivenessV1 := { pl_kind : ProcessLivenessKindV1; pl_value : string }.

Record ProcessGuardV1 := {
  pg_guard_id : string;
  pg_action_id : N;
  pg_step_id : string;
  pg_node_role : AttemptNodeRoleV1;
  pg_state : ProcessGuardStateV1;
  pg_execution_host : ExecutionHostV1;
  pg_process_group_id : Z;
  pg_liveness : ProcessLivenessV1
}.

(** *** Results of attempts *)

Inductive ResultAbsentReasonV1 :=
| AbsentAttemptNonterminal
| AbsentPublicationPending
| AbsentInterrupted
| AbsentRejected.

Inductive PublicationFailurePhaseV1 := PhaseExportCopy | PhaseSerialization | PhaseClose | PhaseVerification | PhaseRename.

Inductive AttemptResultV1 :=
| ResultNotPublished (reason : ResultAbsentReasonV1)
| ResultPublished (relative_directory : string)
| ResultPublicationFailed (phase : PublicationFailurePhaseV1) (result_invariant : option RunResultInvariant).

(** *** Attempts, states and runs *)

Record LocalAttemptV1 := {
  la_attempt_id : string;
  la_attempt_number : N;
  la_trigger : AttemptTriggerV1;
  la_prior_attempt_number : option N;
  la_definition : option AttemptDefinitionV1;
  la_state : AttemptStateV1;
  la_continuation : option ContinuationRecordV1;
  la_execution_root : string;
  la_created_at : string;
  la_started_at : option string;
  la_settled_at : option string;
  la_settlement_snapshot : option WorkspaceSnapshotV1;
  la_owner : AttemptOwnerV1;
  la_cancellation : option AttemptCancellationV1;
  la_force_abort : option ForceAbortEvidence;
  la_interruption : option AttemptInterruptionV1;
  la_rejection : option AttemptRejectionV1;
  la_progress : AttemptProgressV1;
  la_finalization : option AttemptFinalizationV1;
  la_process_guards : list ProcessGuardV1;
  la_result : AttemptResultV1
}.

Definition la_steps (attempt : LocalAttemptV1) : list AttemptStepV1 := apr_steps (la_progress attempt).
Arguments la_steps !_ /.

Inductive DiagnosticCodeV1 :=
| DiagnosticStaleOccurrence
| DiagnosticStatePersistenceFailure
| DiagnosticTransitionCapacityExceeded
| DiagnosticResultPublicationFailure
| DiagnosticPrivateCleanupFailure.

Record LocalDiagnosticV1 := {
  ldg_sequence : N;
  ldg_attempt_number : N;
  ldg_code : DiagnosticCodeV1;
  ldg_step_id : option string;
  ldg_action_id : option N;
  ldg_guard_id : option string
}.

Record LocalRunStateV1 := {
  ls_schema_version : N;
  ls_local_run_id : string;
  ls_revision : N;
  ls_current_attempt_number : N;
  ls_attempts : list LocalAttemptV1;
  ls_diagnostics : list LocalDiagnosticV1
}.

Inductive GitBaselineUnavailableReasonV1 :=
| BaselineCancelled
| BaselineExecutionRootRebound
| BaselineGitUnavailable
| BaselineGitTimedOut
| BaselineGitOutputLimitExceeded
| BaselineNotWorkTree
| BaselineExecutionRootNotWorkTreeRoot
| BaselineUnsupportedObjectFormat
| BaselineBaselineUnavailable
| BaselineInitialWorkspaceDirty.

Inductive GitBaselineV1 :=
| BaselineAvailable (object_format commit_oid : string)
| BaselineUnavailable (reason : GitBaselineUnavailableReasonV1).

Record LocalRunV1 := {
  lv_schema_version : N;
  lv_local_run_id : string;
  lv_created_at : string;
  lv_workflow_digest : DigestV1;
  lv_workflow_manifest_digest : DigestV1;
  lv_git_baseline : option GitBaselineV1
}.

(** *** Git baselines *)

(** The only object format that is read. *)
Inductive GitObjectFormat := Sha1.

Record LocalGitBaseline := { lgb_object_format : GitObjectFormat; lgb_commit_oid : string }.

(** [LocalGitBaseline::new]. *)
Definition local_git_baseline_new (object_format : GitObjectFormat) (commit_oid : string) : option LocalGitBaseline :=
  if is_lowercase_hex commit_oid 40 then Some {| lgb_object_format := object_format; lgb_commit_oid := commit_oid |} else None.

Definition local_git_baseline (baseline : GitBaselineV1) : option LocalGitBaseline :=
  match baseline with
  | BaselineAvailable object_format commit_oid =>
      if decide (object_format = "sha1"%string) then local_git_baseline_new Sha1 commit_oid else None
  | BaselineUnavailable _ => None
  end.

(** What a [GitCaptureContext] compares with a baseline. *)
Record GitCaptureContext := { gcc_object_format : GitObjectFormat; gcc_baseline_oid : string }.

#[export] Instance GitObjectFormat_eq_dec : EqDecision GitObjectFormat.
Proof. solve_decision. Defined.

(** [GitCaptureContext::uses_local_baseline]. *)
Definition uses_local_baseline (capture : GitCaptureContext) (baseline : LocalGitBaseline) : bool :=
  bool_decide (gcc_object_format capture = lgb_object_format baseline)
  && bool_decide (gcc_baseline_oid capture = lgb_commit_oid baseline).

Definition has_git_output (step : ValidatedStep) : bool :=
  existsb (λ '(_, output), match vo_definition output with GitBranchWorkspace => true | _ => false end)
    (vc_outputs (validated_common step)).

(** ** The index *)

Record LocalRunStateIndex := {
  ix_attempts : list LocalAttemptV1;
  ix_steps : list (btree AttemptStepV1);
  ix_dispositions : list (btree InheritedDisposition)
}.

Definition state_attempt_index (attempt_number : N) : option nat :=
  if (attempt_number =? 0)%N then None else Some (N.to_nat (attempt_number - 1)).

Fixpoint index_steps (steps : list AttemptStepV1) (attempt_steps : btree AttemptStepV1)
    : result (btree AttemptStepV1) LocalRunDirectoryError :=
  match steps with
  | [] => Ok attempt_steps
  | step :: steps' =>
      if bt_contains_key attempt_steps (ast_id step) then Err AttemptStepDuplicate
      else index_steps steps' (bt_insert attempt_steps (ast_id step) step)
  end.

(** The disposition of a step of the attempt at an index, given those of the
    attempts before it. *)
Definition step_disposition (dispositions : list (btree InheritedDisposition)) (index : nat) (step : AttemptStepV1)
    : result (option InheritedDisposition) LocalRunDirectoryError :=
  match ast_state step with
  | AttemptSucceeded => Ok (Some InhSucceeded)
  | AttemptSkipped => Ok (Some InhSkipped)
  | AttemptInherited =>
      match ast_detail step with
      | Some (DetailInherited detail) =>
          match state_attempt_index (id_prior_attempt_number detail) with
          | Some prior_index =>
              if decide (prior_index < index)
              then match prior ← dispositions !! prior_index; bt_get prior (ast_id step) with
                   | Some disposition => Ok (Some disposition)
                   | None => Err AttemptInheritedStepInvalid
                   end
              else Err AttemptInheritedStepInvalid
          | None => Err AttemptInheritedStepInvalid
          end
      | _ => Err AttemptInheritedStepInvalid
      end
  | _ => Ok None
  end.

Fixpoint index_dispositions (dispositions : list (btree InheritedDisposition)) (index : nat) (steps : list AttemptStepV1)
    (attempt_dispositions : btree InheritedDisposition) : result (btree InheritedDisposition) LocalRunDirectoryError :=
  match steps with
  | [] => Ok attempt_dispositions
  | step :: steps' =>
      let? disposition := step_disposition dispositions index step in
      index_dispositions dispositions index steps'
        (match disposition with
         | Some disposition => bt_insert attempt_dispositions (ast_id step) disposition
         | None => attempt_dispositions
         end)
  end.

Fixpoint index_attempts (index : nat) (attempts : list LocalAttemptV1) (steps : list (btree AttemptStepV1))
    (dispositions : list (btree InheritedDisposition))
    : result (list (btree AttemptStepV1) * list (btree InheritedDisposition)) LocalRunDirectoryError :=
  match attempts with
  | [] => Ok (steps, dispositions)
  | attempt :: attempts' =>
      if negb (la_attempt_number attempt =? N.of_nat index + 1)%N then Err AttemptNumberInvalid
      else
        let? attempt_steps := index_steps (la_steps attempt) [] in
        let? attempt_dispositions := index_dispositions dispositions index (la_steps attempt) [] in
        index_attempts (S index) attempts' (steps ++ [attempt_steps]) (dispositions ++ [attempt_dispositions])
  end.

(** [LocalRunStateIndex::new]. *)
Definition state_index_new (state : LocalRunStateV1) : result LocalRunStateIndex LocalRunDirectoryError :=
  let? indexed := index_attempts 0 (ls_attempts state) [] [] in
  Ok {| ix_attempts := ls_attempts state; ix_steps := indexed.1; ix_dispositions := indexed.2 |}.

Definition index_attempt (index : LocalRunStateIndex) (attempt_number : N) : option LocalAttemptV1 :=
  i ← state_attempt_index attempt_number;
  attempt ← ix_attempts index !! i;
  if (la_attempt_number attempt =? attempt_number)%N then Some attempt else None.

Definition index_step (index : LocalRunStateIndex) (attempt_number : N) (node : string) : option AttemptStepV1 :=
  i ← state_attempt_index attempt_number; steps ← ix_steps index !! i; bt_get steps node.

Definition index_disposition (index : LocalRunStateIndex) (attempt_number : N) (node : string) : option InheritedDisposition :=
  i ← state_attempt_index attempt_number; dispositions ← ix_dispositions index !! i; bt_get dispositions node.

(** ** Declarations *)

Definition step_output_declaration (workflow : ValidatedWorkflow) (node output : string) : option DocumentOutput :=
  step ← bt_get (vw_steps workflow) node; vo_definition <$> bt_get (vc_outputs (validated_common step)) output.

Definition retained_output_matches_declaration (retained : RetainedOutputV1) (declared : DocumentOutput) : bool :=
  match retained, declared with
  | RetainedText _ _ _, (TextPath _ | TextAgentResponse) => true
  | RetainedJson _ _ _, (JsonPath _ _ | JsonAgentResult _) => true
  | RetainedGitBranch _ _ _ _ _ _ _ _, GitBranchWorkspace => true
  | RetainedFile _ _ media_type _, FilePath _ declared_media_type => bool_decide (media_type = declared_media_type)
  | _, _ => false
  end.

Definition retained_outputs_match_declarations (state : AttemptStepStateV1) (retained : option (list RetainedOutputV1))
    (definition : ValidatedStep) : bool :=
  match retained with
  | None => false
  | Some retained =>
      if decide (state = AttemptInherited) then true
      else if negb (bool_decide (state = AttemptSucceeded)) then bool_decide (retained = [])
      else
        let declared := vc_outputs (validated_common definition) in
        bool_decide (length retained = length declared)
        && forallb (λ '(name, declaration),
             existsb (λ output, bool_decide (retained_name output = name)
               && retained_output_matches_declaration output (vo_definition declaration)) retained) declared
  end.

(** What the checks of retained outputs read of a step or a finalizer. *)
Record RetainedNodeOutputs := {
  rno_id : string;
  rno_role : AttemptNodeRoleV1;
  rno_state : AttemptStepStateV1;
  rno_outputs : option (list RetainedOutputV1)
}.

Definition outputs_of_step (node : AttemptStepV1) : RetainedNodeOutputs :=
  {| rno_id := ast_id node; rno_role := ast_role node; rno_state := ast_state node; rno_outputs := ast_outputs node |}.

Definition outputs_of_finalizer (node : DurableFinalizerV1) : RetainedNodeOutputs :=
  {| rno_id := df_id node; rno_role := df_role node; rno_state := df_state node; rno_outputs := df_outputs node |}.

Definition retained_finalizers (attempt : LocalAttemptV1) : option (list RetainedNodeOutputs) :=
  match la_finalization attempt with
  | None => None
  | Some (FinalizationProgress progress) => Some (outputs_of_step <$> afp_finalizers progress)
  | Some (FinalizationComplete complete) => Some (outputs_of_finalizer <$> afc_finalizers complete)
  end.

Definition node_outputs_match (role : AttemptNodeRoleV1) (node : RetainedNodeOutputs) (expected_id : string)
    (definition : option ValidatedStep) : bool :=
  match definition with
  | None => false
  | Some definition =>
      bool_decide (rno_id node = expected_id) && bool_decide (rno_role node = role)
      && retained_outputs_match_declarations (rno_state node) (rno_outputs node) definition
  end.

Definition nodes_match (role : AttemptNodeRoleV1) (nodes : list RetainedNodeOutputs) (order : list string)
    (definition : string → option ValidatedStep) : bool :=
  bool_decide (length nodes = length order)
  && forallb (λ '(node, expected_id), node_outputs_match role node expected_id (definition expected_id)) (zip nodes order).

Definition validate_retained_outputs_against_definition (attempt : LocalAttemptV1) (workflow : ValidatedWorkflow)
    : result unit LocalRunDirectoryError :=
  match la_definition attempt with
  | None => Ok tt
  | Some _ =>
      if nodes_match AttemptStep (outputs_of_step <$> la_steps attempt) (vw_presentation_order workflow) (bt_get (vw_steps workflow))
         && match retained_finalizers attempt with
            | None => true
            | Some finalizers =>
                nodes_match AttemptFinalizer finalizers (vw_finalizer_presentation_order workflow)
                  (λ id, vf_body <$> bt_get (vw_finalizers workflow) id)
            end
      then Ok tt else Err StateInvalid
  end.

(** ** The split of a pending continuation *)

Definition prior_state_of (state : AttemptStepStateV1) : PriorState :=
  match state with
  | AttemptSucceeded => PriorStateSucceeded
  | AttemptSkipped => PriorStateSkipped
  | AttemptInherited => PriorStateInherited
  | _ => PriorStateUnsatisfied
  end.

Definition prior_states (prior : LocalAttemptV1) : btree PriorState :=
  bt_collect ((λ step, (ast_id step, prior_state_of (ast_state step))) <$> la_steps prior).

Definition skipped_source (index : option LocalRunStateIndex) (prior_attempt_number : N) (states : btree PriorState)
    (acc : gset string * list AdmissionViolation) (id : string) : gset string * list AdmissionViolation :=
  match bt_get states id with
  | Some (PriorStateSkipped | PriorStateInherited) =>
      match index ← index; index_disposition index prior_attempt_number id with
      | Some InhSkipped => ({[ id ]} ∪ acc.1, acc.2)
      | Some InhSucceeded => acc
      | None => (acc.1, acc.2 ++ [ViolationNode id (bt_get states id)])
      end
  | _ => acc
  end.

Definition effective_skipped_sources (state : LocalRunStateV1) (prior_attempt_number : N) (inherited : list string)
    (states : btree PriorState) : gset string * list AdmissionViolation :=
  foldl (skipped_source (result_ok (state_index_new state)) prior_attempt_number states) (∅, []) inherited.

Definition find_step (steps : list AttemptStepV1) (id : string) : option AttemptStepV1 :=
  find_map (λ step, if decide (ast_id step = id) then Some step else None) steps.

Definition find_output (outputs : list RetainedOutputV1) (name : string) : option RetainedOutputV1 :=
  find_map (λ output, if decide (retained_name output = name) then Some output else None) outputs.

Definition retained_violation (workflow : ValidatedWorkflow) (prior : LocalAttemptV1) (inherited : list string)
    (effectively_skipped : gset string) (source : ResolvedOutputSource) : option AdmissionViolation :=
  let node := node_id (ros_node source) in
  if negb (bool_decide (node_role (ros_node source) = RoleStep)) || negb (bool_decide (node ∈ inherited))
     || bool_decide (node ∈ effectively_skipped)
  then None
  else
    let retained := step ← find_step (la_steps prior) node; outputs ← ast_outputs step; find_output outputs (ros_output source) in
    match retained, step_output_declaration workflow node (ros_output source) with
    | Some retained, Some declaration =>
        if retained_output_matches_declaration retained declaration then None
        else Some (ViolationReference (output_source_reference source))
    | _, _ => Some (ViolationReference (output_source_reference source))
    end.

(** [PendingLocalContinuation::partition]. *)
Definition continuation_partition (state : LocalRunStateV1) (prior_workflow workflow : ValidatedWorkflow) (from : list string)
    : result (list string * list string) (list AdmissionViolation) :=
  match partition workflow from with
  | Err invalid =>
      let violations := match invalid with [] => [InvalidFrom ""] | _ => InvalidFrom <$> invalid end in
      Err (dedup (sort_violations violations workflow))
  | Ok split =>
      match last (ls_attempts state) with
      | None => Err [InvalidFrom ""]
      | Some prior =>
          let states := prior_states prior in
          let '(effectively_skipped, disposition_failures) :=
            effective_skipped_sources state (la_attempt_number prior) (pt_inherited split) states in
          let failures :=
            check_inheritance workflow prior_workflow split states effectively_skipped
            ++ omap (retained_violation workflow prior (pt_inherited split) effectively_skipped)
                 (referenced_outputs workflow (pt_reexecuted split)) in
          let failures :=
            foldl (λ failures violation, if decide (violation ∈ failures) then failures else failures ++ [violation])
              failures disposition_failures in
          let failures := dedup (sort_violations failures workflow) in
          if bool_decide (failures = []) then Ok (pt_reexecuted split, pt_inherited split) else Err failures
      end
  end.

(** ** The attempt of a continuation *)

Definition definition_changes (workflow prior_workflow : ResolvedWorkflow) (inherited : list string) : btree bool :=
  bt_collect ((λ id, (id, definition_changed workflow prior_workflow id)) <$> inherited).

Definition inheritable_state (state : AttemptStepStateV1) : option InheritedPriorState :=
  match state with
  | AttemptSucceeded => Some PriorSucceeded
  | AttemptSkipped => Some PriorSkipped
  | AttemptInherited => Some PriorInherited
  | _ => None
  end.

(** What [begin] takes from the attempt before for an inherited step. *)
Definition inherited_entry (prior : LocalAttemptV1) (changes : btree bool) (id : string)
    : result (ContinuationInheritedStepV1 * AttemptStepV1) LocalRunDirectoryError :=
  match
    step ← find_step (la_steps prior) id;
    prior_state ← inheritable_state (ast_state step);
    changed ← bt_get changes id;
    Some ({| cis_id := id; cis_prior_state := prior_state; cis_definition_changed := changed |}, step)
  with
  | Some entry => Ok entry
  | None => Err StateInvalid
  end.

Fixpoint inherited_entries (prior : LocalAttemptV1) (changes : btree bool) (inherited : list string)
    : result (list (ContinuationInheritedStepV1 * AttemptStepV1)) LocalRunDirectoryError :=
  match inherited with
  | [] => Ok []
  | id :: inherited' =>
      let? entry := inherited_entry prior changes id in
      let? entries := inherited_entries prior changes inherited' in
      Ok (entry :: entries)
  end.

Definition fresh_progress_node (id : string) (role : AttemptNodeRoleV1) (node : ValidatedStep) : AttemptStepV1 :=
  {| ast_id := id; ast_role := role; ast_failure_policy := vc_failure_policy (validated_common node);
     ast_state := AttemptPending; ast_outputs := Some []; ast_detail := None; ast_recovery := None |}.

(** The steps of [fresh_attempt]. *)
Fixpoint fresh_steps (workflow : ValidatedWorkflow) (order : list string) : result (list AttemptStepV1) LocalRunDirectoryError :=
  match order with
  | [] => Ok []
  | id :: order' =>
      match bt_get (vw_steps workflow) id with
      | None => Err StateInvalid
      | Some node =>
          let? steps := fresh_steps workflow order' in Ok (fresh_progress_node id AttemptStep node :: steps)
      end
  end.

Definition output_producer_of (prior : LocalAttemptV1) (node output : string) : OutputProducer :=
  {| op_attempt_id := la_attempt_id prior; op_attempt_number := la_attempt_number prior;
     op_node := node; op_output := output |}.

(** The fresh step an entry of [begin] overwrites. *)
Definition inherit_step (prior : LocalAttemptV1) (entry : ContinuationInheritedStepV1) (original : AttemptStepV1)
    (step : AttemptStepV1) : option AttemptStepV1 :=
  outputs ← ast_outputs original;
  let outputs :=
    if decide (ast_state original = AttemptSucceeded)
    then (λ output, set_producer output (output_producer_of prior (ast_id step) (retained_name output))) <$> outputs
    else outputs in
  Some {| ast_id := ast_id step; ast_role := ast_role step; ast_failure_policy := ast_failure_policy step;
          ast_state := AttemptInherited; ast_outputs := Some outputs;
          ast_detail := Some (DetailInherited
            {| id_prior_attempt_id := la_attempt_id prior; id_prior_attempt_number := la_attempt_number prior;
               id_prior_state := cis_prior_state entry; id_definition_changed := cis_definition_changed entry |});
          ast_recovery := ast_recovery step |}.

(** The loop of [begin] changes the first step with the identifier. *)
Fixpoint inherit_into (prior : LocalAttemptV1) (entry : ContinuationInheritedStepV1) (original : AttemptStepV1)
    (steps : list AttemptStepV1) : option (list AttemptStepV1) :=
  match steps with
  | [] => None
  | step :: steps' =>
      if decide (ast_id step = cis_id entry) then step ← inherit_step prior entry original step; Some (step :: steps')
      else steps' ← inherit_into prior entry original steps'; Some (step :: steps')
  end.

Fixpoint inherit_steps (prior : LocalAttemptV1) (entries : list (ContinuationInheritedStepV1 * AttemptStepV1))
    (steps : list AttemptStepV1) : result (list AttemptStepV1) LocalRunDirectoryError :=
  match entries with
  | [] => Ok steps
  | (entry, original) :: entries' =>
      match inherit_into prior entry original steps with
      | Some steps => inherit_steps prior entries' steps
      | None => Err StateInvalid
      end
  end.

(** [attempt_definition_for_run]. *)
Definition attempt_definition_for_run (run : LocalRunV1) : AttemptDefinitionV1 :=
  {| ad_digest := lv_workflow_digest run; ad_manifest_digest := lv_workflow_manifest_digest run; ad_locator := LocatorRun |}.

(** A pending continuation: the directory of the run, the run and its state,
    the definitions it was started and last executed with, the inputs kept of
    it and the proof that its processes are gone. *)
Record PendingLocalContinuation := {
  pc_normalized : string;
  pc_run : LocalRunV1;
  pc_state : LocalRunStateV1;
  pc_prior_workflow : ResolvedWorkflow;
  pc_initial_workflow : ResolvedWorkflow;
  pc_inputs : btree ResolvedInput;
  pc_maximum_parallel_steps : nat;
  pc_quiescence : ContinuationQuiescenceV1
}.

(** What [begin] is called with, [cs_workflow] up to
    [cs_replacement_requested], and what the system answers it: whether the
    lock is still the one that was opened, whether the root of the execution
    contains the directory of the run, the directory of the attempt, the
    digest of the manifest of a retained replacement, the snapshots of the
    workspaces, the times, identifiers and host, the store of the state and
    the replacement of the file of the state. *)
Record ContinuationStart := {
  cs_workflow : ResolvedWorkflow;
  cs_inputs : btree ResolvedInput;
  cs_maximum_parallel_steps : nat;
  cs_execution_root : string;
  cs_git_capture : option GitCaptureContext;
  cs_capacity : ComputedWorkflowCapacity;
  cs_replacement_requested : bool;
  cs_lock_identity : result unit LocalRunDirectoryError;
  cs_contains_directory : option bool;
  cs_attempt_directory : result unit LocalRunDirectoryError;
  cs_retained_manifest : result DigestV1 LocalRunDirectoryError;
  cs_start_snapshot : WorkspaceSnapshotV1;
  cs_abandonment_snapshot : WorkspaceSnapshotV1;
  cs_created_at : result string LocalRunDirectoryError;
  cs_attempt_id : result string LocalRunDirectoryError;
  cs_owner_nonce : result string LocalRunDirectoryError;
  cs_execution_host : result ExecutionHostV1 LocalRunDirectoryError;
  cs_state_store : result unit LocalRunDirectoryError;
  cs_settled_at : result string LocalRunDirectoryError;
  cs_replaced : result unit LocalRunDirectoryError
}.

(** [fresh_attempt] for the workflow that was admitted. *)
Definition fresh_attempt (start : ContinuationStart) (attempt_number : N) (trigger : AttemptTriggerV1)
    (prior_attempt_number : option N) (definition : AttemptDefinitionV1) (created_at : string)
    : result LocalAttemptV1 LocalRunDirectoryError :=
  let workflow := rw_definition (cs_workflow start) in
  let? steps := fresh_steps workflow (vw_presentation_order workflow) in
  let? attempt_id := cs_attempt_id start in
  let? owner_nonce := cs_owner_nonce start in
  let? execution_host := cs_execution_host start in
  Ok {| la_attempt_id := attempt_id; la_attempt_number := attempt_number; la_trigger := trigger;
        la_prior_attempt_number := prior_attempt_number; la_definition := Some definition;
        la_state := AttemptStateCreated; la_continuation := None; la_execution_root := cs_execution_root start;
        la_created_at := created_at; la_started_at := None; la_settled_at := None; la_settlement_snapshot := None;
        la_owner := {| ow_owner_nonce := owner_nonce; ow_execution_host := execution_host |};
        la_cancellation := None; la_force_abort := None; la_interruption := None; la_rejection := None;
        la_progress :=
          {| apr_accepted_occurrence_ordinal := 0; apr_last_transition_sequence := 0; apr_steps := steps;
             apr_outstanding_actions := []; apr_invocations := [];
             apr_accounting :=
               {| dia_maximum_invocations := cap_maximum_invocations (cs_capacity start); dia_observed_invocations := 0;
                  dia_settled_invocations := 0; dia_input_tokens := 0; dia_output_tokens := 0;
                  dia_retained_diagnostic_bytes := 0; dia_discarded_diagnostic_bytes := 0 |} |};
        la_finalization := None; la_process_guards := []; la_result := ResultNotPublished AbsentAttemptNonterminal |}.

Definition git_baseline (pending : PendingLocalContinuation) : option LocalGitBaseline :=
  baseline ← lv_git_baseline (pc_run pending); local_git_baseline baseline.

Definition projected_inputs (pending : PendingLocalContinuation) (workflow : ResolvedWorkflow)
    : result (btree ResolvedInput) (list string) :=
  project_inputs (rw_definition workflow) (rw_definition (pc_initial_workflow pending)) (pc_inputs pending).

#[export] Instance Component_eq_dec : EqDecision Component.
Proof. solve_decision. Defined.

(** Paths are equal when their components are. *)
Definition path_eq (left right : string) : bool := bool_decide (components left = components right).

Definition paths_overlap (left right : string) : bool :=
  bool_decide (components right `prefix_of` components left) || bool_decide (components left `prefix_of` components right).

(** [PendingLocalContinuation::validate_execution_root]. *)
Definition validate_execution_root (pending : PendingLocalContinuation) (start : ContinuationStart)
    : result unit LocalRunDirectoryError :=
  if paths_overlap (pc_normalized pending) (cs_execution_root start) then Err ExecutionRootOverlap
  else match cs_contains_directory start with
       | None => Err ParentUnavailable
       | Some contains => if contains then Err ExecutionRootOverlap else Ok tt
       end.

(** [PathBuf::join]. *)
Definition path_join (base path : string) : string :=
  (if path_is_absolute path then path
   else if decide (base = "" ∨ last (bytes base) = Some "/"%char) then base ++ path else base ++ "/" ++ path)%string.

Definition replacement_path (start : ContinuationStart) : option string :=
  if cs_replacement_requested start
  then Some (path_join (sp_source_root (rw_source (cs_workflow start))) (sp_workflow_path (rw_source (cs_workflow start))))
  else None.

(** Whether the nodes to execute capture a git branch. *)
Definition executed_git (workflow : ValidatedWorkflow) (reexecuted : list string) : bool :=
  existsb (λ '(_, finalizer), has_git_output (vf_body finalizer)) (vw_finalizers workflow)
  || existsb (λ id, match bt_get (vw_steps workflow) id with Some step => has_git_output step | None => false end) reexecuted.

(** The git capture that was admitted fits the baseline of the run. *)
Definition git_admitted (executed : bool) (baseline : option LocalGitBaseline) (capture : option GitCaptureContext) : bool :=
  match executed, baseline, capture with
  | true, Some baseline, Some capture => uses_local_baseline capture baseline
  | true, _, _ => false
  | false, _, None => true
  | false, _, Some _ => false
  end.

Definition prior_definition (pending : PendingLocalContinuation) (prior : LocalAttemptV1) : AttemptDefinitionV1 :=
  default (attempt_definition_for_run (pc_run pending)) (la_definition prior).

(** Where the definition of the new attempt is kept. *)
Definition continued_definition (pending : PendingLocalContinuation) (prior : LocalAttemptV1) (next : N)
    (start : ContinuationStart) : result AttemptDefinitionV1 LocalRunDirectoryError :=
  match replacement_path start with
  | Some _ =>
      let? manifest_digest := cs_retained_manifest start in
      Ok {| ad_digest := rw_content_digest (cs_workflow start); ad_manifest_digest := manifest_digest;
            ad_locator := LocatorAttempt next |}
  | None =>
      if negb (bool_decide (rw_content_digest (cs_workflow start) = rw_content_digest (pc_prior_workflow pending)))
      then Err StateConflict
      else Ok {| ad_digest := ad_digest (prior_definition pending prior);
                 ad_manifest_digest := ad_manifest_digest (prior_definition pending prior);
                 ad_locator := LocatorPriorAttempt (la_attempt_number prior) |}
  end.

(** The snapshot the attempt before settled with; an abandoned attempt gets
    one now. *)
Definition prior_settlement (prior : LocalAttemptV1) (start : ContinuationStart) : option WorkspaceSnapshotV1 :=
  if attempt_is_terminal (la_state prior) then la_settlement_snapshot prior else Some (cs_abandonment_snapshot start).

Definition continuation_record `{!TimeLibrary} (pending : PendingLocalContinuation) (prior : LocalAttemptV1) (start : ContinuationStart)
    (from reexecuted : list string) (inherited : list ContinuationInheritedStepV1) (manifest_digest : DigestV1)
    : ContinuationRecordV1 :=
  let prior_manifest_digest := ad_manifest_digest (prior_definition pending prior) in
  {| cn_request :=
       {| crq_from_steps := from;
          crq_definition :=
            match replacement_path start with
            | Some path => RequestedReplaced (ReplacementLocal path)
            | None => RequestedInherited
            end;
          crq_execution_root :=
            if path_eq (cs_execution_root start) (la_execution_root prior) then None else Some (cs_execution_root start);
          crq_expected_run_version := None |};
     cn_from_steps := from;
     cn_reexecuted_steps := reexecuted;
     cn_inherited_steps := inherited;
     cn_definition_source :=
       match replacement_path start with
       | Some _ => SourceReplaced manifest_digest prior_manifest_digest
       | None => SourceInherited manifest_digest prior_manifest_digest
       end;
     cn_workspace :=
       {| cw_execution_root := cs_execution_root start;
          cw_prior_execution_root := la_execution_root prior;
          cw_preparation := PreparationReady;
          cw_start_snapshot := Some (cs_start_snapshot start);
          cw_prior_settlement_snapshot := prior_settlement prior start;
          cw_modified :=
            compare_continuation_snapshots (cs_execution_root start) (la_execution_root prior) (cs_start_snapshot start)
              (prior_settlement prior start);
          cw_quiescence := Some (pc_quiescence pending) |} |}.

(** The fresh attempt with its record and the steps it inherits. *)
Definition continued_attempt (attempt : LocalAttemptV1) (record : ContinuationRecordV1) (steps : list AttemptStepV1)
    : LocalAttemptV1 :=
  {| la_attempt_id := la_attempt_id attempt; la_attempt_number := la_attempt_number attempt;
     la_trigger := la_trigger attempt; la_prior_attempt_number := la_prior_attempt_number attempt;
     la_definition := la_definition attempt; la_state := la_state attempt; la_continuation := Some record;
     la_execution_root := la_execution_root attempt; la_created_at := la_created_at attempt;
     la_started_at := la_started_at attempt; la_settled_at := la_settled_at attempt;
     la_settlement_snapshot := la_settlement_snapshot attempt; la_owner := la_owner attempt;
     la_cancellation := la_cancellation attempt; la_force_abort := la_force_abort attempt;
     la_interruption := la_interruption attempt; la_rejection := la_rejection attempt;
     la_progress :=
       {| apr_accepted_occurrence_ordinal := apr_accepted_occurrence_ordinal (la_progress attempt);
          apr_last_transition_sequence := apr_last_transition_sequence (la_progress attempt);
          apr_steps := steps;
          apr_outstanding_actions := apr_outstanding_actions (la_progress attempt);
          apr_invocations := apr_invocations (la_progress attempt);
          apr_accounting := apr_accounting (la_progress attempt) |};
     la_finalization := la_finalization attempt; la_process_guards := la_process_guards attempt; la_result := la_result attempt |}.

(** What [begin] checks of the workflow that was admitted. *)
Definition admit_continuation (pending : PendingLocalContinuation) (from : list string) (start : ContinuationStart)
    : result (list string * list string) LocalRunDirectoryError :=
  let? _ := cs_lock_identity start in
  if negb (path_eq (sp_source_root (rw_source (cs_workflow start))) (sp_source_root (rw_source (pc_initial_workflow pending))))
     || negb (bool_decide (cs_maximum_parallel_steps start = pc_maximum_parallel_steps pending))
  then Err StateConflict
  else
    match continuation_partition (pc_state pending) (rw_definition (pc_prior_workflow pending)) (rw_definition (cs_workflow start)) from with
    | Err _ => Err StateConflict
    | Ok (reexecuted, inherited) =>
        if negb (bool_decide (result_ok (projected_inputs pending (cs_workflow start)) = Some (cs_inputs start)))
        then Err StateConflict
        else if negb (git_admitted (executed_git (rw_definition (cs_workflow start)) reexecuted) (git_baseline pending) (cs_git_capture start))
        then Err StateConflict
        else
          let? _ := validate_execution_root pending start in
          Ok (reexecuted, inherited)
    end.

(** The attempt [begin] makes. *)
Definition begin_attempt `{!TimeLibrary} (pending : PendingLocalContinuation) (from : list string) (start : ContinuationStart)
    : result LocalAttemptV1 LocalRunDirectoryError :=
  let? split := admit_continuation pending from start in
  let '(reexecuted, inherited) := split in
  match prior ← last (ls_attempts (pc_state pending)); next ← u64_add (la_attempt_number prior) 1; Some (prior, next) with
  | None => Err StateInvalid
  | Some (prior, next) =>
      let? _ := cs_attempt_directory start in
      let? definition := continued_definition pending prior next start in
      let changes := definition_changes (cs_workflow start) (pc_prior_workflow pending) inherited in
      let? entries := inherited_entries prior changes inherited in
      let record := continuation_record pending prior start from reexecuted entries.*1 (ad_manifest_digest definition) in
      let? created_at := cs_created_at start in
      let? attempt := fresh_attempt start next AttemptContinuation (Some (la_attempt_number prior)) definition created_at in
      let? steps := inherit_steps prior entries (la_steps attempt) in
      Ok (continued_attempt attempt record steps)
  end.

(** ** Settling an attempt that was abandoned *)

Definition finalization_was_cancelled (attempt : LocalAttemptV1) : bool :=
  match la_finalization attempt with
  | Some (FinalizationProgress progress) => bool_decide (is_Some (afp_cancellation progress))
  | Some (FinalizationComplete complete) => bool_decide (is_Some (afc_cancellation complete))
  | None => false
  end.

Definition attempt_cancellation_requested (attempt : LocalAttemptV1) : bool :=
  bool_decide (is_Some (la_cancellation attempt)) || bool_decide (is_Some (la_force_abort attempt)) || finalization_was_cancelled attempt.

Definition settle_interrupted_attempt (attempt : LocalAttemptV1) (cause : InterruptionCauseV1) (execution_may_have_started : bool)
    (settlement_snapshot : option WorkspaceSnapshotV1) (settled_at : string) : LocalAttemptV1 :=
  {| la_attempt_id := la_attempt_id attempt; la_attempt_number := la_attempt_number attempt;
     la_trigger := la_trigger attempt; la_prior_attempt_number := la_prior_attempt_number attempt;
     la_definition := la_definition attempt; la_state := AttemptStateInterrupted; la_continuation := la_continuation attempt;
     la_execution_root := la_execution_root attempt; la_created_at := la_created_at attempt;
     la_started_at := la_started_at attempt; la_settled_at := Some settled_at;
     la_settlement_snapshot := settlement_snapshot; la_owner := la_owner attempt;
     la_cancellation := la_cancellation attempt; la_force_abort := la_force_abort attempt;
     la_interruption := Some {| ait_cause := cause; ait_execution_may_have_started := execution_may_have_started;
                                ait_cancellation_requested := attempt_cancellation_requested attempt |};
     la_rejection := la_rejection attempt;
     la_progress :=
       {| apr_accepted_occurrence_ordinal := apr_accepted_occurrence_ordinal (la_progress attempt);
          apr_last_transition_sequence := apr_last_transition_sequence (la_progress attempt);
          apr_steps := apr_steps (la_progress attempt);
          apr_outstanding_actions := [];
          apr_invocations := apr_invocations (la_progress attempt);
          apr_accounting := apr_accounting (la_progress attempt) |};
     la_finalization := la_finalization attempt; la_process_guards := la_process_guards attempt;
     la_result := ResultNotPublished AbsentInterrupted |}.

Definition set_guards (attempt : LocalAttemptV1) (guards : list ProcessGuardV1) : LocalAttemptV1 :=
  {| la_attempt_id := la_attempt_id attempt; la_attempt_number := la_attempt_number attempt;
     la_trigger := la_trigger attempt; la_prior_attempt_number := la_prior_attempt_number attempt;
     la_definition := la_definition attempt; la_state := la_state attempt; la_continuation := la_continuation attempt;
     la_execution_root := la_execution_root attempt; la_created_at := la_created_at attempt;
     la_started_at := la_started_at attempt; la_settled_at := la_settled_at attempt;
     la_settlement_snapshot := la_settlement_snapshot attempt; la_owner := la_owner attempt;
     la_cancellation := la_cancellation attempt; la_force_abort := la_force_abort attempt;
     la_interruption := la_interruption attempt; la_rejection := la_rejection attempt;
     la_progress := la_progress attempt; la_finalization := la_finalization attempt;
     la_process_guards := guards; la_result := la_result attempt |}.

Definition quiesce_guard (guard : ProcessGuardV1) : ProcessGuardV1 :=
  {| pg_guard_id := pg_guard_id guard; pg_action_id := pg_action_id guard; pg_step_id := pg_step_id guard;
     pg_node_role := pg_node_role guard; pg_state := GuardQuiesced; pg_execution_host := pg_execution_host guard;
     pg_process_group_id := pg_process_group_id guard; pg_liveness := pg_liveness guard |}.

(** What the updates of [begin], [begin_local_retry] and
    [settle_abandoned_snapshot] make of an attempt that lost its owner. *)
Definition settle_lost_owner (attempt : LocalAttemptV1) (snapshot : WorkspaceSnapshotV1) (settled_at : string) : LocalAttemptV1 :=
  settle_interrupted_attempt (set_guards attempt (quiesce_guard <$> la_process_guards attempt)) ExecutionOwnerLost
    (bool_decide (is_Some (la_started_at attempt))) (Some snapshot) settled_at.

(** [current_attempt_mut]: the last attempt, with the attempts before it. *)
Definition current_attempt_mut (state : LocalRunStateV1) : result (list LocalAttemptV1 * LocalAttemptV1) LocalRunDirectoryError :=
  match last (ls_attempts state) with
  | None => Err StateInvalid
  | Some attempt =>
      if negb (la_attempt_number attempt =? ls_current_attempt_number state)%N then Err StateInvalid
      else Ok (take (pred (length (ls_attempts state))) (ls_attempts state), attempt)
  end.

Definition set_attempts (state : LocalRunStateV1) (current_attempt_number : N) (attempts : list LocalAttemptV1) : LocalRunStateV1 :=
  {| ls_schema_version := ls_schema_version state; ls_local_run_id := ls_local_run_id state; ls_revision := ls_revision state;
     ls_current_attempt_number := current_attempt_number; ls_attempts := attempts; ls_diagnostics := ls_diagnostics state |}.

(** The attempt before, settled when it was abandoned. *)
Definition settle_abandoned (start : ContinuationStart) (prior : LocalAttemptV1) (settled_at : string) : LocalAttemptV1 :=
  if attempt_is_terminal (la_state prior) then prior
  else settle_lost_owner prior (cs_abandonment_snapshot start) settled_at.

(** The update of the state by [begin]. *)
Definition begin_update (start : ContinuationStart) (attempt : LocalAttemptV1) (state : LocalRunStateV1)
    : result LocalRunStateV1 LocalRunDirectoryError :=
  let? current := current_attempt_mut state in
  let '(earlier, previous) := current in
  if negb (la_attempt_number previous =? la_attempt_number attempt - 1)%N then Err StateConflict
  else
    let? settled :=
      (if attempt_is_terminal (la_state previous) then Ok previous
       else let? settled_at := cs_settled_at start in Ok (settle_abandoned start previous settled_at)) in
    Ok (set_attempts state (la_attempt_number attempt) (earlier ++ [settled; attempt])).

(** ** The seed of an attempt *)

(** The definition an attempt was executed with, following the attempts it
    was taken from; each locator is followed once. *)
Fixpoint follow_definition (fuel : nat) (run : LocalRunV1) (state : LocalRunStateV1) (visited : list AttemptDefinitionLocatorV1)
    (definition : AttemptDefinitionV1) : result AttemptDefinitionV1 LocalRunDirectoryError :=
  if bool_decide (ad_locator definition ∈ visited) then Err StateInvalid
  else
    match ad_locator definition with
    | LocatorRun | LocatorAttempt _ => Ok definition
    | LocatorPriorAttempt attempt_number =>
        match find_map (λ attempt, if (la_attempt_number attempt =? attempt_number)%N then Some attempt else None) (ls_attempts state) with
        | None => Err StateInvalid
        | Some prior =>
            match la_definition prior with
            | None =>
                if bool_decide (ad_digest definition = lv_workflow_digest run)
                   && bool_decide (ad_manifest_digest definition = lv_workflow_manifest_digest run)
                then Ok (attempt_definition_for_run run) else Err StateInvalid
            | Some prior_definition =>
                if bool_decide (ad_digest definition = ad_digest prior_definition)
                   && bool_decide (ad_manifest_digest definition = ad_manifest_digest prior_definition)
                then match fuel with
                     | O => Err StateInvalid
                     | S fuel' => follow_definition fuel' run state (ad_locator definition :: visited) prior_definition
                     end
                else Err StateInvalid
            end
        end
    end.

Definition resolved_attempt_definition (run : LocalRunV1) (state : LocalRunStateV1) (selected : LocalAttemptV1)
    : result AttemptDefinitionV1 LocalRunDirectoryError :=
  match la_definition selected with
  | None => Ok (attempt_definition_for_run run)
  | Some definition => follow_definition (S (length (ls_attempts state))) run state [] definition
  end.

(** Reading the directory of a run: verifying what an attempt keeps, loading
    the definition of an attempt within a budget of bytes, and loading a
    value. *)
Class RetainedFiles (Output : Type) := {
  rf_budget : Type;
  rf_initial_budget : rf_budget;
  rf_verify : LocalRunStateV1 → N → result unit LocalRunDirectoryError;
  rf_workflow : LocalRunStateV1 → LocalAttemptV1 → rf_budget → result (ResolvedWorkflow * rf_budget) LocalRunDirectoryError;
  rf_value : LocalRunStateV1 → ResolvedWorkflow → string → RetainedOutputV1 → result Output LocalRunDirectoryError
}.

Definition is_inherited_step (step : AttemptStepV1) : bool := bool_decide (ast_state step = AttemptInherited).

Definition required_inherited_outputs (attempt : LocalAttemptV1) (workflow : ValidatedWorkflow) : list (string * string) :=
  let inherited := ast_id <$> List.filter is_inherited_step (la_steps attempt) in
  let reexecuted := ast_id <$> List.filter (λ step, negb (is_inherited_step step)) (la_steps attempt) in
  (λ source, (node_id (ros_node source), ros_output source))
    <$> filter (λ source, node_id (ros_node source) ∈ inherited) (referenced_outputs workflow reexecuted).

Section seed.
Context {Output : Type} `{!RetainedFiles Output}.

(** The definitions loaded so far and the budget left. *)
Local Abbreviation SeedCache := (list (AttemptDefinitionV1 * ResolvedWorkflow) * rf_budget)%type.

Definition cached_producer_workflow (state : LocalRunStateV1) (attempt : LocalAttemptV1) (definition : AttemptDefinitionV1)
    (cache : SeedCache) : result (ResolvedWorkflow * SeedCache) LocalRunDirectoryError :=
  match find_map (λ '(key, workflow), if decide (key = definition) then Some workflow else None) cache.1 with
  | Some workflow => Ok (workflow, cache)
  | None =>
      let? loaded := rf_workflow state attempt cache.2 in
      Ok (loaded.1, ((definition, loaded.1) :: cache.1, loaded.2))
  end.

(** One retained output of an inherited step. *)
Definition load_output (run : LocalRunV1) (state : LocalRunStateV1) (index : LocalRunStateIndex) (workflow : ValidatedWorkflow)
    (id : string) (acc : SeedCache * (btree Output * btree OutputProducer)) (retained : RetainedOutputV1)
    : result (SeedCache * (btree Output * btree OutputProducer)) LocalRunDirectoryError :=
  let '(cache, (outputs, producers)) := acc in
  let name := retained_name retained in
  match
    declaration ← step_output_declaration workflow id name;
    if retained_output_matches_declaration retained declaration then
      producer ← retained_producer retained;
      producer_attempt ← index_attempt index (op_attempt_number producer);
      if decide (la_attempt_id producer_attempt = op_attempt_id producer) then Some (producer, producer_attempt) else None
    else None
  with
  | None => Err StateInvalid
  | Some (producer, producer_attempt) =>
      let? definition := resolved_attempt_definition run state producer_attempt in
      let? cached := cached_producer_workflow state producer_attempt definition cache in
      let? value := rf_value state cached.1 id retained in
      if bt_contains_key outputs name || bt_contains_key producers name then Err StateInvalid
      else Ok (cached.2, (bt_insert outputs name value, bt_insert producers name producer))
  end.

Fixpoint load_outputs (run : LocalRunV1) (state : LocalRunStateV1) (index : LocalRunStateIndex) (workflow : ValidatedWorkflow)
    (id : string) (acc : SeedCache * (btree Output * btree OutputProducer)) (retained : list RetainedOutputV1)
    : result (SeedCache * (btree Output * btree OutputProducer)) LocalRunDirectoryError :=
  match retained with
  | [] => Ok acc
  | output :: retained' =>
      let? acc := load_output run state index workflow id acc output in load_outputs run state index workflow id acc retained'
  end.

Definition load_step (run : LocalRunV1) (state : LocalRunStateV1) (index : LocalRunStateIndex) (attempt_number : N)
    (workflow : ValidatedWorkflow) (required_outputs : list (string * string)) (cache : SeedCache) (step : AttemptStepV1)
    : result (SeedCache * InheritedStepSeed Output) LocalRunDirectoryError :=
  match ast_detail step, index_disposition index attempt_number (ast_id step) with
  | Some (DetailInherited detail), Some disposition =>
      let retained_outputs := default [] (ast_outputs step) in
      if bool_decide (disposition = InhSkipped) && negb (bool_decide (retained_outputs = [])) then Err StateInvalid
      else
        let? loaded := load_outputs run state index workflow (ast_id step) (cache, ([], []))
          (filter (λ retained, (ast_id step, retained_name retained) ∈ required_outputs) retained_outputs) in
        if bool_decide (disposition = InhSucceeded)
           && existsb (λ '(node, output), bool_decide (node = ast_id step) && negb (bt_contains_key loaded.2.1 output)) required_outputs
        then Err StateInvalid
        else Ok (loaded.1, {| seed_detail := detail; seed_disposition := disposition;
                              seed_outputs := loaded.2.1; seed_producers := loaded.2.2 |})
  | _, _ => Err StateInvalid
  end.

Fixpoint load_steps (run : LocalRunV1) (state : LocalRunStateV1) (index : LocalRunStateIndex) (attempt_number : N)
    (workflow : ValidatedWorkflow) (required_outputs : list (string * string)) (cache : SeedCache)
    (inherited_steps : ExecutionSeed Output) (steps : list AttemptStepV1) : result (ExecutionSeed Output) LocalRunDirectoryError :=
  match steps with
  | [] => Ok inherited_steps
  | step :: steps' =>
      if negb (is_inherited_step step) then load_steps run state index attempt_number workflow required_outputs cache inherited_steps steps'
      else
        let? loaded := load_step run state index attempt_number workflow required_outputs cache step in
        load_steps run state index attempt_number workflow required_outputs loaded.1
          (bt_insert inherited_steps (ast_id step) loaded.2) steps'
  end.

Definition load_execution_seed (run : LocalRunV1) (state : LocalRunStateV1) (attempt_number : N) (workflow : ValidatedWorkflow)
    : result (ExecutionSeed Output) LocalRunDirectoryError :=
  let? index := state_index_new state in
  match index_attempt index attempt_number with
  | None => Err StateInvalid
  | Some attempt =>
      let? _ := validate_retained_outputs_against_definition attempt workflow in
      let? _ := rf_verify state attempt_number in
      let required_outputs := required_inherited_outputs attempt workflow in
      let? inherited_steps := load_steps run state index attempt_number workflow required_outputs ([], rf_initial_budget) [] (la_steps attempt) in
      match execution_seed_new workflow inherited_steps with
      | Ok seed => Ok seed
      | Err _ => Err StateInvalid
      end
  end.
End seed.
