(* ===== verification/AttemptChecks.v ===== *)
(** * Checks of the state of a run

    What a reader checks of the state of a local run before it uses it, and
    every writer before it replaces it ([validate_state] and the functions it
    calls in [local_run.rs]): identity, times, definition, start,
    cancellation, outcome, steps with their retained outputs, continuation,
    finalization, invocations and recoveries, actions, process guards and
    result of every attempt; then the update of a state ([StateStore::update])
    and the three operations that settle an attempt whose owner is gone. *)

From stdpp Require Import pretty.
From S2P Require Import Prelude Text Nodes Evidence Document Validated Validation Failures Capacity Runtime RunTiming Results Publication SchemaCommon ResultMetadata RunResults Continuation Attempts.

Local Open Scope list_scope.

(** ** The parts of an attempt *)

Section fields.
Context `{!TimeLibrary}.

(** [valid_timestamp] of [local_run.rs]. *)
Definition valid_timestamp (value : string) : bool :=
  bool_decide (last (bytes value) = Some "Z"%char) && bool_decide (is_Some (parse_rfc3339 value)).

Definition option_all {A} (P : A → bool) (value : option A) : bool := match value with Some value => P value | None => true end.

Definition validate_attempt_timeline (attempt : LocalAttemptV1) : result unit LocalRunDirectoryError :=
  if negb (valid_timestamp (la_created_at attempt)) then Err AttemptCreatedAtInvalid
  else if negb (option_all valid_timestamp (la_started_at attempt)) then Err AttemptStartedAtInvalid
  else if negb (option_all valid_timestamp (la_settled_at attempt)) then Err AttemptSettledAtInvalid
  else if negb (Bool.eqb (attempt_is_terminal (la_state attempt)) (bool_decide (is_Some (la_settled_at attempt))))
  then Err AttemptSettlementInvalid
  else Ok tt.

Definition validate_execution_host (host : ExecutionHostV1) : bool :=
  negb (str_is_empty (eh_value host)) && (str_len (eh_value host) <=? 256)%N.

Definition validate_owner (owner : AttemptOwnerV1) : bool :=
  is_canonical_uuid (ow_owner_nonce owner) && validate_execution_host (ow_execution_host owner).

Definition attempt_definition_valid (attempt_number : N) (definition : AttemptDefinitionV1) : bool :=
  valid_digest (ad_digest definition) && valid_digest (ad_manifest_digest definition)
  && match ad_locator definition with
     | LocatorRun => true
     | LocatorAttempt number => negb ((number =? 0)%N || (attempt_number <? number)%N)
     | LocatorPriorAttempt number => negb ((number =? 0)%N || (attempt_number <=? number)%N)
     end.

Definition validate_attempt_definition (attempt : LocalAttemptV1) : result unit LocalRunDirectoryError :=
  if negb (option_all (attempt_definition_valid (la_attempt_number attempt)) (la_definition attempt)) then Err AttemptDefinitionInvalid
  else if match la_settlement_snapshot attempt with
          | Some snapshot => negb (attempt_is_terminal (la_state attempt)) || negb (snapshot_validate snapshot true)
          | None => bool_decide (is_Some (la_definition attempt)) && attempt_is_terminal (la_state attempt)
          end then Err AttemptSnapshotInvalid
  else if negb (validate_owner (la_owner attempt)) then Err AttemptOwnerInvalid
  else if match la_steps attempt with [] => true | _ => false end then Err AttemptStepsEmpty
  else Ok tt.

Definition validate_attempt_start (attempt : LocalAttemptV1) : result unit LocalRunDirectoryError :=
  let created := match la_state attempt with AttemptStateCreated => true | _ => false end in
  let not_started := match la_state attempt with AttemptStateCreated | AttemptStateRejected => true | _ => false end in
  if created && bool_decide (is_Some (la_started_at attempt)) then Err AttemptStartInvalid
  else if negb not_started && negb (bool_decide (is_Some (la_started_at attempt)))
          && negb (match la_interruption attempt with
                   | Some interruption => negb (ait_execution_may_have_started interruption)
                   | None => false
                   end)
  then Err AttemptStartInvalid
  else Ok tt.

Definition validate_attempt_cancellation (attempt : LocalAttemptV1) : result unit LocalRunDirectoryError :=
  let cancelling := match la_state attempt with AttemptStateCancelling | AttemptStateCancelled => true | _ => false end in
  let cancelled := match la_state attempt with AttemptStateCancelled => true | _ => false end in
  let never_aborted :=
    match la_state attempt with AttemptStateCreated | AttemptStateRejected | AttemptStateSucceeded => true | _ => false end in
  if negb (option_all (λ cancellation,
       negb (bool_decide (acn_reason cancellation = ForceAbortReasonV1)) && valid_timestamp (acn_requested_at cancellation)
       && valid_timestamp (acn_force_stop_deadline cancellation)) (la_cancellation attempt))
  then Err AttemptCancellationRecordInvalid
  else if negb (option_all (λ force_abort,
       bool_decide (fae_reason force_abort = ForceAbort) && negb never_aborted
       && negb (match fae_phase force_abort with PhaseFinalization => true | PhaseOrdinary => false end
                && bool_decide (la_finalization attempt = None))) (la_force_abort attempt))
  then Err AttemptForceAbortInvalid
  else if cancelling && negb (attempt_cancellation_requested attempt) then Err AttemptCancellationMissing
  else if negb (option_all (λ cancellation, Bool.eqb (acn_workflow_confirmed cancellation) cancelled) (la_cancellation attempt))
  then Err AttemptCancellationConfirmationInvalid
  else if negb (option_all (λ interruption, Bool.eqb (ait_cancellation_requested interruption) (attempt_cancellation_requested attempt))
                  (la_interruption attempt))
  then Err AttemptInterruptionCancellationInvalid
  else Ok tt.

Definition validate_attempt_outcome (attempt : LocalAttemptV1) : result unit LocalRunDirectoryError :=
  let interrupted := match la_state attempt with AttemptStateInterrupted => true | _ => false end in
  let rejected := match la_state attempt with AttemptStateRejected => true | _ => false end in
  if negb (Bool.eqb interrupted (bool_decide (is_Some (la_interruption attempt)))) then Err AttemptInterruptionInvalid
  else if negb (Bool.eqb rejected (bool_decide (is_Some (la_rejection attempt)))) then Err AttemptRejectionInvalid
  else Ok tt.

Definition attempt_node_role (attempt : LocalAttemptV1) (id : string) : option AttemptNodeRoleV1 :=
  if existsb (λ node, bool_decide (ast_id node = id)) (la_steps attempt) then Some AttemptStep
  else
    match la_finalization attempt with
    | Some (FinalizationProgress progress) =>
        find_map (λ node, if decide (ast_id node = id) then Some (ast_role node) else None) (afp_finalizers progress)
    | Some (FinalizationComplete complete) =>
        find_map (λ node, if decide (df_id node = id) then Some (df_role node) else None) (afc_finalizers complete)
    | None => None
    end.

(** *** Outstanding actions *)

Definition requires_step (action : OutstandingActionV1) : bool :=
  match oa_kind action with OutstandingFinishRun => false | _ => true end.

Definition action_invocation_valid (action : OutstandingActionV1) : bool :=
  let target := bool_decide (is_Some (oa_target_execution action)) in
  let round := bool_decide (is_Some (oa_recovery_round action)) in
  negb ((requires_step action && Bool.eqb target round)
        || (negb (requires_step action) && (target || round))
        || (match oa_kind action with OutstandingStartRecoveryHandler => true | _ => false end && negb round)
        || (match oa_kind action with OutstandingStartStep => true | _ => false end && negb target)).

(** The actions of an attempt; the identifiers seen so far are smaller than
    the next one, so the set of them is not needed. *)
Fixpoint validate_actions (attempt : LocalAttemptV1) (prior_action_id : N) (actions : list OutstandingActionV1)
    : result unit LocalRunDirectoryError :=
  match actions with
  | [] => Ok tt
  | action :: actions' =>
      if (oa_action_id action =? 0)%N || (oa_action_id action <=? prior_action_id)%N then Err AttemptActionIdInvalid
      else if negb (Bool.eqb (requires_step action) (bool_decide (is_Some (oa_step_id action))))
              || negb (Bool.eqb (requires_step action) (bool_decide (is_Some (oa_node_role action))))
      then Err AttemptActionTargetInvalid
      else if negb (option_all (λ id, bool_decide (attempt_node_role attempt id = oa_node_role action)) (oa_step_id action))
      then Err AttemptActionNodeInvalid
      else if negb (action_invocation_valid action) then Err AttemptActionInvocationInvalid
      else validate_actions attempt (oa_action_id action) actions'
  end.

Definition validate_attempt_actions (attempt : LocalAttemptV1) : result unit LocalRunDirectoryError :=
  let? _ := validate_actions attempt 0 (apr_outstanding_actions (la_progress attempt)) in
  if attempt_is_terminal (la_state attempt) && negb (match apr_outstanding_actions (la_progress attempt) with [] => true | _ => false end)
  then Err AttemptTerminalActionsInvalid
  else Ok tt.

(** *** Process guards *)

Fixpoint validate_guards (attempt : LocalAttemptV1) (step_ids guard_ids : gset string) (guards : list ProcessGuardV1)
    : result unit LocalRunDirectoryError :=
  match guards with
  | [] => Ok tt
  | guard :: guards' =>
      if negb (is_canonical_uuid (pg_guard_id guard)) || bool_decide (pg_guard_id guard ∈ guard_ids) then Err AttemptGuardIdInvalid
      else if (pg_action_id guard =? 0)%N then Err AttemptGuardActionInvalid
      else if negb (bool_decide (pg_step_id guard ∈ step_ids))
              || negb (bool_decide (attempt_node_role attempt (pg_step_id guard) = Some (pg_node_role guard)))
      then Err AttemptGuardStepInvalid
      else if negb (validate_execution_host (pg_execution_host guard)) then Err AttemptGuardHostInvalid
      else if (pg_process_group_id guard <=? 0)%Z || str_is_empty (pl_value (pg_liveness guard))
              || (256 <? str_len (pl_value (pg_liveness guard)))%N
      then Err AttemptGuardProcessInvalid
      else validate_guards attempt step_ids ({[ pg_guard_id guard ]} ∪ guard_ids) guards'
  end.

Definition validate_attempt_guards (attempt : LocalAttemptV1) (step_ids : gset string) : result unit LocalRunDirectoryError :=
  validate_guards attempt step_ids ∅ (la_process_guards attempt).

(** *** Invocations and recoveries *)

Definition is_active_invocation (invocation : DurableInvocationV1) : bool :=
  match di_state invocation with DurableActive => true | DurableSettled | DurableCancelled => false end.

Definition is_target_invocation (invocation : DurableInvocationV1) : bool :=
  match di_role invocation with InvocationTarget => true | InvocationRecoveryHandler => false end.

Definition diagnostic_reference_valid (path : string) : bool :=
  is_canonical_relative_path path && negb (existsb str_is_empty (str_split "/" path)).

(** The fields of a recorded invocation; as for actions, the identifiers
    increase. *)
Definition invocation_valid (attempt : LocalAttemptV1) (step_ids : gset string) (previous_invocation_id : N)
    (invocation : DurableInvocationV1) : bool :=
  negb (di_invocation_id invocation =? 0)%N && (previous_invocation_id <? di_invocation_id invocation)%N
  && bool_decide (di_step_id invocation ∈ step_ids)
  && bool_decide (attempt_node_role attempt (di_step_id invocation) = Some (di_node_role invocation))
  && negb (Bool.eqb (bool_decide (is_Some (di_target_execution invocation))) (bool_decide (is_Some (di_recovery_round invocation))))
  && Bool.eqb (is_target_invocation invocation) (bool_decide (is_Some (di_target_execution invocation)))
  && valid_timestamp (di_started_at invocation)
  && option_all valid_timestamp (di_finished_at invocation)
  && Bool.eqb (is_active_invocation invocation) (bool_decide (di_finished_at invocation = None))
  && option_all diagnostic_reference_valid (di_diagnostic_reference invocation).

Definition durable_diagnostic_valid (diagnostic : DurableInvocationDiagnosticV1) : bool :=
  is_canonical_relative_path (did_reference diagnostic)
  && Bool.eqb (did_truncated diagnostic) (negb (did_discarded_bytes diagnostic =? 0)%N).

Fixpoint validate_invocations (attempt : LocalAttemptV1) (step_ids : gset string) (previous_invocation_id : N)
    (invocations : list DurableInvocationV1) : result unit LocalRunDirectoryError :=
  match invocations with
  | [] => Ok tt
  | invocation :: invocations' =>
      if negb (invocation_valid attempt step_ids previous_invocation_id invocation) then Err AttemptRecoveryInvocationInvalid
      else if negb (forallb durable_diagnostic_valid (di_diagnostics invocation)) then Err AttemptRecoveryDiagnosticInvalid
      else validate_invocations attempt step_ids (di_invocation_id invocation) invocations'
  end.

(** The sums of [recalculate_invocation_accounting]: settled invocations,
    tokens read and written, bytes kept and dropped. *)
Record InvocationSums := {
  is_settled : N;
  is_input_tokens : N;
  is_output_tokens : N;
  is_retained_bytes : N;
  is_discarded_bytes : N
}.

Definition add_diagnostic (sums : option (N * N)) (diagnostic : DurableInvocationDiagnosticV1) : option (N * N) :=
  bytes ← sums;
  retained ← u64_add bytes.1 (did_retained_bytes diagnostic);
  discarded ← u64_add bytes.2 (did_discarded_bytes diagnostic);
  Some (retained, discarded).

Definition add_invocation (sums : option InvocationSums) (invocation : DurableInvocationV1) : option InvocationSums :=
  sums ← sums;
  settled ← (if is_active_invocation invocation then Some (is_settled sums) else u64_add (is_settled sums) 1);
  input_tokens ← u64_add (is_input_tokens sums) (ru_input_tokens (di_usage invocation));
  output_tokens ← u64_add (is_output_tokens sums) (ru_output_tokens (di_usage invocation));
  bytes ← foldl add_diagnostic (Some (is_retained_bytes sums, is_discarded_bytes sums)) (di_diagnostics invocation);
  Some {| is_settled := settled; is_input_tokens := input_tokens; is_output_tokens := output_tokens;
          is_retained_bytes := bytes.1; is_discarded_bytes := bytes.2 |}.

Definition recalculate_invocation_accounting (progress : AttemptProgressV1)
    : result DurableInvocationAccountingV1 LocalRunDirectoryError :=
  match foldl add_invocation
          (Some {| is_settled := 0; is_input_tokens := 0; is_output_tokens := 0; is_retained_bytes := 0; is_discarded_bytes := 0 |})
          (apr_invocations progress) with
  | None => Err StateInvalid
  | Some sums =>
      let observed_invocations := N.of_nat (length (apr_invocations progress)) in
      if (dia_maximum_invocations (apr_accounting progress) <? observed_invocations)%N then Err StateInvalid
      else Ok {| dia_maximum_invocations := dia_maximum_invocations (apr_accounting progress);
                 dia_observed_invocations := observed_invocations; dia_settled_invocations := is_settled sums;
                 dia_input_tokens := is_input_tokens sums; dia_output_tokens := is_output_tokens sums;
                 dia_retained_diagnostic_bytes := is_retained_bytes sums; dia_discarded_diagnostic_bytes := is_discarded_bytes sums |}
  end.

Definition recovery_rounds_valid (step : AttemptStepV1) (recovery : DurableStepRecoveryV1) : bool :=
  (dsr_schema_version recovery =? 1)%N
  && ((1 <=? dsr_configured_retries recovery) && (dsr_configured_retries recovery <=? 10))%N
  && negb (match dsr_rounds recovery with [] => true | _ => false end)
  && (N.of_nat (length (dsr_rounds recovery)) <=? dsr_configured_retries recovery)%N
  && forallb (λ '(index, round), (drr_number round =? N.min (N.of_nat index + 1) 255)%N) (imap pair (dsr_rounds recovery))
  && Bool.eqb (bool_decide (is_Some (dsr_termination recovery)))
       (match ast_state step with AttemptSucceeded | AttemptFailed | AttemptCancelled => true | _ => false end).

Definition recovery_active_valid (attempt : LocalAttemptV1) (step : AttemptStepV1) (active : DurableRecoveryActiveV1) : bool :=
  existsb (λ invocation,
    (di_invocation_id invocation =? dra_invocation_id active)%N && bool_decide (di_step_id invocation = ast_id step)
    && bool_decide (di_role invocation = dra_role active)
    && bool_decide (di_target_execution invocation = dra_target_execution active)
    && bool_decide (di_recovery_round invocation = dra_recovery_round active)
    && is_active_invocation invocation) (apr_invocations (la_progress attempt)).

Fixpoint validate_recoveries (attempt : LocalAttemptV1) (steps : list AttemptStepV1) : result unit LocalRunDirectoryError :=
  match steps with
  | [] => Ok tt
  | step :: steps' =>
      match ast_recovery step with
      | None => validate_recoveries attempt steps'
      | Some recovery =>
          if negb (recovery_rounds_valid step recovery) then Err AttemptRecoveryRoundInvalid
          else if negb (option_all (recovery_active_valid attempt step) (dsr_active recovery)) then Err AttemptRecoveryActiveInvalid
          else validate_recoveries attempt steps'
      end
  end.

#[export] Instance DurableInvocationAccountingV1_eq_dec : EqDecision DurableInvocationAccountingV1.
Proof. solve_decision. Defined.

Definition validate_attempt_recovery (attempt : LocalAttemptV1) (step_ids : gset string) : result unit LocalRunDirectoryError :=
  let progress := la_progress attempt in
  if (dia_maximum_invocations (apr_accounting progress) =? 0)%N
     || (dia_maximum_invocations (apr_accounting progress) <? N.of_nat (length (apr_invocations progress)))%N
  then Err AttemptRecoveryAccountingInvalid
  else
    let? _ := validate_invocations attempt step_ids 0 (apr_invocations progress) in
    if attempt_is_terminal (la_state attempt) && existsb is_active_invocation (apr_invocations progress)
    then Err AttemptRecoveryInvocationInvalid
    else
      let? accounting := recalculate_invocation_accounting progress in
      if negb (bool_decide (accounting = apr_accounting progress)) then Err AttemptRecoveryAccountingInvalid
      else validate_recoveries attempt (apr_steps progress).

(** *** Results *)

Definition ATTEMPTS_DIRECTORY : string := "attempts".

Definition pad_left (width : nat) (text : string) : string :=
  (of_bytes (replicate (width - String.length text) "0"%char) ++ text)%string.

Definition attempt_directory_name (attempt_number : N) : option string :=
  if (attempt_number =? 0)%N then None
  else if (attempt_number <? 1000000)%N then Some (pad_left 6 (pretty attempt_number))
  else Some (pretty attempt_number).

Definition attempt_result_relative_path (attempt_number : N) : string :=
  (ATTEMPTS_DIRECTORY ++ "/" ++ default (pretty attempt_number) (attempt_directory_name attempt_number) ++ "/result")%string.

Definition validate_attempt_result (attempt : LocalAttemptV1) : result unit LocalRunDirectoryError :=
  let valid :=
    match la_state attempt, la_result attempt with
    | (AttemptStateCreated | AttemptStateRunning | AttemptStateCancelling), ResultNotPublished AbsentAttemptNonterminal => true
    | (AttemptStateSucceeded | AttemptStateWorkflowFailed | AttemptStateCancelled), ResultNotPublished AbsentPublicationPending => true
    | (AttemptStateSucceeded | AttemptStateWorkflowFailed | AttemptStateCancelled), ResultPublicationFailed phase result_invariant =>
        bool_decide (result_invariant = None) || match phase with PhaseSerialization => true | _ => false end
    | AttemptStateInterrupted, ResultNotPublished AbsentInterrupted => true
    | AttemptStateRejected, ResultNotPublished AbsentRejected => true
    | (AttemptStateSucceeded | AttemptStateWorkflowFailed | AttemptStateCancelled), ResultPublished relative_directory =>
        bool_decide (relative_directory = attempt_result_relative_path (la_attempt_number attempt))
    | _, _ => false
    end in
  if valid then Ok tt else Err AttemptResultInvalid.
End fields.

(** ** Retained outputs and steps *)

Definition VALUES_DIRECTORY : string := "values".
Definition MAXIMUM_RETAINED_FILE_BYTES : N := 64 * 1024 * 1024.

Definition retained_value_relative_path (role : AttemptNodeRoleV1) (node output : string) : string :=
  (VALUES_DIRECTORY ++ "/" ++ match role with AttemptStep => "steps" | AttemptFinalizer => "finalizers" end
   ++ "/" ++ node ++ "/" ++ output)%string.

Definition carrier_valid (expected_path : string) (carrier : RetainedCarrierV1) (media_type : string) : bool :=
  bool_decide (ct_relative_path carrier = expected_path) && bool_decide (ct_media_type carrier = media_type)
  && (ct_size_bytes carrier <=? MAXIMUM_RETAINED_FILE_BYTES)%N && valid_digest (ct_digest carrier).

Definition retained_output_valid `{!MediaTypes} (role : AttemptNodeRoleV1) (node : string) (output : RetainedOutputV1) : bool :=
  let expected_path := retained_value_relative_path role node (retained_name output) in
  match retained_producer output with
  | Some producer =>
      is_canonical_uuid (op_attempt_id producer) && negb (op_attempt_number producer =? 0)%N
      && bool_decide (op_node producer = node) && bool_decide (op_output producer = retained_name output)
  | None => true
  end
  && match output with
     | RetainedText _ _ carrier => carrier_valid expected_path carrier "text/plain; charset=utf-8"
     | RetainedJson _ _ carrier => carrier_valid expected_path carrier "application/json"
     | RetainedFile _ _ media_type carrier => is_valid_media_type media_type && carrier_valid expected_path carrier media_type
     | RetainedGitBranch _ _ artifact_version object_format base_oid head_oid tree_oid carrier =>
         (artifact_version =? 1)%N && bool_decide (object_format = "sha1"%string)
         && is_lowercase_hex base_oid 40 && is_lowercase_hex head_oid 40 && is_lowercase_hex tree_oid 40
         && ((bool_decide (base_oid = head_oid) && bool_decide (carrier = None))
             || (negb (bool_decide (base_oid = head_oid))
                 && match carrier with
                    | Some carrier => carrier_valid expected_path carrier "application/vnd.git.bundle"
                    | None => false
                    end))
     end.

Fixpoint retained_outputs_valid `{!MediaTypes} (role : AttemptNodeRoleV1) (node : string) (names : gset string)
    (outputs : list RetainedOutputV1) : bool :=
  match outputs with
  | [] => true
  | output :: outputs' =>
      is_identifier (retained_name output) && negb (bool_decide (retained_name output ∈ names))
      && retained_output_valid role node output
      && retained_outputs_valid role node ({[ retained_name output ]} ∪ names) outputs'
  end.

Definition retained_output_set_valid `{!MediaTypes} (role : AttemptNodeRoleV1) (node : string) (state : AttemptStepStateV1)
    (outputs : option (list RetainedOutputV1)) (required : bool) : bool :=
  match outputs with
  | None => negb required
  | Some outputs =>
      if negb (bool_decide (state = AttemptSucceeded) || bool_decide (state = AttemptInherited))
         && negb (bool_decide (outputs = [])) then false
      else retained_outputs_valid role node ∅ outputs
  end.

Definition attempt_step_detail_valid (role : AttemptNodeRoleV1) (state : AttemptStepStateV1) (detail : option NodeDetail) : bool :=
  match role, state, detail with
  | _, (AttemptPending | AttemptStarting | AttemptRunning | AttemptCapturingOutputs | AttemptSucceeded), None => true
  | AttemptStep, AttemptInherited, Some (DetailInherited detail) =>
      (0 <? id_prior_attempt_number detail)%N && is_canonical_uuid (id_prior_attempt_id detail)
  | _, AttemptFailed, Some (DetailFailed _) => true
  | _, AttemptBlocked, Some (DetailBlocked _) => true
  | _, AttemptSkipped, Some (DetailSkipped _) => true
  | AttemptStep, AttemptNotRun, Some (DetailNotRun detail) =>
      match ned_code detail with FailureStop => true | FinalizerTriggerNotSelected => false end
  | AttemptFinalizer, AttemptNotRun, Some (DetailNotRun detail) =>
      match ned_code detail with FinalizerTriggerNotSelected => true | FailureStop => false end
  | _, (AttemptCancelling | AttemptCancelled), Some (DetailCancellation _) => true
  | _, _, _ => false
  end.

Definition validate_attempt_identity (attempt : LocalAttemptV1) (expected_number : N) : result unit LocalRunDirectoryError :=
  if negb (la_attempt_number attempt =? expected_number)%N then Err AttemptNumberInvalid
  else if negb (match la_trigger attempt with
                | AttemptInitial => (expected_number =? 1)%N && bool_decide (la_prior_attempt_number attempt = None)
                | AttemptExplicitRetry | AttemptContinuation =>
                    bool_decide (la_prior_attempt_number attempt = Some (expected_number - 1)%N)
                end) then Err AttemptTriggerInvalid
  else if negb (is_canonical_uuid (la_attempt_id attempt)) then Err AttemptIdentityInvalid
  else if negb (is_canonical_absolute_path (la_execution_root attempt)) then Err AttemptExecutionRootInvalid
  else Ok tt.

(** ** Finalizers *)

Section finalization.
Context `{!TimeLibrary, !MediaTypes}.

Definition retained_finalization_cancellation_detail_valid (detail : option NodeDetail)
    (cancellation : option DurableFinalizationCancellationV1) (force_abort : bool) : bool :=
  match detail with
  | Some (DetailCancellation detail) =>
      finalization_node_cancellation_matches (cancellation_reason (cd_code detail)) (dfc_reason <$> cancellation) ForceAbortReasonV1 force_abort
  | _ => true
  end.

Definition valid_finalization_interruption (cancellation : option DurableFinalizationCancellationV1) (force_abort : bool)
    (first_force_abort_phase : option FirstForceAbortPhase) : bool :=
  finalization_cancellation_matches_force_phase (dfc_reason <$> cancellation) ForceAbortReasonV1 first_force_abort_phase
  && match cancellation, force_abort with
     | None, false => true
     | Some cancellation, false =>
         negb (bool_decide (dfc_reason cancellation = ForceAbortReasonV1))
         && match dfc_force_stop_deadline cancellation with Some deadline => valid_timestamp deadline | None => false end
     | Some cancellation, true =>
         (bool_decide (dfc_reason cancellation = ForceAbortReasonV1) && bool_decide (dfc_force_stop_deadline cancellation = None))
         || (negb (bool_decide (dfc_reason cancellation = ForceAbortReasonV1))
             && match dfc_force_stop_deadline cancellation with Some deadline => valid_timestamp deadline | None => false end)
     | None, true => false
     end.

Definition durable_finalizer_valid (finalizer : DurableFinalizerV1) : bool :=
  attempt_step_detail_valid (df_role finalizer) (df_state finalizer) (df_detail finalizer)
  && match df_state finalizer with
     | AttemptSucceeded | AttemptFailed | AttemptBlocked | AttemptSkipped | AttemptNotRun | AttemptCancelled => true
     | _ => false
     end.

Definition is_finalizer_role (role : AttemptNodeRoleV1) : bool := match role with AttemptFinalizer => true | AttemptStep => false end.

(** The finalizers of a finalization in progress; the identifiers of the
    nodes are returned. *)
Fixpoint progress_finalizers (required : bool) (progress : AttemptFinalizationProgressV1) (node_ids : gset string)
    (finalizers : list AttemptStepV1) : option (gset string) :=
  match finalizers with
  | [] => Some node_ids
  | finalizer :: finalizers' =>
      if is_finalizer_role (ast_role finalizer) && negb (str_is_empty (ast_id finalizer))
         && negb (bool_decide (ast_id finalizer ∈ node_ids))
         && attempt_step_detail_valid (ast_role finalizer) (ast_state finalizer) (ast_detail finalizer)
         && retained_output_set_valid (ast_role finalizer) (ast_id finalizer) (ast_state finalizer) (ast_outputs finalizer) required
         && retained_finalization_cancellation_detail_valid (ast_detail finalizer) (afp_cancellation progress) (afp_force_abort progress)
      then progress_finalizers required progress ({[ ast_id finalizer ]} ∪ node_ids) finalizers'
      else None
  end.

Fixpoint complete_finalizers (required : bool) (complete : AttemptFinalizationCompleteV1) (node_ids : gset string)
    (finalizers : list DurableFinalizerV1) : option (gset string) :=
  match finalizers with
  | [] => Some node_ids
  | finalizer :: finalizers' =>
      if is_finalizer_role (df_role finalizer) && negb (str_is_empty (df_id finalizer))
         && negb (bool_decide (df_id finalizer ∈ node_ids))
         && durable_finalizer_valid finalizer
         && retained_output_set_valid (df_role finalizer) (df_id finalizer) (df_state finalizer) (df_outputs finalizer) required
         && retained_finalization_cancellation_detail_valid (df_detail finalizer) (afc_cancellation complete) (afc_force_abort complete)
      then complete_finalizers required complete ({[ df_id finalizer ]} ∪ node_ids) finalizers'
      else None
  end.

Definition expected_issues (finalizers : list DurableFinalizerV1) : list DurableFinalizationIssueV1 :=
  omap (λ finalizer,
    match df_state finalizer with
    | AttemptFailed | AttemptBlocked => Some {| dfi_finalizer_id := df_id finalizer; dfi_impact := df_failure_policy finalizer |}
    | _ => None
    end) finalizers.

Definition reached_outcome (state : AttemptStateV1) : bool :=
  match state with AttemptStateSucceeded | AttemptStateWorkflowFailed | AttemptStateCancelled => true | _ => false end.

#[export] Instance DurableFinalizationIssueV1_eq_dec : EqDecision DurableFinalizationIssueV1.
Proof. solve_decision. Defined.

(** The identifiers of all nodes are passed on. *)
Definition validate_attempt_finalization (attempt : LocalAttemptV1) (node_ids : gset string)
    : result (gset string) LocalRunDirectoryError :=
  let required := bool_decide (is_Some (la_definition attempt)) in
  let aborted := bool_decide (is_Some (la_force_abort attempt)) in
  let phase := first_phase_of_run ∘ fae_phase <$> la_force_abort attempt in
  match la_finalization attempt with
  | None => Ok node_ids
  | Some (FinalizationProgress progress) =>
      if negb (Bool.eqb (afp_force_abort progress) aborted) then Err AttemptFinalizationForceAbortInvalid
      else
        match (if afp_complete progress || match afp_finalizers progress with [] => true | _ => false end then None
               else progress_finalizers required progress node_ids (afp_finalizers progress)) with
        | None => Err AttemptFinalizationProgressInvalid
        | Some node_ids =>
            if match la_state attempt with AttemptStateCreated | AttemptStateRejected => true | _ => false end
            then Err AttemptFinalizationProgressInvalid
            else if negb (valid_finalization_interruption (afp_cancellation progress) (afp_force_abort progress) phase)
            then Err AttemptFinalizationInterruptionInvalid
            else if reached_outcome (la_state attempt) then Err AttemptFinalizationProgressInvalid
            else Ok node_ids
        end
  | Some (FinalizationComplete complete) =>
      if negb (Bool.eqb (afc_force_abort complete) aborted) then Err AttemptFinalizationForceAbortInvalid
      else
        match (if negb (afc_complete complete) || match afc_finalizers complete with [] => true | _ => false end
                  || negb (reached_outcome (la_state attempt)) then None
               else complete_finalizers required complete node_ids (afc_finalizers complete)) with
        | None => Err AttemptFinalizationCompleteInvalid
        | Some node_ids =>
            if negb (bool_decide (afc_issues complete = expected_issues (afc_finalizers complete)))
            then Err AttemptFinalizationIssuesInvalid
            else if negb (valid_finalization_interruption (afc_cancellation complete) (afc_force_abort complete) phase)
            then Err AttemptFinalizationInterruptionInvalid
            else Ok node_ids
        end
  end.
End finalization.

(** ** Steps *)

(** The identifiers of the steps seen so far are passed on. *)
Definition validate_attempt_step `{!MediaTypes} (attempt : LocalAttemptV1) (step : AttemptStepV1) (step_ids : gset string)
    : result (gset string) LocalRunDirectoryError :=
  if str_is_empty (ast_id step) then Err AttemptStepIdInvalid
  else if negb (bool_decide (ast_role step = AttemptStep)) then Err AttemptStepRoleInvalid
  else if bool_decide (ast_id step ∈ step_ids) then Err AttemptStepDuplicate
  else if negb (attempt_step_detail_valid (ast_role step) (ast_state step) (ast_detail step)) then Err AttemptStepDetailInvalid
  else if negb (retained_output_set_valid (ast_role step) (ast_id step) (ast_state step) (ast_outputs step)
                  (bool_decide (is_Some (la_definition attempt)))) then Err AttemptStepOutputsInvalid
  else if bool_decide (ast_state step = AttemptInherited) && bool_decide (is_Some (ast_recovery step)) then Err AttemptStepRecoveryInvalid
  else if match ast_detail step with
          | Some (DetailCancellation detail) =>
              negb (ordinary_node_cancellation_matches (cancellation_reason (cd_code detail)) (acn_reason <$> la_cancellation attempt)
                      ForceAbortReasonV1 (first_phase_of_run ∘ fae_phase <$> la_force_abort attempt))
          | _ => false
          end then Err AttemptStepCancellationInvalid
  else Ok ({[ ast_id step ]} ∪ step_ids).

Fixpoint validate_attempt_steps `{!MediaTypes} (attempt : LocalAttemptV1) (steps : list AttemptStepV1) (step_ids : gset string)
    : result (gset string) LocalRunDirectoryError :=
  match steps with
  | [] => Ok step_ids
  | step :: steps' =>
      let? step_ids := validate_attempt_step attempt step step_ids in validate_attempt_steps attempt steps' step_ids
  end.

(** ** Continuations *)

Section checks.
Context `{!TimeLibrary}.

Definition retained_output_payload_matches (source inherited : RetainedOutputV1) (producer : OutputProducer) : bool :=
  bool_decide (set_producer source producer = set_producer inherited producer).

Definition expected_producer (prior : LocalAttemptV1) (prior_step step : AttemptStepV1) (prior_output output : RetainedOutputV1)
    : option OutputProducer :=
  match ast_state prior_step with
  | AttemptSucceeded => Some (output_producer_of prior (ast_id step) (retained_name output))
  | AttemptInherited => retained_producer prior_output
  | _ => None
  end.

(** The checks of an output of an inherited step. *)
Definition inherited_output_valid (index : LocalRunStateIndex) (prior : LocalAttemptV1) (prior_step step : AttemptStepV1)
    (prior_outputs : list RetainedOutputV1) (output : RetainedOutputV1) : bool :=
  match
    prior_output ← find_output prior_outputs (retained_name output);
    expected ← expected_producer prior prior_step step prior_output output;
    producer_attempt ← index_attempt index (op_attempt_number expected);
    source_step ← index_step index (la_attempt_number producer_attempt) (ast_id step);
    source_outputs ← ast_outputs source_step;
    source ← find_output source_outputs (retained_name output);
    Some (bool_decide (retained_producer output = Some expected)
          && retained_output_payload_matches prior_output output expected
          && bool_decide (la_attempt_id producer_attempt = op_attempt_id expected)
          && bool_decide (ast_state source_step = AttemptSucceeded)
          && retained_output_payload_matches source output expected)
  with
  | Some valid => valid
  | None => false
  end.

(** The checks of an inherited step before those of its outputs. *)
Definition inherited_attempt_step_valid (prior : LocalAttemptV1) (record : ContinuationInheritedStepV1) (detail : InheritedDetail)
    (prior_state : InheritedPriorState) (disposition : InheritedDisposition) (outputs prior_outputs : list RetainedOutputV1) : bool :=
  bool_decide (id_prior_attempt_id detail = la_attempt_id prior)
  && bool_decide (id_prior_attempt_number detail = la_attempt_number prior)
  && bool_decide (id_prior_state detail = prior_state)
  && bool_decide (id_prior_state detail = cis_prior_state record)
  && Bool.eqb (id_definition_changed detail) (cis_definition_changed record)
  && bool_decide (length outputs = length prior_outputs)
  && negb (bool_decide (disposition = InhSkipped) && negb (bool_decide (outputs = []))).

Definition validate_inherited_step (index : LocalRunStateIndex) (attempt_number : N) (prior : LocalAttemptV1)
    (entry : ContinuationInheritedStepV1 * AttemptStepV1) : result unit LocalRunDirectoryError :=
  let '(record, step) := entry in
  match
    detail ← (match ast_detail step with Some (DetailInherited detail) => Some detail | _ => None end);
    disposition ← index_disposition index attempt_number (ast_id step);
    prior_step ← index_step index (la_attempt_number prior) (ast_id step);
    prior_state ← inheritable_state (ast_state prior_step);
    outputs ← ast_outputs step;
    prior_outputs ← ast_outputs prior_step;
    if inherited_attempt_step_valid prior record detail prior_state disposition outputs prior_outputs
    then Some (prior_step, outputs, prior_outputs) else None
  with
  | None => Err AttemptInheritedStepInvalid
  | Some (prior_step, outputs, prior_outputs) =>
      if forallb (inherited_output_valid index prior prior_step step prior_outputs) outputs
      then Ok tt else Err AttemptInheritedOutputInvalid
  end.

Fixpoint validate_inherited_steps (index : LocalRunStateIndex) (attempt_number : N) (prior : LocalAttemptV1)
    (entries : list (ContinuationInheritedStepV1 * AttemptStepV1)) : result unit LocalRunDirectoryError :=
  match entries with
  | [] => Ok tt
  | entry :: entries' =>
      let? _ := validate_inherited_step index attempt_number prior entry in
      validate_inherited_steps index attempt_number prior entries'
  end.

(** A step that succeeded in a continuation produced its own outputs. *)
Definition own_producers (attempt : LocalAttemptV1) (step : AttemptStepV1) : bool :=
  forallb (λ output,
    match retained_producer output with
    | Some producer => bool_decide (producer = output_producer_of attempt (ast_id step) (retained_name output))
    | None => true
    end) (default [] (ast_outputs step)).

(** The record says what the attempt is. *)
Definition record_matches (attempt : LocalAttemptV1) (continuation : ContinuationRecordV1) (inherited : list AttemptStepV1) : bool :=
  bool_decide (la_trigger attempt = AttemptContinuation)
  && bool_decide (cw_preparation (cn_workspace continuation) = PreparationReady)
  && validate_continuation_record continuation
  && bool_decide (cw_execution_root (cn_workspace continuation) = la_execution_root attempt)
  && bool_decide (ast_id <$> List.filter (λ step, negb (is_inherited_step step)) (la_steps attempt) = cn_reexecuted_steps continuation)
  && bool_decide (length (cn_inherited_steps continuation) = length inherited)
  && forallb (λ '(record, step), bool_decide (cis_id record = ast_id step)) (zip (cn_inherited_steps continuation) inherited).

(** The record says what the attempt before was. *)
Definition prior_matches (continuation : ContinuationRecordV1) (prior : LocalAttemptV1) : bool :=
  bool_decide (default (la_execution_root prior) (crq_execution_root (cn_request continuation)) = cw_execution_root (cn_workspace continuation))
  && bool_decide (cw_prior_execution_root (cn_workspace continuation) = la_execution_root prior)
  && bool_decide (cw_prior_settlement_snapshot (cn_workspace continuation) = la_settlement_snapshot prior).

Definition validate_attempt_continuation (index : LocalRunStateIndex) (attempt : LocalAttemptV1)
    : result unit LocalRunDirectoryError :=
  let inherited := List.filter is_inherited_step (la_steps attempt) in
  match la_continuation attempt with
  | None =>
      if negb (bool_decide (la_trigger attempt = AttemptContinuation)) && match inherited with [] => true | _ => false end then Ok tt
      else Err AttemptContinuationInvalid
  | Some continuation =>
      if negb (record_matches attempt continuation inherited) then Err AttemptContinuationInvalid
      else
        match number ← la_prior_attempt_number attempt; index_attempt index number with
        | None => Err AttemptContinuationInvalid
        | Some prior =>
            if negb (prior_matches continuation prior) then Err AttemptContinuationInvalid
            else
              let? _ := validate_inherited_steps index (la_attempt_number attempt) prior (zip (cn_inherited_steps continuation) inherited) in
              if forallb (own_producers attempt) (List.filter (λ step, bool_decide (ast_state step = AttemptSucceeded)) (la_steps attempt))
              then Ok tt else Err AttemptContinuationInvalid
        end
  end.

(** [validate_attempt]. *)
Definition validate_attempt `{!MediaTypes} (index : LocalRunStateIndex) (attempt : LocalAttemptV1) (expected_number : N)
    : result unit LocalRunDirectoryError :=
  let? _ := validate_attempt_identity attempt expected_number in
  let? _ := validate_attempt_timeline attempt in
  let? _ := validate_attempt_definition attempt in
  let? _ := validate_attempt_start attempt in
  let? _ := validate_attempt_cancellation attempt in
  let? _ := validate_attempt_outcome attempt in
  let? step_ids := validate_attempt_steps attempt (la_steps attempt) ∅ in
  let? _ := validate_attempt_continuation index attempt in
  let? node_ids := validate_attempt_finalization attempt step_ids in
  let? _ := validate_attempt_recovery attempt node_ids in
  let? _ := validate_attempt_actions attempt in
  let? _ := validate_attempt_guards attempt node_ids in
  validate_attempt_result attempt.

Fixpoint validate_attempts `{!MediaTypes} (index : LocalRunStateIndex) (expected_number : N) (attempts : list LocalAttemptV1)
    : result unit LocalRunDirectoryError :=
  match attempts with
  | [] => Ok tt
  | attempt :: attempts' =>
      let? _ := validate_attempt index attempt expected_number in validate_attempts index (expected_number + 1) attempts'
  end.

Definition MAXIMUM_DIAGNOSTICS : nat := 256.

Fixpoint validate_diagnostics (current_attempt_number prior_sequence : N) (diagnostics : list LocalDiagnosticV1)
    : result unit LocalRunDirectoryError :=
  match diagnostics with
  | [] => Ok tt
  | diagnostic :: diagnostics' =>
      if (ldg_sequence diagnostic =? 0)%N || (ldg_sequence diagnostic <=? prior_sequence)%N
         || (ldg_attempt_number diagnostic =? 0)%N || (current_attempt_number <? ldg_attempt_number diagnostic)%N
         || bool_decide (ldg_action_id diagnostic = Some 0%N)
         || negb (option_all is_canonical_uuid (ldg_guard_id diagnostic))
      then Err StateInvalid
      else validate_diagnostics current_attempt_number (ldg_sequence diagnostic) diagnostics'
  end.

(** [validate_state]. *)
Definition validate_state `{!MediaTypes} (state : LocalRunStateV1) : result unit LocalRunDirectoryError :=
  if negb (ls_schema_version state =? 1)%N then Err StateSchemaInvalid
  else if negb (is_canonical_uuid (ls_local_run_id state)) then Err StateIdentityInvalid
  else if (ls_revision state =? 0)%N then Err StateRevisionInvalid
  else if (ls_current_attempt_number state =? 0)%N then Err StateCurrentAttemptInvalid
  else if match ls_attempts state with [] => true | _ => false end then Err StateAttemptsEmpty
  else if negb (bool_decide (la_attempt_number <$> last (ls_attempts state) = Some (ls_current_attempt_number state)))
  then Err StateAttemptIndexInvalid
  else if bool_decide (MAXIMUM_DIAGNOSTICS < length (ls_diagnostics state)) then Err StateDiagnosticsLimitInvalid
  else
    let? index := state_index_new state in
    let? _ := validate_attempts index 1 (ls_attempts state) in
    validate_diagnostics (ls_current_attempt_number state) 0 (ls_diagnostics state).

(** ** Updates *)

Definition set_revision (state : LocalRunStateV1) (revision : N) : LocalRunStateV1 :=
  {| ls_schema_version := ls_schema_version state; ls_local_run_id := ls_local_run_id state; ls_revision := revision;
     ls_current_attempt_number := ls_current_attempt_number state; ls_attempts := ls_attempts state;
     ls_diagnostics := ls_diagnostics state |}.

(** [StateStore::update], up to the replacement of the file, which is the
    last argument: the new state is what [validate_state] accepts of the
    change, under the next revision. *)
Definition store_update `{!MediaTypes} (mutate : LocalRunStateV1 → result LocalRunStateV1 LocalRunDirectoryError)
    (current : LocalRunStateV1) (replaced : result unit LocalRunDirectoryError) : result LocalRunStateV1 LocalRunDirectoryError :=
  let? next := mutate current in
  let? revision := ok_or (u64_add (ls_revision next) 1) StateInvalid in
  let next := set_revision next revision in
  let? _ := validate_state next in
  let? _ := replaced in
  Ok next.

(** [PendingLocalContinuation::begin]: the attempt and the state with it. *)
Definition begin_continuation `{!MediaTypes} (pending : PendingLocalContinuation) (from : list string) (start : ContinuationStart)
    : result (LocalAttemptV1 * LocalRunStateV1) LocalRunDirectoryError :=
  let? attempt := begin_attempt pending from start in
  let? _ := cs_state_store start in
  let? state := store_update (begin_update start attempt) (pc_state pending) (cs_replaced start) in
  Ok (attempt, state).

(** [settle_abandoned_snapshot]: what the system answers it is a snapshot of
    the workspace, the store, the time and the replacement of the file. *)
Definition settle_abandoned_snapshot `{!MediaTypes} (state : LocalRunStateV1) (snapshot : WorkspaceSnapshotV1)
    (store replaced : result unit LocalRunDirectoryError) (now : result string LocalRunDirectoryError)
    : result LocalRunStateV1 LocalRunDirectoryError :=
  match last (ls_attempts state) with
  | None => Err StateInvalid
  | Some prior =>
      if attempt_is_terminal (la_state prior) then Ok state
      else
        let? _ := store in
        store_update (λ state,
          let? current := current_attempt_mut state in
          let? settled_at := now in
          Ok (set_attempts state (ls_current_attempt_number state) (current.1 ++ [settle_lost_owner current.2 snapshot settled_at])))
          state replaced
  end.

(** The update of [begin_local_retry]. *)
Definition retry_update (prior_attempt_number : N) (attempt : LocalAttemptV1) (snapshot : option WorkspaceSnapshotV1)
    (now : result string LocalRunDirectoryError) (state : LocalRunStateV1) : result LocalRunStateV1 LocalRunDirectoryError :=
  if negb (ls_current_attempt_number state =? prior_attempt_number)%N then Err StateConflict
  else
    let? current := current_attempt_mut state in
    let? settled :=
      (if attempt_is_terminal (la_state current.2) then Ok current.2
       else
         let? settled_at := now in
         Ok (settle_interrupted_attempt (set_guards current.2 (quiesce_guard <$> la_process_guards current.2)) ExecutionOwnerLost
               (bool_decide (is_Some (la_started_at current.2))) snapshot settled_at)) in
    Ok (set_attempts state (la_attempt_number attempt) (current.1 ++ [settled; attempt])).
End checks.
