(* ===== verification/Commits.v ===== *)
(** * The state of a running attempt

    How the attempt that owns a run keeps its recorded state up to date
    ([local_run.rs]): the commit of a reduction ([StateStore::commit_runtime])
    with the outputs it retains, the progress of nodes, the ledger of
    invocations, recoveries, finalization and outstanding actions; the process
    guards; and the updates that end an attempt or publish its result.

    What the file system, the clock and the adapters answer are the fields of
    [CommitAnswers]; a lock is never poisoned.  The map of invocations that are
    not yet recorded belongs to the store and survives a commit that fails, so
    the ledger is written in a monad of state and errors over it. *)

From stdpp Require Import pretty.
From S2P Require Import Prelude Text Nodes Evidence Document Validated Validation Failures Capacity Runtime RunTiming Results Publication SchemaCommon ResultMetadata RunResults Coordinator Continuation Attempts AttemptChecks.

Local Open Scope list_scope.

(** ** Invocations that are not yet recorded *)

(** [PendingRecoveryInvocationKey] and [PendingRecoveryInvocation]: the number
    of the attempt, the step and the execution; the invocation and its start. *)
Definition PendingRecoveryInvocationKey : Type := N * string * N.
Definition PendingRecoveryInvocation : Type := N * string.

(** The entries of the map in the order of their keys. *)
Definition PendingInvocations : Type := list (PendingRecoveryInvocationKey * PendingRecoveryInvocation).

Definition pending_key_cmp (l r : PendingRecoveryInvocationKey) : comparison :=
  lexicographic (N.compare l.1.1 r.1.1) (lexicographic (String.compare l.1.2 r.1.2) (N.compare l.2 r.2)).

Definition pending_get (pending : PendingInvocations) (key : PendingRecoveryInvocationKey) : option PendingRecoveryInvocation :=
  find_map (λ entry, if decide (entry.1 = key) then Some entry.2 else None) pending.

Definition pending_remove (pending : PendingInvocations) (key : PendingRecoveryInvocationKey) : PendingInvocations :=
  filter (λ entry, entry.1 ≠ key) pending.

Fixpoint pending_insert (pending : PendingInvocations) (key : PendingRecoveryInvocationKey) (value : PendingRecoveryInvocation)
    : PendingInvocations :=
  match pending with
  | [] => [(key, value)]
  | entry :: rest =>
      match pending_key_cmp key entry.1 with
      | Lt => (key, value) :: pending
      | Eq => (key, value) :: rest
      | Gt => entry :: pending_insert rest key value
      end
  end.

(** Computations that change the map and may fail. *)
Definition ledger (A : Type) : Type := PendingInvocations → PendingInvocations * result A LocalRunDirectoryError.

Definition ledger_return {A} (value : A) : ledger A := λ pending, (pending, Ok value).
Definition ledger_fail {A} (error : LocalRunDirectoryError) : ledger A := λ pending, (pending, Err error).
Definition ledger_lift {A} (value : result A LocalRunDirectoryError) : ledger A := λ pending, (pending, value).
Definition ledger_bind {A B} (m : ledger A) (k : A → ledger B) : ledger B :=
  λ pending, match m pending with
             | (pending', Ok value) => k value pending'
             | (pending', Err error) => (pending', Err error)
             end.

Notation "'let!' x ':=' m 'in' k" := (ledger_bind m (λ x, k))
  (at level 200, x name, m at level 100, k at level 200, right associativity).

(** [remove] of the map. *)
Definition take_pending (key : PendingRecoveryInvocationKey) : ledger (option PendingRecoveryInvocation) :=
  λ pending, (pending_remove pending key, Ok (pending_get pending key)).

(** A loop of the ledger over a list. *)
Fixpoint ledger_fold {A B} (step : B → A → ledger B) (acc : B) (items : list A) : ledger B :=
  match items with
  | [] => ledger_return acc
  | item :: items' => let! acc := step acc item in ledger_fold step acc items'
  end.

(** ** Fields of an attempt *)

Definition set_progress (attempt : LocalAttemptV1) (progress : AttemptProgressV1) : LocalAttemptV1 :=
  {| la_attempt_id := la_attempt_id attempt; la_attempt_number := la_attempt_number attempt;
     la_trigger := la_trigger attempt; la_prior_attempt_number := la_prior_attempt_number attempt;
     la_definition := la_definition attempt; la_state := la_state attempt; la_continuation := la_continuation attempt;
     la_execution_root := la_execution_root attempt; la_created_at := la_created_at attempt;
     la_started_at := la_started_at attempt; la_settled_at := la_settled_at attempt;
     la_settlement_snapshot := la_settlement_snapshot attempt; la_owner := la_owner attempt;
     la_cancellation := la_cancellation attempt; la_force_abort := la_force_abort attempt;
     la_interruption := la_interruption attempt; la_rejection := la_rejection attempt;
     la_progress := progress; la_finalization := la_finalization attempt;
     la_process_guards := la_process_guards attempt; la_result := la_result attempt |}.

Definition set_phase (attempt : LocalAttemptV1) (force_abort : option ForceAbortEvidence)
    (finalization : option AttemptFinalizationV1) : LocalAttemptV1 :=
  {| la_attempt_id := la_attempt_id attempt; la_attempt_number := la_attempt_number attempt;
     la_trigger := la_trigger attempt; la_prior_attempt_number := la_prior_attempt_number attempt;
     la_definition := la_definition attempt; la_state := la_state attempt; la_continuation := la_continuation attempt;
     la_execution_root := la_execution_root attempt; la_created_at := la_created_at attempt;
     la_started_at := la_started_at attempt; la_settled_at := la_settled_at attempt;
     la_settlement_snapshot := la_settlement_snapshot attempt; la_owner := la_owner attempt;
     la_cancellation := la_cancellation attempt; la_force_abort := force_abort;
     la_interruption := la_interruption attempt; la_rejection := la_rejection attempt;
     la_progress := la_progress attempt; la_finalization := finalization;
     la_process_guards := la_process_guards attempt; la_result := la_result attempt |}.

Definition set_started (attempt : LocalAttemptV1) (started_at : option string) : LocalAttemptV1 :=
  {| la_attempt_id := la_attempt_id attempt; la_attempt_number := la_attempt_number attempt;
     la_trigger := la_trigger attempt; la_prior_attempt_number := la_prior_attempt_number attempt;
     la_definition := la_definition attempt; la_state := la_state attempt; la_continuation := la_continuation attempt;
     la_execution_root := la_execution_root attempt; la_created_at := la_created_at attempt;
     la_started_at := started_at; la_settled_at := la_settled_at attempt;
     la_settlement_snapshot := la_settlement_snapshot attempt; la_owner := la_owner attempt;
     la_cancellation := la_cancellation attempt; la_force_abort := la_force_abort attempt;
     la_interruption := la_interruption attempt; la_rejection := la_rejection attempt;
     la_progress := la_progress attempt; la_finalization := la_finalization attempt;
     la_process_guards := la_process_guards attempt; la_result := la_result attempt |}.

Definition set_cancellation (attempt : LocalAttemptV1) (cancellation : option AttemptCancellationV1) : LocalAttemptV1 :=
  {| la_attempt_id := la_attempt_id attempt; la_attempt_number := la_attempt_number attempt;
     la_trigger := la_trigger attempt; la_prior_attempt_number := la_prior_attempt_number attempt;
     la_definition := la_definition attempt; la_state := la_state attempt; la_continuation := la_continuation attempt;
     la_execution_root := la_execution_root attempt; la_created_at := la_created_at attempt;
     la_started_at := la_started_at attempt; la_settled_at := la_settled_at attempt;
     la_settlement_snapshot := la_settlement_snapshot attempt; la_owner := la_owner attempt;
     la_cancellation := cancellation; la_force_abort := la_force_abort attempt;
     la_interruption := la_interruption attempt; la_rejection := la_rejection attempt;
     la_progress := la_progress attempt; la_finalization := la_finalization attempt;
     la_process_guards := la_process_guards attempt; la_result := la_result attempt |}.

Definition set_settlement (attempt : LocalAttemptV1) (state : AttemptStateV1) (settled_at : option string)
    (snapshot : option WorkspaceSnapshotV1) (value : AttemptResultV1) : LocalAttemptV1 :=
  {| la_attempt_id := la_attempt_id attempt; la_attempt_number := la_attempt_number attempt;
     la_trigger := la_trigger attempt; la_prior_attempt_number := la_prior_attempt_number attempt;
     la_definition := la_definition attempt; la_state := state; la_continuation := la_continuation attempt;
     la_execution_root := la_execution_root attempt; la_created_at := la_created_at attempt;
     la_started_at := la_started_at attempt; la_settled_at := settled_at;
     la_settlement_snapshot := snapshot; la_owner := la_owner attempt;
     la_cancellation := la_cancellation attempt; la_force_abort := la_force_abort attempt;
     la_interruption := la_interruption attempt; la_rejection := la_rejection attempt;
     la_progress := la_progress attempt; la_finalization := la_finalization attempt;
     la_process_guards := la_process_guards attempt; la_result := value |}.

Definition set_progress_steps (progress : AttemptProgressV1) (steps : list AttemptStepV1) : AttemptProgressV1 :=
  {| apr_accepted_occurrence_ordinal := apr_accepted_occurrence_ordinal progress;
     apr_last_transition_sequence := apr_last_transition_sequence progress; apr_steps := steps;
     apr_outstanding_actions := apr_outstanding_actions progress; apr_invocations := apr_invocations progress;
     apr_accounting := apr_accounting progress |}.

Definition set_outstanding (progress : AttemptProgressV1) (actions : list OutstandingActionV1) : AttemptProgressV1 :=
  {| apr_accepted_occurrence_ordinal := apr_accepted_occurrence_ordinal progress;
     apr_last_transition_sequence := apr_last_transition_sequence progress; apr_steps := apr_steps progress;
     apr_outstanding_actions := actions; apr_invocations := apr_invocations progress;
     apr_accounting := apr_accounting progress |}.

Definition set_invocations (progress : AttemptProgressV1) (invocations : list DurableInvocationV1)
    (accounting : DurableInvocationAccountingV1) : AttemptProgressV1 :=
  {| apr_accepted_occurrence_ordinal := apr_accepted_occurrence_ordinal progress;
     apr_last_transition_sequence := apr_last_transition_sequence progress; apr_steps := apr_steps progress;
     apr_outstanding_actions := apr_outstanding_actions progress; apr_invocations := invocations;
     apr_accounting := accounting |}.

Definition set_counters (progress : AttemptProgressV1) (ordinal sequence : N) : AttemptProgressV1 :=
  {| apr_accepted_occurrence_ordinal := ordinal; apr_last_transition_sequence := sequence; apr_steps := apr_steps progress;
     apr_outstanding_actions := apr_outstanding_actions progress; apr_invocations := apr_invocations progress;
     apr_accounting := apr_accounting progress |}.

(** ** What an observer of the adapters kept of invocations *)

Inductive AgentCompatibilityProfile := PiJsonV1 | ClaudeCodeStreamJsonV1 | CodexAppServerV1.

Record InvocationUsage := { iu_input_tokens : N; iu_output_tokens : N }.

Record NativeSessionFact := {
  nsf_profile : AgentCompatibilityProfile;
  nsf_diagnostic_identity : string;
  nsf_native_session_identity : option string
}.

(** [InvocationAccountingLog]: what [usage] and [native_session] read. *)
Record InvocationAccountingLog := {
  al_usage : gmap ActionId InvocationUsage;
  al_native_sessions : gmap ActionId NativeSessionFact
}.

(** [StepDiagnosticLog::is_recovery_handler]. *)
Definition is_recovery_handler (log : StepDiagnosticLog) (step : string) (invocation : ActionId) : bool :=
  bool_decide ((step, invocation) ∈ dl_recovery_handlers log).

Definition profile_name (profile : AgentCompatibilityProfile) : string :=
  match profile with
  | PiJsonV1 => "pi-json-v1"
  | ClaudeCodeStreamJsonV1 => "claude-code-stream-json-v1"
  | CodexAppServerV1 => "codex-app-server-v1"
  end.

#[export] Instance ForceAbortEvidence_eq_dec : EqDecision ForceAbortEvidence.
Proof. solve_decision. Defined.

Section commits.
Context `{!TimeLibrary, !MediaTypes} {Output Deadline : Type} (deadline_utc : Deadline → OffsetDateTime).

Local Abbreviation State := (RuntimeState StepFailureCause Output Deadline).
Local Abbreviation Node := (StepRuntimeState StepFailureCause Output).
Local Abbreviation Commit := (CommittedReduction (Cause := StepFailureCause) (Output := Output) (Instant := Deadline)).

(** What is outside the state answers a commit: opening the directories of
    attempts and of values, making the directories of a node, keeping a value
    and making it durable, the files of the diagnostics of an invocation, the
    snapshot of the workspace, the two readings of the clock, and the
    replacement of the state file. *)
Record CommitAnswers := {
  an_attempts_directory : result unit LocalRunDirectoryError;
  an_values_directory : result unit LocalRunDirectoryError;
  an_node_directory : AttemptNodeRoleV1 → string → result unit LocalRunDirectoryError;
  an_retain : AttemptNodeRoleV1 → string → string → Output → result RetainedOutputV1 LocalRunDirectoryError;
  an_node_synced : AttemptNodeRoleV1 → string → result unit LocalRunDirectoryError;
  an_values_synced : result unit LocalRunDirectoryError;
  an_diagnostics_written : N → result unit LocalRunDirectoryError;
  an_snapshot : WorkspaceSnapshotV1;
  an_now : result string LocalRunDirectoryError;
  an_interrupted_at : result string LocalRunDirectoryError;
  an_replaced : result unit LocalRunDirectoryError
}.

Implicit Types (st : State) (x : Node) (commit : Commit) (answers : CommitAnswers) (attempt : LocalAttemptV1)
  (state : LocalRunStateV1).

(** [timestamp] of [local_run.rs]. *)
Definition local_timestamp (value : OffsetDateTime) : result string LocalRunDirectoryError :=
  ok_or (format_utc value) SerializationUnavailable.

(** The nodes of a run in the order of the map. *)
Definition runtime_nodes st : list (string * Node) :=
  omap (λ id, (λ x, (id, x)) <$> rs_steps st !! id) (bt_keys (def_steps (rs_definition st))).

(** [RuntimeState::invocation_is_agent]. *)
Definition invocation_is_agent st (id : string) (handler : bool) : bool :=
  match bt_get (def_steps (rs_definition st)) id with
  | Some step =>
      if handler then bool_decide (mjoin (rr_handler_kind <$> rt_recovery step) = Some HandlerKindAgent) else rt_is_agent step
  | None => false
  end.

(** ** Retained outputs *)

Definition RetainedOutputSets : Type := list ((AttemptNodeRoleV1 * string) * list RetainedOutputV1).

Definition retained_get (retained : RetainedOutputSets) (role : AttemptNodeRoleV1) (node : string) : option (list RetainedOutputV1) :=
  find_map (λ entry, if decide (entry.1 = (role, node)) then Some entry.2 else None) retained.

(** [current_attempt]. *)
Definition current_attempt state : result LocalAttemptV1 LocalRunDirectoryError :=
  match last (ls_attempts state) with
  | None => Err StateInvalid
  | Some attempt => if negb (la_attempt_number attempt =? ls_current_attempt_number state)%N then Err StateInvalid else Ok attempt
  end.

(** One output of [inherited_retained_outputs]. *)
Definition inherited_retained_output state (current_attempt_number : N) (node : string)
    (producers : gmap (string * string) OutputProducer) (name : string) : result RetainedOutputV1 LocalRunDirectoryError :=
  let? producer := ok_or
    (producer ← producers !! (node, name);
     if bool_decide (op_node producer = node) && bool_decide (op_output producer = name)
        && (op_attempt_number producer <? current_attempt_number)%N then Some producer else None) StateConflict in
  let? source_attempt := ok_or
    (List.find (λ attempt, (la_attempt_number attempt =? op_attempt_number producer)%N
                           && bool_decide (la_attempt_id attempt = op_attempt_id producer)) (ls_attempts state)) StateConflict in
  let? source_step := ok_or
    (List.find (λ step, bool_decide (ast_id step = node) && bool_decide (ast_state step = AttemptSucceeded))
       (la_steps source_attempt)) StateConflict in
  let? descriptor := ok_or
    (List.find (λ output, bool_decide (retained_name output = name)) (default [] (ast_outputs source_step))) StateConflict in
  if match retained_producer descriptor with
     | Some retained => negb (bool_decide (retained = producer))
     | None => false
     end then Err StateConflict
  else Ok (set_producer descriptor producer).

Definition inherited_retained_outputs state (current_attempt_number : N) (node : string) (outputs : OutputSet Output)
    (producers : gmap (string * string) OutputProducer) : result (list RetainedOutputV1) LocalRunDirectoryError :=
  collect_results (inherited_retained_output state current_attempt_number node producers) (bt_keys outputs).

(** The outputs of a step that succeeded, written to its directory. *)
Definition written_outputs answers (role : AttemptNodeRoleV1) (node : string) (outputs : OutputSet Output)
    : result (list RetainedOutputV1) LocalRunDirectoryError :=
  let? _ := an_node_directory answers role node in
  let? descriptors := collect_results (λ output, an_retain answers role node output.1 output.2) outputs in
  let? _ := an_node_synced answers role node in
  Ok descriptors.

(** One node of [retain_outputs]. *)
Definition retain_node answers state (attempt_number : N) (finalizers : list AttemptStepV1)
    (producers : gmap (string * string) OutputProducer) (node : string * Node)
    : result (option ((AttemptNodeRoleV1 * string) * list RetainedOutputV1)) LocalRunDirectoryError :=
  let role := if existsb (λ finalizer, bool_decide (ast_id finalizer = node.1)) finalizers then AttemptFinalizer else AttemptStep in
  match ss_state node.2 with
  | SSucceeded outputs => let? descriptors := written_outputs answers role node.1 outputs in Ok (Some ((role, node.1), descriptors))
  | SInherited _ InhSucceeded outputs =>
      let? descriptors := inherited_retained_outputs state attempt_number node.1 outputs producers in
      Ok (Some ((role, node.1), descriptors))
  | SInherited _ InhSkipped _ => Ok (Some ((role, node.1), []))
  | _ => Ok None
  end.

Definition retain_outputs answers state (finalizers : list AttemptStepV1) st : result RetainedOutputSets LocalRunDirectoryError :=
  let? attempt := current_attempt state in
  let? _ := an_attempts_directory answers in
  let? _ := ok_or (attempt_directory_name (la_attempt_number attempt)) StateInvalid in
  let? _ := an_values_directory answers in
  let? retained := collect_results
    (retain_node answers state (la_attempt_number attempt) finalizers (rs_output_producers st)) (runtime_nodes st) in
  let? _ := an_values_synced answers in
  Ok (omap id retained).

(** ** Progress of nodes *)

Definition attempt_step_state {A} (value : StepState A) : AttemptStepStateV1 :=
  match value with
  | SPending => AttemptPending
  | SStarting => AttemptStarting
  | SRunning => AttemptRunning
  | SCapturingOutputs => AttemptCapturingOutputs
  | SRecovering _ _ => AttemptRunning
  | SCancelling _ => AttemptCancelling
  | SSucceeded _ => AttemptSucceeded
  | SInherited _ _ _ => AttemptInherited
  | SFailed _ => AttemptFailed
  | SBlocked _ => AttemptBlocked
  | SSkipped _ => AttemptSkipped
  | SNotRun _ => AttemptNotRun
  | SCancelled _ => AttemptCancelled
  end.

Definition attempt_step_detail {A} (value : StepState A) : option NodeDetail :=
  match value with
  | SInherited detail _ _ => Some (DetailInherited detail)
  | SFailed detail => Some (DetailFailed detail)
  | SBlocked detail => Some (DetailBlocked detail)
  | SSkipped detail => Some (DetailSkipped detail)
  | SNotRun detail => Some (DetailNotRun detail)
  | SCancelling detail | SCancelled detail => Some (DetailCancellation detail)
  | SPending | SStarting | SRunning | SCapturingOutputs | SRecovering _ _ | SSucceeded _ => None
  end.

(** The outputs of a node of the progress: what is inherited stays as it is
    recorded, when the loaded outputs are among it. *)
Definition progress_outputs (node : AttemptStepV1) x (retained : option (list RetainedOutputV1))
    : result (list RetainedOutputV1) LocalRunDirectoryError :=
  match ss_state x with
  | SInherited _ disposition _ =>
      let? durable := ok_or (ast_outputs node) StateConflict in
      let? loaded := ok_or retained StateConflict in
      if negb (bool_decide (ast_state node = AttemptInherited))
         || (bool_decide (disposition = InhSkipped) && (negb (bool_decide (durable = [])) || negb (bool_decide (loaded = []))))
         || existsb (λ output, negb (bool_decide (output ∈ durable))) loaded
      then Err StateConflict else Ok durable
  | other =>
      ok_or (match retained with
             | Some outputs => Some outputs
             | None => if bool_decide (attempt_step_state other = AttemptSucceeded) then None else Some []
             end) StateConflict
  end.

(** One node of [update_progress_nodes]. *)
Definition update_progress_node st (retained : RetainedOutputSets) (node : AttemptStepV1)
    : result AttemptStepV1 LocalRunDirectoryError :=
  let? x := ok_or (rs_steps st !! ast_id node) StateConflict in
  let? outputs := progress_outputs node x (retained_get retained (ast_role node) (ast_id node)) in
  Ok {| ast_id := ast_id node; ast_role := ast_role node; ast_failure_policy := ast_failure_policy node;
        ast_state := attempt_step_state (ss_state x); ast_outputs := Some outputs;
        ast_detail := attempt_step_detail (ss_state x); ast_recovery := ast_recovery node |}.

Definition update_progress_nodes st (retained : RetainedOutputSets) (nodes : list AttemptStepV1)
    : result (list AttemptStepV1) LocalRunDirectoryError :=
  collect_results (update_progress_node st retained) nodes.

(** ** Finalization *)

(** One finalizer of [durable_finalization_summary]. *)
Definition durable_finalizer (finalizer : FinalizerResult) : result DurableFinalizerV1 LocalRunDirectoryError :=
  let recorded value detail :=
    Ok {| df_id := fr_finalizer finalizer; df_role := AttemptFinalizer; df_failure_policy := fr_failure_policy finalizer;
          df_state := value; df_outputs := Some []; df_detail := detail |} in
  match fr_disposition finalizer with
  | SSucceeded _ => recorded AttemptSucceeded None
  | SFailed detail => recorded AttemptFailed (Some (DetailFailed detail))
  | SBlocked detail => recorded AttemptBlocked (Some (DetailBlocked detail))
  | SSkipped detail => recorded AttemptSkipped (Some (DetailSkipped detail))
  | SNotRun detail =>
      match ned_code detail with
      | FinalizerTriggerNotSelected => recorded AttemptNotRun (Some (DetailNotRun detail))
      | FailureStop => Err StateConflict
      end
  | SCancelled detail => recorded AttemptCancelled (Some (DetailCancellation detail))
  | SInherited _ _ _ | SPending | SStarting | SRunning | SCapturingOutputs | SRecovering _ _ | SCancelling _ => Err StateConflict
  end.

Definition durable_finalization_issues (finalizers : list DurableFinalizerV1) : list DurableFinalizationIssueV1 :=
  (λ finalizer, {| dfi_finalizer_id := df_id finalizer; dfi_impact := df_failure_policy finalizer |})
    <$> List.filter (λ finalizer, match df_state finalizer with AttemptFailed | AttemptBlocked => true | _ => false end) finalizers.

Definition durable_cancellation (reason : CancellationReason) (deadline : option Deadline)
    : result DurableFinalizationCancellationV1 LocalRunDirectoryError :=
  let? force_stop_deadline := transpose (λ deadline, local_timestamp (deadline_utc deadline)) deadline in
  Ok {| dfc_reason := cancellation_reason reason; dfc_force_stop_deadline := force_stop_deadline |}.

Definition durable_finalization_summary (summary : FinalizationSummary Deadline)
    : result AttemptFinalizationCompleteV1 LocalRunDirectoryError :=
  let? finalizers := collect_results durable_finalizer (fs_finalizers summary) in
  let? cancellation := transpose (λ cancellation, durable_cancellation (fin_reason cancellation) (fin_deadline cancellation))
                         (fs_cancellation summary) in
  Ok {| afc_complete := true; afc_trigger := finalization_trigger (fs_trigger summary); afc_finalizers := finalizers;
        afc_issues := durable_finalization_issues finalizers; afc_cancellation := cancellation;
        afc_force_abort := fs_force_abort summary |}.

(** The finalizers of the summary, in the order they are expected in: each is
    taken out of the map of the summary. *)
Fixpoint take_finalizers (outputs : RetainedOutputSets) (retained : gmap string DurableFinalizerV1) (expected : list AttemptStepV1)
    : result (list DurableFinalizerV1 * gmap string DurableFinalizerV1) LocalRunDirectoryError :=
  match expected with
  | [] => Ok ([], retained)
  | node :: expected' =>
      let? finalizer := ok_or (retained !! ast_id node) StateConflict in
      if negb (bool_decide (df_role finalizer = ast_role node))
         || negb (bool_decide (df_failure_policy finalizer = ast_failure_policy node)) then Err StateConflict
      else
        let? kept := ok_or (match retained_get outputs AttemptFinalizer (df_id finalizer) with
                            | Some outputs => Some outputs
                            | None => if bool_decide (df_state finalizer = AttemptSucceeded) then None else Some []
                            end) StateConflict in
        let taken := {| df_id := df_id finalizer; df_role := df_role finalizer; df_failure_policy := df_failure_policy finalizer;
                        df_state := df_state finalizer; df_outputs := Some kept; df_detail := df_detail finalizer |} in
        let? rest := take_finalizers outputs (delete (ast_id node) retained) expected' in
        Ok (taken :: rest.1, rest.2)
  end.

Definition complete_finalization (finalizers : list AttemptStepV1) (outputs : RetainedOutputSets)
    (summary : FinalizationSummary Deadline) : result AttemptFinalizationV1 LocalRunDirectoryError :=
  if bool_decide (finalizers = []) then Err StateConflict
  else
    let? complete := durable_finalization_summary summary in
    let retained : gmap string DurableFinalizerV1 :=
      list_to_map ((λ finalizer, (df_id finalizer, finalizer)) <$> reverse (afc_finalizers complete)) in
    if negb (bool_decide (size retained = length (afc_finalizers complete)))
       || negb (bool_decide (size retained = length finalizers)) then Err StateConflict
    else
      let? taken := take_finalizers outputs retained finalizers in
      if negb (bool_decide (taken.2 = ∅)) then Err StateConflict
      else Ok (FinalizationComplete
                 {| afc_complete := afc_complete complete; afc_trigger := afc_trigger complete; afc_finalizers := taken.1;
                    afc_issues := durable_finalization_issues taken.1; afc_cancellation := afc_cancellation complete;
                    afc_force_abort := afc_force_abort complete |}).

(** The progress of a finalization that is not over. *)
Definition progress_finalization (finalizers : list AttemptStepV1) (outputs : RetainedOutputSets) st
    (finalization : option AttemptFinalizationV1) (trigger : FinalizationTrigger) (gate : FinalizationGate Deadline)
    : result AttemptFinalizationV1 LocalRunDirectoryError :=
  if bool_decide (finalizers = []) then Err StateConflict
  else
    let? nodes := (match finalization with
                   | None => Ok finalizers
                   | Some (FinalizationProgress progress) => Ok (afp_finalizers progress)
                   | Some (FinalizationComplete _) => Err StateConflict
                   end) in
    let? cancellation := (match gate with
                          | FinOpen => Ok None
                          | FinCancelling reason deadline _ => let? cancellation := durable_cancellation reason deadline in Ok (Some cancellation)
                          end) in
    let force_abort := match gate with FinOpen => false | FinCancelling _ _ force_abort => force_abort end in
    let? nodes := update_progress_nodes st outputs nodes in
    Ok (FinalizationProgress
          {| afp_complete := match finalization with Some (FinalizationProgress progress) => afp_complete progress | _ => false end;
             afp_trigger := finalization_trigger trigger; afp_finalizers := nodes; afp_cancellation := cancellation;
             afp_force_abort := force_abort |}).

Definition is_final (workflow : WorkflowState Deadline) : bool :=
  match workflow with WSucceeded | WFailed _ _ | WCancelled _ => true | WExecuting _ | WFinalizing _ _ _ => false end.

Definition update_step_progress attempt st (finalizers : list AttemptStepV1) (outputs : RetainedOutputSets)
    : result LocalAttemptV1 LocalRunDirectoryError :=
  if negb (bool_decide (length (la_steps attempt) + length finalizers = size (rs_steps st))) then Err StateConflict
  else if match la_force_abort attempt, rs_force_abort st with
          | Some retained, Some observed => negb (bool_decide (retained = observed))
          | _, _ => false
          end then Err StateConflict
  else
    let? steps := update_progress_nodes st outputs (la_steps attempt) in
    let? finalization :=
      (match rs_finalization_summary st with
       | Some summary => let? complete := complete_finalization finalizers outputs summary in Ok (Some complete)
       | None =>
           match rs_workflow st with
           | WFinalizing trigger gate _ =>
               let? progress := progress_finalization finalizers outputs st (la_finalization attempt) trigger gate in
               Ok (Some progress)
           | workflow =>
               if bool_decide (is_Some (la_finalization attempt)) || (negb (bool_decide (finalizers = [])) && is_final workflow)
               then Err StateConflict else Ok None
           end
       end) in
    Ok (set_progress (set_phase attempt (rs_force_abort st) finalization) (set_progress_steps (la_progress attempt) steps)).

(** ** The ledger of invocations *)

Definition open_invocation (invocation_id : N) (step_id : string) (node_role : AttemptNodeRoleV1) (role : RecoveryInvocationRoleV1)
    (target_execution recovery_round : option N) (started_at : string) : DurableInvocationV1 :=
  {| di_invocation_id := invocation_id; di_step_id := step_id; di_node_role := node_role; di_role := role;
     di_target_execution := target_execution; di_recovery_round := recovery_round; di_state := DurableActive;
     di_started_at := started_at; di_finished_at := None; di_usage := {| ru_input_tokens := 0; ru_output_tokens := 0 |};
     di_diagnostics := []; di_diagnostic_reference := None |}.

Definition recorded_invocation (invocations : list DurableInvocationV1) (invocation_id : N) : bool :=
  existsb (λ invocation, (di_invocation_id invocation =? invocation_id)%N) invocations.

(** The failed execution of a round. *)
Definition record_failed_execution attempt (now step_id : string) (invocations : list DurableInvocationV1)
    (round : RecoveryRoundRecord StepFailureCause) : ledger (list DurableInvocationV1) :=
  let failed := rrr_failed_execution round in
  if recorded_invocation invocations (ptf_invocation failed) then ledger_return invocations
  else
    let! pending := take_pending (la_attempt_number attempt, step_id, ptf_execution_number failed) in
    let! started_at := (match pending with
                        | Some (pending_invocation, started_at) =>
                            if (pending_invocation =? ptf_invocation failed)%N then ledger_return started_at
                            else ledger_fail StateConflict
                        | None => ledger_return (default now (la_started_at attempt))
                        end) in
    ledger_return (invocations ++ [open_invocation (ptf_invocation failed) step_id AttemptStep InvocationTarget
                                     (Some (ptf_execution_number failed)) None started_at]).

Definition record_recovery_rounds attempt (now : string) (invocations : list DurableInvocationV1) (node : string * Node)
    : ledger (list DurableInvocationV1) :=
  match ss_recovery node.2 with
  | Some recovery => ledger_fold (record_failed_execution attempt now node.1) invocations (sr_rounds recovery)
  | None => ledger_return invocations
  end.

(** An execution of an agent that was started and is over. *)
Definition agent_is_over attempt st (entry : PendingRecoveryInvocationKey * PendingRecoveryInvocation) : bool :=
  let '((number, step_id, execution_number), _) := entry in
  (number =? la_attempt_number attempt)%N && invocation_is_agent st step_id false
  && negb (match x ← rs_steps st !! step_id; ss_active_invocation x with
           | Some (ActiveTarget active) => (active =? execution_number)%N
           | _ => false
           end).

Definition take_agents attempt st : ledger PendingInvocations :=
  λ pending, (List.filter (λ entry, negb (agent_is_over attempt st entry)) pending,
              Ok (List.filter (agent_is_over attempt st) pending)).

Definition ensure_invocation_capacity attempt (invocations : list DurableInvocationV1) : result unit LocalRunDirectoryError :=
  if (dia_maximum_invocations (apr_accounting (la_progress attempt)) <=? N.of_nat (length invocations))%N
  then Err StateConflict else Ok tt.

Definition record_agent attempt (invocations : list DurableInvocationV1)
    (entry : PendingRecoveryInvocationKey * PendingRecoveryInvocation) : ledger (list DurableInvocationV1) :=
  let '((_, step_id, execution_number), (invocation_id, started_at)) := entry in
  if recorded_invocation invocations invocation_id then ledger_return invocations
  else
    let! _ := ledger_lift (ensure_invocation_capacity attempt invocations) in
    let! node_role := ledger_lift (ok_or (attempt_node_role attempt step_id) StateConflict) in
    ledger_return (invocations ++ [open_invocation invocation_id step_id node_role InvocationTarget (Some execution_number) None started_at]).

(** An execution that is not recorded yet: its identity is kept. *)
Definition keep_pending attempt (now step_id : string) (invocation_id execution_number : N) : ledger unit :=
  λ pending,
    let key := (la_attempt_number attempt, step_id, execution_number) in
    match pending_get pending key with
    | Some retained => (pending, if (retained.1 =? invocation_id)%N then Ok tt else Err StateConflict)
    | None => (pending_insert pending key (invocation_id, now), Ok tt)
    end.

(** The role, the execution and the round of an action that starts an
    invocation. *)
Definition started_invocation (action : CommittedAction) : option (RecoveryInvocationRoleV1 * option N * option N) :=
  match ca_kind action with
  | KindStartStep => Some (InvocationTarget, ca_execution_number action, None)
  | KindStartRecoveryHandler => Some (InvocationRecoveryHandler, None, ca_recovery_round action)
  | KindCaptureOutputs | KindCancelStep | KindForceAbortStep | KindFinishRun => None
  end.

Definition record_started attempt (now : string) st (invocations : list DurableInvocationV1) (action : CommittedAction)
    : ledger (list DurableInvocationV1) :=
  match started_invocation action with
  | None => ledger_return invocations
  | Some (role, target_execution, recovery_round) =>
      let! step_id := ledger_lift (ok_or (ca_step action) StateConflict) in
      let runtime_recovery := x ← rs_steps st !! step_id; ss_recovery x in
      let recovery_active := match runtime_recovery with
                             | Some recovery => negb (bool_decide (length (sr_rounds recovery) = 0))
                             | None => false
                             end in
      let agent := invocation_is_agent st step_id false in
      if negb recovery_active || (match ca_kind action with KindStartStep => true | _ => false end && agent) then
        let! _ := (match ca_execution_number action with
                   | Some execution_number =>
                       if bool_decide (is_Some runtime_recovery) || agent
                       then keep_pending attempt now step_id (ca_id action) execution_number else ledger_return tt
                   | None => ledger_return tt
                   end) in
        ledger_return invocations
      else
        let! node_role := ledger_lift (ok_or (attempt_node_role attempt step_id) StateConflict) in
        match List.find (λ invocation, (di_invocation_id invocation =? ca_id action)%N) invocations with
        | Some existing =>
            if negb (bool_decide (di_step_id existing = step_id)) || negb (bool_decide (di_node_role existing = node_role))
               || negb (bool_decide (di_role existing = role)) || negb (bool_decide (di_target_execution existing = target_execution))
               || negb (bool_decide (di_recovery_round existing = recovery_round))
            then ledger_fail StateConflict else ledger_return invocations
        | None =>
            let! _ := ledger_lift (ensure_invocation_capacity attempt invocations) in
            ledger_return (invocations ++ [open_invocation (ca_id action) step_id node_role role target_execution recovery_round now])
        end
  end.

Definition durable_invocation_is_active (invocation : DurableInvocationV1) st : bool :=
  match x ← rs_steps st !! di_step_id invocation; ss_active_invocation x with
  | None => false
  | Some active =>
      match di_role invocation, active with
      | InvocationTarget, ActiveTarget execution_number => bool_decide (di_target_execution invocation = Some execution_number)
      | InvocationRecoveryHandler, ActiveRecoveryHandler round => bool_decide (di_recovery_round invocation = Some round)
      | _, _ => false
      end
  end.

Definition INVOCATIONS_DIRECTORY : string := "invocations".

Definition retained_stream (directory name : string) (kind : RecoveryDiagnosticKindV1) (stream : CapturedDiagnosticStream)
    : result DurableInvocationDiagnosticV1 LocalRunDirectoryError :=
  let discarded_bytes := default 0%N (cds_truncation stream) in
  if (u64_max <? N.of_nat (length (cds_bytes stream)))%N then Err StateInvalid
  else Ok {| did_kind := kind; did_reference := (directory ++ "/" ++ name)%string;
             did_retained_bytes := N.of_nat (length (cds_bytes stream)); did_discarded_bytes := discarded_bytes;
             did_truncated := negb (discarded_bytes =? 0)%N; did_fully_drained := cds_fully_drained stream |}.

Definition retain_invocation_diagnostics answers (attempt_number invocation_id : N) (diagnostic : StepDiagnostic) (agent : bool)
    : result (list DurableInvocationDiagnosticV1) LocalRunDirectoryError :=
  let? _ := an_attempts_directory answers in
  let? attempt_name := ok_or (attempt_directory_name attempt_number) StateInvalid in
  let? _ := an_diagnostics_written answers invocation_id in
  let directory := (ATTEMPTS_DIRECTORY ++ "/" ++ attempt_name ++ "/" ++ INVOCATIONS_DIRECTORY ++ "/"
                      ++ pad_left 20 (pretty invocation_id))%string in
  let? stdout := retained_stream directory "stdout.bin" (if agent then DiagAgentHarnessStdout else DiagCommandStdout)
                   (sd_standard_output diagnostic) in
  let? stderr := retained_stream directory "stderr.bin" (if agent then DiagAgentHarnessStderr else DiagCommandStderr)
                   (sd_standard_error diagnostic) in
  Ok [stdout; stderr].

Definition is_handler_role (role : RecoveryInvocationRoleV1) : bool :=
  match role with InvocationRecoveryHandler => true | InvocationTarget => false end.

(** A recorded invocation that is over is settled, with what was observed of
    it. *)
Definition settle_invocation answers attempt st (diagnostics : StepDiagnosticLog) (accounting : InvocationAccountingLog)
    (now : string) (invocation : DurableInvocationV1) : result DurableInvocationV1 LocalRunDirectoryError :=
  if negb (is_active_invocation invocation) || durable_invocation_is_active invocation st then Ok invocation
  else
    let handler := is_handler_role (di_role invocation) in
    let step_id := di_step_id invocation in
    let action := di_invocation_id invocation in
    let? retained := transpose (λ diagnostic,
      retain_invocation_diagnostics answers (la_attempt_number attempt) action diagnostic (invocation_is_agent st step_id handler))
      (get_invocation diagnostics step_id action) in
    if handler && negb (is_recovery_handler diagnostics step_id action) then Err StateConflict
    else
      let usage := default {| iu_input_tokens := 0; iu_output_tokens := 0 |} (al_usage accounting !! action) in
      Ok {| di_invocation_id := action; di_step_id := step_id; di_node_role := di_node_role invocation; di_role := di_role invocation;
            di_target_execution := di_target_execution invocation; di_recovery_round := di_recovery_round invocation;
            di_state := match ss_state <$> rs_steps st !! step_id with Some (SCancelled _) => DurableCancelled | _ => DurableSettled end;
            di_started_at := di_started_at invocation; di_finished_at := Some now;
            di_usage := {| ru_input_tokens := iu_input_tokens usage; ru_output_tokens := iu_output_tokens usage |};
            di_diagnostics := default [] retained;
            di_diagnostic_reference :=
              (λ session, ("diagnostics/" ++ profile_name (nsf_profile session) ++ "/" ++ nsf_diagnostic_identity session)%string)
                <$> al_native_sessions accounting !! action |}.

(** [sort_by_key] by the number of an invocation: stable. *)
Fixpoint insert_durable (invocation : DurableInvocationV1) (sorted : list DurableInvocationV1) : list DurableInvocationV1 :=
  match sorted with
  | [] => [invocation]
  | first :: rest =>
      if (di_invocation_id invocation <=? di_invocation_id first)%N then invocation :: sorted
      else first :: insert_durable invocation rest
  end.

Definition update_invocation_ledger answers attempt commit (diagnostics : StepDiagnosticLog) (accounting : InvocationAccountingLog)
    (now : string) : ledger LocalAttemptV1 :=
  let st := cm_state commit in
  let! invocations := ledger_fold (record_recovery_rounds attempt now) (apr_invocations (la_progress attempt)) (runtime_nodes st) in
  let! agents := take_agents attempt st in
  let! invocations := ledger_fold (record_agent attempt) invocations agents in
  let! invocations := ledger_fold (record_started attempt now st) invocations (cm_actions commit) in
  let! invocations := ledger_lift (collect_results (settle_invocation answers attempt st diagnostics accounting now) invocations) in
  let sorted := foldr insert_durable [] invocations in
  let progress := set_invocations (la_progress attempt) sorted (apr_accounting (la_progress attempt)) in
  let! accounting := ledger_lift (recalculate_invocation_accounting progress) in
  ledger_return (set_progress attempt (set_invocations progress sorted accounting)).

(** ** Recoveries *)

Definition invocation_role (active : ActiveStepInvocation) : RecoveryInvocationRoleV1 * option N * option N :=
  match active with
  | ActiveTarget execution_number => (InvocationTarget, Some execution_number, None)
  | ActiveRecoveryHandler round => (InvocationRecoveryHandler, None, Some round)
  end.

Definition handler_decision (round : RecoveryRoundRecord StepFailureCause) : option RecoveryHandlerOutcomeV1 :=
  handler ← rrr_handler round;
  match rhr_outcome handler with
  | OutcomeRecheck _ _ => Some HandlerRecheckV1
  | OutcomeGaveUp _ _ => Some HandlerGaveUpV1
  | OutcomeFailed _ _ => Some HandlerFailedV1
  | OutcomeCancelled => Some HandlerCancelledV1
  | OutcomeStarting | OutcomeRunning => None
  end.

(** The recorded invocation of a step that is active in its recovery. *)
Definition recovery_active (id : string) x (recovery : StepRecoveryState StepFailureCause) (invocations : list DurableInvocationV1)
    : option DurableRecoveryActiveV1 :=
  active ← ss_active_invocation x;
  let '(role, target_execution, recovery_round) := invocation_role active in
  invocation ← List.find (λ invocation,
    bool_decide (di_step_id invocation = id) && bool_decide (di_role invocation = role)
    && bool_decide (di_target_execution invocation = target_execution)
    && bool_decide (di_recovery_round invocation = recovery_round) && is_active_invocation invocation) invocations;
  Some {| dra_role := role; dra_target_execution := target_execution; dra_recovery_round := recovery_round;
          dra_invocation_id := di_invocation_id invocation;
          dra_handler_state :=
            match ss_state x with
            | SRecovering _ HandlerStarting => Some DurableHandlerStarting
            | SRecovering _ HandlerRunning => Some DurableHandlerRunning
            | _ => None
            end;
          dra_decision :=
            match ss_state x with SRecovering _ _ => None | _ => last (sr_rounds recovery) ≫= handler_decision end |}.

Definition set_step_recovery (node : AttemptStepV1) (recovery : option DurableStepRecoveryV1) : AttemptStepV1 :=
  {| ast_id := ast_id node; ast_role := ast_role node; ast_failure_policy := ast_failure_policy node; ast_state := ast_state node;
     ast_outputs := ast_outputs node; ast_detail := ast_detail node; ast_recovery := recovery |}.

Definition serialized {A} (value : result A RunResultInvariant) : result A LocalRunDirectoryError :=
  match value with Ok value => Ok value | Err _ => Err SerializationUnavailable end.

(** One node of [update_recovery_progress]. *)
Definition update_recovery_node (invocations : list DurableInvocationV1) st (node : AttemptStepV1)
    : result AttemptStepV1 LocalRunDirectoryError :=
  let? x := ok_or (rs_steps st !! ast_id node) StateConflict in
  match ss_recovery x with
  | None => Ok (set_step_recovery node None)
  | Some recovery =>
      if bool_decide (length (sr_rounds recovery) = 0) then Ok (set_step_recovery node None)
      else
        let? termination := (if bool_decide (is_Some (sr_terminal_disposition recovery))
                             then let? summary := serialized (step_recovery_summary_v1 (Some recovery)) in
                                  Ok (srs_termination <$> summary)
                             else Ok None) in
        let? rounds := serialized (recovery_round_summaries_v1 recovery false) in
        Ok (set_step_recovery node (Some
              {| dsr_schema_version := 1; dsr_configured_retries := sr_configured_rounds recovery;
                 dsr_handler_kind := (λ kind, match kind with
                                              | HandlerKindCommand => DurableCmd
                                              | HandlerKindAgent => DurableAgent
                                              end) <$> sr_handler_kind recovery;
                 dsr_rounds := (λ round, {| drr_number := rrs_number round; drr_failed_execution := rrs_failed_execution round;
                                            drr_handler := rrs_handler round |}) <$> rounds;
                 dsr_active := recovery_active (ast_id node) x recovery invocations; dsr_termination := termination |}))
  end.

Definition update_recovery_progress attempt st : result LocalAttemptV1 LocalRunDirectoryError :=
  let? steps := collect_results (update_recovery_node (apr_invocations (la_progress attempt)) st) (la_steps attempt) in
  Ok (set_progress attempt (set_progress_steps (la_progress attempt) steps)).

(** ** Outstanding actions *)

Definition outstanding_kind (value : StepState Output) : option OutstandingActionKindV1 :=
  match value with
  | SStarting | SRunning => Some OutstandingStartStep
  | SRecovering _ _ => Some OutstandingStartRecoveryHandler
  | SCapturingOutputs => Some OutstandingCaptureOutputs
  | SCancelling _ => Some OutstandingCancelStep
  | SPending | SInherited _ _ _ | SSucceeded _ | SFailed _ | SBlocked _ | SSkipped _ | SNotRun _ | SCancelled _ => None
  end.

(** The action of a node, if it has one. *)
Definition outstanding_action st (node : AttemptStepV1) : result (option OutstandingActionV1) LocalRunDirectoryError :=
  let? x := ok_or (rs_steps st !! ast_id node) StateConflict in
  match ss_current_action x with
  | None => Ok None
  | Some action =>
      let? kind := ok_or (outstanding_kind (ss_state x)) StateConflict in
      Ok (Some {| oa_action_id := action; oa_kind := kind; oa_step_id := Some (ast_id node); oa_node_role := Some (ast_role node);
                  oa_target_execution := ss_active_invocation x ≫= (λ active, (invocation_role active).1.2);
                  oa_recovery_round := ss_active_invocation x ≫= (λ active, (invocation_role active).2) |})
  end.

(** [sort_unstable_by_key] by the number of an action; the numbers of
    different nodes differ. *)
Fixpoint insert_outstanding (action : OutstandingActionV1) (sorted : list OutstandingActionV1) : list OutstandingActionV1 :=
  match sorted with
  | [] => [action]
  | first :: rest =>
      if (oa_action_id action <=? oa_action_id first)%N then action :: sorted else first :: insert_outstanding action rest
  end.

Definition progress_nodes attempt : list AttemptStepV1 :=
  la_steps attempt ++ match la_finalization attempt with Some (FinalizationProgress progress) => afp_finalizers progress | _ => [] end.

Definition outstanding_actions attempt st : result (list OutstandingActionV1) LocalRunDirectoryError :=
  let? actions := collect_results (outstanding_action st) (progress_nodes attempt) in
  Ok (foldr insert_outstanding [] (omap id actions)).

(** ** Commits *)

(** [append_diagnostic]. *)
Definition append_diagnostic state (attempt_number : N) (code : DiagnosticCodeV1) : result LocalRunStateV1 LocalRunDirectoryError :=
  let? sequence := ok_or (match last (ls_diagnostics state) with
                          | Some diagnostic => u64_add (ldg_sequence diagnostic) 1
                          | None => Some 1%N
                          end) StateInvalid in
  let diagnostics := ls_diagnostics state ++ [{| ldg_sequence := sequence; ldg_attempt_number := attempt_number; ldg_code := code;
                                                 ldg_step_id := None; ldg_action_id := None; ldg_guard_id := None |}] in
  Ok {| ls_schema_version := ls_schema_version state; ls_local_run_id := ls_local_run_id state; ls_revision := ls_revision state;
        ls_current_attempt_number := ls_current_attempt_number state; ls_attempts := ls_attempts state;
        ls_diagnostics := if decide (MAXIMUM_DIAGNOSTICS < length diagnostics) then drop 1 diagnostics else diagnostics |}.

(** Every requested action is outstanding. *)
Definition action_recorded attempt (requested : CommittedAction) : bool :=
  match ca_kind requested with
  | KindFinishRun => true
  | _ => existsb (λ action, (oa_action_id action =? ca_id requested)%N && bool_decide (oa_step_id action = ca_step requested)
                            && bool_decide (oa_node_role action = ca_step requested ≫= attempt_node_role attempt))
           (apr_outstanding_actions (la_progress attempt))
  end.

(** What an event changes of the recorded cancellation. *)
Definition record_event (now : string) (cancellation : result (option AttemptCancellationV1) LocalRunDirectoryError)
    (event : TransitionEvent Deadline) : result (option AttemptCancellationV1) LocalRunDirectoryError :=
  let? cancellation := cancellation in
  match event with
  | EvCancellationAccepted _ reason deadline =>
      let? force_stop_deadline := local_timestamp (deadline_utc deadline) in
      Ok (Some {| acn_reason := cancellation_reason reason; acn_requested_at := now;
                  acn_force_stop_deadline := force_stop_deadline; acn_workflow_confirmed := false |})
  | _ => Ok cancellation
  end.

Definition attempt_state (workflow : WorkflowState Deadline) : AttemptStateV1 :=
  match workflow with
  | WExecuting (GateCancelling _ _) | WFinalizing _ (FinCancelling _ _ _) _ => AttemptStateCancelling
  | WExecuting _ | WFinalizing _ FinOpen _ => AttemptStateRunning
  | WSucceeded => AttemptStateSucceeded
  | WFailed _ _ => AttemptStateWorkflowFailed
  | WCancelled _ => AttemptStateCancelled
  end.

Definition confirm_cancellation (cancellation : AttemptCancellationV1) : AttemptCancellationV1 :=
  {| acn_reason := acn_reason cancellation; acn_requested_at := acn_requested_at cancellation;
     acn_force_stop_deadline := acn_force_stop_deadline cancellation; acn_workflow_confirmed := true |}.

(** The state of the workflow, and the settlement of an attempt that ended
    with it. *)
Definition settle_workflow attempt (workflow : WorkflowState Deadline) (now : string) (snapshot : option WorkspaceSnapshotV1)
    : LocalAttemptV1 :=
  let next := attempt_state workflow in
  if attempt_is_terminal next then
    let attempt := set_progress attempt (set_outstanding (la_progress attempt) []) in
    let attempt := match next with
                   | AttemptStateCancelled => set_cancellation attempt (confirm_cancellation <$> la_cancellation attempt)
                   | _ => attempt
                   end in
    set_settlement attempt next (Some now) snapshot (ResultNotPublished AbsentPublicationPending)
  else set_settlement attempt next (la_settled_at attempt) (la_settlement_snapshot attempt) (la_result attempt).

(** The change of the current attempt by a commit without a diagnostic. *)
Definition commit_attempt answers commit (finalizers : list AttemptStepV1) (diagnostics : StepDiagnosticLog)
    (accounting : InvocationAccountingLog) (outputs : RetainedOutputSets) (snapshot : option WorkspaceSnapshotV1) (now : string)
    attempt : ledger LocalAttemptV1 :=
  let st := cm_state commit in
  let ordinal := if cm_occurrence_accepted commit then cm_occurrence_ordinal commit
                 else apr_accepted_occurrence_ordinal (la_progress attempt) in
  let attempt := set_progress attempt (set_counters (la_progress attempt) ordinal (rs_last_transition_sequence st)) in
  let! attempt := ledger_lift (update_step_progress attempt st finalizers outputs) in
  let! attempt := update_invocation_ledger answers attempt commit diagnostics accounting now in
  let! attempt := ledger_lift (update_recovery_progress attempt st) in
  let! actions := ledger_lift (outstanding_actions attempt st) in
  let attempt := set_progress attempt (set_outstanding (la_progress attempt) actions) in
  if negb (forallb (action_recorded attempt) (cm_actions commit)) then ledger_fail StateConflict
  else
    let! cancellation := ledger_lift (foldl (record_event now) (Ok (la_cancellation attempt)) (cm_events commit)) in
    ledger_return (settle_workflow (set_cancellation attempt cancellation) (rs_workflow st) now snapshot).

(** The change of the state by a commit. *)
Definition commit_state answers commit (finalizers : list AttemptStepV1) (diagnostics : StepDiagnosticLog)
    (accounting : InvocationAccountingLog) (outputs : RetainedOutputSets) (snapshot : option WorkspaceSnapshotV1) state
    : ledger LocalRunStateV1 :=
  let! now := ledger_lift (an_now answers) in
  let! current := ledger_lift (current_attempt_mut state) in
  let '(earlier, attempt) := current in
  if attempt_is_terminal (la_state attempt) then ledger_fail StateConflict
  else
    let attempt := set_started attempt (get_or_insert (la_started_at attempt) now) in
    let number := ls_current_attempt_number state in
    match cm_diagnostic commit with
    | Some DiagTransitionCapacityExceeded =>
        let! settled_at := ledger_lift (an_interrupted_at answers) in
        let attempt := settle_interrupted_attempt attempt ExecutorFault true snapshot settled_at in
        ledger_lift (append_diagnostic (set_attempts state number (earlier ++ [attempt])) number DiagnosticTransitionCapacityExceeded)
    | None =>
        let! attempt := commit_attempt answers commit finalizers diagnostics accounting outputs snapshot now attempt in
        let state := set_attempts state number (earlier ++ [attempt]) in
        if cm_occurrence_accepted commit then ledger_return state
        else ledger_lift (append_diagnostic state (la_attempt_number attempt) DiagnosticStaleOccurrence)
    end.

(** [StateStore]: the state and the invocations that are not recorded yet. *)
Record StateStore := { so_current : LocalRunStateV1; so_pending : PendingInvocations }.

(** [StateStore::update] with a change that reads the map. *)
Definition update_with_pending (mutate : LocalRunStateV1 → ledger LocalRunStateV1) (store : StateStore)
    (replaced : result unit LocalRunDirectoryError) : StateStore * result unit LocalRunDirectoryError :=
  let '(pending, next) := mutate (so_current store) (so_pending store) in
  match store_update (λ _, next) (so_current store) replaced with
  | Ok next => ({| so_current := next; so_pending := pending |}, Ok tt)
  | Err error => ({| so_current := so_current store; so_pending := pending |}, Err error)
  end.

(** [StateStore::commit_runtime]. *)
Definition commit_runtime answers commit (finalizers : list AttemptStepV1) (diagnostics : StepDiagnosticLog)
    (accounting : InvocationAccountingLog) (store : StateStore) : StateStore * result unit LocalRunDirectoryError :=
  match retain_outputs answers (so_current store) finalizers (cm_state commit) with
  | Err error => (store, Err error)
  | Ok outputs =>
      let snapshot :=
        if bool_decide (is_Some (cm_diagnostic commit)) || is_final (rs_workflow (cm_state commit)) then Some (an_snapshot answers) else None in
      update_with_pending (commit_state answers commit finalizers diagnostics accounting outputs snapshot) store (an_replaced answers)
  end.
End commits.

(** ** Other updates of the owner *)

Section updates.
Context `{!TimeLibrary, !MediaTypes}.
Implicit Types (attempt : LocalAttemptV1) (state : LocalRunStateV1) (now : result string LocalRunDirectoryError).

(** The current attempt is replaced by what a change makes of it. *)
Definition change_attempt (change : LocalAttemptV1 → result LocalAttemptV1 LocalRunDirectoryError) state
    : result LocalRunStateV1 LocalRunDirectoryError :=
  let? current := current_attempt_mut state in
  let? attempt := change current.2 in
  Ok (set_attempts state (ls_current_attempt_number state) (current.1 ++ [attempt])).

(** What an authenticated process group is known by. *)
Record AuthenticatedProcessGroup := { apg_process_group : Z; apg_leader_start_identity : string }.

Definition registered_action attempt (step : string) (action_id : N) : option AttemptNodeRoleV1 :=
  action ← List.find (λ action,
    (oa_action_id action =? action_id)%N
    && match oa_kind action with OutstandingStartStep | OutstandingStartRecoveryHandler => true | _ => false end
    && bool_decide (oa_step_id action = Some step)) (apr_outstanding_actions (la_progress attempt));
  oa_node_role action.

(** The change of [register]. *)
Definition register_guard (guard_id step : string) (action_id : N) (identity : AuthenticatedProcessGroup) attempt
    : result LocalAttemptV1 LocalRunDirectoryError :=
  let? role := ok_or (registered_action attempt step action_id) StateConflict in
  if existsb (λ guard, (pg_action_id guard =? action_id)%N || bool_decide (pg_guard_id guard = guard_id)) (la_process_guards attempt)
  then Err StateConflict
  else Ok (set_guards attempt (la_process_guards attempt ++
             [{| pg_guard_id := guard_id; pg_action_id := action_id; pg_step_id := step; pg_node_role := role;
                 pg_state := GuardPrepared; pg_execution_host := ow_execution_host (la_owner attempt);
                 pg_process_group_id := apg_process_group identity;
                 pg_liveness := {| pl_kind := LeaderStartIdentity; pl_value := apg_leader_start_identity identity |} |}])).

(** The first guard with an identity. *)
Fixpoint quiesce_first (guard_id : string) (guards : list ProcessGuardV1) : option (list ProcessGuardV1) :=
  match guards with
  | [] => None
  | guard :: guards' =>
      if decide (pg_guard_id guard = guard_id) then Some (quiesce_guard guard :: guards')
      else rest ← quiesce_first guard_id guards'; Some (guard :: rest)
  end.

Definition mark_guard_quiesced (guard_id : string) attempt : result LocalAttemptV1 LocalRunDirectoryError :=
  let? guards := ok_or (quiesce_first guard_id (la_process_guards attempt)) StateConflict in Ok (set_guards attempt guards).

Definition set_result attempt (value : AttemptResultV1) : LocalAttemptV1 :=
  set_settlement attempt (la_state attempt) (la_settled_at attempt) (la_settlement_snapshot attempt) value.

Definition record_result_published attempt : result LocalAttemptV1 LocalRunDirectoryError :=
  if negb (attempt_is_terminal (la_state attempt)) then Err StateConflict
  else Ok (set_result attempt (ResultPublished (attempt_result_relative_path (la_attempt_number attempt)))).

Definition record_result_publication_failed (phase : PublicationFailurePhaseV1) (invariant : option RunResultInvariant) state
    : result LocalRunStateV1 LocalRunDirectoryError :=
  let? state := change_attempt (λ attempt,
    if negb (attempt_is_terminal (la_state attempt)) then Err StateConflict
    else Ok (set_result attempt (ResultPublicationFailed phase invariant))) state in
  append_diagnostic state (ls_current_attempt_number state) DiagnosticResultPublicationFailure.

Definition record_private_cleanup_failure state : result LocalRunStateV1 LocalRunDirectoryError :=
  append_diagnostic state (ls_current_attempt_number state) DiagnosticPrivateCleanupFailure.

Definition record_executor_fault_before_execution (snapshot : WorkspaceSnapshotV1) now attempt
    : result LocalAttemptV1 LocalRunDirectoryError :=
  match la_state attempt with
  | AttemptStateCreated =>
      let? settled_at := now in Ok (settle_interrupted_attempt attempt ExecutorFault false (Some snapshot) settled_at)
  | _ => Err StateConflict
  end.

Definition record_state_persistence_failure (snapshot : WorkspaceSnapshotV1) now state
    : result LocalRunStateV1 LocalRunDirectoryError :=
  let? current := current_attempt_mut state in
  let '(earlier, attempt) := current in
  if attempt_is_terminal (la_state attempt) then Ok state
  else
    let? settled_at := now in
    let settled := settle_interrupted_attempt attempt StatePersistenceFailure (bool_decide (is_Some (la_started_at attempt)))
                     (Some snapshot) settled_at in
    append_diagnostic (set_attempts state (ls_current_attempt_number state) (earlier ++ [settled])) (ls_current_attempt_number state)
      DiagnosticStatePersistenceFailure.

(** [initial_state]: the first attempt is fresh. *)
Definition initial_run_state (start : ContinuationStart) (run : LocalRunV1) (local_run_id created_at : string)
    : result LocalRunStateV1 LocalRunDirectoryError :=
  let? attempt := fresh_attempt start 1 AttemptInitial None (attempt_definition_for_run run) created_at in
  Ok {| ls_schema_version := 1; ls_local_run_id := local_run_id; ls_revision := 1; ls_current_attempt_number := 1;
        ls_attempts := [attempt]; ls_diagnostics := [] |}.
End updates.
