(* ===== verification/Settlement.v ===== *)
(** * Settling an attempt that was abandoned

    What the checks of an attempt consist of, and what they say after the
    attempt was settled because its owner is gone: they pass, unless an
    invocation of the attempt is recorded as active, which a terminal attempt
    may not have. *)

From S2P Require Import Prelude Text Nodes Evidence Document Validated Validation Failures Capacity Runtime RunTiming Results Publication SchemaCommon ResultMetadata RunResults Continuation Attempts AttemptChecks.

Local Open Scope list_scope.

(** ** Checked attempts *)

Section checked.
Context `{!TimeLibrary, !MediaTypes}.

Lemma validate_attempts_spec index number attempts :
  validate_attempts index number attempts = Ok tt ↔
  ∀ i a, attempts !! i = Some a → validate_attempt index a (number + N.of_nat i) = Ok tt.
Proof.
  revert number. induction attempts as [|a attempts IH]; intros number; simpl; [by split|]. split.
  - destruct (validate_attempt index a number) as [()|] eqn:E; [|done]. simpl. rewrite IH. intros Hall [|i] b Hb.
    + injection Hb as <-. by rewrite N.add_0_r.
    + specialize (Hall i b Hb). by replace (number + N.of_nat (S i))%N with (number + 1 + N.of_nat i)%N by lia.
  - intros Hall. pose proof (Hall 0 a eq_refl) as Ha. rewrite N.add_0_r in Ha. rewrite Ha. simpl. apply IH. intros i b Hb.
    specialize (Hall (S i) b Hb). by replace (number + 1 + N.of_nat i)%N with (number + N.of_nat (S i))%N by lia.
Qed.

Lemma validate_attempts_app index number l l' :
  validate_attempts index number (l ++ l') =
  let? _ := validate_attempts index number l in validate_attempts index (number + N.of_nat (length l)) l'.
Proof.
  revert number. induction l as [|a l IH]; intros number; cbn -[N.of_nat]; [by rewrite N.add_0_r|].
  destruct (validate_attempt index a number); [|done]. cbn -[N.of_nat]. rewrite IH.
  by replace (number + 1 + N.of_nat (length l))%N with (number + N.of_nat (S (length l)))%N by lia.
Qed.

(** What the checks of the steps of an attempt say of each. *)
Record step_checked (attempt : LocalAttemptV1) (step : AttemptStepV1) : Prop := {
  sc_id : str_is_empty (ast_id step) = false;
  sc_role : ast_role step = AttemptStep;
  sc_detail : attempt_step_detail_valid (ast_role step) (ast_state step) (ast_detail step) = true;
  sc_outputs : retained_output_set_valid (ast_role step) (ast_id step) (ast_state step) (ast_outputs step)
    (bool_decide (is_Some (la_definition attempt))) = true;
  sc_recovery : bool_decide (ast_state step = AttemptInherited) && bool_decide (is_Some (ast_recovery step)) = false;
  sc_cancellation : match ast_detail step with
    | Some (DetailCancellation detail) =>
        negb (ordinary_node_cancellation_matches (cancellation_reason (cd_code detail)) (acn_reason <$> la_cancellation attempt)
                ForceAbortReasonV1 (first_phase_of_run ∘ fae_phase <$> la_force_abort attempt))
    | _ => false
    end = false
}.

Lemma validate_attempt_step_spec attempt step ids ids' :
  validate_attempt_step attempt step ids = Ok ids' ↔
  ast_id step ∉ ids ∧ ids' = {[ ast_id step ]} ∪ ids ∧ step_checked attempt step.
Proof.
  unfold validate_attempt_step. split.
  - destruct (str_is_empty (ast_id step)) eqn:Hid; [done|]. case_bool_decide as Hrole; [|done]. simpl.
    case_bool_decide as Hnew; [done|]. destruct (attempt_step_detail_valid _ _ _) eqn:Hd; [|done]. simpl.
    destruct (retained_output_set_valid _ _ _ _ _) eqn:Ho; [|done]. simpl. destruct (_ && _) eqn:Hr; [done|].
    destruct (match ast_detail step with Some _ => _ | None => _ end) eqn:Hc; [done|]. intros [= <-]. by split_and!.
  - intros (Hnew & -> & [Hid Hrole Hd Ho Hr Hc]). rewrite Hid. rewrite (bool_decide_true (ast_role step = AttemptStep)) by done. simpl.
    rewrite (bool_decide_false (ast_id step ∈ ids)) by done. by rewrite Hd, Ho, Hr, Hc.
Qed.

Lemma validate_attempt_steps_spec attempt steps ids :
  (∃ ids', validate_attempt_steps attempt steps ids = Ok ids') ↔
  NoDup (ast_id <$> steps) ∧ ∀ step, step ∈ steps → ast_id step ∉ ids ∧ step_checked attempt step.
Proof.
  revert ids. induction steps as [|s steps IH]; intros ids; simpl; [split; [split; [constructor|set_solver]|by eexists]|]. split.
  - intros [ids' Hok]. destruct (validate_attempt_step attempt s ids) as [next|] eqn:E; [|done]. simpl in Hok.
    apply validate_attempt_step_spec in E as (Hnew & -> & Hs). destruct (proj1 (IH ({[ast_id s]} ∪ ids))) as [Hnd Hall]; [by eexists|].
    split; [constructor; [|done]|].
    + intros (s' & Heq & Hin)%list_elem_of_fmap. destruct (Hall s' Hin) as [Hno _]. set_solver.
    + intros step [->|Hin]%elem_of_cons; [done|]. destruct (Hall step Hin). set_solver.
  - intros [[Hnin Hnd]%NoDup_cons Hall]. destruct (Hall s) as [Hnew Hs]; [by left|].
    rewrite (proj2 (validate_attempt_step_spec attempt s ids _)) by done. simpl. apply IH. split; [done|]. intros step Hin.
    destruct (Hall step) as [Hno Hchecked]; [by right|]. split; [|done].
    intros [Heq%elem_of_singleton|?]%elem_of_union; [|done]. apply Hnin. rewrite <-Heq. by apply list_elem_of_fmap_2.
Qed.

(** Everything that is checked of an attempt; the identifiers are those of its
    steps and of all its nodes. *)
Record attempt_checked (index : LocalRunStateIndex) (attempt : LocalAttemptV1) (number : N) (step_ids node_ids : gset string) : Prop := {
  ck_identity : validate_attempt_identity attempt number = Ok tt;
  ck_timeline : validate_attempt_timeline attempt = Ok tt;
  ck_definition : validate_attempt_definition attempt = Ok tt;
  ck_start : validate_attempt_start attempt = Ok tt;
  ck_cancellation : validate_attempt_cancellation attempt = Ok tt;
  ck_outcome : validate_attempt_outcome attempt = Ok tt;
  ck_steps : validate_attempt_steps attempt (la_steps attempt) ∅ = Ok step_ids;
  ck_continuation : validate_attempt_continuation index attempt = Ok tt;
  ck_finalization : validate_attempt_finalization attempt step_ids = Ok node_ids;
  ck_recovery : validate_attempt_recovery attempt node_ids = Ok tt;
  ck_actions : validate_attempt_actions attempt = Ok tt;
  ck_guards : validate_attempt_guards attempt node_ids = Ok tt;
  ck_result : validate_attempt_result attempt = Ok tt
}.

Lemma validate_attempt_spec index attempt number :
  validate_attempt index attempt number = Ok tt ↔ ∃ step_ids node_ids, attempt_checked index attempt number step_ids node_ids.
Proof.
  unfold validate_attempt. split.
  - intros ([] & H1 & ([] & H2 & ([] & H3 & ([] & H4 & ([] & H5 & ([] & H6 & (sids & H7 & ([] & H8 & (nids & H9 & ([] & H10 &
      ([] & H11 & ([] & H12 & H13)%result_bind_Ok)%result_bind_Ok)%result_bind_Ok)%result_bind_Ok)%result_bind_Ok)%result_bind_Ok
      )%result_bind_Ok)%result_bind_Ok)%result_bind_Ok)%result_bind_Ok)%result_bind_Ok)%result_bind_Ok.
    exists sids, nids. by split.
  - intros (sids & nids & [-> -> -> -> -> -> -> -> Hf Hr -> Hg ->]). simpl. rewrite Hf. simpl. rewrite Hr. simpl. by rewrite Hg.
Qed.

Lemma attempt_steps_checked index attempt number step_ids node_ids :
  attempt_checked index attempt number step_ids node_ids →
  NoDup (ast_id <$> la_steps attempt) ∧ ∀ step, step ∈ la_steps attempt → step_checked attempt step.
Proof.
  intros Hck. destruct (proj1 (validate_attempt_steps_spec attempt (la_steps attempt) ∅)) as [Hnd Hall].
  - eexists. by apply Hck.
  - split; [done|]. intros step Hs. by apply Hall.
Qed.

(** The outputs of a step that passed have distinct names, and what a
    producer says of them is true. *)
Lemma retained_outputs_checked role node names outputs :
  retained_outputs_valid role node names outputs = true ↔
  NoDup (retained_name <$> outputs)
  ∧ ∀ output, output ∈ outputs → retained_name output ∉ names ∧ is_identifier (retained_name output) = true
      ∧ retained_output_valid role node output = true.
Proof.
  revert names. induction outputs as [|o outputs IH]; intros names; simpl; [split; [split; [constructor|set_solver]|done]|].
  rewrite !andb_true_iff, IH, negb_true_iff, bool_decide_eq_false. split.
  - intros [[[Hid Hno] Hv] [Hnd Hall]]. split.
    + constructor; [|done]. intros (o' & Heq & Hin)%list_elem_of_fmap. destruct (Hall o' Hin) as [? _]. set_solver.
    + intros output [->|Hin]%elem_of_cons; [done|]. destruct (Hall output Hin) as (? & ? & ?). set_solver.
  - intros [[Hnin Hnd]%NoDup_cons Hall]. destruct (Hall o) as (Hno & Hid & Hv); [by left|]. split_and!; try done.
    intros output Hin. destruct (Hall output) as (? & ? & ?); [by right|]. split_and!; try done.
    intros [Heq%elem_of_singleton|?]%elem_of_union; [|done]. apply Hnin. rewrite <-Heq. by apply list_elem_of_fmap_2.
Qed.
End checked.


Lemma option_all_impl {A} (P Q : A → bool) (o : option A) :
  option_all P o = true → (∀ x, P x = true → Q x = true) → option_all Q o = true.
Proof. destruct o; simpl; auto. Qed.

(** ** What the checks of nodes read of an attempt *)

Section same_nodes.
Context `{!TimeLibrary, !MediaTypes} (a b : LocalAttemptV1).
Hypothesis Hroles : ∀ id, attempt_node_role a id = attempt_node_role b id.

Lemma validate_invocations_same step_ids previous invocations :
  validate_invocations a step_ids previous invocations = validate_invocations b step_ids previous invocations.
Proof.
  revert previous. induction invocations as [|i invocations IH]; intros previous; simpl; [done|].
  unfold invocation_valid. rewrite Hroles. repeat (case_match; [done|]). apply IH.
Qed.

(** The states of the guards are not checked. *)
Lemma validate_guards_same step_ids guard_ids guards guards' :
  guards' = guards ∨ guards' = quiesce_guard <$> guards →
  validate_guards a step_ids guard_ids guards' = validate_guards b step_ids guard_ids guards.
Proof.
  revert guard_ids guards'. induction guards as [|g guards IH]; intros guard_ids guards' [-> | ->]; simpl; [done..| |];
    rewrite Hroles; repeat (case_match; [done|]); apply IH; auto.
Qed.

Hypothesis Hsame : la_definition a = la_definition b ∧ la_cancellation a = la_cancellation b ∧ la_force_abort a = la_force_abort b.

Lemma validate_attempt_steps_same steps step_ids : validate_attempt_steps a steps step_ids = validate_attempt_steps b steps step_ids.
Proof.
  destruct Hsame as (Hd & Hc & Hf). revert step_ids. induction steps as [|s steps IH]; intros step_ids; simpl; [done|].
  assert (Hs : validate_attempt_step a s step_ids = validate_attempt_step b s step_ids).
  { unfold validate_attempt_step. by rewrite Hd, Hc, Hf. }
  rewrite Hs. destruct (validate_attempt_step b s step_ids); [apply IH|done].
Qed.

Hypothesis Hinvocations : apr_invocations (la_progress a) = apr_invocations (la_progress b).

Lemma validate_recoveries_same steps : validate_recoveries a steps = validate_recoveries b steps.
Proof.
  induction steps as [|s steps IH]; simpl; [done|]. destruct (ast_recovery s) as [recovery|]; [|done].
  assert (Ha : ∀ active, recovery_active_valid a s active = recovery_active_valid b s active).
  { intros active. unfold recovery_active_valid. by rewrite Hinvocations. }
  assert (Ho : option_all (recovery_active_valid a s) (dsr_active recovery) = option_all (recovery_active_valid b s) (dsr_active recovery)).
  { unfold option_all. case_match; [apply Ha|done]. }
  rewrite Ho, IH. done.
Qed.
End same_nodes.

(** ** The attempt of an owner that is gone *)

Section abandoned.
Context `{!TimeLibrary, !MediaTypes} (index : LocalRunStateIndex) (a : LocalAttemptV1) (number : N) (step_ids node_ids : gset string).
Context (snapshot : WorkspaceSnapshotV1) (settled_at : string).
Hypothesis Hchecked : attempt_checked index a number step_ids node_ids.
Hypothesis Hopen : attempt_is_terminal (la_state a) = false.
Hypothesis Hsnapshot : snapshot_validate snapshot true = true.
Hypothesis Htime : valid_timestamp settled_at = true.

Local Abbreviation b := (settle_lost_owner a snapshot settled_at).

Lemma settled_roles id : attempt_node_role b id = attempt_node_role a id.
Proof. done. Qed.

Lemma settled_timeline : validate_attempt_timeline b = Ok tt.
Proof.
  pose proof (ck_timeline _ _ _ _ _ Hchecked) as Ht. unfold validate_attempt_timeline in *. simpl.
  destruct (negb (valid_timestamp (la_created_at a))); [done|]. destruct (negb (option_all valid_timestamp (la_started_at a))); [done|].
  by rewrite Htime.
Qed.

Lemma settled_definition : validate_attempt_definition b = Ok tt.
Proof.
  pose proof (ck_definition _ _ _ _ _ Hchecked) as Hd. unfold validate_attempt_definition in *. simpl in *.
  destruct (negb (option_all _ (la_definition a))); [done|]. rewrite Hsnapshot. simpl.
  destruct (match la_settlement_snapshot a with Some _ => _ | None => _ end); [done|]. exact Hd.
Qed.

Lemma settled_start : validate_attempt_start b = Ok tt.
Proof. unfold validate_attempt_start. simpl. by destruct (bool_decide _). Qed.

Lemma settled_cancellation : validate_attempt_cancellation b = Ok tt.
Proof.
  pose proof (ck_cancellation _ _ _ _ _ Hchecked) as Hc. unfold validate_attempt_cancellation in *.
  assert (Hreq : attempt_cancellation_requested b = attempt_cancellation_requested a) by done. rewrite Hreq. clear Hreq. simpl in *.
  destruct (negb (option_all _ (la_cancellation a))); [done|].
  destruct (option_all _ (la_force_abort a)) eqn:Hf in Hc; [|done]. simpl in Hc. destruct (_ && _) in Hc; [done|].
  destruct (option_all _ (la_cancellation a)) eqn:Hcn in Hc; [|done]. clear Hc.
  rewrite (option_all_impl _ _ _ Hf).
  - rewrite (option_all_impl _ _ _ Hcn); [|by intros c; destruct (la_state a)]. simpl. by rewrite eqb_reflx.
  - intros f. rewrite !andb_true_iff. tauto.
Qed.

Lemma settled_outcome : validate_attempt_outcome b = Ok tt.
Proof.
  pose proof (ck_outcome _ _ _ _ _ Hchecked) as Ho. unfold validate_attempt_outcome in *. simpl.
  destruct (negb _) in Ho; [done|]. by destruct (la_state a), (la_rejection a).
Qed.

Lemma settled_finalization : validate_attempt_finalization b step_ids = Ok node_ids.
Proof.
  pose proof (ck_finalization _ _ _ _ _ Hchecked) as Hf. unfold validate_attempt_finalization in *. simpl.
  destruct (la_finalization a) as [[progress|complete]|]; [..|done].
  - destruct (negb _); [done|]. destruct (if _ || _ then _ else _); [|done]. destruct (la_state a); try done; by destruct (negb _).
  - assert (Hr : reached_outcome (la_state a) = false) by by destruct (la_state a). rewrite Hr, orb_true_r in Hf. by destruct (negb _).
Qed.

Lemma settled_recovery :
  validate_attempt_recovery b node_ids =
  if existsb is_active_invocation (apr_invocations (la_progress a)) then Err AttemptRecoveryInvocationInvalid else Ok tt.
Proof.
  pose proof (ck_recovery _ _ _ _ _ Hchecked) as Hr. unfold validate_attempt_recovery in *. simpl.
  rewrite (validate_invocations_same b a settled_roles), (validate_recoveries_same b a eq_refl). rewrite Hopen in Hr. simpl in Hr.
  destruct (_ || _); [done|]. destruct (validate_invocations a _ _ _); [|done]. cbn [result_bind] in *.
  destruct (existsb _ _); [done|]. exact Hr.
Qed.

Lemma settled_actions : validate_attempt_actions b = Ok tt.
Proof. done. Qed.

Lemma settled_guards : validate_attempt_guards b node_ids = Ok tt.
Proof.
  pose proof (ck_guards _ _ _ _ _ Hchecked) as Hg. unfold validate_attempt_guards in *.
  rewrite <-Hg. apply validate_guards_same; [done|]. by right.
Qed.

(** The checks after settling, in another state: the first that can fail is
    the one for active invocations. *)
Lemma settled_checked index' :
  validate_attempt_continuation index' a = Ok tt →
  validate_attempt index' b number =
  if existsb is_active_invocation (apr_invocations (la_progress a)) then Err AttemptRecoveryInvocationInvalid else Ok tt.
Proof.
  intros Hcont. unfold validate_attempt.
  assert (Hid : validate_attempt_identity b number = Ok tt) by apply (ck_identity _ _ _ _ _ Hchecked).
  assert (Hc : validate_attempt_continuation index' b = Ok tt) by exact Hcont.
  assert (Hsteps : validate_attempt_steps b (la_steps b) ∅ = Ok step_ids).
  { rewrite (validate_attempt_steps_same b a) by done. apply (ck_steps _ _ _ _ _ Hchecked). }
  rewrite Hid, settled_timeline, settled_definition, settled_start, settled_cancellation, settled_outcome, Hsteps, Hc. cbn [result_bind].
  rewrite settled_finalization. cbn [result_bind]. rewrite settled_recovery. destruct (existsb _ _); [done|]. cbn [result_bind].
  rewrite settled_actions. cbn [result_bind]. by rewrite settled_guards.
Qed.
End abandoned.
