(* ===== verification/Inheritance.v ===== *)
(** * The index over attempts and the steps of a continuation

    The index of a state says for every step whether it succeeded or was
    skipped, following inherited steps to where they were executed; it depends
    only on the numbers and the steps of the attempts.  [begin] writes an
    attempt whose steps are the order of presentation, the inherited ones
    taken from the attempt before. *)

From S2P Require Import Prelude Text Nodes Evidence Document Validated Validation Failures Capacity Runtime RunTiming Results SchemaCommon ResultMetadata RunResults Continuation Partitions Attempts.

Local Open Scope list_scope.

(** ** Finding *)

Lemma find_step_Some steps id step : find_step steps id = Some step → step ∈ steps ∧ ast_id step = id.
Proof.
  unfold find_step. induction steps as [|s steps IH]; simpl; [done|]. case_decide; [intros [= <-]; set_solver|].
  intros [? ?]%IH. set_solver.
Qed.

Lemma find_step_NoDup steps step : NoDup (ast_id <$> steps) → step ∈ steps → find_step steps (ast_id step) = Some step.
Proof.
  unfold find_step. induction steps as [|s steps IH]; simpl; [set_solver|]. intros [Hnin Hnd]%NoDup_cons [->|Hin]%elem_of_cons.
  - by rewrite decide_True.
  - rewrite decide_False; [by apply IH|]. intros Heq. apply Hnin. rewrite Heq. by apply list_elem_of_fmap_2.
Qed.

Lemma find_output_Some outputs name output : find_output outputs name = Some output → output ∈ outputs ∧ retained_name output = name.
Proof.
  unfold find_output. induction outputs as [|o outputs IH]; simpl; [done|]. case_decide; [intros [= <-]; set_solver|].
  intros [? ?]%IH. set_solver.
Qed.

Lemma find_output_NoDup outputs output :
  NoDup (retained_name <$> outputs) → output ∈ outputs → find_output outputs (retained_name output) = Some output.
Proof.
  unfold find_output. induction outputs as [|o outputs IH]; simpl; [set_solver|]. intros [Hnin Hnd]%NoDup_cons [->|Hin]%elem_of_cons.
  - by rewrite decide_True.
  - rewrite decide_False; [by apply IH|]. intros Heq. apply Hnin. rewrite Heq. by apply list_elem_of_fmap_2.
Qed.

Lemma retained_name_set output producer : retained_name (set_producer output producer) = retained_name output.
Proof. by destruct output. Qed.

Lemma retained_producer_set output producer : retained_producer (set_producer output producer) = Some producer.
Proof. by destruct output. Qed.

Lemma set_producer_set output p q : set_producer (set_producer output p) q = set_producer output q.
Proof. by destruct output. Qed.

Lemma declaration_set output producer declared :
  retained_output_matches_declaration (set_producer output producer) declared = retained_output_matches_declaration output declared.
Proof. by destruct output. Qed.

(** ** The index *)

Lemma index_steps_spec steps m m' :
  index_steps steps m = Ok m' →
  NoDup (ast_id <$> steps) ∧ (∀ s, s ∈ steps → bt_get m (ast_id s) = None)
  ∧ ∀ id, bt_get m' id = match find_step steps id with Some s => Some s | None => bt_get m id end.
Proof.
  revert m. induction steps as [|s steps IH]; intros m; simpl; [intros [= <-]; split_and!; [constructor|set_solver|done]|].
  unfold bt_contains_key. destruct (decide (is_Some (bt_get m (ast_id s)))) as [Hs|Hs]; [by rewrite bool_decide_true|].
  rewrite bool_decide_false by done. intros (Hnd & Hnone & Hget)%IH. apply eq_None_not_Some in Hs.
  assert (Hnin : ast_id s ∉ ast_id <$> steps).
  { intros (s' & Heq & Hin)%list_elem_of_fmap. specialize (Hnone s' Hin). rewrite <-Heq, bt_get_insert_eq in Hnone. done. }
  split_and!.
  - by constructor.
  - intros s' [->|Hin]%elem_of_cons; [done|]. specialize (Hnone s' Hin).
    destruct (decide (ast_id s' = ast_id s)) as [Heq|Hne]; [by rewrite Heq|]. by rewrite bt_get_insert_ne in Hnone.
  - intros id. rewrite Hget. unfold find_step. simpl. fold (find_step steps id). case_decide as Heq.
    + subst. destruct (find_step steps (ast_id s)) as [s'|] eqn:E; [|by rewrite bt_get_insert_eq].
      apply find_step_Some in E as [Hin Heq]. exfalso. apply Hnin. rewrite <-Heq. by apply list_elem_of_fmap_2.
    + destruct (find_step steps id); [done|]. by rewrite bt_get_insert_ne.
Qed.

(** The dispositions of the steps of one attempt. *)
Lemma index_dispositions_spec dispositions index steps m m' :
  NoDup (ast_id <$> steps) → index_dispositions dispositions index steps m = Ok m' →
  (∀ s, s ∈ steps → ∃ d, step_disposition dispositions index s = Ok d)
  ∧ ∀ id, bt_get m' id =
      match find_step steps id with
      | Some s => match step_disposition dispositions index s with Ok (Some d) => Some d | _ => bt_get m id end
      | None => bt_get m id
      end.
Proof.
  revert m. induction steps as [|s steps IH]; intros m Hnd; simpl; [intros [= <-]; split; [set_solver|done]|].
  apply NoDup_cons in Hnd as [Hnin Hnd]. destruct (step_disposition dispositions index s) as [d|e] eqn:Ed; [|done]. simpl.
  intros [Hall Hget]%IH; [|done]. split; [intros s' [->|Hin]%elem_of_cons; eauto|]. intros id. rewrite Hget. unfold find_step. simpl.
  fold (find_step steps id). case_decide as Heq.
  - subst. destruct (find_step steps (ast_id s)) as [s'|] eqn:E.
    { apply find_step_Some in E as [Hin Heq]. exfalso. apply Hnin. rewrite <-Heq. by apply list_elem_of_fmap_2. }
    rewrite Ed. destruct d; [by rewrite bt_get_insert_eq|done].
  - assert (Hsame : bt_get (match d with Some d => bt_insert m (ast_id s) d | None => m end) id = bt_get m id)
      by (destruct d; [by rewrite bt_get_insert_ne|done]).
    rewrite Hsame. done.
Qed.

Lemma index_dispositions_Ok dispositions index steps m :
  (∀ s, s ∈ steps → ∃ d, step_disposition dispositions index s = Ok d) → ∃ m', index_dispositions dispositions index steps m = Ok m'.
Proof.
  revert m. induction steps as [|s steps IH]; intros m Hall; simpl; [by eexists|].
  destruct (Hall s) as [d ->]; [set_solver|]. simpl. apply IH. set_solver.
Qed.

Lemma index_steps_Ok steps m :
  NoDup (ast_id <$> steps) → (∀ s, s ∈ steps → bt_get m (ast_id s) = None) → ∃ m', index_steps steps m = Ok m'.
Proof.
  revert m. induction steps as [|s steps IH]; intros m Hnd Hnone; simpl; [by eexists|]. apply NoDup_cons in Hnd as [Hnin Hnd].
  unfold bt_contains_key. rewrite bool_decide_false by (rewrite Hnone by set_solver; by intros [? ?]). apply IH; [done|].
  intros s' Hin. rewrite bt_get_insert_ne; [apply Hnone; set_solver|]. intros Heq. apply Hnin. rewrite <-Heq. by apply list_elem_of_fmap_2.
Qed.

(** Attempts that show the same to the index. *)
Definition same_index (a b : LocalAttemptV1) : Prop := la_attempt_number a = la_attempt_number b ∧ la_steps a = la_steps b.

Lemma index_attempts_same l l' i steps dispositions :
  Forall2 same_index l l' → index_attempts i l steps dispositions = index_attempts i l' steps dispositions.
Proof.
  intros Hl. revert i steps dispositions. induction Hl as [|a b l l' [Hn Hs] _ IH]; intros i steps dispositions; simpl; [done|].
  rewrite Hn, Hs. destruct (negb _); [done|]. destruct (index_steps _ _); [|done]. simpl. destruct (index_dispositions _ _ _ _); [|done].
  simpl. apply IH.
Qed.

Lemma index_attempts_app l l' i steps dispositions :
  index_attempts i (l ++ l') steps dispositions =
  result_bind (index_attempts i l steps dispositions) (λ indexed, index_attempts (i + length l) l' indexed.1 indexed.2).
Proof.
  revert i steps dispositions. induction l as [|a l IH]; intros i steps dispositions; simpl; [by rewrite Nat.add_0_r|].
  destruct (negb _); [done|]. destruct (index_steps _ _); [|done]. simpl. destruct (index_dispositions _ _ _ _); [|done]. simpl.
  rewrite IH. by rewrite Nat.add_succ_r.
Qed.

(** What an index holds of the attempt at a position. *)
Record indexed_at (dispositions : list (btree InheritedDisposition)) (i : nat) (a : LocalAttemptV1)
    (steps : btree AttemptStepV1) (found : btree InheritedDisposition) : Prop := {
  ia_number : la_attempt_number a = (N.of_nat i + 1)%N;
  ia_ids : NoDup (ast_id <$> la_steps a);
  ia_steps : ∀ id, bt_get steps id = find_step (la_steps a) id;
  ia_all : ∀ s, s ∈ la_steps a → ∃ d, step_disposition (take i dispositions) i s = Ok d;
  ia_dispositions : ∀ id, bt_get found id =
    s ← find_step (la_steps a) id; match step_disposition (take i dispositions) i s with Ok d => d | Err _ => None end
}.

Lemma index_attempts_spec l i steps dispositions steps' dispositions' :
  length steps = i → length dispositions = i → index_attempts i l steps dispositions = Ok (steps', dispositions') →
  length steps' = i + length l ∧ length dispositions' = i + length l
  ∧ steps `prefix_of` steps' ∧ dispositions `prefix_of` dispositions'
  ∧ ∀ k a, l !! k = Some a → ∃ m d, steps' !! (i + k) = Some m ∧ dispositions' !! (i + k) = Some d
      ∧ indexed_at dispositions' (i + k) a m d.
Proof.
  revert i steps dispositions. induction l as [|a l IH]; intros i steps dispositions Hs Hd; simpl.
  { intros [= <- <-]. rewrite Nat.add_0_r. split_and!; done. }
  destruct (negb _) eqn:En; [done|]. apply negb_false_iff, N.eqb_eq in En.
  destruct (index_steps (la_steps a) []) as [m|] eqn:Em; [|done]. simpl.
  destruct (index_dispositions dispositions i (la_steps a) []) as [d|] eqn:Ed; [|done]. simpl.
  intros (Hls & Hld & Hps & Hpd & Hall)%IH; [|rewrite length_app; simpl; lia..].
  split_and!; [lia..|by etrans; [apply prefix_app_r|]|by etrans; [apply prefix_app_r|]|].
  intros [|k] b; simpl.
  - intros [= <-]. rewrite Nat.add_0_r. exists m, d. apply index_steps_spec in Em as (Hnd & _ & Hget).
    pose proof Ed as (Hok & Hget')%index_dispositions_spec; [|done].
    assert (Htake : take i dispositions' = dispositions).
    { destruct Hpd as [k ->]. rewrite <-app_assoc, take_app_length'; done. }
    split_and!.
    + eapply prefix_lookup_Some; [|exact Hps]. rewrite lookup_app_r by lia. by rewrite Hs, Nat.sub_diag.
    + eapply prefix_lookup_Some; [|exact Hpd]. rewrite lookup_app_r by lia. by rewrite Hd, Nat.sub_diag.
    + split; [done|done|intros id; rewrite Hget; simpl; by destruct (find_step _ _)|by rewrite Htake|].
      intros id. rewrite Hget', Htake. destruct (find_step _ id) as [s|]; simpl; [|done]. by destruct (step_disposition _ _ s) as [[]|].
  - intros Hk. destruct (Hall k b Hk) as (m' & d' & Hm & Hd' & Hix). rewrite <-Nat.add_succ_comm. eauto.
Qed.

(** *** A state and its index *)

Section indexed.
Context (state : LocalRunStateV1) (index : LocalRunStateIndex).
Hypothesis Hindex : state_index_new state = Ok index.

Lemma index_at i a :
  ls_attempts state !! i = Some a →
  ∃ m d, ix_steps index !! i = Some m ∧ ix_dispositions index !! i = Some d ∧ indexed_at (ix_dispositions index) i a m d.
Proof.
  unfold state_index_new in Hindex. destruct (index_attempts 0 (ls_attempts state) [] []) as [[steps dispositions]|] eqn:E; [|done].
  injection Hindex as <-. simpl. apply index_attempts_spec in E as (_ & _ & _ & _ & Hall); [|done..]. apply Hall.
Qed.

Lemma index_attempts_eq : ix_attempts index = ls_attempts state.
Proof. unfold state_index_new in Hindex. destruct (index_attempts _ _ _ _) as [[]|]; [|done]. by injection Hindex as <-. Qed.

Lemma attempt_index_number i : state_attempt_index (N.of_nat i + 1) = Some i.
Proof. unfold state_attempt_index. rewrite (proj2 (N.eqb_neq _ _)) by lia. f_equal. lia. Qed.

Lemma state_attempt_index_Some n i : state_attempt_index n = Some i → n = (N.of_nat i + 1)%N.
Proof. unfold state_attempt_index. destruct (N.eqb_spec n 0); [done|]. intros [= <-]. lia. Qed.

Lemma index_attempt_at i a : ls_attempts state !! i = Some a → index_attempt index (la_attempt_number a) = Some a.
Proof.
  intros Ha. destruct (index_at i a Ha) as (m & d & _ & _ & Hix). unfold index_attempt. rewrite (ia_number _ _ _ _ _ Hix), attempt_index_number.
  cbn. rewrite index_attempts_eq, Ha. cbn. by rewrite (ia_number _ _ _ _ _ Hix), N.eqb_refl.
Qed.

Lemma index_attempt_Some n a :
  index_attempt index n = Some a → la_attempt_number a = n ∧ ∃ i, state_attempt_index n = Some i ∧ ls_attempts state !! i = Some a.
Proof.
  unfold index_attempt. destruct (state_attempt_index n) as [i|] eqn:Ei; [|done]. cbn. rewrite index_attempts_eq.
  destruct (ls_attempts state !! i) as [b|] eqn:Eb; [|done]. cbn. destruct (N.eqb_spec (la_attempt_number b) n); [|done].
  intros [= ->]. eauto.
Qed.

Lemma index_step_at i a id : ls_attempts state !! i = Some a → index_step index (la_attempt_number a) id = find_step (la_steps a) id.
Proof.
  intros Ha. destruct (index_at i a Ha) as (m & d & Hm & _ & Hix). unfold index_step.
  rewrite (ia_number _ _ _ _ _ Hix), attempt_index_number. cbn. rewrite Hm. cbn. apply Hix.
Qed.

(** The disposition of a step: of its own, or the one it had in the attempt
    it was inherited from. *)
Lemma index_disposition_at i a id :
  ls_attempts state !! i = Some a →
  index_disposition index (la_attempt_number a) id =
    s ← find_step (la_steps a) id;
    match ast_state s with
    | AttemptSucceeded => Some InhSucceeded
    | AttemptSkipped => Some InhSkipped
    | AttemptInherited =>
        match ast_detail s with
        | Some (DetailInherited detail) => index_disposition index (id_prior_attempt_number detail) id
        | _ => None
        end
    | _ => None
    end.
Proof.
  intros Ha. destruct (index_at i a Ha) as (m & d & _ & Hd & Hix). unfold index_disposition at 1.
  rewrite (ia_number _ _ _ _ _ Hix), attempt_index_number. cbn. rewrite Hd. cbn. rewrite (ia_dispositions _ _ _ _ _ Hix).
  destruct (find_step (la_steps a) id) as [s|] eqn:Es; [|done]. cbn. apply find_step_Some in Es as [Hin Hid].
  destruct (ia_all _ _ _ _ _ Hix s Hin) as [o Ho]. rewrite Ho. unfold step_disposition in Ho.
  destruct (ast_state s); try congruence. destruct (ast_detail s) as [[]|]; try done. unfold index_disposition.
  destruct (state_attempt_index (id_prior_attempt_number detail)) as [j|]; [|done]. cbn. case_decide as Hj; [|done].
  rewrite lookup_take in Ho. rewrite decide_True in Ho by done. rewrite Hid in Ho.
  destruct (dispositions ← ix_dispositions index !! j; bt_get dispositions id); by simplify_eq.
Qed.

(** Inherited steps have the disposition of a step that was not. *)
Lemma inherited_disposition i a s :
  ls_attempts state !! i = Some a → s ∈ la_steps a → ast_state s = AttemptInherited →
  ∃ detail j, ast_detail s = Some (DetailInherited detail) ∧ state_attempt_index (id_prior_attempt_number detail) = Some j
    ∧ j < i ∧ is_Some (index_disposition index (la_attempt_number a) (ast_id s)).
Proof.
  intros Ha Hin Hs. destruct (index_at i a Ha) as (m & d & _ & Hd & Hix). destruct (ia_all _ _ _ _ _ Hix s Hin) as [o Ho].
  assert (Hget : index_disposition index (la_attempt_number a) (ast_id s) = o).
  { unfold index_disposition. rewrite (ia_number _ _ _ _ _ Hix), attempt_index_number. cbn. rewrite Hd. cbn.
    rewrite (ia_dispositions _ _ _ _ _ Hix), (find_step_NoDup _ _ (ia_ids _ _ _ _ _ Hix) Hin). cbn. by rewrite Ho. }
  rewrite Hget. unfold step_disposition in Ho. rewrite Hs in Ho. destruct (ast_detail s) as [[]|]; try done.
  destruct (state_attempt_index (id_prior_attempt_number detail)) as [j|] eqn:Ej; [|done]. case_decide as Hj; [|done].
  exists detail, j. split_and!; [done..|]. destruct (prior ← _; _) in Ho; [|done]. injection Ho as <-. by eexists.
Qed.
End indexed.

(** ** The steps of a continuation *)

Lemma inherit_into_spec prior entry original steps steps' :
  NoDup (ast_id <$> steps) → inherit_into prior entry original steps = Some steps' →
  ast_id <$> steps' = ast_id <$> steps
  ∧ ∀ step, step ∈ steps' →
      (step ∈ steps ∧ ast_id step ≠ cis_id entry)
      ∨ ∃ fresh, fresh ∈ steps ∧ ast_id fresh = cis_id entry ∧ inherit_step prior entry original fresh = Some step.
Proof.
  revert steps'. induction steps as [|s steps IH]; intros steps' Hnd; simpl; [done|]. apply NoDup_cons in Hnd as [Hnin Hnd].
  case_decide as Hid.
  - destruct (inherit_step prior entry original s) as [s'|] eqn:Es; [|done]. intros [= <-].
    assert (Hsame : ast_id s' = ast_id s).
    { unfold inherit_step in Es. destruct (ast_outputs original); [|done]. by injection Es as <-. }
    split; [by rewrite !fmap_cons, Hsame|]. intros step [->|Hin]%elem_of_cons; [right; exists s; set_solver|]. left. split; [set_solver|].
    intros Heq. apply Hnin. rewrite Hid, <-Heq. by apply list_elem_of_fmap_2.
  - destruct (inherit_into prior entry original steps) as [rest|] eqn:E; [|done]. intros [= <-].
    destruct (IH rest Hnd eq_refl) as [Hids Hall]. split; [by rewrite !fmap_cons, Hids|].
    intros step [->|Hin]%elem_of_cons; [left; set_solver|]. destruct (Hall step Hin) as [[? ?]|(fresh & ? & ?)]; [left|right]; set_solver.
Qed.

Lemma inherit_step_id prior entry original fresh step : inherit_step prior entry original fresh = Some step → ast_id step = ast_id fresh.
Proof. unfold inherit_step. destruct (ast_outputs original); [|done]. by intros [= <-]. Qed.

Lemma inherit_steps_spec prior entries steps steps' :
  NoDup (ast_id <$> steps) → NoDup (cis_id <$> entries.*1) → inherit_steps prior entries steps = Ok steps' →
  ast_id <$> steps' = ast_id <$> steps
  ∧ ∀ step, step ∈ steps' →
      (step ∈ steps ∧ ast_id step ∉ cis_id <$> entries.*1)
      ∨ ∃ entry original fresh, (entry, original) ∈ entries ∧ fresh ∈ steps ∧ ast_id fresh = cis_id entry
          ∧ inherit_step prior entry original fresh = Some step.
Proof.
  revert steps. induction entries as [|[entry original] entries IH]; intros steps Hnd Hent; simpl.
  { intros [= <-]. split; [done|]. intros step Hin. left. set_solver. }
  apply NoDup_cons in Hent as [Hnin Hent].
  destruct (inherit_into prior entry original steps) as [next|] eqn:E; [|done].
  apply inherit_into_spec in E as [Hids Hall]; [|done]. intros [Hids' Hall']%IH; [|by rewrite Hids|done].
  split; [by rewrite Hids', Hids|]. intros step Hin. destruct (Hall' step Hin) as [[Hstep Hno]|(e & o & fresh & He & Hf & Hid & Hs)].
  - destruct (Hall step Hstep) as [[Hold Hne]|(fresh & Hf & Hid & Hs)].
    + left. split; [done|]. simpl. set_solver.
    + right. exists entry, original, fresh. split_and!; [by left|done..].
  - destruct (Hall fresh Hf) as [[Hold Hne]|(fresh0 & _ & Hid0 & Hs0)].
    + right. exists e, o, fresh. split_and!; [by right|done..].
    + exfalso. apply Hnin. change (cis_id entry ∈ cis_id <$> entries.*1). apply inherit_step_id in Hs0. rewrite <-Hid0, <-Hs0, Hid.
      apply list_elem_of_fmap_2. by apply (list_elem_of_fmap_2 fst entries (e, o)).
Qed.

Lemma fresh_steps_spec W order steps :
  fresh_steps W order = Ok steps →
  ast_id <$> steps = order ∧ ∀ step, step ∈ steps → ∃ node, bt_get (vw_steps W) (ast_id step) = Some node
    ∧ step = fresh_progress_node (ast_id step) AttemptStep node.
Proof.
  revert steps. induction order as [|id order IH]; intros steps; simpl; [intros [= <-]; set_solver|].
  destruct (bt_get (vw_steps W) id) as [node|] eqn:E; [|done]. destruct (fresh_steps W order) as [rest|]; [|done]. intros [= <-].
  destruct (IH rest eq_refl) as [Hids Hall]. split; [by rewrite !fmap_cons, Hids|].
  intros step [->|Hin]%elem_of_cons; [by exists node|]. by apply Hall.
Qed.

Lemma inherited_entries_spec prior changes inherited entries :
  inherited_entries prior changes inherited = Ok entries →
  cis_id <$> entries.*1 = inherited
  ∧ ∀ entry original, (entry, original) ∈ entries →
      find_step (la_steps prior) (cis_id entry) = Some original
      ∧ inheritable_state (ast_state original) = Some (cis_prior_state entry)
      ∧ bt_get changes (cis_id entry) = Some (cis_definition_changed entry).
Proof.
  revert entries. induction inherited as [|id inherited IH]; intros entries; simpl; [intros [= <-]; set_solver|].
  unfold inherited_entry. destruct (find_step (la_steps prior) id) as [step|] eqn:Es; [|done]. cbn.
  destruct (inheritable_state (ast_state step)) as [prior_state|] eqn:Ep; [|done]. cbn.
  destruct (bt_get changes id) as [changed|] eqn:Ec; [|done]. cbn.
  destruct (inherited_entries prior changes inherited) as [rest|]; [|done]. intros [= <-].
  destruct (IH rest eq_refl) as [Hids Hall]. split; [by rewrite !fmap_cons, Hids|].
  intros entry original [[= -> ->]|Hin]%elem_of_cons; [done|]. by apply Hall.
Qed.

(** The attempt before, settled at the time the system gave if it was
    abandoned. *)
Definition settled_prior (start : ContinuationStart) (prior : LocalAttemptV1) : LocalAttemptV1 :=
  settle_abandoned start prior (default ""%string (result_ok (cs_settled_at start))).

(** The attempts of a state after [begin]. *)
Definition continues (pending : PendingLocalContinuation) (start : ContinuationStart) (attempt : LocalAttemptV1) (state : LocalRunStateV1)
    : Prop :=
  ∃ earlier prior, ls_attempts (pc_state pending) = earlier ++ [prior] ∧ ls_attempts state = (earlier ++ [settled_prior start prior]) ++ [attempt].

Section begun.
Context `{!TimeLibrary} (pending : PendingLocalContinuation) (from : list string) (start : ContinuationStart).

Local Abbreviation W := (rw_definition (cs_workflow start)).

(** What an attempt [begin] makes consists of. *)
Record begun (attempt prior : LocalAttemptV1) (split : Partition)
    (entries : list (ContinuationInheritedStepV1 * AttemptStepV1)) (definition : AttemptDefinitionV1) : Prop := {
  bg_prior : last (ls_attempts (pc_state pending)) = Some prior;
  bg_split : partition W from = Ok split;
  bg_accepted : continuation_partition (pc_state pending) (rw_definition (pc_prior_workflow pending)) W from
    = Ok (pt_reexecuted split, pt_inherited split);
  bg_entries : inherited_entries prior (definition_changes (cs_workflow start) (pc_prior_workflow pending) (pt_inherited split))
    (pt_inherited split) = Ok entries;
  bg_number : la_attempt_number attempt = (la_attempt_number prior + 1)%N;
  bg_id : cs_attempt_id start = Ok (la_attempt_id attempt);
  bg_trigger : la_trigger attempt = AttemptContinuation;
  bg_before : la_prior_attempt_number attempt = Some (la_attempt_number prior);
  bg_definition : la_definition attempt = Some definition;
  bg_continued : continued_definition pending prior (la_attempt_number attempt) start = Ok definition;
  bg_root : la_execution_root attempt = cs_execution_root start;
  bg_created : la_state attempt = AttemptStateCreated;
  bg_times : cs_created_at start = Ok (la_created_at attempt) ∧ la_started_at attempt = None ∧ la_settled_at attempt = None;
  bg_unsettled : la_settlement_snapshot attempt = None;
  bg_owner : cs_owner_nonce start = Ok (ow_owner_nonce (la_owner attempt))
    ∧ cs_execution_host start = Ok (ow_execution_host (la_owner attempt));
  bg_quiet : la_cancellation attempt = None ∧ la_force_abort attempt = None ∧ la_interruption attempt = None ∧ la_rejection attempt = None
    ∧ la_process_guards attempt = [] ∧ la_result attempt = ResultNotPublished AbsentAttemptNonterminal;
  bg_progress : la_progress attempt =
    {| apr_accepted_occurrence_ordinal := 0; apr_last_transition_sequence := 0; apr_steps := la_steps attempt;
       apr_outstanding_actions := []; apr_invocations := [];
       apr_accounting :=
         {| dia_maximum_invocations := cap_maximum_invocations (cs_capacity start); dia_observed_invocations := 0;
            dia_settled_invocations := 0; dia_input_tokens := 0; dia_output_tokens := 0;
            dia_retained_diagnostic_bytes := 0; dia_discarded_diagnostic_bytes := 0 |} |};
  bg_finalizers : la_finalization attempt = None;
  bg_record : la_continuation attempt = Some (continuation_record pending prior start from (pt_reexecuted split) entries.*1
    (ad_manifest_digest definition));
  bg_fresh : ∃ fresh, fresh_steps W (vw_presentation_order W) = Ok fresh ∧ inherit_steps prior entries fresh = Ok (la_steps attempt)
}.

Lemma continuation_partition_Ok state previous workflow P :
  continuation_partition state previous workflow from = Ok P →
  ∃ split, partition workflow from = Ok split ∧ P = (pt_reexecuted split, pt_inherited split).
Proof.
  unfold continuation_partition. destruct (partition workflow from) as [split|]; [|done]. destruct (last _); [|done].
  destruct (effective_skipped_sources _ _ _ _). case_bool_decide; [|done]. intros [= <-]. eauto.
Qed.

Lemma admitted_continuation P :
  admit_continuation pending from start = Ok P →
  ∃ split, partition W from = Ok split
    ∧ continuation_partition (pc_state pending) (rw_definition (pc_prior_workflow pending)) W from = Ok P
    ∧ P = (pt_reexecuted split, pt_inherited split).
Proof.
  unfold admit_continuation. intros (? & _ & Hk)%result_bind_Ok. destruct (_ || _); [done|].
  destruct (continuation_partition _ _ _ _) as [[reexecuted inherited]|] eqn:Hpart; [|done].
  destruct (continuation_partition_Ok _ _ _ _ Hpart) as (split & Hsplit & Heq). destruct (negb _); [done|]. destruct (negb _); [done|].
  apply result_bind_Ok in Hk as (? & _ & [= <-]). eauto.
Qed.

Lemma begin_attempt_begun attempt :
  begin_attempt pending from start = Ok attempt → ∃ prior split entries definition, begun attempt prior split entries definition.
Proof.
  unfold begin_attempt. intros [[reexecuted inherited] [Hadmit Hk]]%result_bind_Ok.
  apply admitted_continuation in Hadmit as (split & Hsplit & Hpart & [= -> ->]).
  destruct (last (ls_attempts (pc_state pending))) as [prior|] eqn:Hlast; [|done]. cbn [mbind option_bind] in Hk.
  destruct (u64_add (la_attempt_number prior) 1) as [next|] eqn:Hnext; [|done]. cbn [mbind option_bind] in Hk.
  apply checked_add_Some in Hnext as [Hn _]. apply result_bind_Ok in Hk as (? & _ & Hk).
  apply result_bind_Ok in Hk as (definition & Hdef & Hk). apply result_bind_Ok in Hk as (entries & Hent & Hk).
  apply result_bind_Ok in Hk as (created_at & Hcreated & Hk). apply result_bind_Ok in Hk as (fresh & Hfresh & Hk).
  apply result_bind_Ok in Hk as (steps & Hsteps & [= <-]). unfold fresh_attempt in Hfresh.
  apply result_bind_Ok in Hfresh as (plain & Hplain & Hfresh). apply result_bind_Ok in Hfresh as (id & Hid & Hfresh).
  apply result_bind_Ok in Hfresh as (nonce & Hnonce & Hfresh). apply result_bind_Ok in Hfresh as (host & Hhost & [= <-]).
  exists prior, split, entries, definition. split; simpl in *; try done. eauto.
Qed.

(** *** The steps of the attempt *)

(** The outputs an inherited step takes over. *)
Definition taken_outputs (prior : LocalAttemptV1) (original : AttemptStepV1) (id : string) (outputs : list RetainedOutputV1)
    : list RetainedOutputV1 :=
  if decide (ast_state original = AttemptSucceeded)
  then (λ output, set_producer output (output_producer_of prior id (retained_name output))) <$> outputs
  else outputs.

(** A step that was inherited from the attempt before. *)
Record inherits (prior : LocalAttemptV1) (entry : ContinuationInheritedStepV1) (original step : AttemptStepV1) : Prop := {
  ih_id : ast_id step = cis_id entry;
  ih_original : find_step (la_steps prior) (ast_id step) = Some original;
  ih_prior_state : inheritable_state (ast_state original) = Some (cis_prior_state entry);
  ih_outputs : ∃ outputs, ast_outputs original = Some outputs
    ∧ ast_outputs step = Some (taken_outputs prior original (ast_id step) outputs);
  ih_state : ast_state step = AttemptInherited;
  ih_role : ast_role step = AttemptStep;
  ih_detail : ast_detail step = Some (DetailInherited
    {| id_prior_attempt_id := la_attempt_id prior; id_prior_attempt_number := la_attempt_number prior;
       id_prior_state := cis_prior_state entry; id_definition_changed := cis_definition_changed entry |});
  ih_recovery : ast_recovery step = None
}.

Context (attempt prior : LocalAttemptV1) (split : Partition) (entries : list (ContinuationInheritedStepV1 * AttemptStepV1))
  (definition : AttemptDefinitionV1).
Hypothesis Hbegun : begun attempt prior split entries definition.
Hypothesis Horder : NoDup (vw_presentation_order W).

Lemma begun_splits : from ≠ [] ∧ NoDup from ∧ Forall (λ n, is_Some (bt_get (vw_steps W) n)) from ∧ splits W from split.
Proof. pose proof (partition_spec W from) as Hspec. by rewrite (bg_split _ _ _ _ _ Hbegun) in Hspec. Qed.

Lemma begun_ids : ast_id <$> la_steps attempt = vw_presentation_order W.
Proof.
  destruct (bg_fresh _ _ _ _ _ Hbegun) as (fresh & [Hids _]%fresh_steps_spec & Hinh). destruct begun_splits as (_ & _ & _ & Hsplit).
  destruct (inherited_entries_spec _ _ _ _ (bg_entries _ _ _ _ _ Hbegun)) as [Hent _].
  apply inherit_steps_spec in Hinh as [-> _]; [done|by rewrite Hids|]. rewrite Hent.
  eapply sublist_NoDup; [done|apply Hsplit].
Qed.

Lemma begun_step step :
  step ∈ la_steps attempt →
  (ast_id step ∉ pt_inherited split ∧ ∃ node, bt_get (vw_steps W) (ast_id step) = Some node
     ∧ step = fresh_progress_node (ast_id step) AttemptStep node)
  ∨ ast_id step ∈ pt_inherited split ∧ ∃ entry original, (entry, original) ∈ entries ∧ inherits prior entry original step.
Proof.
  intros Hin. destruct (bg_fresh _ _ _ _ _ Hbegun) as (fresh & [Hids Hfresh]%fresh_steps_spec & Hinh).
  destruct begun_splits as (_ & _ & _ & Hsplit).
  destruct (inherited_entries_spec _ _ _ _ (bg_entries _ _ _ _ _ Hbegun)) as [Hent Hall].
  apply inherit_steps_spec in Hinh as [_ Hsteps]; [|by rewrite Hids|rewrite Hent; eapply sublist_NoDup; [done|apply Hsplit]].
  destruct (Hsteps step Hin) as [[Hf Hno]|(entry & original & f & He & Hf & Hid & Hs)].
  - left. rewrite Hent in Hno. split; [done|]. by apply Hfresh.
  - right. pose proof (inherit_step_id _ _ _ _ _ Hs) as Hsid. destruct (Hall entry original He) as (Hfind & Hps & _).
    split; [rewrite Hsid, Hid, <-Hent; apply list_elem_of_fmap_2; by apply (list_elem_of_fmap_2 fst entries (entry, original))|].
    exists entry, original. split; [done|]. assert (Hrole : ast_role f = AttemptStep ∧ ast_recovery f = None) by (by destruct (Hfresh f Hf) as (node & _ & ->)).
    unfold inherit_step in Hs.
    destruct (ast_outputs original) as [outputs|] eqn:Eo; [|done]. injection Hs as <-.
    split; simpl in *; try done; [by rewrite Hid|by exists outputs|apply Hrole..].
Qed.

Lemma begun_inherited step : step ∈ la_steps attempt → is_inherited_step step = bool_decide (ast_id step ∈ pt_inherited split).
Proof.
  intros Hin. unfold is_inherited_step. apply bool_decide_ext. destruct (begun_step step Hin) as [(Hno & node & _ & ->)|(Hyes & e & o & _ & Hi)].
  - simpl. done.
  - rewrite (ih_state _ _ _ _ Hi). done.
Qed.

Lemma filter_steps (P : AttemptStepV1 → bool) (l : list string) steps :
  (∀ step, step ∈ steps → P step = bool_decide (ast_id step ∈ l)) → ast_id <$> List.filter P steps = filter (.∈ l) (ast_id <$> steps).
Proof.
  induction steps as [|s steps IH]; intros Hall; [done|]. simpl. rewrite filter_cons, (Hall s) by set_solver.
  case_bool_decide as Hd; rewrite ?fmap_cons, IH by set_solver; [by rewrite decide_True|by rewrite decide_False].
Qed.

Lemma filter_sublist (l order : list string) : NoDup order → l `sublist_of` order → filter (.∈ l) order = l.
Proof.
  intros Hnd Hs. induction Hs as [|x l order Hs IH|x l order Hs IH]; [done|..]; apply NoDup_cons in Hnd as [Hx Hnd]; rewrite filter_cons.
  - rewrite decide_True by set_solver. f_equal. etrans; [|by apply IH].
    clear IH Hs Hnd. induction order as [|y order IH]; [done|]. rewrite !filter_cons, IH by set_solver.
    assert (Hy : y ∈ x :: l ↔ y ∈ l) by set_solver. by rewrite (decide_ext _ _ _ _ Hy).
  - rewrite decide_False; [by apply IH|]. intros Hin. apply Hx. by eapply elem_of_submseteq; [|apply sublist_submseteq].
Qed.

Lemma begun_inherited_ids : ast_id <$> List.filter is_inherited_step (la_steps attempt) = pt_inherited split.
Proof.
  rewrite (filter_steps _ (pt_inherited split)) by apply begun_inherited. rewrite begun_ids.
  apply filter_sublist; [done|]. destruct begun_splits as (_ & _ & _ & Hs). apply Hs.
Qed.

Lemma begun_reexecuted_ids : ast_id <$> List.filter (λ step, negb (is_inherited_step step)) (la_steps attempt) = pt_reexecuted split.
Proof.
  destruct begun_splits as (_ & _ & _ & Hs). rewrite (filter_steps _ (pt_reexecuted split)).
  - rewrite begun_ids. by apply filter_sublist, Hs.
  - intros step Hin. rewrite (begun_inherited step Hin). rewrite <-bool_decide_not. apply bool_decide_ext.
    assert (Hord : ast_id step ∈ vw_presentation_order W) by (rewrite <-begun_ids; by apply list_elem_of_fmap_2).
    pose proof (sp_all _ _ _ Hs) as Hperm. pose proof Horder as Hnd. rewrite Hperm in Hord, Hnd.
    apply NoDup_app in Hnd as (_ & Hdis & _). apply elem_of_app in Hord. naive_solver.
Qed.
End begun.
