(* ===== verification/SeedLoading.v ===== *)
(** * The seed of a continuation

    What [load_execution_seed] gives for an attempt of a continuation: the
    inherited steps, each with the outputs the rest of the run reads. *)

From S2P Require Import Prelude Text Nodes Evidence Condition Document Validated Failures Validation Requirements Capacity Runtime RunTiming Results SchemaCommon ResultMetadata RunResults ValidDocuments ConditionTypes Reducer Moves Runs Ceiling History Stops ValidWorkflows FinishedRuns ResultChecks Continuation Partitions Attempts AttemptChecks Inheritance.

Local Open Scope list_scope.

(** ** The outputs a workflow reads *)

Definition body_sources (step : ValidatedStep) : list ResolvedValueSource :=
  match step with
  | VCommand _ inputs _ => rvr_source <$> bt_values inputs
  | VAgent _ agent =>
      omap (λ source, match source with MessageReference source _ => Some source | MessageFile _ => None end)
        (vm_text (va_message agent) ++ vm_attachments (va_message agent))
  end.

Lemma step_sources_app step : step_sources step = bt_values (vc_condition_values (validated_common step)) ++ body_sources step.
Proof. by destruct step. Qed.

Lemma elem_of_add_reference references source output :
  output ∈ add_reference references source ↔ output ∈ references ∨ source = SourceOutput output.
Proof.
  destruct source; simpl; [naive_solver| |naive_solver]. rewrite elem_of_set_insert by apply output_source_cmp_Eq. naive_solver.
Qed.

Lemma elem_of_foldl_reference sources references output :
  output ∈ foldl add_reference references sources ↔ output ∈ references ∨ SourceOutput output ∈ sources.
Proof.
  revert references. induction sources as [|s sources IH]; intros references; simpl; [set_solver|].
  rewrite IH, elem_of_add_reference. set_solver.
Qed.

Lemma check_body_references_sources references step :
  check_body_references references step = foldl add_reference references (body_sources step).
Proof.
  destruct step as [common inputs argv|common agent]; simpl.
  - revert references. induction (bt_values inputs) as [|r l IH]; intros references; [done|]. apply IH.
  - revert references. induction (vm_text _ ++ _) as [|[] l IH]; intros references; [done|apply IH..].
Qed.

Lemma check_step_references_sources references step :
  check_step_references references step = foldl add_reference references (step_sources step).
Proof. unfold check_step_references. by rewrite check_body_references_sources, step_sources_app, foldl_app. Qed.

Lemma elem_of_foldl_steps {A} (sources : A → list ResolvedValueSource) l references output :
  output ∈ foldl (λ references a, foldl add_reference references (sources a)) references l ↔
  output ∈ references ∨ ∃ a, a ∈ l ∧ SourceOutput output ∈ sources a.
Proof.
  revert references. induction l as [|a l IH]; intros references; simpl; [set_solver|]. rewrite IH, elem_of_foldl_reference. set_solver.
Qed.

(** The outputs that are read by the steps executed again, the finalizers and
    the exports. *)
Lemma elem_of_referenced_outputs W reexecuted output :
  output ∈ referenced_outputs W reexecuted ↔
  (∃ id step, id ∈ reexecuted ∧ bt_get (vw_steps W) id = Some step ∧ SourceOutput output ∈ step_sources step)
  ∨ (∃ finalizer, finalizer ∈ bt_values (vw_finalizers W) ∧ SourceOutput output ∈ step_sources (vf_body finalizer))
  ∨ output ∈ bt_values (vw_exports W).
Proof.
  unfold referenced_outputs.
  rewrite (elem_of_foldl_insert output_source_cmp id) by apply output_source_cmp_Eq. rewrite list_fmap_id.
  assert (Hsteps : ∀ references l, foldl (λ references id, match bt_get (vw_steps W) id with
      | Some step => check_step_references references step | None => references end) references l
    = foldl (λ references id, foldl add_reference references (default [] (step_sources <$> bt_get (vw_steps W) id))) references l).
  { intros references l. revert references. induction l as [|id l IH]; intros references; simpl; [done|].
    rewrite IH. destruct (bt_get (vw_steps W) id); simpl; [by rewrite check_step_references_sources|done]. }
  assert (Hfin : ∀ references l, foldl (λ references finalizer, check_step_references references (vf_body finalizer)) references l
    = foldl (λ references finalizer, foldl add_reference references (step_sources (vf_body finalizer))) references l).
  { intros references l. revert references. induction l as [|f l IH]; intros references; simpl; [done|].
    by rewrite IH, check_step_references_sources. }
  rewrite Hfin, (elem_of_foldl_steps (λ f, step_sources (vf_body f))), Hsteps, (elem_of_foldl_steps (λ id, default [] _)).
  split.
  - intros [[[?|(id & Hid & Hs)]|?]|?]; [set_solver| |by right; left|by right; right].
    left. destruct (bt_get (vw_steps W) id) as [step|] eqn:E; simpl in Hs; [|set_solver]. by exists id, step.
  - intros [(id & step & Hid & Hs & Ho)|[?|?]]; [left; left; right|by left; right|by right]. exists id. by rewrite Hs.
Qed.

(** The outputs that are read name the phase of their node. *)
Section roles.
Context (document : WorkflowDocument) (Hdoc : document_wf MAXIMUM_RETRIES document).
Context (profiles : btree ValidatedHarness) (graph finalizer_graph : ValidatedGraph) (W : ValidatedWorkflow).
Context (Hval : validated_from document profiles graph finalizer_graph W).

Lemma denoted_role reference source t :
  denotes document reference (SourceOutput source) t → is_Some (bt_get (vw_steps W) (node_id (ros_node source))) →
  node_role (ros_node source) = RoleStep.
Proof.
  destruct reference as [|o|]; cbn [denotes]; [by intros [? _]| |by intros [? _]].
  intros (role & body & output & Hb & _ & _ & [= ->]) [v Hv]. simpl in *. unfold node_body in Hb.
  destruct (entries_get_inv _ _ _ _ _ (vd_steps _ _ _ _ _ Hval) Hv) as (step & Hs & _). rewrite Hs in Hb. by injection Hb as <- _.
Qed.

Lemma condition_source_role n d source :
  bt_get (def_steps (from_workflow W 0 0)) n = Some d → SourceOutput source ∈ bt_values (rt_condition_values d) →
  ∃ reference t, denotes document reference (SourceOutput source) t.
Proof.
  intros Hd Hs. destruct (node_from_definition document Hdoc _ _ _ _ Hval 0 0 n d Hd) as (body & control & v & Hn).
  apply list_elem_of_fmap in Hs as ([canonical source'] & Heq & Hin). simpl in Heq. subst source'.
  destruct (rt_condition d) as [p|] eqn:Hp; [|rewrite (no_condition_no_values _ _ _ _ _ _ _ _ Hn Hp) in Hin; by apply elem_of_nil in Hin].
  destruct (condition_validated document Hdoc _ _ _ _ Hval n d body control v Hn p Hp) as (c & _ & Hcf).
  destruct (cf_values _ _ _ _ _ _ Hcf _ _ Hin) as (_ & reference & t & _ & Hden & _). eauto.
Qed.

Lemma step_source_denoted n role g body v d source :
  body_validated document profiles role g n body v → bt_get (def_steps (from_workflow W 0 0)) n = Some d →
  rt_condition_values d = vc_condition_values (common_step v) → SourceOutput source ∈ step_sources v →
  ∃ reference t, denotes document reference (SourceOutput source) t.
Proof.
  intros Hb%validate_body_facts Hd Hvalues [Hc|(reference & t & _ & Hden)]%(bf_sources _ _ _ _ _ _ Hb); [|eauto].
  rewrite <-Hvalues in Hc. by eapply condition_source_role.
Qed.

Lemma read_role reexecuted source :
  source ∈ referenced_outputs W reexecuted → is_Some (bt_get (vw_steps W) (node_id (ros_node source))) →
  node_role (ros_node source) = RoleStep.
Proof.
  pose proof (validated_workflow_wf document Hdoc _ _ _ _ Hval) as Hwf.
  intros [(id & step & _ & Hstep & Hs)|[(finalizer & Hf & Hs)|Hexp]]%elem_of_referenced_outputs Hk.
  - destruct (entries_get_inv _ _ _ _ _ (vd_steps _ _ _ _ _ Hval) Hstep) as (doc_step & _ & Hb).
    destruct (step_source_denoted _ _ _ _ _ (runtime_step RoleStep step (mjoin (bt_get (vw_recoveries W) id)) []) source Hb) as (r & t & Hden);
      [by rewrite (def_steps_lookup _ _ _ Hwf), Hstep|done|done|by eapply denoted_role].
  - apply list_elem_of_fmap in Hf as ([n f] & -> & Hin). apply (bt_get_NoDup _ _ _ (bt_wf_NoDup _ (vwf_finalizers _ Hwf))) in Hin.
    destruct (entries_get_inv _ _ _ _ _ (vd_finalizers _ _ _ _ _ Hval) Hin) as (doc_finalizer & _ & Hb & _).
    destruct (step_source_denoted _ _ _ _ _ (runtime_finalizer f) source Hb) as (r & t & Hden); [|done|done|by eapply denoted_role].
    rewrite (def_steps_lookup _ _ _ Hwf). destruct (bt_get (vw_steps W) n) eqn:E; [|by rewrite Hin].
    exfalso. apply (vwf_disjoint _ Hwf n); apply bt_get_is_Some; by eexists.
  - apply list_elem_of_fmap in Hexp as ([n s] & -> & Hin). simpl in Hk.
    assert (Hwfe : bt_wf (vw_exports W)) by (eapply entries_wf; [apply Hval|apply Hdoc]).
    apply (bt_get_NoDup _ _ _ (bt_wf_NoDup _ Hwfe)) in Hin.
    destruct (entries_get_inv _ _ _ _ _ (vd_exports _ _ _ _ _ Hval) Hin) as (o & _ & Hr). unfold resolve_export in Hr.
    destruct (node_body document (or_node o)) as [[role body]|] eqn:Hb; [|done]. destruct (bt_get _ (or_output o)) as [output|]; [|done].
    case_decide; [done|]. destruct (bool_decide _ && _); [done|]. injection Hr as <-. simpl in *.
    destruct Hk as [v Hv]. destruct (entries_get_inv _ _ _ _ _ (vd_steps _ _ _ _ _ Hval) Hv) as (step & Hs & _).
    unfold node_body in Hb. rewrite Hs in Hb. by injection Hb as <- _.
Qed.
End roles.

(** ** Loading *)

Section loading.
Context {Output : Type} `{!RetainedFiles Output}.
Context (run : LocalRunV1) (state : LocalRunStateV1) (index : LocalRunStateIndex) (number : N) (W : ValidatedWorkflow)
  (required : list (string * string)).

(** A seed that stands for a step. *)
Record seeds (step : AttemptStepV1) (v : InheritedStepSeed Output) : Prop := {
  sd_detail : ast_detail step = Some (DetailInherited (seed_detail v));
  sd_disposition : index_disposition index number (ast_id step) = Some (seed_disposition v);
  sd_outputs : seed_disposition v = InhSucceeded →
    ∀ output, (ast_id step, output) ∈ required → is_Some (bt_get (seed_outputs v) output)
}.

Lemma load_step_seeds cache step loaded :
  load_step run state index number W required cache step = Ok loaded → seeds step loaded.2.
Proof.
  unfold load_step. destruct (ast_detail step) as [[| | | | |detail]|] eqn:Ed; try done.
  destruct (index_disposition index number (ast_id step)) as [disposition|] eqn:Ei; [|done].
  destruct (bool_decide (disposition = InhSkipped) && _); [done|]. destruct (load_outputs _ _ _ _ _ _ _) as [out|]; [|done]. simpl.
  destruct (bool_decide (disposition = InhSucceeded) && _) eqn:Em; [done|]. intros [= <-]. split; [done..|]. simpl. intros -> output Ho.
  rewrite bool_decide_true in Em by done. simpl in Em. destruct (bt_get out.2.1 output) eqn:E; [by eexists|]. exfalso.
  rewrite <-not_true_iff_false, existsb_exists in Em. apply Em. exists (ast_id step, output). split; [by apply list_elem_of_In|].
  rewrite bool_decide_true by done. unfold bt_contains_key. rewrite bool_decide_false; [done|]. rewrite E. by intros [? ?].
Qed.

Lemma load_steps_seeds cache acc steps seed :
  NoDup (ast_id <$> steps) → load_steps run state index number W required cache acc steps = Ok seed →
  (∀ id, id ∉ ast_id <$> List.filter is_inherited_step steps → bt_get seed id = bt_get acc id)
  ∧ ∀ step, step ∈ steps → is_inherited_step step = true → ∃ v, bt_get seed (ast_id step) = Some v ∧ seeds step v.
Proof.
  revert cache acc. induction steps as [|s steps IH]; intros cache acc Hnd; simpl; [intros [= <-]; set_solver|].
  apply NoDup_cons in Hnd as [Hnin Hnd]. destruct (is_inherited_step s) eqn:Es; simpl.
  - destruct (load_step _ _ _ _ _ _ _ s) as [loaded|] eqn:El; [|done]. simpl. intros [Hout Hin]%IH; [|done].
    split.
    + intros id [Hne Hno]%not_elem_of_cons. rewrite Hout by done. by apply bt_get_insert_ne.
    + intros step [->|Hstep]%elem_of_cons Hi; [|by apply Hin]. exists loaded.2. split; [|by eapply load_step_seeds].
      rewrite Hout, bt_get_insert_eq; [done|]. intros (s' & Heq & Hs')%list_elem_of_fmap. apply Hnin. rewrite Heq.
      apply list_elem_of_fmap_2. apply list_elem_of_In, filter_In in Hs' as [? _]. by apply list_elem_of_In.
  - intros [Hout Hin]%IH; [|done]. split; [done|]. intros step [->|Hstep]%elem_of_cons Hi; [congruence|by apply Hin].
Qed.
End loading.

Lemma execution_seed_checked {Output} W (seed seed' : ExecutionSeed Output) :
  execution_seed_new W seed = Ok seed' → seed' = seed ∧ ∀ id v, (id, v) ∈ seed → check_seed W id v = None.
Proof.
  unfold execution_seed_new. destruct (execution_seed_check W seed) as [()|] eqn:E; [|done]. intros [= <-]. split; [done|].
  revert E. induction seed as [|[id v] seed IH]; simpl; [set_solver|]. destruct (check_seed W id v) eqn:Ec; [done|].
  intros E id' v' [[= -> ->]|Hin]%elem_of_cons; [done|by apply IH].
Qed.

(** ** The seed of the attempt [begin] makes *)

Lemma exists_elem {A} (l : list A) : l ≠ [] → ∃ x, x ∈ l.
Proof. destruct l as [|x l]; [done|]. exists x. by left. Qed.

Section continued.
Context {Output : Type} `{!RetainedFiles Output} `{!TimeLibrary}.
Context (pending : PendingLocalContinuation) (from : list string) (start : ContinuationStart).
Context (attempt prior : LocalAttemptV1) (split : Partition) (entries : list (ContinuationInheritedStepV1 * AttemptStepV1))
  (definition : AttemptDefinitionV1).
Hypothesis Hbegun : begun pending from start attempt prior split entries definition.

Local Abbreviation W := (rw_definition (cs_workflow start)).
Hypothesis Hpres : presented W.

Context (admitted : AdmittedWorkflow).
Hypothesis Hadmitted : adm_definition admitted = W.
Context (run : LocalRunV1) (state : LocalRunStateV1).
Hypothesis Hstate : continues pending start attempt state.

Lemma continued_order : NoDup (vw_presentation_order W).
Proof. by apply presented_orders. Qed.

Lemma settled_same_index : same_index prior (settled_prior start prior).
Proof. unfold settled_prior, settle_abandoned. by destruct (attempt_is_terminal (la_state prior)). Qed.

(** The state with the attempt added shows the attempts before as they were. *)
Lemma begun_attempts : ∃ earlier, ls_attempts (pc_state pending) = earlier ++ [prior]
  ∧ ls_attempts state = (earlier ++ [settled_prior start prior]) ++ [attempt].
Proof.
  destruct Hstate as (earlier & last & Hold & Hnew). pose proof (bg_prior _ _ _ _ _ _ _ _ Hbegun) as Hlast.
  rewrite Hold, last_snoc in Hlast. injection Hlast as ->. eauto.
Qed.

Lemma begun_last : ls_attempts state !! length (ls_attempts (pc_state pending)) = Some attempt.
Proof.
  destruct begun_attempts as (earlier & -> & ->). rewrite lookup_app_r by (rewrite !length_app; simpl; lia).
  by rewrite !length_app, Nat.sub_diag.
Qed.

Lemma definition_step s :
  bt_get (def_steps (from_admitted admitted)) s =
  match bt_get (vw_steps W) s with
  | Some step => Some (runtime_step RoleStep step (mjoin (bt_get (vw_recoveries W) s)) [])
  | None => runtime_finalizer <$> bt_get (vw_finalizers W) s
  end.
Proof. unfold from_admitted. cbn [def_steps]. rewrite Hadmitted. apply def_steps_lookup, Hpres. Qed.

Context (seed : ExecutionSeed Output).
Hypothesis Hload : load_execution_seed run state (la_attempt_number attempt) W = Ok seed.

Local Abbreviation required := (required_inherited_outputs attempt W).

(** The steps of the seed are those that are inherited. *)
Lemma seed_steps :
  (∀ id, id ∉ pt_inherited split → bt_get seed id = None)
  ∧ (∀ step, step ∈ la_steps attempt → ast_id step ∈ pt_inherited split →
       ∃ index v, state_index_new state = Ok index ∧ bt_get seed (ast_id step) = Some v
         ∧ seeds index (la_attempt_number attempt) required step v)
  ∧ ∀ id v, bt_get seed id = Some v → check_seed W id v = None.
Proof.
  unfold load_execution_seed in Hload. destruct (state_index_new state) as [index|] eqn:Hindex; [|done]. simpl in Hload.
  rewrite (index_attempt_at state index Hindex _ _ begun_last) in Hload.
  destruct (validate_retained_outputs_against_definition attempt W); [|done]. simpl in Hload.
  destruct (rf_verify state _); [|done]. simpl in Hload. destruct (load_steps _ _ _ _ _ _ _ _ _) as [loaded|] eqn:El; [|done].
  simpl in Hload. destruct (execution_seed_new W loaded) as [seed'|] eqn:Es; [|done]. injection Hload as ->.
  destruct (execution_seed_checked W loaded seed Es) as [-> Hchecked].
  apply load_steps_seeds in El as [Hout Hin]; [|rewrite (begun_ids _ _ _ _ _ _ _ _ Hbegun continued_order); apply continued_order].
  rewrite (begun_inherited_ids _ _ _ _ _ _ _ _ Hbegun continued_order) in Hout. split_and!.
  - intros id Hid. by rewrite Hout.
  - intros step Hstep Hid. destruct (Hin step Hstep) as (v & Hv & Hsd); [|by exists index, v].
    by rewrite (begun_inherited _ _ _ _ _ _ _ _ Hbegun continued_order step Hstep), bool_decide_true.
  - intros id v Hv%bt_get_elem_of. by apply Hchecked.
Qed.

Lemma attempt_step_exists id : id ∈ vw_presentation_order W → ∃ step, step ∈ la_steps attempt ∧ ast_id step = id.
Proof.
  rewrite <-(begun_ids _ _ _ _ _ _ _ _ Hbegun continued_order). intros (step & -> & ?)%list_elem_of_fmap. by exists step.
Qed.

Lemma seed_inherited id : is_Some (bt_get seed id) ↔ id ∈ pt_inherited split.
Proof.
  destruct seed_steps as (Hout & Hin & _). split.
  - intros [v Hv]. destruct (decide (id ∈ pt_inherited split)) as [|Hn]; [done|]. rewrite Hout in Hv by done. done.
  - intros Hid. destruct (begun_splits _ _ _ _ _ _ _ _ Hbegun) as (_ & _ & _ & Hs).
    destruct (attempt_step_exists id) as (step & Hstep & <-); [by apply (sp_inherited _ _ _ Hs) in Hid as [? _]|].
    destruct (Hin step Hstep Hid) as (index & v & _ & Hv & _). by exists v.
Qed.

Lemma step_in_order id : is_Some (bt_get (vw_steps W) id) ↔ id ∈ vw_presentation_order W.
Proof. rewrite bt_get_is_Some. by rewrite (pw_steps _ Hpres). Qed.

Lemma seed_sound : seed_wf (from_admitted admitted) seed.
Proof.
  intros s v Hv. destruct seed_steps as (_ & _ & Hcheck). specialize (Hcheck s v Hv).
  assert (Hk : is_Some (bt_get (vw_steps W) s)).
  { apply step_in_order. destruct (begun_splits _ _ _ _ _ _ _ _ Hbegun) as (_ & _ & _ & Hs).
    apply (sp_inherited _ _ _ Hs), seed_inherited. by eexists. }
  destruct Hk as [step Hstep]. rewrite definition_step, Hstep. by eexists.
Qed.

(** An output that is read of an inherited step is required of the seed. *)
Lemma read_required s name :
  s ∈ pt_inherited split → seed_read (from_admitted admitted) seed s name → (s, name) ∈ required.
Proof.
  intros Hs Hread. unfold required_inherited_outputs.
  rewrite (begun_inherited_ids _ _ _ _ _ _ _ _ Hbegun continued_order), (begun_reexecuted_ids _ _ _ _ _ _ _ _ Hbegun continued_order).
  assert (Hsource : ∃ source, source ∈ referenced_outputs W (pt_reexecuted split)
    ∧ node_id (ros_node source) = s ∧ ros_output source = name).
  { destruct (begun_splits _ _ _ _ _ _ _ _ Hbegun) as (_ & _ & _ & Hsplit).
    destruct Hread as [[export Hexp]|(t & d & canonical & source & Hd & Hnone & Hsource & Hid & Hname)].
    - unfold from_admitted in Hexp. cbn [def_exports] in Hexp. rewrite Hadmitted in Hexp. cbn [def_exports from_workflow] in Hexp.
      apply list_elem_of_fmap in Hexp as ([n source] & [= -> -> ->] & Hin). exists source. split_and!; [|done..].
      apply elem_of_referenced_outputs. right. right. by apply (list_elem_of_fmap_2 snd (vw_exports W) (n, source)).
    - exists source. split_and!; [|done..]. apply elem_of_referenced_outputs. rewrite definition_step in Hd.
      assert (Hvalues : ∀ role step recovery when, d = runtime_step role step recovery when → SourceOutput source ∈ step_sources step).
      { intros role step recovery when ->. rewrite step_sources_app. apply elem_of_app. left. destruct step; by apply (list_elem_of_fmap_2 snd _ (canonical, SourceOutput source)). }
      destruct (bt_get (vw_steps W) t) as [step|] eqn:Et.
      + injection Hd as <-. left. exists t, step. split_and!; [|done|by eapply Hvalues].
        assert (Hord : t ∈ vw_presentation_order W) by (apply step_in_order; by eexists).
        rewrite (sp_all _ _ _ Hsplit) in Hord. apply elem_of_app in Hord as [?|Hinh]; [done|].
        apply seed_inherited in Hinh as [? ?]. congruence.
      + apply fmap_Some in Hd as (finalizer & Hf & ->). right. left. exists finalizer.
        split; [apply bt_get_elem_of in Hf; by apply (list_elem_of_fmap_2 snd _ (t, finalizer))|]. by eapply Hvalues. }
  destruct Hsource as (source & Hin & <- & <-). apply list_elem_of_fmap. exists source. split; [done|]. by apply list_elem_of_filter.
Qed.

Lemma seed_holds_reads : seed_complete (from_admitted admitted) seed.
Proof.
  intros s v Hv Hdisp name Hread. destruct seed_steps as (_ & Hin & _).
  assert (Hs : s ∈ pt_inherited split) by (apply seed_inherited; by eexists).
  destruct (begun_splits _ _ _ _ _ _ _ _ Hbegun) as (_ & _ & _ & Hsplit).
  destruct (attempt_step_exists s) as (step & Hstep & <-); [by apply (sp_inherited _ _ _ Hsplit) in Hs as [? _]|].
  destruct (Hin step Hstep Hs) as (index & v' & _ & Hv' & Hsd). rewrite Hv in Hv'. injection Hv' as <-.
  apply (sd_outputs _ _ _ _ _ Hsd Hdisp), (read_required (ast_id step) name Hs Hread).
Qed.

Lemma seed_leaves_step : fresh_step (from_admitted admitted) seed.
Proof.
  destruct (begun_splits _ _ _ _ _ _ _ _ Hbegun) as (Hne & _ & Hk & Hsplit).
  destruct (exists_elem from Hne) as [f Hfrom]. destruct (proj1 (Forall_forall _ _) Hk f Hfrom) as [step Hf]. exists f. rewrite definition_step, Hf. eexists. split_and!; [done..|].
  apply seed_steps. intros [_ Hno]%(sp_inherited _ _ _ Hsplit). apply Hno. by exists f.
Qed.

(** Every inherited step names the attempt before. *)
Lemma seed_details id v : bt_get seed id = Some v →
  id_prior_attempt_id (seed_detail v) = la_attempt_id prior ∧ id_prior_attempt_number (seed_detail v) = la_attempt_number prior.
Proof.
  intros Hv. assert (Hs : id ∈ pt_inherited split) by (apply seed_inherited; by eexists).
  destruct (begun_splits _ _ _ _ _ _ _ _ Hbegun) as (_ & _ & _ & Hsplit).
  destruct (attempt_step_exists id) as (step & Hstep & <-); [by apply (sp_inherited _ _ _ Hsplit) in Hs as [? _]|].
  destruct (proj1 (proj2 seed_steps) step Hstep Hs) as (index & v' & _ & Hv' & Hsd). rewrite Hv in Hv'. injection Hv' as <-.
  destruct (begun_step _ _ _ _ _ _ _ _ Hbegun continued_order step Hstep) as [[? _]|(_ & entry & original & _ & Hi)]; [done|].
  pose proof (sd_detail _ _ _ _ _ Hsd) as Hd. rewrite (ih_detail _ _ _ _ Hi) in Hd. by injection Hd as <-.
Qed.
End continued.
