(* ===== verification/ContinuedStates.v ===== *)
(** * Continuations keep the state of a run valid

    A state of a run that passes the checks of its reader still passes them
    after [begin] added the attempt of a continuation, whether the attempt
    before was settled or abandoned. *)

From S2P Require Import Prelude Text Nodes Evidence Document Validated Failures Validation Capacity Runtime RunTiming Results SchemaCommon ResultMetadata DocumentChecks RunResults FinishedRuns Continuation Partitions Attempts AttemptChecks Settlement Inheritance SeedLoading.

Local Open Scope list_scope.

(** ** Checks of inherited steps *)

Lemma inherited_output_valid_spec index prior prior_step step prior_outputs output :
  inherited_output_valid index prior prior_step step prior_outputs output = true ↔
  ∃ prior_output expected producer_attempt source_step source_outputs source,
    find_output prior_outputs (retained_name output) = Some prior_output
    ∧ expected_producer prior prior_step step prior_output output = Some expected
    ∧ index_attempt index (op_attempt_number expected) = Some producer_attempt
    ∧ index_step index (la_attempt_number producer_attempt) (ast_id step) = Some source_step
    ∧ ast_outputs source_step = Some source_outputs
    ∧ find_output source_outputs (retained_name output) = Some source
    ∧ retained_producer output = Some expected
    ∧ set_producer prior_output expected = set_producer output expected
    ∧ la_attempt_id producer_attempt = op_attempt_id expected
    ∧ ast_state source_step = AttemptSucceeded
    ∧ set_producer source expected = set_producer output expected.
Proof.
  unfold inherited_output_valid, retained_output_payload_matches. split.
  - destruct (find_output prior_outputs _) as [prior_output|] eqn:E1; [|done]. cbn.
    destruct (expected_producer _ _ _ _ _) as [expected|] eqn:E2; [|done]. cbn.
    destruct (index_attempt _ _) as [producer_attempt|] eqn:E3; [|done]. cbn.
    destruct (index_step _ _ _) as [source_step|] eqn:E4; [|done]. cbn.
    destruct (ast_outputs source_step) as [source_outputs|] eqn:E5; [|done]. cbn.
    destruct (find_output source_outputs _) as [source|] eqn:E6; [|done]. cbn.
    rewrite !andb_true_iff, !bool_decide_eq_true. intros [[[[? ?] ?] ?] ?].
    exists prior_output, expected, producer_attempt, source_step, source_outputs, source. by split_and!.
  - intros (prior_output & expected & producer_attempt & source_step & source_outputs & source & E1 & E2 & E3 & E4 & E5 & E6 & ? & ? & ? & ? & ?).
    rewrite E1. cbn. rewrite E2. cbn. rewrite E3. cbn. rewrite E4. cbn. rewrite E5. cbn. rewrite E6. cbn.
    by rewrite !bool_decide_true by done.
Qed.

Lemma validate_inherited_step_spec index number prior record step :
  validate_inherited_step index number prior (record, step) = Ok tt ↔
  ∃ detail disposition prior_step prior_state outputs prior_outputs,
    ast_detail step = Some (DetailInherited detail)
    ∧ index_disposition index number (ast_id step) = Some disposition
    ∧ index_step index (la_attempt_number prior) (ast_id step) = Some prior_step
    ∧ inheritable_state (ast_state prior_step) = Some prior_state
    ∧ ast_outputs step = Some outputs ∧ ast_outputs prior_step = Some prior_outputs
    ∧ inherited_attempt_step_valid prior record detail prior_state disposition outputs prior_outputs = true
    ∧ ∀ output, output ∈ outputs → inherited_output_valid index prior prior_step step prior_outputs output = true.
Proof.
  unfold validate_inherited_step. split.
  - destruct (ast_detail step) as [[| | | | |detail]|] eqn:E1; try done. cbn.
    destruct (index_disposition index number (ast_id step)) as [disposition|] eqn:E2; [|done]. cbn.
    destruct (index_step index _ _) as [prior_step|] eqn:E3; [|done]. cbn.
    destruct (inheritable_state _) as [prior_state|] eqn:E4; [|done]. cbn.
    destruct (ast_outputs step) as [outputs|] eqn:E5; [|done]. cbn. destruct (ast_outputs prior_step) as [prior_outputs|] eqn:E6; [|done]. cbn.
    destruct (inherited_attempt_step_valid _ _ _ _ _ _ _) eqn:E7; [|done]. destruct (forallb _ _) eqn:E8; [|done]. intros _.
    rewrite forallb_forall in E8. exists detail, disposition, prior_step, prior_state, outputs, prior_outputs. split_and!; try done.
    intros output Ho. by apply E8, list_elem_of_In.
  - intros (detail & disposition & prior_step & prior_state & outputs & prior_outputs & E1 & E2 & E3 & E4 & E5 & E6 & E7 & E8).
    rewrite E1. cbn. rewrite E2. cbn. rewrite E3. cbn. rewrite E4. cbn. rewrite E5. cbn. rewrite E6. cbn. rewrite E7.
    rewrite (proj2 (forallb_forall _ _)); [done|]. intros output Ho. by apply E8, list_elem_of_In.
Qed.

Lemma validate_inherited_steps_spec index number prior entries :
  validate_inherited_steps index number prior entries = Ok tt ↔
  ∀ entry, entry ∈ entries → validate_inherited_step index number prior entry = Ok tt.
Proof.
  induction entries as [|e entries IH]; simpl; [split; [set_solver|done]|]. split.
  - destruct (validate_inherited_step index number prior e) as [()|] eqn:E; [|done]. simpl. rewrite IH. set_solver.
  - intros Hall. rewrite (Hall e) by set_solver. simpl. apply IH. set_solver.
Qed.

(** An index that knows at least what another does. *)
Record grows (index index' : LocalRunStateIndex) : Prop := {
  gr_step : ∀ n id step, index_step index n id = Some step → index_step index' n id = Some step;
  gr_disposition : ∀ n id d, index_disposition index n id = Some d → index_disposition index' n id = Some d;
  gr_attempt : ∀ n a, index_attempt index n = Some a → ∃ b, index_attempt index' n = Some b
    ∧ la_attempt_id b = la_attempt_id a ∧ la_attempt_number b = la_attempt_number a
}.

Lemma inherited_output_valid_grows index index' prior prior' prior_step step prior_outputs output :
  grows index index' → la_attempt_id prior' = la_attempt_id prior → la_attempt_number prior' = la_attempt_number prior →
  inherited_output_valid index prior prior_step step prior_outputs output = true →
  inherited_output_valid index' prior' prior_step step prior_outputs output = true.
Proof.
  intros Hg Hid Hn. rewrite !inherited_output_valid_spec.
  intros (po & expected & pa & source_step & source_outputs & source & E1 & E2 & E3 & E4 & E5 & E6 & H1 & H2 & H3 & H4 & H5).
  destruct (gr_attempt _ _ Hg _ _ E3) as (pb & E3' & Hbid & Hbn).
  exists po, expected, pb, source_step, source_outputs, source. split_and!; try done.
  - unfold expected_producer, output_producer_of in *. by rewrite Hid, Hn.
  - rewrite Hbn. by apply (gr_step _ _ Hg).
  - by rewrite Hbid.
Qed.

Lemma validate_inherited_step_grows index index' number prior prior' entry :
  grows index index' → la_attempt_id prior' = la_attempt_id prior → la_attempt_number prior' = la_attempt_number prior →
  validate_inherited_step index number prior entry = Ok tt → validate_inherited_step index' number prior' entry = Ok tt.
Proof.
  intros Hg Hid Hn. destruct entry as [record step]. rewrite !validate_inherited_step_spec.
  intros (detail & disposition & prior_step & prior_state & outputs & prior_outputs & E1 & E2 & E3 & E4 & E5 & E6 & E7 & E8).
  exists detail, disposition, prior_step, prior_state, outputs, prior_outputs. split_and!; try done.
  - by apply (gr_disposition _ _ Hg).
  - rewrite Hn. by apply (gr_step _ _ Hg).
  - unfold inherited_attempt_step_valid in *. by rewrite Hid, Hn.
  - intros output Ho. by eapply inherited_output_valid_grows; [..|apply E8].
Qed.

(** ** The index after a continuation began *)

#[export] Instance same_index_refl : Reflexive same_index.
Proof. by intros a. Qed.

Section extended.
Context `{!TimeLibrary, !MediaTypes}.
Context (pending : PendingLocalContinuation) (from : list string) (start : ContinuationStart).
Context (attempt prior : LocalAttemptV1) (split : Partition) (entries : list (ContinuationInheritedStepV1 * AttemptStepV1))
  (definition : AttemptDefinitionV1).
Hypothesis Hbegun : begun pending from start attempt prior split entries definition.

Local Abbreviation W := (rw_definition (cs_workflow start)).
Hypothesis Hpres : presented W.

Context (state : LocalRunStateV1).
Hypothesis Hstate : continues pending start attempt state.
Context (index : LocalRunStateIndex).
Hypothesis Hindex : state_index_new (pc_state pending) = Ok index.

Local Abbreviation size := (length (ls_attempts (pc_state pending))).

Lemma prior_position : ∃ i, size = S i ∧ ls_attempts (pc_state pending) !! i = Some prior
  ∧ state_attempt_index (la_attempt_number prior) = Some i.
Proof.
  destruct (begun_attempts pending from start attempt prior split entries definition Hbegun state Hstate) as (earlier & Hatt & _).
  exists (length earlier). assert (Hat : ls_attempts (pc_state pending) !! length earlier = Some prior).
  { rewrite Hatt, lookup_app_r by lia. by rewrite Nat.sub_diag. }
  split_and!; [rewrite Hatt, length_app; simpl; lia|done|].
  destruct (index_at _ _ Hindex _ _ Hat) as (m & d & _ & _ & Hix). rewrite (ia_number _ _ _ _ _ Hix). apply attempt_index_number.
Qed.

(** The disposition of what is inherited is known. *)
Lemma original_disposition entry original step :
  inherits prior entry original step →
  ∃ disposition, index_disposition index (la_attempt_number prior) (ast_id step) = Some disposition
    ∧ match cis_prior_state entry with
      | PriorSucceeded => disposition = InhSucceeded
      | PriorSkipped => disposition = InhSkipped
      | PriorInherited => True
      end.
Proof.
  intros Hi. destruct prior_position as (i & _ & Hat & _). pose proof (ih_original _ _ _ _ Hi) as Hfind.
  pose proof (ih_prior_state _ _ _ _ Hi) as Hps. pose proof (find_step_Some _ _ _ Hfind) as [Hin Hid].
  destruct (ast_state original) eqn:Es; try discriminate Hps; injection Hps as <-.
  - exists InhSucceeded. by rewrite (index_disposition_at _ _ Hindex _ _ _ Hat), Hfind; simpl; rewrite Es.
  - destruct (inherited_disposition _ _ Hindex i prior original Hat Hin Es) as (_ & _ & _ & _ & _ & [d Hd]). exists d.
    by rewrite <-Hid.
  - exists InhSkipped. by rewrite (index_disposition_at _ _ Hindex _ _ _ Hat), Hfind; simpl; rewrite Es.
Qed.

Lemma begun_disposition step :
  step ∈ la_steps attempt → ∃ d, step_disposition (ix_dispositions index) size step = Ok d.
Proof.
  intros Hin. pose proof (proj1 (presented_orders _ Hpres)) as Hnd.
  destruct (begun_step _ _ _ _ _ _ _ _ Hbegun Hnd step Hin) as [(_ & node & _ & ->)|(_ & entry & original & _ & Hi)]; [by eexists|].
  destruct prior_position as (i & Hsize & _ & Hi'). destruct (original_disposition entry original step Hi) as (d & Hd & _).
  unfold index_disposition in Hd. rewrite Hi' in Hd. cbn in Hd. unfold step_disposition.
  rewrite (ih_state _ _ _ _ Hi), (ih_detail _ _ _ _ Hi). simpl. rewrite Hi', decide_True by lia. rewrite Hd. by eexists.
Qed.

Lemma extended_index : ∃ m d,
  state_index_new state = Ok {| ix_attempts := ls_attempts state; ix_steps := ix_steps index ++ [m]; ix_dispositions := ix_dispositions index ++ [d] |}.
Proof.
  destruct (begun_attempts pending from start attempt prior split entries definition Hbegun state Hstate) as (earlier & Hatt & Hatt').
  pose proof Hindex as Hold. unfold state_index_new in Hold. pose proof (proj1 (presented_orders _ Hpres)) as Hnd.
  destruct (index_attempts 0 (ls_attempts (pc_state pending)) [] []) as [[steps dispositions]|] eqn:Eold; [|done].
  assert (ix_steps index = steps ∧ ix_dispositions index = dispositions) as [Hs Hds] by (injection Hold as Hold; by rewrite <-Hold).
  assert (Hsame : index_attempts 0 (earlier ++ [settled_prior start prior]) [] [] = Ok (steps, dispositions)).
  { rewrite <-Eold, Hatt. symmetry. apply index_attempts_same, Forall2_app; [reflexivity|].
    constructor; [apply settled_same_index|constructor]. }
  destruct (index_steps_Ok (la_steps attempt) []) as [m Hm]; [by rewrite (begun_ids _ _ _ _ _ _ _ _ Hbegun Hnd)|done|].
  subst steps dispositions. destruct (index_dispositions_Ok (ix_dispositions index) size (la_steps attempt) []) as [d Hd].
  { intros step Hin. apply begun_disposition. done. }
  exists m, d. unfold state_index_new. rewrite Hatt' at 1. rewrite index_attempts_app, Hsame. simpl.
  assert (Hlen : length (earlier ++ [settled_prior start prior]) = size) by (rewrite Hatt, !length_app; done).
  rewrite Hlen. destruct prior_position as (i & Hsize & _ & Hi%state_attempt_index_Some).
  rewrite (bg_number _ _ _ _ _ _ _ _ Hbegun), Hi, Hsize. rewrite (proj2 (N.eqb_eq _ _)) by lia. simpl.
  rewrite Hm. simpl. rewrite <-Hsize, Hd. done.
Qed.

Context (m : btree AttemptStepV1) (d : btree InheritedDisposition).
Local Abbreviation index' :=
  {| ix_attempts := ls_attempts state; ix_steps := ix_steps index ++ [m]; ix_dispositions := ix_dispositions index ++ [d] |}.
Hypothesis Hindex' : state_index_new state = Ok index'.

(** The attempts before are as they were, the last one settled. *)
Lemma extended_attempts i a :
  ls_attempts (pc_state pending) !! i = Some a →
  ls_attempts state !! i = Some (if decide (S i = size) then settled_prior start prior else a)
  ∧ (S i = size → a = prior).
Proof.
  destruct (begun_attempts pending from start attempt prior split entries definition Hbegun state Hstate) as (earlier & Hatt & Hatt').
  rewrite Hatt, Hatt', length_app. simpl. rewrite Nat.add_1_r. intros Hi.
  destruct (decide (i < length earlier)) as [Hlt|Hge].
  - rewrite decide_False by lia. rewrite lookup_app_l in Hi by done. split; [|lia].
    rewrite !lookup_app_l by (rewrite ?length_app; simpl; lia). done.
  - rewrite lookup_app_r in Hi by lia. destruct (i - length earlier) as [|k] eqn:Ek; [|done]. injection Hi as <-.
    assert (i = length earlier) as -> by lia. rewrite decide_True by done. split; [|done].
    rewrite lookup_app_l by (rewrite length_app; simpl; lia). rewrite lookup_app_r by lia. by rewrite Nat.sub_diag.
Qed.

Lemma settle_same prior' : la_attempt_id (settled_prior start prior') = la_attempt_id prior'
  ∧ la_attempt_number (settled_prior start prior') = la_attempt_number prior'.
Proof. unfold settled_prior, settle_abandoned. by destruct (attempt_is_terminal _). Qed.

Lemma extended_attempt n a :
  index_attempt index n = Some a →
  index_attempt index' n = Some (if decide (n = la_attempt_number prior) then settled_prior start prior else a)
  ∧ (n = la_attempt_number prior → a = prior).
Proof.
  intros Ha. destruct (index_attempt_Some _ _ Hindex _ _ Ha) as (Hn & i & Hi & Hat).
  destruct (extended_attempts i a Hat) as [Hat' Hp]. destruct prior_position as (j & Hsize & Hprior & Hj).
  assert (Hcase : n = la_attempt_number prior ↔ S i = size).
  { apply state_attempt_index_Some in Hi, Hj. lia. }
  split; [|intros Hx; by apply Hp, Hcase].
  unfold index_attempt. rewrite Hi. cbn. rewrite Hat'. cbn. rewrite (decide_ext _ _ _ _ Hcase). case_decide as Hc.
  - rewrite (proj2 (settle_same prior)), (proj2 Hcase Hc), N.eqb_refl. done.
  - by rewrite Hn, N.eqb_refl.
Qed.

Lemma extended_grows : grows index index'.
Proof.
  split.
  - intros n id step. unfold index_step. destruct (state_attempt_index n) as [i|]; [|done]. cbn.
    destruct (ix_steps index !! i) as [steps|] eqn:E; [|done]. cbn. rewrite lookup_app_l by by eapply lookup_lt_Some. by rewrite E.
  - intros n id x. unfold index_disposition. destruct (state_attempt_index n) as [i|]; [|done]. cbn.
    destruct (ix_dispositions index !! i) as [found|] eqn:E; [|done]. cbn. rewrite lookup_app_l by by eapply lookup_lt_Some. by rewrite E.
  - intros n a Ha. destruct (extended_attempt n a Ha) as [Hb Hp]. eexists. split; [exact Hb|]. case_decide; [|done].
    rewrite Hp by done. apply settle_same.
Qed.

(** ** The checks of the new attempt *)

Hypothesis Hchecked : ∀ i a, ls_attempts (pc_state pending) !! i = Some a → validate_attempt index a (1 + N.of_nat i) = Ok tt.

Lemma prior_checked : ∃ number step_ids node_ids, attempt_checked index prior number step_ids node_ids.
Proof. destruct prior_position as (i & _ & Hat & _). eexists. by apply validate_attempt_spec, (Hchecked i). Qed.

Lemma original_checked entry original step : inherits prior entry original step → original ∈ la_steps prior ∧ step_checked prior original.
Proof.
  intros Hi. destruct (find_step_Some _ _ _ (ih_original _ _ _ _ Hi)) as [Hin _]. split; [done|].
  destruct prior_checked as (n & sids & nids & [_ Hall]%attempt_steps_checked). by apply Hall.
Qed.

(** A step the attempt before had inherited passed its checks. *)
Lemma original_inherited entry original step :
  inherits prior entry original step → ast_state original = AttemptInherited →
  ∃ record before, validate_inherited_step index (la_attempt_number prior) before (record, original) = Ok tt.
Proof.
  intros Hi Hs. destruct (original_checked _ _ _ Hi) as [Hin _]. destruct prior_checked as (n & sids & nids & Hcont%ck_continuation).
  assert (Hf : original ∈ List.filter is_inherited_step (la_steps prior)).
  { apply list_elem_of_In, filter_In. split; [by apply list_elem_of_In|]. unfold is_inherited_step. by apply bool_decide_eq_true. }
  unfold validate_attempt_continuation in Hcont. destruct (la_continuation prior) as [continuation|].
  - destruct (record_matches _ _ _) eqn:Er; [|done]. simpl in Hcont. destruct (number ← _; _) as [before|]; [|done].
    destruct (prior_matches _ _); [|done]. simpl in Hcont.
    destruct (validate_inherited_steps _ _ _ _) as [()|] eqn:Ev; [|done].
    pose proof (proj1 (validate_inherited_steps_spec _ _ _ _) Ev) as Hall.
    unfold record_matches in Er. rewrite !andb_true_iff, !bool_decide_eq_true in Er. destruct Er as [[_ Hlen] _].
    apply list_elem_of_lookup in Hf as [k Hk]. destruct (lookup_lt_is_Some_2 (cn_inherited_steps continuation) k) as [record Hr].
    { rewrite Hlen. by eapply lookup_lt_Some. }
    exists record, before. apply Hall. apply list_elem_of_lookup. exists k. by apply lookup_zip_with_Some; eauto.
  - destruct (List.filter _ _); [set_solver|]. by rewrite andb_false_r in Hcont.
Qed.

(** What a step hands on: names are distinct, and skipped steps have none. *)
Lemma original_outputs entry original step outputs disposition :
  inherits prior entry original step → ast_outputs original = Some outputs →
  index_disposition index (la_attempt_number prior) (ast_id step) = Some disposition →
  NoDup (retained_name <$> outputs) ∧ (disposition = InhSkipped → outputs = []).
Proof.
  intros Hi Ho Hd. destruct (original_checked _ _ _ Hi) as [Hin Hck]. destruct prior_position as (i & _ & Hat & _).
  pose proof (sc_outputs _ _ Hck) as Hset. unfold retained_output_set_valid in Hset. rewrite Ho in Hset.
  destruct (negb _ && negb _) eqn:Eempty; [done|]. apply retained_outputs_checked in Hset as [Hnd _]. split; [done|]. intros ->.
  pose proof (ih_prior_state _ _ _ _ Hi) as Hps. pose proof Hd as Hdisp.
  rewrite (index_disposition_at _ _ Hindex _ _ _ Hat), (ih_original _ _ _ _ Hi) in Hd. cbn in Hd.
  destruct (ast_state original) eqn:Es; try discriminate Hps; try discriminate Hd.
  - destruct (original_inherited _ _ _ Hi Es) as (record & before & Hv).
    apply validate_inherited_step_spec in Hv as (detail & dd & ps & pst & outs & po & _ & E2 & _ & _ & E5 & _ & E7 & _).
    rewrite Ho in E5. injection E5 as <-. unfold inherited_attempt_step_valid in E7. rewrite !andb_true_iff in E7. destruct E7 as [_ E7].
    apply negb_true_iff in E7. rewrite bool_decide_true in E7.
    + simpl in E7. apply negb_false_iff, bool_decide_eq_true in E7. done.
    + rewrite (proj2 (find_step_Some _ _ _ (ih_original _ _ _ _ Hi))), Hdisp in E2. by injection E2.
  - simpl in Eempty. by apply negb_false_iff, bool_decide_eq_true in Eempty.
Qed.

(** The outputs of an inherited step pass their checks. *)
Lemma taken_output_valid entry original step outputs output :
  inherits prior entry original step → ast_outputs original = Some outputs →
  output ∈ taken_outputs prior original (ast_id step) outputs →
  inherited_output_valid index' (settled_prior start prior) original step outputs output = true.
Proof.
  intros Hi Ho Hout. destruct prior_position as (i & Hsize & Hat & Hi'). destruct (original_checked _ _ _ Hi) as [Hin _].
  destruct (original_disposition _ _ _ Hi) as (disposition & Hd & _).
  destruct (original_outputs _ _ _ _ _ Hi Ho Hd) as [Hnd Hskip]. destruct (settle_same prior) as [Hsid Hsn].
  assert (Hstep : ∀ x, index_step index (la_attempt_number prior) (ast_id step) = Some x → index_step index' (la_attempt_number prior) (ast_id step) = Some x)
    by apply (gr_step _ _ extended_grows).
  unfold taken_outputs in Hout. pose proof (ih_prior_state _ _ _ _ Hi) as Hps.
  destruct (ast_state original) eqn:Es; try discriminate Hps.
  - rewrite decide_True in Hout by done. apply list_elem_of_fmap in Hout as (o & -> & Hino).
    set (expected := output_producer_of prior (ast_id step) (retained_name o)). apply inherited_output_valid_spec.
    exists o, expected, (settled_prior start prior), original, outputs, o.
    rewrite retained_name_set, set_producer_set, retained_producer_set, (find_output_NoDup _ _ Hnd Hino).
    unfold expected_producer, output_producer_of. rewrite Es, Hsid, Hsn, retained_name_set. split_and!; try done.
    + simpl. pose proof (index_attempt_at _ _ Hindex _ _ Hat) as Ha. destruct (extended_attempt _ _ Ha) as [-> _]. by rewrite decide_True.
    + apply Hstep. by rewrite (index_step_at _ _ Hindex _ _ _ Hat), (ih_original _ _ _ _ Hi).
  - rewrite decide_False in Hout by done. destruct (original_inherited _ _ _ Hi Es) as (record & before & Hv).
    apply validate_inherited_step_spec in Hv as (detail & dd & ps & pst & outs & po & _ & _ & _ & _ & E5 & _ & _ & E8).
    rewrite Ho in E5. injection E5 as <-. specialize (E8 output Hout). apply inherited_output_valid_spec in E8.
    destruct E8 as (prior_output & expected & pa & source_step & source_outputs & source & _ & _ & E3 & E4 & E5 & E6 & P1 & _ & P3 & P4 & P5).
    destruct (gr_attempt _ _ extended_grows _ _ E3) as (pb & E3' & Hbid & Hbn). apply inherited_output_valid_spec.
    exists output, expected, pb, source_step, source_outputs, source. rewrite (find_output_NoDup _ _ Hnd Hout).
    unfold expected_producer. rewrite Es. split_and!; try done; [|by rewrite Hbid]. rewrite Hbn.
    apply (gr_step _ _ extended_grows). by rewrite <-(proj2 (find_step_Some _ _ _ (ih_original _ _ _ _ Hi))).
  - rewrite decide_False in Hout by done. rewrite (index_disposition_at _ _ Hindex _ _ _ Hat), (ih_original _ _ _ _ Hi) in Hd. cbn in Hd.
    rewrite Es in Hd. injection Hd as <-. rewrite (Hskip eq_refl) in Hout. set_solver.
Qed.

Lemma inherited_step_passes entry original step :
  step ∈ la_steps attempt → inherits prior entry original step →
  validate_inherited_step index' (la_attempt_number attempt) (settled_prior start prior) (entry, step) = Ok tt.
Proof.
  intros Hin Hi. destruct prior_position as (i & Hsize & Hat & Hi'). destruct (settle_same prior) as [Hsid Hsn].
  destruct (original_disposition _ _ _ Hi) as (disposition & Hd & _). destruct (ih_outputs _ _ _ _ Hi) as (outputs & Ho & Hos).
  destruct (original_outputs _ _ _ _ _ Hi Ho Hd) as [Hnd Hskip]. apply validate_inherited_step_spec.
  eexists _, disposition, original, _, _, outputs. split_and!.
  - apply (ih_detail _ _ _ _ Hi).
  - pose proof (begun_last pending from start attempt prior split entries definition Hbegun state Hstate) as Hlast.
    rewrite (index_disposition_at _ _ Hindex' _ _ _ Hlast).
    rewrite (find_step_NoDup (la_steps attempt)); [|rewrite (begun_ids _ _ _ _ _ _ _ _ Hbegun (proj1 (presented_orders _ Hpres))); by apply presented_orders|done].
    cbn. rewrite (ih_state _ _ _ _ Hi), (ih_detail _ _ _ _ Hi). simpl. by apply (gr_disposition _ _ extended_grows).
  - rewrite Hsn. apply (gr_step _ _ extended_grows). by rewrite (index_step_at _ _ Hindex _ _ _ Hat), (ih_original _ _ _ _ Hi).
  - apply (ih_prior_state _ _ _ _ Hi).
  - exact Hos.
  - exact Ho.
  - unfold inherited_attempt_step_valid. simpl. rewrite Hsid, Hsn, Bool.eqb_reflx, !andb_true_iff, negb_true_iff, !bool_decide_eq_true. split_and!; try done.
    + unfold taken_outputs. case_decide; [by rewrite length_fmap|done].
    + destruct disposition; [done|]. unfold taken_outputs. rewrite (Hskip eq_refl). by case_decide.
  - intros output Hout. by eapply taken_output_valid.
Qed.

(** *** The steps of the attempt *)

Lemma prior_identity : (0 < la_attempt_number prior)%N ∧ is_canonical_uuid (la_attempt_id prior) = true
  ∧ is_canonical_absolute_path (la_execution_root prior) = true.
Proof.
  destruct prior_position as (i & _ & _ & Hi%state_attempt_index_Some). destruct prior_checked as (n & sids & nids & Hid%ck_identity).
  split; [lia|]. unfold validate_attempt_identity in Hid. destruct (negb _); [done|]. destruct (negb _) in Hid; [done|].
  destruct (is_canonical_uuid _) eqn:E1; [|done]. by destruct (is_canonical_absolute_path _).
Qed.

Hypothesis Hidentifiers : ∀ id, id ∈ vw_presentation_order W → is_identifier id = true.

Lemma identifier_filled id : is_identifier id = true → str_is_empty id = false.
Proof. by destruct id. Qed.

Lemma set_producer_valid role node output :
  retained_output_valid role node output = true →
  retained_output_valid role node (set_producer output (output_producer_of prior node (retained_name output))) = true.
Proof.
  destruct prior_identity as (Hn & Hid & _). unfold retained_output_valid. rewrite retained_producer_set, retained_name_set.
  rewrite !andb_true_iff. intros [_ Hc]. split; [|by destruct output].
  simpl. rewrite Hid, (proj2 (N.eqb_neq _ _)) by lia. by rewrite !bool_decide_true by done.
Qed.

Lemma taken_outputs_valid entry original step outputs :
  inherits prior entry original step → ast_outputs original = Some outputs →
  retained_outputs_valid AttemptStep (ast_id step) ∅ (taken_outputs prior original (ast_id step) outputs) = true.
Proof.
  intros Hi Ho. destruct (original_checked _ _ _ Hi) as [_ [_ Hrole _ Hset _ _]]. unfold retained_output_set_valid in Hset. rewrite Ho, Hrole in Hset.
  rewrite (proj2 (find_step_Some _ _ _ (ih_original _ _ _ _ Hi))) in Hset. destruct (negb _ && _); [done|].
  unfold taken_outputs. case_decide; [|done]. apply retained_outputs_checked in Hset as [Hnd Hall]. apply retained_outputs_checked. split.
  - rewrite <-list_fmap_compose. erewrite list_fmap_ext; [exact Hnd|]. intros k o _. apply retained_name_set.
  - intros output (o & -> & Hin)%list_elem_of_fmap. rewrite retained_name_set. destruct (Hall o Hin) as (? & ? & ?).
    split_and!; [done..|]. by apply set_producer_valid.
Qed.

Lemma begun_step_checked step : step ∈ la_steps attempt → step_checked attempt step.
Proof.
  intros Hin. pose proof (proj1 (presented_orders _ Hpres)) as Hnd.
  assert (Hid : str_is_empty (ast_id step) = false).
  { apply identifier_filled, Hidentifiers. rewrite <-(begun_ids _ _ _ _ _ _ _ _ Hbegun Hnd). by apply list_elem_of_fmap_2. }
  destruct (begun_step _ _ _ _ _ _ _ _ Hbegun Hnd step Hin) as [(_ & node & _ & Hfresh)|(_ & entry & original & _ & Hi)].
  - split; [done|by rewrite Hfresh..].
  - destruct (ih_outputs _ _ _ _ Hi) as (outputs & Ho & Hos). destruct prior_identity as (Hn & Hpid & _).
    split; [done|apply Hi|..]; rewrite ?(ih_role _ _ _ _ Hi), ?(ih_state _ _ _ _ Hi), ?(ih_detail _ _ _ _ Hi), ?(ih_recovery _ _ _ _ Hi).
    + simpl. by rewrite Hpid, (proj2 (N.ltb_lt _ _)).
    + rewrite Hos. simpl. by eapply taken_outputs_valid.
    + done.
    + done.
Qed.

(** *** The record of the continuation *)

Lemma fresh_identifiers_Some ids seen :
  (∀ id, id ∈ ids → is_identifier id = true ∧ id ∉ seen) → NoDup ids → ∃ seen', fresh_identifiers ids seen = Some seen' ∧ seen' ≡ₚ ids ++ seen.
Proof.
  revert seen. induction ids as [|id ids IH]; intros seen Hall Hnd; simpl; [by eexists|]. apply NoDup_cons in Hnd as [Hnin Hnd].
  destruct (Hall id) as [-> Hno]; [set_solver|]. unfold string_mem. rewrite bool_decide_false by done. simpl.
  destruct (IH (id :: seen)) as (seen' & -> & Hperm); [|done|exists seen'; split; [done|by rewrite Hperm, Permutation_middle]].
  intros id' Hin. destruct (Hall id') as [? ?]; [set_solver|]. set_solver.
Qed.

(** A workflow that was admitted may invoke something. *)
Lemma capacity_positive workflow bytes capacity :
  resolve_workflow_capacity workflow bytes = Ok capacity → (0 < cap_maximum_invocations capacity)%N.
Proof.
  unfold resolve_workflow_capacity. intros (counts & _ & (base & (_ & _ & _ & _ & _ & Hpos & _)%calculate_capacity_Ok & Hk)%result_bind_Ok)%result_bind_Ok.
  case_decide; [by injection Hk as <-|]. apply result_bind_Ok in Hk as (? & _ & (? & _ & (? & _ & [= <-])%result_bind_Ok)%result_bind_Ok). done.
Qed.

(** What the caller and the system give [begin] is well formed. *)
Record start_valid : Prop := {
  sv_attempt_id : ∀ id, cs_attempt_id start = Ok id → is_canonical_uuid id = true;
  sv_owner_nonce : ∀ nonce, cs_owner_nonce start = Ok nonce → is_canonical_uuid nonce = true;
  sv_execution_host : ∀ host, cs_execution_host start = Ok host → validate_execution_host host = true;
  sv_created_at : ∀ time, cs_created_at start = Ok time → valid_timestamp time = true;
  sv_settled_at : ∀ time, cs_settled_at start = Ok time → valid_timestamp time = true;
  sv_root : is_canonical_absolute_path (cs_execution_root start) = true;
  sv_snapshot : snapshot_validate (cs_start_snapshot start) false = true;
  sv_abandonment : snapshot_validate (cs_abandonment_snapshot start) true = true;
  sv_quiescence : checked_add u64_max (cq_groups_terminated (pc_quiescence pending)) (cq_groups_absent (pc_quiescence pending))
    = Some (cq_groups_recorded (pc_quiescence pending)) ∧ canonical_timestamp (cq_proven_at (pc_quiescence pending)) = true;
  sv_content : valid_digest (rw_content_digest (cs_workflow start)) = true;
  sv_replacement : ∀ path, replacement_path start = Some path → is_canonical_absolute_path path = true;
  sv_manifest : ∀ digest, cs_retained_manifest start = Ok digest → valid_digest digest = true;
  sv_capacity : ∃ source_closure_bytes, resolve_workflow_capacity (rw_definition (cs_workflow start)) source_closure_bytes = Ok (cs_capacity start);
  sv_run : valid_digest (lv_workflow_digest (pc_run pending)) = true ∧ valid_digest (lv_workflow_manifest_digest (pc_run pending)) = true
}.
Hypothesis Hstart : start_valid.

Lemma prior_definition_valid :
  valid_digest (ad_digest (prior_definition pending prior)) = true ∧ valid_digest (ad_manifest_digest (prior_definition pending prior)) = true.
Proof.
  destruct prior_checked as (n & sids & nids & Hdef%ck_definition). unfold prior_definition, validate_attempt_definition in *.
  destruct (la_definition prior) as [def|]; simpl; [|apply Hstart]. cbn [option_all] in Hdef.
  destruct (attempt_definition_valid (la_attempt_number prior) def) eqn:E; [|done].
  unfold attempt_definition_valid in E. rewrite !andb_true_iff in E. tauto.
Qed.

Lemma prior_settlement_valid snapshot : prior_settlement prior start = Some snapshot → snapshot_validate snapshot true = true.
Proof.
  destruct prior_checked as (n & sids & nids & Hdef%ck_definition). unfold prior_settlement, validate_attempt_definition in *.
  destruct (attempt_is_terminal (la_state prior)); [|intros [= <-]; apply Hstart]. intros Hs. rewrite Hs in Hdef.
  destruct (negb (option_all _ _)); [done|]. simpl in Hdef. by destruct (snapshot_validate snapshot true).
Qed.

Lemma continued_definition_valid : attempt_definition_valid (la_attempt_number attempt) definition = true
  ∧ match replacement_path start with
    | Some _ => valid_digest (ad_manifest_digest definition) = true
    | None => ad_manifest_digest definition = ad_manifest_digest (prior_definition pending prior)
    end.
Proof.
  pose proof (bg_continued _ _ _ _ _ _ _ _ Hbegun) as Hc. pose proof (bg_number _ _ _ _ _ _ _ _ Hbegun) as Hn.
  destruct prior_definition_valid as [Hd Hm]. destruct prior_identity as [Hpos _]. unfold continued_definition in Hc.
  unfold attempt_definition_valid. destruct (replacement_path start) as [path|] eqn:Er.
  - apply result_bind_Ok in Hc as (digest & Hdigest & [= <-]). simpl. rewrite (sv_manifest Hstart _ Hdigest), (sv_content Hstart).
    split; [|done].
    rewrite (proj2 (N.eqb_neq _ _)), N.ltb_irrefl by lia. done.
  - destruct (negb _); [done|]. injection Hc as <-. simpl. rewrite Hd, Hm. split; [|done].
    rewrite (proj2 (N.eqb_neq _ _)), (proj2 (N.leb_gt _ _)) by lia. done.
Qed.

Local Abbreviation record := (continuation_record pending prior start from (pt_reexecuted split) entries.*1 (ad_manifest_digest definition)).

Lemma record_partition_valid : partition_valid record = true.
Proof.
  pose proof (proj1 (presented_orders _ Hpres)) as Hnd. destruct (begun_splits _ _ _ _ _ _ _ _ Hbegun) as (Hne & Hndf & Hk & Hs).
  destruct (inherited_entries_spec _ _ _ _ (bg_entries _ _ _ _ _ _ _ _ Hbegun)) as [Hent _].
  assert (Hfrom : ∀ f, f ∈ from → f ∈ vw_presentation_order W).
  { intros f Hf. apply step_in_order; [done|]. by apply (proj1 (Forall_forall _ _) Hk). }
  assert (Hdis : NoDup (pt_reexecuted split ++ pt_inherited split)) by by rewrite <-(sp_all _ _ _ Hs).
  apply NoDup_app in Hdis as (Hre & Hdis & Hin).
  unfold partition_valid. simpl. rewrite Hent, bool_decide_false by (by destruct from). rewrite bool_decide_true by done. simpl.
  destruct (fresh_identifiers_Some from []) as (? & -> & _); [|done|].
  { intros f Hf. split; [by apply Hidentifiers, Hfrom|set_solver]. }
  destruct (fresh_identifiers_Some (pt_reexecuted split) []) as (seen & -> & Hseen); [|done|].
  { intros id Hid. split; [|set_solver]. by apply Hidentifiers, (sp_reexecuted _ _ _ Hs). }
  destruct (fresh_identifiers_Some (pt_inherited split) seen) as (? & -> & _); [|done|].
  { intros id Hid. split; [by apply Hidentifiers, (sp_inherited _ _ _ Hs)|]. rewrite Hseen, app_nil_r. intros Hx. by apply (Hdis id). }
  simpl. apply forallb_forall. intros f Hf%list_elem_of_In. apply bool_decide_eq_true, (sp_reexecuted _ _ _ Hs).
  split; [by apply Hfrom|]. exists f. by split.
Qed.

Lemma record_valid : validate_continuation_record record = true.
Proof.
  unfold validate_continuation_record. rewrite record_partition_valid. destruct prior_identity as (_ & _ & Hroot).
  destruct continued_definition_valid as [_ Hm]. destruct prior_definition_valid as [_ Hp]. destruct (sv_quiescence Hstart) as [Hq Ht].
  rewrite !andb_true_iff. split_and!; [done|..].
  - unfold definition_valid. simpl. destruct (replacement_path start) as [path|] eqn:Er.
    + by rewrite (sv_replacement Hstart _ Er), Hm, Hp.
    + by rewrite Hm, Hp, bool_decide_true.
  - simpl. destruct (path_eq _ _); [done|apply Hstart].
  - done.
  - apply Hstart.
  - exact Hroot.
  - unfold preparation_valid, quiescence_valid. simpl. by rewrite (sv_snapshot Hstart), Hq, bool_decide_true, Ht.
  - simpl. destruct (prior_settlement prior start) as [snapshot|] eqn:E; [by apply prior_settlement_valid|done].
  - apply (snapshot_comparison _ (cs_start_snapshot start)); [done|done|apply Hstart|apply prior_settlement_valid|done].
Qed.

Lemma zip_inherited :
  Forall2 (λ entry step, ast_id step = cis_id entry) entries.*1 (List.filter is_inherited_step (la_steps attempt)).
Proof.
  pose proof (proj1 (presented_orders _ Hpres)) as Hnd. pose proof (begun_inherited_ids _ _ _ _ _ _ _ _ Hbegun Hnd) as Hids.
  destruct (inherited_entries_spec _ _ _ _ (bg_entries _ _ _ _ _ _ _ _ Hbegun)) as [Hent _]. rewrite <-Hent in Hids.
  apply Forall2_same_length_lookup_2.
  - rewrite <-(length_fmap cis_id), <-Hids. by rewrite length_fmap.
  - intros k entry step He Hs. apply (f_equal (λ l, l !! k)) in Hids. rewrite !list_lookup_fmap in Hids.
    rewrite Hs in Hids. rewrite list_lookup_fmap in He. destruct (entries !! k) as [[e o]|]; [|done]. simpl in *. congruence.
Qed.

Lemma NoDup_fmap_eq {A B} (f : A → B) (l : list A) x y : NoDup (f <$> l) → x ∈ l → y ∈ l → f x = f y → x = y.
Proof.
  intros Hnd (i & Hi)%list_elem_of_lookup (j & Hj)%list_elem_of_lookup Heq.
  assert (i = j) as ->; [|congruence]. eapply NoDup_lookup; [exact Hnd|by rewrite list_lookup_fmap, Hi|]. by rewrite list_lookup_fmap, Hj, Heq.
Qed.

(** The entries and the steps they are about. *)
Lemma zip_inherits entry step :
  (entry, step) ∈ zip entries.*1 (List.filter is_inherited_step (la_steps attempt)) →
  cis_id entry = ast_id step ∧ step ∈ la_steps attempt ∧ ∃ original, inherits prior entry original step.
Proof.
  pose proof (proj1 (presented_orders _ Hpres)) as Hnd. destruct (begun_splits _ _ _ _ _ _ _ _ Hbegun) as (_ & _ & _ & Hsp).
  destruct (inherited_entries_spec _ _ _ _ (bg_entries _ _ _ _ _ _ _ _ Hbegun)) as [Hent _].
  intros (k & e & s & [= -> ->] & He & Hs)%elem_of_lookup_zip_with. pose proof (Forall2_lookup_lr _ _ _ _ _ _ zip_inherited He Hs) as Hid.
  assert (Hstep : s ∈ la_steps attempt ∧ is_inherited_step s = true).
  { apply list_elem_of_lookup_2, list_elem_of_In, filter_In in Hs as [? ?]. split; [by apply list_elem_of_In|done]. }
  destruct Hstep as [Hstep Hin]. split_and!; [done..|].
  destruct (begun_step _ _ _ _ _ _ _ _ Hbegun Hnd s Hstep) as [[Hno _]|(_ & e' & original & He' & Hi)].
  { rewrite (begun_inherited _ _ _ _ _ _ _ _ Hbegun Hnd s Hstep), bool_decide_false in Hin by done. done. }
  exists original. assert (e = e') as ->; [|done].
  apply (NoDup_fmap_eq cis_id entries.*1); [|by eapply list_elem_of_lookup_2|by apply (list_elem_of_fmap_2 fst entries (e', original))|].
  - rewrite Hent. eapply sublist_NoDup; [exact Hnd|apply Hsp].
  - rewrite <-Hid. apply Hi.
Qed.

Lemma record_matched : record_matches attempt record (List.filter is_inherited_step (la_steps attempt)) = true.
Proof.
  pose proof (proj1 (presented_orders _ Hpres)) as Hnd.
  unfold record_matches. rewrite record_valid, (bg_trigger _ _ _ _ _ _ _ _ Hbegun), (bg_root _ _ _ _ _ _ _ _ Hbegun),
    (begun_reexecuted_ids _ _ _ _ _ _ _ _ Hbegun Hnd). rewrite !bool_decide_true; try done; [|apply (Forall2_length _ _ _ zip_inherited)].
  apply forallb_forall. intros [entry step] Hin%list_elem_of_In. apply bool_decide_eq_true. by apply zip_inherits.
Qed.

(** Canonical paths with the same components are the same. *)
Lemma canonical_path_eq left right :
  is_canonical_absolute_path left = true → is_canonical_absolute_path right = true → path_eq left right = true → left = right.
Proof.
  unfold is_canonical_absolute_path, path_eq. rewrite !andb_true_iff, !bool_decide_eq_true. intros [_ Hl] [_ Hr] Heq. by rewrite <-Hl, Heq.
Qed.

Lemma prior_matched : prior_matches record (settled_prior start prior) = true.
Proof.
  destruct prior_identity as (_ & _ & Hroot). unfold prior_matches, settled_prior, settle_abandoned. simpl. unfold prior_settlement.
  assert (Hr : default (la_execution_root prior) (if path_eq (cs_execution_root start) (la_execution_root prior) then None
    else Some (cs_execution_root start)) = cs_execution_root start).
  { destruct (path_eq _ _) eqn:E; [|done]. symmetry. by apply canonical_path_eq; [apply Hstart|..]. }
  destruct (attempt_is_terminal (la_state prior)); simpl; rewrite Hr; by rewrite !bool_decide_true.
Qed.

Lemma continuation_passes : validate_attempt_continuation index' attempt = Ok tt.
Proof.
  pose proof (proj1 (presented_orders _ Hpres)) as Hnd. destruct prior_position as (i & _ & Hat & _).
  unfold validate_attempt_continuation. rewrite (bg_record _ _ _ _ _ _ _ _ Hbegun), record_matched. cbn [negb].
  rewrite (bg_before _ _ _ _ _ _ _ _ Hbegun). cbn [mbind option_bind].
  destruct (extended_attempt _ _ (index_attempt_at _ _ Hindex _ _ Hat)) as [-> _]. rewrite decide_True by done.
  rewrite prior_matched. cbn [negb]. rewrite (proj2 (validate_inherited_steps_spec _ _ _ _)).
  - cbn [result_bind]. rewrite (proj2 (forallb_forall _ _)); [done|]. intros step [Hin Hs]%filter_In. apply list_elem_of_In in Hin.
    apply bool_decide_eq_true in Hs.
    destruct (begun_step _ _ _ _ _ _ _ _ Hbegun Hnd step Hin) as [(_ & node & _ & Hf)|(_ & e & o & _ & Hi)].
    + rewrite Hf in Hs. done.
    + rewrite (ih_state _ _ _ _ Hi) in Hs. done.
  - intros [entry step] (_ & Hin & original & Hi)%zip_inherits. by eapply inherited_step_passes.
Qed.

(** *** Every attempt *)

Lemma begun_identity : validate_attempt_identity attempt (1 + N.of_nat size) = Ok tt.
Proof.
  destruct prior_position as (i & Hsize & _ & Hi%state_attempt_index_Some). pose proof (bg_number _ _ _ _ _ _ _ _ Hbegun) as Hn.
  unfold validate_attempt_identity. rewrite (proj2 (N.eqb_eq _ _)) by lia. rewrite (bg_trigger _ _ _ _ _ _ _ _ Hbegun).
  rewrite (bg_before _ _ _ _ _ _ _ _ Hbegun), bool_decide_true by (f_equal; lia).
  by rewrite (bg_root _ _ _ _ _ _ _ _ Hbegun), (sv_attempt_id Hstart _ (bg_id _ _ _ _ _ _ _ _ Hbegun)), (sv_root Hstart).
Qed.

Lemma begun_definition : validate_attempt_definition attempt = Ok tt.
Proof.
  pose proof (proj1 (presented_orders _ Hpres)) as Hnd. destruct (bg_owner _ _ _ _ _ _ _ _ Hbegun) as [Hnonce Hhost].
  unfold validate_attempt_definition, validate_owner. rewrite (bg_definition _ _ _ _ _ _ _ _ Hbegun). cbn [option_all].
  rewrite (proj1 continued_definition_valid).
  rewrite (bg_created _ _ _ _ _ _ _ _ Hbegun), (bg_unsettled _ _ _ _ _ _ _ _ Hbegun), (sv_owner_nonce Hstart _ Hnonce),
    (sv_execution_host Hstart _ Hhost). cbn.
  destruct (begun_splits _ _ _ _ _ _ _ _ Hbegun) as (Hne & _ & Hk & _). destruct (exists_elem from Hne) as [f Hf].
  assert (Hord : f ∈ vw_presentation_order W) by (apply step_in_order; [done|]; by apply (proj1 (Forall_forall _ _) Hk)).
  rewrite <-(begun_ids _ _ _ _ _ _ _ _ Hbegun Hnd) in Hord. destruct (la_steps attempt); [by apply not_elem_of_nil in Hord|done].
Qed.

Lemma begun_recovery node_ids : validate_attempt_recovery attempt node_ids = Ok tt.
Proof.
  pose proof (proj1 (presented_orders _ Hpres)) as Hnd. unfold validate_attempt_recovery, recalculate_invocation_accounting.
  rewrite (bg_progress _ _ _ _ _ _ _ _ Hbegun). cbn. rewrite (proj2 (N.eqb_neq _ _)) by (destruct (sv_capacity Hstart) as [bytes Hcap%capacity_positive]; lia).
  rewrite (proj2 (N.ltb_ge _ _)) by lia. cbn. rewrite bool_decide_true by done. cbn.
  assert (Hnone : ∀ steps, (∀ s, s ∈ steps → ast_recovery s = None) → validate_recoveries attempt steps = Ok tt).
  { induction steps as [|s steps IH]; intros Hall; [done|]. cbn. rewrite (Hall s) by set_solver. apply IH. set_solver. }
  rewrite andb_false_r. apply Hnone. intros s Hs. destruct (begun_step _ _ _ _ _ _ _ _ Hbegun Hnd s Hs) as [(_ & node & _ & ->)|(_ & e & o & _ & Hi)];
    [done|apply Hi].
Qed.

Lemma begun_attempt_passes : validate_attempt index' attempt (1 + N.of_nat size) = Ok tt.
Proof.
  pose proof (proj1 (presented_orders _ Hpres)) as Hnd. apply validate_attempt_spec.
  destruct (bg_quiet _ _ _ _ _ _ _ _ Hbegun) as (Hc & Hf & Hi & Hrej & Hg & Hres).
  destruct (bg_times _ _ _ _ _ _ _ _ Hbegun) as (Hcr & Hst & Hse).
  pose proof (bg_created _ _ _ _ _ _ _ _ Hbegun) as Hstate'. pose proof (bg_finalizers _ _ _ _ _ _ _ _ Hbegun) as Hfin.
  destruct (proj2 (validate_attempt_steps_spec attempt (la_steps attempt) ∅)) as [ids Hids].
  { split; [by rewrite (begun_ids _ _ _ _ _ _ _ _ Hbegun Hnd)|]. intros step Hs. split; [set_solver|by apply begun_step_checked]. }
  exists ids, ids. split.
  - apply begun_identity.
  - unfold validate_attempt_timeline. by rewrite (sv_created_at Hstart _ Hcr), Hst, Hse, Hstate'.
  - apply begun_definition.
  - unfold validate_attempt_start. by rewrite Hst, Hstate'.
  - unfold validate_attempt_cancellation, attempt_cancellation_requested, finalization_was_cancelled. by rewrite Hc, Hf, Hi, Hstate', Hfin.
  - unfold validate_attempt_outcome. by rewrite Hi, Hrej, Hstate'.
  - exact Hids.
  - apply continuation_passes.
  - unfold validate_attempt_finalization. by rewrite Hfin.
  - apply begun_recovery.
  - unfold validate_attempt_actions. by rewrite (bg_progress _ _ _ _ _ _ _ _ Hbegun), Hstate'.
  - unfold validate_attempt_guards. by rewrite Hg.
  - unfold validate_attempt_result. by rewrite Hstate', Hres.
Qed.

(** An attempt whose predecessor is not the one that was settled. *)
Lemma continuation_kept a :
  (la_trigger a = AttemptContinuation → la_prior_attempt_number a ≠ Some (la_attempt_number prior)) →
  validate_attempt_continuation index a = Ok tt → validate_attempt_continuation index' a = Ok tt.
Proof.
  intros Hprior. unfold validate_attempt_continuation. destruct (la_continuation a) as [continuation|]; [|done].
  destruct (record_matches a continuation _) eqn:Er; [|done]. cbn [negb].
  assert (Htrigger : la_trigger a = AttemptContinuation).
  { unfold record_matches in Er. rewrite !andb_true_iff, !bool_decide_eq_true in Er. tauto. }
  destruct (la_prior_attempt_number a) as [n|]; [|done]. cbn [mbind option_bind].
  destruct (index_attempt index n) as [before|] eqn:Ea; [|done]. destruct (extended_attempt n before Ea) as [-> _].
  rewrite decide_False by (intros ->; by apply Hprior). destruct (prior_matches continuation before); [|done]. cbn [negb].
  destruct (validate_inherited_steps index _ _ _) as [()|] eqn:Ev; [|done]. cbn [result_bind].
  rewrite (proj2 (validate_inherited_steps_spec _ _ _ _)); [done|]. intros entry Hin.
  eapply (validate_inherited_step_grows index); [exact extended_grows|done..|]. by apply (proj1 (validate_inherited_steps_spec _ _ _ _) Ev).
Qed.

(** Whether the attempt before was abandoned with an invocation recorded as
    active. *)
Local Abbreviation stuck := (negb (attempt_is_terminal (la_state prior)) && existsb is_active_invocation (apr_invocations (la_progress prior))).

Hypothesis Hsettled : attempt_is_terminal (la_state prior) = false → ∃ time, cs_settled_at start = Ok time.

Lemma earlier_attempt_passes i a :
  ls_attempts (pc_state pending) !! i = Some a →
  validate_attempt index' (if decide (S i = size) then settled_prior start prior else a) (1 + N.of_nat i)
  = if bool_decide (S i = size) && stuck then Err AttemptRecoveryInvocationInvalid else Ok tt.
Proof.
  intros Hat. pose proof (Hchecked i a Hat) as (sids & nids & Hck)%validate_attempt_spec.
  destruct prior_position as (j & Hsize & Hatp & Hj%state_attempt_index_Some).
  assert (Hi : i < size) by by eapply lookup_lt_Some.
  assert (Hkept : validate_attempt_continuation index' a = Ok tt).
  { apply continuation_kept; [|apply Hck]. intros Htrigger Hp. pose proof (ck_identity _ _ _ _ _ Hck) as Hid.
    unfold validate_attempt_identity in Hid. rewrite Htrigger, Hp in Hid.
    destruct (negb _); [done|]. case_bool_decide as Hb; [|done]. injection Hb as Hb. lia. }
  assert (Hsame : validate_attempt index' a (1 + N.of_nat i) = Ok tt).
  { apply validate_attempt_spec. exists sids, nids. destruct Hck. by split. }
  case_decide as Hlast; [|by rewrite bool_decide_false].
  rewrite bool_decide_true by done. assert (a = prior) as -> by (apply (extended_attempts i a Hat), Hlast).
  unfold settled_prior, settle_abandoned. destruct (attempt_is_terminal (la_state prior)) eqn:Et; [done|].
  destruct (Hsettled eq_refl) as [time Htime]. rewrite Htime. cbn [result_ok default from_option id negb andb].
  eapply settled_checked; [exact Hck|done|apply Hstart|by apply (sv_settled_at Hstart)|done].
Qed.

Lemma extended_attempts_valid :
  validate_attempts index' 1 (ls_attempts state) = if stuck then Err AttemptRecoveryInvocationInvalid else Ok tt.
Proof.
  pose proof (begun_last pending from start attempt prior split entries definition Hbegun state Hstate) as Hlast.
  destruct (begun_attempts pending from start attempt prior split entries definition Hbegun state Hstate) as (earlier & Hatt & Hatt').
  assert (Hpos : ls_attempts (pc_state pending) !! length earlier = Some prior) by (rewrite Hatt, lookup_app_r, Nat.sub_diag by done; done).
  assert (Hsize : size = S (length earlier)) by (rewrite Hatt, length_app; simpl; lia).
  assert (Hearlier : validate_attempts index' 1 earlier = Ok tt).
  { apply validate_attempts_spec. intros i a Ha. pose proof (lookup_lt_Some _ _ _ Ha).
    pose proof (earlier_attempt_passes i a) as Hp. rewrite decide_False, bool_decide_false in Hp by lia. apply Hp.
    rewrite Hatt. by apply lookup_app_l_Some. }
  pose proof (earlier_attempt_passes (length earlier) prior Hpos) as Hp. rewrite decide_True, bool_decide_true in Hp by done. cbn [andb] in Hp.
  transitivity (validate_attempts index' 1 (earlier ++ [settled_prior start prior; attempt])).
  { apply (f_equal (validate_attempts index' 1)). by rewrite Hatt', <-app_assoc. }
  rewrite validate_attempts_app, Hearlier. cbn [result_bind app validate_attempts]. rewrite Hp.
  destruct stuck; [done|]. cbn [result_bind]. pose proof begun_attempt_passes as Hb. rewrite Hsize in Hb.
  replace (1 + N.of_nat (length earlier) + 1)%N with (1 + N.of_nat (S (length earlier)))%N by lia. by rewrite Hb.
Qed.

(** *** What an inherited step hands on *)

Record hands_on (step : AttemptStepV1) (entry : ContinuationInheritedStepV1) (disposition : InheritedDisposition)
    (outputs : list RetainedOutputV1) : Prop := {
  ho_disposition : index_disposition index' (la_attempt_number attempt) (ast_id step) = Some disposition;
  ho_prior : match cis_prior_state entry with
             | PriorSucceeded => disposition = InhSucceeded
             | PriorSkipped => disposition = InhSkipped
             | PriorInherited => True
             end;
  ho_outputs : ast_outputs step = Some outputs;
  ho_names : NoDup (retained_name <$> outputs);
  ho_skipped : disposition = InhSkipped → outputs = [];
  ho_producers : ∀ output, output ∈ outputs → ∃ producer producer_attempt,
    retained_producer output = Some producer
    ∧ index_attempt index' (op_attempt_number producer) = Some producer_attempt
    ∧ la_attempt_id producer_attempt = op_attempt_id producer
    ∧ op_node producer = ast_id step ∧ op_output producer = retained_name output
    ∧ str_is_empty (op_attempt_id producer) = false ∧ (0 < op_attempt_number producer <= la_attempt_number prior)%N
}.

Lemma uuid_filled value : is_canonical_uuid value = true → str_is_empty value = false.
Proof. by destruct value. Qed.

Lemma taken_producer entry original step outputs output :
  inherits prior entry original step → ast_outputs original = Some outputs →
  output ∈ taken_outputs prior original (ast_id step) outputs →
  ∃ producer, retained_producer output = Some producer ∧ (op_attempt_number producer <= la_attempt_number prior)%N.
Proof.
  intros Hi Ho Hout. pose proof (taken_output_valid _ _ _ _ _ Hi Ho Hout) as Hv. apply inherited_output_valid_spec in Hv as
    (po & expected & pa & ss & so & source & _ & Hexp & _ & _ & _ & _ & Hp & _ & _ & _ & _). exists expected. split; [done|].
  unfold taken_outputs in Hout. case_decide as Hs.
  - apply list_elem_of_fmap in Hout as (o & -> & _). rewrite retained_producer_set in Hp. injection Hp as <-. simpl. lia.
  - destruct (ast_state original) eqn:Es; unfold expected_producer in Hexp; rewrite Es in Hexp; try done.
    destruct (original_inherited _ _ _ Hi Es) as (r & before & Hv).
    apply validate_inherited_step_spec in Hv as (detail & dd & ps & pst & outs & pro & _ & _ & _ & _ & E5 & _ & _ & E8).
    rewrite Ho in E5. injection E5 as <-. specialize (E8 output Hout). apply inherited_output_valid_spec in E8
      as (po' & expected' & pa' & ss' & so' & source' & _ & _ & E3 & _ & _ & _ & Hp' & _). rewrite Hp in Hp'. injection Hp' as <-.
    destruct (index_attempt_Some _ _ Hindex _ _ E3) as (_ & k & Hk%state_attempt_index_Some & Hat).
    destruct prior_position as (j & Hsize & _ & Hj%state_attempt_index_Some). apply lookup_lt_Some in Hat. lia.
Qed.

Lemma inherited_handed_on step :
  step ∈ la_steps attempt → ast_id step ∈ pt_inherited split →
  ∃ entry original disposition outputs, inherits prior entry original step ∧ hands_on step entry disposition outputs.
Proof.
  intros Hin Hid. pose proof (proj1 (presented_orders _ Hpres)) as Hnd.
  destruct (begun_step _ _ _ _ _ _ _ _ Hbegun Hnd step Hin) as [[? _]|(_ & entry & original & He & Hi)]; [done|].
  destruct (original_disposition _ _ _ Hi) as (disposition & Hd & Hps). destruct (ih_outputs _ _ _ _ Hi) as (outputs & Ho & Hos).
  destruct (original_outputs _ _ _ _ _ Hi Ho Hd) as [Hnames Hskip].
  pose proof (inherited_step_passes _ _ _ Hin Hi) as Hpass. apply validate_inherited_step_spec in Hpass
    as (detail & d' & ps & pst & outs & po & _ & E2 & E3 & _ & E5 & _ & E7 & E8). rewrite Hos in E5. injection E5 as <-.
  exists entry, original, disposition, (taken_outputs prior original (ast_id step) outputs). split; [done|]. split; [|done|done|..].
  - pose proof (begun_last pending from start attempt prior split entries definition Hbegun state Hstate) as Hlast.
    rewrite (index_disposition_at _ _ Hindex' _ _ _ Hlast).
    rewrite (find_step_NoDup (la_steps attempt)); [|by rewrite (begun_ids _ _ _ _ _ _ _ _ Hbegun Hnd)|done].
    cbn. rewrite (ih_state _ _ _ _ Hi), (ih_detail _ _ _ _ Hi). simpl. by apply (gr_disposition _ _ extended_grows).
  - unfold taken_outputs. case_decide; [|done]. rewrite <-list_fmap_compose. erewrite list_fmap_ext; [exact Hnames|].
    intros k o _. apply retained_name_set.
  - intros ->. unfold taken_outputs. rewrite (Hskip eq_refl). by case_decide.
  - intros output Hout. destruct (taken_producer _ _ _ _ _ Hi Ho Hout) as (producer & Hp & Hle).
    pose proof (taken_outputs_valid _ _ _ _ Hi Ho) as [_ Hall]%retained_outputs_checked. destruct (Hall output Hout) as (_ & _ & Hv).
    unfold retained_output_valid in Hv. rewrite Hp, !andb_true_iff, negb_true_iff, N.eqb_neq, !bool_decide_eq_true in Hv.
    destruct Hv as [[[[Huuid Hne] Hnode] Hname] _].
    apply (taken_output_valid _ _ _ _ _ Hi Ho), inherited_output_valid_spec in Hout
      as (po' & expected & pa & ss & so & source & _ & _ & E & _ & _ & _ & Hp' & _ & Hpid & _). rewrite Hp in Hp'. injection Hp' as <-.
    exists producer, pa. split_and!; try done; [by apply uuid_filled|lia].
Qed.
End extended.

(** ** Updates of the state of a run

    What [validate_state] checks, the update of a state and the state that
    [begin] writes: it passes the checks unless the attempt before was
    abandoned with an active invocation. *)

Local Open Scope list_scope.

Section states.
Context `{!TimeLibrary, !MediaTypes}.
Implicit Types (pending : PendingLocalContinuation) (start : ContinuationStart) (state : LocalRunStateV1).

(** An attempt that lost its owner while an invocation was recorded as
    active. *)
Definition stuck_attempt (attempt : LocalAttemptV1) : bool :=
  negb (attempt_is_terminal (la_state attempt)) && existsb is_active_invocation (apr_invocations (la_progress attempt)).

Record state_checked (state : LocalRunStateV1) (index : LocalRunStateIndex) : Prop := {
  stc_schema : ls_schema_version state = 1%N;
  stc_identity : is_canonical_uuid (ls_local_run_id state) = true;
  stc_revision : ls_revision state ≠ 0%N;
  stc_number : ls_current_attempt_number state ≠ 0%N;
  stc_last : la_attempt_number <$> last (ls_attempts state) = Some (ls_current_attempt_number state);
  stc_limit : length (ls_diagnostics state) <= MAXIMUM_DIAGNOSTICS;
  stc_index : state_index_new state = Ok index;
  stc_attempts : validate_attempts index 1 (ls_attempts state) = Ok tt;
  stc_diagnostics : validate_diagnostics (ls_current_attempt_number state) 0 (ls_diagnostics state) = Ok tt
}.

Lemma validate_state_spec state : validate_state state = Ok tt ↔ ∃ index, state_checked state index.
Proof.
  unfold validate_state. split.
  - destruct (negb (ls_schema_version state =? 1)%N) eqn:E1; [done|]. destruct (negb (is_canonical_uuid _)) eqn:E2; [done|].
    destruct (ls_revision state =? 0)%N eqn:E3; [done|]. destruct (ls_current_attempt_number state =? 0)%N eqn:E4; [done|].
    destruct (match ls_attempts state with [] => true | _ => false end); [done|]. case_bool_decide as E5; [|done]. cbn [negb].
    case_bool_decide as E6; [done|]. intros (index & E7 & ([] & E8 & E9)%result_bind_Ok)%result_bind_Ok. exists index.
    apply negb_false_iff in E1, E2. apply N.eqb_eq in E1. apply N.eqb_neq in E3, E4. split; try done. lia.
  - intros (index & [E1 E2 E3 E4 E5 E6 E7 E8 E9]). rewrite E1, E2, (proj2 (N.eqb_neq _ _) E3), (proj2 (N.eqb_neq _ _) E4). cbn [negb N.eqb Pos.eqb].
    destruct (ls_attempts state) as [|a attempts] eqn:Ea; [done|]. rewrite <-Ea in *. rewrite (bool_decide_true _ E5). cbn [negb].
    rewrite bool_decide_false by lia. rewrite E7. cbn [result_bind]. rewrite E8. cbn [result_bind]. exact E9.
Qed.

(** Diagnostics stay valid when an attempt is added. *)
Lemma validate_diagnostics_mono m n sequence diagnostics :
  (m <= n)%N → validate_diagnostics m sequence diagnostics = Ok tt → validate_diagnostics n sequence diagnostics = Ok tt.
Proof.
  intros Hle. revert sequence. induction diagnostics as [|d diagnostics IH]; intros sequence; simpl; [done|].
  destruct (m <? ldg_attempt_number d)%N eqn:E; [by rewrite !orb_true_r|]. apply N.ltb_ge in E.
  rewrite (proj2 (N.ltb_ge n _)) by lia. destruct (_ || _); [done|]. apply IH.
Qed.

(** No attempt of a valid state is terminal with an active invocation. *)
Lemma terminal_without_active state attempt :
  validate_state state = Ok tt → attempt ∈ ls_attempts state → attempt_is_terminal (la_state attempt) = true →
  existsb is_active_invocation (apr_invocations (la_progress attempt)) = false.
Proof.
  intros (index & Hck)%validate_state_spec (i & Hi)%list_elem_of_lookup Ht.
  pose proof (proj1 (validate_attempts_spec _ _ _) (stc_attempts _ _ Hck) i attempt Hi) as (sids & nids & Hat)%validate_attempt_spec.
  pose proof (ck_recovery _ _ _ _ _ Hat) as Hr. unfold validate_attempt_recovery in Hr. destruct (_ || _); [done|].
  destruct (validate_invocations _ _ _ _); [|done]. cbn [result_bind] in Hr. rewrite Ht in Hr. by destruct (existsb _ _).
Qed.

Lemma store_update_Ok mutate state replaced next :
  store_update mutate state replaced = Ok next →
  ∃ changed, mutate state = Ok changed ∧ next = set_revision changed (ls_revision changed + 1) ∧ validate_state next = Ok tt.
Proof.
  unfold store_update. intros (changed & Hm & (revision & Hr & ([] & Hv & ([] & _ & [= <-])%result_bind_Ok)%result_bind_Ok)%result_bind_Ok)%result_bind_Ok.
  destruct (u64_add _ _) as [sum|] eqn:E; [|done]. injection Hr as ->. apply checked_add_Some in E as [-> _]. eauto.
Qed.

Lemma current_attempt_last state earlier prior :
  current_attempt_mut state = Ok (earlier, prior) → ls_attempts state = earlier ++ [prior].
Proof.
  unfold current_attempt_mut. destruct (last (ls_attempts state)) as [attempt|] eqn:E; [|done]. destruct (negb _); [done|].
  intros [= <- <-]. apply last_Some in E as [before ->]. rewrite length_app. simpl. rewrite Nat.add_1_r. simpl. by rewrite take_app_length.
Qed.

(** The state [begin] makes. *)
Lemma begin_update_continues start attempt pending changed :
  begin_update start attempt (pc_state pending) = Ok changed →
  ∃ earlier prior, ls_attempts (pc_state pending) = earlier ++ [prior]
    ∧ changed = set_attempts (pc_state pending) (la_attempt_number attempt) ((earlier ++ [settled_prior start prior]) ++ [attempt]).
Proof.
  unfold begin_update. intros ([earlier prior] & Hl%current_attempt_last & Hk)%result_bind_Ok. destruct (negb _); [done|].
  apply result_bind_Ok in Hk as (s & Hs & [= <-]). exists earlier, prior. split; [done|]. rewrite <-app_assoc. cbn [app].
  unfold settled_prior, settle_abandoned in *. destruct (attempt_is_terminal (la_state prior)); [by injection Hs as <-|].
  apply result_bind_Ok in Hs as (time & -> & [= <-]). done.
Qed.

Lemma begin_continuation_continues pending from start attempt state :
  begin_continuation pending from start = Ok (attempt, state) →
  begin_attempt pending from start = Ok attempt ∧ continues pending start attempt state ∧ validate_state state = Ok tt.
Proof.
  unfold begin_continuation. intros (a & Ha & (? & _ & (s & Hs & [= -> ->])%result_bind_Ok)%result_bind_Ok)%result_bind_Ok.
  apply store_update_Ok in Hs as (changed & Hc & -> & Hv). split_and!; [done| |done].
  apply begin_update_continues in Hc as (earlier & prior & Hl & ->). by exists earlier, prior.
Qed.

(** *** The checks of the state that [begin] makes *)

Section begun_state.
Context (pending : PendingLocalContinuation) (from : list string) (start : ContinuationStart).
Context (attempt prior : LocalAttemptV1) (split : Partition) (entries : list (ContinuationInheritedStepV1 * AttemptStepV1))
  (definition : AttemptDefinitionV1) (index : LocalRunStateIndex) (time : string).
Hypothesis Hbegun : begun pending from start attempt prior split entries definition.
Hypothesis Hpres : presented (rw_definition (cs_workflow start)).
Hypothesis Hids : ∀ id, id ∈ vw_presentation_order (rw_definition (cs_workflow start)) → is_identifier id = true.
Hypothesis Hck : state_checked (pc_state pending) index.
Hypothesis Hstart : start_valid pending start.
Hypothesis Htime : cs_settled_at start = Ok time.

Lemma begin_update_Ok : ∃ changed, begin_update start attempt (pc_state pending) = Ok changed.
Proof.
  unfold begin_update, current_attempt_mut. pose proof (stc_last _ _ Hck) as Hlast.
  rewrite (bg_prior _ _ _ _ _ _ _ _ Hbegun) in *. injection Hlast as <-. rewrite N.eqb_refl. cbn [negb result_bind].
  rewrite (bg_number _ _ _ _ _ _ _ _ Hbegun), N.add_sub, N.eqb_refl. cbn [negb].
  destruct (attempt_is_terminal (la_state prior)); [by eexists|]. rewrite Htime. by eexists.
Qed.

Lemma begun_state_checked changed revision :
  begin_update start attempt (pc_state pending) = Ok changed → revision ≠ 0%N →
  validate_state (set_revision changed revision) = if stuck_attempt prior then Err AttemptRecoveryInvocationInvalid else Ok tt.
Proof.
  intros (earlier & p & Hold & Hnew)%begin_update_continues Hrev. set (next := set_revision changed revision).
  assert (Hcont : continues pending start attempt next) by (exists earlier, p; split; [done|by unfold next; rewrite Hnew]).
  destruct (extended_index _ _ _ _ _ _ _ _ Hbegun Hpres _ Hcont _ (stc_index _ _ Hck)) as (m & d & Hindex').
  pose proof (proj1 (validate_attempts_spec _ _ _) (stc_attempts _ _ Hck)) as Hchecked.
  pose proof (extended_attempts_valid pending from start attempt prior split entries definition Hbegun Hpres next Hcont index
    (stc_index _ _ Hck) m d Hindex' Hchecked Hids Hstart (λ _, ex_intro _ time Htime)) as Hall.
  assert (Hat : ls_attempts next = (earlier ++ [settled_prior start p]) ++ [attempt]) by (unfold next; by rewrite Hnew).
  pose proof (bg_number _ _ _ _ _ _ _ _ Hbegun) as Hn. pose proof (bg_prior _ _ _ _ _ _ _ _ Hbegun) as Hp.
  pose proof (stc_last _ _ Hck) as Hlast. rewrite Hp in Hlast. injection Hlast as Hlast.
  unfold validate_state. rewrite Hindex'. cbn [result_bind]. rewrite Hall. rewrite Hat, last_snoc.
  assert (Hfields : ls_schema_version next = 1%N ∧ ls_local_run_id next = ls_local_run_id (pc_state pending) ∧ ls_revision next = revision
    ∧ ls_current_attempt_number next = la_attempt_number attempt ∧ ls_diagnostics next = ls_diagnostics (pc_state pending)).
  { unfold next. rewrite Hnew. split_and!; try done. apply (stc_schema _ _ Hck). }
  destruct Hfields as (-> & -> & -> & -> & ->). rewrite (stc_identity _ _ Hck), (proj2 (N.eqb_neq _ _) Hrev). cbn [negb N.eqb Pos.eqb].
  rewrite (proj2 (N.eqb_neq (la_attempt_number attempt) 0)) by lia. rewrite bool_decide_true by done. cbn [negb].
  rewrite bool_decide_false by (pose proof (stc_limit _ _ Hck); lia).
  destruct ((earlier ++ [settled_prior start p]) ++ [attempt]) eqn:E; [by destruct earlier|].
  destruct (stuck_attempt prior) eqn:Es; unfold stuck_attempt in Es; rewrite Es; [done|]. cbn [result_bind].
  eapply validate_diagnostics_mono; [|apply (stc_diagnostics _ _ Hck)]. lia.
Qed.
End begun_state.
End states.
