(* ===== verification/SeedAvailability.v ===== *)
(** * An accepted continuation can be executed

    When the split of a continuation was accepted and the files of the run
    can be read, [load_execution_seed] gives the seed of the new attempt: what
    the split checked of the attempt before is what loading asks for. *)

From S2P Require Import Prelude Text Nodes Evidence Condition Document Validated Failures Validation Requirements Capacity Runtime RunTiming Results SchemaCommon ResultMetadata RunResults ValidDocuments Reducer Moves Ceiling FinishedRuns Continuation Partitions Attempts AttemptChecks Settlement Inheritance SeedLoading ContinuedStates.

Local Open Scope list_scope.

(** ** What an accepted split says *)

Lemma dedup_nil {A} `{EqDecision A} (l : list A) : dedup l = [] → l = [].
Proof. intros Hl. apply elem_of_nil_inv. intros x Hx. apply elem_of_dedup in Hx. rewrite Hl in Hx. by apply elem_of_nil in Hx. Qed.

Lemma sort_violations_nil violations W : sort_violations violations W = [] → violations = [].
Proof.
  intros Hs. pose proof (merge_sort_Permutation (violation_le W) violations) as Hp. unfold sort_violations in Hs. rewrite Hs in Hp.
  by apply Permutation_nil in Hp.
Qed.

Lemma foldl_add_nil (extra failures : list AdmissionViolation) :
  foldl (λ failures violation, if decide (violation ∈ failures) then failures else failures ++ [violation]) failures extra = [] →
  failures = [].
Proof.
  revert failures. induction extra as [|v extra IH]; intros failures; simpl; [done|]. intros Hnil%IH. case_decide; [done|].
  by apply app_eq_nil in Hnil as [_ ?].
Qed.

Lemma omap_nil {A B} (f : A → option B) l x : omap f l = [] → x ∈ l → f x = None.
Proof.
  intros Hnil Hx. destruct (f x) as [y|] eqn:E; [|done]. exfalso.
  assert (Hy : y ∈ omap f l) by (apply list_elem_of_omap; eauto). rewrite Hnil in Hy. by apply elem_of_nil in Hy.
Qed.

(** Only steps whose disposition is skipped are. *)
Lemma effectively_skipped state index number inherited states id :
  state_index_new state = Ok index → id ∈ (effective_skipped_sources state number inherited states).1 →
  index_disposition index number id = Some InhSkipped.
Proof.
  intros Hindex. unfold effective_skipped_sources. rewrite Hindex. simpl.
  cut (∀ acc, id ∈ (foldl (skipped_source (Some index) number states) acc inherited).1 →
    id ∈ acc.1 ∨ index_disposition index number id = Some InhSkipped).
  { intros Hcut Hin. apply Hcut in Hin. set_solver. }
  induction inherited as [|i inherited IH]; intros acc; simpl; [by left|]. intros [Hin|?]%IH; [|by right]. unfold skipped_source in Hin.
  cbn [mbind option_bind] in Hin. destruct (bt_get states i) as [[]|]; try (by left);
    destruct (index_disposition index number i) as [[]|] eqn:E; simpl in Hin; try (by left); set_solver.
Qed.

Lemma accepted_references state previous W from split prior index source :
  continuation_partition state previous W from = Ok (pt_reexecuted split, pt_inherited split) →
  partition W from = Ok split → last (ls_attempts state) = Some prior → state_index_new state = Ok index →
  source ∈ referenced_outputs W (pt_reexecuted split) → node_role (ros_node source) = RoleStep →
  node_id (ros_node source) ∈ pt_inherited split →
  index_disposition index (la_attempt_number prior) (node_id (ros_node source)) = Some InhSucceeded →
  ∃ step outputs retained declaration, find_step (la_steps prior) (node_id (ros_node source)) = Some step
    ∧ ast_outputs step = Some outputs ∧ find_output outputs (ros_output source) = Some retained
    ∧ step_output_declaration W (node_id (ros_node source)) (ros_output source) = Some declaration
    ∧ retained_output_matches_declaration retained declaration = true.
Proof.
  intros Hacc Hsplit Hlast Hindex Hin Hrole Hinh Hd. unfold continuation_partition in Hacc. rewrite Hsplit, Hlast in Hacc.
  destruct (effective_skipped_sources _ _ _ _) as [skipped violations] eqn:Esk.
  case_bool_decide as Hnil; [|done]. apply dedup_nil, sort_violations_nil, foldl_add_nil, app_eq_nil in Hnil as [_ Hnil].
  pose proof (omap_nil _ _ _ Hnil Hin) as Hnone. unfold retained_violation in Hnone.
  rewrite (bool_decide_true (node_role _ = _)), (bool_decide_true (_ ∈ pt_inherited split)) in Hnone by done. simpl in Hnone.
  rewrite bool_decide_false in Hnone.
  - destruct (find_step (la_steps prior) _) as [step|] eqn:E1; cbn [mbind option_bind] in Hnone; [|done].
    destruct (ast_outputs step) as [outputs|] eqn:E2; cbn [mbind option_bind] in Hnone; [|done].
    destruct (find_output outputs _) as [retained|] eqn:E3; [|done].
    destruct (step_output_declaration W _ _) as [declaration|] eqn:E4; [|done].
    destruct (retained_output_matches_declaration retained declaration) eqn:E5; [|done].
    by exists step, outputs, retained, declaration.
  - intros Hsk. assert (Hx : index_disposition index (la_attempt_number prior) (node_id (ros_node source)) = Some InhSkipped).
    { eapply effectively_skipped; [done|]. by rewrite Esk. }
    congruence.
Qed.

(** ** Loading outputs *)

Lemma bt_keys_insert_same {A B} (m : btree A) (m' : btree B) k v v' :
  bt_keys m = bt_keys m' → bt_keys (bt_insert m k v) = bt_keys (bt_insert m' k v').
Proof.
  unfold bt_keys. revert m'. induction m as [|[k1 v1] m IH]; intros [|[k1' v1'] m'] Hk; try done; simpl in *. injection Hk as <- Hk.
  destruct (String.compare k k1); simpl; f_equal; auto; by f_equal.
Qed.

Lemma elem_of_bt_insert {A} (m : btree A) k v e : e ∈ bt_insert m k v → e = (k, v) ∨ e ∈ m.
Proof.
  induction m as [|[k1 v1] m IH]; simpl; [set_solver|]. destruct (String.compare k k1); set_solver.
Qed.

Lemma NoDup_fmap_filter {A B} (f : A → B) (P : A → Prop) `{!∀ x, Decision (P x)} l : NoDup (f <$> l) → NoDup (f <$> filter P l).
Proof.
  induction l as [|x l IH]; [done|]. rewrite filter_cons, fmap_cons. intros [Hnin Hnd]%NoDup_cons. case_decide; [|by apply IH].
  rewrite fmap_cons. constructor; [|by apply IH]. intros (y & Heq & [_ Hy]%list_elem_of_filter)%list_elem_of_fmap. apply Hnin.
  rewrite Heq. by apply list_elem_of_fmap_2.
Qed.

Section outputs.
Context {Output : Type} `{!RetainedFiles Output}.
Context (run : LocalRunV1) (state : LocalRunStateV1) (index : LocalRunStateIndex) (W : ValidatedWorkflow) (id : string).

(** The files of the run can be read. *)
Record files_readable : Prop := {
  rd_workflow : ∀ a budget, ∃ loaded, rf_workflow state a budget = Ok loaded;
  rd_value : ∀ workflow node retained, ∃ value, rf_value state workflow node retained = Ok value;
  rd_definition : ∀ a, a ∈ ls_attempts state → ∃ resolved, resolved_attempt_definition run state a = Ok resolved
}.
Hypothesis Hreadable : files_readable.
Hypothesis Hindex : state_index_new state = Ok index.

(** An output that can be loaded. *)
Definition loadable (retained : RetainedOutputV1) : Prop :=
  ∃ declaration producer producer_attempt,
    step_output_declaration W id (retained_name retained) = Some declaration
    ∧ retained_output_matches_declaration retained declaration = true
    ∧ retained_producer retained = Some producer
    ∧ index_attempt index (op_attempt_number producer) = Some producer_attempt
    ∧ la_attempt_id producer_attempt = op_attempt_id producer.

Lemma load_output_Ok cache outputs producers retained :
  loadable retained → bt_keys producers = bt_keys outputs → retained_name retained ∉ bt_keys outputs →
  ∃ cache' value producer, retained_producer retained = Some producer
    ∧ load_output run state index W id (cache, (outputs, producers)) retained
      = Ok (cache', (bt_insert outputs (retained_name retained) value, bt_insert producers (retained_name retained) producer)).
Proof.
  intros (declaration & producer & pa & E1 & E2 & E3 & E4 & E5) Hkeys Hnew.
  destruct (index_attempt_Some _ _ Hindex _ _ E4) as (_ & i & _ & Hat). apply list_elem_of_lookup_2 in Hat.
  destruct (rd_definition Hreadable pa Hat) as [resolved Hres]. unfold load_output. rewrite E1. cbn [mbind option_bind].
  rewrite E2, E3. cbn [mbind option_bind]. rewrite E4. cbn [mbind option_bind]. rewrite decide_True by done. rewrite Hres. cbn [result_bind].
  assert (Hcached : ∃ cached, cached_producer_workflow state pa resolved cache = Ok cached).
  { unfold cached_producer_workflow. destruct (find_map _ _); [by eexists|].
    destruct (rd_workflow Hreadable pa cache.2) as [loaded ->]. by eexists. }
  destruct Hcached as [cached ->]. cbn [result_bind]. destruct (rd_value Hreadable cached.1 id retained) as [value ->]. cbn [result_bind].
  exists cached.2, value, producer. split; [done|]. unfold bt_contains_key.
  rewrite (bool_decide_false (is_Some (bt_get outputs _))) by by rewrite bt_get_is_Some.
  rewrite bool_decide_false; [done|]. by rewrite bt_get_is_Some, Hkeys.
Qed.

Lemma load_outputs_Ok cache outputs producers retained :
  Forall loadable retained → NoDup (retained_name <$> retained) → bt_keys producers = bt_keys outputs →
  (∀ r, r ∈ retained → retained_name r ∉ bt_keys outputs) →
  ∃ cache' outputs' producers',
    load_outputs run state index W id (cache, (outputs, producers)) retained = Ok (cache', (outputs', producers'))
    ∧ bt_keys producers' = bt_keys outputs'
    ∧ (∀ name, name ∈ bt_keys outputs' ↔ name ∈ bt_keys outputs ∨ name ∈ retained_name <$> retained)
    ∧ ∀ name producer, (name, producer) ∈ producers' →
        (name, producer) ∈ producers ∨ ∃ r, r ∈ retained ∧ retained_name r = name ∧ retained_producer r = Some producer.
Proof.
  revert cache outputs producers. induction retained as [|r retained IH]; intros cache outputs producers Hall Hnd Hkeys Hnew; cbn [load_outputs].
  { exists cache, outputs, producers. split_and!; [done|done|set_solver|by left]. }
  apply Forall_cons in Hall as [Hr Hall]. apply NoDup_cons in Hnd as [Hnin Hnd].
  destruct (load_output_Ok cache outputs producers r Hr Hkeys) as (cache1 & value & producer & Hp & ->); [apply Hnew; by left|]. cbn [result_bind].
  destruct (IH cache1 (bt_insert outputs (retained_name r) value) (bt_insert producers (retained_name r) producer))
    as (cache' & outputs' & producers' & -> & Hk & Hnames & Hprods); [done|done|by apply bt_keys_insert_same| |].
  { intros r' Hin. rewrite elem_of_bt_keys_insert. intros [Heq|Hold]; [|by apply (Hnew r'); [right|]].
    apply Hnin. rewrite <-Heq. by apply list_elem_of_fmap_2. }
  exists cache', outputs', producers'. split_and!; [done|done| |].
  - intros name. rewrite Hnames, elem_of_bt_keys_insert. set_solver.
  - intros name p [Hin|(r' & ? & ? & ?)]%Hprods; [|right; exists r'; set_solver].
    apply elem_of_bt_insert in Hin as [[= -> ->]|?]; [|by left]. right. exists r. set_solver.
Qed.
End outputs.

(** ** Loading the attempt *)

Section available.
Context {Output : Type} `{!RetainedFiles Output} `{!TimeLibrary, !MediaTypes, !HarnessDecoder}.
Context (pending : PendingLocalContinuation) (from : list string) (start : ContinuationStart).
Context (attempt prior : LocalAttemptV1) (split : Partition) (entries : list (ContinuationInheritedStepV1 * AttemptStepV1))
  (definition : AttemptDefinitionV1).
Hypothesis Hbegun : begun pending from start attempt prior split entries definition.

Local Abbreviation W := (rw_definition (cs_workflow start)).
Context (document : WorkflowDocument).
Hypothesis Hdoc : document_wf MAXIMUM_RETRIES document.
Hypothesis Hvalidated : validate document = Ok W.

Context (state : LocalRunStateV1).
Hypothesis Hstate : continues pending start attempt state.
Context (index : LocalRunStateIndex).
Hypothesis Hindex : state_index_new (pc_state pending) = Ok index.
Hypothesis Hchecked : ∀ i a, ls_attempts (pc_state pending) !! i = Some a → validate_attempt index a (1 + N.of_nat i) = Ok tt.
Context (m : btree AttemptStepV1) (d : btree InheritedDisposition).
Local Abbreviation index' :=
  {| ix_attempts := ls_attempts state; ix_steps := ix_steps index ++ [m]; ix_dispositions := ix_dispositions index ++ [d] |}.
Hypothesis Hindex' : state_index_new state = Ok index'.
Context (run : LocalRunV1).
Hypothesis Hreadable : files_readable run state.

Local Abbreviation required := (required_inherited_outputs attempt W).
Local Abbreviation number := (la_attempt_number attempt).

Lemma validated_order : presented W ∧ NoDup (vw_presentation_order W).
Proof. pose proof (validated_presented document _ Hdoc Hvalidated) as Hp. split; [done|]. by apply presented_orders. Qed.

(** What is required of an inherited step that succeeded was checked. *)
Lemma required_checked entry original step name :
  inherits prior entry original step → index_disposition index (la_attempt_number prior) (ast_id step) = Some InhSucceeded →
  (ast_id step, name) ∈ required →
  ∃ outputs retained declaration, ast_outputs original = Some outputs ∧ find_output outputs name = Some retained
    ∧ step_output_declaration W (ast_id step) name = Some declaration
    ∧ retained_output_matches_declaration retained declaration = true.
Proof.
  destruct validated_order as [Hpres Hnd]. intros Hi Hd Hreq. unfold required_inherited_outputs in Hreq.
  rewrite (begun_inherited_ids _ _ _ _ _ _ _ _ Hbegun Hnd), (begun_reexecuted_ids _ _ _ _ _ _ _ _ Hbegun Hnd) in Hreq.
  apply list_elem_of_fmap in Hreq as (source & [= Hid ->] & [Hinh Hin]%list_elem_of_filter).
  destruct (validate_inv _ _ _ Hdoc Hvalidated) as (profiles & steps & finalizers & Hval).
  destruct (begun_splits _ _ _ _ _ _ _ _ Hbegun) as (_ & _ & _ & Hs).
  assert (Hrole : node_role (ros_node source) = RoleStep).
  { eapply read_role; [exact Hdoc|exact Hval|exact Hin|]. apply step_in_order; [done|]. by apply (sp_inherited _ _ _ Hs) in Hinh as [? _]. }
  rewrite Hid in Hd. destruct (accepted_references _ _ _ _ _ _ _ _ (bg_accepted _ _ _ _ _ _ _ _ Hbegun) (bg_split _ _ _ _ _ _ _ _ Hbegun)
    (bg_prior _ _ _ _ _ _ _ _ Hbegun) Hindex Hin Hrole Hinh Hd) as (step' & outputs & retained & declaration & Hf & Ho & Hr & Hdecl & Hm).
  rewrite <-Hid, (ih_original _ _ _ _ Hi) in Hf. injection Hf as <-. rewrite <-Hid in Hdecl. eauto 10.
Qed.

(** The outputs that are required can be loaded. *)
Lemma outputs_loadable step entry original disposition outputs :
  inherits prior entry original step → hands_on attempt prior state index m d step entry disposition outputs →
  index_disposition index (la_attempt_number prior) (ast_id step) = Some disposition →
  (disposition = InhSucceeded → ∀ name, (ast_id step, name) ∈ required → name ∈ retained_name <$> outputs)
  ∧ Forall (loadable index' W (ast_id step)) (filter (λ retained, (ast_id step, retained_name retained) ∈ required) outputs).
Proof.
  intros Hi Hh Hd. destruct (ih_outputs _ _ _ _ Hi) as (kept & Hk & Hos). rewrite (ho_outputs _ _ _ _ _ _ _ _ _ _ Hh) in Hos. injection Hos as Hos.
  assert (Hsame : ∀ o, o ∈ kept → ∃ o', o' ∈ outputs ∧ retained_name o' = retained_name o
    ∧ ∀ declared, retained_output_matches_declaration o' declared = retained_output_matches_declaration o declared).
  { intros o Ho. rewrite Hos. unfold taken_outputs. case_decide; [|by exists o].
    eexists. split; [by apply (list_elem_of_fmap_2 (λ output, set_producer output _))|]. split; [apply retained_name_set|apply declaration_set]. }
  split.
  - intros -> name Hreq. destruct (required_checked _ _ _ _ Hi Hd Hreq) as (kept' & retained & declaration & Hk' & Hf & _).
    rewrite Hk in Hk'. injection Hk' as <-. apply find_output_Some in Hf as [Hin <-]. destruct (Hsame retained Hin) as (o' & Ho' & <- & _).
    by apply list_elem_of_fmap_2.
  - apply Forall_forall. intros retained [Hreq Hin]%list_elem_of_filter.
    destruct (ho_producers _ _ _ _ _ _ _ _ _ _ Hh retained Hin) as (producer & pa & Hp & Hpa & Hpid & _).
    destruct disposition; [|rewrite (ho_skipped _ _ _ _ _ _ _ _ _ _ Hh eq_refl) in Hin; by apply elem_of_nil in Hin].
    destruct (required_checked _ _ _ _ Hi Hd Hreq) as (kept' & kept_output & declaration & Hk' & Hf & Hdecl & Hm).
    rewrite Hk in Hk'. injection Hk' as <-. apply find_output_Some in Hf as [Hin' Hname].
    destruct (Hsame kept_output Hin') as (o' & Ho' & Hn' & Hdecl').
    assert (o' = retained) as ->.
    { eapply (NoDup_fmap_eq retained_name outputs); [apply Hh|done|done|congruence]. }
    exists declaration, producer, pa. split_and!; try done. by rewrite Hdecl'.
Qed.

(** A loaded step passes the checks of [ExecutionSeed::new]. *)
Lemma loaded_step_checked step entry original disposition outputs (loaded : btree Output) (producers : btree OutputProducer) :
  inherits prior entry original step → hands_on attempt prior state index m d step entry disposition outputs →
  is_Some (bt_get (vw_steps W) (ast_id step)) → bt_keys producers = bt_keys loaded →
  (disposition = InhSkipped → bt_keys loaded = []) →
  (∀ name producer, (name, producer) ∈ producers → ∃ r, r ∈ outputs ∧ retained_name r = name ∧ retained_producer r = Some producer) →
  check_seed W (ast_id step)
    {| seed_detail := {| id_prior_attempt_id := la_attempt_id prior; id_prior_attempt_number := la_attempt_number prior;
                         id_prior_state := cis_prior_state entry; id_definition_changed := cis_definition_changed entry |};
       seed_disposition := disposition; seed_outputs := loaded; seed_producers := producers |} = None.
Proof.
  intros Hi Hh Hk Hkeys Hskip Hprods. destruct validated_order as [Hpres _].
  destruct (prior_identity _ _ _ _ _ _ _ _ Hbegun _ Hstate _ Hindex Hchecked) as (Hpos & Huuid & _).
  unfold check_seed. simpl.
  assert (Hd : match cis_prior_state entry with PriorSucceeded => InhSucceeded | PriorSkipped => InhSkipped | PriorInherited => disposition end
    = disposition) by (pose proof (ho_prior _ _ _ _ _ _ _ _ _ _ Hh); by destruct (cis_prior_state entry)).
  rewrite Hd, bool_decide_true by done. simpl. unfold bt_contains_key at 1. rewrite bool_decide_true by done. simpl.
  rewrite (uuid_filled _ Huuid), (proj2 (N.eqb_neq _ _)) by lia. simpl. rewrite Hkeys.
  rewrite (bool_decide_true (bt_keys loaded = bt_keys loaded)) by done. simpl. rewrite orb_false_r.
  assert (He : bool_decide (disposition = InhSkipped) && negb (bool_decide (bt_keys loaded = [])) = false).
  { destruct disposition; [done|]. rewrite (Hskip eq_refl). done. }
  rewrite He. destruct (existsb _ _) eqn:Ex; [|done]. exfalso. apply existsb_exists in Ex as ([name producer] & Hin%list_elem_of_In & Hbad).
  destruct (Hprods name producer Hin) as (r & Hr & <- & Hp).
  destruct (ho_producers _ _ _ _ _ _ _ _ _ _ Hh r Hr) as (p' & pa & Hp' & _ & _ & Hnode & Hname & Hne & Hle & Hge). rewrite Hp in Hp'. injection Hp' as <-.
  assert (Hzero : (op_attempt_number producer =? 0)%N = false) by (apply N.eqb_neq; lia).
  assert (Hlate : (la_attempt_number prior <? op_attempt_number producer)%N = false). { apply N.ltb_ge. lia. }
  rewrite Hne, Hnode, Hname, Hzero, Hlate, !bool_decide_true in Hbad by done. done.
Qed.

Lemma load_step_Ok cache step :
  step ∈ la_steps attempt → ast_id step ∈ pt_inherited split →
  ∃ loaded, load_step run state index' number W required cache step = Ok loaded ∧ check_seed W (ast_id step) loaded.2 = None.
Proof.
  intros Hin Hid. destruct validated_order as [Hpres Hnd]. destruct (begun_splits _ _ _ _ _ _ _ _ Hbegun) as (_ & _ & _ & Hs).
  destruct (inherited_handed_on _ _ _ _ _ _ _ _ Hbegun Hpres _ Hstate _ Hindex _ _ Hindex' Hchecked step Hin Hid)
    as (entry & original & disposition & outputs & Hi & Hh).
  assert (Hd : index_disposition index (la_attempt_number prior) (ast_id step) = Some disposition).
  { destruct (original_disposition _ _ _ _ _ _ _ _ Hbegun _ Hstate _ Hindex _ _ _ Hi) as (d' & Hd' & _).
    pose proof (ho_disposition _ _ _ _ _ _ _ _ _ _ Hh) as Hnew.
    rewrite (index_disposition_at _ _ Hindex' _ _ _ (begun_last _ _ _ _ _ _ _ _ Hbegun _ Hstate)) in Hnew.
    rewrite (find_step_NoDup (la_steps attempt)) in Hnew; [|by rewrite (begun_ids _ _ _ _ _ _ _ _ Hbegun Hnd)|done].
    cbn in Hnew. rewrite (ih_state _ _ _ _ Hi), (ih_detail _ _ _ _ Hi) in Hnew. simpl in Hnew.
    rewrite (gr_disposition _ _ (extended_grows _ _ _ _ _ _ _ _ Hbegun _ Hstate _ Hindex m d) _ _ _ Hd') in Hnew. congruence. }
  destruct (outputs_loadable _ _ _ _ _ Hi Hh Hd) as [Hall Hload].
  destruct (load_outputs_Ok run state index' W (ast_id step) Hreadable Hindex' cache [] []
    (filter (λ retained, (ast_id step, retained_name retained) ∈ required) outputs)) as (cache' & loaded & producers & Hl & Hkeys & Hnames & Hprods);
    [exact Hload|apply NoDup_fmap_filter, Hh|done|set_solver|].
  exists (cache', {| seed_detail := {| id_prior_attempt_id := la_attempt_id prior; id_prior_attempt_number := la_attempt_number prior;
    id_prior_state := cis_prior_state entry; id_definition_changed := cis_definition_changed entry |};
    seed_disposition := disposition; seed_outputs := loaded; seed_producers := producers |}). split.
  - unfold load_step. rewrite (ih_detail _ _ _ _ Hi), (ho_disposition _ _ _ _ _ _ _ _ _ _ Hh), (ho_outputs _ _ _ _ _ _ _ _ _ _ Hh). simpl.
    assert (Hsk : bool_decide (disposition = InhSkipped) && negb (bool_decide (outputs = [])) = false).
    { destruct disposition; [done|]. by rewrite (ho_skipped _ _ _ _ _ _ _ _ _ _ Hh eq_refl). }
    rewrite Hsk, Hl. cbn [result_bind fst snd]. destruct (bool_decide (disposition = InhSucceeded) && _) eqn:Ex; [exfalso|done].
    apply andb_true_iff in Ex as [->%bool_decide_eq_true Ex]. apply existsb_exists in Ex as ([node name] & Hreq%list_elem_of_In & Hbad).
    apply andb_true_iff in Hbad as [->%bool_decide_eq_true Hbad]. unfold bt_contains_key in Hbad.
    apply negb_true_iff, bool_decide_eq_false in Hbad. apply Hbad, bt_get_is_Some, Hnames. right.
    pose proof (Hall eq_refl name Hreq) as (r & -> & Hr)%list_elem_of_fmap. apply list_elem_of_fmap_2, list_elem_of_filter. done.
  - eapply loaded_step_checked; [exact Hi|exact Hh| |done| |].
    + apply step_in_order; [done|]. by apply (sp_inherited _ _ _ Hs) in Hid as [? _].
    + intros ->. apply elem_of_nil_inv. intros x [?|Hx]%Hnames; [set_solver|].
      rewrite (ho_skipped _ _ _ _ _ _ _ _ _ _ Hh eq_refl) in Hx. by apply elem_of_nil in Hx.
    + intros name producer [?|(r & [_ Hr]%list_elem_of_filter & Hrest)]%Hprods; [set_solver|]. eauto.
Qed.

Lemma load_steps_Ok cache acc steps :
  (∀ step, step ∈ steps → step ∈ la_steps attempt) → (∀ id v, (id, v) ∈ acc → check_seed W id v = None) →
  ∃ seed, load_steps run state index' number W required cache acc steps = Ok seed ∧ ∀ id v, (id, v) ∈ seed → check_seed W id v = None.
Proof.
  destruct validated_order as [_ Hnd]. revert cache acc. induction steps as [|step steps IH]; intros cache acc Hin Hacc; cbn [load_steps]; [by exists acc|].
  assert (Hstep : step ∈ la_steps attempt) by set_solver.
  rewrite (begun_inherited _ _ _ _ _ _ _ _ Hbegun Hnd step Hstep). case_bool_decide as Hid; simpl; [|by apply IH; [set_solver|]].
  destruct (load_step_Ok cache step Hstep Hid) as (loaded & -> & Hcheck). cbn [result_bind]. apply IH; [set_solver|].
  intros id v [[= -> ->]|?]%elem_of_bt_insert; [done|by apply Hacc].
Qed.

Lemma execution_seed_Ok (seed : ExecutionSeed Output) :
  (∀ id v, (id, v) ∈ seed → check_seed W id v = None) → execution_seed_new W seed = Ok seed.
Proof.
  intros Hall. unfold execution_seed_new. assert (Hc : execution_seed_check W seed = Ok tt); [|by rewrite Hc].
  induction seed as [|[id v] seed IH]; simpl; [done|]. rewrite (Hall id v) by by left. apply IH. intros id' v' Hin. apply Hall. by right.
Qed.

Lemma begun_outputs_declared : validate_retained_outputs_against_definition attempt W = Ok tt.
Proof.
  destruct validated_order as [Hpres Hnd]. unfold validate_retained_outputs_against_definition, retained_finalizers.
  rewrite (bg_definition _ _ _ _ _ _ _ _ Hbegun), (bg_finalizers _ _ _ _ _ _ _ _ Hbegun), andb_true_r.
  pose proof (begun_ids _ _ _ _ _ _ _ _ Hbegun Hnd) as Hids.
  assert (Hm : nodes_match AttemptStep (outputs_of_step <$> la_steps attempt) (vw_presentation_order W) (bt_get (vw_steps W)) = true); [|by rewrite Hm].
  unfold nodes_match. rewrite bool_decide_true by by rewrite <-Hids, !length_fmap. apply forallb_forall.
  intros [step id] Hin%list_elem_of_In. apply elem_of_lookup_zip_with in Hin as (k & n & i & [= -> ->] & Hn & Hi).
  rewrite list_lookup_fmap in Hn. destruct (la_steps attempt !! k) as [s|] eqn:Hs; [|done]. injection Hn as <-.
  rewrite <-Hids, list_lookup_fmap, Hs in Hi. injection Hi as <-. apply list_elem_of_lookup_2 in Hs.
  assert (Hk : is_Some (bt_get (vw_steps W) (ast_id s))).
  { apply step_in_order; [done|]. rewrite <-Hids. by apply list_elem_of_fmap_2. }
  destruct Hk as [node Hnode]. rewrite Hnode. unfold node_outputs_match. rewrite bool_decide_true by done.
  destruct (begun_step _ _ _ _ _ _ _ _ Hbegun Hnd s Hs) as [(_ & node' & _ & ->)|(_ & entry & original & _ & Hi)]; [done|].
  destruct (ih_outputs _ _ _ _ Hi) as (outputs & _ & Ho). cbn. by rewrite Ho, (ih_role _ _ _ _ Hi), (ih_state _ _ _ _ Hi).
Qed.

Hypothesis Hverified : rf_verify state number = Ok tt.

Lemma seed_available : ∃ seed, load_execution_seed run state number W = Ok seed.
Proof.
  unfold load_execution_seed. rewrite Hindex'. cbn [result_bind].
  rewrite (index_attempt_at _ _ Hindex' _ _ (begun_last _ _ _ _ _ _ _ _ Hbegun _ Hstate)), begun_outputs_declared. cbn [result_bind].
  rewrite Hverified. cbn [result_bind]. destruct (load_steps_Ok ([], rf_initial_budget) [] (la_steps attempt)) as (seed & -> & Hall);
    [done|set_solver|]. cbn [result_bind]. rewrite (execution_seed_Ok seed Hall). by eexists.
Qed.
End available.
