(* ===== verification/ContinuationClaims.v ===== *)
(** * Continuations of runs

    The properties of a continuation: what is executed again, that the state
    of the run stays valid, and that the new attempt can be executed with a
    seed that satisfies what runs assume of seeds. *)

From stdpp Require Import relations.
From S2P Require Import Prelude Text Nodes Evidence Condition Document Validated Failures Validation Requirements Capacity Runtime RunTiming Results SchemaCommon ResultMetadata DocumentChecks RunResults ValidDocuments Reducer Moves Runs Ceiling History Stops ValidWorkflows FinishedRuns ResultChecks Scenario ValidatedRuns Continuation Partitions Attempts AttemptChecks Settlement Inheritance SeedLoading ContinuedStates SeedAvailability.

Local Open Scope list_scope.

Section continuations.
Context `{!HarnessDecoder}.
Implicit Types (document : WorkflowDocument) (W : ValidatedWorkflow) (from : list string).

(** What a step needs comes before it in the order of presentation. *)
Lemma needed_in_order document W p n :
  document_wf MAXIMUM_RETRIES document → validate document = Ok W → needs W p n → p ∈ vw_presentation_order W.
Proof.
  intros Hdoc Hvalid [(k & Hk)%list_elem_of_lookup (step & Hstep & (q & -> & Hq)%list_elem_of_fmap)].
  destruct (presentation_orders_are_topological document W RoleStep Hdoc Hvalid) as (_ & _ & Hbefore).
  assert (Hin : rdp_producer q ∈ take k (vw_presentation_order W)).
  { eapply (Hbefore k n (common_step step)); [done| |by destruct step]. simpl. by rewrite Hstep. }
  by apply elem_of_take in Hin as (i & Hi & _); eapply list_elem_of_lookup_2.
Qed.

(** C9: a continuation executes again exactly what depends on its selection.
    The selection is refused when it is empty, or with the identifiers in it
    that are unknown or repeated.  Otherwise the steps of the workflow are split,
    both parts in the order of presentation, into those that are reached from
    the selection through prerequisites and the others, which need no step that
    is executed again. *)
Theorem partition_reruns_dependents document W from :
  document_wf MAXIMUM_RETRIES document → validate document = Ok W →
  match partition W from with
  | Ok split =>
      from ≠ [] ∧ NoDup from ∧ Forall (λ id, is_Some (bt_get (vw_steps W) id)) from ∧ splits W from split
      ∧ ∀ p n, n ∈ pt_inherited split → needs W p n → p ∈ pt_inherited split
  | Err invalid =>
      (from = [] ∧ invalid = [])
      ∨ invalid ≠ [] ∧ ∀ id, id ∈ invalid ↔ id ∈ from ∧ (bt_get (vw_steps W) id = None
          ∨ ∃ before after, from = before ++ after ∧ id ∈ before ∧ id ∈ after)
  end.
Proof.
  intros Hdoc Hvalid. pose proof (partition_spec W from) as Hspec.
  pose proof (validated_presented document W Hdoc Hvalid) as Hpres. destruct (partition W from) as [split|invalid].
  - destruct Hspec as (Hne & Hnd & Hk & Hs). split_and!; [done..|]. intros p n Hn Hp.
    eapply inherited_closed; [done..|by eapply needed_in_order].
  - destruct Hspec as [[-> Hcase]|(n & -> & Hn & Hnone)].
    + destruct (decide (from = [])) as [->|Hne]; [by left|]. right. split; [by destruct Hcase|].
      intros id. rewrite elem_of_invalid_selection. set_solver.
    + exfalso. rewrite (pw_steps _ Hpres), <-bt_get_is_Some, Hnone in Hn. by destruct Hn.
Qed.

(** The identifiers of the steps of a validated workflow. *)
Lemma presented_identifiers document W id :
  document_wf MAXIMUM_RETRIES document → validate document = Ok W → id ∈ vw_presentation_order W → is_identifier id = true.
Proof.
  intros Hdoc Hvalid Hid. destruct (validate_inv _ _ _ Hdoc Hvalid) as (profiles & steps & finalizers & Hval).
  rewrite is_identifier_value. apply (role_key_identifier document Hdoc RoleStep).
  rewrite (pw_steps _ (validated_presented document W Hdoc Hvalid)) in Hid.
  by rewrite (entries_keys _ _ _ (vd_steps _ _ _ _ _ Hval)) in Hid.
Qed.

Section states.
Context `{!TimeLibrary, !MediaTypes}.
Implicit Types (pending : PendingLocalContinuation) (start : ContinuationStart) (state : LocalRunStateV1).

(** C7: a continuation is recorded, unless the attempt before is stuck.  When the
    state of a run passes the checks of its readers and [begin] could make the
    attempt of a continuation, then the checks of the update refuse the new
    state exactly when the attempt before was abandoned with an invocation that
    is recorded as active; otherwise the state with the attempt before settled
    and the new attempt added is written under the next revision. *)
Theorem continuation_is_recorded document pending from start attempt prior :
  document_wf MAXIMUM_RETRIES document → validate document = Ok (rw_definition (cs_workflow start)) →
  validate_state (pc_state pending) = Ok tt → (ls_revision (pc_state pending) < u64_max)%N →
  start_valid pending start → begin_attempt pending from start = Ok attempt → last (ls_attempts (pc_state pending)) = Some prior →
  is_Some (result_ok (cs_settled_at start)) → cs_state_store start = Ok tt → cs_replaced start = Ok tt →
  if stuck_attempt prior then begin_continuation pending from start = Err AttemptRecoveryInvocationInvalid
  else ∃ state, begin_continuation pending from start = Ok (attempt, state) ∧ continues pending start attempt state
    ∧ validate_state state = Ok tt ∧ ls_revision state = (ls_revision (pc_state pending) + 1)%N.
Proof.
  intros Hdoc Hvalid (index & Hck)%validate_state_spec Hrev Hstart Hbegin Hlast Htime Hstore Hreplaced.
  assert (Hsettled : ∃ time, cs_settled_at start = Ok time).
  { destruct (cs_settled_at start) as [time|]; [by exists time|by destruct Htime]. }
  destruct (begin_attempt_begun _ _ _ _ Hbegin) as (prior' & split & entries & definition & Hbegun).
  pose proof (bg_prior _ _ _ _ _ _ _ _ Hbegun) as Hp. rewrite Hlast in Hp. injection Hp as <-.
  pose proof (validated_presented document _ Hdoc Hvalid) as Hpres.
  destruct Hsettled as [time Hsettled]. pose proof (λ id, presented_identifiers document _ id Hdoc Hvalid) as Hids.
  destruct (begin_update_Ok _ _ _ _ _ _ _ _ _ _ Hbegun Hck Hsettled) as [changed Hchanged].
  pose proof (begin_update_continues _ _ _ _ Hchanged) as (earlier & p & Hold & Hnew).
  assert (Hrevision : ls_revision changed = ls_revision (pc_state pending)) by by rewrite Hnew.
  pose proof (begun_state_checked _ _ _ _ _ _ _ _ _ _ Hbegun Hpres Hids Hck Hstart Hsettled changed (ls_revision changed + 1) Hchanged) as Hv.
  unfold begin_continuation, store_update. rewrite Hbegin. cbn [result_bind]. rewrite Hstore. cbn [result_bind]. rewrite Hchanged.
  cbn [result_bind].
  unfold checked_add. rewrite decide_True by lia. cbn [ok_or result_bind]. rewrite Hv, Hreplaced by lia. destruct (stuck_attempt prior); [done|].
  cbn [result_bind]. eexists. split; [done|]. split; [by exists earlier, p; rewrite Hnew|]. split; [apply Hv; lia|]. cbn. by rewrite Hrevision.
Qed.

Context {Output : Type} `{!RetainedFiles Output}.

End states.
End continuations.

(** ** A concrete continuation

    The sample workflow that publishes: its first attempt built and checked,
    and failed to publish.  The continuation publishes again and inherits the
    two other steps with their outputs. *)

Definition repeated (n : nat) (digit : ascii) : string := of_bytes (replicate n digit).

Definition sample_sha256 : DigestV1 := {| dg_algorithm := "sha256"; dg_value := repeated 64 "a" |}.

Definition sample_uuid (digit : ascii) : string :=
  of_bytes (replicate 8 digit ++ "-"%char :: replicate 4 digit ++ "-"%char :: replicate 4 digit ++ "-"%char :: replicate 4 digit
    ++ "-"%char :: replicate 12 digit).

Definition sample_carrier (path media_type : string) : RetainedCarrierV1 :=
  {| ct_relative_path := path; ct_media_type := media_type; ct_size_bytes := 2; ct_digest := sample_sha256 |}.

Definition sample_snapshot (settled_by : option WorkspaceSnapshotSettlementV1) : WorkspaceSnapshotV1 :=
  {| ws_algorithm := WORKSPACE_SNAPSHOT_ALGORITHM; ws_value := Some (repeated 64 "1"); ws_taken_at := Some "12Z"%string;
     ws_unavailable := None; ws_settled_by := settled_by |}.

Definition attempted_step (id : string) (state : AttemptStepStateV1) (outputs : list RetainedOutputV1)
    (recovery : option DurableStepRecoveryV1) : AttemptStepV1 :=
  {| ast_id := id; ast_role := AttemptStep; ast_failure_policy := Required; ast_state := state; ast_outputs := Some outputs;
     ast_detail := None; ast_recovery := recovery |}.

Definition sample_host : ExecutionHostV1 := {| eh_kind := HostBoot; eh_value := sample_uuid "b" |}.

(** The first attempt, with the action that is outstanding and what is
    recorded of invocations and of the recovery of the step that publishes. *)
Definition first_attempt (kind : OutstandingActionKindV1) (execution round : option N) (recovery : option DurableStepRecoveryV1)
    (invocations : list DurableInvocationV1) (settled : N) : LocalAttemptV1 :=
  {| la_attempt_id := sample_uuid "1"; la_attempt_number := 1; la_trigger := AttemptInitial; la_prior_attempt_number := None;
     la_definition := Some {| ad_digest := sample_sha256; ad_manifest_digest := sample_sha256; ad_locator := LocatorRun |};
     la_state := AttemptStateRunning; la_continuation := None; la_execution_root := "/work"; la_created_at := "10Z";
     la_started_at := Some "11Z"%string; la_settled_at := None; la_settlement_snapshot := None;
     la_owner := {| ow_owner_nonce := sample_uuid "3"; ow_execution_host := sample_host |};
     la_cancellation := None; la_force_abort := None; la_interruption := None; la_rejection := None;
     la_progress :=
       {| apr_accepted_occurrence_ordinal := 7; apr_last_transition_sequence := 9;
          apr_steps :=
            [attempted_step "build" AttemptSucceeded
               [RetainedText "log" None (sample_carrier "values/steps/build/log" "text/plain; charset=utf-8")] None;
             attempted_step "check" AttemptSucceeded
               [RetainedJson "report" None (sample_carrier "values/steps/check/report" "application/json")] None;
             attempted_step "publish" AttemptRunning [] recovery];
          apr_outstanding_actions :=
            [{| oa_action_id := 9; oa_kind := kind; oa_step_id := Some "publish"%string; oa_node_role := Some AttemptStep;
                oa_target_execution := execution; oa_recovery_round := round |}];
          apr_invocations := invocations;
          apr_accounting :=
            {| dia_maximum_invocations := 3; dia_observed_invocations := N.of_nat (length invocations); dia_settled_invocations := settled;
               dia_input_tokens := 0; dia_output_tokens := 0; dia_retained_diagnostic_bytes := 0; dia_discarded_diagnostic_bytes := 0 |} |};
     la_finalization := None;
     la_process_guards :=
       [{| pg_guard_id := sample_uuid "4"; pg_action_id := 9; pg_step_id := "publish"; pg_node_role := AttemptStep; pg_state := GuardReleased;
           pg_execution_host := sample_host; pg_process_group_id := 4711;
           pg_liveness := {| pl_kind := LeaderStartIdentity; pl_value := "4711" |} |}];
     la_result := ResultNotPublished AbsentAttemptNonterminal |}.

Definition run_state (attempt : LocalAttemptV1) : LocalRunStateV1 :=
  {| ls_schema_version := 1; ls_local_run_id := sample_uuid "5"; ls_revision := 8; ls_current_attempt_number := 1; ls_attempts := [attempt];
     ls_diagnostics := [{| ldg_sequence := 1; ldg_attempt_number := 1; ldg_code := DiagnosticStaleOccurrence; ldg_step_id := None;
                           ldg_action_id := None; ldg_guard_id := None |}] |}.

Definition publish_resolved : ResolvedWorkflow :=
  {| rw_definition := publish_workflow; rw_source_closure := []; rw_source := {| sp_source_root := "/src"; sp_workflow_path := "w.yaml" |};
     rw_content_digest := sample_sha256 |}.

Definition publish_run : LocalRunV1 :=
  {| lv_schema_version := 1; lv_local_run_id := sample_uuid "5"; lv_created_at := "10Z"; lv_workflow_digest := sample_sha256;
     lv_workflow_manifest_digest := sample_sha256; lv_git_baseline := None |}.

Definition publish_pending (attempt : LocalAttemptV1) : PendingLocalContinuation :=
  {| pc_normalized := "/runs/1"; pc_run := publish_run; pc_state := run_state attempt; pc_prior_workflow := publish_resolved;
     pc_initial_workflow := publish_resolved; pc_inputs := [("region"%string, InputText "eu")]; pc_maximum_parallel_steps := 2;
     pc_quiescence := {| cq_groups_recorded := 2; cq_groups_terminated := 1; cq_groups_absent := 1; cq_proven_at := "12Z" |} |}.

Definition publish_capacity : ComputedWorkflowCapacity :=
  ltac:(let value := eval vm_compute in (resolve_workflow_capacity publish_workflow 0) in
        match value with Ok ?capacity => exact capacity end).

Definition publish_start : ContinuationStart :=
  {| cs_workflow := publish_resolved; cs_inputs := [("region"%string, InputText "eu")]; cs_maximum_parallel_steps := 2;
     cs_execution_root := "/work"; cs_git_capture := None; cs_capacity := publish_capacity; cs_replacement_requested := false;
     cs_lock_identity := Ok tt; cs_contains_directory := Some false; cs_attempt_directory := Ok tt; cs_retained_manifest := Ok sample_sha256;
     cs_start_snapshot := sample_snapshot None; cs_abandonment_snapshot := sample_snapshot (Some SettledByAbandonmentRecovery);
     cs_created_at := Ok "13Z"%string; cs_attempt_id := Ok (sample_uuid "2"); cs_owner_nonce := Ok (sample_uuid "6");
     cs_execution_host := Ok sample_host; cs_state_store := Ok tt; cs_settled_at := Ok "12Z"%string; cs_replaced := Ok tt |}.

Definition plain_attempt : LocalAttemptV1 := first_attempt OutstandingStartStep (Some 1%N) None None [] 0.

Definition continued : LocalAttemptV1 * LocalRunStateV1 :=
  ltac:(let value := eval vm_compute in (begin_continuation (publish_pending plain_attempt) ["publish"%string] publish_start) in
        match value with Ok ?continued => exact continued end).

Lemma publish_start_valid attempt : start_valid (publish_pending attempt) publish_start.
Proof. split; try (intros ? [= <-]); try (intros ? [=]); try split; try (exists 0%N); vm_compute; reflexivity. Qed.

Lemma partition_reruns_dependents_witness :
  ∃ split, partition publish_workflow ["publish"%string] = Ok split ∧ pt_inherited split = ["build"; "check"]%string
    ∧ splits publish_workflow ["publish"%string] split.
Proof.
  pose proof (partition_reruns_dependents publish_document publish_workflow ["publish"%string] publish_document_wf publish_validated) as Hp.
  destruct (partition publish_workflow ["publish"%string]) as [split|invalid] eqn:E.
  - exists split. split; [reflexivity|]. split; [vm_compute in E; injection E as <-; reflexivity|]. apply Hp.
  - vm_compute in E. discriminate E.
Defined.

Lemma continuation_is_recorded_witness :
  ∃ state, begin_continuation (publish_pending plain_attempt) ["publish"%string] publish_start = Ok (continued.1, state)
    ∧ validate_state state = Ok tt.
Proof.
  destruct (continuation_is_recorded publish_document (publish_pending plain_attempt) ["publish"%string] publish_start continued.1 plain_attempt)
    as (state & Hbegin & _ & Hvalid & _).
  - exact publish_document_wf.
  - exact publish_validated.
  - vm_compute. reflexivity.
  - vm_compute. reflexivity.
  - apply publish_start_valid.
  - vm_compute. reflexivity.
  - reflexivity.
  - by eexists.
  - reflexivity.
  - reflexivity.
  - exists state. split; [exact Hbegin|exact Hvalid].
Defined.

#[local] Instance sample_files : RetainedFiles ScenarioOutput := {|
  rf_budget := N;
  rf_initial_budget := 0%N;
  rf_verify _ _ := Ok tt;
  rf_workflow _ _ budget := Ok (publish_resolved, budget);
  rf_value _ _ _ retained :=
    match retained with
    | RetainedJson _ _ _ => Ok (OutJson (Object [("ok"%string, Bool true)]))
    | _ => Ok (OutText "ok")
    end
|}.

Lemma continued_readable : files_readable (Output := ScenarioOutput) publish_run continued.2.
Proof.
  split.
  - intros a budget. eexists. reflexivity.
  - intros workflow node retained. destruct retained; eexists; reflexivity.
  - intros a [->|[->|Ha%elem_of_nil]%elem_of_cons]%elem_of_cons; [eexists; vm_compute; reflexivity..|done].
Qed.

