(* ===== verification/CommitClaims.v ===== *)
(** * What a commit records

    The state that a commit of a running attempt writes: the recorded nodes,
    actions and invocations are those of the committed run, and every action
    that is released was recorded.  A recovery that is running is recorded as
    active, and what is recorded as active blocks the run once its process is
    gone. *)

From S2P Require Import Prelude Text Nodes Evidence Condition Document Validated Failures Validation Requirements Capacity Runtime RunTiming Results Publication SchemaCommon ResultMetadata RunResults DocumentChecks ValidDocuments Reducer OccurrenceDigest Coordinator Moves Runs NodeSteps NodeInvariants ResultChecks Scenario Correctness Continuation Attempts AttemptChecks Commits Settlement Inheritance ContinuedStates ContinuationClaims.

Local Open Scope list_scope.

(** ** The ledger *)

Lemma ledger_bind_Ok {A B} (m : ledger A) (k : A → ledger B) pending pending' value :
  ledger_bind m k pending = (pending', Ok value) ↔ ∃ a between, m pending = (between, Ok a) ∧ k a between = (pending', Ok value).
Proof.
  unfold ledger_bind. destruct (m pending) as [between [a|error]]; split; [by eauto|by intros (? & ? & [= <- <-] & ?)|done|by intros (? & ? & [=] & _)].
Qed.

Lemma ledger_lift_Ok {A} (value : result A LocalRunDirectoryError) pending pending' a :
  ledger_lift value pending = (pending', Ok a) ↔ pending' = pending ∧ value = Ok a.
Proof. unfold ledger_lift. naive_solver. Qed.

(** A property that every turn of a loop keeps. *)
Lemma ledger_fold_keeps {A B} (P : B → Prop) (step : B → A → ledger B) items :
  (∀ item acc pending pending' acc', item ∈ items → P acc → step acc item pending = (pending', Ok acc') → P acc') →
  ∀ acc pending pending' acc', P acc → ledger_fold step acc items pending = (pending', Ok acc') → P acc'.
Proof.
  induction items as [|item items IH]; simpl; intros Hstep acc pending pending' acc' Hacc; [by intros [= _ <-]|].
  intros (next & between & Hnext & Hrest)%ledger_bind_Ok. eapply IH; [|eapply Hstep; [by left|done|exact Hnext]|exact Hrest].
  intros i a p p' a' Hi. eapply Hstep. by right.
Qed.

(** A property that one item establishes. *)
Lemma ledger_fold_reaches {A B} (P Q : B → Prop) (step : B → A → ledger B) items item :
  item ∈ items → (∀ acc pending pending' acc', P acc → step acc item pending = (pending', Ok acc') → Q acc') →
  (∀ item acc pending pending' acc', item ∈ items → step acc item pending = (pending', Ok acc') → (P acc → P acc') ∧ (Q acc → Q acc')) →
  ∀ acc pending pending' acc', P acc → ledger_fold step acc items pending = (pending', Ok acc') → Q acc'.
Proof.
  intros Hitem Hreach. induction items as [|first items IH]; [by apply elem_of_nil in Hitem|].
  intros Hkeep acc pending pending' acc' Hacc. simpl. intros (next & between & Hnext & Hrest)%ledger_bind_Ok.
  apply elem_of_cons in Hitem as [<-|Hitem].
  - eapply (ledger_fold_keeps Q); [|eapply Hreach; [exact Hacc|exact Hnext]|exact Hrest].
    intros i a p p' a' Hi Ha Hs. eapply Hkeep; [right; exact Hi|exact Hs|exact Ha].
  - eapply IH; [done| |eapply Hkeep; [left|exact Hnext|exact Hacc]|exact Hrest].
    intros i a p p' a' Hi. eapply Hkeep. by right.
Qed.

Section ledgers.
Context `{!TimeLibrary, !MediaTypes} {Output Deadline : Type} (deadline_utc : Deadline → OffsetDateTime).

Local Abbreviation State := (RuntimeState StepFailureCause Output Deadline).
Local Abbreviation Commit := (CommittedReduction (Cause := StepFailureCause) (Output := Output) (Instant := Deadline)).

Implicit Types (st : State) (commit : Commit) (answers : CommitAnswers (Output := Output)) (attempt : LocalAttemptV1)
  (invocations : list DurableInvocationV1).

(** The loops of the ledger only add invocations that are active. *)
Definition grows invocations invocations' : Prop :=
  ∃ added, invocations' = invocations ++ added ∧ Forall (λ invocation, is_active_invocation invocation = true) added.

Lemma grows_refl invocations : grows invocations invocations.
Proof. exists []. by rewrite app_nil_r. Qed.

Lemma grows_one invocations invocation : is_active_invocation invocation = true → grows invocations (invocations ++ [invocation]).
Proof. intros Ha. exists [invocation]. auto. Qed.

Lemma grows_trans a b c : grows a b → grows b c → grows a c.
Proof. intros (x & -> & Hx) (y & -> & Hy). exists (x ++ y). rewrite app_assoc. split; [done|]. by apply Forall_app. Qed.

Lemma record_failed_execution_grows attempt now step_id invocations round pending pending' invocations' :
  record_failed_execution attempt now step_id invocations round pending = (pending', Ok invocations') → grows invocations invocations'.
Proof.
  unfold record_failed_execution. destruct (recorded_invocation _ _); [intros [= _ <-]; apply grows_refl|].
  intros (p & q & _ & (started & q' & _ & [= _ <-])%ledger_bind_Ok)%ledger_bind_Ok. by apply grows_one.
Qed.

Lemma record_recovery_rounds_grows attempt now invocations (node : string * StepRuntimeState StepFailureCause Output) pending pending' invocations' :
  record_recovery_rounds attempt now invocations node pending = (pending', Ok invocations') → grows invocations invocations'.
Proof.
  unfold record_recovery_rounds. destruct (ss_recovery node.2) as [recovery|]; [|intros [= _ <-]; apply grows_refl].
  apply (ledger_fold_keeps (grows invocations)); [|apply grows_refl].
  intros round acc p p' acc' _ Hacc Hr. eapply grows_trans; [exact Hacc|]. by eapply record_failed_execution_grows.
Qed.

Lemma record_agent_grows attempt invocations entry pending pending' invocations' :
  record_agent attempt invocations entry pending = (pending', Ok invocations') → grows invocations invocations'.
Proof.
  destruct entry as [[[number step_id] execution] [id started]]. unfold record_agent.
  destruct (recorded_invocation _ _); [intros [= _ <-]; apply grows_refl|].
  intros (p & q & _ & (started' & q' & _ & [= _ <-])%ledger_bind_Ok)%ledger_bind_Ok. by apply grows_one.
Qed.

Lemma record_started_grows attempt now st invocations action pending pending' invocations' :
  record_started attempt now st invocations action pending = (pending', Ok invocations') → grows invocations invocations'.
Proof.
  unfold record_started. destruct (started_invocation action) as [[[role execution] round]|]; [|intros [= _ <-]; apply grows_refl].
  intros (step_id & q & _ & Hk)%ledger_bind_Ok. destruct (negb _ || _).
  - apply ledger_bind_Ok in Hk as (u & q' & _ & [= _ <-]). apply grows_refl.
  - apply ledger_bind_Ok in Hk as (node_role & q' & _ & Hk). destruct (List.find _ _) as [existing|].
    + destruct (_ || _); [done|]. injection Hk as _ <-. apply grows_refl.
    + apply ledger_bind_Ok in Hk as (u & q'' & _ & [= _ <-]). by apply grows_one.
Qed.

Lemma insert_durable_perm invocation invocations : insert_durable invocation invocations ≡ₚ invocation :: invocations.
Proof.
  induction invocations as [|first rest IH]; simpl; [done|]. destruct (_ <=? _)%N; [done|]. rewrite IH. apply Permutation_swap.
Qed.

Lemma sort_durable_perm invocations : foldr insert_durable [] invocations ≡ₚ invocations.
Proof. induction invocations as [|first rest IH]; simpl; [done|]. by rewrite insert_durable_perm, IH. Qed.

(** What the ledger makes of an attempt: invocations are added and then
    settled, and nothing else changes. *)
Record ledger_result answers commit (diagnostics : StepDiagnosticLog) (accounting : InvocationAccountingLog) (now : string)
    attempt (attempt' : LocalAttemptV1) (added grown settled : list DurableInvocationV1) (total : DurableInvocationAccountingV1)
    : Prop := {
  lr_before : grows (apr_invocations (la_progress attempt)) added;
  lr_started : ∃ pending pending', ledger_fold (record_started attempt now (cm_state commit)) added (cm_actions commit) pending
                                   = (pending', Ok grown);
  lr_settles : Forall2 (λ a b, settle_invocation answers attempt (cm_state commit) diagnostics accounting now a = Ok b) grown settled;
  lr_attempt : attempt' = set_progress attempt (set_invocations (la_progress attempt) (foldr insert_durable [] settled) total)
}.

Lemma update_invocation_ledger_Ok answers attempt commit diagnostics accounting now pending pending' attempt' :
  update_invocation_ledger answers attempt commit diagnostics accounting now pending = (pending', Ok attempt') →
  ∃ added grown settled total, ledger_result answers commit diagnostics accounting now attempt attempt' added grown settled total.
Proof.
  unfold update_invocation_ledger. intros (l1 & p1 & H1 & Hk)%ledger_bind_Ok. apply ledger_bind_Ok in Hk as (agents & p2 & _ & Hk).
  apply ledger_bind_Ok in Hk as (l2 & p3 & H2 & Hk). apply ledger_bind_Ok in Hk as (l3 & p4 & H3 & Hk).
  apply ledger_bind_Ok in Hk as (l4 & p5 & [-> H4%collect_results_Ok]%ledger_lift_Ok & Hk).
  apply ledger_bind_Ok in Hk as (total & p6 & _ & [= _ <-]).
  exists l2, l3, l4, total. split; [|by eauto|done|done].
  eapply grows_trans.
  - eapply (ledger_fold_keeps (grows _)); [|apply grows_refl|exact H1]. intros node acc p p' acc' _ Hacc Hr.
    eapply grows_trans; [exact Hacc|by eapply record_recovery_rounds_grows].
  - eapply (ledger_fold_keeps (grows _)); [|apply grows_refl|exact H2]. intros entry acc p p' acc' _ Hacc Hr.
    eapply grows_trans; [exact Hacc|by eapply record_agent_grows].
Qed.

(** Settling leaves only what is active in the run. *)
Lemma settle_invocation_active answers attempt st diagnostics accounting now invocation invocation' :
  settle_invocation answers attempt st diagnostics accounting now invocation = Ok invocation' →
  is_active_invocation invocation' = true → invocation' = invocation ∧ durable_invocation_is_active invocation st = true.
Proof.
  unfold settle_invocation. destruct (is_active_invocation invocation) eqn:Ha; simpl; [|by intros [= <-]; rewrite Ha].
  destruct (durable_invocation_is_active invocation st); [by intros [= <-]|]. intros (retained & _ & Hk)%result_bind_Ok.
  destruct (_ && _); [done|]. injection Hk as <-. unfold is_active_invocation. simpl.
  destruct (rs_steps st !! di_step_id invocation) as [x|]; simpl; [destruct (ss_state x)|]; done.
Qed.

Lemma settle_invocation_keeps answers attempt st diagnostics accounting now invocation invocation' :
  durable_invocation_is_active invocation st = true →
  settle_invocation answers attempt st diagnostics accounting now invocation = Ok invocation' → invocation' = invocation.
Proof. intros Ha. unfold settle_invocation. rewrite Ha, orb_true_r. by intros [= <-]. Qed.

(** An invocation of a handler that is started, and is active in the run, is
    recorded as active. *)
Lemma started_handler_recorded answers commit diagnostics accounting now attempt attempt' added grown settled total action s round x recovery :
  ledger_result answers commit diagnostics accounting now attempt attempt' added grown settled total → action ∈ cm_actions commit →
  ca_kind action = KindStartRecoveryHandler → ca_step action = Some s → ca_recovery_round action = Some round →
  rs_steps (cm_state commit) !! s = Some x → ss_recovery x = Some recovery → sr_rounds recovery ≠ [] →
  ss_active_invocation x = Some (ActiveRecoveryHandler round) →
  recorded_invocation (apr_invocations (la_progress attempt)) (ca_id action) = false →
  existsb is_active_invocation (apr_invocations (la_progress attempt')) = true.
Proof.
  intros [(fresh & -> & Hfresh) (p & p' & Hfold) Hsettles ->] Haction Hkind Hs Hround Hx Hrec Hne Hact Hnew.
  set (old := apr_invocations (la_progress attempt)) in *.
  set (P := λ l : list DurableInvocationV1, ∀ i, i ∈ l → di_invocation_id i = ca_id action → is_active_invocation i = true).
  set (Q := λ l : list DurableInvocationV1, ∃ i, i ∈ l ∧ is_active_invocation i = true ∧ durable_invocation_is_active i (cm_state commit) = true).
  assert (HQ : Q grown).
  { refine (ledger_fold_reaches P Q _ _ action Haction _ _ _ _ _ _ _ Hfold).
    - intros acc q q' acc' HP. unfold record_started, started_invocation. rewrite Hkind, Hs, Hround. simpl.
      intros (? & ? & [-> [= <-]]%ledger_lift_Ok & Hk)%ledger_bind_Ok. rewrite Hx in Hk. simpl in Hk. rewrite Hrec in Hk.
      rewrite bool_decide_false in Hk by (by destruct (sr_rounds recovery)). simpl in Hk.
      apply ledger_bind_Ok in Hk as (node_role & ? & _ & Hk). destruct (List.find _ acc) as [existing|] eqn:E.
      + apply List.find_some in E as [Hin%list_elem_of_In Hid%N.eqb_eq]. destruct (_ || _) eqn:Hsame; [done|]. injection Hk as _ <-.
        exists existing. split; [done|]. split; [by apply HP|]. apply orb_false_iff in Hsame as [Hsame Hr].
        apply orb_false_iff in Hsame as [Hsame _]. apply orb_false_iff in Hsame as [Hsame Hrole]. apply orb_false_iff in Hsame as [Hstep _].
        apply negb_false_iff, bool_decide_eq_true in Hr, Hrole, Hstep. unfold durable_invocation_is_active. rewrite Hstep, Hx. simpl.
        rewrite Hact, Hrole, Hr. by apply bool_decide_true.
      + apply ledger_bind_Ok in Hk as (? & ? & _ & [= _ <-]). eexists. split; [apply elem_of_app; right; by left|]. split; [done|].
        unfold durable_invocation_is_active. simpl. rewrite Hx. simpl. rewrite Hact. by apply bool_decide_true.
    - intros a acc q q' acc' _ (more & -> & Hmore)%record_started_grows. rewrite Forall_forall in Hmore. split.
      + intros HP i [Hi|Hi]%elem_of_app; [by apply HP|intros _; by apply Hmore].
      + intros (i & Hi & Hi'). exists i. split; [set_solver|done].
    - intros i [Hi|Hi]%elem_of_app Hid.
      + exfalso. revert Hnew. unfold recorded_invocation. rewrite <-not_true_iff_false, existsb_exists. intros []. exists i.
        split; [by apply list_elem_of_In|by apply N.eqb_eq].
      + rewrite Forall_forall in Hfresh. by apply Hfresh. }
  destruct HQ as (i & Hi & Ha & Hd). apply list_elem_of_lookup in Hi as (k & Hk).
  destruct (Forall2_lookup_l _ _ _ _ _ Hsettles Hk) as (j & Hj & Hset). apply settle_invocation_keeps in Hset as ->; [|done].
  apply existsb_exists. exists i. split; [|done]. apply list_elem_of_In. simpl. rewrite sort_durable_perm. by eapply list_elem_of_lookup_2.
Qed.
End ledgers.

(** ** The record of a run *)

Section records.
Context `{!TimeLibrary, !MediaTypes} {Output Deadline : Type} (deadline_utc : Deadline → OffsetDateTime).

Local Abbreviation State := (RuntimeState StepFailureCause Output Deadline).
Local Abbreviation Commit := (CommittedReduction (Cause := StepFailureCause) (Output := Output) (Instant := Deadline)).

Implicit Types (st : State) (commit : Commit) (answers : CommitAnswers (Output := Output)) (attempt : LocalAttemptV1)
  (node : AttemptStepV1) (outputs : RetainedOutputSets) (finalizers : list AttemptStepV1).

(** A recorded node is the node of the run. *)
Definition node_shows st node : Prop :=
  ∃ x, rs_steps st !! ast_id node = Some x ∧ ast_state node = attempt_step_state (ss_state x)
       ∧ ast_detail node = attempt_step_detail (ss_state x).

Definition same_node node (node' : AttemptStepV1) : Prop :=
  ast_id node' = ast_id node ∧ ast_role node' = ast_role node ∧ ast_failure_policy node' = ast_failure_policy node.

(** An outstanding action is the current action of a node. *)
Definition action_of st node (action : OutstandingActionV1) : Prop :=
  ∃ x, rs_steps st !! ast_id node = Some x ∧ ss_current_action x = Some (oa_action_id action)
       ∧ outstanding_kind (ss_state x) = Some (oa_kind action) ∧ oa_step_id action = Some (ast_id node)
       ∧ oa_node_role action = Some (ast_role node)
       ∧ (oa_target_execution action, oa_recovery_round action)
         = match ss_active_invocation x with
           | Some (ActiveTarget execution_number) => (Some execution_number, None)
           | Some (ActiveRecoveryHandler round) => (None, Some round)
           | None => (None, None)
           end.

(** A finalizer of the summary of a run. *)
Definition finalizer_shows (summary : FinalizationSummary Deadline) (expected : AttemptStepV1) (finalizer : DurableFinalizerV1) : Prop :=
  df_id finalizer = ast_id expected ∧ df_failure_policy finalizer = ast_failure_policy expected
  ∧ ∃ shown, shown ∈ fs_finalizers summary ∧ fr_finalizer shown = ast_id expected
             ∧ df_state finalizer = attempt_step_state (fr_disposition shown)
             ∧ df_detail finalizer = attempt_step_detail (fr_disposition shown).

Definition finalization_shows st finalizers (finalization : option AttemptFinalizationV1) : Prop :=
  match finalization with
  | None => rs_finalization_summary st = None ∧ ∀ trigger gate issue, rs_workflow st ≠ WFinalizing trigger gate issue
  | Some (FinalizationProgress progress) =>
      ∃ trigger gate issue, rs_workflow st = WFinalizing trigger gate issue ∧ afp_trigger progress = finalization_trigger trigger
        ∧ Forall (node_shows st) (afp_finalizers progress)
        ∧ bool_decide (is_Some (afp_cancellation progress)) = match gate with FinOpen => false | FinCancelling _ _ _ => true end
  | Some (FinalizationComplete complete) =>
      ∃ summary, rs_finalization_summary st = Some summary ∧ afc_trigger complete = finalization_trigger (fs_trigger summary)
        ∧ Forall2 (finalizer_shows summary) finalizers (afc_finalizers complete)
  end.

(** The attempt [after] is what the commit of [st] records of the attempt
    [before]. *)
Record recorded_run st finalizers (before after : LocalAttemptV1) : Prop := {
  rc_state : la_state after = attempt_state (rs_workflow st);
  rc_sequence : apr_last_transition_sequence (la_progress after) = rs_last_transition_sequence st;
  rc_same : Forall2 same_node (la_steps before) (la_steps after);
  rc_steps : Forall (node_shows st) (la_steps after);
  rc_force_abort : la_force_abort after = rs_force_abort st;
  rc_finalization : finalization_shows st finalizers (la_finalization after);
  rc_invocations : ∀ invocation, invocation ∈ apr_invocations (la_progress after) → is_active_invocation invocation = true →
                     durable_invocation_is_active invocation st = true;
  rc_outstanding : if is_final (rs_workflow st) then apr_outstanding_actions (la_progress after) = []
                   else ∀ action, action ∈ apr_outstanding_actions (la_progress after) ↔
                          ∃ node, node ∈ progress_nodes after ∧ action_of st node action
}.

Lemma update_progress_nodes_Ok st outputs nodes nodes' :
  update_progress_nodes st outputs nodes = Ok nodes' → Forall2 same_node nodes nodes' ∧ Forall (node_shows st) nodes'.
Proof.
  intros Hn%collect_results_Ok. induction Hn as [|node node' nodes nodes' Hnode _ [IH1 IH2]]; [done|].
  unfold update_progress_node in Hnode. apply result_bind_Ok in Hnode as (x & Hx & (kept & _ & [= <-])%result_bind_Ok).
  destruct (rs_steps st !! ast_id node) as [y|] eqn:Hy; [|done]. injection Hx as ->. split; constructor; try done. by exists x.
Qed.

Lemma durable_finalizer_shows shown finalizer :
  durable_finalizer shown = Ok finalizer →
  df_id finalizer = fr_finalizer shown ∧ df_failure_policy finalizer = fr_failure_policy shown
  ∧ df_state finalizer = attempt_step_state (fr_disposition shown) ∧ df_detail finalizer = attempt_step_detail (fr_disposition shown).
Proof.
  unfold durable_finalizer. destruct (fr_disposition shown) as [| | | | | | | | | | |[[]]|]; simpl; intros [= <-]; done.
Qed.

Lemma take_finalizers_Ok outputs expected (retained : gmap string DurableFinalizerV1) taken :
  take_finalizers outputs retained expected = Ok taken →
  Forall2 (λ node finalizer, ∃ original, retained !! ast_id node = Some original
    ∧ df_id finalizer = df_id original ∧ df_failure_policy finalizer = ast_failure_policy node
    ∧ df_state finalizer = df_state original ∧ df_detail finalizer = df_detail original) expected taken.1.
Proof.
  revert retained taken. induction expected as [|node expected IH]; simpl; intros retained taken; [intros [= <-]; constructor|].
  intros (original & Ho & Hk)%result_bind_Ok. destruct (retained !! ast_id node) as [o|] eqn:Eo; [|done]. injection Ho as ->.
  destruct (negb _ || _) eqn:Hpol; [done|]. apply result_bind_Ok in Hk as (kept & _ & (rest & Hrest%IH & [= <-])%result_bind_Ok).
  apply orb_false_iff in Hpol as [_ Hpol%negb_false_iff%bool_decide_eq_true]. constructor.
  - exists original. split_and!; [exact Eo|done..].
  - eapply Forall2_impl; [exact Hrest|]. intros n f (o & [_ Hd]%lookup_delete_Some & Hsame). by exists o.
Qed.

Lemma complete_finalization_shows st finalizers outputs summary finalization :
  rs_finalization_summary st = Some summary → complete_finalization deadline_utc finalizers outputs summary = Ok finalization →
  finalization_shows st finalizers (Some finalization).
Proof.
  intros Hsum. unfold complete_finalization. case_bool_decide; [done|]. intros (complete & Hcomplete & Hk)%result_bind_Ok.
  destruct (_ || _); [done|]. apply result_bind_Ok in Hk as (taken & Htaken%take_finalizers_Ok & Hk). destruct (negb _); [done|].
  injection Hk as <-. unfold durable_finalization_summary in Hcomplete.
  apply result_bind_Ok in Hcomplete as (fs & Hfs%collect_results_Ok & (c & _ & [= <-])%result_bind_Ok). simpl in *.
  exists summary. split_and!; [done..|]. simpl. eapply Forall2_impl; [exact Htaken|].
  intros node finalizer (original & Horig & Hid & Hpol & Hstate & Hdetail). apply elem_of_list_to_map_2 in Horig.
  apply list_elem_of_fmap in Horig as (original' & [= Hname ->] & Hin). rewrite elem_of_reverse in Hin.
  apply list_elem_of_lookup in Hin as (k & Hk). destruct (Forall2_lookup_r _ _ _ _ _ Hfs Hk) as (shown & Hshown & Hd).
  apply durable_finalizer_shows in Hd as (Hid' & _ & Hs & Hdt). unfold finalizer_shows. rewrite Hid, Hstate, Hdetail, Hs, Hdt.
  split_and!; [done..|]. exists shown. split_and!; [by eapply list_elem_of_lookup_2|congruence|done..].
Qed.

Lemma progress_finalization_shows st finalizers outputs before trigger gate issue finalization :
  rs_workflow st = WFinalizing trigger gate issue →
  progress_finalization deadline_utc finalizers outputs st before trigger gate = Ok finalization →
  finalization_shows st finalizers (Some finalization).
Proof.
  intros Hw. unfold progress_finalization. case_bool_decide; [done|]. intros (nodes & _ & Hk)%result_bind_Ok.
  apply result_bind_Ok in Hk as (cancellation & Hc & (nodes' & [_ Hn]%update_progress_nodes_Ok & [= <-])%result_bind_Ok).
  exists trigger, gate, issue. split_and!; [done..|]. simpl. destruct gate; [by injection Hc as <-|].
  by apply result_bind_Ok in Hc as (? & _ & [= <-]).
Qed.

Lemma update_step_progress_Ok attempt st finalizers outputs attempt' :
  update_step_progress deadline_utc attempt st finalizers outputs = Ok attempt' →
  ∃ steps finalization, Forall2 same_node (la_steps attempt) steps ∧ Forall (node_shows st) steps
    ∧ finalization_shows st finalizers finalization
    ∧ attempt' = set_progress (set_phase attempt (rs_force_abort st) finalization) (set_progress_steps (la_progress attempt) steps).
Proof.
  unfold update_step_progress. destruct (negb _); [done|]. destruct (match la_force_abort attempt with Some _ => _ | None => _ end); [done|].
  intros (steps & [Hsame Hshows]%update_progress_nodes_Ok & (finalization & Hfin & [= <-])%result_bind_Ok)%result_bind_Ok.
  exists steps, finalization. split_and!; [done..| |done]. destruct (rs_finalization_summary st) as [summary|] eqn:Es.
  - apply result_bind_Ok in Hfin as (complete & Hc & [= <-]). by eapply complete_finalization_shows.
  - destruct (rs_workflow st) as [gate|trigger gate issue| | |] eqn:Ew;
      [|apply result_bind_Ok in Hfin as (progress & Hp & [= <-]); by eapply progress_finalization_shows|..];
      destruct (_ || _); try done; injection Hfin as <-; (split; [done|]); intros; congruence.
Qed.

Lemma update_recovery_progress_Ok attempt st attempt' :
  update_recovery_progress attempt st = Ok attempt' →
  ∃ steps, Forall2 (λ node node', ∃ recovery, node' = set_step_recovery node recovery) (la_steps attempt) steps
    ∧ attempt' = set_progress attempt (set_progress_steps (la_progress attempt) steps).
Proof.
  unfold update_recovery_progress. intros (steps & Hs%collect_results_Ok & [= <-])%result_bind_Ok. exists steps. split; [|done].
  eapply Forall2_impl; [exact Hs|]. intros node node'. unfold update_recovery_node. intros (x & _ & Hk)%result_bind_Ok.
  destruct (ss_recovery x) as [recovery|]; [|injection Hk as <-; by eexists]. case_bool_decide; [injection Hk as <-; by eexists|].
  apply result_bind_Ok in Hk as (termination & _ & (rounds & _ & [= <-])%result_bind_Ok). by eexists.
Qed.

Lemma insert_outstanding_perm action actions : insert_outstanding action actions ≡ₚ action :: actions.
Proof. induction actions as [|first rest IH]; simpl; [done|]. destruct (_ <=? _)%N; [done|]. rewrite IH. apply Permutation_swap. Qed.

Lemma outstanding_actions_Ok attempt st actions :
  outstanding_actions attempt st = Ok actions →
  ∀ action, action ∈ actions ↔ ∃ node, node ∈ progress_nodes attempt ∧ action_of st node action.
Proof.
  unfold outstanding_actions. intros (found & Hfound%collect_results_Ok & [= <-])%result_bind_Ok action.
  assert (Hperm : ∀ l, foldr insert_outstanding [] l ≡ₚ l).
  { induction l as [|a l IH]; simpl; [done|]. by rewrite insert_outstanding_perm, IH. }
  rewrite Hperm, list_elem_of_omap. clear Hperm.
  assert (Hnode : ∀ node o, outstanding_action st node = Ok o → o = Some action ↔ action_of st node action).
  { intros node o. unfold outstanding_action. intros (x & Hx & Hk)%result_bind_Ok.
    destruct (rs_steps st !! ast_id node) as [y|] eqn:Hy; [|done]. injection Hx as ->. unfold action_of. rewrite Hy.
    destruct (ss_current_action x) as [id|] eqn:Ha; [|injection Hk as <-; split; [done|by intros (? & [= <-] & ? & _); congruence]].
    apply result_bind_Ok in Hk as (kind & Hkind & [= <-]). destruct (outstanding_kind (ss_state x)) as [k|] eqn:Ek; [|done].
    injection Hkind as ->. split.
    - intros [= <-]. exists x. simpl. split_and!; try done. by destruct (ss_active_invocation x) as [[]|].
    - intros (? & [= <-] & Hid & Hkd & Hs & Hr & Hboth). destruct action. simpl in *. f_equal.
      rewrite Ha in Hid. rewrite Ek in Hkd. destruct (ss_active_invocation x) as [[]|]; simpl; injection Hboth as -> ->; congruence. }
  split.
  - intros (o & (k & Hk)%list_elem_of_lookup & Ho). change (o = Some action) in Ho. subst o. destruct (Forall2_lookup_r _ _ _ _ _ Hfound Hk) as (node & Hn & Hact).
    exists node. split; [by eapply list_elem_of_lookup_2|]. by apply (Hnode _ _ Hact).
  - intros (node & (k & Hk)%list_elem_of_lookup & Ha). destruct (Forall2_lookup_l _ _ _ _ _ Hfound Hk) as (o & Ho & Hact).
    exists o. split; [by eapply list_elem_of_lookup_2|]. by apply (Hnode _ _ Hact).
Qed.

Lemma attempt_state_final (workflow : WorkflowState Deadline) : attempt_is_terminal (attempt_state workflow) = is_final workflow.
Proof. by destruct workflow as [[]|? []| | |]. Qed.

(** Settling changes the state of an attempt, its times, its result and its
    cancellation, and drops the actions of an attempt that ended. *)
Lemma settle_workflow_fields attempt (workflow : WorkflowState Deadline) now snapshot :
  let after := settle_workflow attempt workflow now snapshot in
  la_state after = attempt_state workflow ∧ la_force_abort after = la_force_abort attempt
  ∧ la_finalization after = la_finalization attempt
  ∧ la_progress after = if is_final workflow then set_outstanding (la_progress attempt) [] else la_progress attempt.
Proof. unfold settle_workflow. rewrite attempt_state_final. by destruct workflow as [[]|? []| | |]. Qed.

(** What a commit without a diagnostic makes of the current attempt. *)
Lemma commit_attempt_Ok answers commit finalizers diagnostics accounting outputs snapshot now attempt pending pending' after :
  commit_attempt deadline_utc answers commit finalizers diagnostics accounting outputs snapshot now attempt pending = (pending', Ok after) →
  recorded_run (cm_state commit) finalizers attempt after
  ∧ (is_final (rs_workflow (cm_state commit)) = false → ∀ action, action ∈ cm_actions commit → ca_kind action ≠ KindFinishRun →
       ∃ recorded, recorded ∈ apr_outstanding_actions (la_progress after)
         ∧ oa_action_id recorded = ca_id action ∧ oa_step_id recorded = ca_step action)
  ∧ ∃ base base' added grown settled total,
      ledger_result answers commit diagnostics accounting now base base' added grown settled total
      ∧ apr_invocations (la_progress base) = apr_invocations (la_progress attempt)
      ∧ apr_invocations (la_progress after) = apr_invocations (la_progress base').
Proof.
  unfold commit_attempt. set (st := cm_state commit).
  intros (a2 & p2 & [-> (steps & finalization & Hsame & Hshows & Hfin & ->)%update_step_progress_Ok]%ledger_lift_Ok & Hk)%ledger_bind_Ok.
  apply ledger_bind_Ok in Hk as (a3 & p3 & (added & grown & settled & total & Hledger)%update_invocation_ledger_Ok & Hk).
  apply ledger_bind_Ok in Hk as (a4 & p4 & [-> (steps' & Hrec & ->)%update_recovery_progress_Ok]%ledger_lift_Ok & Hk).
  apply ledger_bind_Ok in Hk as (actions & p5 & [-> Hact]%ledger_lift_Ok & Hk). pose proof (outstanding_actions_Ok _ _ _ Hact) as Hout.
  destruct (negb _) eqn:Hall; [done|]. apply negb_false_iff in Hall. rewrite forallb_forall in Hall.
  apply ledger_bind_Ok in Hk as (cancellation & p6 & _ & [= _ <-]).
  match goal with |- context [settle_workflow ?a ?w ?n ?s] => destruct (settle_workflow_fields a w n s) as (Hstate & Habort & Hfinal & Hprogress) end.
  set (after := settle_workflow _ _ _ _) in *. cbn [la_progress set_cancellation set_progress] in Hprogress.
  pose proof (lr_attempt _ _ _ _ _ _ _ _ _ _ _ Hledger) as ->. cbn in Hrec, Hall, Hout, Hprogress, Habort, Hfinal.
  assert (Hsteps : la_steps after = steps') by (unfold la_steps; rewrite Hprogress; by destruct (is_final _)).
  split_and!.
  - split; [done|rewrite Hprogress; by destruct (is_final _)|..].
    + rewrite Hsteps. eapply (Forall2_trans same_node _ same_node); [|exact Hsame|exact Hrec]. by intros a b c ? [r ->].
    + rewrite Hsteps. apply Forall_lookup. intros i node Hi. destruct (Forall2_lookup_r _ _ _ _ _ Hrec Hi) as (old & Hold & r & ->).
      by apply (Forall_lookup_1 _ _ _ _ Hshows Hold).
    + done.
    + by rewrite Hfinal.
    + intros invocation Hin Hactive.
      assert (Hin' : invocation ∈ foldr insert_durable [] settled) by (revert Hin; rewrite Hprogress; by destruct (is_final _)).
      rewrite sort_durable_perm in Hin'. apply list_elem_of_lookup in Hin' as (k & Hk).
      destruct (Forall2_lookup_r _ _ _ _ _ (lr_settles _ _ _ _ _ _ _ _ _ _ _ Hledger) Hk) as (old & _ & Hset).
      by destruct (settle_invocation_active _ _ _ _ _ _ _ _ Hset Hactive) as [-> ?].
    + rewrite Hprogress. destruct (is_final _) eqn:Ef; [done|]. intros action. unfold progress_nodes. rewrite Hsteps, Hfinal. apply Hout.
  - intros Hopen action Hin Hkind. rewrite Hprogress, Hopen. specialize (Hall action (proj1 (list_elem_of_In _ _) Hin)).
    unfold action_recorded in Hall. destruct (ca_kind action); try done; apply existsb_exists in Hall as (recorded & Hr%list_elem_of_In & Heq);
      exists recorded; (split; [done|]); apply andb_true_iff in Heq as [[H1%N.eqb_eq H2%bool_decide_eq_true]%andb_true_iff _]; done.
  - eexists _, _, added, grown, settled, total. split; [exact Hledger|]. split; [done|]. rewrite Hprogress. by destruct (is_final _).
Qed.

(** An update of the store that succeeds. *)
Lemma update_with_pending_Ok mutate store replaced store' :
  update_with_pending mutate store replaced = (store', Ok tt) →
  ∃ next, mutate (so_current store) (so_pending store) = (so_pending store', Ok next)
    ∧ so_current store' = set_revision next (ls_revision next + 1) ∧ validate_state (so_current store') = Ok tt.
Proof.
  unfold update_with_pending. destruct (mutate _ _) as [pending next] eqn:E. destruct (store_update _ _ _) as [changed|] eqn:Es; [|done].
  intros [= <-]. apply store_update_Ok in Es as (n & -> & Heq & Hv). by exists n.
Qed.

Lemma append_diagnostic_Ok (state state' : LocalRunStateV1) number code :
  append_diagnostic state number code = Ok state' → ls_attempts state' = ls_attempts state ∧ ls_revision state' = ls_revision state.
Proof. unfold append_diagnostic. by intros (sequence & _ & [= <-])%result_bind_Ok. Qed.

Lemma commit_runtime_Ok answers commit finalizers diagnostics accounting store store' :
  commit_runtime deadline_utc answers commit finalizers diagnostics accounting store = (store', Ok tt) → cm_diagnostic commit = None →
  validate_state (so_current store') = Ok tt ∧ ls_revision (so_current store') = (ls_revision (so_current store) + 1)%N
  ∧ ∃ earlier before after outputs snapshot now pending pending',
      ls_attempts (so_current store) = earlier ++ [before] ∧ ls_attempts (so_current store') = earlier ++ [after]
      ∧ attempt_is_terminal (la_state before) = false
      ∧ commit_attempt deadline_utc answers commit finalizers diagnostics accounting outputs snapshot now
          (set_started before (get_or_insert (la_started_at before) now)) pending = (pending', Ok after).
Proof.
  unfold commit_runtime. intros Hrun Hnone. destruct (retain_outputs _ _ _ _) as [outputs|]; [|done].
  apply update_with_pending_Ok in Hrun as (next & Hnext & Hcur & Hv). split; [done|]. rewrite Hcur. unfold commit_state in Hnext.
  apply ledger_bind_Ok in Hnext as (now & p1 & _ & Hk).
  apply ledger_bind_Ok in Hk as ([earlier before] & p2 & [-> Hlast%current_attempt_last]%ledger_lift_Ok & Hk).
  destruct (attempt_is_terminal (la_state before)) eqn:Ht; [done|]. rewrite Hnone in Hk.
  apply ledger_bind_Ok in Hk as (after & p3 & Hafter & Hk).
  assert (Hsame : ls_attempts next = earlier ++ [after] ∧ ls_revision next = ls_revision (so_current store)).
  { destruct (cm_occurrence_accepted commit); [by injection Hk as _ <-|]. by apply ledger_lift_Ok in Hk as [_ [? ?]%append_diagnostic_Ok]. }
  destruct Hsame as [Hatt Hrev]. cbn [set_revision ls_revision ls_attempts]. rewrite Hrev, Hatt. split; [done|].
  exists earlier, before, after. do 5 eexists. split_and!; [exact Hlast|done|exact Ht|exact Hafter].
Qed.

End records.

(** ** Attempts that cannot be settled *)

Section stuck.
Context `{!TimeLibrary, !MediaTypes}.
Implicit Types (attempt : LocalAttemptV1) (state : LocalRunStateV1).

(** No valid state has an attempt that ended with the invocations of a stuck
    attempt. *)
Lemma stuck_never_settled attempt state before settled after :
  stuck_attempt attempt = true → validate_state state = Ok tt → ls_attempts state = before ++ settled :: after →
  attempt_is_terminal (la_state settled) = true → apr_invocations (la_progress settled) = apr_invocations (la_progress attempt) → False.
Proof.
  intros [_ Hactive]%andb_true_iff Hv Hl Ht Hp. assert (Hin : settled ∈ ls_attempts state) by (rewrite Hl; set_solver).
  pose proof (terminal_without_active _ _ Hv Hin Ht). congruence.
Qed.

Lemma stuck_open attempt : stuck_attempt attempt = true → attempt_is_terminal (la_state attempt) = false.
Proof. by intros [Hopen%negb_true_iff _]%andb_true_iff. Qed.

(** A stuck attempt is not continued, not settled, not retried, and its owner
    cannot record that the state could not be written. *)
Lemma stuck_not_continued pending from start attempt result :
  last (ls_attempts (pc_state pending)) = Some attempt → stuck_attempt attempt = true → begin_continuation pending from start ≠ Ok result.
Proof.
  intros Hlast Hstuck. destruct result as [a state]. intros (_ & (earlier & p & Hold & Hnew) & Hv)%begin_continuation_continues.
  rewrite Hold, last_snoc in Hlast. injection Hlast as ->. unfold settled_prior, settle_abandoned in Hnew.
  rewrite (stuck_open _ Hstuck), <-app_assoc in Hnew. by eapply (stuck_never_settled attempt); [done|exact Hv|exact Hnew|..].
Qed.

Lemma stuck_not_settled state attempt snapshot io replaced now next :
  last (ls_attempts state) = Some attempt → stuck_attempt attempt = true →
  settle_abandoned_snapshot state snapshot io replaced now ≠ Ok next.
Proof.
  intros Hlast Hstuck. unfold settle_abandoned_snapshot. rewrite Hlast, (stuck_open _ Hstuck).
  intros (? & _ & (changed & Hc & -> & Hv)%store_update_Ok)%result_bind_Ok.
  apply result_bind_Ok in Hc as ([earlier p] & Hold%current_attempt_last & (time & _ & [= <-])%result_bind_Ok).
  rewrite Hold, last_snoc in Hlast. injection Hlast as ->. by eapply (stuck_never_settled attempt); [done|exact Hv|reflexivity|..].
Qed.

Lemma stuck_not_retried state attempt number retried snapshot now replaced next :
  last (ls_attempts state) = Some attempt → stuck_attempt attempt = true →
  store_update (retry_update number retried snapshot now) state replaced ≠ Ok next.
Proof.
  intros Hlast Hstuck (changed & Hc & -> & Hv)%store_update_Ok. unfold retry_update in Hc. destruct (negb _); [done|].
  apply result_bind_Ok in Hc as ([earlier p] & Hold%current_attempt_last & Hc). cbn [fst snd] in Hc.
  rewrite Hold, last_snoc in Hlast. injection Hlast as ->. rewrite (stuck_open _ Hstuck) in Hc.
  apply result_bind_Ok in Hc as (s & (time & _ & [= <-])%result_bind_Ok & [= <-]).
  by eapply (stuck_never_settled attempt); [done|exact Hv|reflexivity|..].
Qed.

Lemma stuck_not_faulted state attempt snapshot now replaced next :
  last (ls_attempts state) = Some attempt → stuck_attempt attempt = true →
  store_update (record_state_persistence_failure snapshot now) state replaced ≠ Ok next.
Proof.
  intros Hlast Hstuck (changed & Hc & -> & Hv)%store_update_Ok.
  apply result_bind_Ok in Hc as ([earlier p] & Hold%current_attempt_last & Hc).
  rewrite Hold, last_snoc in Hlast. injection Hlast as ->. rewrite (stuck_open _ Hstuck) in Hc.
  apply result_bind_Ok in Hc as (time & _ & [Ha _]%append_diagnostic_Ok).
  by eapply (stuck_never_settled attempt); [done|exact Hv|exact Ha|..].
Qed.

Lemma stuck_not_interrupted {Output Deadline : Type} (deadline_utc : Deadline → OffsetDateTime) (answers : CommitAnswers (Output := Output))
    commit finalizers diagnostics accounting store store' attempt :
  last (ls_attempts (so_current store)) = Some attempt → stuck_attempt attempt = true →
  cm_diagnostic commit = Some DiagTransitionCapacityExceeded →
  commit_runtime deadline_utc answers commit finalizers diagnostics accounting store ≠ (store', Ok tt).
Proof.
  intros Hlast Hstuck Hdiag. unfold commit_runtime. destruct (retain_outputs _ _ _ _) as [outputs|]; [|done].
  intros (next & Hnext & Hcur & Hv)%update_with_pending_Ok. unfold commit_state in Hnext.
  apply ledger_bind_Ok in Hnext as (now & p1 & _ & Hk).
  apply ledger_bind_Ok in Hk as ([earlier before] & p2 & [-> Hl%current_attempt_last]%ledger_lift_Ok & Hk).
  rewrite Hl, last_snoc in Hlast. injection Hlast as ->. rewrite (stuck_open _ Hstuck), Hdiag in Hk.
  apply ledger_bind_Ok in Hk as (time & p3 & _ & [_ [Ha _]%append_diagnostic_Ok]%ledger_lift_Ok). rewrite Hcur in Hv.
  by eapply (stuck_never_settled attempt); [done|exact Hv|exact Ha|..].
Qed.
End stuck.

Section crashes.
Context `{!TimeLibrary, !MediaTypes} {Provisional Output Deadline : Type} (deadline_utc : Deadline → OffsetDateTime).
Context `{!SerdeJson, !ConditionOutput Output, !ProvisionalStepResources Provisional}.

Local Abbreviation State := (RuntimeState StepFailureCause Output Deadline).
Local Abbreviation Occ := (Occurrence Provisional StepFailureCause Output Deadline).

Implicit Types (st : State) (o : Occ) (answers : CommitAnswers (Output := Output)).

(** A commit that starts the handler of a recovery leaves a stuck attempt. *)
Lemma handler_commit_stuck D st o ordinal answers finalizers diagnostics accounting store store' prior s round kind past id handler :
  definition_wf D → reachable D st →
  commit_runtime deadline_utc answers (record_of ordinal (reduce st o)) finalizers diagnostics accounting store = (store', Ok tt) →
  {| ra_id := id; ra_action := StartRecoveryHandler s round kind past |} ∈ rd_actions (reduce st o) →
  ss_state <$> rs_steps (rd_state (reduce st o)) !! s = Some (SRecovering round handler) →
  last (ls_attempts (so_current store)) = Some prior → recorded_invocation (apr_invocations (la_progress prior)) id = false →
  ∃ attempt, last (ls_attempts (so_current store')) = Some attempt ∧ stuck_attempt attempt = true.
Proof.
  intros HD Hreach Hrun Haction Hstate Hlast Hnew.
  destruct (commit_runtime_Ok _ _ _ _ _ _ _ _ Hrun eq_refl) as (Hv & _ & earlier & before & after & outputs & snapshot & now & p & p' & Hb & Ha & Ht & Hc).
  rewrite Hb, last_snoc in Hlast. injection Hlast as ->. exists after. split; [by rewrite Ha, last_snoc|].
  destruct (commit_attempt_Ok _ _ _ _ _ _ _ _ _ _ _ _ _ Hc) as (_ & _ & base & base' & added & grown & settled & total & Hledger & Hbefore & Hafter).
  destruct (rs_steps (rd_state (reduce st o)) !! s) as [x|] eqn:Hx; [|done]. injection Hstate as Hstate.
  destruct (reachable_node_ok D (rd_state (reduce st o)) HD (reach_reduce D st o Hreach)) as (Hnode & Hwf & HDef).
  assert (Hrounds : ss_active_invocation x = Some (ActiveRecoveryHandler round) ∧ ∃ v, ss_recovery x = Some v ∧ sr_rounds v ≠ []).
  { destruct (wf_defined _ _ _ Hwf Hx) as [d Hd].
    destruct (Hnode s d x (conj Hx Hd)) as [_ Hact]. unfold activity_ok in Hact. rewrite Hstate in Hact.
    destruct Hact as (_ & _ & Heq & Hpos & _ & Hi). split; [done|]. unfold rounds_of in Hpos.
    destruct (ss_recovery x) as [v|]; [|simpl in Hpos; lia]. exists v. split; [done|]. by destruct (sr_rounds v). }
  destruct Hrounds as (Hactive & v & Hrec & Hne).
  assert (Hstuck : existsb is_active_invocation (apr_invocations (la_progress after)) = true).
  { rewrite Hafter. eapply (started_handler_recorded _ _ _ _ _ _ _ _ _ _ _ {| ca_id := id; ca_kind := KindStartRecoveryHandler; ca_step := Some s;
      ca_execution_number := None; ca_recovery_round := Some round |} s round x v); [exact Hledger| |done..|].
    - simpl. apply list_elem_of_omap. eexists. split; [exact Haction|]. done.
    - by rewrite Hbefore. }
  unfold stuck_attempt. rewrite Hstuck, andb_true_r. apply negb_true_iff, not_true_iff_false. intros Hterm.
  assert (Hin : after ∈ ls_attempts (so_current store')) by (rewrite Ha; set_solver).
  pose proof (terminal_without_active _ _ Hv Hin Hterm). congruence.
Qed.

(** C37: a run that dies in a recovery is lost.  When a commit of a running
    workflow starts the handler of a recovery, its invocation is recorded as
    active.  If the process dies before the next commit, the run cannot be
    continued, its attempt cannot be settled and it cannot be retried; and if
    the process lives but cannot write the next state, or runs out of
    transitions, it cannot record that either.  Each of these updates marks the
    attempt as interrupted, leaves the invocation active, and is then refused
    by the check of the state. *)
Theorem recovery_crash_blocks_run D st o ordinal answers finalizers diagnostics accounting store store' prior s round kind past id handler :
  definition_wf D → reachable D st →
  commit_runtime deadline_utc answers (record_of ordinal (reduce st o)) finalizers diagnostics accounting store = (store', Ok tt) →
  {| ra_id := id; ra_action := StartRecoveryHandler s round kind past |} ∈ rd_actions (reduce st o) →
  ss_state <$> rs_steps (rd_state (reduce st o)) !! s = Some (SRecovering round handler) →
  last (ls_attempts (so_current store)) = Some prior → recorded_invocation (apr_invocations (la_progress prior)) id = false →
  (∀ pending from start result, pc_state pending = so_current store' → begin_continuation pending from start ≠ Ok result)
  ∧ (∀ snapshot io replaced now state, settle_abandoned_snapshot (so_current store') snapshot io replaced now ≠ Ok state)
  ∧ (∀ number retried snapshot now replaced state,
       store_update (retry_update number retried snapshot now) (so_current store') replaced ≠ Ok state)
  ∧ (∀ snapshot now replaced state, store_update (record_state_persistence_failure snapshot now) (so_current store') replaced ≠ Ok state)
  ∧ ∀ answers' ordinal' st' finalizers' diagnostics' accounting' store'',
      commit_runtime deadline_utc answers' (diagnostic_of ordinal' st' DiagTransitionCapacityExceeded) finalizers' diagnostics' accounting' store'
      ≠ (store'', Ok tt).
Proof.
  intros HD Hreach Hrun Haction Hstate Hlast Hnew.
  destruct (handler_commit_stuck _ _ _ _ _ _ _ _ _ _ _ _ _ _ _ _ _ HD Hreach Hrun Haction Hstate Hlast Hnew) as (attempt & Hlast' & Hstuck).
  split_and!.
  - intros pending from start result Hp. eapply stuck_not_continued; [by rewrite Hp|done].
  - intros. by eapply stuck_not_settled.
  - intros. by eapply stuck_not_retried.
  - intros. by eapply stuck_not_faulted.
  - intros. by eapply stuck_not_interrupted.
Qed.
End crashes.

(** ** A concrete run

    The sample workflow, committed to the state of its first attempt until its
    deployment fails and the handler of its recovery is started. *)

Definition sample_capacity : ComputedWorkflowCapacity :=
  ltac:(let value := eval vm_compute in (resolve_workflow_capacity sample_workflow 0) in
        match value with Ok ?capacity => exact capacity end).

Definition sample_start : ContinuationStart :=
  {| cs_workflow := {| rw_definition := sample_workflow; rw_source_closure := []; rw_source := rw_source publish_resolved;
                       rw_content_digest := sample_sha256 |};
     cs_inputs := []; cs_maximum_parallel_steps := 2; cs_execution_root := "/work"; cs_git_capture := None; cs_capacity := sample_capacity;
     cs_replacement_requested := false; cs_lock_identity := Ok tt; cs_contains_directory := Some false; cs_attempt_directory := Ok tt;
     cs_retained_manifest := Ok sample_sha256; cs_start_snapshot := sample_snapshot None;
     cs_abandonment_snapshot := sample_snapshot (Some SettledByAbandonmentRecovery); cs_created_at := Ok "10Z"%string;
     cs_attempt_id := Ok (sample_uuid "1"); cs_owner_nonce := Ok (sample_uuid "3"); cs_execution_host := Ok sample_host;
     cs_state_store := Ok tt; cs_settled_at := Ok "12Z"%string; cs_replaced := Ok tt |}.

Definition sample_finalizers : list AttemptStepV1 :=
  omap (λ id, (λ finalizer, fresh_progress_node id AttemptFinalizer (vf_body finalizer)) <$> bt_get (vw_finalizers sample_workflow) id)
    (vw_finalizer_presentation_order sample_workflow).

Definition sample_answers : CommitAnswers (Output := ScenarioOutput) :=
  {| an_attempts_directory := Ok tt; an_values_directory := Ok tt; an_node_directory _ _ := Ok tt;
     an_retain role node name _ :=
       Ok (RetainedText name None (sample_carrier (retained_value_relative_path role node name) "text/plain; charset=utf-8"));
     an_node_synced _ _ := Ok tt; an_values_synced := Ok tt; an_diagnostics_written _ := Ok tt;
     an_snapshot := sample_snapshot (Some SettledByEngine); an_now := Ok "11Z"%string; an_interrupted_at := Ok "11Z"%string;
     an_replaced := Ok tt |}.

Abbreviation CState := (RuntimeState StepFailureCause ScenarioOutput N).
Abbreviation COccurrence := (Occurrence bool StepFailureCause ScenarioOutput N).

(** A deadline is the time it names. *)
Definition sample_deadline (deadline : N) : OffsetDateTime (TimeLibrary := sample_time) := deadline.

Definition sample_commit (ordinal : N) (reduction : Reduction bool StepFailureCause ScenarioOutput N) (store : StateStore)
    : StateStore * result unit LocalRunDirectoryError :=
  commit_runtime sample_deadline sample_answers (record_of ordinal reduction) sample_finalizers {| dl_entries := []; dl_recovery_handlers := [] |}
    {| al_usage := ∅; al_native_sessions := ∅ |} store.

Definition deploying_occurrences : list COccurrence :=
  [StepStarted "build" 1; StepExecutionCompleted "build" 1 true; OutputsCaptured "build" 3 [("log"%string, OutText "ok")];
   StepStarted "deploy" 5].

(** The state of the run while its deployment runs, and the failure of it. *)
Definition deploying : CState :=
  foldl (λ st o, rd_state (reduce st o)) (rd_state (initialize_seeded_definition (Provisional := bool) sample None [])) deploying_occurrences.

Definition deployment_failed : COccurrence := StepExecutionFailed "deploy" 5 (CauseExecution ExecTaskUnavailable).

(** Each commit of the run, with the number of the next one. *)
Definition commit_turn (acc : N * CState * StateStore) (o : COccurrence) : N * CState * StateStore :=
  let '(ordinal, st, store) := acc in
  let reduction := reduce st o in ((ordinal + 1)%N, rd_state reduction, (sample_commit ordinal reduction store).1).

Definition deploying_store : StateStore :=
  ltac:(let value := eval vm_compute in
          (match initial_run_state sample_start publish_run (sample_uuid "5") "10Z" with
           | Ok state =>
               let reduction := initialize_seeded_definition (Provisional := bool) sample None [] in
               let store := (sample_commit 1 reduction {| so_current := state; so_pending := [] |}).1 in
               Some (foldl commit_turn (2%N, rd_state reduction, store) deploying_occurrences).2
           | Err _ => None
           end) in
        match value with Some ?store => exact store end).

Definition recovering_store : StateStore :=
  ltac:(let value := eval vm_compute in (sample_commit 6 (reduce deploying deployment_failed) deploying_store) in
        match value with (?store, Ok tt) => exact store end).

Lemma recovering_committed :
  commit_runtime sample_deadline sample_answers (record_of 6 (reduce deploying deployment_failed)) sample_finalizers
    {| dl_entries := []; dl_recovery_handlers := [] |} {| al_usage := ∅; al_native_sessions := ∅ |} deploying_store
  = (recovering_store, Ok tt).
Proof. vm_compute. reflexivity. Qed.

Lemma deploying_reachable : reachable (Provisional := bool) sample deploying.
Proof.
  unfold deploying. generalize deploying_occurrences. intros occurrences.
  assert (Hinitial : reachable (Provisional := bool) sample
    (rd_state (initialize_seeded_definition (Provisional := bool) (Cause := StepFailureCause) (Output := ScenarioOutput) (Deadline := N) sample None []))).
  { apply reach_initial. intros s v Hs. discriminate Hs. }
  revert Hinitial. generalize (rd_state (initialize_seeded_definition (Provisional := bool) (Cause := StepFailureCause)
    (Output := ScenarioOutput) (Deadline := N) sample None [])).
  induction occurrences as [|o occurrences IH]; intros st Hst; [exact Hst|]. apply IH, reach_reduce, Hst.
Qed.


(** The state that the commit wrote is valid, and the run is lost. *)
Lemma recovery_crash_blocks_run_witness :
  validate_state (so_current recovering_store) = Ok tt
  ∧ ∀ state, settle_abandoned_snapshot (so_current recovering_store) (sample_snapshot (Some SettledByAbandonmentRecovery)) (Ok tt) (Ok tt)
      (Ok "12Z"%string) ≠ Ok state.
Proof.
  split; [vm_compute; reflexivity|]. intros state.
  eapply (recovery_crash_blocks_run sample_deadline sample deploying deployment_failed 6 sample_answers sample_finalizers
    {| dl_entries := []; dl_recovery_handlers := [] |} {| al_usage := ∅; al_native_sessions := ∅ |} deploying_store recovering_store).
  - exact sample_wf.
  - exact deploying_reachable.
  - exact recovering_committed.
  - apply list_elem_of_In. vm_compute. left. reflexivity.
  - vm_compute. reflexivity.
  - vm_compute. reflexivity.
  - vm_compute. reflexivity.
Defined.
